(* ===== verification/_CoqProject ===== *)
-Q . S2P
Prelude.v
RustStr.v
Float64.v
Errors.v
TokenBudget.v
RequestState.v
Retry.v
Store.v
ExecutionLease.v
Streaming.v
Lifecycle.v
LeaseSystem.v
Admission.v
GraphqlText.v
Truncation.v
InferenceCalls.v
ToolCall.v
ToolApproval.v
ToolRecovery.v
Messages.v
History.v
HistorySplit.v
Compaction.v
ToolArgs.v
OutputObligation.v
Denial.v
ToolDispatch.v
AgentTurn.v
AgentLoop.v
AgentLoopRuns.v
AgentLoopTrace.v
AgentLoopHistory.v
AgentConsumer.v
Utf8.v
CommandPolicy.v
ToolSurface.v
ToolPaths.v
BashTool.v
EditMatch.v
FileTools.v
ScheduleCron.v
TriggerEngine.v
TriggerMaterializer.v
ScheduleSource.v
BackendHealth.v
Points.v
RequestQueue.v
CompletionText.v
BackgroundCompletion.v
Goals.v
GoalSource.v
