(* ===== verification/Prelude.v ===== *)
(** * Gents: a verification development

    Gents is an agent runtime: it watches requests in a document database (DefraDB),
    claims them, drives a language model through a tool loop, streams the answer back
    as documents, and settles every request exactly once although runtimes crash,
    race each other and lose commits.  This library models the parts of
    [crates/gents] (and of [crates/gents-protocol]) that carry that promise, as
    executable definitions, and proves what makes them correct.

    ** The program and its model

    A request is a row of the [AgentRequest] collection; its [lifecycle_state] column,
    execution generation, lease expiry and progress counter are the authority every
    writer is fenced by.  A runtime claims a pending request, opens a response row,
    streams into it under the lease, and terminalizes both rows in one transaction;
    a sweep recovers what an owner abandoned.  Each provider call of the loop is
    budgeted, admitted by its backend's controller, recorded, and retried under a
    bounded ledger.

    - [Prelude]: machine integers with the source's saturating and checked operations,
      [result] and the [?] operator, the shared tactics.
    - [RustStr]: strings as lists of Unicode scalar values, with the functions of
      [str] the code calls; lengths and offsets in UTF-8 bytes.
    - [Float64]: binary64 by the Standard Library's executable specification.
    - [Errors]: [error.rs], the classification of provider failures.
    - [TokenBudget]: [provider_usage.rs], [provider_input/budget.rs],
      [agent/loop_stream/aggregate_budget.rs] and the dispatch gate of
      [request_assembly.rs].
    - [RequestState]: [gents-protocol/src/request_lifecycle.rs],
      [lifecycle/execution_policy.rs] and the pure parts of [lifecycle.rs].
    - [Retry]: [retry.rs] and [agent/completion_retry.rs].
    - [Store]: the collections, the interface [DocStore] with its laws
      [DocStoreLaws] (DefraDB is not part of the repository), an in-memory instance
      that satisfies them, and the transaction monad with a fault before every
      statement.
    - [ExecutionLease]: [lifecycle/execution_lease.rs], the fenced response write, the
      terminal write, recovery and revocation, each as attempts of one transaction.
    - [Streaming]: [streaming.rs] and [streaming/queries.rs], the response buffers.
    - [Lifecycle]: [lifecycle.rs], [lifecycle/claim.rs], [query.rs], [recovery.rs],
      [queue/metadata.rs] and the session projection of [materialize.rs].
    - [LeaseSystem]: the committed effects of all of these as one step relation.
    - [Admission]: [admission/config.rs], [controller.rs], [registry.rs] and the
      release order of [permit.rs], as a step machine of concurrent tasks and one
      reconciliation.
    - [GraphqlText]: the three gates of [gents-protocol/src/graphql.rs] through which
      values enter query texts.
    - [Truncation]: [truncation.rs] and [truncation/logic.rs].
    - [InferenceCalls]: [admission/persistence.rs], [admission/recovery.rs] and the
      settlement half of [admission/permit.rs].
    - [ToolCall], [ToolApproval], [ToolRecovery]: [tool_call_lifecycle.rs] with its
      transitions, [hook/persistence/approval.rs] and
      [tool_call_lifecycle/recovery.rs], the rows of tool calls and everyone who
      settles them.
    - [Messages], [History], [HistorySplit], [Compaction]: [gents-protocol]'s messages,
      the provider view of a transcript, where it may be cut, and the rolling
      reduction of [compaction.rs].
    - [ToolArgs], [Denial], [ToolDispatch]: [llm/tool.rs], the repair of
      [request_assembly.rs], [toolset/denial.rs], [agent/loop_stream/tool_dispatch.rs]
      and the outcomes of [tool_call_lifecycle/runtime.rs].
    - [OutputObligation]: [agent/output_obligation.rs].
    - [AgentTurn], [AgentLoop] with its proofs [AgentLoopRuns], [AgentLoopTrace] and
      [AgentLoopHistory], [AgentConsumer]: [agent/loop_stream.rs] and its parts, the
      turn loop as a function of its environment with the trace it leaves, and the
      consumers [agent/stream_processor.rs] and [one_shot.rs].
    - [CommandPolicy]: [toolset/shared/command.rs], what a command may be, the
      workspace authority, the environment and the recorded command line.
    - [ToolSurface]: [tool_surface/policy.rs], [modes.rs], [selection.rs] and
      [build.rs], the meet of what a behavior selects, the host allows and the runtime
      has, down to the policy of the shell tool.
    - [ToolPaths]: [toolset/shared/context.rs] and the tool roots of [build.rs].
    - [BashTool]: [toolset/bash_tools.rs] and [run_command], from the gate to the text
      the model sees.
    - [Utf8]: strict UTF-8, as the standard library decodes and encodes it.
    - [EditMatch], [FileTools]: [toolset/edit_match.rs], [toolset/file_tools.rs] and
      [toolset/shared/filesystem.rs], the edit ladder and the tools that read, write
      and edit files under a lock per file.
    - [ScheduleCron]: [schedule_cron.rs], cron expressions and the next run.
    - [TriggerEngine]: [trigger_engine/mod.rs] with the templates it renders and the
      keys it derives: one dispatch as a function of a materializer ([MaterializerHandle])
      and all dispatches, with the table of locks, as a step relation.
    - [TriggerMaterializer]: [trigger_engine/production_materializer.rs] with the request
      building of [lifecycle/materialize.rs] and the goal-backed submission of [goal.rs]
      over the store; the instance [production_laws] of what the engine relies on
      ([MaterializerLaws]).
    - [ScheduleSource]: [trigger_engine/schedule_source.rs], the cadences of
      [runtime_snapshot.rs] and the runtime fields of [document_config/schedule.rs].
    - [BackendHealth]: [backend_health.rs], measured health and its veto.
    - [Points]: operations as sequences of points at which others write and writes may
      fail, and transactions that read a snapshot ([PM], [gm_transaction]); a rely logic
      in which an operation moves the store as the others do ([moves]) and its success
      has a postcondition ([runs]).
    - [RequestQueue]: [lifecycle/queue] and the interrupt latch of [interrupt.rs]:
      coalescing, draining and the transactions that bind an input to the request that
      consumes it.
    - [CompletionText]: [background_completion/rendering.rs], the text of a completion
      and how it is found again.
    - [BackgroundCompletion]: [background_completion/notification_delivery.rs] and
      [side_effects.rs], how the end of a background tool or child reaches its parent's
      session; [request_binding.rs] and the request validation of [watcher.rs].
    - [Goals]: [goal.rs] and [hook/persistence/goal_tools.rs], the states of a durable
      goal, its documents and creation claims with the operations that write them.
    - [GoalSource]: [trigger_engine/goal_source.rs] and
      [lifecycle/queue/goal_continuation.rs], the controller that continues goals; the
      contract [source_step] of everyone who writes goals and their requests, and a
      small logic of triples in which the operations are shown to keep it.

    The tools meet in [FileTools] and [BashTool]: both resolve their paths through
    [ToolPaths], the shell is gated by [CommandPolicy] with the policy [ToolSurface]
    built, and what they answer enters the loop through [ToolDispatch].

    ** What the theorems show

    - Settlement ([LeaseSystem], [ExecutionLease], [RequestState]): along any
      interleaving a settled request keeps its terminal state and is never won twice;
      requests and responses agree; a terminal write is atomic; a fenced write
      succeeds only for the owning generation within its lease and renews it;
      recovery wins exactly when the lease has passed; the operations with their
      retries and ambiguous commits refine the step relation.
    - Claiming, streaming and sweeping ([Lifecycle], [Streaming]): a claim is exclusive
      and in session order, each claim outcome is what the store holds, the buffer
      keeps every token and completion certifies the final flush, the sweep spares
      live leases, re-drives are bounded.
    - Budgets and retries ([TokenBudget], [Retry], [Errors]): every dispatched attempt
      fits the context window and the request's ledger, a request never overruns its
      limit, rehydrated usage equals live usage; attempts, backoff and terminal
      persistence are bounded and meet their deadlines.
    - Admission ([Admission], [InferenceCalls]): slots never leak, one controller
      generation admits at a time, no drained backend is forgotten, a reconciliation
      ends and serves its configurations; the first terminal outcome of a call wins
      and its charged usage is durable.
    - Text ([GraphqlText], [Truncation]): escaped values read back exactly, the filter
      gate accepts exactly one balanced object, truncation shows a maximal window.

    - Tool calls ([ToolCall], [ToolApproval], [ToolRecovery], [ToolDispatch]): a settled
      call keeps its verdict and is won once, a held call runs only after its first
      approval, recovery never overwrites, answers come in time, denials survive the
      dispatch.
    - Conversations ([History], [HistorySplit], [Compaction], [ToolArgs]): what a
      provider is sent is well paired, narrowing and repair are stable, a split never
      separates a call from its result, an admitted reduction is exact.
    - The loop ([AgentLoopRuns], [AgentLoopTrace], [AgentLoopHistory], [AgentConsumer],
      [OutputObligation]): it ends within its turn limit and retry budget; tools run
      only for announced calls and answer in order; every request sent was captured
      and fits; an answer is final only when its contract and obligations are met; the
      consumer persists exactly the turns the loop threads.
    - Commands ([CommandPolicy], [ToolSurface], [BashTool]): the gate accepts exactly
      the commands a declarative specification permits; a workspace binding and the
      meet of surfaces only narrow, no party is overruled; whatever is spawned was
      permitted, runs below the root, without credentials, with a bounded deadline;
      only exit code 0 is a success; the recorded command line reads back.
    - Files ([ToolPaths], [EditMatch], [FileTools]): paths stay below the root without
      links; each outcome of an edit means what it says and drift in whitespace does
      not change it; a file with one kind of line ending changes only at the edited
      place; an edit writes what it decided from the bytes it validated, and no
      interleaving of edits and writes loses an update; the similarity hint is based
      on the edit distance.

    - Triggers ([TriggerEngine], [TriggerMaterializer], [ScheduleCron],
      [ScheduleSource]): a serial or latest-only trigger never has two live requests and
      a group never two requests, in every interleaving of dispatches, executors and
      faults; a durable fire is not repeated and its identity is unambiguous; every
      dispatch reports once; the next cron run is the first matching minute, and the
      slots of a schedule follow each other.
    - Health ([BackendHealth]): a backend is vetoed exactly after [k] failed probes in a
      row, and a vetoed backend is unavailable to admission.

    - Goals ([Goals], [GoalSource]): the operations refine the contract whatever others
      write between their points; a goal has at most one continuation of a request, each
      under its claim; retries are bounded; a claim without its child is published by
      the next rescan; a model creates the goal of its session once; a goal is blocked
      after three requests that name one condition.

    - The queue ([RequestQueue]): a notification is bound to a wake that is pending when
      its transaction commits, in every interleaving; the completions of a session share
      one wake; reconciling leaves the oldest request, draining none.

    - Completions ([CompletionText], [BackgroundCompletion]): a completion is
      acknowledged only when the session has it and a wake will read it; it is told
      once, because the escaped text of one call never passes for another's; a delivery
      that was cut short is finished and not repeated; summaries are bounded.

    Where the code does not do what it means to, the theorem says so:
    [Admission.removed_backend_is_reinstalled] (a backend removed while it drains comes
    back), [Admission.drained_with_permit_outstanding] (the release order of a dropped
    start), [GraphqlText.block_string_breaks_out] (the filter gate does not know block
    strings), the window of [Truncation.truncation_shows_a_window] (blank lines that
    the note counts but the text omits), [ToolCall.lost_held_compare_is_an_error] (a
    held row cannot be reloaded), [History.repeated_key_view_is_not_fixed] (a repeated
    call key), [CommandPolicy.authority_restores_default_allowlist] (an empty allowlist
    is reopened), [CommandPolicy.bundled_flags_pass] and
    [CommandPolicy.worktree_rule_misses_wrapped_git] (spellings the gate misses),
    [ToolSurface.ceiling_network_mode_is_lost] (a ceiling that only disables the
    network), [ToolPaths.parent_after_missing_escapes_ceiling] (a root outside the
    ceiling), [BashTool.shell_denials_lose_their_structure] (typed denials of shell
    tools), [EditMatch.overlapping_sites_are_not_ambiguous] and
    [EditMatch.insertion_rewrites_drifted_text] (what counts as one site, and what an
    insertion keeps), [TriggerMaterializer.staged_requests_escape_the_gate] (a request
    whose workspace binding failed), [ScheduleSource.a_failing_schedule_starves_the_rest]
    and [ScheduleSource.a_deleted_schedule_fires_every_tick],
    [GoalSource.two_requests_block_a_goal] (a second condition inherits the audits of
    the first), [GoalSource.an_audit_undoes_a_pause],
    [CompletionText.a_quoted_marker_is_taken_for_a_notification] (a child's response
    can pass for the notification of another) and
    [BackgroundCompletion.a_wake_of_the_same_second_is_missed].

    ** Conventions, bounds and assumptions

    Recursion is structural, or on the attempts of a retry whose bound is the source's
    own.  Fuel appears where the source loops otherwise, and is always enough: the
    length of the text in the substring search of [RustStr] and the prefix stripping of
    [ToolDispatch], the number of messages in the chunk search and rolling loop of
    [Compaction], the turn and retry limits in [AgentLoop] (where
    [AgentLoopRuns.loop_terminates] shows that it never runs out), the number of names
    in the climbs of [ToolPaths] and [FileTools] ([ToolPaths.nearest_entry_total]), the
    number of positions in [EditMatch], the values of a field and the lookahead of the
    source in [ScheduleCron]; a symbolic link is followed at most forty times,
    as the kernel does.  Integers are [Z] with the width
    written out where the code depends on it.  Clocks, random draws, generated
    identifiers, statement faults, commit outcomes and the writes of others between
    two attempts are arguments, so a theorem holds for all of them.

    In [Points] a transaction conflicts when a document it has read was changed before
    its commit, as the comments of [lifecycle/queue/atomic_inputs.rs] say of DefraDB;
    documents that appear meanwhile are not noticed.
    In [BackgroundCompletion] the others may do what [evolves] says, which is also what
    the operations do.

    Parameters with hypotheses: the store ([DocStoreLaws]: a filtered update changes
    exactly the matching rows, a create adds one row under a fresh identifier and
    respects the unique response key), the RFC 3339 codec of [chrono] ([ChronoLaws],
    [ChronoSecsLaws]: a printed instant reads back), the file system ([FsLaws]: what
    [realpath] and [lstat] answer; a tree of entries is an instance) and the [regex]
    crate ([RegexLaws]: the matches of a text cover it); the first three have concrete
    instances, used by the witnesses.  A transaction is atomic.  Parameters without hypotheses: the display texts of
    [rig]'s errors and of input/output errors, the token estimator and request
    projection, [serde_json]'s reading and printing, the row validation of the watcher,
    DefraDB's commit identifier, what the provider, the hooks, the compactor and the
    tools answer in each attempt of the loop, the managed process, lossy UTF-8, the time
    zone database, minijinja, the staging of goal documents, workspace bindings, the
    SHA-256 digest, the language server a mutation is handed to, and whether the host
    is macOS with its sandbox.  [AgentRequest] keeps the columns the lifecycle uses, and
    [single_mutation_document] the array shapes of a mutation result.  In [Admission]
    a step is one operation on shared state; the loads of one pruning pass, and the
    registry's map edits under its lock between two loads, are one step; the
    semaphore's choice of the next waiter is left open.

    ** Not modelled, and the plan

    Left out as input/output or glue: the command line, the desktop applications and
    bridges, OAuth logins, HTTP and MCP clients, schemas and generated code, the Lean
    contract crate.  Planned next, in this order: the projection of a child
    into its bridge row and the observer of [background_completion]; the event and subagent sources of triggers;
    the watcher's scheduling; live tool buffers, mailbox, memory and session tools, graph
    pipeline and callbacks. *)

From stdpp Require Export base tactics numbers list gmap strings fin_maps sets option.
From Stdlib Require Export ZArith Lia.

(** Shared vocabulary of the development: machine integers, fallible
    computations, and the tactics and lemmas every component uses. *)

#[global] Open Scope Z_scope.

(** ** Machine integers

    A [uN]/[iN] value of the source is a [Z]; its width is written out where
    the source's arithmetic depends on it.  [usize] is the 64-bit one. *)

Definition u8_max : Z := 2 ^ 8 - 1.
Definition u32_max : Z := 2 ^ 32 - 1.
Definition u64_max : Z := 2 ^ 64 - 1.
Definition u128_max : Z := 2 ^ 128 - 1.
Definition usize_max : Z := u64_max.
Definition i64_max : Z := 2 ^ 63 - 1.
Definition i64_min : Z := - 2 ^ 63.

Definition in_u32 (z : Z) : Prop := 0 <= z <= u32_max.
Definition in_u64 (z : Z) : Prop := 0 <= z <= u64_max.
Definition in_usize (z : Z) : Prop := 0 <= z <= usize_max.
Definition in_i64 (z : Z) : Prop := i64_min <= z <= i64_max.

Definition saturating_add (mx a b : Z) : Z := Z.min mx (a + b).
Definition saturating_sub (a b : Z) : Z := Z.max 0 (a - b).
Definition saturating_mul (mx a b : Z) : Z := Z.min mx (a * b).
Definition checked_add (mx a b : Z) : option Z :=
  if a + b <=? mx then Some (a + b) else None.
Definition checked_sub (a b : Z) : option Z :=
  if b <=? a then Some (a - b) else None.
(** [x as iN] of a value that fits the unsigned width: two's complement. *)
Definition wrap_i64 (z : Z) : Z := (z + 2 ^ 63) mod 2 ^ 64 - 2 ^ 63.
(** [u64::try_from(x).ok()] for a signed [x]. *)
Definition u64_try_from (z : Z) : option Z :=
  if (0 <=? z) && (z <=? u64_max) then Some z else None.

(** ** Fallible computations *)

Inductive result (E A : Type) : Type :=
| Ok (a : A)
| Err (e : E).
Arguments Ok {E A} a.
Arguments Err {E A} e.

Declare Scope gents_scope.
Delimit Scope gents_scope with gents.

(** The [?] operator of the source. *)
Notation "'let?' x ':=' c 'in' k" :=
  (match c with Ok x => k | Err err => Err err end)
  (at level 10, x pattern, c at level 200, k at level 200,
   format "'let?'  x  ':='  c  'in' '//' k") : gents_scope.
#[global] Open Scope gents_scope.

Definition ok_or {E A} (e : E) (o : option A) : result E A :=
  match o with Some a => Ok a | None => Err e end.
Definition result_ok {E A} (r : result E A) : option A :=
  match r with Ok a => Some a | Err _ => None end.
Definition is_ok {E A} (r : result E A) : bool :=
  match r with Ok _ => true | Err _ => false end.
Definition ensure {E} (b : bool) (e : E) : result E unit :=
  if b then Ok tt else Err e.

(** [is_empty] of a string or vector. *)
Definition is_nil {A} (l : list A) : bool := match l with [] => true | _ => false end.
(** [Option::map], [is_some_and], [filter] as the source spells them. *)
Definition is_some_and {A} (f : A → bool) (o : option A) : bool :=
  match o with Some a => f a | None => false end.
Definition opt_filter {A} (f : A → bool) (o : option A) : option A :=
  match o with Some a => if f a then Some a else None | None => None end.
Definition unwrap_or {A} (d : A) (o : option A) : A := default d o.
Definition opt_eqb {A} (eqb : A → A → bool) (x y : option A) : bool :=
  match x, y with
  | Some a, Some b => eqb a b
  | None, None => true
  | _, _ => false
  end.

(** ** Automation *)

(** Split every [if]/[match] of the goal or of the hypotheses on its test. *)
Ltac split_ifs :=
  repeat match goal with
  | |- context [if ?b then _ else _] =>
      let H := fresh "Hif" in destruct b eqn:H
  | H0 : context [if ?b then _ else _] |- _ =>
      let H := fresh "Hif" in destruct b eqn:H
  end.

(** Turn boolean connectives into propositional ones, everywhere. *)
Ltac bool_prop :=
  repeat match goal with
  | H : _ && _ = true |- _ => apply andb_true_iff in H; destruct H
  | H : _ || _ = false |- _ => apply orb_false_iff in H; destruct H
  | H : _ && _ = false |- _ => apply andb_false_iff in H
  | H : _ || _ = true |- _ => apply orb_true_iff in H
  | H : negb _ = true |- _ => apply negb_true_iff in H
  | H : negb _ = false |- _ => apply negb_false_iff in H
  | |- _ && _ = true => apply andb_true_iff; split
  | |- negb _ = true => apply negb_true_iff
  | |- negb _ = false => apply negb_false_iff
  | |- _ || _ = false => apply orb_false_iff; split
  end.

(** Machine-integer side conditions: unfold the vocabulary and call [lia]. *)
Ltac mlia :=
  unfold in_u32, in_u64, in_usize, in_i64, saturating_add, saturating_sub,
    saturating_mul, usize_max in *; lia.

Create HintDb gents discriminated.

(** ** Shared lemmas *)

Section integers.
Implicit Types a b mx : Z.

Lemma saturating_add_le_max mx a b : saturating_add mx a b <= mx.
Proof. mlia. Qed.

Lemma saturating_add_ge mx a b : 0 <= b -> a <= mx -> a <= saturating_add mx a b.
Proof. mlia. Qed.

Lemma saturating_sub_nonneg a b : 0 <= saturating_sub a b.
Proof. mlia. Qed.

Lemma saturating_sub_le a b : 0 <= a -> 0 <= b -> saturating_sub a b <= a.
Proof. mlia. Qed.

Lemma checked_add_Some mx a b c :
  checked_add mx a b = Some c <-> c = a + b /\ a + b <= mx.
Proof. unfold checked_add. split_ifs; naive_solver lia. Qed.

Lemma u64_try_from_Some z v : u64_try_from z = Some v <-> v = z /\ in_u64 z.
Proof. unfold u64_try_from, in_u64. split_ifs; bool_prop; naive_solver lia. Qed.

Lemma wrap_i64_id z : in_i64 z -> wrap_i64 z = z.
Proof.
  unfold in_i64, i64_min, i64_max, wrap_i64. intros H.
  rewrite Z.mod_small; lia.
Qed.
End integers.

#[export] Hint Resolve saturating_add_le_max saturating_add_ge
  saturating_sub_nonneg saturating_sub_le : gents.

(** The least natural below [n] that satisfies a decidable test, if any. *)
Fixpoint find_below (p : nat → bool) (n : nat) : option nat :=
  match n with
  | O => None
  | S n' => match find_below p n' with
            | Some i => Some i
            | None => if p n' then Some n' else None
            end
  end.

Lemma find_below_Some p n i :
  find_below p n = Some i ->
  (i < n)%nat /\ p i = true /\ ∀ j, (j < i)%nat -> p j = false.
Proof.
  induction n as [|n IH]; simpl; [done|].
  destruct (find_below p n) as [k|] eqn:Hk.
  - intros [= <-]. destruct IH as (?&?&?); [done|]. repeat split; auto; lia.
  - destruct (p n) eqn:Hp; [|done]. intros [= <-]. split; [lia|split; [done|]].
    assert (Hnone : ∀ m, find_below p m = None -> ∀ j, (j < m)%nat -> p j = false).
    { induction m as [|m IHm]; simpl; [lia|]. destruct (find_below p m); [done|].
      destruct (p m) eqn:Hm; [done|]. intros _ j Hj.
      destruct (decide (j = m)) as [->|]; [done|]. apply IHm; [done|lia]. }
    by apply Hnone.
Qed.
