(* ===== verification/RustStr.v ===== *)
(** * Rust strings

    What the modelled code uses of [str]/[String] and of their standard
    library: a string is the list of its Unicode scalar values; byte lengths
    and byte offsets are computed from the UTF-8 width of each of them. *)

From stdpp Require Import pretty.
From S2P Require Import Prelude.
Open Scope Z_scope.

Definition char : Type := Z.
Definition str : Type := list Z.

#[global] Instance char_eq_dec : EqDecision char := _.
#[global] Instance str_eq_dec : EqDecision str := _.

Definition lit (s : string) : str :=
  (λ a, Z.of_N (Ascii.N_of_ascii a)) <$> String.list_ascii_of_string s.

Definition str_eqb (a b : str) : bool := bool_decide (a = b).

Definition NL : char := 10.
Definition CR : char := 13.

(** ** Encodings *)

Definition utf8_width (c : char) : Z :=
  if c <? 128 then 1 else if c <? 2048 then 2 else if c <? 65536 then 3 else 4.
Definition utf16_width (c : char) : Z := if c <? 65536 then 1 else 2.

(** [str::len]: bytes of the UTF-8 encoding. *)
Fixpoint str_len (s : str) : Z :=
  match s with [] => 0 | c :: s' => utf8_width c + str_len s' end.
(** [encode_utf16().count()]. *)
Fixpoint utf16_len (s : str) : Z :=
  match s with [] => 0 | c :: s' => utf16_width c + utf16_len s' end.

(** ** Characters *)

(** [char::is_whitespace]: the White_Space property. *)
Definition is_whitespace (c : char) : bool :=
  ((9 <=? c) && (c <=? 13)) || (c =? 32) || (c =? 133) || (c =? 160) ||
  (c =? 5760) || ((8192 <=? c) && (c <=? 8202)) || (c =? 8232) || (c =? 8233) ||
  (c =? 8239) || (c =? 8287) || (c =? 12288).
Definition to_ascii_uppercase_char (c : char) : char :=
  if (97 <=? c) && (c <=? 122) then c - 32 else c.
Definition to_ascii_lowercase_char (c : char) : char :=
  if (65 <=? c) && (c <=? 90) then c + 32 else c.
Definition to_ascii_uppercase (s : str) : str := to_ascii_uppercase_char <$> s.
Definition to_ascii_lowercase (s : str) : str := to_ascii_lowercase_char <$> s.
Definition is_digit (c : char) : bool := (48 <=? c) && (c <=? 57).

(** ** Trimming *)

Fixpoint drop_leading (p : char → bool) (s : str) : str :=
  match s with
  | c :: s' => if p c then drop_leading p s' else s
  | [] => []
  end.
Definition trim_start (s : str) : str := drop_leading is_whitespace s.
Definition trim_end (s : str) : str := rev (trim_start (rev s)).
Definition trim (s : str) : str := trim_end (trim_start s).

(** ** Prefixes, searching *)

Fixpoint strip_prefix (p s : str) : option str :=
  match p, s with
  | [], _ => Some s
  | a :: p', b :: s' => if a =? b then strip_prefix p' s' else None
  | _, [] => None
  end.
Definition starts_with (p s : str) : bool :=
  match strip_prefix p s with Some _ => true | None => false end.

(** [s.split_once(sep)] for a one-character separator. *)
Fixpoint split_once (sep : char) (s : str) : option (str * str) :=
  match s with
  | [] => None
  | c :: s' =>
      if c =? sep then Some ([], s')
      else match split_once sep s' with
           | Some (a, b) => Some (c :: a, b)
           | None => None
           end
  end.
Definition rsplit_once (sep : char) (s : str) : option (str * str) :=
  match split_once sep (rev s) with
  | Some (a, b) => Some (rev b, rev a)
  | None => None
  end.

(** [s.find(needle)] as the strings before and after the first occurrence:
    the byte offset the source uses is [str_len] of the first component. *)
Fixpoint find_split (needle s : str) : option (str * str) :=
  match strip_prefix needle s with
  | Some rest => Some ([], rest)
  | None =>
      match s with
      | [] => None
      | c :: s' => match find_split needle s' with
                   | Some (a, b) => Some (c :: a, b)
                   | None => None
                   end
      end
  end.
Definition contains (needle s : str) : bool :=
  match find_split needle s with Some _ => true | None => false end.

(** ** Splitting and joining *)

(** [s.split(c)]: never empty. *)
Fixpoint split_on (sep : char) (s : str) : list str :=
  match s with
  | [] => [[]]
  | c :: s' =>
      if c =? sep then [] :: split_on sep s'
      else match split_on sep s' with
           | l :: ls => (c :: l) :: ls
           | [] => [[c]]
           end
  end.

(** [s.split_inclusive('\n')], each piece with whether it was terminated. *)
Fixpoint split_inclusive_nl (s : str) : list (str * bool) :=
  match s with
  | [] => []
  | c :: s' =>
      if c =? NL then ([], true) :: split_inclusive_nl s'
      else match split_inclusive_nl s' with
           | (l, b) :: ls => (c :: l, b) :: ls
           | [] => [([c], false)]
           end
  end.

Definition strip_suffix_char (c : char) (s : str) : str :=
  match rev s with
  | d :: r => if d =? c then rev r else s
  | [] => s
  end.

(** [s.lines()]: a terminated piece loses its ["\n"] or ["\r\n"]. *)
Definition str_lines (s : str) : list str :=
  (λ p, if snd p : bool then strip_suffix_char CR (fst p) else fst p)
    <$> split_inclusive_nl s.

Fixpoint join (sep : str) (ls : list str) : str :=
  match ls with
  | [] => []
  | [l] => l
  | l :: ls' => l ++ sep ++ join sep ls'
  end.

(** [s.split_whitespace()]: maximal runs of non-whitespace. *)
Fixpoint split_whitespace_aux (cur : str) (s : str) : list str :=
  let flush := match cur with [] => [] | _ => [rev cur] end in
  match s with
  | [] => flush
  | c :: s' =>
      if is_whitespace c then flush ++ split_whitespace_aux [] s'
      else split_whitespace_aux (c :: cur) s'
  end.
Definition split_whitespace (s : str) : list str := split_whitespace_aux [] s.

(** ** Non-overlapping occurrences, replacement

    The needle is not empty: every caller checks it.  [fuel] bounds the number
    of characters still to scan and is always the length of the text. *)

Fixpoint match_pieces (fuel : nat) (needle s : str) : list str :=
  match fuel with
  | O => [s]
  | S fuel' =>
      match find_split needle s with
      | Some (a, b) => a :: match_pieces fuel' needle b
      | None => [s]
      end
  end.
(** The text between consecutive occurrences of [needle], in order. *)
Definition pieces (needle s : str) : list str := match_pieces (length s) needle s.
(** [s.replace(needle, by)]. *)
Definition replace_all_in (needle by_ s : str) : str := join by_ (pieces needle s).
(** [s.replacen(needle, by, 1)]. *)
Definition replace_first (needle by_ s : str) : str :=
  match find_split needle s with
  | Some (a, b) => a ++ by_ ++ b
  | None => s
  end.
(** [s.match_indices(needle)] as the prefix of the text before each match. *)
Fixpoint prefixes_from (acc : str) (needle : str) (ps : list str) : list str :=
  match ps with
  | [] | [_] => []
  | p :: ps' => (acc ++ p) :: prefixes_from (acc ++ p ++ needle) needle ps'
  end.
Definition match_prefixes (needle s : str) : list str :=
  prefixes_from [] needle (pieces needle s).
Definition count_char (c : char) (s : str) : Z :=
  Z.of_nat (length (filter (λ d, d = c) s)).

(** ** Numbers *)

(** [format!("{}", n)]. *)
Definition fmt_Z (n : Z) : str := lit (pretty n).

Fixpoint parse_digits (mx acc : Z) (s : str) : option Z :=
  match s with
  | [] => Some acc
  | c :: s' =>
      if is_digit c then
        let v := acc * 10 + (c - 48) in
        if v <=? mx then parse_digits mx v s' else None
      else None
  end.
(** [s.parse::<uN>().ok()]: an optional [+], then digits, in range. *)
Definition parse_unsigned (mx : Z) (s : str) : option Z :=
  let digits := match s with c :: s' => if c =? 43 then s' else s | [] => s end in
  match digits with [] => None | _ => parse_digits mx 0 digits end.

(** ** Lemmas *)

Lemma str_eqb_true a b : str_eqb a b = true <-> a = b.
Proof. unfold str_eqb. by rewrite bool_decide_eq_true. Qed.

Lemma str_eqb_refl a : str_eqb a a = true.
Proof. by apply str_eqb_true. Qed.

Lemma utf8_width_bounds c : 1 <= utf8_width c <= 4.
Proof. unfold utf8_width. split_ifs; lia. Qed.

Lemma str_len_nonneg s : 0 <= str_len s.
Proof. induction s as [|c s IH]; simpl; [lia|]. pose proof (utf8_width_bounds c). lia. Qed.
#[export] Hint Resolve str_len_nonneg : gents.

Lemma str_len_app a b : str_len (a ++ b) = str_len a + str_len b.
Proof. induction a; simpl; lia. Qed.

Lemma str_len_zero s : str_len s = 0 -> s = [].
Proof.
  destruct s as [|c s]; [done|]. simpl.
  pose proof (utf8_width_bounds c). pose proof (str_len_nonneg s). lia.
Qed.

Lemma strip_prefix_Some p s rest : strip_prefix p s = Some rest <-> s = p ++ rest.
Proof.
  revert s. induction p as [|a p IH]; intros s; simpl; [naive_solver|].
  destruct s as [|b s]; [naive_solver|].
  destruct (Z.eqb_spec a b) as [->|Hne]; [rewrite IH|]; naive_solver.
Qed.

Lemma starts_with_app p s : starts_with p (p ++ s) = true.
Proof. unfold starts_with. by rewrite (proj2 (strip_prefix_Some p (p ++ s) s) eq_refl). Qed.

Lemma find_split_Some needle s a b :
  find_split needle s = Some (a, b) -> s = a ++ needle ++ b.
Proof.
  revert a b. induction s as [|c s IH]; intros a b; simpl.
  - destruct (strip_prefix needle []) eqn:E; [|done].
    apply strip_prefix_Some in E. intros [= <- <-]. exact E.
  - destruct (strip_prefix needle (c :: s)) eqn:E.
    + apply strip_prefix_Some in E. intros [= <- <-]. exact E.
    + destruct (find_split needle s) as [[a' b']|] eqn:E'; [|done].
      intros [= <- <-]. rewrite (IH a' b'); done.
Qed.

Lemma find_split_None needle s :
  find_split needle s = None <-> ∀ a b, s ≠ a ++ needle ++ b.
Proof.
  split.
  - induction s as [|c s IH]; simpl.
    + destruct (strip_prefix needle []) eqn:E; [done|]. intros _ a b Hab.
      symmetry in Hab. apply app_nil in Hab as [-> Hab].
      assert (strip_prefix needle [] = Some b) by (by apply strip_prefix_Some). congruence.
    + destruct (strip_prefix needle (c :: s)) eqn:E; [done|].
      destruct (find_split needle s) as [[a' b']|] eqn:E'; [done|]. intros _ a b Hab.
      destruct a as [|a0 a]; simpl in Hab.
      * assert (strip_prefix needle (c :: s) = Some b) by (by apply strip_prefix_Some).
        congruence.
      * injection Hab as <- Hab. by apply (IH eq_refl a b).
  - intros H. destruct (find_split needle s) as [[a b]|] eqn:E; [|done].
    apply find_split_Some in E. by destruct (H a b).
Qed.

(** Joining with the separator undoes splitting on it. *)
Lemma split_on_nonempty sep s : split_on sep s ≠ [].
Proof. destruct s; simpl; [done|]. destruct (_ =? _); [done|]. by destruct (split_on sep s). Qed.

Lemma join_cons sep l ls : ls ≠ [] -> join sep (l :: ls) = l ++ sep ++ join sep ls.
Proof. by destruct ls. Qed.

Lemma join_split_on sep s : join [sep] (split_on sep s) = s.
Proof.
  induction s as [|c s IH]; [done|]. simpl.
  destruct (Z.eqb_spec c sep) as [->|Hne].
  - rewrite join_cons by apply split_on_nonempty. by rewrite IH.
  - pose proof (split_on_nonempty sep s) as Hne'.
    destruct (split_on sep s) as [|l [|l2 ls]]; [done| |].
    + simpl in *. by rewrite IH.
    + rewrite join_cons by done. rewrite join_cons in IH by done.
      simpl. simpl in IH. by rewrite IH.
Qed.

Lemma split_on_join sep ls :
  ls ≠ [] -> Forall (λ l, sep ∉ l) ls -> split_on sep (join [sep] ls) = ls.
Proof.
  intros Hne Hls.
  assert (Hone : ∀ l, sep ∉ l -> split_on sep l = [l]).
  { induction l as [|c l IH]; intros Hn; [done|]. simpl.
    destruct (Z.eqb_spec c sep) as [->|]; [set_solver|].
    rewrite IH by set_solver. done. }
  assert (Happ : ∀ l rest, sep ∉ l -> split_on sep (l ++ sep :: rest) = l :: split_on sep rest).
  { induction l as [|c l IH]; intros rest Hn; simpl.
    - by rewrite Z.eqb_refl.
    - destruct (Z.eqb_spec c sep) as [->|]; [set_solver|].
      rewrite IH by set_solver. done. }
  induction Hls as [|l ls Hl Hls IH]; [done|].
  destruct ls as [|l2 ls].
  - simpl. by apply Hone.
  - rewrite join_cons by done. etransitivity; [by apply Happ|].
    f_equal. by apply IH.
Qed.

(** ** Printing and reading back numbers *)

Lemma pretty_N_char_digit x : (x < 10)%N ->
  Z.of_N (Ascii.N_of_ascii (pretty_N_char x)) = 48 + Z.of_N x.
Proof.
  intros H. assert (x = 0 ∨ x = 1 ∨ x = 2 ∨ x = 3 ∨ x = 4 ∨ x = 5 ∨ x = 6 ∨ x = 7 ∨ x = 8
    ∨ x = 9)%N as Hx by lia.
  by destruct Hx as [-> | [-> | [-> | [-> | [-> | [-> | [-> | [-> | [-> | ->]]]]]]]]].
Qed.

Lemma parse_digits_go mx x s : Z.of_N x <= mx ->
  parse_digits mx 0 (lit (pretty_N_go x s)) = parse_digits mx (Z.of_N x) (lit s).
Proof.
  revert s. induction (N.lt_wf_0 x) as [x _ IH]; intros s Hx.
  assert (x = 0 ∨ 0 < x)%N as [->|Hpos] by lia; [by rewrite pretty_N_go_0|].
  rewrite pretty_N_go_step by done.
  assert (Hm : (x `mod` 10 < 10)%N) by (by apply N.mod_lt).
  pose proof (N.div_mod x 10 ltac:(done)) as Hdm.
  assert (Hlt : (x `div` 10 < x)%N) by (by apply N.div_lt).
  revert Hm Hdm Hlt. generalize (x `mod` 10)%N as r, (x `div` 10)%N as q. intros r q Hm Hdm Hlt.
  rewrite IH by lia.
  unfold lit. simpl String.list_ascii_of_string. rewrite fmap_cons. cbn [parse_digits].
  rewrite pretty_N_char_digit by done. unfold is_digit.
  replace (48 <=? 48 + Z.of_N r) with true by (symmetry; apply Z.leb_le; lia).
  replace (48 + Z.of_N r <=? 57) with true by (symmetry; apply Z.leb_le; lia).
  cbn [andb].
  replace (Z.of_N q * 10 + (48 + Z.of_N r - 48)) with (Z.of_N x) by lia.
  by replace (Z.of_N x <=? mx) with true by (symmetry; apply Z.leb_le; lia).
Qed.

Lemma digits_go x s : Forall (λ c, is_digit c = true) (lit s) ->
  Forall (λ c, is_digit c = true) (lit (pretty_N_go x s)).
Proof.
  revert s. induction (N.lt_wf_0 x) as [x _ IH]; intros s Hs.
  assert (x = 0 ∨ 0 < x)%N as [->|Hpos] by lia; [by rewrite pretty_N_go_0|].
  rewrite pretty_N_go_step by done. apply IH; [by apply N.div_lt|].
  unfold lit. simpl String.list_ascii_of_string. rewrite fmap_cons.
  constructor; [|exact Hs].
  assert (Hm : (x `mod` 10 < 10)%N) by (by apply N.mod_lt).
  rewrite pretty_N_char_digit by done. unfold is_digit.
  revert Hm. generalize (x `mod` 10)%N as r. intros r Hm.
  apply andb_true_iff; split; apply Z.leb_le; lia.
Qed.

Lemma fmt_Z_nonneg n : 0 <= n ->
  fmt_Z n = match n with 0 => [48] | _ => lit (pretty_N_go (Z.to_N n) "") end.
Proof. by destruct n. Qed.

(** A printed non-negative number is made of digits. *)
Lemma fmt_Z_digits n : 0 <= n -> Forall (λ c, is_digit c = true) (fmt_Z n).
Proof.
  intros Hn. rewrite fmt_Z_nonneg by done. destruct n; [by repeat constructor| |lia].
  by apply digits_go.
Qed.

(** [format!("{n}").parse()] reads the number back when it is in range. *)
Lemma parse_digits_range mx acc s n : 0 <= acc <= mx -> parse_digits mx acc s = Some n ->
  0 <= n <= mx.
Proof.
  revert acc. induction s as [|c s IH]; intros acc Ha; cbn [parse_digits]; [by intros [= <-]|].
  unfold is_digit. destruct (_ && _) eqn:Hd; [|done]. bool_prop.
  destruct (Z.leb_spec (acc * 10 + (c - 48)) mx); [|done]. apply IH. lia.
Qed.

Lemma parse_unsigned_range mx s n : 0 <= mx -> parse_unsigned mx s = Some n -> 0 <= n <= mx.
Proof.
  intros Hmx. unfold parse_unsigned. destruct (match s with [] => s | _ => _ end); [done|].
  apply parse_digits_range. lia.
Qed.

Lemma parse_fmt_Z mx n : 0 <= n <= mx -> parse_unsigned mx (fmt_Z n) = Some n.
Proof.
  intros Hn. rewrite fmt_Z_nonneg by lia. destruct n as [|p|]; [| |lia].
  { change (parse_unsigned mx [48]) with (if 0 <=? mx then Some 0 else None).
    destruct (Z.leb_spec 0 mx); [done|lia]. }
  pose proof (parse_digits_go mx (N.pos p) "" ltac:(lia)) as Hp.
  pose proof (digits_go (N.pos p) "" ltac:(constructor)) as Hd.
  cbn [Z.to_N] in *. unfold parse_unsigned.
  destruct (lit (pretty_N_go (N.pos p) "")) as [|c s] eqn:E; [by cbn in Hp|].
  inversion Hd as [|? ? Hc _]; subst. unfold is_digit in Hc. bool_prop.
  replace (c =? 43) with false by (symmetry; apply Z.eqb_neq; lia). exact Hp.
Qed.

(** Trimming twice is trimming once. *)
Definition solid_start (s : str) : Prop := match s with c :: _ => is_whitespace c = false | [] => True end.
Lemma trim_start_split s : ∃ ws, s = ws ++ trim_start s ∧ solid_start (trim_start s).
Proof.
  induction s as [|c s [ws [Hs Ht]]]; [by exists []|]. unfold trim_start in *. cbn [drop_leading].
  destruct (is_whitespace c) eqn:E; [exists (c :: ws); split; [cbn; by f_equal|done]|by exists []].
Qed.
Lemma trim_start_id s : solid_start s -> trim_start s = s.
Proof. destruct s as [|c s]; [done|]. unfold trim_start. cbn. by intros ->. Qed.
Lemma trim_twice s : trim (trim s) = trim s.
Proof.
  destruct (trim_start_split s) as (ws & _ & Ht). unfold trim at 2. set (t := trim_start s) in *.
  destruct (trim_start_split (rev t)) as (ws' & Hr & Hr').
  assert (Hs : solid_start (trim_end t)).
  { unfold trim_end. destruct (rev (trim_start (rev t))) as [|c u] eqn:E; [done|]. apply (f_equal (@rev Z)) in Hr.
    rewrite rev_involutive, rev_app_distr, E in Hr. rewrite Hr in Ht. exact Ht. }
  unfold trim. rewrite (trim_start_id _ Hs). unfold trim_end. rewrite rev_involutive, (trim_start_id _ Hr'). done.
Qed.
