(* ===== verification/Float64.v ===== *)
(** * IEEE-754 binary64

    What the modelled code uses of [f64]: conversion from integers,
    multiplication, division, addition, comparison, [round], [min] and the
    saturating [as u64] cast.  The arithmetic is the Standard Library's
    executable specification of binary floats (correctly rounded, ties to
    even); comparisons are on the exact dyadic values. *)

From Stdlib Require Import SpecFloat.
From S2P Require Import Prelude.
Open Scope Z_scope.

Definition f64 : Type := spec_float.

Definition f64_of_Z (z : Z) : f64 := binary_normalize 53 1024 z 0 false.
Definition f64_mul : f64 → f64 → f64 := SFmul 53 1024.
Definition f64_div : f64 → f64 → f64 := SFdiv 53 1024.
Definition f64_add : f64 → f64 → f64 := SFadd 53 1024.
Definition f64_sub : f64 → f64 → f64 := SFsub 53 1024.

Definition f64_is_finite (x : f64) : bool :=
  match x with S754_zero _ | S754_finite _ _ _ => true | _ => false end.

(** The signed mantissa of a finite float. *)
Definition signed_mantissa (s : bool) (m : positive) : Z :=
  if s then Z.neg m else Z.pos m.

(** Three-way comparison of the exact values; [None] when unordered. *)
Definition f64_compare (x y : f64) : option comparison :=
  let dyadic (z e : Z) (z' e' : Z) :=
    let e0 := Z.min e e' in
    Z.compare (Z.shiftl z (e - e0)) (Z.shiftl z' (e' - e0)) in
  match x, y with
  | S754_nan, _ | _, S754_nan => None
  | S754_infinity s, S754_infinity s' =>
      Some (match s, s' with
            | true, false => Lt | false, true => Gt | _, _ => Eq end)
  | S754_infinity s, _ => Some (if s then Lt else Gt)
  | _, S754_infinity s => Some (if s then Gt else Lt)
  | S754_zero _, S754_zero _ => Some Eq
  | S754_zero _, S754_finite s m e => Some (dyadic 0 0 (signed_mantissa s m) e)
  | S754_finite s m e, S754_zero _ => Some (dyadic (signed_mantissa s m) e 0 0)
  | S754_finite s m e, S754_finite s' m' e' =>
      Some (dyadic (signed_mantissa s m) e (signed_mantissa s' m') e')
  end.

Definition f64_lt (x y : f64) : bool :=
  match f64_compare x y with Some Lt => true | _ => false end.
Definition f64_gt (x y : f64) : bool :=
  match f64_compare x y with Some Gt => true | _ => false end.
Definition f64_le (x y : f64) : bool :=
  match f64_compare x y with Some Lt | Some Eq => true | _ => false end.

(** [f64::round]: to the nearest integer, halves away from zero. *)
Definition round_mantissa (m : positive) (e : Z) : Z :=
  if 0 <=? e then Z.shiftl (Z.pos m) e
  else (2 * Z.pos m + 2 ^ (- e)) / (2 * 2 ^ (- e)).
Definition f64_round (x : f64) : f64 :=
  match x with
  | S754_finite s m e =>
      if 0 <=? e then x
      else match round_mantissa m e with
           | Z.pos p => S754_finite s p 0
           | _ => S754_zero s
           end
  | _ => x
  end.

(** [f64::min]: a NaN operand gives the other one. *)
Definition f64_min (x y : f64) : f64 :=
  match x, y with
  | S754_nan, _ => y
  | _, S754_nan => x
  | _, _ => if f64_lt y x then y else x
  end.
Definition f64_clamp (lo hi x : f64) : f64 :=
  if f64_lt x lo then lo else if f64_lt hi x then hi else x.

(** [x as u64]: truncation, saturating at both ends, NaN to zero. *)
Definition f64_as_unsigned (mx : Z) (x : f64) : Z :=
  match x with
  | S754_nan | S754_zero _ => 0
  | S754_infinity s => if s then 0 else mx
  | S754_finite s m e =>
      if s then 0 else Z.min mx (Z.shiftl (Z.pos m) e)
  end.

(** ** Lemmas *)

Lemma f64_as_unsigned_range mx x : 0 <= mx -> 0 <= f64_as_unsigned mx x <= mx.
Proof.
  intros Hmx. destruct x as [s|s| |s m e]; simpl; try lia; destruct s; try lia.
  assert (0 <= Z.shiftl (Z.pos m) e) by (apply Z.shiftl_nonneg; lia). lia.
Qed.

Lemma f64_as_unsigned_integer mx (p : positive) :
  f64_as_unsigned mx (S754_finite false p 0) = Z.min mx (Z.pos p).
Proof. reflexivity. Qed.

Lemma shiftl_mono a b n : a <= b -> Z.shiftl a n <= Z.shiftl b n.
Proof.
  intros Hab. destruct (Z.le_gt_cases 0 n) as [Hn|Hn].
  - rewrite !Z.shiftl_mul_pow2 by lia. pose proof (Z.pow_nonneg 2 n). nia.
  - rewrite <- (Z.opp_involutive n), <- !Z.shiftr_opp_r, !Z.opp_involutive.
    rewrite !Z.shiftr_div_pow2 by lia. apply Z.div_le_mono; [|done].
    apply Z.pow_pos_nonneg; lia.
Qed.

(** Comparing mantissas brought to a common exponent compares the values. *)
Lemma aligned_le a e b e' :
  Z.shiftl a (e - Z.min e e') <= Z.shiftl b (e' - Z.min e e') ->
  Z.shiftl a e <= Z.shiftl b e'.
Proof.
  intros H. apply (shiftl_mono _ _ (Z.min e e')) in H.
  rewrite !Z.shiftl_shiftl in H by lia.
  by replace (e - Z.min e e' + Z.min e e') with e in H by lia;
     replace (e' - Z.min e e' + Z.min e e') with e' in H by lia.
Qed.

(** The cast of a minimum with a positive integer is at most that integer. *)
Lemma f64_min_as_unsigned_le mx x (p : positive) e :
  0 <= mx ->
  f64_as_unsigned mx (f64_min x (S754_finite false p e)) <= Z.shiftl (Z.pos p) e.
Proof.
  intros Hmx. unfold f64_min.
  assert (Hp : 0 <= Z.shiftl (Z.pos p) e) by (apply Z.shiftl_nonneg; lia).
  destruct x as [s|s| |s m e0]; [by destruct (f64_lt _ _); simpl; lia
    | by destruct s; simpl; lia | by simpl; lia |].
  unfold f64_lt. simpl.
  match goal with |- context [?a ?= ?b] => destruct (Z.compare_spec a b) as [Hc|Hc|Hc] end;
    simpl; [ | lia | ]; (destruct s; simpl in *; [lia|]).
  all: assert (Z.shiftl (Z.pos m) e0 <= Z.shiftl (Z.pos p) e); [|lia].
  all: apply aligned_le; rewrite (Z.min_comm e0 e); lia.
Qed.
