(* ===== verification/Errors.v ===== *)
(** * Inference errors and their classification

    Models [crates/gents/src/error.rs]: the typed errors of the runtime's
    inference path, the substring tests on provider messages, and
    [classify_completion_error], which decides whether a failed completion is
    retryable.  [rig]'s error types are outside the repository: their variants
    are the ones the source matches on, and their [Display] texts are
    parameters. *)

From S2P Require Import Prelude RustStr.
Open Scope Z_scope.

(** ** [InferenceError] *)

Inductive InferenceError : Type :=
| ModelUnreachable (endpoint : str)
| TransientFailure (reason : str)
| PermanentFailure (reason : str)
| Timeout (timeout_secs : Z)
| RateLimited (retry_after_secs : Z)
| ContextLengthExceeded (reason : str)
| RetriesExhausted (max_retries : Z) (last_error : str).

Definition is_retryable (e : InferenceError) : bool :=
  match e with
  | ModelUnreachable _ | TransientFailure _ | Timeout _ | RateLimited _ => true
  | _ => false
  end.

(** The [Display] implementation [thiserror] derives. *)
Definition inference_error_display (e : InferenceError) : str :=
  match e with
  | ModelUnreachable endpoint => lit "model unreachable at " ++ endpoint
  | TransientFailure reason => lit "transient inference failure: " ++ reason
  | PermanentFailure reason => lit "permanent inference failure: " ++ reason
  | Timeout secs => lit "inference timed out after " ++ fmt_Z secs ++ lit "s"
  | RateLimited secs => lit "rate limited, retry after " ++ fmt_Z secs ++ lit "s"
  | ContextLengthExceeded reason => lit "context length exceeded: " ++ reason
  | RetriesExhausted n last =>
      lit "retries exhausted (" ++ fmt_Z n ++ lit " attempts): " ++ last
  end.

(** ** [rig]'s errors, as far as the source matches on them *)

(** [ContextBudgetError] of [provider_input/budget.rs], which the dispatch
    guard boxes into a [CompletionError::RequestError]. *)
Inductive ContextBudgetError : Type :=
| NoOutputCapacity (estimated_input_tokens context_window
    effective_max_output_tokens : Z).

Inductive CompletionError : Type :=
| HttpError (text : str)
| JsonError (text : str)
| UrlError (text : str)
| RequestError (e : ContextBudgetError)
| ProviderError (message : str)
| OtherCompletionError (text : str).

Inductive StreamingError : Type :=
| SE_Completion (e : CompletionError)
| SE_Tool (text : str)
| SE_Prompt (text : str).

(** ** Substring tests *)

Definition error_message_has_status (message : str) (status : Z) : bool :=
  contains (lit "InvalidStatusCodeWithMessage(" ++ fmt_Z status) message ||
  contains (lit "Invalid status code " ++ fmt_Z status) message ||
  contains (lit "Invalid status code: " ++ fmt_Z status) message ||
  contains (lit "status code " ++ fmt_Z status) message ||
  contains (lit "HTTP status " ++ fmt_Z status) message.

Definition provider_message_has_any_status (message : str) (statuses : list Z) : bool :=
  existsb (error_message_has_status message) statuses.

Definition provider_message_is_tool_call_json_parse_failure (message : str) : bool :=
  contains (lit "BadRequestError") message && contains (lit " line ") message &&
  contains (lit " column ") message && contains (lit "(char ") message.

Definition transport_needles : list str :=
  [ lit "error sending request"; lit "connection refused"; lit "connection reset";
    lit "connection closed"; lit "connection aborted"; lit "operation timed out";
    lit "request timed out"; lit "timed out"; lit "timeout"; lit "deadline has elapsed";
    lit "temporary failure in name resolution"; lit "dns error" ].

Definition provider_message_is_transport_failure (message_lower : str) : bool :=
  existsb (λ needle, contains needle message_lower) transport_needles.

(** ** [classify_completion_error] *)

Section classify.
(** [rig]'s [Display] for its two error types. *)
Variable completion_display : CompletionError → str.
Variable streaming_display : StreamingError → str.

Definition classify_http_error (reason : str) : InferenceError :=
  if error_message_has_status reason 429 then RateLimited 60
  else if error_message_has_status reason 400 || error_message_has_status reason 401
       || error_message_has_status reason 403 || error_message_has_status reason 404
       || error_message_has_status reason 422
  then PermanentFailure reason
  else TransientFailure reason.

Definition classify_provider_error (provider_msg reason : str) : InferenceError :=
  let lower := to_ascii_lowercase provider_msg in
  if contains (lit "rate_limit") lower || contains (lit "rate limit") lower
     || error_message_has_status provider_msg 429
  then RateLimited 60
  else if provider_message_is_tool_call_json_parse_failure provider_msg
  then TransientFailure reason
  else if provider_message_has_any_status provider_msg [400; 401; 403; 404; 422]
  then PermanentFailure reason
  else if contains (lit "invalid_api_key") lower || contains (lit "invalid api key") lower
          || contains (lit "authentication") lower || contains (lit "unauthorized") lower
  then PermanentFailure reason
  else if contains (lit "invalid_request") lower || contains (lit "invalid request") lower
  then PermanentFailure reason
  else if provider_message_has_any_status provider_msg [408; 500; 502; 503; 504]
          || provider_message_is_transport_failure lower
          || contains (lit "overloaded") lower
          || contains (lit "temporarily unavailable") lower
  then TransientFailure reason
  else TransientFailure reason.

Definition classify_completion_error (error : StreamingError) : InferenceError :=
  let msg := streaming_display error in
  if contains (lit "context_length_exceeded") msg
     || contains (lit "maximum context length") msg
  then ContextLengthExceeded msg
  else match error with
       | SE_Completion completion_err =>
           let reason := completion_display completion_err in
           match completion_err with
           | HttpError _ => classify_http_error reason
           | ProviderError provider_msg => classify_provider_error provider_msg reason
           | JsonError _ | UrlError _ => PermanentFailure reason
           | _ => TransientFailure reason
           end
       | SE_Tool _ => PermanentFailure msg
       | SE_Prompt _ => PermanentFailure msg
       end.

(** [retry.rs]: whether a streaming error is retried at all. *)
Definition is_retryable_streaming_error (error : StreamingError) : bool :=
  is_retryable (classify_completion_error error).

End classify.

(** ** Properties *)

(** [contains] is the substring relation. *)
Lemma contains_spec needle s :
  contains needle s = true <-> ∃ a b, s = a ++ needle ++ b.
Proof.
  unfold contains. destruct (find_split needle s) as [[a b]|] eqn:E.
  - apply find_split_Some in E. split; [by exists a, b|done].
  - split; [done|]. intros (a & b & H). by destruct (proj1 (find_split_None _ _) E a b).
Qed.

Lemma contains_app_r needle s a : contains needle s = true -> contains needle (a ++ s) = true.
Proof.
  rewrite !contains_spec. intros (x & y & ->). exists (a ++ x), y. by rewrite <- app_assoc.
Qed.

(** Messages that carry the tool-call parse signature. *)
Lemma parse_failure_app_r m a :
  provider_message_is_tool_call_json_parse_failure m = true ->
  provider_message_is_tool_call_json_parse_failure (a ++ m) = true.
Proof.
  unfold provider_message_is_tool_call_json_parse_failure. intros H.
  bool_prop; by apply contains_app_r.
Qed.

(** A completion error is never retried when it is a tool or prompt error, a JSON
    or URL error, or carries a context-length message; whatever the variant. *)
Theorem permanent_errors_not_retried cd sd error :
  match error with
  | SE_Tool _ | SE_Prompt _ | SE_Completion (JsonError _) | SE_Completion (UrlError _) => True
  | _ => contains (lit "context_length_exceeded") (sd error) = true
         \/ contains (lit "maximum context length") (sd error) = true
  end ->
  is_retryable_streaming_error cd sd error = false.
Proof.
  unfold is_retryable_streaming_error, classify_completion_error.
  destruct (contains _ (sd error)) eqn:E1, (contains (lit "maximum context length") _) eqn:E2;
    simpl; try done.
  destruct error as [[]| |]; naive_solver.
Qed.

Lemma permanent_errors_not_retried_witness :
  is_retryable_streaming_error (λ _, []) (λ _, lit "HTTP: context_length_exceeded")
    (SE_Completion (ProviderError [])) = false.
Proof. apply permanent_errors_not_retried. left. vm_compute. reflexivity. Defined.
