(* ===== verification/TokenBudget.v ===== *)
(** * Token accounting

    Three layers of the runtime's token policy and the gate that composes them:
    - [Usage]: [provider_usage.rs] and [turn_threading.rs], what one provider
      usage report charges and how durable rows are summed again;
    - [Context]: [provider_input/budget.rs], the context-window arithmetic;
    - [Aggregate]: [loop_stream/aggregate_budget.rs], the request-wide ledger;
    - [Dispatch]: the preparation of one provider attempt in
      [loop_stream/request_assembly.rs], which runs both gates.

    Token counts are [u64] or [usize] values, kept in [Z] with the source's
    saturating and checked operations. *)

From Stdlib Require Import SpecFloat.
From S2P Require Import Prelude RustStr Float64 Errors.
Open Scope Z_scope.

(** ** Provider usage *)

Record Usage : Type := {
  input_tokens : Z;
  output_tokens : Z;
  total_tokens : Z;
  cached_input_tokens : Z;
  cache_creation_input_tokens : Z;
}.

Definition usage_in_range (u : Usage) : Prop :=
  in_u64 (input_tokens u) /\ in_u64 (output_tokens u) /\ in_u64 (total_tokens u) /\
  in_u64 (cached_input_tokens u) /\ in_u64 (cache_creation_input_tokens u).

Definition charged_usage_total (usage : Usage) : Z :=
  saturating_add u64_max (input_tokens usage) (output_tokens usage).

Inductive PersistedUsageError : Type :=
| NegativePromptTokens
| NegativeCompletionTokens
| PartialUsageRow.

Definition charged_from_persisted_parts (prompt_tokens completion_tokens : option Z)
    : result PersistedUsageError (option Z) :=
  match prompt_tokens, completion_tokens with
  | None, None => Ok None
  | Some prompt, Some completion =>
      let? prompt := ok_or NegativePromptTokens (u64_try_from prompt) in
      let? completion := ok_or NegativeCompletionTokens (u64_try_from completion) in
      Ok (Some (saturating_add u64_max prompt completion))
  | _, _ => Err PartialUsageRow
  end.

Fixpoint sum_charged_from (total : Z) (rows : list (option Z * option Z))
    : result PersistedUsageError Z :=
  match rows with
  | [] => Ok total
  | (prompt, completion) :: rows' =>
      let? charged := charged_from_persisted_parts prompt completion in
      sum_charged_from (saturating_add u64_max total (unwrap_or 0 charged)) rows'
  end.
Definition sum_charged_from_persisted_parts (rows : list (option Z * option Z))
    : result PersistedUsageError Z := sum_charged_from 0 rows.

Definition nonnegative_tokens (value : option Z) : option Z := value ≫= u64_try_from.

Definition add_column_total (total value : option Z) : option Z :=
  match nonnegative_tokens value with
  | None => total
  | Some v => Some (saturating_add u64_max (unwrap_or 0 total) v)
  end.

Definition sum_persisted_usage_columns (rows : list (option Z * option Z * option Z))
    : option Z * option Z * option Z :=
  fold_left (λ acc row,
      let '(prompt, completion, cached) := acc in
      let '(p, c, k) := row in
      (add_column_total prompt p, add_column_total completion c, add_column_total cached k))
    rows (None, None, None).

Definition remaining_budget (limit used : Z) : Z := saturating_sub limit used.

Definition add_usage_saturating (aggregate usage : Usage) : Usage :=
  {| input_tokens := saturating_add u64_max (input_tokens aggregate) (input_tokens usage);
     output_tokens := saturating_add u64_max (output_tokens aggregate) (output_tokens usage);
     total_tokens := saturating_add u64_max (total_tokens aggregate) (total_tokens usage);
     cached_input_tokens :=
       saturating_add u64_max (cached_input_tokens aggregate) (cached_input_tokens usage);
     cache_creation_input_tokens :=
       saturating_add u64_max (cache_creation_input_tokens aggregate)
         (cache_creation_input_tokens usage) |}.

(** The columns [admission/persistence.rs] stores for one usage report. *)
Definition usage_fields (usage : option Usage) : option Z * option Z * option Z :=
  match usage with
  | Some u => (Some (input_tokens u), Some (output_tokens u), Some (cached_input_tokens u))
  | None => (None, None, None)
  end.

(** ** Context window *)

Definition f64_10000 : f64 := S754_finite false 10000 0.

Definition threshold_basis_points (threshold : f64) : Z :=
  if negb (f64_is_finite threshold) || f64_le threshold (S754_zero false) then 0
  else f64_as_unsigned u64_max
         (f64_min (f64_round (f64_mul threshold (f64_of_Z 10000))) f64_10000).

Definition threshold_budget (context_window : Z) (threshold : f64) : Z :=
  context_window * threshold_basis_points threshold / 10000.

Definition effective_input_budget (context_window : Z) (threshold : f64) : Z :=
  Z.min (threshold_budget context_window threshold) context_window.

Inductive ThresholdDecision : Type := NotNeeded | ReduceEligible.

Definition threshold_decision (input effective_input_budget : Z) : ThresholdDecision :=
  if input <=? effective_input_budget then NotNeeded else ReduceEligible.

Definition configured_output_ceiling (max_tokens : option Z) : Z :=
  match max_tokens with Some v => Z.min v usize_max | None => usize_max end.

Definition compaction_retention_target
    (configured_keep_recent effective_input_budget fixed_input_tokens : Z) : Z :=
  let message_budget := saturating_sub effective_input_budget fixed_input_tokens in
  Z.min configured_keep_recent (message_budget * 3 / 4).

(** [usize::div_ceil]. *)
Definition div_ceil (a b : Z) : Z := (a + b - 1) / b.

Definition summary_output_ceiling (configured_max_output_tokens context_window : Z) : Z :=
  Z.min configured_max_output_tokens (Z.max (div_ceil context_window 4) 1).

Definition rolling_summary_input_budget (context_window configured_max_output_tokens : Z) : Z :=
  if configured_max_output_tokens <? context_window
  then context_window - configured_max_output_tokens
  else context_window.

Definition effective_output_budget
    (input context_window configured_max_output_tokens : Z) : Z :=
  Z.min configured_max_output_tokens (saturating_sub context_window input).

Definition can_dispatch (input context_window configured_max_output_tokens : Z) : bool :=
  let output := effective_output_budget input context_window configured_max_output_tokens in
  (0 <? output) &&
  is_some_and (λ total, total <=? context_window) (checked_add usize_max input output).

(** ** The request-wide ledger *)

Inductive AggregateTokenCharge : Type := Missing | Within | Exhausted | Overrun.
Inductive AggregatePostChargeAction : Type := Continue | Succeed | Fail.

Definition aggregate_post_charge_action (charge : AggregateTokenCharge)
    (terminal_valid : bool) : AggregatePostChargeAction :=
  match charge with
  | Missing | Overrun => Fail
  | Within => if terminal_valid then Succeed else Continue
  | Exhausted => if terminal_valid then Succeed else Fail
  end.

Record AggregateTokenLedger : Type := { limit : Z; used : Z }.

Definition ledger_in_range (l : AggregateTokenLedger) : Prop :=
  in_u64 (limit l) /\ in_u64 (used l).

Definition remaining (l : AggregateTokenLedger) : Z := saturating_sub (limit l) (used l).

Definition effective_output_tokens (l : AggregateTokenLedger) (input configured_max : Z) : Z :=
  Z.min configured_max (saturating_sub (remaining l) input).

Definition ledger_can_dispatch (l : AggregateTokenLedger) (input configured_max : Z) : bool :=
  0 <? effective_output_tokens l input configured_max.

Definition charge_reported (usage : option Usage) (l : AggregateTokenLedger)
    : AggregateTokenCharge * AggregateTokenLedger :=
  match usage with
  | None => (Missing, l)
  | Some usage =>
      let charged := charged_usage_total usage in
      if charged =? 0 then (Missing, l)
      else
        let l' := {| limit := limit l; used := saturating_add u64_max (used l) charged |} in
        (match Z.compare (used l') (limit l') with
         | Lt => Within
         | Eq => Exhausted
         | Gt => Overrun
         end, l')
  end.

(** The cell behind [Arc<Mutex<AggregateTokenLedger>>]: nested runs share it. *)
Record AggregateTokenBudget : Type := { ledger : AggregateTokenLedger; poisoned : bool }.

Definition with_prior_usage (limit used : Z) : AggregateTokenBudget :=
  {| ledger := {| limit := limit; used := used |}; poisoned := false |}.
Definition new_budget (limit : Z) : AggregateTokenBudget := with_prior_usage limit 0.

Definition ledger_unavailable : StreamingError :=
  SE_Completion (ProviderError
    (lit "aggregate_token_ledger_unavailable: request budget lock was poisoned")).

Definition budget_snapshot (b : AggregateTokenBudget)
    : result StreamingError AggregateTokenLedger :=
  if poisoned b then Err ledger_unavailable else Ok (ledger b).

Definition budget_charge_reported (usage : option Usage) (b : AggregateTokenBudget)
    : result StreamingError (AggregateTokenCharge * AggregateTokenLedger) * AggregateTokenBudget :=
  if poisoned b then (Err ledger_unavailable, b)
  else
    let '(charge, l) := charge_reported usage (ledger b) in
    (Ok (charge, l), {| ledger := l; poisoned := false |}).

Definition AGGREGATE_TOKEN_BUDGET_EXHAUSTED_PREFIX : str :=
  lit "aggregate_token_budget_exhausted: ".

(** One cause of an [anyhow] error chain: a streaming error, or anything else. *)
Inductive error_cause : Type :=
| CauseStreaming (e : StreamingError)
| CauseOther (text : str).

Fixpoint aggregate_token_budget_exhaustion_message (chain : list error_cause) : option str :=
  match chain with
  | [] => None
  | CauseStreaming (SE_Completion (ProviderError reason)) :: rest =>
      if starts_with AGGREGATE_TOKEN_BUDGET_EXHAUSTED_PREFIX reason then Some reason
      else aggregate_token_budget_exhaustion_message rest
  | _ :: rest => aggregate_token_budget_exhaustion_message rest
  end.

(** ** Preparing one provider attempt *)

(** A completion request: its output ceiling, and everything else. *)
Record CompletionRequest (R : Type) : Type := { max_tokens : option Z; rest : R }.
Arguments max_tokens {R} _.
Arguments rest {R} _.

Definition set_max_tokens {R} (n : Z) (r : CompletionRequest R) : CompletionRequest R :=
  {| max_tokens := Some n; rest := rest r |}.

Definition exhausted_message (l : AggregateTokenLedger) (input : Z) : str :=
  AGGREGATE_TOKEN_BUDGET_EXHAUSTED_PREFIX ++ lit "limit=" ++ fmt_Z (limit l) ++
  lit ", used=" ++ fmt_Z (used l) ++ lit ", estimated_input_tokens=" ++ fmt_Z input ++
  lit ", remaining=" ++ fmt_Z (remaining l).

Definition clamp_request_aggregate_token_budget {R} (request : CompletionRequest R)
    (budget : option AggregateTokenBudget) (estimated_input_tokens : Z)
    : result StreamingError (CompletionRequest R) :=
  match budget with
  | None => Ok request
  | Some budget =>
      let? l := budget_snapshot budget in
      let input := estimated_input_tokens in
      let configured_max := unwrap_or u64_max (max_tokens request) in
      let effective_max := effective_output_tokens l input configured_max in
      if negb (ledger_can_dispatch l input configured_max)
      then Err (SE_Completion (ProviderError (exhausted_message l input)))
      else Ok (set_max_tokens effective_max request)
  end.

Definition clamp_request_output_budget {R} (request : CompletionRequest R)
    (context_window input : Z) : CompletionRequest R :=
  let configured_max := configured_output_ceiling (max_tokens request) in
  let effective_max := effective_output_budget input context_window configured_max in
  set_max_tokens effective_max request.

Definition ensure_context_can_dispatch {R} (request : CompletionRequest R)
    (context_window input : Z) : result StreamingError unit :=
  let configured_max := configured_output_ceiling (max_tokens request) in
  if can_dispatch input context_window configured_max then Ok tt
  else Err (SE_Completion (RequestError
         (NoOutputCapacity input context_window configured_max))).

Record PreparedDispatch (R P : Type) : Type :=
  { pd_request : CompletionRequest R; pd_projection : P }.
Arguments pd_request {R P} _.
Arguments pd_projection {R P} _.

Section dispatch.
Context {R P : Type}.
(** The provider-shaped token counter and projection of [provider_input.rs],
    which serialise the request with [rig]'s provider types. *)
Variable estimate_request : CompletionRequest R → result str Z.
Variable project_request : CompletionRequest R → result str P.

Definition projection_failed {A} (r : result str A) : result StreamingError A :=
  match r with
  | Ok a => Ok a
  | Err error => Err (SE_Completion (ProviderError
                   (lit "provider_input_projection_failed: " ++ error)))
  end.

Definition prepare_dispatch_attempt (assembled_request : CompletionRequest R)
    (context_window : Z) (budget : option AggregateTokenBudget)
    : result StreamingError (PreparedDispatch R P) :=
  let? input := projection_failed (estimate_request assembled_request) in
  let request := clamp_request_output_budget assembled_request context_window input in
  let? _ := ensure_context_can_dispatch request context_window input in
  let? request := clamp_request_aggregate_token_budget request budget input in
  let? projection := projection_failed (project_request request) in
  Ok {| pd_request := request; pd_projection := projection |}.
End dispatch.

(** ** Properties of the context arithmetic *)

Lemma threshold_basis_points_range threshold :
  0 <= threshold_basis_points threshold <= 10000.
Proof.
  unfold threshold_basis_points. split_ifs; [lia|]. split.
  - apply f64_as_unsigned_range. unfold u64_max. lia.
  - etransitivity; [apply f64_min_as_unsigned_le; unfold u64_max; lia|]. done.
Qed.

Lemma threshold_budget_range w threshold :
  0 <= w -> 0 <= threshold_budget w threshold <= w.
Proof.
  intros Hw. unfold threshold_budget.
  pose proof (threshold_basis_points_range threshold) as Hb. split.
  - apply Z.div_pos; nia.
  - apply Z.div_le_upper_bound; nia.
Qed.
#[export] Hint Resolve threshold_budget_range : gents.

Lemma can_dispatch_iff input w m :
  0 <= input -> in_usize w -> 0 <= m ->
  can_dispatch input w m = true <-> input < w /\ 0 < m.
Proof.
  intros Hi Hw Hm. unfold can_dispatch, effective_output_budget, checked_add.
  destruct (0 <? _) eqn:E1; simpl; [|mlia].
  destruct (_ <=? usize_max) eqn:E2; simpl; mlia.
Qed.

Lemma ledger_can_dispatch_iff l input m :
  0 <= input -> 0 <= m ->
  ledger_can_dispatch l input m = true <-> input < remaining l /\ 0 < m.
Proof. unfold ledger_can_dispatch, effective_output_tokens, remaining. mlia. Qed.

(** ** Properties of the ledger *)

Lemma charged_usage_total_range u : usage_in_range u -> in_u64 (charged_usage_total u).
Proof. unfold usage_in_range, charged_usage_total. intros. mlia. Qed.

Lemma charge_reported_limit usage l : limit (snd (charge_reported usage l)) = limit l.
Proof. unfold charge_reported. destruct usage; [|done]. by destruct (_ =? 0). Qed.

Lemma charge_reported_used usage l :
  used (snd (charge_reported usage l)) =
  match usage with
  | Some u => if charged_usage_total u =? 0 then used l
              else saturating_add u64_max (used l) (charged_usage_total u)
  | None => used l
  end.
Proof. unfold charge_reported. destruct usage; [|done]. by destruct (_ =? 0). Qed.

(** Saturating sums of non-negative terms do not depend on the grouping. *)
Lemma saturating_add_assoc mx a b c :
  0 <= a -> 0 <= b -> 0 <= c ->
  saturating_add mx (saturating_add mx a b) c = saturating_add mx a (b + c).
Proof. mlia. Qed.

(** ** One dispatched and charged call, and runs of them *)

Section runs.
Context {R P : Type}.
Variable estimate_request : CompletionRequest R → result str Z.
Variable project_request : CompletionRequest R → result str P.

(** A call that the loop makes: what it sends, and what the provider reports. *)
Record provider_call : Type := { pc_request : CompletionRequest R; pc_usage : option Usage }.

Definition dispatch_and_charge (context_window : Z) (b : AggregateTokenBudget)
    (c : provider_call)
    : result StreamingError (PreparedDispatch R P * AggregateTokenCharge) * AggregateTokenBudget :=
  match prepare_dispatch_attempt estimate_request project_request
          (pc_request c) context_window (Some b) with
  | Err e => (Err e, b)
  | Ok d =>
      match budget_charge_reported (pc_usage c) b with
      | (Ok (charge, _), b') => (Ok (d, charge), b')
      | (Err e, b') => (Err e, b')
      end
  end.

(** The request ends on an error, on a missing report and on an overrun. *)
Fixpoint dispatch_run (context_window : Z) (b : AggregateTokenBudget)
    (calls : list provider_call) : list AggregateTokenCharge * AggregateTokenBudget :=
  match calls with
  | [] => ([], b)
  | c :: calls' =>
      match dispatch_and_charge context_window b c with
      | (Err _, b') => ([], b')
      | (Ok (_, charge), b') =>
          match aggregate_post_charge_action charge false with
          | Continue =>
              let '(charges, b'') := dispatch_run context_window b' calls' in
              (charge :: charges, b'')
          | _ => ([charge], b')
          end
      end
  end.

(** The provider charged no more than the estimated input and the output it was
    allowed for the request it received. *)
Definition honest_call (context_window : Z) (b : AggregateTokenBudget) (c : provider_call)
    : Prop :=
  ∀ input d u,
    estimate_request (pc_request c) = Ok input ->
    prepare_dispatch_attempt estimate_request project_request
      (pc_request c) context_window (Some b) = Ok d ->
    pc_usage c = Some u ->
    usage_in_range u /\
    charged_usage_total u <= input + unwrap_or 0 (max_tokens (pd_request d)).

Definition estimates_in_range : Prop :=
  ∀ r input, estimate_request r = Ok input -> in_usize input.

Definition request_in_range (r : CompletionRequest R) : Prop :=
  ∀ m, max_tokens r = Some m -> in_u64 m.

Lemma prepare_core r w budget d :
  estimates_in_range -> in_usize w -> request_in_range r ->
  prepare_dispatch_attempt estimate_request project_request r w budget = Ok d ->
  ∃ input n, estimate_request r = Ok input /\
    max_tokens (pd_request d) = Some n /\ rest (pd_request d) = rest r /\
    0 < n /\ input + n <= w /\ n <= configured_output_ceiling (max_tokens r) /\
    ∀ b, budget = Some b -> poisoned b = false /\ input + n <= limit (ledger b) - used (ledger b).
Proof.
  intros Hest Hw Hr. unfold prepare_dispatch_attempt.
  destruct (estimate_request r) as [input|] eqn:Ei; simpl; [|done].
  pose proof (Hest _ _ Ei) as Hi.
  assert (Hc0 : 0 <= configured_output_ceiling (max_tokens r) <= usize_max).
  { unfold configured_output_ceiling. destruct (max_tokens r) eqn:E; [|unfold usize_max, u64_max; lia].
    specialize (Hr _ E). unfold in_u64, usize_max, u64_max in *. lia. }
  unfold clamp_request_output_budget. set (n1 := effective_output_budget input w _).
  assert (Hn1 : n1 = Z.min (configured_output_ceiling (max_tokens r)) (Z.max 0 (w - input)))
    by done.
  unfold ensure_context_can_dispatch. simpl.
  rewrite (Z.min_l n1 usize_max) by lia.
  destruct (can_dispatch input w n1) eqn:Ecd; simpl; [|done].
  apply can_dispatch_iff in Ecd as [Hlt Hpos]; [|mlia|done|lia].
  destruct budget as [b|]; simpl.
  - unfold budget_snapshot. destruct (poisoned b) eqn:Ep; simpl; [done|].
    destruct (ledger_can_dispatch _ _ _) eqn:El; simpl; [|done].
    apply ledger_can_dispatch_iff in El as [Hrem _]; [|mlia|lia].
    set (n2 := effective_output_tokens (ledger b) input n1).
    assert (Hn2 : n2 = Z.min n1 (Z.max 0 (remaining (ledger b) - input))) by done.
    destruct (project_request _) eqn:Epr; simpl; [|done]. intros [= <-]. simpl.
    unfold remaining, saturating_sub in *.
    clearbody n1 n2. exists input, n2. split_and!; try done; try lia.
    intros b' [= <-]. split; [done|mlia].
  - destruct (project_request _) eqn:Epr; simpl; [|done]. intros [= <-]. simpl.
    exists input, n1. split_and!; try done; try lia.
Qed.
Lemma prepare_inv r w budget d :
  estimates_in_range -> in_usize w -> request_in_range r ->
  (∀ b, budget = Some b -> ledger_in_range (ledger b)) ->
  prepare_dispatch_attempt estimate_request project_request r w budget = Ok d ->
  ∃ input n, estimate_request r = Ok input /\
    max_tokens (pd_request d) = Some n /\ rest (pd_request d) = rest r /\
    0 < n /\ input + n <= w /\ n <= configured_output_ceiling (max_tokens r) /\
    ∀ b, budget = Some b -> poisoned b = false /\ input + n <= limit (ledger b) - used (ledger b).
Proof. intros Hest Hw Hr _. by apply prepare_core. Qed.
End runs.
Arguments provider_call : clear implicits.

(** A prepared provider attempt always fits: it carries an explicit positive output
    ceiling that, added to the estimated input, stays inside the context window and
    inside what the request-wide ledger has left, and never exceeds the configured
    ceiling; nothing else of the request changes. *)
Theorem prepared_attempt_fits {R P} (est : CompletionRequest R → result str Z)
    (proj : CompletionRequest R → result str P) r w budget d :
  estimates_in_range est -> in_usize w -> request_in_range r ->
  (∀ b, budget = Some b -> ledger_in_range (ledger b)) ->
  prepare_dispatch_attempt est proj r w budget = Ok d ->
  ∃ input n, est r = Ok input /\ max_tokens (pd_request d) = Some n /\
    rest (pd_request d) = rest r /\ 0 < n /\ input + n <= w /\
    n <= configured_output_ceiling (max_tokens r) /\
    ∀ b, budget = Some b -> input + n <= limit (ledger b) - used (ledger b).
Proof.
  intros ? ? ? ? Hp. eapply prepare_inv in Hp as (i & n & ?); [|done..].
  destruct_and!. exists i, n. split_and!; naive_solver.
Qed.

Definition est_const (n : Z) : CompletionRequest unit → result str Z := λ _, Ok n.
Definition proj_unit : CompletionRequest unit → result str unit := λ _, Ok tt.
Definition req_of (m : option Z) : CompletionRequest unit := {| max_tokens := m; rest := tt |}.

Lemma prepared_attempt_fits_witness :
  ∃ d, prepare_dispatch_attempt (est_const 900) proj_unit (req_of (Some 500)) 1000
         (Some (with_prior_usage 2000 1050)) = Ok d /\
  ∃ input n, est_const 900 (req_of (Some 500)) = Ok input /\
    max_tokens (pd_request d) = Some n /\ rest (pd_request d) = tt /\ 0 < n /\
    input + n <= 1000 /\ n <= configured_output_ceiling (Some 500) /\
    ∀ b, Some (with_prior_usage 2000 1050) = Some b ->
         input + n <= limit (ledger b) - used (ledger b).
Proof.
  eexists. split; [reflexivity|].
  apply (prepared_attempt_fits (est_const 900) proj_unit (req_of (Some 500)) 1000
           (Some (with_prior_usage 2000 1050))).
  - intros r i [= <-]. unfold in_usize, usize_max, u64_max. lia.
  - unfold in_usize, usize_max, u64_max. lia.
  - intros m [= <-]. unfold in_u64, u64_max. lia.
  - intros b [= <-]. unfold ledger_in_range, in_u64, u64_max. simpl. lia.
  - reflexivity.
Defined.

(** Preparation fails only for want of capacity: when the counter and the projection
    succeed and the lock is not poisoned, an attempt is prepared exactly if the input
    leaves room in the context window and in the ledger and the configured ceiling is
    not zero. *)
Theorem prepare_succeeds_iff_capacity {R P} (est : CompletionRequest R → result str Z)
    (proj : CompletionRequest R → result str P) r w b input :
  est r = Ok input -> in_usize input -> in_usize w -> request_in_range r ->
  ledger_in_range (ledger b) -> poisoned b = false ->
  (∀ r', is_ok (proj r') = true) ->
  is_ok (prepare_dispatch_attempt est proj r w (Some b)) = true <->
  input < w /\ input < remaining (ledger b) /\ max_tokens r ≠ Some 0.
Proof.
  intros Hest Hi Hw Hr Hl Hp Hproj. unfold prepare_dispatch_attempt. rewrite Hest. simpl.
  assert (Hc0 : 0 <= configured_output_ceiling (max_tokens r) <= usize_max /\
    (0 < configured_output_ceiling (max_tokens r) <-> max_tokens r ≠ Some 0)).
  { unfold configured_output_ceiling. destruct (max_tokens r) as [m|] eqn:E.
    - specialize (Hr _ E). unfold in_u64, usize_max, u64_max in *.
      split; [lia|]. split; [intros ? [= ->]; lia|]. intros Hm.
      assert (m ≠ 0) by congruence. lia.
    - unfold usize_max, u64_max. split; [lia|done]. }
  destruct Hc0 as [Hc0 Hcpos].
  unfold clamp_request_output_budget. set (n1 := effective_output_budget input w _).
  assert (Hn1 : n1 = Z.min (configured_output_ceiling (max_tokens r)) (Z.max 0 (w - input)))
    by done.
  clearbody n1. unfold ensure_context_can_dispatch. simpl.
  rewrite (Z.min_l n1 usize_max) by lia.
  destruct (can_dispatch input w n1) eqn:Ecd; simpl.
  - apply can_dispatch_iff in Ecd as [Hlt Hpos]; [|mlia|done|lia].
    unfold budget_snapshot. rewrite Hp. simpl.
    destruct (ledger_can_dispatch _ _ _) eqn:El; simpl.
    + apply ledger_can_dispatch_iff in El as [Hrem _]; [|mlia|lia].
      specialize (Hproj (set_max_tokens (effective_output_tokens (ledger b) input n1)
        (set_max_tokens n1 r))).
      destruct (proj _); [|done]. simpl. split; [intros _|done].
      split_and!; [done|done|]. apply Hcpos. lia.
    + split; [done|]. intros (?&Hrem&?).
      assert (ledger_can_dispatch (ledger b) input n1 = true); [|congruence].
      apply ledger_can_dispatch_iff; [mlia|lia|]. split; [done|lia].
  - split; [done|]. intros (?&?&?%Hcpos).
    assert (can_dispatch input w n1 = true); [|congruence].
    apply can_dispatch_iff; [mlia|done|lia|]. lia.
Qed.

Lemma prepare_succeeds_iff_capacity_witness :
  is_ok (prepare_dispatch_attempt (est_const 999) proj_unit (req_of None) 1000
           (Some (with_prior_usage 2000 1000))) = true <->
  999 < 1000 /\ 999 < remaining (ledger (with_prior_usage 2000 1000)) /\
  max_tokens (req_of None) ≠ Some 0.
Proof.
  apply (prepare_succeeds_iff_capacity (est_const 999) proj_unit (req_of None) 1000
           (with_prior_usage 2000 1000) 999).
  - reflexivity.
  - unfold in_usize, usize_max, u64_max. lia.
  - unfold in_usize, usize_max, u64_max. lia.
  - intros m [=].
  - unfold ledger_in_range, in_u64, u64_max. simpl. lia.
  - reflexivity.
  - reflexivity.
Defined.

Lemma charge_within_limit l u :
  ledger_in_range l -> usage_in_range u -> used l + charged_usage_total u <= limit l ->
  used (snd (charge_reported (Some u) l)) <= limit l /\
  fst (charge_reported (Some u) l) ≠ Overrun.
Proof.
  intros [Hl Hu] Hur Hle. pose proof (charged_usage_total_range _ Hur) as Hc.
  unfold charge_reported. destruct (_ =? 0) eqn:E; simpl; [split; [mlia|done]|].
  assert (Hsat : saturating_add u64_max (used l) (charged_usage_total u)
    = used l + charged_usage_total u) by mlia.
  rewrite Hsat. split; [lia|].
  destruct (Z.compare_spec (used l + charged_usage_total u) (limit l)); [done|done|lia].
Qed.

Lemma charge_reported_in_range usage l :
  ledger_in_range l -> (∀ u, usage = Some u -> usage_in_range u) ->
  ledger_in_range (snd (charge_reported usage l)).
Proof.
  intros [Hl Hu] Hur. split; [by rewrite charge_reported_limit|].
  rewrite charge_reported_used. destruct usage as [u|]; [|done].
  pose proof (charged_usage_total_range _ (Hur u eq_refl)). destruct (_ =? 0); mlia.
Qed.

(** Every prefix of the run was made against an honest provider. *)
Fixpoint honest_run {R P} (est : CompletionRequest R → result str Z)
    (proj : CompletionRequest R → result str P) (w : Z) (b : AggregateTokenBudget)
    (calls : list (provider_call R)) : Prop :=
  match calls with
  | [] => True
  | c :: calls' =>
      request_in_range (pc_request c) /\ honest_call est proj w b c /\
      honest_run est proj w (snd (dispatch_and_charge est proj w b c)) calls'
  end.

Lemma dispatch_and_charge_within {R P} (est : CompletionRequest R → result str Z)
    (proj : CompletionRequest R → result str P) w b c :
  estimates_in_range est -> in_usize w -> ledger_in_range (ledger b) ->
  request_in_range (pc_request c) -> honest_call est proj w b c ->
  used (ledger b) <= limit (ledger b) ->
  let '(r, b') := dispatch_and_charge est proj w b c in
  ledger_in_range (ledger b') /\ limit (ledger b') = limit (ledger b) /\
  used (ledger b) <= used (ledger b') <= limit (ledger b') /\
  (∀ d charge, r = Ok (d, charge) -> charge ≠ Overrun).
Proof.
  intros Hest Hw Hl Hr Hh Hule. unfold dispatch_and_charge.
  destruct (prepare_dispatch_attempt _ _ _ _ _) as [d|e] eqn:Ep; [|by split_and!].
  pose proof Ep as Ep'. eapply prepare_inv in Ep as (i&n&Hei&Hn&_&Hpos&_&_&Hb); [|done..|].
  2: { by intros b' [= <-]. }
  specialize (Hb b eq_refl) as [Hp Hfit]. unfold budget_charge_reported. rewrite Hp.
  destruct (charge_reported (pc_usage c) (ledger b)) as [ch l'] eqn:Ec. simpl.
  assert (Hl' : l' = snd (charge_reported (pc_usage c) (ledger b))) by by rewrite Ec.
  assert (Hch : ch = fst (charge_reported (pc_usage c) (ledger b))) by by rewrite Ec.
  assert (Hlim : limit l' = limit (ledger b)) by (subst; apply charge_reported_limit).
  destruct (pc_usage c) as [u|] eqn:Eu.
  - destruct (Hh _ _ _ Hei Ep' Eu) as [Hur Hle]. rewrite Hn in Hle. simpl in Hle.
    pose proof (charge_within_limit (ledger b) u Hl Hur ltac:(lia)) as [Hused Hno].
    rewrite <- Hl' in Hused. rewrite <- Hch in Hno. split_and!; try done; try lia.
    + subst l'. apply charge_reported_in_range; naive_solver.
    + subst l'. rewrite charge_reported_used.
      pose proof (charged_usage_total_range _ Hur). destruct Hl. destruct (_ =? 0); mlia.
    + naive_solver.
  - simpl in Ec. simplify_eq. split_and!; try done; try lia; naive_solver.
Qed.

(** C4. Whatever sequence of calls a request makes, if every provider stays within the
    input it was estimated and the output it was allowed, the request-wide ledger never
    overruns its limit, never refunds a charge, and no call is classified as an overrun. *)
Theorem request_never_overruns {R P} (est : CompletionRequest R → result str Z)
    (proj : CompletionRequest R → result str P) w b calls :
  estimates_in_range est -> in_usize w -> ledger_in_range (ledger b) ->
  used (ledger b) <= limit (ledger b) -> honest_run est proj w b calls ->
  let '(charges, b') := dispatch_run est proj w b calls in
  limit (ledger b') = limit (ledger b) /\
  used (ledger b) <= used (ledger b') <= limit (ledger b') /\
  Overrun ∉ charges.
Proof.
  intros Hest Hw. revert b. induction calls as [|c calls IH]; intros b Hl Hu Hh; simpl.
  { split_and!; [done|lia|done|set_solver]. }
  destruct Hh as (Hr & Hc & Hh).
  pose proof (dispatch_and_charge_within est proj w b c Hest Hw Hl Hr Hc Hu) as Hstep.
  destruct (dispatch_and_charge est proj w b c) as [[[d ch]|e] b'] eqn:Ed;
    destruct Hstep as (Hl' & Hlim & Hu' & Hno).
  2: { split_and!; [done|lia|lia|set_solver]. }
  specialize (Hno d ch eq_refl).
  destruct (aggregate_post_charge_action ch false);
    [|split_and!; [done|lia|lia|set_solver]..].
  specialize (IH b' Hl' ltac:(lia) Hh).
  destruct (dispatch_run est proj w b' calls) as [chs b''].
  destruct IH as (?&?&?). split_and!; [congruence|lia|lia|set_solver].
Qed.

Definition mk_usage (i o : Z) : Usage :=
  {| input_tokens := i; output_tokens := o; total_tokens := i + o;
     cached_input_tokens := 0; cache_creation_input_tokens := 0 |}.
Definition two_calls : list (provider_call unit) :=
  [ {| pc_request := req_of (Some 500); pc_usage := Some (mk_usage 900 100) |};
    {| pc_request := req_of (Some 500); pc_usage := Some (mk_usage 900 100) |} ].

Lemma request_never_overruns_witness :
  dispatch_run (est_const 900) proj_unit 1000 (new_budget 2000) two_calls
    = ([Within; Exhausted], with_prior_usage 2000 2000) /\
  let '(charges, b') :=
    dispatch_run (est_const 900) proj_unit 1000 (new_budget 2000) two_calls in
  limit (ledger b') = 2000 /\ 0 <= used (ledger b') <= limit (ledger b') /\
  Overrun ∉ charges.
Proof.
  split; [reflexivity|].
  apply (request_never_overruns (est_const 900) proj_unit 1000 (new_budget 2000) two_calls).
  - intros r i [= <-]. unfold in_usize, usize_max, u64_max. lia.
  - unfold in_usize, usize_max, u64_max. lia.
  - unfold ledger_in_range, in_u64, u64_max. simpl. lia.
  - simpl. lia.
  - assert (Hr : request_in_range (req_of (Some 500))).
    { intros m [= <-]. unfold in_u64, u64_max. lia. }
    assert (Hu : usage_in_range (mk_usage 900 100)).
    { unfold usage_in_range, in_u64, u64_max; simpl; lia. }
    simpl. split_and!; try exact Hr; try exact I.
    + intros i d u [= <-] [= <-] [= <-]. split; [exact Hu|vm_compute; discriminate].
    + intros i d u [= <-] [= <-] [= <-]. split; [exact Hu|vm_compute; discriminate].
Defined.

(** ** Durable rows and the live ledger agree *)

Definition persisted_row (usage : option Usage) : option Z * option Z :=
  let '(prompt, completion, _) := usage_fields usage in (prompt, completion).

Definition charge_all (l : AggregateTokenLedger) (usages : list (option Usage))
    : AggregateTokenLedger :=
  fold_left (λ l usage, snd (charge_reported usage l)) usages l.

Lemma sum_charged_from_live l usages :
  ledger_in_range l -> (∀ u, Some u ∈ usages -> usage_in_range u) ->
  sum_charged_from (used l) (persisted_row <$> usages) = Ok (used (charge_all l usages)).
Proof.
  revert l. induction usages as [|o usages IH]; intros l Hl Hur; [done|].
  assert (Ho : ∀ u, o = Some u -> usage_in_range u) by (intros u ->; apply Hur; set_solver).
  assert (Hrest : ∀ u, Some u ∈ usages -> usage_in_range u)
    by (intros u ?; apply Hur; set_solver).
  assert (Hl' := charge_reported_in_range o l Hl Ho).
  change (charge_all l (o :: usages)) with (charge_all (snd (charge_reported o l)) usages).
  rewrite <- (IH _ Hl' Hrest), charge_reported_used. destruct Hl as [_ Hused].
  destruct o as [u|]; simpl.
  - pose proof (Ho u eq_refl) as (Hi & Hout & _).
    rewrite (proj2 (u64_try_from_Some (input_tokens u) _) (conj eq_refl Hi)). simpl.
    rewrite (proj2 (u64_try_from_Some (output_tokens u) _) (conj eq_refl Hout)). simpl.
    f_equal. unfold charged_usage_total. destruct (_ =? 0) eqn:E; [|done]. mlia.
  - f_equal. mlia.
Qed.

(** Restarting a request does not change its budget: summing the usage columns
    persisted for the calls made so far gives exactly the [used] counter the live
    ledger reached by charging the same reports, saturation included. *)
Theorem rehydrated_usage_is_live_usage lim usages :
  in_u64 lim -> (∀ u, Some u ∈ usages -> usage_in_range u) ->
  sum_charged_from_persisted_parts (persisted_row <$> usages)
  = Ok (used (charge_all (ledger (new_budget lim)) usages)).
Proof.
  intros Hlim Hur. apply (sum_charged_from_live (ledger (new_budget lim))); [|done].
  split; simpl; [done|]. unfold in_u64, u64_max. lia.
Qed.

Lemma rehydrated_usage_is_live_usage_witness :
  sum_charged_from_persisted_parts
    (persisted_row <$> [Some (mk_usage 100 20); None; Some (mk_usage (2 ^ 64 - 50) 10)])
  = Ok u64_max.
Proof.
  rewrite (rehydrated_usage_is_live_usage 500); [reflexivity|unfold in_u64, u64_max; lia|].
  intros u Hu. repeat (apply elem_of_cons in Hu as [Hu|Hu]); try discriminate Hu;
    try (injection Hu as ->; unfold usage_in_range, in_u64, u64_max; simpl; lia).
  by apply not_elem_of_nil in Hu.
Defined.

(** The ledger's own refusal is recognised as the typed budget failure, and the
    recogniser accepts nothing but a provider error of the chain that carries the
    budget prefix: text of any other cause cannot forge it. *)
Theorem budget_exhaustion_is_typed {R} (r : CompletionRequest R) b input e chain m :
  poisoned b = false ->
  clamp_request_aggregate_token_budget r (Some b) input = Err e ->
  aggregate_token_budget_exhaustion_message chain = Some m ->
  aggregate_token_budget_exhaustion_message [CauseStreaming e]
    = Some (exhausted_message (ledger b) input) /\
  CauseStreaming (SE_Completion (ProviderError m)) ∈ chain /\
  starts_with AGGREGATE_TOKEN_BUDGET_EXHAUSTED_PREFIX m = true.
Proof.
  intros Hp Hc Hm. split; [|clear Hc Hp].
  - unfold clamp_request_aggregate_token_budget, budget_snapshot in Hc. rewrite Hp in Hc.
    simpl in Hc. destruct (negb _); [|done]. injection Hc as <-.
    unfold aggregate_token_budget_exhaustion_message, exhausted_message.
    by rewrite starts_with_app.
  - induction chain as [|[[[| | | |reason|]| |]|] chain IH]; simpl in Hm; try done;
      try (destruct (IH Hm) as [? ?]; split; [set_solver|done]).
    destruct (starts_with _ reason) eqn:E.
    + injection Hm as ->. split; [set_solver|done].
    + destruct (IH Hm). split; [set_solver|done].
Qed.

Lemma budget_exhaustion_is_typed_witness :
  let b := with_prior_usage 10 10 in
  let m := exhausted_message (ledger b) 5 in
  ∃ e, clamp_request_aggregate_token_budget (req_of None) (Some b) 5 = Err e /\
    aggregate_token_budget_exhaustion_message [CauseStreaming e] = Some m /\
    CauseStreaming (SE_Completion (ProviderError m)) ∈ [CauseOther m; CauseStreaming e] /\
    starts_with AGGREGATE_TOKEN_BUDGET_EXHAUSTED_PREFIX m = true.
Proof.
  eexists. split; [reflexivity|].
  apply (budget_exhaustion_is_typed (req_of None) (with_prior_usage 10 10) 5);
    vm_compute; reflexivity.
Defined.

(** The compaction threshold is a share of the context window: for every finite or
    non-finite [f64] configuration value the input budget lies between zero and the
    window, so the [min] with the window never binds, and an input within it leaves the
    retention target of a compaction within the configured and the available tokens. *)
Theorem input_budget_within_window w threshold keep fixed :
  0 <= w ->
  0 <= effective_input_budget w threshold <= w /\
  effective_input_budget w threshold = threshold_budget w threshold /\
  compaction_retention_target keep (effective_input_budget w threshold) fixed <= keep /\
  (0 <= fixed <= effective_input_budget w threshold ->
   fixed + compaction_retention_target keep (effective_input_budget w threshold) fixed <= w).
Proof.
  intros Hw. pose proof (threshold_budget_range w threshold Hw) as Hb.
  unfold effective_input_budget. rewrite Z.min_l by lia.
  unfold compaction_retention_target, saturating_sub.
  pose proof (Z.mul_div_le (Z.max 0 (threshold_budget w threshold - fixed) * 3) 4).
  split_and!; lia.
Qed.

Lemma input_budget_within_window_witness :
  let th := f64_div (f64_of_Z 57) (f64_of_Z 100) in
  effective_input_budget 1000 th = 570 /\
  0 <= effective_input_budget 1000 th <= 1000 /\
  effective_input_budget 1000 th = threshold_budget 1000 th /\
  compaction_retention_target 9 (effective_input_budget 1000 th) 100 <= 9 /\
  (0 <= 100 <= effective_input_budget 1000 th ->
   100 + compaction_retention_target 9 (effective_input_budget 1000 th) 100 <= 1000).
Proof.
  split; [vm_compute; reflexivity|].
  apply (input_budget_within_window 1000 _ 9 100). lia.
Defined.
