(* ===== verification/RequestState.v ===== *)
(** * The request state and the execution policy

    [gents-protocol/src/request_lifecycle.rs] (the one owner of the
    [lifecycle_state] column), [lifecycle/execution_policy.rs] (who may write to a
    running execution) and the pure parts of [lifecycle.rs]: the local state of a
    claimed request, the time-to-live of a pending one, the persisted execution
    origin. *)

From S2P Require Import Prelude RustStr.

(** ** [RequestLifecycleState] *)

Inductive RequestLifecycleState : Type :=
| WorkspaceBindingPending | Pending | Claimed | Processing | InputRequired
| Completed | Failed | Superseded | Dead | Interrupted.

#[global] Instance RequestLifecycleState_eq_dec : EqDecision RequestLifecycleState.
Proof. solve_decision. Defined.

Definition state_eqb (a b : RequestLifecycleState) : bool := bool_decide (a = b).

Definition ALL : list RequestLifecycleState :=
  [WorkspaceBindingPending; Pending; Claimed; Processing; InputRequired;
   Completed; Failed; Superseded; Dead; Interrupted].

Definition as_str (s : RequestLifecycleState) : str :=
  match s with
  | WorkspaceBindingPending => lit "workspaceBindingPending"
  | Pending => lit "pending"
  | Claimed => lit "claimed"
  | Processing => lit "processing"
  | InputRequired => lit "inputRequired"
  | Completed => lit "completed"
  | Failed => lit "failed"
  | Superseded => lit "superseded"
  | Dead => lit "dead"
  | Interrupted => lit "interrupted"
  end.

Definition is_terminal (s : RequestLifecycleState) : bool :=
  match s with
  | Completed | Failed | Superseded | Dead | Interrupted => true
  | _ => false
  end.

Definition is_claimable (s : RequestLifecycleState) : bool :=
  match s with Pending => true | _ => false end.

Definition is_active_runtime (s : RequestLifecycleState) : bool :=
  match s with Pending | Claimed | Processing => true | _ => false end.

Record InvalidRequestLifecycleState : Type := { invalid_state : str }.

Definition invalid_state_display (e : InvalidRequestLifecycleState) : str :=
  lit "invalid request lifecycle state: " ++ invalid_state e.

Definition parse (value : str) : result InvalidRequestLifecycleState RequestLifecycleState :=
  if str_eqb value (lit "workspaceBindingPending") then Ok WorkspaceBindingPending
  else if str_eqb value (lit "pending") then Ok Pending
  else if str_eqb value (lit "claimed") then Ok Claimed
  else if str_eqb value (lit "processing") then Ok Processing
  else if str_eqb value (lit "inputRequired") then Ok InputRequired
  else if str_eqb value (lit "completed") then Ok Completed
  else if str_eqb value (lit "failed") then Ok Failed
  else if str_eqb value (lit "superseded") then Ok Superseded
  else if str_eqb value (lit "dead") then Ok Dead
  else if str_eqb value (lit "interrupted") then Ok Interrupted
  else Err {| invalid_state := value |}.

Definition parse_opt (value : option str) : option RequestLifecycleState :=
  value ≫= λ v, result_ok (parse v).

Definition is_terminal_str (value : option str) : bool :=
  is_some_and is_terminal (parse_opt value).

(** The double quote, which [format!] writes around each state. *)
Definition dquote : Z := 34.

Definition graphql_list (states : list RequestLifecycleState) : str :=
  lit "[" ++ join (lit ", ") ((λ s, [dquote] ++ as_str s ++ [dquote]) <$> states) ++ lit "]".

Definition terminal_graphql_list : str := graphql_list (List.filter is_terminal ALL).
Definition active_runtime_graphql_list : str := graphql_list (List.filter is_active_runtime ALL).
Definition nonterminal_graphql_list : str :=
  graphql_list (List.filter (λ s, negb (is_terminal s)) ALL).

(** ** Execution policy *)

Record ExecutionObservation : Type := {
  ob_request : RequestLifecycleState;
  ob_response_streaming : option bool;
  ob_generation : str;
  ob_deadline : Z;
  ob_progress_seq : Z
}.

Inductive ExecutionOperation : Type :=
| Op_Begin
| Op_Progress (new_deadline : Z)
| Op_Finalize (completed : bool)
| Op_Observe.

Definition authorize_live_execution (observed : ExecutionObservation)
    (expected_generation : str) (now : Z) (operation : ExecutionOperation) : bool :=
  if negb (str_eqb (ob_generation observed) expected_generation)
     || (ob_deadline observed <? now) then false
  else
    let claimed := state_eqb (ob_request observed) Claimed
                   && negb (bool_decide (is_Some (ob_response_streaming observed))) in
    let processing := state_eqb (ob_request observed) Processing
                      && opt_eqb Bool.eqb (ob_response_streaming observed) (Some true) in
    match operation with
    | Op_Begin => claimed
    | Op_Progress new_deadline => processing && (ob_deadline observed <? new_deadline)
    | Op_Finalize completed => processing || (negb completed && claimed)
    | Op_Observe => processing
    end.

Definition authorize_execution_revocation (observed expected : ExecutionObservation)
    (fresh_generation : str) (outcome : RequestLifecycleState) : bool :=
  let active_pair :=
    (state_eqb (ob_request observed) Claimed
     && negb (bool_decide (is_Some (ob_response_streaming observed))))
    || (state_eqb (ob_request observed) Processing
        && opt_eqb Bool.eqb (ob_response_streaming observed) (Some true)) in
  active_pair
  && str_eqb (ob_generation observed) (ob_generation expected)
  && (ob_deadline observed =? ob_deadline expected)
  && (ob_progress_seq observed =? ob_progress_seq expected)
  && negb (str_eqb fresh_generation (ob_generation observed))
  && match outcome with Dead | Superseded => true | _ => false end.

Definition provider_eof_is_failure (saw_explicit_final : bool) : bool :=
  negb saw_explicit_final.

(** ** The local side of a request *)

Inductive LocalLifecycleState : Type :=
| L_Pending | L_Claimed | L_Streaming | L_Completed | L_Failed | L_Interrupted | L_Dead.

#[global] Instance LocalLifecycleState_eq_dec : EqDecision LocalLifecycleState.
Proof. solve_decision. Defined.

Inductive ClaimOutcome : Type := CO_Claimed | CO_Queued | CO_Interrupted | CO_Expired.

(** Instants are nanoseconds since the epoch. *)
Inductive TtlOutcome : Type :=
| NotSet
| Live (parsed : Z)
| Expired (parsed : Z)
| Malformed (error : str).

(** [chrono]'s RFC 3339 reader and writer are outside the program: every client
    is stated over this interface. *)
Class Chrono : Type := {
  parse_from_rfc3339 : str → result str Z;
  to_rfc3339 : Z → str
}.

(** What the program relies on: the text [to_rfc3339] writes reads back as the
    same instant. *)
Class ChronoLaws `{Chrono} : Prop := {
  rfc3339_roundtrip t : parse_from_rfc3339 (to_rfc3339 t) = Ok t
}.

Definition parse_valid_until `{Chrono} (value : option str) (now : Z) : TtlOutcome :=
  match value with
  | None => NotSet
  | Some value =>
      match parse_from_rfc3339 value with
      | Ok parsed => if parsed <? now then Expired parsed else Live parsed
      | Err error => Malformed error
      end
  end.

Definition timestamp_millis (t : Z) : Z := t / 1000000.
Definition seconds (n : Z) : Z := n * 1000000000.
Definition milliseconds (n : Z) : Z := n * 1000000.

(** [ExecutionOrigin::as_str] and [from_persisted]. *)
Inductive ExecutionOrigin : Type := Interactive | Scheduled.

Definition origin_as_str (o : ExecutionOrigin) : str :=
  match o with Interactive => lit "interactive" | Scheduled => lit "scheduled" end.

(** [{other:?}] escapes the text it quotes; [dbg] stands for that rendering. *)
Definition from_persisted (dbg : str → str) (value : option str)
    : result str ExecutionOrigin :=
  match value with
  | Some v =>
      if str_eqb v (lit "interactive") then Ok Interactive
      else if str_eqb v (lit "scheduled") then Ok Scheduled
      else Err (lit "unknown execution_origin " ++ dbg v)
  | None => Err (lit "execution_origin is required")
  end.

Definition resolve_behavior_id (default_behavior_id : str)
    (requested_behavior_id : option str) : str :=
  unwrap_or default_behavior_id
    (opt_filter (λ v, negb (str_eqb v [])) (trim <$> requested_behavior_id)).

(** ** Lemmas *)

Lemma state_eqb_true a b : state_eqb a b = true <-> a = b.
Proof. unfold state_eqb. by rewrite bool_decide_eq_true. Qed.

(** Equality tests of the model, as equations. *)
Ltac eqb_prop :=
  bool_prop;
  repeat match goal with
  | H : str_eqb _ _ = true |- _ => apply str_eqb_true in H
  | H : state_eqb _ _ = true |- _ => apply state_eqb_true in H
  | H : (_ =? _) = true |- _ => apply Z.eqb_eq in H
  | H : (_ <? _) = true |- _ => apply Z.ltb_lt in H
  | H : (_ <? _) = false |- _ => apply Z.ltb_ge in H
  | H : bool_decide _ = true |- _ => apply bool_decide_eq_true in H
  | H : bool_decide _ = false |- _ => apply bool_decide_eq_false in H
  end.

Lemma parse_as_str s : parse (as_str s) = Ok s.
Proof. by destruct s; vm_compute. Qed.

Lemma parse_Ok v s : parse v = Ok s -> v = as_str s.
Proof.
  unfold parse. intros H. split_ifs; eqb_prop; try discriminate;
    injection H as <-; done.
Qed.

(** The persisted spelling of a request state is exact in both directions:
    a text parses to a state precisely when it is that state's spelling, every
    other text is a typed error that names the text, and so no two states share
    a spelling. *)
Theorem state_text_roundtrip v s :
  (parse v = Ok s <-> v = as_str s) /\
  (∀ e, parse v = Err e -> invalid_state e = v /\ ∀ s', v <> as_str s').
Proof.
  split; [split; [apply parse_Ok | intros ->; apply parse_as_str]|].
  intros e He. split.
  - unfold parse in He. split_ifs; try discriminate. by injection He as <-.
  - intros s' ->. by rewrite parse_as_str in He.
Qed.
Lemma state_text_roundtrip_witness :
  parse (lit "inputRequired") = Ok InputRequired /\
  invalid_state {| invalid_state := lit "cancelled" |} = lit "cancelled".
Proof.
  split.
  - apply (state_text_roundtrip (lit "inputRequired") InputRequired). reflexivity.
  - refine (proj1 (proj2 (state_text_roundtrip (lit "cancelled") Dead) _ _)).
    vm_compute. reflexivity.
Defined.

Lemma streaming_true (o : option bool) : opt_eqb Bool.eqb o (Some true) = true <-> o = Some true.
Proof. by destruct o as [[]|]; simpl. Qed.

Lemma not_is_Some_b {A} (o : option A) : negb (bool_decide (is_Some o)) = true <-> o = None.
Proof.
  rewrite negb_true_iff, bool_decide_eq_false. destruct o; naive_solver.
Qed.

(** The two pairs of request state and response a running execution can have. *)
Definition active_pair (o : ExecutionObservation) : Prop :=
  (ob_request o = Claimed /\ ob_response_streaming o = None) \/
  (ob_request o = Processing /\ ob_response_streaming o = Some true).

Lemma authorize_live_spec o g now op :
  authorize_live_execution o g now op = true ->
  ob_generation o = g /\ now <= ob_deadline o /\ active_pair o /\
  match op with
  | Op_Begin => ob_request o = Claimed
  | Op_Progress d => ob_request o = Processing /\ ob_deadline o < d
  | Op_Finalize c => c = true -> ob_request o = Processing
  | Op_Observe => ob_request o = Processing
  end.
Proof.
  unfold authorize_live_execution, active_pair. intros H.
  destruct (negb (str_eqb _ _) || _) eqn:Hg; [done|]. bool_prop. eqb_prop.
  destruct op; bool_prop;
    repeat match goal with
    | H : _ \/ _ |- _ => destruct H
    | H : opt_eqb Bool.eqb _ _ = true |- _ => apply streaming_true in H
    | H : bool_decide (is_Some _) = false |- _ => apply bool_decide_eq_false in H
    | H : ¬ is_Some _ |- _ => apply eq_None_not_Some in H
    end; bool_prop; eqb_prop;
    repeat match goal with
    | H : opt_eqb Bool.eqb _ _ = true |- _ => apply streaming_true in H
    | H : ¬ is_Some _ |- _ => apply eq_None_not_Some in H
    end; split_and!; auto; try congruence; try lia.
Qed.

Lemma authorize_revocation_spec o e fresh out :
  authorize_execution_revocation o e fresh out = true ->
  active_pair o /\ ob_generation o = ob_generation e /\ ob_deadline o = ob_deadline e /\
  ob_progress_seq o = ob_progress_seq e /\ fresh <> ob_generation o /\
  (out = Dead \/ out = Superseded).
Proof.
  unfold authorize_execution_revocation, active_pair. intros H. bool_prop. eqb_prop.
  assert (fresh <> ob_generation o).
  { intros ->. rewrite str_eqb_refl in *. discriminate. }
  split_and!; auto.
  - match goal with H : _ || _ = true |- _ => apply orb_true_iff in H; destruct H | H : _ \/ _ |- _ => destruct H end;
      bool_prop; eqb_prop.
    + left. split; [done|]. by apply eq_None_not_Some.
    + right. split; [done|]. by apply streaming_true.
  - destruct out; try discriminate; auto.
Qed.

(** Authority over a running execution: an owner's write is accepted only for
    the owner's own generation, on a claimed or processing execution whose lease,
    in milliseconds, has not passed; it can complete only a processing one and can
    extend the lease only forward.  A revocation must match every observed fence
    field, take a new generation and end dead or superseded, so the revoked owner
    is refused from then on: no operation is authorised for the old generation
    against an observation that carries the fresh one. *)
Theorem execution_authority o e g fresh now now' op op' out :
  authorize_live_execution o g now op = true ->
  (ob_generation o = g /\ now <= ob_deadline o /\ active_pair o /\
   match op with
   | Op_Begin => ob_request o = Claimed
   | Op_Progress d => ob_request o = Processing /\ ob_deadline o < d
   | Op_Finalize c => c = true -> ob_request o = Processing
   | Op_Observe => ob_request o = Processing
   end) /\
  (authorize_execution_revocation o e fresh out = true ->
   (out = Dead \/ out = Superseded) /\ ob_generation e = g /\
   ∀ o', ob_generation o' = fresh -> authorize_live_execution o' g now' op' = false).
Proof.
  intros H. pose proof (authorize_live_spec _ _ _ _ H) as (Hg & Hrest).
  split; [done|]. intros Hr.
  apply authorize_revocation_spec in Hr as (_ & Heg & _ & _ & Hfresh & Hout).
  split_and!; [done|congruence|]. intros o' Ho'.
  unfold authorize_live_execution.
  destruct (str_eqb (ob_generation o') g) eqn:E; [|done].
  apply str_eqb_true in E. congruence.
Qed.
Lemma execution_authority_witness :
  let o := {| ob_request := Processing; ob_response_streaming := Some true;
              ob_generation := lit "g1"; ob_deadline := 100; ob_progress_seq := 3 |} in
  authorize_live_execution
    {| ob_request := Processing; ob_response_streaming := Some true;
       ob_generation := lit "g2"; ob_deadline := 900; ob_progress_seq := 3 |}
    (lit "g1") 60 Op_Observe = false.
Proof.
  intros o.
  assert (H1 : authorize_live_execution o (lit "g1") 50 (Op_Progress 101) = true)
    by (vm_compute; reflexivity).
  assert (H2 : authorize_execution_revocation o o (lit "g2") Dead = true)
    by (vm_compute; reflexivity).
  refine (proj2 (proj2 (proj2 (execution_authority o o (lit "g1") (lit "g2") 50 60
            (Op_Progress 101) Op_Observe Dead H1) H2)) _ _). reflexivity.
Defined.
