(* ===== verification/Retry.v ===== *)
(** * Retry and backoff

    Models [crates/gents/src/retry.rs] (jittered exponential backoff, the
    bounded retry of terminal persistence) and
    [crates/gents/src/agent/completion_retry.rs] (the per-request retry ledger
    the owned loop consults on every provider failure).

    A [Duration] is its number of nanoseconds, a [DateTime] the nanoseconds
    since the epoch.  A draw of the random generator is a parameter: the
    function from an inclusive upper bound to the number drawn. *)

From S2P Require Import Prelude RustStr Errors RequestState.
Open Scope Z_scope.

(** ** Durations *)

Definition duration_max : Z := u64_max * 10 ^ 9 + 999999999.
Definition from_millis (ms : Z) : Z := ms * 10 ^ 6.
Definition from_secs (s : Z) : Z := s * 10 ^ 9.
Definition as_millis (d : Z) : Z := d / 10 ^ 6.
Definition duration_saturating_mul (d k : Z) : Z := Z.min duration_max (d * k).
Definition chrono_duration_from_std (delay : Z) : Z :=
  Z.min (as_millis delay) i64_max * 10 ^ 6.

(** ** [RetryPolicy] *)

Record RetryPolicy : Type := { max_retries : Z; base_delay_ms : Z; max_delay_ms : Z }.

Definition default_retry_policy : RetryPolicy :=
  {| max_retries := 3; base_delay_ms := 1000; max_delay_ms := 30000 |}.

(** [rng.random_range(0..=n)]: any number of that range. *)
Definition draw_ok (draw : Z → Z) : Prop := ∀ n, 0 <= n -> 0 <= draw n <= n.

(** The shared +/-25% jitter and 100 ms floor, on milliseconds. *)
Definition jitter_ms (draw : Z → Z) (base_ms : Z) : Z :=
  let jitter_range := base_ms / 4 in
  let delta := if 0 <? jitter_range
               then wrap_i64 (draw (jitter_range * 2)) - wrap_i64 jitter_range
               else 0 in
  Z.max (wrap_i64 (wrap_i64 base_ms + delta)) 100.

Definition delay_for_attempt (draw : Z → Z) (p : RetryPolicy) (attempt : Z) : Z :=
  let exponential := saturating_mul u64_max (base_delay_ms p) (Z.shiftl 1 (Z.min attempt 10)) in
  let capped := Z.min exponential (max_delay_ms p) in
  from_millis (jitter_ms draw capped).

Definition has_retries (p : RetryPolicy) : bool := 0 <? max_retries p.

Definition retries_exhausted (p : RetryPolicy) (last_error : InferenceError) : InferenceError :=
  RetriesExhausted (max_retries p) (inference_error_display last_error).

(** ** Terminal persistence *)

Definition TERMINAL_PERSISTENCE_MAX_RETRIES : nat := 3.
Definition TERMINAL_PERSISTENCE_INITIAL_BACKOFF_MS : Z := 100.

Section terminal_persistence.
Context {S E A : Type}.
(** One attempt of the operation: its outcome, and the state it leaves behind. *)
Variable attempt_operation : S → result E A * S.

(** Outcome, sleeps taken, final state.  [budget] is [max_retries - retry_index]. *)
Fixpoint retry_terminal_persistence_from (retry_index : nat) (budget : nat)
    (initial_backoff : Z) (s : S) : result E A * list Z * S :=
  match attempt_operation s with
  | (Ok value, s') => (Ok value, [], s')
  | (Err error, s') =>
      match budget with
      | O => (Err error, [], s')
      | Datatypes.S budget' =>
          let backoff := duration_saturating_mul initial_backoff
                           (Z.shiftl 1 (Z.min (Z.of_nat retry_index) 10)) in
          let '(r, sleeps, s'') := retry_terminal_persistence_from
                                     (Datatypes.S retry_index) budget' initial_backoff s' in
          (r, backoff :: sleeps, s'')
      end
  end.

Definition retry_terminal_persistence_operation (max_retries : nat) (initial_backoff : Z)
    (s : S) : result E A * list Z * S :=
  retry_terminal_persistence_from 0 max_retries initial_backoff s.

(** The states seen by consecutive attempts when all of them fail. *)
Fixpoint state_after (n : nat) (s : S) : S :=
  match n with O => s | Datatypes.S n' => state_after n' (snd (attempt_operation s)) end.
Definition attempt_at (n : nat) (s : S) : result E A := fst (attempt_operation (state_after n s)).
End terminal_persistence.

(** ** Failure classes *)

Inductive RetryFailureClass : Type := FC_Transport | FC_ParseBadRequest | FC_Permanent.

Definition failure_class (error : InferenceError) (error_text : str) : RetryFailureClass :=
  if provider_message_is_tool_call_json_parse_failure error_text
     || provider_message_is_tool_call_json_parse_failure (inference_error_display error)
  then FC_ParseBadRequest
  else match error with
       | ModelUnreachable _ | TransientFailure _ | Timeout _ | RateLimited _ => FC_Transport
       | PermanentFailure _ | ContextLengthExceeded _ | RetriesExhausted _ _ => FC_Permanent
       end.

(** ** Policy resolution *)

Record CompletionRetryProfileFields : Type := {
  retry_max_transport : option Z;
  retry_backoff_ms : option (list Z);
  retry_max_resample : option Z;
  retry_allow_repair : option bool;
  retry_interactive_max : option Z;
}.

Record CompletionRetryPolicy : Type := {
  transport_backoff : list Z;
  max_resample : Z;
  allow_repair : bool;
}.

Definition scheduled_default : CompletionRetryPolicy :=
  {| transport_backoff := [from_secs 5; from_secs 30; from_secs 120];
     max_resample := 1; allow_repair := true |}.
Definition interactive_default : CompletionRetryPolicy :=
  {| transport_backoff := [from_secs 2]; max_resample := 0; allow_repair := true |}.
Definition no_retry : CompletionRetryPolicy :=
  {| transport_backoff := []; max_resample := 0; allow_repair := false |}.
Definition internal_immediate : CompletionRetryPolicy :=
  {| transport_backoff := [0; from_secs 1; from_secs 2];
     max_resample := 0; allow_repair := false |}.
Definition default_for_origin (origin : ExecutionOrigin) : CompletionRetryPolicy :=
  match origin with Interactive => interactive_default | Scheduled => scheduled_default end.

Definition backoff_from_profile (values : list Z) : option (list Z) :=
  match values with
  | [] => None
  | _ =>
      let backoff := from_millis <$> filter (λ v, 0 < v) (omap u64_try_from values) in
      match backoff with [] => None | _ => Some backoff end
  end.

Definition resize_backoff (backoff : list Z) (target_len : nat) : list Z :=
  match target_len with
  | O => []
  | _ =>
      let backoff := match backoff with [] => [from_secs 1] | _ => backoff end in
      if (target_len <? length backoff)%nat then firstn target_len backoff
      else backoff ++ replicate (target_len - length backoff) (List.last backoff 0)
  end.

Definition nonnegative_usize (value : Z) : option nat :=
  if 0 <=? value then Some (Z.to_nat value) else None.
Definition nonnegative_u32 (value : Z) : option Z :=
  if (0 <=? value) && (value <=? u32_max) then Some value else None.

Definition opt_or {A} (x y : option A) : option A :=
  match x with Some _ => x | None => y end.

Definition resolve (fields : CompletionRetryProfileFields) (origin : ExecutionOrigin)
    : CompletionRetryPolicy :=
  let default := default_for_origin origin in
  let backoff := unwrap_or (transport_backoff default)
                   (retry_backoff_ms fields ≫= backoff_from_profile) in
  let max_transport :=
    match origin with
    | Interactive =>
        opt_or (retry_interactive_max fields) (retry_max_transport fields) ≫= nonnegative_usize
    | Scheduled => retry_max_transport fields ≫= nonnegative_usize
    end in
  {| transport_backoff :=
       match max_transport with Some n => resize_backoff backoff n | None => backoff end;
     max_resample := unwrap_or (max_resample default)
                       (retry_max_resample fields ≫= nonnegative_u32);
     allow_repair := unwrap_or (allow_repair default) (retry_allow_repair fields) |}.

(** ** The retry ledger *)

Inductive RetryKind : Type := RK_Transport | RK_Resample.

Inductive PreStreamDirective : Type :=
| RetryAfter (delay : Z) (kind : RetryKind)
| Repair
| PreFail (reason : str).

Inductive MidStreamDirective : Type :=
| RetractAndResample (delay : Z)
| CloseAndContinue (delay : Z)
| MidFail (reason : str).

Record CompletionRetryState : Type := {
  policy : CompletionRetryPolicy;
  transport_used : nat;
  resample_used : nat;
  repair_used : bool;
  last_parse_error : option str;
}.

Definition new_retry_state (p : CompletionRetryPolicy) : CompletionRetryState :=
  {| policy := p; transport_used := 0; resample_used := 0; repair_used := false;
     last_parse_error := None |}.

Definition retry_count (s : CompletionRetryState) : nat := transport_used s + resample_used s.

Definition mark_repair_used (s : CompletionRetryState) : CompletionRetryState :=
  {| policy := policy s; transport_used := transport_used s; resample_used := resample_used s;
     repair_used := true; last_parse_error := last_parse_error s |}.
Definition use_transport (s : CompletionRetryState) : CompletionRetryState :=
  {| policy := policy s; transport_used := S (transport_used s);
     resample_used := resample_used s; repair_used := repair_used s;
     last_parse_error := last_parse_error s |}.
Definition use_resample (text : str) (s : CompletionRetryState) : CompletionRetryState :=
  {| policy := policy s; transport_used := transport_used s;
     resample_used := S (resample_used s); repair_used := repair_used s;
     last_parse_error := Some text |}.
Definition set_last_parse_error (text : str) (s : CompletionRetryState) : CompletionRetryState :=
  {| policy := policy s; transport_used := transport_used s;
     resample_used := resample_used s; repair_used := repair_used s;
     last_parse_error := Some text |}.

Definition ladder_delay (backoff : list Z) (used : nat) : option Z := backoff !! used.
Definition resample_delay (backoff : list Z) (used : nat) : option Z :=
  opt_or (backoff !! used) (backoff !! pred (length backoff)).
Definition exceeds_deadline (now delay : Z) (deadline : option Z) : bool :=
  match deadline with
  | None => false
  | Some deadline => deadline <? now + chrono_duration_from_std delay
  end.
Definition jitter (draw : Z → Z) (base_delay : Z) : Z :=
  from_millis (jitter_ms draw (Z.min (as_millis base_delay) u64_max)).

Section failures.
Variable draw : Z → Z.
(** How [chrono] and [Duration] print in the fail-fast reason. *)
Variable deadline_reason : Z → option Z → str.

Definition budget_exhausted_reason (s : CompletionRetryState) : str :=
  lit "transport retry budget exhausted after " ++ fmt_Z (Z.of_nat (transport_used s)) ++
  lit " attempt(s)".

Definition on_pre_stream_failure (error : InferenceError) (error_text : str) (now : Z)
    (deadline : option Z) (s : CompletionRetryState)
    : PreStreamDirective * CompletionRetryState :=
  match failure_class error error_text with
  | FC_Permanent =>
      (PreFail (lit "permanent inference failure: " ++ inference_error_display error), s)
  | FC_Transport =>
      match ladder_delay (transport_backoff (policy s)) (transport_used s) with
      | None => (PreFail (budget_exhausted_reason s), s)
      | Some base_delay =>
          let base_delay := match error with
                            | RateLimited secs => Z.max base_delay (from_secs secs)
                            | _ => base_delay
                            end in
          let delay := jitter draw base_delay in
          if exceeds_deadline now delay deadline
          then (PreFail (deadline_reason delay deadline), s)
          else (RetryAfter delay RK_Transport, use_transport s)
      end
  | FC_ParseBadRequest =>
      let is_fresh := negb (opt_eqb str_eqb (last_parse_error s) (Some error_text)) in
      let resample_budget_spent := max_resample (policy s) <=? Z.of_nat (resample_used s) in
      let resample_pacing := resample_delay (transport_backoff (policy s)) (resample_used s) in
      match (if is_fresh && negb resample_budget_spent then resample_pacing else None) with
      | Some base_delay =>
          let delay := jitter draw base_delay in
          if exceeds_deadline now delay deadline
          then (PreFail (deadline_reason delay deadline), s)
          else (RetryAfter delay RK_Resample, use_resample error_text s)
      | None =>
          if allow_repair (policy s) && negb (repair_used s)
          then (Repair, set_last_parse_error error_text s)
          else (PreFail (lit "parse-400 could not be resolved: resample and repair are both exhausted or unavailable"), s)
      end
  end.

Definition on_mid_stream_failure (effects_this_turn : bool) (now : Z) (deadline : option Z)
    (s : CompletionRetryState) : MidStreamDirective * CompletionRetryState :=
  match ladder_delay (transport_backoff (policy s)) (transport_used s) with
  | None => (MidFail (budget_exhausted_reason s), s)
  | Some base_delay =>
      let delay := jitter draw base_delay in
      if exceeds_deadline now delay deadline
      then (MidFail (deadline_reason delay deadline), s)
      else (if effects_this_turn then CloseAndContinue delay else RetractAndResample delay,
            use_transport s)
  end.
End failures.

(** ** Backoff bounds *)

Lemma jitter_ms_range draw base :
  draw_ok draw -> 0 <= base <= 2 ^ 62 ->
  Z.max 100 (base - base / 4) <= jitter_ms draw base <= Z.max 100 (base + base / 4).
Proof.
  intros Hd Hb. unfold jitter_ms.
  assert (Hq : 0 <= base / 4 /\ base / 4 <= base) by
    (split; [apply Z.div_pos; lia|apply Z.div_le_upper_bound; lia]).
  assert (Hi : ∀ z, - 2 ^ 63 <= z < 2 ^ 63 -> wrap_i64 z = z).
  { intros z Hz. apply wrap_i64_id. unfold in_i64, i64_min, i64_max. lia. }
  specialize (Hd (base / 4 * 2)).
  assert (Hq4 : base / 4 * 4 <= base) by (rewrite Z.mul_comm; apply Z.mul_div_le; lia).
  destruct (0 <? base / 4) eqn:E.
  - rewrite (Hi (draw _)), (Hi (base / 4)), (Hi base) by lia. rewrite Hi by lia. lia.
  - rewrite (Hi base) by lia. rewrite Hi by lia. lia.
Qed.

Lemma jitter_ms_bounds draw base : 100 <= jitter_ms draw base <= i64_max.
Proof.
  unfold jitter_ms, wrap_i64, i64_max.
  pose proof (Z.mod_pos_bound (wrap_i64 base +
    (if 0 <? base / 4 then wrap_i64 (draw (base / 4 * 2)) - wrap_i64 (base / 4) else 0)
    + 2 ^ 63) (2 ^ 64)). unfold wrap_i64 in *. lia.
Qed.

Lemma jitter_chrono draw base : chrono_duration_from_std (jitter draw base) = jitter draw base.
Proof.
  unfold chrono_duration_from_std, jitter, from_millis, as_millis.
  rewrite Z.div_mul by lia. pose proof (jitter_ms_bounds draw (Z.min (base / 10 ^ 6) u64_max)).
  rewrite Z.min_l by lia. done.
Qed.

(** The delay before attempt [n] is the capped exponential within a quarter of itself,
    and never below 100 ms: the exponent stops at ten doublings, the multiplication
    saturates, and the cap applies before the jitter. *)
Theorem backoff_within_quarter draw p n :
  draw_ok draw -> 0 <= n -> 0 <= base_delay_ms p -> 0 <= max_delay_ms p <= 2 ^ 62 ->
  let capped := Z.min (Z.min u64_max (base_delay_ms p * 2 ^ Z.min n 10)) (max_delay_ms p) in
  from_millis (Z.max 100 (capped - capped / 4)) <= delay_for_attempt draw p n
    <= from_millis (Z.max 100 (capped + capped / 4)).
Proof.
  intros Hd Hn Hb Hm capped. unfold delay_for_attempt, saturating_mul.
  rewrite Z.shiftl_mul_pow2, Z.mul_1_l by lia. fold capped.
  assert (0 <= capped <= 2 ^ 62).
  { unfold capped, u64_max. pose proof (Z.pow_nonneg 2 (Z.min n 10)). nia. }
  pose proof (jitter_ms_range draw capped Hd ltac:(done)). unfold from_millis. lia.
Qed.

Lemma backoff_within_quarter_witness :
  let capped := Z.min (Z.min u64_max (1000 * 2 ^ Z.min 3 10)) 30000 in
  capped = 8000 /\
  from_millis (Z.max 100 (capped - capped / 4))
    <= delay_for_attempt (λ n, n / 3) default_retry_policy 3
    <= from_millis (Z.max 100 (capped + capped / 4)).
Proof.
  split; [reflexivity|].
  apply (backoff_within_quarter (λ n, n / 3) default_retry_policy 3);
    [|simpl; lia..].
  intros n Hn. split; [apply Z.div_pos; lia|apply Z.div_le_upper_bound; lia].
Defined.

(** ** Terminal persistence *)

Lemma retry_terminal_from_spec {S E A} (op : S → result E A * S) idx budget b s :
  let '(r, sleeps, s') := retry_terminal_persistence_from op idx budget b s in
  ∃ n, (n <= budget)%nat /\ r = attempt_at op n s /\ s' = state_after op (Datatypes.S n) s /\
    (∀ i, (i < n)%nat -> is_ok (attempt_at op i s) = false) /\
    (is_ok r = false -> n = budget) /\
    sleeps = (λ i, duration_saturating_mul b (Z.shiftl 1 (Z.min (Z.of_nat (idx + i)) 10)))
               <$> seq 0 n.
Proof.
  revert idx s. induction budget as [|budget IH]; intros idx s; simpl;
    destruct (op s) as [[v|e] s'] eqn:Eop; unfold attempt_at in *.
  - exists 0%nat. simpl. rewrite Eop. split_and!; try done; lia.
  - exists 0%nat. simpl. rewrite Eop. split_and!; try done; lia.
  - exists 0%nat. simpl. rewrite Eop. split_and!; try done; lia.
  - specialize (IH (Datatypes.S idx) s').
    destruct (retry_terminal_persistence_from op (Datatypes.S idx) budget b s')
      as [[r sleeps] s''].
    destruct IH as (n & Hn & Hr & Hs & Hall & Hex & Hsl).
    exists (Datatypes.S n). simpl. rewrite Eop. simpl. split_and!.
    + lia.
    + done.
    + done.
    + intros [|i] Hi; simpl; rewrite Eop; simpl; [done|]. apply Hall. lia.
    + intros Hr'. by rewrite (Hex Hr').
    + rewrite Hsl, <- seq_shift, <- list_fmap_compose. rewrite Nat.add_0_r. f_equal.
      apply list_fmap_ext. intros i x _. simpl. do 3 f_equal. lia.
Qed.

(** Terminal persistence makes at most one initial attempt and [max_retries] retries,
    stops at the first success and returns it, otherwise returns the last error after
    exactly [max_retries] retries; between attempts it sleeps the doubling backoff. *)
Theorem terminal_persistence_bounded {S E A} (op : S → result E A * S) max b s :
  let '(r, sleeps, s') := retry_terminal_persistence_operation op max b s in
  ∃ n, (n <= max)%nat /\ r = attempt_at op n s /\ s' = state_after op (Datatypes.S n) s /\
    (∀ i, (i < n)%nat -> is_ok (attempt_at op i s) = false) /\
    (is_ok r = false -> n = max) /\
    sleeps = (λ i, duration_saturating_mul b (Z.shiftl 1 (Z.min (Z.of_nat i) 10))) <$> seq 0 n.
Proof. exact (retry_terminal_from_spec op 0 max b s). Qed.

(** ** The ledger bounds a request's attempts *)

(** A provider failure the owned loop reports, before or after output started. *)
Inductive failure_event : Type :=
| PreStreamFailed (error : InferenceError) (error_text : str) (now : Z) (deadline : option Z)
| MidStreamFailed (effects_this_turn : bool) (now : Z) (deadline : option Z).

(** The loop's reaction: continue or stop.  It marks the repair before it retries. *)
Definition react (draw : Z → Z) (dr : Z → option Z → str) (e : failure_event)
    (s : CompletionRetryState) : bool * CompletionRetryState :=
  match e with
  | PreStreamFailed error text now deadline =>
      match on_pre_stream_failure draw dr error text now deadline s with
      | (RetryAfter _ _, s') => (true, s')
      | (Repair, s') => (true, mark_repair_used s')
      | (PreFail _, s') => (false, s')
      end
  | MidStreamFailed effects now deadline =>
      match on_mid_stream_failure draw dr effects now deadline s with
      | (MidFail _, s') => (false, s')
      | (_, s') => (true, s')
      end
  end.

(** How many failures of a sequence the request survives. *)
Fixpoint survived (draw : Z → Z) (dr : Z → option Z → str) (es : list failure_event)
    (s : CompletionRetryState) : nat :=
  match es with
  | [] => 0
  | e :: es' => match react draw dr e s with
                | (true, s') => S (survived draw dr es' s')
                | (false, _) => 0
                end
  end.

Definition retry_budget_left (s : CompletionRetryState) : nat :=
  (length (transport_backoff (policy s)) - transport_used s) +
  (Z.to_nat (max_resample (policy s)) - resample_used s) +
  (if allow_repair (policy s) && negb (repair_used s) then 1 else 0).

Lemma react_policy draw dr e s : policy (snd (react draw dr e s)) = policy s.
Proof.
  unfold react, on_pre_stream_failure, on_mid_stream_failure.
  repeat case_match; simplify_eq; done.
Qed.

Lemma use_transport_left s :
  (transport_used s < length (transport_backoff (policy s)))%nat ->
  retry_budget_left s = S (retry_budget_left (use_transport s)).
Proof. intros. unfold retry_budget_left. simpl. destruct (_ && _); lia. Qed.

Lemma use_resample_left t s :
  Z.of_nat (resample_used s) < max_resample (policy s) ->
  retry_budget_left s = S (retry_budget_left (use_resample t s)).
Proof. intros. unfold retry_budget_left. simpl. destruct (_ && _); lia. Qed.

Lemma mark_repair_left t s :
  allow_repair (policy s) && negb (repair_used s) = true ->
  retry_budget_left s = S (retry_budget_left (mark_repair_used (set_last_parse_error t s))).
Proof.
  intros H. unfold retry_budget_left. rewrite H. simpl.
  rewrite andb_false_r. lia.
Qed.

Lemma react_consumes draw dr e s s' :
  react draw dr e s = (true, s') -> retry_budget_left s = S (retry_budget_left s').
Proof.
  destruct e as [error text now deadline|effects now deadline]; simpl.
  - unfold on_pre_stream_failure. destruct (failure_class error text); [| |done].
    + destruct (ladder_delay _ _) eqn:El; [|done]. apply lookup_lt_Some in El.
      destruct (exceeds_deadline _ _ _); [done|]. intros [= <-]. by apply use_transport_left.
    + destruct (negb _ && negb _) eqn:Ef; simpl.
      * destruct (resample_delay _ _).
        -- destruct (exceeds_deadline _ _ _); [done|]. intros [= <-].
           apply use_resample_left. bool_prop. lia.
        -- destruct (allow_repair _ && _) eqn:Er; [|done]. intros [= <-].
           by apply mark_repair_left.
      * destruct (allow_repair _ && _) eqn:Er; [|done]. intros [= <-].
        by apply mark_repair_left.
  - unfold on_mid_stream_failure. destruct (ladder_delay _ _) eqn:El; [|done].
    apply lookup_lt_Some in El. destruct (exceeds_deadline _ _ _); [done|].
    destruct effects; intros [= <-]; by apply use_transport_left.
Qed.

(** A request survives a bounded number of provider failures: whatever failures arrive,
    before or after output started, at most one retry per rung of the transport ladder,
    [max_resample] resamples and one repair are taken; so the attempt loop terminates. *)
Theorem attempts_are_bounded draw dr es p :
  (survived draw dr es (new_retry_state p)
   <= length (transport_backoff p) + Z.to_nat (max_resample p)
      + (if allow_repair p then 1 else 0))%nat.
Proof.
  assert (H : ∀ s, (survived draw dr es s <= retry_budget_left s)%nat).
  { induction es as [|e es IH]; intros s; simpl; [lia|].
    destruct (react draw dr e s) as [[] s'] eqn:E; [|lia].
    apply react_consumes in E. specialize (IH s'). lia. }
  specialize (H (new_retry_state p)). unfold retry_budget_left in H. simpl in H.
  rewrite andb_true_r in H. lia.
Qed.

(** The delay before the retry, the retraction or the continuation a failure leads to. *)
Definition directive_delay (draw : Z → Z) (dr : Z → option Z → str) (e : failure_event)
    (s : CompletionRetryState) : option (Z * CompletionRetryState) :=
  match e with
  | PreStreamFailed error text now deadline =>
      match on_pre_stream_failure draw dr error text now deadline s with
      | (RetryAfter delay _, s') => Some (delay, s')
      | _ => None
      end
  | MidStreamFailed effects now deadline =>
      match on_mid_stream_failure draw dr effects now deadline s with
      | (RetractAndResample delay, s') | (CloseAndContinue delay, s') => Some (delay, s')
      | _ => None
      end
  end.
Definition event_now (e : failure_event) : Z :=
  match e with PreStreamFailed _ _ now _ | MidStreamFailed _ now _ => now end.
Definition event_deadline (e : failure_event) : option Z :=
  match e with PreStreamFailed _ _ _ d | MidStreamFailed _ _ d => d end.

(** The ledger never sleeps past the deadline: whenever it asks for a retry, a
    retraction or a continuation, the delay is at least 100 ms and ends before the
    request's deadline, and exactly one ledger entry is consumed and counted. *)
Theorem retry_delay_meets_deadline draw dr e s s' delay :
  directive_delay draw dr e s = Some (delay, s') ->
  from_millis 100 <= delay /\
  (∀ dl, event_deadline e = Some dl -> event_now e + delay <= dl) /\
  retry_budget_left s = S (retry_budget_left s') /\ retry_count s' = S (retry_count s).
Proof.
  assert (Hj : ∀ now dl b, exceeds_deadline now (jitter draw b) dl = false ->
    from_millis 100 <= jitter draw b /\
    ∀ d, dl = Some d -> now + jitter draw b <= d).
  { intros now dl b Hd. split.
    - pose proof (jitter_ms_bounds draw (Z.min (as_millis b) u64_max)).
      unfold jitter, from_millis. lia.
    - intros d ->. simpl in Hd. rewrite jitter_chrono in Hd. lia. }
  intros Hdel.
  assert (Hleft : retry_budget_left s = S (retry_budget_left s')).
  { apply (react_consumes draw dr e). unfold directive_delay, react in *.
    by repeat case_match; simplify_eq. }
  unfold directive_delay in Hdel. destruct e as [error text now dl|effects now dl].
  - unfold on_pre_stream_failure in Hdel. destruct (failure_class error text); [| |done].
    + destruct (ladder_delay _ _); [|done]. destruct (exceeds_deadline _ _ _) eqn:Ed; [done|].
      simplify_eq. destruct (Hj _ _ _ Ed). by split_and!.
    + match type of Hdel with context [if ?b then resample_delay ?x ?y else None] =>
        destruct (if b then resample_delay x y else None) end.
      * destruct (exceeds_deadline _ _ _) eqn:Ed; [done|]. simplify_eq.
        destruct (Hj _ _ _ Ed). split_and!; try done. unfold retry_count. simpl. lia.
      * by destruct (allow_repair _ && _).
  - unfold on_mid_stream_failure in Hdel. destruct (ladder_delay _ _); [|done].
    destruct (exceeds_deadline _ _ _) eqn:Ed; [done|]. destruct (Hj _ _ _ Ed).
    destruct effects; simplify_eq; by split_and!.
Qed.

Definition no_reason : Z → option Z → str := λ _ _, [].

Lemma retry_delay_meets_deadline_witness :
  ∃ delay s',
    directive_delay (λ n, n / 2) no_reason
      (MidStreamFailed true 0 (Some (from_secs 10))) (new_retry_state scheduled_default)
    = Some (delay, s') /\
    from_millis 100 <= delay /\
    (∀ dl, Some (from_secs 10) = Some dl -> 0 + delay <= dl) /\
    retry_budget_left (new_retry_state scheduled_default) = S (retry_budget_left s') /\
    retry_count s' = 1%nat.
Proof.
  do 2 eexists. split; [reflexivity|].
  apply (retry_delay_meets_deadline (λ n, n / 2) no_reason
           (MidStreamFailed true 0 (Some (from_secs 10))) (new_retry_state scheduled_default)).
  reflexivity.
Defined.

(** A parse failure that repeats verbatim is never resampled: after the ledger has
    resampled or repaired on a text, the same text leads to the one repair or to failure,
    whatever resample budget is left; and a permanent failure leaves the ledger as it is. *)
Theorem repeated_parse_failure_not_resampled draw dr error text now deadline s d s' :
  failure_class error text ≠ FC_Transport ->
  on_pre_stream_failure draw dr error text now deadline s = (d, s') ->
  (failure_class error text = FC_Permanent -> (∃ r, d = PreFail r) /\ s' = s) /\
  (last_parse_error s = Some text ->
   (d = Repair /\ allow_repair (policy s) = true /\ repair_used s = false) \/
   (∃ r, d = PreFail r) /\ s' = s) /\
  (d ≠ Repair -> (∃ r, d = PreFail r) \/ resample_used s' = S (resample_used s)).
Proof.
  intros Hc. unfold on_pre_stream_failure. destruct (failure_class error text); [done| |].
  - destruct (opt_eqb str_eqb (last_parse_error s) (Some text)) eqn:Ef; simpl.
    + destruct (allow_repair _ && negb _) eqn:Er; intros [= <- <-]; bool_prop;
        split_and!; try done; naive_solver.
    + assert (last_parse_error s ≠ Some text).
      { intros Hs. rewrite Hs in Ef. simpl in Ef. unfold str_eqb in Ef.
        by rewrite bool_decide_eq_false in Ef. }
      destruct (negb _); simpl; [destruct (resample_delay _ _);
        [destruct (exceeds_deadline _ _ _)|]|];
        try destruct (allow_repair _ && negb _) eqn:Er; intros [= <- <-]; bool_prop;
        split_and!; try done; naive_solver.
  - intros [= <- <-]. split_and!; naive_solver.
Qed.

Definition parse_text : str := lit "BadRequestError: Expecting value: line 1 column 2 (char 1)".

Lemma repeated_parse_failure_not_resampled_witness :
  ∃ d s', on_pre_stream_failure (λ n, n / 2) no_reason (TransientFailure parse_text) parse_text
            0 None (use_resample parse_text (new_retry_state
              {| transport_backoff := [0]; max_resample := 5; allow_repair := true |}))
          = (d, s') /\ d = Repair.
Proof.
  do 2 eexists. split; [reflexivity|].
  destruct (repeated_parse_failure_not_resampled (λ n, n / 2) no_reason
    (TransientFailure parse_text) parse_text 0 None
    (use_resample parse_text (new_retry_state
       {| transport_backoff := [0]; max_resample := 5; allow_repair := true |}))
    _ _ ltac:(vm_compute; discriminate) eq_refl) as (_ & H & _).
  destruct (H eq_refl) as [(Hd & _)|[[r Hr] _]]; [exact Hd|vm_compute in Hr; discriminate].
Defined.

(** ** Policy resolution *)

Lemma length_resize_backoff b n : length (resize_backoff b n) = n.
Proof.
  destruct n as [|n]; [done|]. unfold resize_backoff.
  destruct b as [|x b]; simpl; [rewrite length_replicate; lia|].
  destruct (_ <? _)%nat eqn:E; simpl.
  - rewrite length_firstn. apply Nat.ltb_lt in E. simpl in *. lia.
  - rewrite length_app, length_replicate. apply Nat.ltb_ge in E. simpl in *. lia.
Qed.

(** The resolved transport ladder has exactly the configured number of rungs: the
    interactive override wins for interactive requests, a scheduled request never sees
    it, and with neither (or a negative value) the profile's or the origin's ladder
    stands. *)
Theorem resolved_ladder_length fields origin :
  let configured := match origin with
    | Interactive => opt_or (retry_interactive_max fields) (retry_max_transport fields)
    | Scheduled => retry_max_transport fields
    end in
  length (transport_backoff (resolve fields origin)) =
  match configured ≫= nonnegative_usize with
  | Some n => n
  | None => length (unwrap_or (transport_backoff (default_for_origin origin))
                      (retry_backoff_ms fields ≫= backoff_from_profile))
  end.
Proof.
  unfold resolve. simpl. destruct origin; simpl;
    destruct (_ ≫= nonnegative_usize); by rewrite ?length_resize_backoff.
Qed.
