(* ===== verification/Store.v ===== *)
(** * The document store

    The runtime keeps its state in DefraDB, a document database the program only
    calls.  It is a parameter here: [DocStore] is the part of it the request
    lifecycle uses, [DocStoreLaws] what the program relies on (a filtered update
    changes exactly the matching documents, a create adds one document under a
    fresh identifier unless the unique response key is taken), and [Collections]
    an in-memory store that satisfies the laws.

    GraphQL texts are typed here: the filter of a query or mutation is a test on
    rows, its [input] a function on rows.  A transaction ([ConfigApplyTxn]) runs
    its statements against a private copy; every statement, and the commit, can
    fail with a storage error, and a discarded transaction leaves nothing. *)

From S2P Require Import Prelude RustStr RequestState.

(** ** Rows

    The columns the lifecycle reads or writes; the immutable ones are grouped. *)

Record RequestIdent : Type := {
  ri_doc_id : str; ri_request_id : str;
  ri_agent_did : option str; ri_requester_did : option str;
  ri_behavior_id : option str; ri_session_id : option str;
  ri_created_at : option str; ri_metadata : option str;
  ri_content : str;
  ri_trigger_id : option str; ri_trigger_kind : option str; ri_correlation : option str;
  ri_retry_key : option str; ri_workspace_id : option str;
  ri_parent_request_id : option str; ri_trigger_context : option str
}.

Record RequestRow : Type := {
  r_ident : RequestIdent;
  r_state : option RequestLifecycleState;
  r_generation : option str;
  r_expiry : option str;
  r_progress : option Z;
  r_interrupt : option str;
  r_valid_until : option str;
  r_deadline : option str;
  r_backend : option str;
  r_claimed_at : option str;
  r_failure : option str;
  r_terminalized_at : option str;
  r_redrive : option Z;
  r_bg_seq : option Z;
  r_bg_keys : option (list str)
}.

#[global] Instance RequestIdent_eq_dec : EqDecision RequestIdent.
Proof. solve_decision. Defined.
#[global] Instance RequestRow_eq_dec : EqDecision RequestRow.
Proof. solve_decision. Defined.

Definition set_r_state (v : option RequestLifecycleState) (r : RequestRow) : RequestRow :=
  {| r_ident := r_ident r; r_state := v; r_generation := r_generation r;
     r_expiry := r_expiry r; r_progress := r_progress r; r_interrupt := r_interrupt r;
     r_valid_until := r_valid_until r; r_deadline := r_deadline r; r_backend := r_backend r;
     r_claimed_at := r_claimed_at r; r_failure := r_failure r; r_terminalized_at := r_terminalized_at r;
     r_redrive := r_redrive r; r_bg_seq := r_bg_seq r; r_bg_keys := r_bg_keys r |}.
Definition set_r_generation (v : option str) (r : RequestRow) : RequestRow :=
  {| r_ident := r_ident r; r_state := r_state r; r_generation := v;
     r_expiry := r_expiry r; r_progress := r_progress r; r_interrupt := r_interrupt r;
     r_valid_until := r_valid_until r; r_deadline := r_deadline r; r_backend := r_backend r;
     r_claimed_at := r_claimed_at r; r_failure := r_failure r; r_terminalized_at := r_terminalized_at r;
     r_redrive := r_redrive r; r_bg_seq := r_bg_seq r; r_bg_keys := r_bg_keys r |}.
Definition set_r_expiry (v : option str) (r : RequestRow) : RequestRow :=
  {| r_ident := r_ident r; r_state := r_state r; r_generation := r_generation r;
     r_expiry := v; r_progress := r_progress r; r_interrupt := r_interrupt r;
     r_valid_until := r_valid_until r; r_deadline := r_deadline r; r_backend := r_backend r;
     r_claimed_at := r_claimed_at r; r_failure := r_failure r; r_terminalized_at := r_terminalized_at r;
     r_redrive := r_redrive r; r_bg_seq := r_bg_seq r; r_bg_keys := r_bg_keys r |}.
Definition set_r_progress (v : option Z) (r : RequestRow) : RequestRow :=
  {| r_ident := r_ident r; r_state := r_state r; r_generation := r_generation r;
     r_expiry := r_expiry r; r_progress := v; r_interrupt := r_interrupt r;
     r_valid_until := r_valid_until r; r_deadline := r_deadline r; r_backend := r_backend r;
     r_claimed_at := r_claimed_at r; r_failure := r_failure r; r_terminalized_at := r_terminalized_at r;
     r_redrive := r_redrive r; r_bg_seq := r_bg_seq r; r_bg_keys := r_bg_keys r |}.
Definition set_r_interrupt (v : option str) (r : RequestRow) : RequestRow :=
  {| r_ident := r_ident r; r_state := r_state r; r_generation := r_generation r;
     r_expiry := r_expiry r; r_progress := r_progress r; r_interrupt := v;
     r_valid_until := r_valid_until r; r_deadline := r_deadline r; r_backend := r_backend r;
     r_claimed_at := r_claimed_at r; r_failure := r_failure r; r_terminalized_at := r_terminalized_at r;
     r_redrive := r_redrive r; r_bg_seq := r_bg_seq r; r_bg_keys := r_bg_keys r |}.
Definition set_r_deadline (v : option str) (r : RequestRow) : RequestRow :=
  {| r_ident := r_ident r; r_state := r_state r; r_generation := r_generation r;
     r_expiry := r_expiry r; r_progress := r_progress r; r_interrupt := r_interrupt r;
     r_valid_until := r_valid_until r; r_deadline := v; r_backend := r_backend r;
     r_claimed_at := r_claimed_at r; r_failure := r_failure r; r_terminalized_at := r_terminalized_at r;
     r_redrive := r_redrive r; r_bg_seq := r_bg_seq r; r_bg_keys := r_bg_keys r |}.
Definition set_r_backend (v : option str) (r : RequestRow) : RequestRow :=
  {| r_ident := r_ident r; r_state := r_state r; r_generation := r_generation r;
     r_expiry := r_expiry r; r_progress := r_progress r; r_interrupt := r_interrupt r;
     r_valid_until := r_valid_until r; r_deadline := r_deadline r; r_backend := v;
     r_claimed_at := r_claimed_at r; r_failure := r_failure r; r_terminalized_at := r_terminalized_at r;
     r_redrive := r_redrive r; r_bg_seq := r_bg_seq r; r_bg_keys := r_bg_keys r |}.
Definition set_r_claimed_at (v : option str) (r : RequestRow) : RequestRow :=
  {| r_ident := r_ident r; r_state := r_state r; r_generation := r_generation r;
     r_expiry := r_expiry r; r_progress := r_progress r; r_interrupt := r_interrupt r;
     r_valid_until := r_valid_until r; r_deadline := r_deadline r; r_backend := r_backend r;
     r_claimed_at := v; r_failure := r_failure r; r_terminalized_at := r_terminalized_at r;
     r_redrive := r_redrive r; r_bg_seq := r_bg_seq r; r_bg_keys := r_bg_keys r |}.
Definition set_r_failure (v : option str) (r : RequestRow) : RequestRow :=
  {| r_ident := r_ident r; r_state := r_state r; r_generation := r_generation r;
     r_expiry := r_expiry r; r_progress := r_progress r; r_interrupt := r_interrupt r;
     r_valid_until := r_valid_until r; r_deadline := r_deadline r; r_backend := r_backend r;
     r_claimed_at := r_claimed_at r; r_failure := v; r_terminalized_at := r_terminalized_at r;
     r_redrive := r_redrive r; r_bg_seq := r_bg_seq r; r_bg_keys := r_bg_keys r |}.
Definition set_r_terminalized_at (v : option str) (r : RequestRow) : RequestRow :=
  {| r_ident := r_ident r; r_state := r_state r; r_generation := r_generation r;
     r_expiry := r_expiry r; r_progress := r_progress r; r_interrupt := r_interrupt r;
     r_valid_until := r_valid_until r; r_deadline := r_deadline r; r_backend := r_backend r;
     r_claimed_at := r_claimed_at r; r_failure := r_failure r; r_terminalized_at := v;
     r_redrive := r_redrive r; r_bg_seq := r_bg_seq r; r_bg_keys := r_bg_keys r |}.
Definition set_r_redrive (v : option Z) (r : RequestRow) : RequestRow :=
  {| r_ident := r_ident r; r_state := r_state r; r_generation := r_generation r;
     r_expiry := r_expiry r; r_progress := r_progress r; r_interrupt := r_interrupt r;
     r_valid_until := r_valid_until r; r_deadline := r_deadline r; r_backend := r_backend r;
     r_claimed_at := r_claimed_at r; r_failure := r_failure r; r_terminalized_at := r_terminalized_at r;
     r_redrive := v; r_bg_seq := r_bg_seq r; r_bg_keys := r_bg_keys r |}.
Definition set_r_bg_seq (v : option Z) (r : RequestRow) : RequestRow :=
  {| r_ident := r_ident r; r_state := r_state r; r_generation := r_generation r;
     r_expiry := r_expiry r; r_progress := r_progress r; r_interrupt := r_interrupt r;
     r_valid_until := r_valid_until r; r_deadline := r_deadline r; r_backend := r_backend r;
     r_claimed_at := r_claimed_at r; r_failure := r_failure r; r_terminalized_at := r_terminalized_at r;
     r_redrive := r_redrive r; r_bg_seq := v; r_bg_keys := r_bg_keys r |}.
Definition set_r_bg_keys (v : option (list str)) (r : RequestRow) : RequestRow :=
  {| r_ident := r_ident r; r_state := r_state r; r_generation := r_generation r;
     r_expiry := r_expiry r; r_progress := r_progress r; r_interrupt := r_interrupt r;
     r_valid_until := r_valid_until r; r_deadline := r_deadline r; r_backend := r_backend r;
     r_claimed_at := r_claimed_at r; r_failure := r_failure r; r_terminalized_at := r_terminalized_at r;
     r_redrive := r_redrive r; r_bg_seq := r_bg_seq r; r_bg_keys := v |}.

Definition set_r_doc_id (v : str) (r : RequestRow) : RequestRow :=
  let i := r_ident r in
  {| r_ident := {| ri_doc_id := v; ri_request_id := ri_request_id i; ri_agent_did := ri_agent_did i;
                   ri_requester_did := ri_requester_did i; ri_behavior_id := ri_behavior_id i;
                   ri_session_id := ri_session_id i; ri_created_at := ri_created_at i; ri_metadata := ri_metadata i;
                   ri_content := ri_content i; ri_trigger_id := ri_trigger_id i; ri_trigger_kind := ri_trigger_kind i;
                   ri_correlation := ri_correlation i; ri_retry_key := ri_retry_key i; ri_workspace_id := ri_workspace_id i;
                   ri_parent_request_id := ri_parent_request_id i; ri_trigger_context := ri_trigger_context i |};
     r_state := r_state r; r_generation := r_generation r;
     r_expiry := r_expiry r; r_progress := r_progress r; r_interrupt := r_interrupt r;
     r_valid_until := r_valid_until r; r_deadline := r_deadline r; r_backend := r_backend r;
     r_claimed_at := r_claimed_at r; r_failure := r_failure r; r_terminalized_at := r_terminalized_at r;
     r_redrive := r_redrive r; r_bg_seq := r_bg_seq r; r_bg_keys := r_bg_keys r |}.

Record ResponseIdent : Type := {
  pi_response_key : str; pi_request_id : str; pi_request_doc_id : str;
  pi_agent_did : str; pi_requester_did : option str;
  pi_behavior_id : str; pi_session_id : str; pi_created_at : str
}.

Record ResponseRow : Type := {
  p_doc_id : str;
  p_ident : ResponseIdent;
  p_content : str;
  p_reasoning : str;
  p_status : str;
  p_error_message : str;
  p_token_count : Z;
  p_progress_seq : Z;
  p_reasoning_seq : option Z;
  p_completed_at : str;
  p_interrupted_at : option str
}.

Definition set_p_doc_id (v : str) (p : ResponseRow) : ResponseRow :=
  {| p_doc_id := v; p_ident := p_ident p; p_content := p_content p;
     p_reasoning := p_reasoning p; p_status := p_status p; p_error_message := p_error_message p;
     p_token_count := p_token_count p; p_progress_seq := p_progress_seq p; p_reasoning_seq := p_reasoning_seq p;
     p_completed_at := p_completed_at p; p_interrupted_at := p_interrupted_at p |}.
Definition set_p_content (v : str) (p : ResponseRow) : ResponseRow :=
  {| p_doc_id := p_doc_id p; p_ident := p_ident p; p_content := v;
     p_reasoning := p_reasoning p; p_status := p_status p; p_error_message := p_error_message p;
     p_token_count := p_token_count p; p_progress_seq := p_progress_seq p; p_reasoning_seq := p_reasoning_seq p;
     p_completed_at := p_completed_at p; p_interrupted_at := p_interrupted_at p |}.
Definition set_p_reasoning (v : str) (p : ResponseRow) : ResponseRow :=
  {| p_doc_id := p_doc_id p; p_ident := p_ident p; p_content := p_content p;
     p_reasoning := v; p_status := p_status p; p_error_message := p_error_message p;
     p_token_count := p_token_count p; p_progress_seq := p_progress_seq p; p_reasoning_seq := p_reasoning_seq p;
     p_completed_at := p_completed_at p; p_interrupted_at := p_interrupted_at p |}.
Definition set_p_status (v : str) (p : ResponseRow) : ResponseRow :=
  {| p_doc_id := p_doc_id p; p_ident := p_ident p; p_content := p_content p;
     p_reasoning := p_reasoning p; p_status := v; p_error_message := p_error_message p;
     p_token_count := p_token_count p; p_progress_seq := p_progress_seq p; p_reasoning_seq := p_reasoning_seq p;
     p_completed_at := p_completed_at p; p_interrupted_at := p_interrupted_at p |}.
Definition set_p_error_message (v : str) (p : ResponseRow) : ResponseRow :=
  {| p_doc_id := p_doc_id p; p_ident := p_ident p; p_content := p_content p;
     p_reasoning := p_reasoning p; p_status := p_status p; p_error_message := v;
     p_token_count := p_token_count p; p_progress_seq := p_progress_seq p; p_reasoning_seq := p_reasoning_seq p;
     p_completed_at := p_completed_at p; p_interrupted_at := p_interrupted_at p |}.
Definition set_p_token_count (v : Z) (p : ResponseRow) : ResponseRow :=
  {| p_doc_id := p_doc_id p; p_ident := p_ident p; p_content := p_content p;
     p_reasoning := p_reasoning p; p_status := p_status p; p_error_message := p_error_message p;
     p_token_count := v; p_progress_seq := p_progress_seq p; p_reasoning_seq := p_reasoning_seq p;
     p_completed_at := p_completed_at p; p_interrupted_at := p_interrupted_at p |}.
Definition set_p_progress_seq (v : Z) (p : ResponseRow) : ResponseRow :=
  {| p_doc_id := p_doc_id p; p_ident := p_ident p; p_content := p_content p;
     p_reasoning := p_reasoning p; p_status := p_status p; p_error_message := p_error_message p;
     p_token_count := p_token_count p; p_progress_seq := v; p_reasoning_seq := p_reasoning_seq p;
     p_completed_at := p_completed_at p; p_interrupted_at := p_interrupted_at p |}.
Definition set_p_reasoning_seq (v : option Z) (p : ResponseRow) : ResponseRow :=
  {| p_doc_id := p_doc_id p; p_ident := p_ident p; p_content := p_content p;
     p_reasoning := p_reasoning p; p_status := p_status p; p_error_message := p_error_message p;
     p_token_count := p_token_count p; p_progress_seq := p_progress_seq p; p_reasoning_seq := v;
     p_completed_at := p_completed_at p; p_interrupted_at := p_interrupted_at p |}.
Definition set_p_completed_at (v : str) (p : ResponseRow) : ResponseRow :=
  {| p_doc_id := p_doc_id p; p_ident := p_ident p; p_content := p_content p;
     p_reasoning := p_reasoning p; p_status := p_status p; p_error_message := p_error_message p;
     p_token_count := p_token_count p; p_progress_seq := p_progress_seq p; p_reasoning_seq := p_reasoning_seq p;
     p_completed_at := v; p_interrupted_at := p_interrupted_at p |}.
Definition set_p_interrupted_at (v : option str) (p : ResponseRow) : ResponseRow :=
  {| p_doc_id := p_doc_id p; p_ident := p_ident p; p_content := p_content p;
     p_reasoning := p_reasoning p; p_status := p_status p; p_error_message := p_error_message p;
     p_token_count := p_token_count p; p_progress_seq := p_progress_seq p; p_reasoning_seq := p_reasoning_seq p;
     p_completed_at := p_completed_at p; p_interrupted_at := v |}.

Record SessionRow : Type := {
  s_session_id : str;
  s_agent_name : str;
  s_agent_did : str;
  s_requester_did : option str;
  s_behavior_id : option str;
  s_started : str;
  s_status : str;
  s_ended : option str
}.

Definition set_s_agent_name (v : str) (s : SessionRow) : SessionRow :=
  {| s_session_id := s_session_id s; s_agent_name := v; s_agent_did := s_agent_did s;
     s_requester_did := s_requester_did s; s_behavior_id := s_behavior_id s; s_started := s_started s;
     s_status := s_status s; s_ended := s_ended s |}.
Definition set_s_behavior_id (v : option str) (s : SessionRow) : SessionRow :=
  {| s_session_id := s_session_id s; s_agent_name := s_agent_name s; s_agent_did := s_agent_did s;
     s_requester_did := s_requester_did s; s_behavior_id := v; s_started := s_started s;
     s_status := s_status s; s_ended := s_ended s |}.
Definition set_s_status (v : str) (s : SessionRow) : SessionRow :=
  {| s_session_id := s_session_id s; s_agent_name := s_agent_name s; s_agent_did := s_agent_did s;
     s_requester_did := s_requester_did s; s_behavior_id := s_behavior_id s; s_started := s_started s;
     s_status := v; s_ended := s_ended s |}.
Definition set_s_ended (v : option str) (s : SessionRow) : SessionRow :=
  {| s_session_id := s_session_id s; s_agent_name := s_agent_name s; s_agent_did := s_agent_did s;
     s_requester_did := s_requester_did s; s_behavior_id := s_behavior_id s; s_started := s_started s;
     s_status := s_status s; s_ended := v |}.

Record ConversationRow : Type := {
  cv_session_id : str;
  cv_agent_name : str;
  cv_agent_did : str;
  cv_requester_did : option str;
  cv_behavior_id : str;
  cv_title : str;
  cv_title_source : str;
  cv_preview_text : str;
  cv_status : str;
  cv_created_at : str;
  cv_updated_at : str;
  cv_latest_request_id : str
}.

Definition set_cv_agent_name (v : str) (c : ConversationRow) : ConversationRow :=
  {| cv_session_id := cv_session_id c; cv_agent_name := v; cv_agent_did := cv_agent_did c;
     cv_requester_did := cv_requester_did c; cv_behavior_id := cv_behavior_id c; cv_title := cv_title c;
     cv_title_source := cv_title_source c; cv_preview_text := cv_preview_text c; cv_status := cv_status c;
     cv_created_at := cv_created_at c; cv_updated_at := cv_updated_at c; cv_latest_request_id := cv_latest_request_id c |}.
Definition set_cv_preview_text (v : str) (c : ConversationRow) : ConversationRow :=
  {| cv_session_id := cv_session_id c; cv_agent_name := cv_agent_name c; cv_agent_did := cv_agent_did c;
     cv_requester_did := cv_requester_did c; cv_behavior_id := cv_behavior_id c; cv_title := cv_title c;
     cv_title_source := cv_title_source c; cv_preview_text := v; cv_status := cv_status c;
     cv_created_at := cv_created_at c; cv_updated_at := cv_updated_at c; cv_latest_request_id := cv_latest_request_id c |}.
Definition set_cv_status (v : str) (c : ConversationRow) : ConversationRow :=
  {| cv_session_id := cv_session_id c; cv_agent_name := cv_agent_name c; cv_agent_did := cv_agent_did c;
     cv_requester_did := cv_requester_did c; cv_behavior_id := cv_behavior_id c; cv_title := cv_title c;
     cv_title_source := cv_title_source c; cv_preview_text := cv_preview_text c; cv_status := v;
     cv_created_at := cv_created_at c; cv_updated_at := cv_updated_at c; cv_latest_request_id := cv_latest_request_id c |}.
Definition set_cv_updated_at (v : str) (c : ConversationRow) : ConversationRow :=
  {| cv_session_id := cv_session_id c; cv_agent_name := cv_agent_name c; cv_agent_did := cv_agent_did c;
     cv_requester_did := cv_requester_did c; cv_behavior_id := cv_behavior_id c; cv_title := cv_title c;
     cv_title_source := cv_title_source c; cv_preview_text := cv_preview_text c; cv_status := cv_status c;
     cv_created_at := cv_created_at c; cv_updated_at := v; cv_latest_request_id := cv_latest_request_id c |}.
Definition set_cv_latest_request_id (v : str) (c : ConversationRow) : ConversationRow :=
  {| cv_session_id := cv_session_id c; cv_agent_name := cv_agent_name c; cv_agent_did := cv_agent_did c;
     cv_requester_did := cv_requester_did c; cv_behavior_id := cv_behavior_id c; cv_title := cv_title c;
     cv_title_source := cv_title_source c; cv_preview_text := cv_preview_text c; cv_status := cv_status c;
     cv_created_at := cv_created_at c; cv_updated_at := cv_updated_at c; cv_latest_request_id := v |}.

Record MessageRow : Type := { mg_session_id : str; mg_sequence : Z; mg_message_key : str }.

Record Collections : Type := {
  requests : list RequestRow;
  responses : list ResponseRow;
  sessions : list SessionRow;
  conversations : list ConversationRow;
  messages : list MessageRow
}.

Definition set_requests (v : list RequestRow) (c : Collections) : Collections :=
  {| requests := v; responses := responses c; sessions := sessions c;
     conversations := conversations c; messages := messages c |}.
Definition set_responses (v : list ResponseRow) (c : Collections) : Collections :=
  {| requests := requests c; responses := v; sessions := sessions c;
     conversations := conversations c; messages := messages c |}.
Definition set_sessions (v : list SessionRow) (c : Collections) : Collections :=
  {| requests := requests c; responses := responses c; sessions := v;
     conversations := conversations c; messages := messages c |}.
Definition set_conversations (v : list ConversationRow) (c : Collections) : Collections :=
  {| requests := requests c; responses := responses c; sessions := sessions c;
     conversations := v; messages := messages c |}.

(** ** Operations and laws *)

(** A filtered update touches exactly the matching rows. *)
Definition update_where {A} (p : A → bool) (f : A → A) (l : list A) : list A :=
  (λ a, if p a then f a else a) <$> l.

(** The mutations of a response, as the fenced writers build them. *)
Inductive ResponseMutation : Type :=
| update_AgentResponse (filter : ResponseRow → bool) (input : ResponseRow → ResponseRow)
| create_AgentResponse (input : ResponseRow).

Class DocStore (DB : Type) : Type := {
  view : DB → Collections;
  update_request : (RequestRow → bool) → (RequestRow → RequestRow) → DB → DB;
  create_request : RequestRow → DB → DB * str;
  run_response : ResponseMutation → DB → option (DB * list str);
  update_session : (SessionRow → bool) → (SessionRow → SessionRow) → DB → DB;
  create_session : SessionRow → DB → DB;
  update_conversation : (ConversationRow → bool) → (ConversationRow → ConversationRow) → DB → DB;
  create_conversation : ConversationRow → DB → DB
}.

Definition response_keys (c : Collections) : list str :=
  (λ p, pi_response_key (p_ident p)) <$> responses c.

Class DocStoreLaws (DB : Type) `{DocStore DB} : Prop := {
  view_update_request p f db :
    view (update_request p f db) =
    set_requests (update_where p f (requests (view db))) (view db);
  view_create_request row db :
    ∃ db' id, create_request row db = (db', id) /\ (id ∉ ((λ r, ri_doc_id (r_ident r)) <$> requests (view db))) /\
      view db' = set_requests (requests (view db) ++ [set_r_doc_id id row]) (view db);
  view_update_response p f db :
    ∃ db', run_response (update_AgentResponse p f) db =
             Some (db', p_doc_id <$> List.filter p (responses (view db))) /\
      view db' = set_responses (update_where p f (responses (view db))) (view db);
  view_create_response row db :
    if bool_decide (pi_response_key (p_ident row) ∈ response_keys (view db))
    then run_response (create_AgentResponse row) db = None
    else ∃ db' id, run_response (create_AgentResponse row) db = Some (db', [id]) /\
           (id ∉ (p_doc_id <$> responses (view db))) /\
           view db' = set_responses (responses (view db) ++ [set_p_doc_id id row]) (view db);
  view_update_session p f db :
    view (update_session p f db) =
    set_sessions (update_where p f (sessions (view db))) (view db);
  view_create_session row db :
    view (create_session row db) = set_sessions (sessions (view db) ++ [row]) (view db);
  view_update_conversation p f db :
    view (update_conversation p f db) =
    set_conversations (update_where p f (conversations (view db))) (view db);
  view_create_conversation row db :
    view (create_conversation row db) =
    set_conversations (conversations (view db) ++ [row]) (view db)
}.

(** ** The in-memory store *)

Definition fresh_id (ids : list str) : str :=
  replicate (S (max_list_with length ids)) 97.

#[global] Instance memory_store : DocStore Collections := {
  view c := c;
  update_request p f c := set_requests (update_where p f (requests c)) c;
  create_request row c :=
    let id := fresh_id ((λ r, ri_doc_id (r_ident r)) <$> requests c) in
    (set_requests (requests c ++ [set_r_doc_id id row]) c, id);
  run_response m c :=
    match m with
    | update_AgentResponse p f =>
        Some (set_responses (update_where p f (responses c)) c,
              p_doc_id <$> List.filter p (responses c))
    | create_AgentResponse row =>
        if bool_decide (pi_response_key (p_ident row) ∈ response_keys c) then None
        else let id := fresh_id (p_doc_id <$> responses c) in
             Some (set_responses (responses c ++ [set_p_doc_id id row]) c, [id])
    end;
  update_session p f c := set_sessions (update_where p f (sessions c)) c;
  create_session row c := set_sessions (sessions c ++ [row]) c;
  update_conversation p f c := set_conversations (update_where p f (conversations c)) c;
  create_conversation row c := set_conversations (conversations c ++ [row]) c
}.

Lemma fresh_id_fresh ids : fresh_id ids ∉ ids.
Proof.
  assert (Hmax : ∀ id, id ∈ ids -> (length id <= max_list_with length ids)%nat).
  { induction ids as [|x ids IH]; intros id Hid; [by apply elem_of_nil in Hid|].
    simpl. apply elem_of_cons in Hid as [->|Hid]; [lia|]. specialize (IH id Hid). lia. }
  intros Hin. apply Hmax in Hin. unfold fresh_id in Hin.
  rewrite length_replicate in Hin. lia.
Qed.

#[global] Instance memory_store_laws : DocStoreLaws Collections.
Proof.
  split; intros; simpl; try done.
  - do 2 eexists. split; [done|]. split; [apply fresh_id_fresh|done].
  - eauto.
  - case_bool_decide; [done|]. do 2 eexists. split; [done|]. split; [|done].
    apply fresh_id_fresh.
Qed.

(** ** Transactions *)

Inductive Error : Type :=
| Msg (message : str)
| SessionBehaviorMismatch (session_id existing_behavior_id requested_behavior_id : str).

Definition error_to_string (e : Error) : str :=
  match e with
  | Msg m => m
  | SessionBehaviorMismatch s e r =>
      lit "session " ++ s ++ lit " is pinned to behavior " ++ e ++
      lit " and cannot switch to " ++ r
  end.

(** [is_claim_admission_error] downcasts to the typed error. *)
Definition is_claim_admission_error (e : Error) : bool :=
  match e with SessionBehaviorMismatch _ _ _ => true | Msg _ => false end.

(** [?] on [anyhow::Context]. *)
Definition with_context {A} (m : string) (o : option A) : result Error A := ok_or (Msg (lit m)) o.

(** The storage faults a transaction meets: one entry per statement it runs,
    [Some e] when that statement fails; no entry, no fault. *)
Definition Faults : Type := list (option Error).

Section transactions.
Context {DB : Type} `{DocStore DB}.

Definition Txn (A : Type) : Type := DB * Faults → result Error A * (DB * Faults).

Definition txn_ret {A} (a : A) : Txn A := λ s, (Ok a, s).
Definition txn_lift {A} (r : result Error A) : Txn A := λ s, (r, s).
Definition txn_bind {A B} (m : Txn A) (k : A → Txn B) : Txn B :=
  λ s, match m s with (Ok a, s') => k a s' | (Err e, s') => (Err e, s') end.

(** One statement: it meets the next fault, or runs. *)
Definition execute {A} (step : DB → result Error (A * DB)) : Txn A :=
  λ '(db, fs), match fs with
  | Some e :: fs' => (Err e, (db, fs'))
  | _ => match step db with
         | Ok (a, db') => (Ok a, (db', tail fs))
         | Err e => (Err e, (db, tail fs))
         end
  end.

Definition query {A} (q : Collections → A) : Txn A := execute (λ db, Ok (q (view db), db)).

(** The rows a mutation returns are the matching ones, as updated. *)
Definition mutate_request (p : RequestRow → bool) (f : RequestRow → RequestRow)
    : Txn (list RequestRow) :=
  execute (λ db, Ok (f <$> List.filter p (requests (view db)), update_request p f db)).

Definition mutate_response (m : ResponseMutation) : Txn (list str) :=
  execute (λ db, match run_response m db with
                 | Some (db', ids) => Ok (ids, db')
                 | None => Err (Msg (lit "unique index violation"))
                 end).

Definition mutate_conversation (p : ConversationRow → bool)
    (f : ConversationRow → ConversationRow) : Txn nat :=
  execute (λ db, Ok (length (List.filter p (conversations (view db))),
                     update_conversation p f db)).

Definition insert_conversation (row : ConversationRow) : Txn unit :=
  execute (λ db, Ok (tt, create_conversation row db)).

Definition mutate_session (p : SessionRow → bool) (f : SessionRow → SessionRow) : Txn unit :=
  execute (λ db, Ok (tt, update_session p f db)).

Definition insert_session (row : SessionRow) : Txn unit :=
  execute (λ db, Ok (tt, create_session row db)).
End transactions.

Notation "'let!' x ':=' c 'in' k" :=
  (txn_bind c (λ x, k))
  (at level 10, x name, c at level 200, k at level 200,
   format "'let!'  x  ':='  c  'in' '//' k") : gents_scope.
Notation "'do!' c 'in' k" :=
  (txn_bind c (λ _, k))
  (at level 10, c at level 200, k at level 200, format "'do!'  c  'in' '//' k") : gents_scope.

(** ** Lemmas *)

Lemma update_where_none {A} (p : A → bool) f l :
  List.filter p l = [] -> update_where p f l = l.
Proof.
  induction l as [|a l IH]; simpl; [done|]. destruct (p a); [done|].
  intros. f_equal. by apply IH.
Qed.

Lemma elem_of_update_where {A} (p : A → bool) f l a :
  a ∈ update_where p f l <->
  (∃ b, b ∈ l /\ p b = true /\ a = f b) \/ (a ∈ l /\ p a = false).
Proof.
  unfold update_where. rewrite list_elem_of_fmap. split.
  - intros (b & -> & Hb). destruct (p b) eqn:E; eauto.
  - intros [(b & Hb & Hp & ->)|[Ha Hp]]; eexists; (split; [|eassumption]); by rewrite Hp.
Qed.

Lemma update_where_fmap {A B} (g : A → B) (p : A → bool) f l :
  (∀ a, p a = true -> g (f a) = g a) -> g <$> update_where p f l = g <$> l.
Proof.
  intros Hg. unfold update_where. rewrite <- list_fmap_compose. apply list_fmap_ext.
  intros i a _. simpl. destruct (p a) eqn:E; [by apply Hg|done].
Qed.

Section transaction_lemmas.
Context {DB : Type} `{DocStore DB}.

Lemma txn_bind_Ok {A B} (m : Txn (DB:=DB) A) (k : A → Txn B) s b s' :
  txn_bind m k s = (Ok b, s') <-> ∃ a s1, m s = (Ok a, s1) /\ k a s1 = (Ok b, s').
Proof.
  unfold txn_bind. destruct (m s) as [[a|e] s1]; split.
  - eauto.
  - intros (a' & s1' & [= -> ->] & Hk). done.
  - done.
  - by intros (a' & s1' & [=] & _).
Qed.

Lemma execute_Ok {A} (step : DB → result Error (A * DB)) s a s' :
  execute step s = (Ok a, s') <->
  step s.1 = Ok (a, s'.1) /\ s'.2 = tail s.2 /\ (∀ e, head s.2 <> Some (Some e)).
Proof.
  destruct s as [db fs], s' as [db' fs']. unfold execute. simpl.
  destruct fs as [|[e|] fs]; simpl.
  - destruct (step db) as [[a1 d1]|]; naive_solver.
  - split; [done|]. intros (_ & _ & Hh). by specialize (Hh e).
  - destruct (step db) as [[a1 d1]|]; naive_solver.
Qed.

Lemma query_Ok {A} (q : Collections → A) (s : DB * Faults) a s' :
  query q s = (Ok a, s') -> a = q (view s.1) /\ s'.1 = s.1.
Proof. unfold query. rewrite execute_Ok. naive_solver. Qed.

Lemma txn_lift_Ok {A} (r : result Error A) (s : DB * Faults) a s' :
  txn_lift r s = (Ok a, s') <-> r = Ok a /\ s' = s.
Proof. unfold txn_lift. naive_solver. Qed.

Lemma txn_ret_Ok {A} (a b : A) (s s' : DB * Faults) : txn_ret a s = (Ok b, s') <-> a = b /\ s' = s.
Proof. unfold txn_ret. naive_solver. Qed.
End transaction_lemmas.

Lemma with_context_Ok {A} m (o : option A) a : with_context m o = Ok a <-> o = Some a.
Proof. destruct o; unfold with_context; simpl; naive_solver. Qed.

Lemma ensure_Ok {E} b (e : E) u : ensure b e = Ok u <-> b = true.
Proof. destruct b, u; unfold ensure; naive_solver. Qed.

Lemma mutate_request_Ok {DB} `{DocStoreLaws DB} p f (s : DB * Faults) rows s' :
  mutate_request p f s = (Ok rows, s') ->
  rows = f <$> List.filter p (requests (view s.1)) /\
  view s'.1 = set_requests (update_where p f (requests (view s.1))) (view s.1).
Proof.
  unfold mutate_request. rewrite execute_Ok. intros ([= <- <-] & _ & _).
  split; [done|]. apply view_update_request.
Qed.

Lemma mutate_conversation_Ok {DB} `{DocStoreLaws DB} p f (s : DB * Faults) n s' :
  mutate_conversation p f s = (Ok n, s') ->
  view s'.1 = set_conversations (update_where p f (conversations (view s.1))) (view s.1).
Proof.
  unfold mutate_conversation. rewrite execute_Ok. intros ([= <- <-] & _ & _).
  apply view_update_conversation.
Qed.

(** What a response mutation leaves in the collection. *)
Definition after_response (m : ResponseMutation) (ids : list str) (l l' : list ResponseRow) : Prop :=
  match m with
  | update_AgentResponse p f => l' = update_where p f l /\ ids = p_doc_id <$> List.filter p l
  | create_AgentResponse row =>
      ∃ id, ids = [id] /\ (id ∉ (p_doc_id <$> l)) /\ l' = l ++ [set_p_doc_id id row] /\
        (pi_response_key (p_ident row) ∉ ((λ p, pi_response_key (p_ident p)) <$> l))
  end.

Lemma mutate_response_Ok {DB} `{DocStoreLaws DB} m (s : DB * Faults) ids s' :
  mutate_response m s = (Ok ids, s') ->
  ∃ l', after_response m ids (responses (view s.1)) l' /\
    view s'.1 = set_responses l' (view s.1).
Proof.
  unfold mutate_response. rewrite execute_Ok. intros (Hrun & _ & _).
  destruct (run_response m s.1) as [[db' ids']|] eqn:E; [|done].
  injection Hrun as <- ->. destruct m as [p f|row]; simpl.
  - destruct (view_update_response p f s.1) as (db'' & E' & Hv).
    rewrite E in E'. injection E' as -> ->. eauto.
  - pose proof (view_create_response row s.1) as Hc. case_bool_decide as Hk.
    + by rewrite E in Hc.
    + destruct Hc as (db'' & id & E' & Hid & Hv). rewrite E in E'.
      injection E' as -> ->. eexists. split; [|exact Hv]. by exists id.
Qed.

(** Invert a successful transaction into the facts its statements establish. *)
Ltac txn_inv :=
  repeat match goal with
  | H : txn_bind _ _ _ = (Ok _, _) |- _ =>
      let Hm := fresh "Hm" in apply txn_bind_Ok in H as (? & [? ?] & Hm & H)
  | H : txn_lift _ _ = (Ok _, _) |- _ =>
      let He := fresh "He" in apply txn_lift_Ok in H as (H & He); injection He as ? ?; subst
  | H : txn_ret _ _ = (Ok _, _) |- _ =>
      let He := fresh "He" in
      apply txn_ret_Ok in H as (H & He); injection He as ? ?; subst
  | H : query _ _ = (Ok _, _) |- _ => apply query_Ok in H as (? & ?); cbn [fst snd] in *; subst
  | H : mutate_request _ _ _ = (Ok _, _) |- _ =>
      let Hv := fresh "Hv" in
      apply mutate_request_Ok in H as [? Hv]; cbn [fst snd] in *; subst
  | H : mutate_conversation _ _ _ = (Ok _, _) |- _ =>
      let Hv := fresh "Hv" in
      apply mutate_conversation_Ok in H as Hv; cbn [fst snd] in Hv; clear H
  | H : mutate_response _ _ = (Ok _, _) |- _ =>
      let l' := fresh "l'" in let Ha := fresh "Hafter" in let Hv := fresh "Hv" in
      apply mutate_response_Ok in H as (l' & Ha & Hv); cbn [fst snd] in Ha, Hv
  | H : with_context _ _ = Ok _ |- _ => apply with_context_Ok in H
  | H : ensure _ _ = Ok _ |- _ => apply ensure_Ok in H
  end.

