(* ===== verification/ExecutionLease.v ===== *)
(** * The execution lease

    [lifecycle/execution_lease.rs] and [lifecycle/transition.rs]: the fenced
    response write that renews the lease of a running execution, the single
    terminal owner of a request and its response, expiry recovery, revocation,
    and the relinquishment a dropped owner leaves behind.

    An operation runs as attempts of one transaction under
    [retry_terminal_persistence_operation]; the [n]-th attempt meets the
    [n]-th [AttemptEnv], which says what the clock reads, which statement fails,
    how the commit ends, and what other writers committed in between. *)

From S2P Require Import Prelude RustStr RequestState Retry Store.

(** ** Attempts *)

(** A commit takes effect, is refused, or takes effect but is reported as an
    error (the ambiguous failure the retry is designed for). *)
Inductive CommitResult : Type :=
| Committed
| Refused (e : Error)
| Ambiguous (e : Error).

Record AttemptEnv (DB : Type) : Type := {
  ae_interference : DB → DB;
  ae_begin : option Error;
  ae_now : Z;
  ae_faults : Faults;
  ae_commit : CommitResult
}.
Arguments ae_interference {DB} _.
Arguments ae_begin {DB} _.
Arguments ae_now {DB} _.
Arguments ae_faults {DB} _.
Arguments ae_commit {DB} _.

Section attempts.
Context {DB : Type} `{DocStore DB}.

(** [begin_local], the body, then [commit] where the value asks for it and
    [discard] otherwise. *)
Definition run_attempt {A} (commits : A → bool) (body : Z → Txn (DB:=DB) A)
    (e : AttemptEnv DB) (db : DB) : result Error A * DB :=
  match ae_begin e with
  | Some err => (Err err, db)
  | None =>
      match body (ae_now e) (db, ae_faults e) with
      | (Ok a, (db', _)) =>
          if commits a then
            match ae_commit e with
            | Committed => (Ok a, db')
            | Refused err => (Err err, db)
            | Ambiguous err => (Err err, db')
            end
          else (Ok a, db)
      | (Err err, _) => (Err err, db)
      end
  end.

(** One round of the retry loop: other writers first, then the attempt. *)
Definition attempt_round {A} (commits : A → bool) (body : Z → Txn (DB:=DB) A)
    (env : nat → AttemptEnv DB) (s : DB * nat) : result Error A * (DB * nat) :=
  let '(db, n) := s in
  let '(r, db') := run_attempt commits body (env n) (ae_interference (env n) db) in
  (r, (db', S n)).

Definition persist {A} (commits : A → bool) (body : Z → Txn (DB:=DB) A)
    (env : nat → AttemptEnv DB) (db : DB) : result Error A * DB :=
  let '(r, _, s) := retry_terminal_persistence_operation (attempt_round commits body env)
                      TERMINAL_PERSISTENCE_MAX_RETRIES
                      (milliseconds TERMINAL_PERSISTENCE_INITIAL_BACKOFF_MS) (db, 0%nat) in
  (r, s.1).
End attempts.

(** ** The fenced response write *)

Record ExecutionWriteFence : Type := {
  fence_request_doc_id : str;
  fence_execution_generation : str;
  fence_lease_duration_secs : Z
}.

Inductive ExecutionWriteKind : Type := W_Begin | W_Progress | W_Observe.

Definition doc_is (d : str) (r : RequestRow) : bool := str_eqb (ri_doc_id (r_ident r)) d.
Definition col_is (s : str) (o : option str) : bool := opt_eqb str_eqb o (Some s).

Definition first_request (d : str) (c : Collections) : option RequestRow :=
  List.find (doc_is d) (requests c).
Definition first_response (p : ResponseRow → bool) (c : Collections) : option ResponseRow :=
  List.find p (responses c).

(** The compare-and-swap filter of a fenced request write. *)
Definition request_cas (d : str) (state : RequestLifecycleState) (generation expiry : str)
    (seq : Z) (r : RequestRow) : bool :=
  doc_is d r
  && opt_eqb state_eqb (r_state r) (Some state)
  && col_is generation (r_generation r)
  && col_is expiry (r_expiry r)
  && opt_eqb Z.eqb (r_progress r) (Some seq).

Definition try_u64 (z : Z) : result Error Z :=
  ok_or (Msg (lit "out of range integral type conversion attempted")) (u64_try_from z).

Definition streaming : str := lit "streaming".
Definition is_streaming (p : ResponseRow) : bool := str_eqb (p_status p) streaming.

Section lease.
Context {DB : Type} `{DocStore DB} `{Chrono}.

Definition parse_rfc3339 (s : str) : result Error Z :=
  match parse_from_rfc3339 s with Ok t => Ok t | Err e => Err (Msg e) end.

(** The request columns a fenced write changes. *)
Definition fence_input (kind : ExecutionWriteKind) (owner : str) (new_deadline seq : Z)
    : result Error (RequestRow → RequestRow) :=
  match kind with
  | W_Progress =>
      let? next := with_context "execution progress overflow" (checked_add i64_max seq 1) in
      Ok (λ r, set_r_progress (Some next) (set_r_expiry (Some (to_rfc3339 new_deadline)) r))
  | W_Begin => Ok (set_r_state (Some Processing))
  | W_Observe => Ok (set_r_generation (Some owner))
  end.

Definition response_write_attempt (self : ExecutionWriteFence)
    (response_mutation : ResponseMutation) (kind : ExecutionWriteKind) (now : Z)
    : Txn (DB:=DB) (list str) :=
  let doc_id := fence_request_doc_id self in
  let! row := query (first_request doc_id) in
  let! row := txn_lift (with_context "execution owner request disappeared" row) in
  let! expiry := txn_lift (with_context "missing execution expiry" (r_expiry row)) in
  let! deadline := txn_lift (parse_rfc3339 expiry) in
  let new_deadline := Z.max (now + seconds (wrap_i64 (fence_lease_duration_secs self)))
                            (deadline + milliseconds 1) in
  let! state := txn_lift (with_context "missing execution state" (r_state row)) in
  let! owner := txn_lift (with_context "missing execution generation" (r_generation row)) in
  let! response := query (first_response (λ p, str_eqb (pi_request_doc_id (p_ident p)) doc_id)) in
  let operation := match kind with
                   | W_Begin => Op_Begin
                   | W_Progress => Op_Progress (timestamp_millis new_deadline)
                   | W_Observe => Op_Observe
                   end in
  let! progress := txn_lift (with_context "missing execution progress" (r_progress row)) in
  let! progress_seq := txn_lift (try_u64 progress) in
  do! txn_lift (ensure
        (authorize_live_execution
          {| ob_request := state; ob_response_streaming := is_streaming <$> response;
             ob_generation := owner; ob_deadline := timestamp_millis deadline;
             ob_progress_seq := progress_seq |}
          (fence_execution_generation self) (timestamp_millis now) operation)
        (Msg (lit "stale or expired execution generation cannot write response"))) in
  let seq := unwrap_or 0 (r_progress row) in
  let! input := txn_lift (fence_input kind owner new_deadline seq) in
  let! updated := mutate_request (request_cas doc_id state owner expiry seq) input in
  do! txn_lift (ensure (negb (Nat.eqb (length updated) 0))
        (Msg (lit "execution generation lost response write"))) in
  let! ids := mutate_response response_mutation in
  do! txn_lift (ensure (negb (Nat.eqb (length ids) 0))
        (Msg (lit "owned response write matched no document"))) in
  txn_ret ids.

Definition execute_response_write (self : ExecutionWriteFence)
    (response_mutation : ResponseMutation) (kind : ExecutionWriteKind)
    (env : nat → AttemptEnv DB) (db : DB) : result Error (list str) * DB :=
  persist (λ _, true) (response_write_attempt self response_mutation kind) env db.

(** ** Terminalization *)

Inductive RequestTerminalOutcome : Type :=
| O_Completed | O_Failed | O_Interrupted | O_Dead | O_Superseded.

Definition outcome_eqb (a b : RequestTerminalOutcome) : bool :=
  match a, b with
  | O_Completed, O_Completed | O_Failed, O_Failed | O_Interrupted, O_Interrupted
  | O_Dead, O_Dead | O_Superseded, O_Superseded => true
  | _, _ => false
  end.

Definition request_state (o : RequestTerminalOutcome) : RequestLifecycleState :=
  match o with
  | O_Completed => Completed | O_Failed => Failed | O_Interrupted => Interrupted
  | O_Dead => Dead | O_Superseded => Superseded
  end.

Definition response_status (o : RequestTerminalOutcome) : str :=
  match o with
  | O_Completed => lit "complete"
  | O_Failed | O_Interrupted | O_Dead | O_Superseded => lit "error"
  end.

Definition conversation_status (o : RequestTerminalOutcome) : str :=
  match o with
  | O_Completed => lit "completed"
  | O_Failed | O_Interrupted | O_Dead | O_Superseded => lit "active"
  end.

Definition local_state (o : RequestTerminalOutcome) : LocalLifecycleState :=
  match o with
  | O_Completed => L_Completed
  | O_Failed | O_Dead | O_Superseded => L_Failed
  | O_Interrupted => L_Interrupted
  end.

Inductive TerminalizeResult : Type := Won | AlreadySame | Lost.

Inductive TerminalAuthority : Type :=
| Owner (generation : str)
| Recovery (generation expiry : str) (progress : Z)
| Revocation (generation expiry : str) (progress : Z).

Definition is_recovery (a : TerminalAuthority) : bool :=
  match a with Recovery _ _ _ => true | _ => false end.

(** A failure of a request whose interruption was requested is an interruption. *)
Definition effective_outcome (outcome : RequestTerminalOutcome) (row : RequestRow)
    : RequestTerminalOutcome :=
  if outcome_eqb outcome O_Failed
     && is_some_and (λ v, negb (str_eqb v [])) (r_interrupt row)
  then O_Interrupted else outcome.

Definition authorize_terminal (authority : TerminalAuthority) (observed : ExecutionObservation)
    (state : RequestLifecycleState) (owner expiry : str) (progress deadline now : Z)
    (fresh_generation : str) (outcome : RequestTerminalOutcome) : result Error bool :=
  match authority with
  | Owner expected =>
      Ok (authorize_live_execution observed expected (timestamp_millis now)
            (Op_Finalize (outcome_eqb outcome O_Completed)))
  | Recovery generation expected_expiry expected_progress =>
      Ok (str_eqb owner generation && str_eqb expiry expected_expiry
          && (progress =? expected_progress) && (deadline <? now)
          && match state with Claimed | Processing => true | _ => false end)
  | Revocation generation expected_expiry expected_progress =>
      let? expected_deadline := parse_rfc3339 expected_expiry in
      let? expected_seq := try_u64 expected_progress in
      Ok (authorize_execution_revocation observed
            {| ob_request := ob_request observed;
               ob_response_streaming := ob_response_streaming observed;
               ob_generation := generation;
               ob_deadline := timestamp_millis expected_deadline;
               ob_progress_seq := expected_seq |}
            fresh_generation (request_state outcome))
  end.

(** [session::requester_did_create_field]: a blank requester is left out. *)
Definition requester_did_create_field (requester_did : option str) : option str :=
  opt_filter (λ v, negb (str_eqb v [])) (trim <$> requester_did).

Definition restart_suffix : str :=
  [NL; NL] ++ lit "[Response interrupted " ++ [8212] ++ lit " daemon restarted]".

Definition recovered_content (content reason : str) : str :=
  if str_eqb (trim content) [] then lit "Error: " ++ reason
  else content ++ restart_suffix.

(** The response a terminal request leaves when none was begun. *)
Definition terminal_response (row : RequestRow) (doc_id agent_did session reason status
    timestamp : str) (interrupted_at : option str) : ResponseRow :=
  {| p_doc_id := [];
     p_ident := {| pi_response_key := ri_request_id (r_ident row);
                   pi_request_id := ri_request_id (r_ident row);
                   pi_request_doc_id := doc_id; pi_agent_did := agent_did;
                   pi_requester_did :=
                     requester_did_create_field (ri_requester_did (r_ident row));
                   pi_behavior_id := unwrap_or [] (ri_behavior_id (r_ident row));
                   pi_session_id := session; pi_created_at := timestamp |};
     p_content := lit "Error: " ++ reason; p_reasoning := []; p_status := status;
     p_error_message := reason; p_token_count := 0; p_progress_seq := 0;
     p_reasoning_seq := Some 0; p_completed_at := timestamp;
     p_interrupted_at := interrupted_at |}.

(** [input] of the response update. *)
Definition finish_response (recovered : option str) (status reason timestamp : str)
    (interrupted_at : option str) (p : ResponseRow) : ResponseRow :=
  let p := match recovered with Some c => set_p_content c p | None => p end in
  let p := set_p_error_message reason (set_p_status status p) in
  let p := match interrupted_at with Some _ => set_p_interrupted_at interrupted_at p | None => p end in
  set_p_completed_at timestamp p.

(** [input] of the request update. *)
Definition finish_request (target : RequestLifecycleState) (generation timestamp reason : str)
    (r : RequestRow) : RequestRow :=
  set_r_redrive (Some 0) (set_r_terminalized_at (Some timestamp)
    (set_r_failure (Some reason) (set_r_expiry (Some timestamp)
      (set_r_generation (Some generation) (set_r_state (Some target) r))))).

(** [session::request_conversation_status_projection_mutation]. *)
Definition conversation_projection (session request_id status updated_at : str)
    : Txn (DB:=DB) nat :=
  mutate_conversation
    (λ c, str_eqb (cv_session_id c) session && str_eqb (cv_latest_request_id c) request_id)
    (λ c, set_cv_updated_at updated_at (set_cv_status status c)).

(** The response mutation of a terminalization, for a present and an absent response. *)
Definition terminal_response_mutation (authority : TerminalAuthority) (row : RequestRow)
    (doc_id agent_did reason timestamp : str) (outcome : RequestTerminalOutcome)
    (response : option ResponseRow) : result Error ResponseMutation :=
  let status := response_status outcome in
  let interrupted_at :=
    if outcome_eqb outcome O_Interrupted
    then Some (unwrap_or timestamp
           (opt_filter (λ v, negb (str_eqb v [])) (response ≫= p_interrupted_at)))
    else None in
  match response with
  | Some response =>
      let recovered :=
        if is_recovery authority && is_streaming response
           && negb (outcome_eqb outcome O_Completed)
        then Some (recovered_content (p_content response) reason) else None in
      Ok (update_AgentResponse
            (λ p, str_eqb (p_doc_id p) (p_doc_id response)
                  && str_eqb (p_status p) (p_status response))
            (finish_response recovered status reason timestamp interrupted_at))
  | None =>
      let? session := with_context "missing request session" (ri_session_id (r_ident row)) in
      Ok (create_AgentResponse
            (terminal_response row doc_id agent_did session reason status timestamp
               interrupted_at))
  end.

Definition terminalize_attempt (request_doc_id : str) (authority : TerminalAuthority)
    (outcome : RequestTerminalOutcome) (reason fresh_generation : str) (now : Z)
    : Txn (DB:=DB) TerminalizeResult :=
  let! row := query (first_request request_doc_id) in
  let! row := txn_lift (with_context "execution request disappeared" row) in
  let! owner := txn_lift (with_context "missing execution generation" (r_generation row)) in
  let! agent_did := txn_lift (with_context "missing agent DID" (ri_agent_did (r_ident row))) in
  let! response := query (first_response (λ p,
        str_eqb (pi_request_doc_id (p_ident p)) request_doc_id
        && str_eqb (pi_agent_did (p_ident p)) agent_did)) in
  let! state := txn_lift (with_context "missing request state" (r_state row)) in
  let outcome := effective_outcome outcome row in
  if is_terminal state then
    txn_ret (if match authority with Owner expected => str_eqb expected owner | _ => false end
                && state_eqb state (request_state outcome)
                && is_some_and (λ p, str_eqb (p_status p) (response_status outcome)) response
             then AlreadySame else Lost)
  else
  let! expiry := txn_lift (with_context "missing execution expiry" (r_expiry row)) in
  let! deadline := txn_lift (parse_rfc3339 expiry) in
  let! progress := txn_lift (with_context "missing execution progress" (r_progress row)) in
  let! progress_seq := txn_lift (try_u64 progress) in
  let observed := {| ob_request := state; ob_response_streaming := is_streaming <$> response;
                     ob_generation := owner; ob_deadline := timestamp_millis deadline;
                     ob_progress_seq := progress_seq |} in
  let! authorized := txn_lift (authorize_terminal authority observed state owner expiry
                                 progress deadline now fresh_generation outcome) in
  if negb authorized
     || is_some_and (λ p, negb (is_streaming p)
                          && negb (str_eqb (p_status p) (response_status outcome))) response
  then txn_ret Lost
  else
  let terminal_generation := match authority with Owner _ => owner | _ => fresh_generation end in
  let timestamp := to_rfc3339 now in
  let! updated := mutate_request (request_cas request_doc_id state owner expiry progress)
                    (finish_request (request_state outcome) terminal_generation timestamp reason) in
  if Nat.eqb (length updated) 0 then txn_ret Lost
  else
  let! m := txn_lift (terminal_response_mutation authority row request_doc_id agent_did reason
                        timestamp outcome response) in
  let! ids := mutate_response m in
  do! txn_lift (ensure (negb (Nat.eqb (length ids) 0))
        (Msg (lit "terminal response write matched no document"))) in
  let! session := txn_lift (with_context "missing request session" (ri_session_id (r_ident row))) in
  do! conversation_projection session (ri_request_id (r_ident row))
        (conversation_status outcome) timestamp in
  txn_ret Won.

Definition is_won (r : TerminalizeResult) : bool := match r with Won => true | _ => false end.

(** [fresh_generation] is the identifier [Uuid::new_v4] drew for the call. *)
Definition terminalize_execution (request_doc_id : str) (authority : TerminalAuthority)
    (outcome : RequestTerminalOutcome) (reason fresh_generation : str)
    (env : nat → AttemptEnv DB) (db : DB) : result Error TerminalizeResult * DB :=
  persist is_won (terminalize_attempt request_doc_id authority outcome reason fresh_generation)
    env db.

Definition recover_execution_generation (row : RequestRow)
    (expected_generation expected_expiry : str) (expected_progress_seq : Z)
    (outcome : RequestTerminalOutcome) (reason fresh_generation : str)
    (env : nat → AttemptEnv DB) (db : DB) : result Error TerminalizeResult * DB :=
  terminalize_execution (ri_doc_id (r_ident row))
    (Recovery expected_generation expected_expiry expected_progress_seq)
    outcome reason fresh_generation env db.

Definition revoke_execution_generation (row : RequestRow) (outcome : RequestTerminalOutcome)
    (reason fresh_generation : str) (env : nat → AttemptEnv DB) (db : DB)
    : result Error TerminalizeResult * DB :=
  match (let? g := with_context "missing execution generation" (r_generation row) in
         let? e := with_context "missing execution expiry" (r_expiry row) in
         let? p := with_context "missing execution progress" (r_progress row) in
         Ok (Revocation g e p)) with
  | Ok authority => terminalize_execution (ri_doc_id (r_ident row)) authority outcome reason
                      fresh_generation env db
  | Err e => (Err e, db)
  end.

(** [Drop] of an owner that is not terminal expires the lease of its own
    generation; recovery stays the terminal owner. *)
Definition relinquish (doc_id generation : str) (now : Z) (db : DB) : DB :=
  update_request
    (λ r, doc_is doc_id r && col_is generation (r_generation r)
          && match r_state r with Some Claimed | Some Processing => true | _ => false end)
    (set_r_expiry (Some (to_rfc3339 (now - milliseconds 1)))) db.
End lease.

(** ** Lemmas: one attempt *)

Lemma ids_nonempty {A} (l : list A) : negb (Nat.eqb (length l) 0) = true <-> l <> [].
Proof. by destruct l; simpl. Qed.

Lemma doc_is_true d r : doc_is d r = true <-> ri_doc_id (r_ident r) = d.
Proof. apply str_eqb_true. Qed.

Lemma col_is_true s o : col_is s o = true <-> o = Some s.
Proof.
  destruct o; unfold col_is; simpl; [|naive_solver]. rewrite str_eqb_true. naive_solver.
Qed.

Lemma request_cas_true d st g e seq r :
  request_cas d st g e seq r = true <->
  ri_doc_id (r_ident r) = d /\ r_state r = Some st /\ r_generation r = Some g /\
  r_expiry r = Some e /\ r_progress r = Some seq.
Proof.
  unfold request_cas. rewrite !andb_true_iff, doc_is_true, !col_is_true.
  assert (opt_eqb state_eqb (r_state r) (Some st) = true <-> r_state r = Some st) as ->.
  { destruct (r_state r); simpl; [|naive_solver]. rewrite state_eqb_true. naive_solver. }
  assert (opt_eqb Z.eqb (r_progress r) (Some seq) = true <-> r_progress r = Some seq) as ->.
  { destruct (r_progress r); simpl; [|naive_solver]. rewrite Z.eqb_eq. naive_solver. }
  tauto.
Qed.

Lemma try_u64_Ok z v : try_u64 z = Ok v <-> v = z /\ in_u64 z.
Proof.
  unfold try_u64. destruct (u64_try_from z) eqn:E; simpl.
  - apply u64_try_from_Some in E as [-> ?]. naive_solver.
  - split; [done|]. intros [-> Hz]. pose proof (proj2 (u64_try_from_Some z z) (conj eq_refl Hz)).
    congruence.
Qed.

Lemma first_request_Some d c row :
  first_request d c = Some row -> row ∈ requests c /\ ri_doc_id (r_ident row) = d.
Proof.
  unfold first_request. intros H. apply List.find_some in H as [H1 H2].
  by rewrite list_elem_of_In, <- doc_is_true.
Qed.

Section lease_lemmas.
Context {DB : Type} `{DocStoreLaws DB} `{Chrono}.
Implicit Types db : DB.

(** The row an attempt reads, with every fence column present and well formed. *)
Record RunningRow (d : str) (c : Collections) (row : RequestRow) (st : RequestLifecycleState)
    (g e : str) (seq dl : Z) : Prop := {
  rr_first : first_request d c = Some row;
  rr_state : r_state row = Some st;
  rr_generation : r_generation row = Some g;
  rr_expiry : r_expiry row = Some e;
  rr_progress : r_progress row = Some seq;
  rr_range : in_u64 seq;
  rr_deadline : parse_from_rfc3339 e = Ok dl
}.

Lemma parse_rfc3339_Ok e dl : parse_rfc3339 e = Ok dl -> parse_from_rfc3339 e = Ok dl.
Proof. unfold parse_rfc3339. destruct (parse_from_rfc3339 e); naive_solver. Qed.

Definition response_of (d : str) (c : Collections) : option ResponseRow :=
  first_response (λ p, str_eqb (pi_request_doc_id (p_ident p)) d) c.

Definition new_deadline (f : ExecutionWriteFence) (now dl : Z) : Z :=
  Z.max (now + seconds (wrap_i64 (fence_lease_duration_secs f))) (dl + milliseconds 1).

Lemma response_write_Ok f m k now db fs ids db' fs' :
  response_write_attempt f m k now (db, fs) = (Ok ids, (db', fs')) ->
  ∃ row st g e seq dl input l',
    RunningRow (fence_request_doc_id f) (view db) row st g e seq dl /\
    authorize_live_execution
      {| ob_request := st;
         ob_response_streaming :=
           is_streaming <$> response_of (fence_request_doc_id f) (view db);
         ob_generation := g; ob_deadline := timestamp_millis dl; ob_progress_seq := seq |}
      (fence_execution_generation f) (timestamp_millis now)
      (match k with W_Begin => Op_Begin
                  | W_Progress => Op_Progress (timestamp_millis (new_deadline f now dl))
                  | W_Observe => Op_Observe end) = true /\
    fence_input k g (new_deadline f now dl) seq = Ok input /\ ids <> [] /\
    after_response m ids (responses (view db)) l' /\
    view db' = set_responses l'
      (set_requests (update_where (request_cas (fence_request_doc_id f) st g e seq) input
         (requests (view db))) (view db)).
Proof.
  unfold response_write_attempt. intros Hw. txn_inv.
  match goal with H : r_progress ?r = Some _ |- _ => rewrite H in *; simpl unwrap_or in * end.
  match goal with H : try_u64 _ = Ok _ |- _ => apply try_u64_Ok in H as [-> ?] end.
  match goal with H : parse_rfc3339 _ = Ok _ |- _ => apply parse_rfc3339_Ok in H end.
  repeat match goal with H : negb (Nat.eqb _ _) = true |- _ => apply ids_nonempty in H end.
  rewrite Hv in Hafter, Hv0.
  do 8 eexists. split; [split; eassumption|]. split_and!; try eassumption; done.
Qed.

Lemma authorize_terminal_active a o st g e seq dl now fresh out :
  ob_request o = st ->
  authorize_terminal a o st g e seq dl now fresh out = Ok true ->
  st = Claimed \/ st = Processing.
Proof.
  intros <- Ha. destruct a; simpl in Ha.
  - injection Ha as Ha. apply authorize_live_spec in Ha as (_ & _ & Hp & _).
    destruct Hp as [[? _]|[? _]]; auto.
  - injection Ha as Ha. bool_prop. destruct (ob_request o); try done; auto.
  - destruct (parse_rfc3339 _); [|done]. destruct (try_u64 _); [|done].
    injection Ha as Ha. apply authorize_revocation_spec in Ha as (Hp & _).
    destruct Hp as [[? _]|[? _]]; auto.
Qed.

Definition response_of_agent (d agent : str) (c : Collections) : option ResponseRow :=
  first_response (λ p, str_eqb (pi_request_doc_id (p_ident p)) d
                       && str_eqb (pi_agent_did (p_ident p)) agent) c.

Lemma terminalize_Won d a out reason fresh now db fs db' fs' :
  terminalize_attempt d a out reason fresh now (db, fs) = (Ok Won, (db', fs')) ->
  ∃ row st g e seq dl agent session m ids l',
    let o := effective_outcome out row in
    let resp := response_of_agent d agent (view db) in
    RunningRow d (view db) row st g e seq dl /\
    ri_agent_did (r_ident row) = Some agent /\ ri_session_id (r_ident row) = Some session /\
    (st = Claimed \/ st = Processing) /\
    authorize_terminal a
      {| ob_request := st; ob_response_streaming := is_streaming <$> resp;
         ob_generation := g; ob_deadline := timestamp_millis dl; ob_progress_seq := seq |}
      st g e seq dl now fresh o = Ok true /\
    is_some_and (λ p, negb (is_streaming p)
                      && negb (str_eqb (p_status p) (response_status o))) resp = false /\
    terminal_response_mutation a row d agent reason (to_rfc3339 now) o resp = Ok m /\
    ids <> [] /\ after_response m ids (responses (view db)) l' /\
    view db' = set_conversations
      (update_where
         (λ c, str_eqb (cv_session_id c) session
               && str_eqb (cv_latest_request_id c) (ri_request_id (r_ident row)))
         (λ c, set_cv_updated_at (to_rfc3339 now) (set_cv_status (conversation_status o) c))
         (conversations (view db)))
      (set_responses l' (set_requests
         (update_where (request_cas d st g e seq)
            (finish_request (request_state o) (match a with Owner _ => g | _ => fresh end)
               (to_rfc3339 now) reason) (requests (view db))) (view db))).
Proof.
  unfold terminalize_attempt. intros Hw. txn_inv.
  destruct (is_terminal _) eqn:Hterm in Hw.
  { txn_inv. match goal with H : (if ?b then _ else _) = Won |- _ => by destruct b end. }
  txn_inv.
  match goal with H : try_u64 _ = Ok _ |- _ => apply try_u64_Ok in H as [-> ?] end.
  match goal with H : parse_rfc3339 _ = Ok _ |- _ => apply parse_rfc3339_Ok in H end.
  match type of Hw with (if ?b then _ else _) _ = _ => destruct b eqn:Hok end; [by txn_inv|].
  txn_inv.
  match type of Hw with (if ?b then _ else _) _ = _ => destruct b eqn:Hcas end; [by txn_inv|].
  unfold conversation_projection in Hw. txn_inv.
  repeat match goal with H : negb (Nat.eqb _ _) = true |- _ => apply ids_nonempty in H end.
  apply orb_false_iff in Hok as [Hauth Hresp]. apply negb_false_iff in Hauth. subst.
  match goal with H : authorize_terminal _ _ _ _ _ _ _ _ _ _ = Ok true |- _ =>
    pose proof (authorize_terminal_active _ _ _ _ _ _ _ _ _ _ eq_refl H) end.
  rewrite Hv1 in Hv0. rewrite Hv in Hafter, Hv0.
  do 11 eexists. split; [split; eassumption|]. split_and!; try eassumption; try done.
Qed.

Lemma find_update_where {A} (q p : A → bool) (f : A → A) l :
  (∀ a, p a = true -> q (f a) = q a) ->
  List.find q (update_where p f l) = (λ a, if p a then f a else a) <$> List.find q l.
Proof.
  intros Hq. induction l as [|a l IH]; simpl; [done|].
  assert (q (if p a then f a else a) = q a) as ->.
  { destruct (p a) eqn:E; [by apply Hq|done]. }
  destruct (q a); simpl; [done|apply IH].
Qed.

Lemma find_app_None {A} (q : A → bool) l l' :
  List.find q l = None -> List.find q (l ++ l') = List.find q l'.
Proof. induction l as [|a l IH]; simpl; [done|]. by destruct (q a). Qed.

Lemma first_request_update d (p : RequestRow → bool) (f : RequestRow → RequestRow) c c' :
  (∀ r, r_ident (f r) = r_ident r) ->
  requests c' = update_where p f (requests c) ->
  first_request d c' = (λ r, if p r then f r else r) <$> first_request d c.
Proof.
  intros Hf Hc. unfold first_request. rewrite Hc. apply find_update_where.
  intros r _. unfold doc_is. by rewrite Hf.
Qed.

Lemma running_row_cas d c row st g e seq dl :
  RunningRow d c row st g e seq dl -> request_cas d st g e seq row = true.
Proof.
  intros []. apply request_cas_true. by apply first_request_Some in rr_first0 as [_ ?].
Qed.

Lemma fence_input_ident k g nd seq input :
  fence_input k g nd seq = Ok input -> ∀ r, r_ident (input r) = r_ident r.
Proof.
  destruct k; simpl; [by intros [= <-]| |by intros [= <-]].
  destruct (with_context _ _); [|done]. by intros [= <-].
Qed.

Lemma set_r_generation_id g row : r_generation row = g -> set_r_generation g row = row.
Proof. destruct row. unfold set_r_generation. simpl. by intros ->. Qed.

Lemma millis_max_gt now d : timestamp_millis d < timestamp_millis (Z.max now (d + milliseconds 1)).
Proof.
  unfold timestamp_millis, milliseconds.
  assert (Hs : (d + 1 * 1000000) / 1000000 = d / 1000000 + 1) by (rewrite Z.div_add; lia).
  pose proof (Z.div_le_mono (d + 1 * 1000000) (Z.max now (d + 1 * 1000000)) 1000000). lia.
Qed.

(** A fenced response write succeeds only for the generation that owns the
    execution and only while its lease lasts.  [Progress] strictly extends the
    lease (past the old deadline, in milliseconds, and at least the configured
    duration from now) and advances the progress counter by one; [Begin] turns a
    claimed request with no response into a processing one; [Observe] leaves the
    request row as it was.  Rows of other requests are not touched. *)
Theorem fenced_write_renews_lease `{!ChronoLaws} f m k now db fs ids db' fs' :
  let d := fence_request_doc_id f in
  response_write_attempt f m k now (db, fs) = (Ok ids, (db', fs')) ->
  ∃ row st g e seq dl row',
    RunningRow d (view db) row st g e seq dl /\
    g = fence_execution_generation f /\ timestamp_millis now <= timestamp_millis dl /\
    first_request d (view db') = Some row' /\
    (∀ d', d' <> d -> first_request d' (view db') = first_request d' (view db)) /\
    match k with
    | W_Begin => st = Claimed /\ response_of d (view db) = None /\
                 row' = set_r_state (Some Processing) row
    | W_Progress => st = Processing /\ r_state row' = Some Processing /\
        r_generation row' = Some g /\ r_progress row' = Some (seq + 1) /\
        ∃ e' dl', r_expiry row' = Some e' /\ parse_from_rfc3339 e' = Ok dl' /\
          timestamp_millis dl < timestamp_millis dl' /\
          now + seconds (wrap_i64 (fence_lease_duration_secs f)) <= dl'
    | W_Observe => st = Processing /\ row' = row
    end.
Proof.
  intros d Hw. subst d. apply response_write_Ok in Hw
    as (row & st & g & e & seq & dl & input & l' & Hrow & Hauth & Hin & _ & _ & Hv).
  apply authorize_live_spec in Hauth as (Hg & Hdl & Hpair & Hop). simpl in *.
  pose proof (fence_input_ident _ _ _ _ _ Hin) as Hid.
  pose proof (λ d', first_request_update d' _ _ (view db) (view db') Hid
                (ltac:(by rewrite Hv))) as Hfirst.
  exists row, st, g, e, seq, dl, (input row).
  split_and!; [done|done|done| | |].
  - rewrite Hfirst, (rr_first _ _ _ _ _ _ _ _ Hrow). simpl.
    by rewrite (running_row_cas _ _ _ _ _ _ _ _ Hrow).
  - intros d' Hne. rewrite Hfirst. destruct (first_request d' (view db)) as [r|] eqn:E; [|done].
    simpl. apply first_request_Some in E as [_ E]. f_equal.
    destruct (request_cas _ _ _ _ _ r) eqn:Ec; [|done]. apply request_cas_true in Ec. naive_solver.
  - destruct k; simpl in Hin.
    + injection Hin as <-. split_and!; [done| |done].
      unfold active_pair in Hpair. simpl in Hpair.
      destruct (response_of _ _); naive_solver.
    + destruct (with_context _ _) as [next|] eqn:Hnext; [|done].
      apply with_context_Ok, checked_add_Some in Hnext as [-> _].
      injection Hin as <-. destruct Hrow. simpl. destruct Hop as [-> _].
      split_and!; [done|done|done|done|].
      do 2 eexists. split_and!; [done|apply rfc3339_roundtrip|apply millis_max_gt|].
      unfold new_deadline. lia.
    + injection Hin as <-. split; [done|]. apply set_r_generation_id, Hrow.
Qed.

(** ** Lemmas: terminalization *)

Lemma request_state_terminal o : is_terminal (request_state o) = true.
Proof. by destruct o. Qed.

Lemma finish_request_ident t g ts reason r : r_ident (finish_request t g ts reason r) = r_ident r.
Proof. done. Qed.

Lemma finish_response_ident rc st reason ts ia p :
  p_ident (finish_response rc st reason ts ia p) = p_ident p /\
  p_doc_id (finish_response rc st reason ts ia p) = p_doc_id p /\
  p_status (finish_response rc st reason ts ia p) = st.
Proof. unfold finish_response. destruct rc, ia; done. Qed.

(** The response of the agent after a terminal write carries the terminal status. *)
Lemma terminal_response_after a row d agent reason ts o c m ids l' :
  terminal_response_mutation a row d agent reason ts o (response_of_agent d agent c) = Ok m ->
  after_response m ids (responses c) l' ->
  ∃ p, List.find (λ p, str_eqb (pi_request_doc_id (p_ident p)) d
                       && str_eqb (pi_agent_did (p_ident p)) agent) l' = Some p /\
    p_status p = response_status o.
Proof.
  unfold response_of_agent, first_response, terminal_response_mutation.
  destruct (List.find _ (responses c)) as [p|] eqn:E.
  - intros [= <-] [-> _]. rewrite find_update_where, E; simpl.
    + rewrite !str_eqb_refl. simpl. eexists. split; [done|]. by apply finish_response_ident.
    + intros q _. unfold finish_response. by repeat case_match.
  - destruct (with_context _ _) as [session|] eqn:Hs; [|done].
    intros [= <-] (id & -> & _ & -> & _). rewrite find_app_None by done. simpl.
    rewrite !str_eqb_refl. simpl. eauto.
Qed.

Lemma terminalize_settled d a out reason fresh now db fs db' fs' r :
  terminalize_attempt d a out reason fresh now (db, fs) = (Ok r, (db', fs')) ->
  ∃ row, first_request d (view db) = Some row /\
    match r with
    | Won => ∃ st, r_state row = Some st /\ is_terminal st = false
    | AlreadySame =>
        ∃ g agent p, a = Owner g /\ r_generation row = Some g /\
          r_state row = Some (request_state (effective_outcome out row)) /\
          ri_agent_did (r_ident row) = Some agent /\
          response_of_agent d agent (view db) = Some p /\
          p_status p = response_status (effective_outcome out row)
    | Lost => True
    end.
Proof.
  intros Hw. destruct r.
  - apply terminalize_Won in Hw
      as (row & st & g & e & seq & dl & agent & session & m & ids & l' & [] & _ & _ & Hst & _).
    exists row. split; [done|]. exists st. split; [done|]. by destruct Hst as [-> | ->].
  - unfold terminalize_attempt in Hw. txn_inv.
    exists x0. split; [done|].
    destruct (is_terminal _) eqn:Hterm in Hw.
    + txn_inv. match goal with H : (if ?b then _ else _) = _ |- _ => destruct b eqn:Hb end; [|done].
      bool_prop. destruct a; try done. eqb_prop. subst.
      match goal with H : is_some_and _ ?o = true |- _ => destruct o as [p|] eqn:Hp end; [|done].
      do 3 eexists. split_and!; try eassumption; [done|]. by apply str_eqb_true.
    + exfalso. txn_inv.
      match type of Hw with (if ?b then _ else _) _ = _ => destruct b end; [by txn_inv|].
      txn_inv.
      match type of Hw with (if ?b then _ else _) _ = _ => destruct b end; [by txn_inv|].
      unfold conversation_projection in Hw. by txn_inv.
  - unfold terminalize_attempt in Hw. txn_inv. eauto.
Qed.

(** C5. One terminal write settles request and response together.  A [Won]
    attempt started from a claimed or processing row and leaves that request
    terminal in the effective outcome (a failure of a request whose interruption
    was requested is [Interrupted]), under the owner's generation or a fresh one,
    the agent's response in the matching terminal status, and every other request
    as it was.  [AlreadySame] means exactly that state was there before, under the
    caller's own generation.  Everything but a committed [Won] leaves the store
    as it was. *)
Theorem terminalization_is_atomic d a out reason fresh e db r db' :
  run_attempt is_won (terminalize_attempt d a out reason fresh) e db = (r, db') ->
  match r with
  | Ok Won => ∃ row row' agent p,
      first_request d (view db) = Some row /\
      (r_state row = Some Claimed \/ r_state row = Some Processing) /\
      first_request d (view db') = Some row' /\
      r_state row' = Some (request_state (effective_outcome out row)) /\
      r_generation row' = (match a with Owner _ => r_generation row | _ => Some fresh end) /\
      r_failure row' = Some reason /\ r_ident row' = r_ident row /\
      ri_agent_did (r_ident row) = Some agent /\
      response_of_agent d agent (view db') = Some p /\
      p_status p = response_status (effective_outcome out row) /\
      (∀ d', d' <> d -> first_request d' (view db') = first_request d' (view db))
  | Ok AlreadySame => db' = db /\ ∃ row g agent p,
      first_request d (view db) = Some row /\ a = Owner g /\ r_generation row = Some g /\
      r_state row = Some (request_state (effective_outcome out row)) /\
      ri_agent_did (r_ident row) = Some agent /\
      response_of_agent d agent (view db) = Some p /\
      p_status p = response_status (effective_outcome out row)
  | Ok Lost => db' = db
  | Err _ => match ae_commit e with Ambiguous _ => True | _ => db' = db end
  end.
Proof.
  unfold run_attempt. destruct (ae_begin e).
  { intros [= <- <-]. by destruct (ae_commit e). }
  destruct (terminalize_attempt _ _ _ _ _ _ _) as [[w|err] [db1 fs1]] eqn:Hw; cycle 1.
  { intros [= <- <-]. by destruct (ae_commit e). }
  destruct w; simpl.
  - destruct (ae_commit e); intros [= <- <-]; try done.
    apply terminalize_Won in Hw
      as (row & st & g & x & seq & dl & agent & session & m & ids & l' &
          Hrow & Hagent & _ & Hst & _ & _ & Hm & _ & Hafter & Hv).
    pose proof (λ d', first_request_update d' _ _ (view db) (view db1)
                  (finish_request_ident _ _ _ _) (ltac:(by rewrite Hv))) as Hfirst.
    destruct (terminal_response_after _ _ _ _ _ _ _ _ _ _ _ Hm Hafter) as (p & Hp & Hps).
    pose proof (running_row_cas _ _ _ _ _ _ _ _ Hrow) as Hcas. destruct Hrow.
    exists row. eexists. exists agent, p. rewrite !Hfirst, rr_first0. simpl. rewrite Hcas.
    split_and!; try done.
    + destruct Hst as [-> | ->]; auto.
    + simpl. destruct a; [by rewrite rr_generation0|done|done].
    + unfold response_of_agent, first_response. by rewrite Hv.
    + intros d' Hne. rewrite Hfirst. destruct (first_request d' (view db)) as [q|] eqn:E; [|done].
      simpl. apply first_request_Some in E as [_ E]. f_equal.
      destruct (request_cas _ _ _ _ _ q) eqn:Ec; [|done]. apply request_cas_true in Ec. naive_solver.
  - intros [= <- <-]. split; [done|].
    apply terminalize_settled in Hw as (row & Hrow & g & agent & p & ?).
    exists row, g, agent, p. naive_solver.
  - by intros [= <- <-].
Qed.

(** ** Lemmas: the whole operation *)

(** The attempts of [persist], one after the other. *)
Lemma persist_spec {A} (commits : A → bool) body (env : nat → AttemptEnv DB) db :
  ∃ n, (n <= 3)%nat /\
    let s := state_after (attempt_round commits body env) n (db, 0%nat) in
    persist commits body env db =
      run_attempt commits body (env n) (ae_interference (env n) s.1) /\
    (∀ i, (i < n)%nat -> is_ok (attempt_at (attempt_round commits body env) i (db, 0%nat)) = false) /\
    (is_ok (persist commits body env db).1 = false -> n = 3%nat).
Proof.
  unfold persist.
  pose proof (retry_terminal_from_spec (attempt_round commits body env) 0
                TERMINAL_PERSISTENCE_MAX_RETRIES
                (milliseconds TERMINAL_PERSISTENCE_INITIAL_BACKOFF_MS) (db, 0%nat)) as Hs.
  unfold retry_terminal_persistence_operation.
  destruct (retry_terminal_persistence_from _ _ _ _ _) as [[r sl] s'].
  destruct Hs as (n & Hn & Hr & Hst & Hall & Hex & _).
  exists n. split; [done|]. simpl.
  assert (Hidx : ∀ k s, snd (state_after (attempt_round commits body env) k s) = (k + s.2)%nat).
  { induction k as [|k IH]; intros s; [done|]. simpl. rewrite IH. unfold attempt_round.
    destruct s as [sdb si]. destruct (run_attempt _ _ _ _). simpl. lia. }
  assert (Hlast : ∀ k s, state_after (attempt_round commits body env) (S k) s =
            snd (attempt_round commits body env (state_after (attempt_round commits body env) k s))).
  { induction k as [|k IH]; intros s; [done|]. change (state_after ?o (S (S k)) s) with
      (state_after o (S k) (snd (o s))). by rewrite IH. }
  split_and!; [|done|].
  - rewrite Hst, Hlast. rewrite Hr. unfold attempt_at.
    pose proof (Hidx n (db, 0%nat)) as Hi. rewrite Nat.add_0_r in Hi.
    destruct (state_after _ n _) as [sdb si]. simpl in Hi. subst si. simpl.
    by destruct (run_attempt _ _ _ _).
  - intros Hf. apply Hex. by destruct r.
Qed.

(** A preorder that every attempt and every interference respects relates the
    store before and after the whole operation. *)
Lemma persist_rel {A} (R : DB → DB → Prop) (commits : A → bool) body (env : nat → AttemptEnv DB) db :
  (∀ x, R x x) -> (∀ x y z, R x y -> R y z -> R x z) ->
  (∀ n x, R x (ae_interference (env n) x)) ->
  (∀ now fs x a x' fs', body now (x, fs) = (Ok a, (x', fs')) -> commits a = true -> R x x') ->
  R db (snd (persist commits body env db)).
Proof.
  intros Hrefl Htrans Hint Hbody.
  assert (Hrun : ∀ n x, R x (snd (run_attempt commits body (env n) x))).
  { intros n x. unfold run_attempt. destruct (ae_begin _); [apply Hrefl|].
    destruct (body _ _) as [[a|e] [x' fs']] eqn:E; [|apply Hrefl].
    destruct (commits a) eqn:Ec; [|apply Hrefl].
    destruct (ae_commit _); simpl;
      first [apply Hrefl | exact (Hbody _ _ _ _ _ _ E Ec)]. }
  assert (Hstep : ∀ x n, R x (fst (snd (attempt_round commits body env (x, n))))).
  { intros x n. pose proof (Hrun n (ae_interference (env n) x)) as Hr. unfold attempt_round.
    destruct (run_attempt commits body (env n) _) as [r x']. simpl in *.
    eapply Htrans; [apply (Hint n)|exact Hr]. }
  assert (Hst : ∀ k x n, R x (fst (state_after (attempt_round commits body env) k (x, n)))).
  { induction k as [|k IH]; intros x n; [apply Hrefl|].
    change (state_after ?o (S k) ?s) with (state_after o k (snd (o s))).
    specialize (Hstep x n). destruct (snd (attempt_round _ _ _ _)) as [x' n']. simpl in Hstep.
    eapply Htrans; [exact Hstep|apply IH]. }
  destruct (persist_spec commits body env db) as (n & _ & -> & _).
  eapply Htrans; [apply (Hst n db 0%nat)|]. eapply Htrans; [apply Hint|apply Hrun].
Qed.

Lemma persist_Ok {A} (commits : A → bool) body (env : nat → AttemptEnv DB) db a db' :
  persist commits body env db = (Ok a, db') -> commits a = true ->
  ∃ n db0 fs', ae_begin (env n) = None /\ body (ae_now (env n)) (db0, ae_faults (env n)) = (Ok a, (db', fs')).
Proof.
  intros Hp Hc. destruct (persist_spec commits body env db) as (n & _ & Hn & _).
  rewrite Hp in Hn. symmetry in Hn. unfold run_attempt in Hn.
  destruct (ae_begin (env n)) eqn:Hb; [done|].
  destruct (body _ _) as [[v|err] [db1 fs1]] eqn:Hbody; [|done].
  destruct (commits v) eqn:Hcv; [|by injection Hn as ? ?; subst; congruence].
  destruct (ae_commit (env n)); try done. injection Hn as -> ->. eauto.
Qed.

Lemma terminal_refuses_writes f m k now db fs row st :
  first_request (fence_request_doc_id f) (view db) = Some row ->
  r_state row = Some st -> is_terminal st = true ->
  is_ok (fst (response_write_attempt f m k now (db, fs))) = false.
Proof.
  intros Hrow Hst Ht. destruct (response_write_attempt _ _ _ _ _) as [[ids|] [db' fs']] eqn:E; [|done].
  apply response_write_Ok in E
    as (row' & st' & g & e & seq & dl & input & l' & [] & Hauth & _).
  apply authorize_live_spec in Hauth as (_ & _ & Hp & _). unfold active_pair in Hp. simpl in Hp.
  rewrite Hrow in rr_first0. injection rr_first0 as <-. rewrite Hst in rr_state0.
  injection rr_state0 as <-. destruct Hp as [[-> _]|[-> _]]; discriminate.
Qed.

Lemma terminal_refuses_terminalization d a out reason fresh now db fs row st :
  first_request d (view db) = Some row -> r_state row = Some st -> is_terminal st = true ->
  fst (terminalize_attempt d a out reason fresh now (db, fs)) <> Ok Won.
Proof.
  intros Hrow Hst Ht Hw.
  destruct (terminalize_attempt _ _ _ _ _ _ _) as [r [db' fs']] eqn:E. simpl in Hw. subst r.
  apply terminalize_settled in E as (row' & Hrow' & st' & Hst' & Ht'). congruence.
Qed.

(** An attempt with no storage fault at all. *)
Lemma query_quiet {A} (q : Collections → A) db :
  query q (db, []) = (Ok (q (view db)), (db, [])).
Proof. done. Qed.

Lemma owner_resubmission d g out reason fresh now db fs db1 fs1 now' fresh' :
  terminalize_attempt d (Owner g) out reason fresh now (db, fs) = (Ok Won, (db1, fs1)) ->
  terminalize_attempt d (Owner g) out reason fresh' now' (db1, []) = (Ok AlreadySame, (db1, [])).
Proof.
  intros Hw. apply terminalize_Won in Hw
    as (row & st & g' & x & seq & dl & agent & session & m & ids & l' &
        Hrow & Hagent & _ & Hst & Hauth & _ & Hm & _ & Hafter & Hv).
  pose proof (first_request_update d _ _ (view db) (view db1)
                (finish_request_ident _ _ _ _) (ltac:(by rewrite Hv))) as Hfirst.
  destruct (terminal_response_after _ _ _ _ _ _ _ _ _ _ _ Hm Hafter) as (p & Hp & Hps).
  pose proof (running_row_cas _ _ _ _ _ _ _ _ Hrow) as Hcas. destruct Hrow.
  rewrite rr_first0 in Hfirst. simpl in Hfirst. rewrite Hcas in Hfirst.
  assert (Hresp : response_of_agent d agent (view db1) = Some p).
  { unfold response_of_agent, first_response. by rewrite Hv. }
  simpl in Hauth. injection Hauth as Hauth. apply authorize_live_spec in Hauth as (Hg & _).
  simpl in Hg. subst g'.
  unfold terminalize_attempt, txn_bind. rewrite query_quiet, Hfirst. simpl.
  unfold txn_lift, with_context. simpl. rewrite Hagent. simpl.
  fold (response_of_agent d agent (view db1)). rewrite Hresp. simpl.
  rewrite request_state_terminal. unfold txn_ret.
  assert (effective_outcome out (finish_request (request_state (effective_outcome out row)) g
            (to_rfc3339 now) reason row) = effective_outcome out row) as -> by done.
  rewrite str_eqb_refl, Hps, str_eqb_refl. unfold state_eqb.
  by rewrite bool_decide_true.
Qed.

(** A terminal request is closed to everyone and safe to retry: no fenced
    write of any generation succeeds against it and no further terminalization
    wins; and an owner whose winning commit was reported as a failure finds its
    own outcome on the next fault-free attempt, so the whole operation returns
    [AlreadySame] and leaves the store as the first attempt committed it. *)
Theorem terminal_is_closed_and_idempotent d g out reason fresh env db err db1 fs1 :
  ae_interference (env 0%nat) db = db -> ae_begin (env 0%nat) = None ->
  ae_commit (env 0%nat) = Ambiguous err ->
  terminalize_attempt d (Owner g) out reason fresh (ae_now (env 0%nat))
    (db, ae_faults (env 0%nat)) = (Ok Won, (db1, fs1)) ->
  ae_interference (env 1%nat) db1 = db1 -> ae_begin (env 1%nat) = None ->
  ae_faults (env 1%nat) = [] ->
  terminalize_execution d (Owner g) out reason fresh env db = (Ok AlreadySame, db1) /\
  (∀ a out' reason' fresh' now fs,
     fst (terminalize_attempt d a out' reason' fresh' now (db1, fs)) <> Ok Won) /\
  (∀ f m k now fs, fence_request_doc_id f = d ->
     is_ok (fst (response_write_attempt f m k now (db1, fs))) = false).
Proof.
  intros Hi0 Hb0 Hc0 Hw Hi1 Hb1 Hf1. split.
  - set (body := terminalize_attempt d (Owner g) out reason fresh).
    assert (H0' : attempt_round is_won body env (db, 0%nat) = (Err err, (db1, 1%nat))).
    { unfold attempt_round, run_attempt. rewrite Hi0, Hb0. unfold body. rewrite Hw. simpl.
      by rewrite Hc0. }
    assert (H1' : attempt_round is_won body env (db1, 1%nat) = (Ok AlreadySame, (db1, 2%nat))).
    { unfold attempt_round, run_attempt. rewrite Hi1, Hb1, Hf1. unfold body.
      pose proof (owner_resubmission _ _ _ _ _ _ _ _ _ _ (ae_now (env 1%nat)) fresh Hw) as Hre.
      unfold Faults in *. by rewrite Hre. }
    unfold terminalize_execution, persist, retry_terminal_persistence_operation,
      TERMINAL_PERSISTENCE_MAX_RETRIES. fold body.
    cbn [retry_terminal_persistence_from]. by rewrite H0', H1'.
  - apply terminalize_Won in Hw
      as (row & st & g' & x & seq & dl & agent & session & m & ids & l' & Hrow & _ & _ & _ & _ & _ &
          _ & _ & _ & Hv).
    pose proof (first_request_update d _ _ (view db) (view db1)
                  (finish_request_ident _ _ _ _) (ltac:(by rewrite Hv))) as Hfirst.
    pose proof (running_row_cas _ _ _ _ _ _ _ _ Hrow) as Hcas. destruct Hrow.
    rewrite rr_first0 in Hfirst. simpl in Hfirst. rewrite Hcas in Hfirst.
    split; intros.
    + eapply terminal_refuses_terminalization; [exact Hfirst|done|apply request_state_terminal].
    + subst d. eapply terminal_refuses_writes; [exact Hfirst|done|apply request_state_terminal].
Qed.

Lemma filter_nonempty {A} (p : A → bool) l a :
  a ∈ l -> p a = true -> Nat.eqb (length (List.filter p l)) 0 = false.
Proof.
  intros Ha Hp. destruct (List.filter p l) eqn:E; [|done].
  assert (a ∈ List.filter p l) as Hin.
  { apply list_elem_of_In, List.filter_In. by rewrite <- list_elem_of_In. }
  rewrite E in Hin. by apply elem_of_nil in Hin.
Qed.

(** The response a terminal write meets lets it through. *)
Definition response_admits (c : Collections) (d agent request_id : str)
    (o : RequestTerminalOutcome) : Prop :=
  match response_of_agent d agent c with
  | Some p => is_streaming p = true \/ p_status p = response_status o
  | None => request_id ∉ response_keys c
  end.

Lemma terminal_response_runs a row d agent session reason ts o c db :
  view db = c -> ri_session_id (r_ident row) = Some session ->
  response_admits c d agent (ri_request_id (r_ident row)) o ->
  ∃ m ids db', terminal_response_mutation a row d agent reason ts o (response_of_agent d agent c)
                 = Ok m /\ run_response m db = Some (db', ids) /\ ids <> [].
Proof.
  intros Hc Hsess Hadm. unfold response_admits in Hadm. unfold terminal_response_mutation.
  destruct (response_of_agent d agent c) as [p|] eqn:E.
  - eexists. destruct (view_update_response
      (λ q, str_eqb (p_doc_id q) (p_doc_id p) && str_eqb (p_status q) (p_status p))
      (finish_response
        (if is_recovery a && is_streaming p && negb (outcome_eqb o O_Completed)
         then Some (recovered_content (p_content p) reason) else None)
        (response_status o) reason ts
        (if outcome_eqb o O_Interrupted
         then Some (unwrap_or ts (opt_filter (λ v, negb (str_eqb v [])) (p_interrupted_at p)))
         else None)) db) as (db' & Hrun & _).
    do 2 eexists. split_and!; [done|exact Hrun|].
    unfold response_of_agent, first_response in E. apply List.find_some in E as [Hin _].
    rewrite <- list_elem_of_In, <- Hc in Hin.
    assert (Hself : (λ q, str_eqb (p_doc_id q) (p_doc_id p)
                          && str_eqb (p_status q) (p_status p)) p = true)
      by (cbv beta; by rewrite !str_eqb_refl).
    pose proof (filter_nonempty _ _ _ Hin Hself) as Hlen.
    intros Hnil. apply (f_equal length) in Hnil. rewrite length_fmap in Hnil.
    apply Nat.eqb_neq in Hlen. by rewrite Hnil in Hlen.
  - rewrite Hsess. simpl. eexists.
    pose proof (view_create_response (terminal_response row d agent session reason
      (response_status o) ts
      (if outcome_eqb o O_Interrupted then Some (unwrap_or ts None) else None)) db) as Hcr.
    rewrite bool_decide_false in Hcr by (by rewrite Hc).
    destruct Hcr as (db' & id & Hrun & _). do 2 eexists. split_and!; [done|exact Hrun|done].
Qed.

Lemma authorized_attempt_wins d a out reason fresh now db row st g e seq dl agent session :
  RunningRow d (view db) row st g e seq dl -> st = Claimed \/ st = Processing ->
  ri_agent_did (r_ident row) = Some agent -> ri_session_id (r_ident row) = Some session ->
  authorize_terminal a
    {| ob_request := st; ob_response_streaming := is_streaming <$> response_of_agent d agent (view db);
       ob_generation := g; ob_deadline := timestamp_millis dl; ob_progress_seq := seq |}
    st g e seq dl now fresh (effective_outcome out row) = Ok true ->
  response_admits (view db) d agent (ri_request_id (r_ident row)) (effective_outcome out row) ->
  ∃ db', terminalize_attempt d a out reason fresh now (db, []) = (Ok Won, (db', [])).
Proof.
  intros Hrow Hst Hagent Hsess Hauth Hadm. pose proof (running_row_cas _ _ _ _ _ _ _ _ Hrow) as Hcas.
  assert (Hterm : is_terminal st = false) by (by destruct Hst as [-> | ->]).
  destruct Hrow.
  set (o := effective_outcome out row) in *.
  set (db1 := update_request (request_cas d st g e seq)
                (finish_request (request_state o) (match a with Owner _ => g | _ => fresh end)
                   (to_rfc3339 now) reason) db).
  destruct (terminal_response_runs a row d agent session reason (to_rfc3339 now) o
              (view db1) db1) as (m & ids & db2 & Hm & Hrun & Hids); [done|done| |].
  { unfold response_admits, response_of_agent, response_keys, first_response, db1.
    by rewrite view_update_request. }
  assert (Hm' : response_of_agent d agent (view db1) = response_of_agent d agent (view db)).
  { unfold response_of_agent, first_response, db1. by rewrite view_update_request. }
  rewrite Hm' in Hm.
  eexists. unfold terminalize_attempt, txn_bind. rewrite query_quiet, rr_first0. simpl.
  unfold txn_lift, with_context. rewrite rr_generation0. simpl. rewrite Hagent. simpl.
  fold (response_of_agent d agent (view db)). rewrite rr_state0. simpl. rewrite Hterm.
  rewrite rr_expiry0. simpl. unfold parse_rfc3339 at 1. rewrite rr_deadline0. rewrite rr_progress0. simpl.
  rewrite (proj2 (try_u64_Ok seq seq) (conj eq_refl rr_range0)). fold o. rewrite Hauth. simpl.
  assert (is_some_and (λ p, negb (is_streaming p) && negb (str_eqb (p_status p) (response_status o)))
            (response_of_agent d agent (view db)) = false) as ->.
  { unfold response_admits in Hadm. destruct (response_of_agent _ _ _) as [p|]; [|done]. simpl.
    destruct Hadm as [-> | ->]; [done|]. rewrite str_eqb_refl. apply andb_false_r. }
  unfold mutate_request at 1, execute at 1. rewrite length_fmap.
  rewrite (filter_nonempty _ _ row);
    [|by apply first_request_Some in rr_first0 as [? _]|exact Hcas].
  rewrite Hm. unfold mutate_response, execute. fold db1. rewrite Hrun. simpl.
  rewrite (proj2 (ids_nonempty ids) Hids). simpl. rewrite Hsess. done.
Qed.

(** C7. Recovery is neither early nor blocked.  On a claimed or processing row it
    observed exactly, with a response that is streaming, already in the target
    status or absent, a fault-free recovery wins precisely when the lease has
    passed: before that it changes nothing, and after it the request is settled
    however its owner died. *)
Theorem recovery_wins_iff_expired d out reason fresh now db row st g e seq dl agent session :
  RunningRow d (view db) row st g e seq dl -> st = Claimed \/ st = Processing ->
  ri_agent_did (r_ident row) = Some agent -> ri_session_id (r_ident row) = Some session ->
  response_admits (view db) d agent (ri_request_id (r_ident row)) (effective_outcome out row) ->
  (dl < now -> ∃ db', terminalize_attempt d (Recovery g e seq) out reason fresh now (db, [])
                      = (Ok Won, (db', []))) /\
  (now <= dl -> ∀ fs, fst (terminalize_attempt d (Recovery g e seq) out reason fresh now (db, fs))
                      <> Ok Won).
Proof.
  intros Hrow Hst Hagent Hsess Hadm. split.
  - intros Hlt. eapply authorized_attempt_wins; try eassumption. simpl.
    rewrite !str_eqb_refl, Z.eqb_refl, (proj2 (Z.ltb_lt dl now) Hlt). simpl.
    by destruct Hst as [-> | ->].
  - intros Hge fs Hw.
    destruct (terminalize_attempt _ _ _ _ _ _ _) as [r [db' fs']] eqn:E. simpl in Hw. subst r.
    apply terminalize_Won in E
      as (row' & st' & g' & e' & seq' & dl' & agent' & session' & m & ids & l' & Hrow' & _ & _ & _ & Ha & _).
    simpl in Ha. injection Ha as Ha. bool_prop. eqb_prop.
    pose proof (rr_first _ _ _ _ _ _ _ _ Hrow). pose proof (rr_first _ _ _ _ _ _ _ _ Hrow').
    destruct Hrow, Hrow'. simplify_eq. assert (dl = dl') by congruence. lia.
Qed.
End lease_lemmas.

(** ** Witnesses

    A concrete store: one request processing under generation [g1] whose lease
    ends at 5 ms, with its streaming response, and a clock that spells an instant
    as itself. *)

Definition demo_chrono : Chrono :=
  {| parse_from_rfc3339 s := match s with [t] => Ok t | _ => Err (lit "invalid") end;
     to_rfc3339 t := [t] |}.
Definition demo_chrono_laws : @ChronoLaws demo_chrono.
Proof. by split. Defined.

Definition demo_ident : RequestIdent :=
  {| ri_doc_id := lit "d1"; ri_request_id := lit "r1"; ri_agent_did := Some (lit "did:a");
     ri_requester_did := None; ri_behavior_id := None; ri_session_id := Some (lit "s1");
     ri_created_at := Some (lit "t0"); ri_metadata := None; ri_content := lit "hello";
     ri_trigger_id := None; ri_trigger_kind := None; ri_correlation := None; ri_retry_key := None; ri_workspace_id := None;
     ri_parent_request_id := None; ri_trigger_context := None |}.
Definition demo_request (st : RequestLifecycleState) : RequestRow :=
  {| r_ident := demo_ident; r_state := Some st; r_generation := Some (lit "g1");
     r_expiry := Some [5000000]; r_progress := Some 4; r_interrupt := None;
     r_valid_until := None; r_deadline := None; r_backend := None; r_claimed_at := None;
     r_failure := None; r_terminalized_at := None; r_redrive := None; r_bg_seq := None;
     r_bg_keys := None |}.
Definition demo_response : ResponseRow :=
  {| p_doc_id := lit "p1";
     p_ident := {| pi_response_key := lit "r1"; pi_request_id := lit "r1";
                   pi_request_doc_id := lit "d1"; pi_agent_did := lit "did:a";
                   pi_requester_did := None; pi_behavior_id := []; pi_session_id := lit "s1";
                   pi_created_at := lit "t0" |};
     p_content := lit "partial"; p_reasoning := []; p_status := streaming;
     p_error_message := []; p_token_count := 1; p_progress_seq := 0; p_reasoning_seq := Some 0;
     p_completed_at := []; p_interrupted_at := None |}.
Definition demo_db : Collections :=
  {| requests := [demo_request Processing]; responses := [demo_response]; sessions := [];
     conversations := []; messages := [] |}.
Definition demo_fence : ExecutionWriteFence :=
  {| fence_request_doc_id := lit "d1"; fence_execution_generation := lit "g1";
     fence_lease_duration_secs := 60 |}.
Definition demo_env (c : CommitResult) (now : Z) : AttemptEnv Collections :=
  {| ae_interference db := db; ae_begin := None; ae_now := now; ae_faults := [];
     ae_commit := c |}.

Lemma fenced_write_renews_lease_witness :
  let m := update_AgentResponse (λ p, str_eqb (p_doc_id p) (lit "p1")) (set_p_progress_seq 1) in
  let w := @response_write_attempt Collections _ demo_chrono demo_fence m W_Progress 3000000
             (demo_db, []) in
  ∃ row', first_request (lit "d1") (view (snd w).1) = Some row' /\ r_progress row' = Some 5.
Proof.
  intros m w.
  assert (Hw : w = (Ok [lit "p1"], snd w)) by (vm_compute; reflexivity).
  destruct (snd w) as [db' fs'] eqn:E. unfold w in Hw.
  destruct (@fenced_write_renews_lease Collections _ memory_store_laws demo_chrono
    demo_chrono_laws demo_fence m W_Progress 3000000 demo_db [] [lit "p1"] db' fs' Hw)
    as (row & st & g & e & seq & dl & row' & Hrow & _ & _ & Hfirst & _ & _ & _ & _ & Hseq & _).
  exists row'. split; [exact Hfirst|]. rewrite Hseq.
  assert (Hs : seq = 4).
  { pose proof (rr_first _ _ _ _ _ _ _ _ Hrow) as Hf. pose proof (rr_progress _ _ _ _ _ _ _ _ Hrow) as Hp.
    vm_compute in Hf. injection Hf as <-. vm_compute in Hp. congruence. }
  by rewrite Hs.
Defined.

Lemma terminalization_is_atomic_witness :
  let r := @run_attempt Collections TerminalizeResult is_won
             (@terminalize_attempt Collections _ demo_chrono (lit "d1") (Owner (lit "g1")) O_Completed
                [] (lit "g2")) (demo_env Committed 3000000) demo_db in
  ∃ row', first_request (lit "d1") (view (snd r)) = Some row' /\ r_state row' = Some Completed.
Proof.
  intros r.
  assert (Hr : fst r = Ok Won) by (vm_compute; reflexivity).
  pose proof (@terminalization_is_atomic Collections _ memory_store_laws demo_chrono (lit "d1")
    (Owner (lit "g1")) O_Completed [] (lit "g2") (demo_env Committed 3000000) demo_db (fst r) (snd r)
    (surjective_pairing r)) as Ht.
  rewrite Hr in Ht. destruct Ht as (row & row' & agent & p & Hrow & _ & Hrow' & Hst & _).
  exists row'. split; [exact Hrow'|]. rewrite Hst.
  vm_compute in Hrow. injection Hrow as <-. reflexivity.
Defined.

Lemma terminal_is_closed_and_idempotent_witness :
  let env n := match n with O => demo_env (Ambiguous (Msg [])) 3000000
                          | S _ => demo_env Committed 4000000 end in
  fst (@terminalize_execution Collections _ demo_chrono (lit "d1") (Owner (lit "g1")) O_Failed
         (lit "boom") (lit "g2") env demo_db) = Ok AlreadySame.
Proof.
  intros env.
  pose (w := @terminalize_attempt Collections _ demo_chrono (lit "d1") (Owner (lit "g1")) O_Failed
               (lit "boom") (lit "g2") 3000000 (demo_db, [])).
  assert (Hw : w = (Ok Won, snd w)) by (vm_compute; reflexivity).
  destruct (snd w) as [db1 fs1] eqn:E. unfold w in Hw.
  rewrite (proj1 (@terminal_is_closed_and_idempotent Collections _ memory_store_laws demo_chrono
    (lit "d1") (lit "g1") O_Failed (lit "boom") (lit "g2") env demo_db (Msg []) db1 fs1
    eq_refl eq_refl eq_refl Hw eq_refl eq_refl eq_refl)).
  reflexivity.
Defined.

Lemma recovery_wins_iff_expired_witness :
  (∃ db', @terminalize_attempt Collections _ demo_chrono (lit "d1")
            (Recovery (lit "g1") [5000000] 4) O_Failed (lit "restart") (lit "g2") 5000001
            (demo_db, []) = (Ok Won, (db', []))) /\
  fst (@terminalize_attempt Collections _ demo_chrono (lit "d1")
         (Recovery (lit "g1") [5000000] 4) O_Failed (lit "restart") (lit "g2") 5000000
         (demo_db, [])) <> Ok Won.
Proof.
  assert (Hrow : @RunningRow demo_chrono (lit "d1") (view demo_db) (demo_request Processing) Processing
                   (lit "g1") [5000000] 4 5000000)
    by (split; try reflexivity; vm_compute; split; discriminate).
  assert (Hadm : response_admits (view demo_db) (lit "d1") (lit "did:a") (lit "r1") O_Failed)
    by (left; vm_compute; reflexivity).
  split.
  - apply (@recovery_wins_iff_expired Collections _ memory_store_laws demo_chrono (lit "d1") O_Failed
      (lit "restart") (lit "g2") 5000001 demo_db _ _ _ _ _ _ (lit "did:a") (lit "s1")
      Hrow (or_intror eq_refl) eq_refl eq_refl Hadm). lia.
  - apply (@recovery_wins_iff_expired Collections _ memory_store_laws demo_chrono (lit "d1") O_Failed
      (lit "restart") (lit "g2") 5000000 demo_db _ _ _ _ _ _ (lit "did:a") (lit "s1")
      Hrow (or_intror eq_refl) eq_refl eq_refl Hadm). lia.
Defined.
