(* ===== verification/Streaming.v ===== *)
(** * The response stream writer

    [streaming.rs] and [streaming/queries.rs]: the per-response buffers that
    batch provider tokens and reasoning, and flush them through the execution
    fence.  Every durable write of the writer is an [execute_response_write] of
    its buffer's lease.

    An operation takes the writer and the store, the attempts its fenced write
    meets ([env]), the monotonic clock ([instant]) and the storage error of the
    read it makes outside the transaction, if any. *)

From S2P Require Import Prelude RustStr RequestState Retry Store ExecutionLease.

Definition MAX_LIVE_REASONING_BYTES : Z := 64 * 1024.

Record StreamBufferSnapshot : Type := {
  sn_content : str; sn_reasoning : str; sn_token_count : Z; sn_reasoning_progress_seq : Z
}.
#[global] Instance StreamBufferSnapshot_eq_dec : EqDecision StreamBufferSnapshot.
Proof. solve_decision. Defined.

Definition default_snapshot : StreamBufferSnapshot :=
  {| sn_content := []; sn_reasoning := []; sn_token_count := 0; sn_reasoning_progress_seq := 0 |}.

Record StreamBuffer : Type := {
  b_content : str;
  b_reasoning : str;
  b_token_count : Z;
  b_reasoning_progress_seq : Z;
  b_last_flush_at : Z;
  b_persisted : StreamBufferSnapshot;
  b_lease : ExecutionWriteFence
}.

Record DefraStreamWriter : Type := {
  w_agent_did : str;
  w_batch_interval : Z;
  w_buffers : gmap str StreamBuffer
}.

Definition set_buffers (bs : gmap str StreamBuffer) (w : DefraStreamWriter) : DefraStreamWriter :=
  {| w_agent_did := w_agent_did w; w_batch_interval := w_batch_interval w; w_buffers := bs |}.
Definition put_buffer (doc_id : str) (b : StreamBuffer) (w : DefraStreamWriter) : DefraStreamWriter :=
  set_buffers (<[doc_id := b]> (w_buffers w)) w.

Definition new_writer (agent_did : str) (batch_interval : Z) : DefraStreamWriter :=
  {| w_agent_did := agent_did; w_batch_interval := batch_interval; w_buffers := ∅ |}.

(** ** The live reasoning preview *)

(** Drop [n] bytes, then on to the next character boundary. *)
Fixpoint drop_bytes (n : Z) (s : str) : str :=
  if n <=? 0 then s
  else match s with
       | [] => []
       | c :: s' => drop_bytes (n - utf8_width c) s'
       end.

Definition trim_string_to_tail_bytes (buffer : str) (max_bytes : Z) : str :=
  if str_len buffer <=? max_bytes then buffer
  else drop_bytes (str_len buffer - max_bytes) buffer.

Definition tail_window (value : str) (max_bytes : Z) : str :=
  if str_len value <=? max_bytes then value
  else drop_bytes (str_len value - max_bytes) value.

Definition append_live_reasoning_preview (buffer reasoning : str) : str :=
  if MAX_LIVE_REASONING_BYTES <=? str_len reasoning
  then tail_window reasoning MAX_LIVE_REASONING_BYTES
  else trim_string_to_tail_bytes buffer (MAX_LIVE_REASONING_BYTES - str_len reasoning)
       ++ reasoning.

(** ** Reads outside a transaction *)

Section writer.
Context {DB : Type} `{DocStore DB} `{Chrono}.

Definition read {A} (fault : option Error) (q : Collections → A) (db : DB) : result Error A :=
  match fault with Some e => Err e | None => Ok (q (view db)) end.

Definition load_response_state (fault : option Error) (doc_id : str) (db : DB)
    : result Error (option ResponseRow) :=
  read fault (first_response (λ p, str_eqb (p_doc_id p) doc_id)) db.

Definition load_response_state_by_key (fault : option Error) (response_key : str) (db : DB)
    : result Error (option ResponseRow) :=
  read fault (first_response (λ p, str_eqb (pi_response_key (p_ident p)) response_key)) db.

(** ** Snapshots *)

Definition no_buffer (doc_id : str) : Error := Msg (lit "no buffer for doc_id=" ++ doc_id).

Definition snapshot_of (b : StreamBuffer) : StreamBufferSnapshot :=
  {| sn_content := b_content b; sn_reasoning := b_reasoning b;
     sn_token_count := b_token_count b;
     sn_reasoning_progress_seq := b_reasoning_progress_seq b |}.

Definition pending_snapshot (w : DefraStreamWriter) (instant : Z) (doc_id : str) (force : bool)
    : result Error (option StreamBufferSnapshot) :=
  match w_buffers w !! doc_id with
  | None => Err (no_buffer doc_id)
  | Some buf =>
      if negb force && (instant - b_last_flush_at buf <? w_batch_interval w) then Ok None
      else let snapshot := snapshot_of buf in
           Ok (if bool_decide (snapshot <> b_persisted buf) then Some snapshot else None)
  end.

(** The update a flush writes, guarded by the streaming status. *)
Definition is_live (doc_id : str) (p : ResponseRow) : bool :=
  str_eqb (p_doc_id p) doc_id && is_streaming p.

Definition write_snapshot (s : StreamBufferSnapshot) (p : ResponseRow) : ResponseRow :=
  set_p_reasoning_seq (Some (sn_reasoning_progress_seq s))
    (set_p_token_count (sn_token_count s)
      (set_p_reasoning (sn_reasoning s) (set_p_content (sn_content s) p))).

Definition status_or_missing (r : result Error (option ResponseRow)) (pre : str) : Error :=
  match r with
  | Err e => e
  | Ok o => Msg (pre ++ match o with Some p => p_status p | None => lit "missing" end)
  end.

Definition flush_snapshot (w : DefraStreamWriter) (instant : Z) (doc_id : str)
    (env : nat → AttemptEnv DB) (fault : option Error) (db : DB)
    : result Error bool * DefraStreamWriter * DB :=
  match pending_snapshot w instant doc_id true with
  | Err e => (Err e, w, db)
  | Ok None => (Ok false, w, db)
  | Ok (Some snapshot) =>
      match w_buffers w !! doc_id with
      | None => (Err (no_buffer doc_id), w, db)
      | Some buffer =>
          let '(r, db') := execute_response_write (b_lease buffer)
                             (update_AgentResponse (is_live doc_id) (write_snapshot snapshot))
                             W_Progress env db in
          match r with
          | Err e => (Err e, w, db')
          | Ok ids =>
              if Nat.eqb (length ids) 0 then
                (Err (status_or_missing (load_response_state fault doc_id db')
                        (lit "cannot write streaming state to AgentResponse " ++ doc_id
                         ++ lit " because it is ")), w, db')
              else
                (Ok true,
                 put_buffer doc_id
                   {| b_content := b_content buffer; b_reasoning := b_reasoning buffer;
                      b_token_count := b_token_count buffer;
                      b_reasoning_progress_seq := b_reasoning_progress_seq buffer;
                      b_last_flush_at := instant; b_persisted := snapshot;
                      b_lease := b_lease buffer |} w, db')
          end
      end
  end.

Definition discard_buffer (doc_id : str) (w : DefraStreamWriter) : DefraStreamWriter :=
  set_buffers (delete doc_id (w_buffers w)) w.

Definition flush_pending (w : DefraStreamWriter) (instant : Z) (doc_id : str)
    (env : nat → AttemptEnv DB) (fault : option Error) (db : DB)
    : result Error bool * DefraStreamWriter * DB :=
  match pending_snapshot w instant doc_id true with
  | Err e => (Err e, w, db)
  | Ok None => (Ok false, w, db)
  | Ok (Some _) => flush_snapshot w instant doc_id env fault db
  end.

Definition write_tokens (w : DefraStreamWriter) (instant : Z) (doc_id tokens : str)
    (env : nat → AttemptEnv DB) (fault : option Error) (db : DB)
    : result Error bool * DefraStreamWriter * DB :=
  if str_eqb tokens [] then (Ok false, w, db)
  else match w_buffers w !! doc_id with
  | None => (Err (no_buffer doc_id), w, db)
  | Some buf =>
      let w := put_buffer doc_id
        {| b_content := b_content buf ++ tokens; b_reasoning := b_reasoning buf;
           b_token_count := b_token_count buf + Z.of_nat (length (split_whitespace tokens));
           b_reasoning_progress_seq := b_reasoning_progress_seq buf;
           b_last_flush_at := b_last_flush_at buf; b_persisted := b_persisted buf;
           b_lease := b_lease buf |} w in
      match pending_snapshot w instant doc_id false with
      | Err e => (Err e, w, db)
      | Ok None => (Ok false, w, db)
      | Ok (Some _) => flush_snapshot w instant doc_id env fault db
      end
  end.

Definition write_reasoning (w : DefraStreamWriter) (instant : Z) (doc_id reasoning : str)
    (env : nat → AttemptEnv DB) (fault : option Error) (db : DB)
    : result Error bool * DefraStreamWriter * DB :=
  if str_eqb reasoning [] then (Ok false, w, db)
  else match w_buffers w !! doc_id with
  | None => (Err (no_buffer doc_id), w, db)
  | Some buf =>
      let w := put_buffer doc_id
        {| b_content := b_content buf;
           b_reasoning := append_live_reasoning_preview (b_reasoning buf) reasoning;
           b_token_count := b_token_count buf;
           b_reasoning_progress_seq := saturating_add usize_max (b_reasoning_progress_seq buf) 1;
           b_last_flush_at := b_last_flush_at buf; b_persisted := b_persisted buf;
           b_lease := b_lease buf |} w in
      match pending_snapshot w instant doc_id false with
      | Err e => (Err e, w, db)
      | Ok None => (Ok false, w, db)
      | Ok (Some _) => flush_snapshot w instant doc_id env fault db
      end
  end.

Definition is_empty (s : str) : bool := str_eqb s [].

Definition reset_tail (w : DefraStreamWriter) (instant : Z) (doc_id : str)
    (env : nat → AttemptEnv DB) (fault : option Error) (db : DB)
    : result Error unit * DefraStreamWriter * DB :=
  match w_buffers w !! doc_id with
  | None => (Err (no_buffer doc_id), w, db)
  | Some buf =>
      if is_empty (b_content buf) && is_empty (b_reasoning buf)
         && is_empty (sn_content (b_persisted buf)) && is_empty (sn_reasoning (b_persisted buf))
      then (Ok tt, w, db)
      else
        let cleared := {| sn_content := []; sn_reasoning := [];
                          sn_token_count := b_token_count buf;
                          sn_reasoning_progress_seq := b_reasoning_progress_seq buf |} in
        let '(r, db') := execute_response_write (b_lease buf)
                           (update_AgentResponse (is_live doc_id) (write_snapshot cleared))
                           W_Observe env db in
        match r with
        | Err e => (Err e, w, db')
        | Ok ids =>
            if Nat.eqb (length ids) 0 then
              (Err (status_or_missing (load_response_state fault doc_id db')
                      (lit "cannot reset tail of AgentResponse " ++ doc_id
                       ++ lit " because it is ")), w, db')
            else
              (Ok tt,
               put_buffer doc_id
                 {| b_content := []; b_reasoning := []; b_token_count := b_token_count buf;
                    b_reasoning_progress_seq := b_reasoning_progress_seq buf;
                    b_last_flush_at := instant; b_persisted := cleared;
                    b_lease := b_lease buf |} w, db')
        end
  end.

Definition set_error_message (w : DefraStreamWriter) (doc_id error_message : str)
    (env : nat → AttemptEnv DB) (db : DB) : result Error unit * DB :=
  match w_buffers w !! doc_id with
  | None => (Err (no_buffer doc_id), db)
  | Some buf =>
      let '(r, db') := execute_response_write (b_lease buf)
                         (update_AgentResponse (λ p, str_eqb (p_doc_id p) doc_id)
                            (set_p_error_message error_message)) W_Observe env db in
      (match r with
       | Ok _ => Ok tt
       | Err e => Err (Msg (lit "updating AgentResponse error_message for doc_id=" ++ doc_id
                            ++ lit ": " ++ error_to_string e))
       end, db')
  end.

Definition write_interrupted_at (w : DefraStreamWriter) (doc_id at_ : str)
    (env : nat → AttemptEnv DB) (fault : option Error) (db : DB) : result Error bool * DB :=
  match load_response_state fault doc_id db with
  | Err e => (Err e, db)
  | Ok None => (Ok false, db)
  | Ok (Some current) =>
      if negb (is_streaming current)
         || is_some_and (λ v, negb (str_eqb v [])) (p_interrupted_at current)
      then (Ok false, db)
      else match w_buffers w !! doc_id with
           | None => (Err (no_buffer doc_id), db)
           | Some buf =>
               let '(r, db') := execute_response_write (b_lease buf)
                                  (update_AgentResponse (is_live doc_id)
                                     (set_p_interrupted_at (Some at_))) W_Observe env db in
               (match r with
                | Ok ids => Ok (negb (Nat.eqb (length ids) 0))
                | Err e => Err e
                end, db')
           end
  end.

(** The response document [begin_inner] creates. *)
Definition begun_response (agent_did session_id request_id request_doc_id behavior_id : str)
    (requester_did : option str) (now : str) : ResponseRow :=
  {| p_doc_id := [];
     p_ident := {| pi_response_key := request_id; pi_request_id := request_id;
                   pi_request_doc_id := request_doc_id; pi_agent_did := agent_did;
                   pi_requester_did := requester_did_create_field requester_did;
                   pi_behavior_id := behavior_id; pi_session_id := session_id;
                   pi_created_at := now |};
     p_content := []; p_reasoning := []; p_status := streaming; p_error_message := [];
     p_token_count := 0; p_progress_seq := 0; p_reasoning_seq := Some 0;
     p_completed_at := []; p_interrupted_at := None |}.

(** [now] is the wall clock [begin_inner] stamps the document with. *)
Definition begin_inner (w : DefraStreamWriter) (instant now : Z)
    (session_id request_id request_doc_id behavior_id : str) (requester_did : option str)
    (lease : ExecutionWriteFence) (env : nat → AttemptEnv DB) (fault : option Error) (db : DB)
    : result Error str * DefraStreamWriter * DB :=
  match load_response_state_by_key fault request_id db with
  | Err e => (Err e, w, db)
  | Ok (Some existing) =>
      (Err (Msg (lit "refusing to begin response for request_id=" ++ request_id
                 ++ lit " because AgentResponse " ++ p_doc_id existing
                 ++ lit " already exists with status=" ++ p_status existing)), w, db)
  | Ok None =>
      let '(r, db') := execute_response_write lease
                         (create_AgentResponse
                            (begun_response (w_agent_did w) session_id request_id request_doc_id
                               behavior_id requester_did (to_rfc3339 now)))
                         W_Begin env db in
      match r with
      | Err e => (Err (Msg (lit "creating AgentResponse failed: " ++ error_to_string e)), w, db')
      | Ok ids =>
          match ids with
          | [] => (Err (Msg (lit "create_AgentResponse returned no _docID")), w, db')
          | doc_id :: _ =>
              (Ok doc_id,
               put_buffer doc_id
                 {| b_content := []; b_reasoning := []; b_token_count := 0;
                    b_reasoning_progress_seq := 0; b_last_flush_at := instant;
                    b_persisted := default_snapshot; b_lease := lease |} w, db')
          end
      end
  end.

Definition begin_owned_response (w : DefraStreamWriter) (instant now : Z)
    (session_id request_id request_doc_id behavior_id : str) (requester_did : option str)
    (execution_generation : str) (lease_duration_secs : Z)
    (env : nat → AttemptEnv DB) (fault : option Error) (db : DB)
    : result Error str * DefraStreamWriter * DB :=
  begin_inner w instant now session_id request_id request_doc_id behavior_id requester_did
    {| fence_request_doc_id := request_doc_id;
       fence_execution_generation := execution_generation;
       fence_lease_duration_secs := lease_duration_secs |} env fault db.
End writer.

(** ** The reasoning preview *)

Lemma drop_bytes_len s n :
  0 <= n <= str_len s ->
  str_len s - n - 3 <= str_len (drop_bytes n s) <= str_len s - n.
Proof.
  revert n. induction s as [|c s IH]; intros n Hn; simpl in *.
  - destruct (n <=? 0) eqn:E; simpl; lia.
  - pose proof (utf8_width_bounds c). destruct (n <=? 0) eqn:E; simpl; [lia|].
    destruct (Z.leb_spec 0 (n - utf8_width c)).
    + destruct (Z.leb_spec (n - utf8_width c) (str_len s)); [|].
      * specialize (IH (n - utf8_width c)). lia.
      * lia.
    + assert (drop_bytes (n - utf8_width c) s = s) as ->.
      { destruct s; simpl; by rewrite (proj2 (Z.leb_le _ _)) by lia. }
      lia.
Qed.

Lemma drop_bytes_suffix s n : drop_bytes n s `suffix_of` s.
Proof.
  revert n. induction s as [|c s IH]; intros n; simpl; split_ifs; try done.
  by apply suffix_cons_r.
Qed.

Lemma trim_tail_spec s mx :
  0 <= mx ->
  trim_string_to_tail_bytes s mx `suffix_of` s /\
  str_len (trim_string_to_tail_bytes s mx) <= mx /\
  (str_len s <= mx -> trim_string_to_tail_bytes s mx = s) /\
  Z.min (str_len s) mx - 3 <= str_len (trim_string_to_tail_bytes s mx).
Proof.
  intros Hmx. unfold trim_string_to_tail_bytes. destruct (Z.leb_spec (str_len s) mx).
  - split_and!; try done; lia.
  - pose proof (drop_bytes_len s (str_len s - mx)). split_and!; try lia. apply drop_bytes_suffix.
Qed.

(** The live reasoning preview is always a tail of everything received that
    fits in 64 KiB, cut at a character boundary: it never exceeds the bound, it is
    exactly the whole text while that fits, and it gives up at most three bytes to
    reach a boundary. *)
Theorem reasoning_preview_is_bounded_tail buffer reasoning :
  let r := append_live_reasoning_preview buffer reasoning in
  r `suffix_of` buffer ++ reasoning /\
  str_len r <= MAX_LIVE_REASONING_BYTES /\
  (str_len (buffer ++ reasoning) <= MAX_LIVE_REASONING_BYTES -> r = buffer ++ reasoning) /\
  Z.min (str_len (buffer ++ reasoning)) MAX_LIVE_REASONING_BYTES - 3 <= str_len r.
Proof.
  intros r. subst r. unfold append_live_reasoning_preview.
  pose proof str_len_nonneg as Hnn.
  pose proof (Hnn buffer). pose proof (Hnn reasoning).
  rewrite str_len_app. destruct (Z.leb_spec MAX_LIVE_REASONING_BYTES (str_len reasoning)) as [Hge|Hlt].
  - change (tail_window reasoning ?m) with (trim_string_to_tail_bytes reasoning m).
    destruct (trim_tail_spec reasoning MAX_LIVE_REASONING_BYTES) as (Hs & Hl & He & Hm);
      [by vm_compute|].
    split_and!; [by apply suffix_app_r|done| |lia].
    intros Hfit. destruct buffer as [|c b]; [apply He; simpl in *; lia|].
    pose proof (utf8_width_bounds c). pose proof (Hnn b). simpl in *. lia.
  - destruct (trim_tail_spec buffer (MAX_LIVE_REASONING_BYTES - str_len reasoning))
      as (Hs & Hl & He & Hm); [lia|].
    rewrite str_len_app. split_and!; [|lia| |lia].
    + destruct Hs as [k Hk]. exists k. by rewrite Hk at 1; rewrite app_assoc.
    + intros Hfit. by rewrite He by lia.
Qed.

(** ** Flushing *)

Section writer_lemmas.
Context {DB : Type} `{DocStoreLaws DB} `{Chrono}.
Implicit Types db : DB.

Lemma response_write_op_Ok f m k (env : nat → AttemptEnv DB) db ids db' :
  execute_response_write f m k env db = (Ok ids, db') ->
  ∃ db0 l', ids <> [] /\ after_response m ids (responses (view db0)) l' /\
    responses (view db') = l'.
Proof.
  unfold execute_response_write. intros Hw. apply persist_Ok in Hw as (n & db0 & fs' & _ & Hw); [|done].
  apply response_write_Ok in Hw
    as (row & st & g & e & seq & dl & input & l' & _ & _ & _ & Hids & Hafter & Hv).
  exists db0, l'. split_and!; try done. by rewrite Hv.
Qed.

Lemma pending_forced_None w i doc :
  pending_snapshot w i doc true = Ok None ->
  ∃ b, w_buffers w !! doc = Some b /\ snapshot_of b = b_persisted b.
Proof.
  unfold pending_snapshot. destruct (w_buffers w !! doc) as [b|]; [|done]. simpl.
  case_bool_decide as Hd; [done|]. intros _. exists b. split; [done|].
  destruct (decide (snapshot_of b = b_persisted b)); [done|]. by exfalso.
Qed.

(** What the durable row of a response shows. *)
Definition shows (doc : str) (s : StreamBufferSnapshot) (c : Collections) : Prop :=
  ∃ p, p ∈ responses c /\ p_doc_id p = doc /\ is_streaming p = true /\
    p_content p = sn_content s /\ p_reasoning p = sn_reasoning s /\
    p_token_count p = sn_token_count s /\ p_reasoning_seq p = Some (sn_reasoning_progress_seq s).

Lemma flush_snapshot_spec w i doc env fault db r w' db' b :
  w_buffers w !! doc = Some b ->
  flush_snapshot w i doc env fault db = (r, w', db') ->
  ∃ b', w_buffers w' !! doc = Some b' /\ snapshot_of b' = snapshot_of b /\
    (∀ x, r = Ok x -> snapshot_of b' = b_persisted b') /\
    (r = Ok true -> shows doc (snapshot_of b) (view db')).
Proof.
  intros Hb. unfold flush_snapshot.
  destruct (pending_snapshot w i doc true) as [[sn|]|e] eqn:Hp.
  - assert (sn = snapshot_of b) as ->.
    { unfold pending_snapshot in Hp. rewrite Hb in Hp. simpl in Hp.
      case_bool_decide; [by injection Hp as <-|done]. }
    rewrite Hb. destruct (execute_response_write _ _ _ _ _) as [[ids|e] db1] eqn:Hw; cycle 1.
    { intros [= <- <- <-]. exists b. naive_solver. }
    destruct (Nat.eqb (length ids) 0) eqn:Hlen.
    { intros [= <- <- <-]. exists b. naive_solver. }
    intros [= <- <- <-]. eexists. simpl. rewrite lookup_insert_eq. split_and!; try done.
    intros _. apply response_write_op_Ok in Hw as (db0 & l' & Hids & [-> ->] & Hl').
    destruct (List.filter (is_live doc) (responses (view db0))) as [|p ps] eqn:Ef; [done|].
    assert (Hin : List.In p (List.filter (is_live doc) (responses (view db0)))) by (rewrite Ef; by left).
    apply List.filter_In in Hin as [Hin Hlive].
    exists (write_snapshot (snapshot_of b) p). unfold is_live in Hlive. bool_prop. eqb_prop.
    split_and!; try done.
    rewrite Hl', elem_of_update_where. left. exists p. rewrite list_elem_of_In.
    unfold is_live. split_and!; try done. by rewrite H2, H3, str_eqb_refl.
  - intros [= <- <- <-]. apply pending_forced_None in Hp as (b' & Hb' & Hp'). exists b'.
    assert (b' = b) as -> by congruence. naive_solver.
  - intros [= <- <- <-]. exists b. naive_solver.
Qed.

(** Successive writes to one response, each with its own clock, attempts and fault. *)
Fixpoint write_all (doc : str) (ws : list (str * Z * (nat → AttemptEnv DB) * option Error))
    (w : DefraStreamWriter) (db : DB) : DefraStreamWriter * DB :=
  match ws with
  | [] => (w, db)
  | (tokens, i, env, fault) :: ws' =>
      let '(_, w', db') := write_tokens w i doc tokens env fault db in write_all doc ws' w' db'
  end.

Lemma write_tokens_content w i doc tokens env fault db b :
  w_buffers w !! doc = Some b ->
  ∃ b', w_buffers (snd (fst (write_tokens w i doc tokens env fault db))) !! doc = Some b' /\
    b_content b' = b_content b ++ tokens.
Proof.
  intros Hb. unfold write_tokens. destruct (str_eqb tokens []) eqn:Et.
  { apply str_eqb_true in Et as ->. exists b. by rewrite app_nil_r. }
  rewrite Hb. set (b1 := {| b_content := b_content b ++ tokens |}).
  assert (Hb1 : w_buffers (put_buffer doc b1 w) !! doc = Some b1) by apply lookup_insert_eq.
  destruct (pending_snapshot _ _ _ _) as [[sn|]|e]; simpl; [|eauto|eauto].
  destruct (flush_snapshot _ _ _ _ _ _) as [[r w'] db'] eqn:Hf. simpl.
  destruct (flush_snapshot_spec _ _ _ _ _ _ _ _ _ b1 Hb1 Hf) as (b' & Hb' & Hsn & _).
  exists b'. split; [done|]. by apply (f_equal sn_content) in Hsn.
Qed.

End writer_lemmas.

Definition demo_writer : DefraStreamWriter :=
  {| w_agent_did := lit "did:a"; w_batch_interval := 100;
     w_buffers := {[ lit "p1" := {| b_content := lit "partial"; b_reasoning := [];
                        b_token_count := 1; b_reasoning_progress_seq := 0; b_last_flush_at := 0;
                        b_persisted := default_snapshot; b_lease := demo_fence |} ]} |}.

