(* ===== verification/Lifecycle.v ===== *)
(** * The request lifecycle

    [lifecycle.rs], [lifecycle/claim.rs], [lifecycle/query.rs],
    [lifecycle/recovery.rs], [lifecycle/queue/metadata.rs] and the session
    projection of [lifecycle/materialize.rs]: how a runtime claims a pending
    request, drives its execution and settles it, and how expired executions are
    swept and terminal states re-asserted.

    The queue metadata is JSON: [serde_json]'s reader is a parameter, as are the
    row validation of the watcher and the commit identifier DefraDB returns with
    a claim. *)

From stdpp Require Import sorting.
From S2P Require Import Prelude RustStr RequestState Retry Store ExecutionLease Streaming.

(** ** Queue metadata *)

Inductive QueueSource : Type := QS_User | QS_BackgroundCompletion | QS_Steering | QS_Goal.
Inductive QueuePolicy : Type := QP_Append | QP_Coalesce.

Record QueueHints : Type := {
  qh_source : QueueSource; qh_policy : QueuePolicy; qh_key : option str;
  qh_queued_after_request_id : option str; qh_interrupted_request_id : option str
}.
Record RequestQueueMetadata : Type := {
  qm_queue : QueueHints; qm_background_completion_wake_version : option Z
}.

Definition not_blank (s : str) : bool := negb (str_eqb (trim s) []).

Definition STEERING_INPUT_MESSAGE_PREFIX : str := lit "steering-input:".
Definition BACKGROUND_COMPLETION_NOTIFICATION_MESSAGE_PREFIX : str :=
  lit "background-completion-notification:".

Definition steering_input_message_key (request_id : str) : str :=
  STEERING_INPUT_MESSAGE_PREFIX ++ request_id.
Definition is_steering_input_message_key (message_key : str) : bool :=
  starts_with STEERING_INPUT_MESSAGE_PREFIX message_key.
Definition is_background_completion_notification_message_key (message_key : str) : bool :=
  starts_with BACKGROUND_COMPLETION_NOTIFICATION_MESSAGE_PREFIX message_key.

Definition queue_hints_are_automated_wakeup (hints : QueueHints) : bool :=
  match qh_source hints with QS_BackgroundCompletion => true | _ => false end
  && match qh_policy hints with QP_Coalesce => true | QP_Append => false end
  && is_some_and not_blank (qh_key hints).

Section metadata.
Variable from_str : str → option RequestQueueMetadata.

Definition parse_queue_metadata (metadata : option str) : option RequestQueueMetadata :=
  match metadata with
  | None => None
  | Some m => let m := trim m in if str_eqb m [] then None else from_str m
  end.
Definition parse_queue_hints (metadata : option str) : option QueueHints :=
  qm_queue <$> parse_queue_metadata metadata.
Definition is_automated_wakeup (metadata : option str) : bool :=
  is_some_and queue_hints_are_automated_wakeup (parse_queue_hints metadata).
Definition is_subagent_owned_queue (metadata : option str) : bool :=
  is_some_and (λ hints,
    match qh_source hints with QS_Steering => true | _ => false end
    || (match qh_source hints with QS_BackgroundCompletion => true | _ => false end
        && match qh_policy hints with QP_Coalesce => true | QP_Append => false end
        && is_some_and not_blank (qh_key hints))) (parse_queue_hints metadata).
Definition is_goal_queue (metadata : option str) : bool :=
  is_some_and (λ hints, match qh_source hints with QS_Goal => true | _ => false end)
    (parse_queue_hints metadata).

Definition is_background_completion_request (metadata : option str) : bool :=
  is_automated_wakeup metadata.
Definition request_content_owns_user_projection (metadata : option str) : bool :=
  match parse_queue_hints metadata with
  | None => true
  | Some hints => match qh_source hints with QS_User => true | _ => false end
  end.
Definition request_owns_user_turn (metadata : option str) : bool :=
  match parse_queue_hints metadata with
  | None => true
  | Some hints => match qh_source hints with QS_User | QS_Steering => true | _ => false end
  end.
Definition is_runtime_control_message (metadata : option str) (message_key : str)
    (request_has_keyed_steering_input : bool) : bool :=
  if is_background_completion_notification_message_key message_key then true
  else is_some_and (λ hints, match qh_source hints with
         | QS_BackgroundCompletion | QS_Goal => true
         | QS_Steering => request_has_keyed_steering_input
                          && negb (is_steering_input_message_key message_key)
         | QS_User => false
         end) (parse_queue_hints metadata).
End metadata.

(** ** The claimed request *)

Record AgentRequest : Type := {
  aq_doc_id : str; aq_request_id : str; aq_agent_did : str; aq_requester_did : option str;
  aq_session_id : str; aq_content : str; aq_metadata : option str; aq_deadline : option str
}.

Record RequestLifecycle : Type := {
  lc_agent_name : str;
  lc_agent_did : str;
  lc_behavior_id : str;
  lc_backend_id : str;
  lc_failure_reason : option str;
  lc_request : AgentRequest;
  lc_request_commit_cid : option str;
  lc_response_doc_id : option str;
  lc_progress_seq : Z;
  lc_deadline_duration_secs : Z;
  lc_claimed_deadline_at : option Z;
  lc_bg_input_through_sequence : option Z;
  lc_state : LocalLifecycleState;
  lc_valid_until_at_claim : option Z;
  lc_execution_lease : option str;
  lc_execution_lease_duration_secs : Z
}.

Definition set_lc_failure_reason (v : option str) (l : RequestLifecycle) : RequestLifecycle :=
  {| lc_agent_name := lc_agent_name l; lc_agent_did := lc_agent_did l; lc_behavior_id := lc_behavior_id l;
     lc_backend_id := lc_backend_id l; lc_failure_reason := v; lc_request := lc_request l;
     lc_request_commit_cid := lc_request_commit_cid l; lc_response_doc_id := lc_response_doc_id l; lc_progress_seq := lc_progress_seq l;
     lc_deadline_duration_secs := lc_deadline_duration_secs l; lc_claimed_deadline_at := lc_claimed_deadline_at l; lc_bg_input_through_sequence := lc_bg_input_through_sequence l;
     lc_state := lc_state l; lc_valid_until_at_claim := lc_valid_until_at_claim l; lc_execution_lease := lc_execution_lease l;
     lc_execution_lease_duration_secs := lc_execution_lease_duration_secs l |}.
Definition set_lc_request (v : AgentRequest) (l : RequestLifecycle) : RequestLifecycle :=
  {| lc_agent_name := lc_agent_name l; lc_agent_did := lc_agent_did l; lc_behavior_id := lc_behavior_id l;
     lc_backend_id := lc_backend_id l; lc_failure_reason := lc_failure_reason l; lc_request := v;
     lc_request_commit_cid := lc_request_commit_cid l; lc_response_doc_id := lc_response_doc_id l; lc_progress_seq := lc_progress_seq l;
     lc_deadline_duration_secs := lc_deadline_duration_secs l; lc_claimed_deadline_at := lc_claimed_deadline_at l; lc_bg_input_through_sequence := lc_bg_input_through_sequence l;
     lc_state := lc_state l; lc_valid_until_at_claim := lc_valid_until_at_claim l; lc_execution_lease := lc_execution_lease l;
     lc_execution_lease_duration_secs := lc_execution_lease_duration_secs l |}.
Definition set_lc_request_commit_cid (v : option str) (l : RequestLifecycle) : RequestLifecycle :=
  {| lc_agent_name := lc_agent_name l; lc_agent_did := lc_agent_did l; lc_behavior_id := lc_behavior_id l;
     lc_backend_id := lc_backend_id l; lc_failure_reason := lc_failure_reason l; lc_request := lc_request l;
     lc_request_commit_cid := v; lc_response_doc_id := lc_response_doc_id l; lc_progress_seq := lc_progress_seq l;
     lc_deadline_duration_secs := lc_deadline_duration_secs l; lc_claimed_deadline_at := lc_claimed_deadline_at l; lc_bg_input_through_sequence := lc_bg_input_through_sequence l;
     lc_state := lc_state l; lc_valid_until_at_claim := lc_valid_until_at_claim l; lc_execution_lease := lc_execution_lease l;
     lc_execution_lease_duration_secs := lc_execution_lease_duration_secs l |}.
Definition set_lc_response_doc_id (v : option str) (l : RequestLifecycle) : RequestLifecycle :=
  {| lc_agent_name := lc_agent_name l; lc_agent_did := lc_agent_did l; lc_behavior_id := lc_behavior_id l;
     lc_backend_id := lc_backend_id l; lc_failure_reason := lc_failure_reason l; lc_request := lc_request l;
     lc_request_commit_cid := lc_request_commit_cid l; lc_response_doc_id := v; lc_progress_seq := lc_progress_seq l;
     lc_deadline_duration_secs := lc_deadline_duration_secs l; lc_claimed_deadline_at := lc_claimed_deadline_at l; lc_bg_input_through_sequence := lc_bg_input_through_sequence l;
     lc_state := lc_state l; lc_valid_until_at_claim := lc_valid_until_at_claim l; lc_execution_lease := lc_execution_lease l;
     lc_execution_lease_duration_secs := lc_execution_lease_duration_secs l |}.
Definition set_lc_progress_seq (v : Z) (l : RequestLifecycle) : RequestLifecycle :=
  {| lc_agent_name := lc_agent_name l; lc_agent_did := lc_agent_did l; lc_behavior_id := lc_behavior_id l;
     lc_backend_id := lc_backend_id l; lc_failure_reason := lc_failure_reason l; lc_request := lc_request l;
     lc_request_commit_cid := lc_request_commit_cid l; lc_response_doc_id := lc_response_doc_id l; lc_progress_seq := v;
     lc_deadline_duration_secs := lc_deadline_duration_secs l; lc_claimed_deadline_at := lc_claimed_deadline_at l; lc_bg_input_through_sequence := lc_bg_input_through_sequence l;
     lc_state := lc_state l; lc_valid_until_at_claim := lc_valid_until_at_claim l; lc_execution_lease := lc_execution_lease l;
     lc_execution_lease_duration_secs := lc_execution_lease_duration_secs l |}.
Definition set_lc_claimed_deadline_at (v : option Z) (l : RequestLifecycle) : RequestLifecycle :=
  {| lc_agent_name := lc_agent_name l; lc_agent_did := lc_agent_did l; lc_behavior_id := lc_behavior_id l;
     lc_backend_id := lc_backend_id l; lc_failure_reason := lc_failure_reason l; lc_request := lc_request l;
     lc_request_commit_cid := lc_request_commit_cid l; lc_response_doc_id := lc_response_doc_id l; lc_progress_seq := lc_progress_seq l;
     lc_deadline_duration_secs := lc_deadline_duration_secs l; lc_claimed_deadline_at := v; lc_bg_input_through_sequence := lc_bg_input_through_sequence l;
     lc_state := lc_state l; lc_valid_until_at_claim := lc_valid_until_at_claim l; lc_execution_lease := lc_execution_lease l;
     lc_execution_lease_duration_secs := lc_execution_lease_duration_secs l |}.
Definition set_lc_bg_input_through_sequence (v : option Z) (l : RequestLifecycle) : RequestLifecycle :=
  {| lc_agent_name := lc_agent_name l; lc_agent_did := lc_agent_did l; lc_behavior_id := lc_behavior_id l;
     lc_backend_id := lc_backend_id l; lc_failure_reason := lc_failure_reason l; lc_request := lc_request l;
     lc_request_commit_cid := lc_request_commit_cid l; lc_response_doc_id := lc_response_doc_id l; lc_progress_seq := lc_progress_seq l;
     lc_deadline_duration_secs := lc_deadline_duration_secs l; lc_claimed_deadline_at := lc_claimed_deadline_at l; lc_bg_input_through_sequence := v;
     lc_state := lc_state l; lc_valid_until_at_claim := lc_valid_until_at_claim l; lc_execution_lease := lc_execution_lease l;
     lc_execution_lease_duration_secs := lc_execution_lease_duration_secs l |}.
Definition set_lc_state (v : LocalLifecycleState) (l : RequestLifecycle) : RequestLifecycle :=
  {| lc_agent_name := lc_agent_name l; lc_agent_did := lc_agent_did l; lc_behavior_id := lc_behavior_id l;
     lc_backend_id := lc_backend_id l; lc_failure_reason := lc_failure_reason l; lc_request := lc_request l;
     lc_request_commit_cid := lc_request_commit_cid l; lc_response_doc_id := lc_response_doc_id l; lc_progress_seq := lc_progress_seq l;
     lc_deadline_duration_secs := lc_deadline_duration_secs l; lc_claimed_deadline_at := lc_claimed_deadline_at l; lc_bg_input_through_sequence := lc_bg_input_through_sequence l;
     lc_state := v; lc_valid_until_at_claim := lc_valid_until_at_claim l; lc_execution_lease := lc_execution_lease l;
     lc_execution_lease_duration_secs := lc_execution_lease_duration_secs l |}.
Definition set_lc_valid_until_at_claim (v : option Z) (l : RequestLifecycle) : RequestLifecycle :=
  {| lc_agent_name := lc_agent_name l; lc_agent_did := lc_agent_did l; lc_behavior_id := lc_behavior_id l;
     lc_backend_id := lc_backend_id l; lc_failure_reason := lc_failure_reason l; lc_request := lc_request l;
     lc_request_commit_cid := lc_request_commit_cid l; lc_response_doc_id := lc_response_doc_id l; lc_progress_seq := lc_progress_seq l;
     lc_deadline_duration_secs := lc_deadline_duration_secs l; lc_claimed_deadline_at := lc_claimed_deadline_at l; lc_bg_input_through_sequence := lc_bg_input_through_sequence l;
     lc_state := lc_state l; lc_valid_until_at_claim := v; lc_execution_lease := lc_execution_lease l;
     lc_execution_lease_duration_secs := lc_execution_lease_duration_secs l |}.
Definition set_lc_execution_lease (v : option str) (l : RequestLifecycle) : RequestLifecycle :=
  {| lc_agent_name := lc_agent_name l; lc_agent_did := lc_agent_did l; lc_behavior_id := lc_behavior_id l;
     lc_backend_id := lc_backend_id l; lc_failure_reason := lc_failure_reason l; lc_request := lc_request l;
     lc_request_commit_cid := lc_request_commit_cid l; lc_response_doc_id := lc_response_doc_id l; lc_progress_seq := lc_progress_seq l;
     lc_deadline_duration_secs := lc_deadline_duration_secs l; lc_claimed_deadline_at := lc_claimed_deadline_at l; lc_bg_input_through_sequence := lc_bg_input_through_sequence l;
     lc_state := lc_state l; lc_valid_until_at_claim := lc_valid_until_at_claim l; lc_execution_lease := v;
     lc_execution_lease_duration_secs := lc_execution_lease_duration_secs l |}.

Definition local_state_debug (s : LocalLifecycleState) : str :=
  match s with
  | L_Pending => lit "Pending" | L_Claimed => lit "Claimed" | L_Streaming => lit "Streaming"
  | L_Completed => lit "Completed" | L_Failed => lit "Failed"
  | L_Interrupted => lit "Interrupted" | L_Dead => lit "Dead"
  end.

Definition ensure_lifecycle_state (self : RequestLifecycle) (expected : list LocalLifecycleState)
    (action : string) : result Error unit :=
  if bool_decide (lc_state self ∈ expected) then Ok tt
  else Err (Msg (lit "cannot " ++ lit action ++ lit " request_id="
                 ++ aq_request_id (lc_request self) ++ lit " while lifecycle is in "
                 ++ local_state_debug (lc_state self))).

Definition execution_generation (self : RequestLifecycle) : result Error str :=
  with_context "request has no active execution generation" (lc_execution_lease self).

(** ** Session projection *)

Definition CONVERSATION_TITLE_SOURCE_FALLBACK : str := lit "placeholder".
Definition CONVERSATION_TITLE_SOURCE_TASK : str := lit "task".

Definition normalize_conversation_text (content : str) : str :=
  join (lit " ") (split_whitespace content).
Definition truncate_chars (value : str) (max_chars : nat) : str := take max_chars value.
Definition derive_conversation_preview (content : str) : str :=
  truncate_chars (normalize_conversation_text content) 240.

Record RequestSessionProjection : Type := {
  pj_session_id : str;
  pj_behavior_id : str;
  pj_session_update : SessionRow → SessionRow;
  pj_session_create : SessionRow;
  pj_conversation_update : ConversationRow → ConversationRow;
  pj_conversation_create : ConversationRow
}.

(** [title] is what [conversation_title_from_metadata] found in the metadata. *)
Definition request_session_projection (request : AgentRequest)
    (agent_name agent_did behavior_id started : str) (title : option str)
    : RequestSessionProjection :=
  let requester := requester_did_create_field (aq_requester_did request) in
  let preview := derive_conversation_preview (aq_content request) in
  let '(title, title_source) := match title with
                                | Some t => (t, CONVERSATION_TITLE_SOURCE_TASK)
                                | None => ([], CONVERSATION_TITLE_SOURCE_FALLBACK)
                                end in
  {| pj_session_id := aq_session_id request;
     pj_behavior_id := behavior_id;
     pj_session_update s :=
       set_s_ended None (set_s_status (lit "active")
         (set_s_behavior_id (Some behavior_id) (set_s_agent_name agent_name s)));
     pj_session_create :=
       {| s_session_id := aq_session_id request; s_agent_name := agent_name;
          s_agent_did := agent_did; s_requester_did := requester;
          s_behavior_id := Some behavior_id; s_started := started; s_status := lit "active";
          s_ended := None |};
     pj_conversation_update c :=
       set_cv_latest_request_id (aq_request_id request) (set_cv_updated_at started
         (set_cv_status (lit "processing") (set_cv_preview_text preview
           (set_cv_agent_name agent_name c))));
     pj_conversation_create :=
       {| cv_session_id := aq_session_id request; cv_agent_name := agent_name;
          cv_agent_did := agent_did; cv_requester_did := requester;
          cv_behavior_id := behavior_id; cv_title := title; cv_title_source := title_source;
          cv_preview_text := preview; cv_status := lit "processing"; cv_created_at := started;
          cv_updated_at := started; cv_latest_request_id := aq_request_id request |} |}.

(** ** Claiming *)

Record BackgroundCompletionClaimSnapshot : Type := {
  bs_through_sequence : option Z;
  bs_notification_keys : list str
}.
Definition default_claim_snapshot : BackgroundCompletionClaimSnapshot :=
  {| bs_through_sequence := None; bs_notification_keys := [] |}.

(** The columns [mutation_fields] adds; a missing cutoff leaves its column alone. *)
Definition snapshot_fields (s : BackgroundCompletionClaimSnapshot) (r : RequestRow) : RequestRow :=
  let r := match bs_through_sequence s with Some n => set_r_bg_seq (Some n) r | None => r end in
  set_r_bg_keys (Some (bs_notification_keys s)) r.

Definition DEFRA_DB_CONFLICT_MAX_RETRIES : nat := 3.
Definition is_defradb_transaction_conflict_text (text : str) : bool :=
  contains (lit "transaction conflict") (to_ascii_lowercase text).

Record DedupPlan : Type := { dp_is_earliest : bool; dp_blocking_request_id : option str }.

(** The order of the queue: creation time, then request id. *)
Definition queue_key (r : RequestRow) : str * str :=
  (unwrap_or [] (ri_created_at (r_ident r)), ri_request_id (r_ident r)).
Fixpoint str_leb (a b : str) : bool :=
  match a, b with
  | [], _ => true
  | _ :: _, [] => false
  | x :: a', y :: b' => (x <? y) || ((x =? y) && str_leb a' b')
  end.
Definition queue_le (a b : RequestRow) : Prop :=
  let '(ca, ia) := queue_key a in let '(cb, ib) := queue_key b in
  if str_eqb ca cb then str_leb ia ib = true else str_leb ca cb = true.
#[global] Instance queue_le_dec : RelDecision queue_le.
Proof.
  intros a b. unfold queue_le. destruct (queue_key a), (queue_key b).
  destruct (str_eqb _ _); apply _.
Defined.

(** A query with [order: ASC] on a decidable key order. *)
Definition sequence_le (a b : MessageRow) : Prop := mg_sequence a <= mg_sequence b.
#[global] Instance sequence_le_dec : RelDecision sequence_le.
Proof. intros a b. unfold sequence_le. apply _. Defined.

Definition is_live_state (s : option RequestLifecycleState) : bool :=
  is_some_and is_active_runtime s.

Definition dedup_rows (session_id : str) (c : Collections) : list RequestRow :=
  merge_sort queue_le
    (List.filter (λ r, col_is session_id (ri_session_id (r_ident r)) && is_live_state (r_state r))
       (requests c)).

Definition is_pending (r : RequestRow) : bool := opt_eqb state_eqb (r_state r) (Some Pending).

Definition check_deduplication (doc_id session_id : str) (c : Collections) : DedupPlan :=
  let rows := dedup_rows session_id c in
  let active_blocker := List.find (λ r, negb (doc_is doc_id r) && negb (is_pending r)) rows in
  let first_pending := List.find is_pending rows in
  {| dp_is_earliest := negb (bool_decide (is_Some active_blocker))
                       && is_some_and (doc_is doc_id) first_pending;
     dp_blocking_request_id :=
       (λ r, ri_request_id (r_ident r)) <$>
         match active_blocker with
         | Some r => Some r
         | None => opt_filter (λ r, negb (doc_is doc_id r)) first_pending
         end |}.

(** What one call to [claim_inner] meets. *)
Record ClaimEnv (DB : Type) : Type := {
  ce_fetch_fault : option Error;      (* fetch_interrupt_and_ttl *)
  ce_now_ttl : Z;
  ce_dedup_fault : option Error;      (* check_deduplication *)
  ce_between : DB → DB;               (* other writers, before the claim *)
  ce_now : Z;
  ce_uuid : str;
  ce_attempts : nat → AttemptEnv DB;
  ce_view_fault : option Error;       (* request_view *)
  ce_title : option str               (* conversation_title_from_metadata *)
}.
Arguments ce_fetch_fault {DB} _.
Arguments ce_now_ttl {DB} _.
Arguments ce_dedup_fault {DB} _.
Arguments ce_between {DB} _.
Arguments ce_now {DB} _.
Arguments ce_uuid {DB} _.
Arguments ce_attempts {DB} _.
Arguments ce_view_fault {DB} _.
Arguments ce_title {DB} _.

Definition parse_rfc3339_utc `{Chrono} (value : str) : option Z :=
  result_ok (parse_from_rfc3339 value).

Section lifecycle.
Context {DB : Type} `{DocStore DB} `{Chrono}.
Variable from_str : str → option RequestQueueMetadata.
Variable agent_request_of_row : RequestRow → result Error AgentRequest.
Variable composite_version : RequestRow → result Error (option str).

Definition apply_request_session_projection (pj : RequestSessionProjection)
    : Txn (DB:=DB) unit :=
  let mine s := str_eqb (s_session_id s) (pj_session_id pj) in
  let! rows := query (λ c, List.filter mine (sessions c)) in
  match List.find (λ v, negb (str_eqb v []) && negb (str_eqb v (pj_behavior_id pj)))
          (trim <$> omap s_behavior_id rows) with
  | Some existing =>
      txn_lift (Err (SessionBehaviorMismatch (pj_session_id pj) existing (pj_behavior_id pj)))
  | None =>
      do! (if Nat.eqb (length rows) 0 then insert_session (pj_session_create pj)
           else mutate_session mine (pj_session_update pj)) in
      let! n := mutate_conversation (λ c, str_eqb (cv_session_id c) (pj_session_id pj))
                  (pj_conversation_update pj) in
      if Nat.eqb n 0 then insert_conversation (pj_conversation_create pj) else txn_ret tt
  end.

(** The transcript cutoff and the completion notifications up to it. *)
Definition claim_snapshot (session_id : str) (c : Collections) : BackgroundCompletionClaimSnapshot :=
  let mine := List.filter (λ m, str_eqb (mg_session_id m) session_id) (messages c) in
  let through :=
    match reverse (merge_sort sequence_le mine) with
    | m :: _ => if (0 <=? mg_sequence m) && (mg_sequence m <=? u32_max)
                then Some (mg_sequence m) else None
    | [] => None
    end in
  {| bs_through_sequence := through;
     bs_notification_keys :=
       mg_message_key <$>
         List.filter (λ m, (0 <=? mg_sequence m)
                           && is_some_and (λ cutoff, mg_sequence m <=? cutoff) through)
           (merge_sort sequence_le
              (List.filter (λ m, is_background_completion_notification_message_key
                                   (mg_message_key m)) mine)) |}.

Definition claim_attempt (doc_id session_id : str) (capture_background_snapshot : bool)
    (pj : RequestSessionProjection)
    (input : option BackgroundCompletionClaimSnapshot → RequestRow → RequestRow)
    : Txn (DB:=DB) (list RequestRow * BackgroundCompletionClaimSnapshot) :=
  let! snapshot := (if capture_background_snapshot then query (claim_snapshot session_id)
                    else txn_ret default_claim_snapshot) in
  let! claimed := mutate_request (λ r, doc_is doc_id r && is_pending r)
                    (input (if capture_background_snapshot then Some snapshot else None)) in
  do! (if Nat.eqb (length claimed) 0 then txn_ret tt
       else apply_request_session_projection pj) in
  txn_ret (claimed, snapshot).

(** Only a transaction conflict is retried; a transaction that cannot begin is not. *)
Fixpoint claim_request_with_projection (budget n : nat)
    (body : Z → Txn (DB:=DB) (list RequestRow * BackgroundCompletionClaimSnapshot))
    (env : nat → AttemptEnv DB) (db : DB)
    : result Error (list RequestRow * BackgroundCompletionClaimSnapshot) * DB :=
  let db := ae_interference (env n) db in
  match ae_begin (env n) with
  | Some err => (Err err, db)
  | None =>
      match run_attempt (λ _, true) body (env n) db with
      | (Ok v, db') => (Ok v, db')
      | (Err err, db') =>
          match budget with
          | S budget' =>
              if is_defradb_transaction_conflict_text (to_ascii_lowercase (error_to_string err))
              then claim_request_with_projection budget' (S n) body env db'
              else (Err err, db')
          | O => (Err err, db')
          end
      end
  end.

Arguments claim_request_with_projection : simpl never.

(** A guarded transition of a row that is still pending and owned. *)
Definition pending_filter (self : RequestLifecycle) (r : RequestRow) : bool :=
  doc_is (aq_doc_id (lc_request self)) r
  && col_is (aq_agent_did (lc_request self)) (ri_agent_did (r_ident r)) && is_pending r.

Definition request_view (fault : option Error) (doc_id : str) (db : DB)
    : result Error (option RequestRow) := read fault (first_request doc_id) db.

Definition current_state (o : option RequestRow) : str :=
  match o ≫= r_state with Some s => as_str s | None => lit "missing" end.

Definition refuse_unless (target : RequestLifecycleState) (what : string) (self : RequestLifecycle)
    (view : result Error (option RequestRow)) : result Error unit :=
  let? row := view in
  if opt_eqb state_eqb (row ≫= r_state) (Some target) then Ok tt
  else Err (Msg (lit "request " ++ aq_request_id (lc_request self) ++ lit what ++ current_state row)).

Definition transition_pending_to_interrupted (self : RequestLifecycle) (now : Z)
    (env : nat → AttemptEnv DB) (fault : option Error) (db : DB) : result Error unit * DB :=
  let '(r, db') := persist (λ _, true)
    (λ _, mutate_request (pending_filter self)
       (λ r, set_r_redrive (Some 0) (set_r_terminalized_at (Some (to_rfc3339 now))
               (set_r_state (Some Interrupted) r)))) env db in
  match r with
  | Err e => (Err e, db')
  | Ok updated =>
      if Nat.eqb (length updated) 0 then
        (refuse_unless Interrupted
           " could not transition pending -> interrupted; current lifecycle_state=" self
           (request_view fault (aq_doc_id (lc_request self)) db'), db')
      else (Ok tt, db')
  end.

Definition transition_pending_to_dead_stale (self : RequestLifecycle) (now : Z)
    (env : nat → AttemptEnv DB) (fault : option Error) (db : DB)
    : result Error unit * RequestLifecycle * DB :=
  let '(r, db') := persist (λ _, true)
    (λ _, mutate_request (pending_filter self)
       (λ r, set_r_redrive (Some 0) (set_r_terminalized_at (Some (to_rfc3339 now))
               (set_r_failure (Some (lit "Stale")) (set_r_state (Some Dead) r))))) env db in
  match r with
  | Err e => (Err e, self, db')
  | Ok updated =>
      if Nat.eqb (length updated) 0 then
        (refuse_unless Dead
           " could not transition pending -> dead; current lifecycle_state=" self
           (request_view fault (aq_doc_id (lc_request self)) db'), self, db')
      else (Ok tt, set_lc_failure_reason (Some (lit "Stale")) self, db')
  end.

(** The response of a request rejected before it was claimed. *)
Definition rejection_response (self : RequestLifecycle) (reason timestamp : str) : ResponseRow :=
  {| p_doc_id := [];
     p_ident := {| pi_response_key := aq_request_id (lc_request self);
                   pi_request_id := aq_request_id (lc_request self);
                   pi_request_doc_id := aq_doc_id (lc_request self);
                   pi_agent_did := aq_agent_did (lc_request self);
                   pi_requester_did :=
                     requester_did_create_field (aq_requester_did (lc_request self));
                   pi_behavior_id := lc_behavior_id self;
                   pi_session_id := aq_session_id (lc_request self);
                   pi_created_at := timestamp |};
     p_content := lit "Error: " ++ reason; p_reasoning := []; p_status := lit "error";
     p_error_message := reason; p_token_count := 0; p_progress_seq := 0;
     p_reasoning_seq := None; p_completed_at := timestamp; p_interrupted_at := None |}.

Definition reject_attempt (self : RequestLifecycle) (reason timestamp : str)
    : Txn (DB:=DB) (bool * option str) :=
  let! updated := mutate_request (pending_filter self)
    (λ r, set_r_redrive (Some 0) (set_r_terminalized_at (Some timestamp)
            (set_r_failure (Some reason) (set_r_state (Some Failed) r)))) in
  if Nat.eqb (length updated) 0 then txn_ret (false, None)
  else
    let! ids := mutate_response (create_AgentResponse (rejection_response self reason timestamp)) in
    let! id := txn_lift (with_context "admission rejection created no AgentResponse document"
                           (head ids)) in
    txn_ret (true, Some id).

Definition reject_admission (self : RequestLifecycle) (reason : str) (now : Z)
    (env : nat → AttemptEnv DB) (fault : option Error) (db : DB)
    : result Error unit * RequestLifecycle * DB :=
  match ensure_lifecycle_state self [L_Pending] "reject_admission" with
  | Err e => (Err e, self, db)
  | Ok _ =>
      let '(r, db') := persist (λ _, true)
                         (λ _, reject_attempt self reason (to_rfc3339 now)) env db in
      match r with
      | Err e => (Err e, self, db')
      | Ok (updated, response_doc_id) =>
          match (if updated then Ok tt
                 else refuse_unless Failed " could not reject admission from lifecycle_state=" self
                        (request_view fault (aq_doc_id (lc_request self)) db')) with
          | Err e => (Err e, self, db')
          | Ok _ =>
              (Ok tt, set_lc_state L_Failed (set_lc_failure_reason (Some reason)
                        (set_lc_response_doc_id response_doc_id self)), db')
          end
      end
  end.

(** The columns a claim writes. *)
Definition claim_input (self : RequestLifecycle) (claimed_at generation expires deadline : str)
    (snapshot : option BackgroundCompletionClaimSnapshot) (r : RequestRow) : RequestRow :=
  let r := set_r_progress (Some 0) (set_r_expiry (Some expires) (set_r_generation (Some generation)
             (set_r_claimed_at (Some claimed_at) (set_r_backend (Some (lc_backend_id self))
               (set_r_state (Some Claimed) r))))) in
  let r := match snapshot with Some s => snapshot_fields s r | None => r end in
  set_r_deadline (Some deadline) r.

Definition nonempty_text (o : option str) : option str :=
  opt_filter (λ s, negb (str_eqb s [])) o.

(** The single document of a mutation response. *)
Definition single_mutation_document (rows : list RequestRow) : result Error (option RequestRow) :=
  match rows with
  | [] => Ok None
  | [row] => Ok (Some row)
  | _ => Err (Msg (lit "update_AgentRequest returned " ++ fmt_Z (Z.of_nat (length rows))
                   ++ lit " documents; expected at most one"))
  end.

Definition claim_commit (self : RequestLifecycle) (rows : list RequestRow)
    : result Error (AgentRequest * str) :=
  let doc_id := aq_doc_id (lc_request self) in
  let? row := single_mutation_document rows in
  match row with
  | None => Err (Msg (lit "request " ++ doc_id
                      ++ lit " was not pending when this runtime attempted to claim it"))
  | Some row =>
      let? claimed := agent_request_of_row row in
      let? cid := composite_version row in
      let? cid := ok_or (Msg (lit "claimed AgentRequest " ++ doc_id
                              ++ lit " returned no composite DefraDB version")) cid in
      if negb (str_eqb (aq_doc_id claimed) doc_id)
      then Err (Msg (lit "claim for AgentRequest " ++ doc_id ++ lit " returned document "
                     ++ aq_doc_id claimed))
      else Ok (claimed, cid)
  end.

Definition claim_inner (self : RequestLifecycle) (ce : ClaimEnv DB) (db : DB)
    : result Error ClaimOutcome * RequestLifecycle * DB :=
  let doc_id := aq_doc_id (lc_request self) in
  match (let? _ := ensure_lifecycle_state self [L_Pending] "claim" in
         let? row := read (ce_fetch_fault ce) (first_request doc_id) db in
         ok_or (Msg (lit "AgentRequest " ++ doc_id ++ lit " not found")) row) with
  | Err e => (Err e, self, db)
  | Ok row =>
  match nonempty_text (r_interrupt row) with
  | Some _ =>
      let '(r, db') := transition_pending_to_interrupted self (ce_now ce) (ce_attempts ce)
                         (ce_view_fault ce) db in
      match r with
      | Err e => (Err e, self, db')
      | Ok _ => (Ok CO_Interrupted, set_lc_state L_Interrupted self, db')
      end
  | None =>
  let ttl := parse_valid_until (nonempty_text (r_valid_until row)) (ce_now_ttl ce) in
  match ttl with
  | Malformed error =>
      (Err (Msg (lit "invalid valid_until on request " ++ doc_id ++ lit ": " ++ error)), self, db)
  | Expired _ =>
      let '(r, self', db') := transition_pending_to_dead_stale self (ce_now ce) (ce_attempts ce)
                                (ce_view_fault ce) db in
      match r with
      | Err e => (Err e, self', db')
      | Ok _ => (Ok CO_Expired, set_lc_state L_Dead self', db')
      end
  | NotSet | Live _ =>
      let valid_until_at_claim := match ttl with Live t => Some t | _ => None end in
      match read (ce_dedup_fault ce)
              (check_deduplication doc_id (aq_session_id (lc_request self))) db with
      | Err e => (Err e, self, db)
      | Ok dedup =>
      if negb (dp_is_earliest dedup) then (Ok CO_Queued, self, db)
      else
      let now := ce_now ce in
      let expires := now + seconds (wrap_i64 (lc_execution_lease_duration_secs self)) in
      let synthesized := now + seconds (wrap_i64 (lc_deadline_duration_secs self)) in
      let deadline_at := unwrap_or synthesized
                           (aq_deadline (lc_request self) ≫= parse_rfc3339_utc) in
      let pj := request_session_projection (lc_request self) (lc_agent_name self)
                  (lc_agent_did self) (lc_behavior_id self) (to_rfc3339 now) (ce_title ce) in
      let body := λ _ : Z, claim_attempt doc_id (aq_session_id (lc_request self))
                    (is_background_completion_request from_str (aq_metadata (lc_request self))) pj
                    (claim_input self (to_rfc3339 now) (ce_uuid ce) (to_rfc3339 expires)
                       (to_rfc3339 deadline_at)) in
      let '(r, db') := claim_request_with_projection DEFRA_DB_CONFLICT_MAX_RETRIES 0 body
                         (ce_attempts ce) (ce_between ce db) in
      match r with
      | Err e => (Err e, self, db')
      | Ok (rows, snapshot) =>
          match claim_commit self rows with
          | Err e => (Err e, self, db')
          | Ok (claimed, cid) =>
              (Ok CO_Claimed,
               set_lc_execution_lease (Some (ce_uuid ce))
                 (set_lc_valid_until_at_claim valid_until_at_claim
                   (set_lc_bg_input_through_sequence (bs_through_sequence snapshot)
                     (set_lc_claimed_deadline_at (Some deadline_at)
                       (set_lc_state L_Claimed
                         (set_lc_request_commit_cid (Some cid)
                           (set_lc_request claimed self)))))), db')
          end
      end
      end
  end
  end
  end.

(** ** Executing *)

(** The [expect] of [set_response_doc_id] is a panic: [None]. *)
Definition set_response_doc_id (self : RequestLifecycle) (doc_id : str)
    : option RequestLifecycle :=
  match ensure_lifecycle_state self [L_Claimed; L_Streaming] "set_response_doc_id" with
  | Ok _ => Some (set_lc_state L_Streaming (set_lc_response_doc_id (Some doc_id) self))
  | Err _ => None
  end.

Definition begin_owned_execution (self : RequestLifecycle) (w : DefraStreamWriter)
    (instant now : Z) (env : nat → AttemptEnv DB) (fault : option Error) (db : DB)
    : option (result Error str * RequestLifecycle * DefraStreamWriter * DB) :=
  match (let? _ := ensure_lifecycle_state self [L_Claimed] "begin_owned_execution" in
         execution_generation self) with
  | Err e => Some (Err e, self, w, db)
  | Ok generation =>
      let '(r, w', db') := begin_owned_response w instant now (aq_session_id (lc_request self))
            (aq_request_id (lc_request self)) (aq_doc_id (lc_request self)) (lc_behavior_id self)
            (aq_requester_did (lc_request self)) generation
            (lc_execution_lease_duration_secs self) env fault db in
      match r with
      | Err e => Some (Err e, self, w', db')
      | Ok doc_id => (λ self', (Ok doc_id, self', w', db')) <$> set_response_doc_id self doc_id
      end
  end.

Definition advance (self : RequestLifecycle) (env : nat → AttemptEnv DB) (db : DB)
    : result Error unit * RequestLifecycle * DB :=
  match (let? _ := ensure_lifecycle_state self [L_Streaming] "advance" in
         let? response_doc_id := with_context "advance() called before response doc created"
                                   (lc_response_doc_id self) in
         let? next := with_context "response progress overflow"
                        (checked_add u32_max (lc_progress_seq self) 1) in
         let? generation := execution_generation self in
         Ok (response_doc_id, next, generation)) with
  | Err e => (Err e, self, db)
  | Ok (response_doc_id, next, generation) =>
      let '(r, db') := execute_response_write
        {| fence_request_doc_id := aq_doc_id (lc_request self);
           fence_execution_generation := generation;
           fence_lease_duration_secs := lc_execution_lease_duration_secs self |}
        (update_AgentResponse (is_live response_doc_id) (set_p_progress_seq next))
        W_Progress env db in
      match r with
      | Err e => (Err e, self, db')
      | Ok _ => (Ok tt, set_lc_progress_seq next self, db')
      end
  end.

(** The response is not read: a processing row stands for a streaming one. *)
Definition validate_owned_execution (self : RequestLifecycle) (now : Z) (fault : option Error)
    (db : DB) : result Error unit :=
  let? row := request_view fault (aq_doc_id (lc_request self)) db in
  let? row := with_context "execution request disappeared" row in
  let? expiry := with_context "missing execution expiry" (r_expiry row) in
  let? deadline := parse_rfc3339 expiry in
  let? st := with_context "missing execution state" (r_state row) in
  let? g := with_context "missing execution generation" (r_generation row) in
  let? p := with_context "missing execution progress" (r_progress row) in
  let? seq := try_u64 p in
  let? generation := execution_generation self in
  ensure (authorize_live_execution
            {| ob_request := st; ob_response_streaming := Some true; ob_generation := g;
               ob_deadline := timestamp_millis deadline; ob_progress_seq := seq |}
            generation (timestamp_millis now) Op_Observe)
    (Msg (lit "execution lease expired or ownership was revoked")).

Definition terminalize_owned_without_stream (self : RequestLifecycle)
    (outcome : RequestTerminalOutcome) (reason : option str) (fresh : str)
    (env : nat → AttemptEnv DB) (db : DB)
    : result Error TerminalizeResult * RequestLifecycle * DB :=
  match execution_generation self with
  | Err e => (Err e, self, db)
  | Ok generation =>
      let reason := unwrap_or [] (match reason with Some r => Some r
                                                  | None => lc_failure_reason self end) in
      let '(r, db') := terminalize_execution (aq_doc_id (lc_request self)) (Owner generation)
                         outcome reason fresh env db in
      match r with
      | Err e => (Err e, self, db')
      | Ok Lost => (Ok Lost, self, db')
      | Ok w => (Ok w, set_lc_state (local_state outcome) self, db')
      end
  end.

(** [fenv] are the attempts of the final flush, [env] those of the terminal write. *)
Definition terminalize_owned (self : RequestLifecycle) (w : DefraStreamWriter) (instant : Z)
    (outcome : RequestTerminalOutcome) (reason : option str) (fresh : str)
    (fenv env : nat → AttemptEnv DB) (fault : option Error) (db : DB)
    : result Error TerminalizeResult * RequestLifecycle * DefraStreamWriter * DB :=
  let discard w := match lc_response_doc_id self with
                   | Some doc_id => discard_buffer doc_id w
                   | None => w
                   end in
  let flushed := match lc_state self, lc_response_doc_id self with
                 | L_Streaming, Some doc_id => flush_pending w instant doc_id fenv fault db
                 | _, _ => (Ok false, w, db)
                 end in
  match flushed with
  | (Err error, w1, db1) =>
      let failed := if outcome_eqb outcome O_Completed then O_Failed else outcome in
      let failure := lit "persisting final response preview: " ++ error_to_string error in
      let '(r, self', db2) := terminalize_owned_without_stream self failed
            (match reason with Some r => Some r | None => Some failure end) fresh env db1 in
      match r with
      | Err e => (Err e, self', w1, db2)
      | Ok res =>
          (if outcome_eqb outcome O_Completed
           then Err (Msg (lit "completion could not persist its final preview")) else Ok res,
           self', discard w1, db2)
      end
  | (Ok _, w1, db1) =>
      let '(r, self', db2) := terminalize_owned_without_stream self outcome reason fresh env db1 in
      match r with
      | Err e => (Err e, self', w1, db2)
      | Ok res => (Ok res, self', discard w1, db2)
      end
  end.
End lifecycle.

(** ** Sweeping *)

Record TerminalRepairReport : Type := {
  tr_scanned : Z; tr_repaired : Z; tr_awaiting_outcome : Z; tr_failed : Z
}.
Record ActiveRequestRecoveryReport : Type := {
  ar_requests : TerminalRepairReport; ar_responses_recovered : Z
}.

Definition bump_failed (r : ActiveRequestRecoveryReport) : ActiveRequestRecoveryReport :=
  let q := ar_requests r in
  {| ar_requests := {| tr_scanned := tr_scanned q; tr_repaired := tr_repaired q;
                       tr_awaiting_outcome := tr_awaiting_outcome q;
                       tr_failed := tr_failed q + 1 |};
     ar_responses_recovered := ar_responses_recovered r |}.
Definition bump_awaiting (r : ActiveRequestRecoveryReport) : ActiveRequestRecoveryReport :=
  let q := ar_requests r in
  {| ar_requests := {| tr_scanned := tr_scanned q; tr_repaired := tr_repaired q;
                       tr_awaiting_outcome := tr_awaiting_outcome q + 1;
                       tr_failed := tr_failed q |};
     ar_responses_recovered := ar_responses_recovered r |}.
Definition bump_repaired (r : ActiveRequestRecoveryReport) : ActiveRequestRecoveryReport :=
  let q := ar_requests r in
  {| ar_requests := {| tr_scanned := tr_scanned q; tr_repaired := tr_repaired q + 1;
                       tr_awaiting_outcome := tr_awaiting_outcome q;
                       tr_failed := tr_failed q |};
     ar_responses_recovered := ar_responses_recovered r + 1 |}.

(** The outcome recovery infers from the durable response. *)
Definition recovery_outcome (row : RequestRow) (response : option ResponseRow)
    : RequestTerminalOutcome :=
  let response_is_interrupted := is_some_and not_blank (response ≫= p_interrupted_at) in
  let interrupt_was_requested := is_some_and not_blank (r_interrupt row) in
  let otherwise := if interrupt_was_requested then O_Interrupted else O_Failed in
  match response with
  | Some p =>
      if str_eqb (p_status p) (lit "complete") then O_Completed
      else if str_eqb (p_status p) (lit "error")
           then if response_is_interrupted then O_Interrupted else O_Failed
           else otherwise
  | None => otherwise
  end.

Definition recovery_reason (outcome : RequestTerminalOutcome) (response : option ResponseRow) : str :=
  match outcome with
  | O_Completed => []
  | O_Interrupted => lit "interrupted"
  | O_Dead | O_Superseded | O_Failed =>
      match opt_filter not_blank (p_error_message <$> response) with
      | Some reason => reason
      | None => match response with
                | Some _ => lit "daemon restarted before response could be finalized"
                | None => lit "daemon restarted before response could be generated"
                end
      end
  end.

(** What the sweep meets at each row: the fault of the response read, the fresh
    generation and the attempts of the terminal write. *)
Record SweepEnv (DB : Type) : Type := {
  se_load_fault : option Error;
  se_fresh : str;
  se_attempts : nat → AttemptEnv DB
}.
Arguments se_load_fault {DB} _.
Arguments se_fresh {DB} _.
Arguments se_attempts {DB} _.

Section sweep.
Context {DB : Type} `{DocStore DB} `{Chrono}.

Definition load_recovery_response (fault : option Error) (agent_did doc_id : str) (db : DB)
    : result Error (option ResponseRow) :=
  read fault (first_response (λ p, str_eqb (pi_agent_did (p_ident p)) agent_did
                                   && str_eqb (pi_request_doc_id (p_ident p)) doc_id)) db.

Definition recover_row (agent_did : str) (now : Z) (row : RequestRow) (e : SweepEnv DB)
    (report : ActiveRequestRecoveryReport) (db : DB)
    : result Error (ActiveRequestRecoveryReport * DB) :=
  let doc_id := ri_doc_id (r_ident row) in
  match ri_session_id (r_ident row) with
  | None => Ok (bump_failed report, db)
  | Some _ =>
  let? response := load_recovery_response (se_load_fault e) agent_did doc_id db in
  match opt_filter not_blank (r_generation row) with
  | None => Ok (bump_failed report, db)
  | Some generation =>
  match opt_filter not_blank (r_expiry row) with
  | None => Ok (bump_failed report, db)
  | Some expected_expiry =>
  match parse_from_rfc3339 expected_expiry with
  | Err _ => Ok (bump_failed report, db)
  | Ok expiry =>
  match opt_filter (λ v, 0 <=? v) (r_progress row) with
  | None => Ok (bump_failed report, db)
  | Some progress =>
  if now <? expiry then Ok (bump_awaiting report, db)
  else
    let outcome := recovery_outcome row response in
    let '(r, db') := recover_execution_generation row generation expected_expiry progress
                       outcome (recovery_reason outcome response) (se_fresh e)
                       (se_attempts e) db in
    match r with
    | Ok Won => Ok (bump_repaired report, db')
    | Ok _ => Ok (report, db')
    | Err _ => Ok (bump_failed report, db')
    end
  end end end end end.

Fixpoint recover_rows (agent_did : str) (now : Z) (rows : list RequestRow)
    (env : nat → SweepEnv DB) (n : nat) (report : ActiveRequestRecoveryReport) (db : DB)
    : result Error (ActiveRequestRecoveryReport * DB) :=
  match rows with
  | [] => Ok (report, db)
  | row :: rows' =>
      let? (report', db') := recover_row agent_did now row (env n) report db in
      recover_rows agent_did now rows' env (S n) report' db'
  end.

Definition active_rows (agent_did : str) (c : Collections) : list RequestRow :=
  List.filter (λ r, col_is agent_did (ri_agent_did (r_ident r))
                    && match r_state r with Some Claimed | Some Processing => true | _ => false end)
    (requests c).

Definition recover_active_requests (agent_did : str) (fault : option Error) (now : Z)
    (env : nat → SweepEnv DB) (db : DB) : result Error (ActiveRequestRecoveryReport * DB) :=
  let? rows := read fault (active_rows agent_did) db in
  recover_rows agent_did now rows env 0
    {| ar_requests := {| tr_scanned := Z.of_nat (length rows); tr_repaired := 0;
                         tr_awaiting_outcome := 0; tr_failed := 0 |};
       ar_responses_recovered := 0 |} db.

(** ** Terminal convergence re-drive *)

Definition TERMINAL_REDRIVE_CAP : Z := 3.
Definition TERMINAL_REDRIVE_BATCH_LIMIT : nat := 64.

Record TerminalRedriveReport : Type := { rd_reasserted : Z; rd_scanned : Z; rd_failed : Z }.

Definition redrive_key_le (a b : RequestRow) : Prop :=
  let ka := unwrap_or [] (r_terminalized_at a) in
  let kb := unwrap_or [] (r_terminalized_at b) in
  if str_eqb ka kb then str_leb (ri_request_id (r_ident a)) (ri_request_id (r_ident b)) = true
  else str_leb ka kb = true.
#[global] Instance redrive_key_le_dec : RelDecision redrive_key_le.
Proof. intros a b. unfold redrive_key_le. destruct (str_eqb _ _); apply _. Defined.

Definition redrive_candidates (agent_did : str) (c : Collections) : list RequestRow :=
  take TERMINAL_REDRIVE_BATCH_LIMIT
    (merge_sort redrive_key_le
       (List.filter (λ r, col_is agent_did (ri_agent_did (r_ident r))
                          && bool_decide (is_Some (ri_requester_did (r_ident r)))
                          && is_some_and is_terminal (r_state r)
                          && is_some_and (λ n, n <? TERMINAL_REDRIVE_CAP) (r_redrive r))
          (requests c))).

Definition try_u32 (z : Z) : option Z :=
  if (0 <=? z) && (z <=? u32_max) then Some z else None.

Definition redrive_candidate (row : RequestRow)
    : result Error (str * RequestLifecycleState * Z) :=
  let? st := with_context "terminal AgentRequest is missing lifecycle_state" (r_state row) in
  let? n := with_context "terminal AgentRequest is missing terminal_redrive_attempts"
              (r_redrive row) in
  let? n := with_context "terminal AgentRequest terminal_redrive_attempts must fit in u32"
              (try_u32 n) in
  Ok (ri_doc_id (r_ident row), st, n).

Fixpoint collect {A B E} (f : A → result E B) (l : list A) : result E (list B) :=
  match l with
  | [] => Ok []
  | a :: l' => let? b := f a in let? bs := collect f l' in Ok (b :: bs)
  end.

(** [env n] is what the [n]-th re-assertion meets: other writers, then an error. *)
Fixpoint redrive_all (agent_did : str) (cands : list (str * RequestLifecycleState * Z))
    (env : nat → (DB → DB) * option Error) (n : nat) (report : TerminalRedriveReport) (db : DB)
    : TerminalRedriveReport * DB :=
  match cands with
  | [] => (report, db)
  | (doc_id, st, attempts) :: cands' =>
      let db := fst (env n) db in
      match snd (env n) with
      | Some _ =>
          redrive_all agent_did cands' env (S n)
            {| rd_reasserted := rd_reasserted report; rd_scanned := rd_scanned report;
               rd_failed := rd_failed report + 1 |} db
      | None =>
          let p r := doc_is doc_id r && col_is agent_did (ri_agent_did (r_ident r))
                     && bool_decide (is_Some (ri_requester_did (r_ident r)))
                     && opt_eqb state_eqb (r_state r) (Some st)
                     && opt_eqb Z.eqb (r_redrive r) (Some attempts) in
          let updated := negb (Nat.eqb (length (List.filter p (requests (view db)))) 0) in
          let db' := update_request p
                       (λ r, set_r_redrive (Some (saturating_add u32_max attempts 1))
                               (set_r_state (Some st) r)) db in
          redrive_all agent_did cands' env (S n)
            {| rd_reasserted := rd_reasserted report + (if updated then 1 else 0);
               rd_scanned := rd_scanned report; rd_failed := rd_failed report |} db'
      end
  end.

Definition redrive_terminal_convergence (agent_did : str) (fault : option Error)
    (env : nat → (DB → DB) * option Error) (db : DB)
    : result Error (TerminalRedriveReport * DB) :=
  let? rows := read fault (redrive_candidates agent_did) db in
  let? cands := collect redrive_candidate rows in
  Ok (redrive_all agent_did cands env 0
        {| rd_reasserted := 0; rd_scanned := Z.of_nat (length cands); rd_failed := 0 |} db).
End sweep.

(** ** Claims *)

Section claim_lemmas.
Context {DB : Type} `{DocStoreLaws DB} `{!Chrono}.
Implicit Types db : DB.

Lemma is_pending_true r : is_pending r = true <-> r_state r = Some Pending.
Proof.
  unfold is_pending. destruct (r_state r); simpl; [|naive_solver].
  rewrite state_eqb_true. naive_solver.
Qed.

Lemma str_leb_total a b : str_leb a b = true \/ str_leb b a = true.
Proof.
  revert b. induction a as [|x a IH]; intros [|y b]; simpl; auto.
  destruct (Z.ltb_spec x y), (Z.ltb_spec y x), (Z.eqb_spec x y), (Z.eqb_spec y x);
    simpl; auto; lia.
Qed.

Lemma str_leb_antisym a b : str_leb a b = true -> str_leb b a = true -> a = b.
Proof.
  revert b. induction a as [|x a IH]; intros [|y b]; simpl; try done.
  destruct (Z.ltb_spec x y), (Z.ltb_spec y x), (Z.eqb_spec x y), (Z.eqb_spec y x);
    simpl; try done; try lia.
  intros. subst. f_equal. by apply IH.
Qed.

Lemma str_leb_trans a b c : str_leb a b = true -> str_leb b c = true -> str_leb a c = true.
Proof.
  revert b c. induction a as [|x a IH]; intros [|y b] [|z c]; simpl; try done.
  destruct (Z.ltb_spec x y), (Z.ltb_spec y z), (Z.eqb_spec x y), (Z.eqb_spec y z);
    simpl; try done; intros;
    destruct (Z.ltb_spec x z), (Z.eqb_spec x z); simpl; try done; try lia.
  by eapply IH.
Qed.

#[global] Instance queue_le_total : Total queue_le.
Proof.
  intros a b. unfold queue_le. destruct (queue_key a) as [ca ia], (queue_key b) as [cb ib].
  unfold str_eqb. destruct (decide (ca = cb)) as [->|Hne].
  - rewrite bool_decide_true by done. apply str_leb_total.
  - rewrite !bool_decide_false by congruence. apply str_leb_total.
Qed.

#[global] Instance queue_le_trans : Transitive queue_le.
Proof.
  intros a b c. unfold queue_le.
  destruct (queue_key a) as [ca ia], (queue_key b) as [cb ib], (queue_key c) as [cc ic].
  unfold str_eqb. do 3 case_bool_decide; subst; try congruence; intros Hab Hbc;
    try (by eapply str_leb_trans).
  exfalso. by pose proof (str_leb_antisym _ _ Hab Hbc).
Qed.

Lemma find_first_sorted {A} (R : A → A → Prop) `{!Reflexive R} (p : A → bool) l a :
  StronglySorted R l -> List.find p l = Some a ->
  ∀ b, b ∈ l -> p b = true -> R a b.
Proof.
  induction 1 as [|x l Hs IH Hall]; simpl; [done|].
  destruct (p x) eqn:E; intros Hf b Hb Hp.
  - injection Hf as <-. apply elem_of_cons in Hb as [->|Hb]; [done|].
    rewrite List.Forall_forall in Hall. apply Hall. by apply list_elem_of_In.
  - apply elem_of_cons in Hb as [->|Hb]; [congruence|]. by apply IH.
Qed.

(** What the queue check establishes of the store it read. *)
Definition first_in_session (doc_id session_id : str) (c : Collections) : Prop :=
  (∀ r, r ∈ requests c -> ri_session_id (r_ident r) = Some session_id ->
        (r_state r = Some Claimed \/ r_state r = Some Processing) ->
        ri_doc_id (r_ident r) = doc_id) /\
  ∃ r0, r0 ∈ requests c /\ ri_doc_id (r_ident r0) = doc_id /\ r_state r0 = Some Pending /\
    ri_session_id (r_ident r0) = Some session_id /\
    ∀ r, r ∈ requests c -> ri_session_id (r_ident r) = Some session_id ->
         r_state r = Some Pending -> queue_le r0 r.

Lemma dedup_rows_elem session c r :
  r ∈ dedup_rows session c <->
  r ∈ requests c /\ ri_session_id (r_ident r) = Some session /\ is_live_state (r_state r) = true.
Proof.
  unfold dedup_rows. rewrite (merge_sort_Permutation queue_le).
  rewrite list_elem_of_In, List.filter_In, <- list_elem_of_In, andb_true_iff, col_is_true. tauto.
Qed.

Lemma earliest_is_first doc session c :
  dp_is_earliest (check_deduplication doc session c) = true -> first_in_session doc session c.
Proof.
  unfold check_deduplication. simpl. intros He. apply andb_true_iff in He as [Hb Hf].
  apply negb_true_iff, bool_decide_eq_false, eq_None_not_Some in Hb.
  split.
  - intros r Hr Hs Hst. destruct (doc_is doc r) eqn:Ed; [by apply doc_is_true|].
    exfalso. eapply List.find_none in Hb; [|apply list_elem_of_In, dedup_rows_elem; split_and!; try done].
    + rewrite Ed in Hb. simpl in Hb. unfold is_pending in Hb. by destruct Hst as [Hst|Hst]; rewrite Hst in Hb.
    + by destruct Hst as [Hst|Hst]; rewrite Hst.
  - destruct (List.find is_pending _) as [r0|] eqn:Ef; [|done]. simpl in Hf.
    pose proof Ef as Ef'. apply List.find_some in Ef as [Hin Hp].
    rewrite <- list_elem_of_In, dedup_rows_elem in Hin. destruct Hin as (Hin & Hs & _).
    exists r0. split_and!; [done|by apply doc_is_true|by apply is_pending_true|done|].
    intros r Hr Hrs Hrp.
    eapply (find_first_sorted queue_le is_pending); [|exact Ef'| |by apply is_pending_true].
    + apply (StronglySorted_merge_sort queue_le).
    + apply dedup_rows_elem. split_and!; try done. by rewrite Hrp.
    Unshelve. intros x. destruct (total queue_le x x); done.
Qed.

(** Columns of the request lifecycle a session write leaves alone. *)
Definition same_requests (c c' : Collections) : Prop :=
  requests c' = requests c /\ responses c' = responses c /\ messages c' = messages c.

Lemma session_write_frame p f row (s s' : DB * Faults) (b : bool) u :
  (if b then insert_session row else mutate_session p f) s = (Ok u, s') ->
  same_requests (view s.1) (view s'.1).
Proof.
  destruct b; unfold insert_session, mutate_session; intros Hb;
    apply execute_Ok in Hb as ([= ? <-] & _);
    rewrite ?view_create_session, ?view_update_session; done.
Qed.

Lemma conversation_write_frame row (s s' : DB * Faults) (b : bool) u :
  (if b then insert_conversation row else txn_ret tt) s = (Ok u, s') ->
  same_requests (view s.1) (view s'.1).
Proof.
  destruct b; [unfold insert_conversation|]; intros Hb.
  - apply execute_Ok in Hb as ([= ? <-] & _). by rewrite view_create_conversation.
  - apply txn_ret_Ok in Hb as [_ ->]. done.
Qed.

Lemma session_projection_frame pj (s s' : DB * Faults) u :
  apply_request_session_projection pj s = (Ok u, s') -> same_requests (view s.1) (view s'.1).
Proof.
  destruct s as [db fs], s' as [db' fs'].
  unfold apply_request_session_projection. intros Hw. txn_inv.
  destruct (List.find _ _); [by txn_inv|]. txn_inv.
  match goal with H : (if Nat.eqb _ _ then insert_session _ else _) _ = _ |- _ =>
    apply session_write_frame in H as (? & ? & ?) end.
  apply conversation_write_frame in Hw as (? & ? & ?). simpl in *. rewrite Hv in *. simpl in *.
  unfold same_requests. split_and!; congruence.
Qed.

Lemma claim_attempt_Ok doc session cap pj input (db : DB) fs rows snap db' fs' :
  claim_attempt doc session cap pj input (db, fs) = (Ok (rows, snap), (db', fs')) ->
  let f := input (if cap then Some snap else None) in
  rows = f <$> List.filter (λ r, doc_is doc r && is_pending r) (requests (view db)) /\
  requests (view db') = update_where (λ r, doc_is doc r && is_pending r) f (requests (view db)) /\
  responses (view db') = responses (view db).
Proof.
  intros Hw f. subst f. unfold claim_attempt in Hw. txn_inv. injection Hw as <- <-.
  assert (Hd : d = db) by (destruct cap; txn_inv; done). subst d.
  assert (Hfr : same_requests (view d0) (view d1)).
  { destruct (Nat.eqb _ _) in Hm1; [by txn_inv|].
    by apply session_projection_frame in Hm1. }
  destruct Hfr as (-> & -> & _). rewrite Hv. split_and!; done.
Qed.

Lemma claim_loop_Ok budget n body (env : nat → AttemptEnv DB) db v db' :
  claim_request_with_projection budget n body env db = (Ok v, db') ->
  ∃ now db0 fs fs', body now (db0, fs) = (Ok v, (db', fs')).
Proof.
  assert (Hrun : ∀ e x x', run_attempt (λ _, true) body e x = (Ok v, x') ->
            ∃ fs', body (ae_now e) (x, ae_faults e) = (Ok v, (x', fs'))).
  { intros e x x'. unfold run_attempt. destruct (ae_begin e); [done|].
    destruct (body _ _) as [[a|err] [x1 fs1]]; [|done].
    destruct (ae_commit e); try done. intros [= -> ->]. eauto. }
  revert n db. induction budget as [|budget IH]; intros n db; simpl;
    (destruct (ae_begin (env n)); [done|]);
    destruct (run_attempt _ _ _ _) as [[a|err] db1] eqn:Er.
  - intros [= -> ->]. apply Hrun in Er as [fs' Hb]. eauto.
  - done.
  - intros [= -> ->]. apply Hrun in Er as [fs' Hb]. eauto.
  - case_match; [apply IH|done].
Qed.

(** The path of [claim_inner] that reports [Claimed]. *)
Lemma claim_inner_Claimed from_str of_row version self ce db self' db' :
  claim_inner from_str of_row version self ce db = (Ok CO_Claimed, self', db') ->
  lc_state self = L_Pending /\ lc_state self' = L_Claimed /\
  lc_execution_lease self' = Some (ce_uuid ce) /\
  dp_is_earliest (check_deduplication (aq_doc_id (lc_request self))
                    (aq_session_id (lc_request self)) (view db)) = true /\
  ∃ rows snap claimed cid deadline cap pj db0 fs fs',
    claim_commit of_row version self rows = Ok (claimed, cid) /\
    claim_attempt (aq_doc_id (lc_request self)) (aq_session_id (lc_request self)) cap pj
      (claim_input self (to_rfc3339 (ce_now ce)) (ce_uuid ce)
         (to_rfc3339 (ce_now ce + seconds (wrap_i64 (lc_execution_lease_duration_secs self))))
         deadline) (db0, fs) = (Ok (rows, snap), (db', fs')).
Proof.
  unfold claim_inner. intros Hc.
  destruct (ensure_lifecycle_state self [L_Pending] "claim") as [[]|] eqn:Hst; [|done].
  assert (Hpend : lc_state self = L_Pending).
  { unfold ensure_lifecycle_state in Hst. case_bool_decide as Hin; [|done]. by apply list_elem_of_singleton in Hin. }
  destruct (read (ce_fetch_fault ce) _ db) as [orow|]; [|done].
  destruct orow as [row|]; cbn [ok_or] in Hc; [|done].
  destruct (nonempty_text (r_interrupt row)).
  { destruct (transition_pending_to_interrupted _ _ _ _ _) as [[] ?]; done. }
  destruct (parse_valid_until _ _) eqn:Httl; try done;
    try (destruct (transition_pending_to_dead_stale _ _ _ _ _) as [[[] ?] ?]; done);
    (destruct (read (ce_dedup_fault ce) _ db) as [dedup|] eqn:Hdd; [|done]);
    (destruct (negb (dp_is_earliest dedup)) eqn:He; [done|]);
    (destruct (claim_request_with_projection _ _ _ _ _) as [[[rows snap]|] db1] eqn:Hl; [|done]);
    (destruct (claim_commit _ _ _ _) as [[claimed cid]|] eqn:Hcc; [|done]);
    injection Hc as <- <-;
    apply negb_false_iff in He;
    unfold read in Hdd; (destruct (ce_dedup_fault ce); [done|]); injection Hdd as <-;
    (split_and!; [done|done|done|exact He|]);
    apply claim_loop_Ok in Hl as (now & db0 & fs & fs' & Hb);
    do 10 eexists; split; eassumption.
Qed.

Lemma claim_input_fields self at_ g e dl snap r :
  let row := claim_input self at_ g e dl snap r in
  r_ident row = r_ident r /\ r_state row = Some Claimed /\ r_generation row = Some g /\
  r_expiry row = Some e /\ r_progress row = Some 0.
Proof.
  unfold claim_input, snapshot_fields. destruct snap as [[th ks]|]; [|done]. by destruct th.
Qed.


(** A row of the document is in the given state. *)
Definition has_state (doc : str) (st : RequestLifecycleState) (c : Collections) : Prop :=
  ∃ r, r ∈ requests c /\ ri_doc_id (r_ident r) = doc /\ r_state r = Some st.

(** A guarded pending transition leaves a matching row in the target state, or
    finds one there. *)
Lemma pending_transition self (f : RequestRow → RequestRow) target what env fault db updated db' :
  (∀ r, r_ident (f r) = r_ident r /\ r_state (f r) = Some target) ->
  persist (λ _, true) (λ _ : Z, mutate_request (pending_filter self) f) env db = (Ok updated, db') ->
  (if Nat.eqb (length updated) 0
   then refuse_unless target what self (request_view fault (aq_doc_id (lc_request self)) db')
   else Ok tt) = Ok tt ->
  has_state (aq_doc_id (lc_request self)) target (view db').
Proof.
  intros Hf Hp. apply persist_Ok in Hp as (n & db0 & fs' & _ & Hm); [|done].
  apply mutate_request_Ok in Hm as [-> Hv]. cbn [fst] in *. rewrite length_fmap.
  destruct (List.filter (pending_filter self) (requests (view db0))) as [|r rs] eqn:Ef; simpl.
  - unfold refuse_unless, request_view, read. destruct fault; [done|].
    destruct (first_request _ _) as [row|] eqn:Er; simpl; [|done].
    destruct (r_state row) eqn:Est; simpl; [|done]. destruct (state_eqb _ _) eqn:Es; [|done].
    intros _. apply state_eqb_true in Es as ->. apply first_request_Some in Er as [? ?]. by exists row.
  - intros _. assert (Hin : List.In r (r :: rs)) by by left. rewrite <- Ef in Hin.
    apply List.filter_In in Hin as [Hin Hpf]. rewrite <- list_elem_of_In in Hin.
    exists (f r). destruct (Hf r) as [-> ->]. split_and!; [| |done].
    + rewrite Hv. simpl. rewrite elem_of_update_where. left. by exists r.
    + unfold pending_filter in Hpf. bool_prop. by apply doc_is_true.
Qed.

(** What [claim_inner] reports is what the store shows: [Interrupted] and
    [Expired] leave the request durably interrupted or dead (by this call or
    already), [Queued] changes nothing at all, and after an error the lifecycle is
    still in the local state it started in, so the caller may try again. *)
Theorem claim_outcome_matches_store from_str of_row version self ce db r self' db' :
  claim_inner from_str of_row version self ce db = (r, self', db') ->
  match r with
  | Ok CO_Interrupted => lc_state self' = L_Interrupted /\
      has_state (aq_doc_id (lc_request self)) Interrupted (view db')
  | Ok CO_Expired => lc_state self' = L_Dead /\
      has_state (aq_doc_id (lc_request self)) Dead (view db')
  | Ok CO_Queued => self' = self /\ db' = db
  | Ok CO_Claimed => lc_state self' = L_Claimed
  | Err _ => lc_state self' = lc_state self
  end.
Proof.
  unfold claim_inner. intros Hc.
  destruct (ensure_lifecycle_state self [L_Pending] "claim") as [[]|] eqn:Hst; [|by injection Hc as <- <- <-].
  destruct (read (ce_fetch_fault ce) _ db) as [orow|]; [|by injection Hc as <- <- <-].
  destruct orow as [row|]; cbn [ok_or] in Hc; [|by injection Hc as <- <- <-].
  destruct (nonempty_text (r_interrupt row)).
  { unfold transition_pending_to_interrupted in Hc.
    destruct (persist _ _ _ _) as [[updated|] db1] eqn:Hp; [|by injection Hc as <- <- <-].
    pose proof (λ Hf, pending_transition _ _ Interrupted
      " could not transition pending -> interrupted; current lifecycle_state="
      _ (ce_view_fault ce) _ _ _ Hf Hp) as Ht.
    specialize (Ht (λ r, conj eq_refl eq_refl)).
    destruct (Nat.eqb (length updated) 0); [|injection Hc as <- <- <-; auto].
    destruct (refuse_unless _ _ _ _) as [[]|]; injection Hc as <- <- <-; auto. }
  destruct (parse_valid_until _ _) eqn:Httl;
    [| |unfold transition_pending_to_dead_stale in Hc;
        destruct (persist _ _ _ _) as [[updated|] db1] eqn:Hp; [|by injection Hc as <- <- <-];
        pose proof (λ Hf, pending_transition _ _ Dead
          " could not transition pending -> dead; current lifecycle_state="
          _ (ce_view_fault ce) _ _ _ Hf Hp) as Ht;
        specialize (Ht (λ r, conj eq_refl eq_refl));
        destruct (Nat.eqb (length updated) 0); [|injection Hc as <- <- <-; auto];
        destruct (refuse_unless _ _ _ _) as [[]|]; injection Hc as <- <- <-; auto
       |by injection Hc as <- <- <-];
    (destruct (read (ce_dedup_fault ce) _ db) as [dedup|] eqn:Hdd; [|by injection Hc as <- <- <-]);
    (destruct (negb (dp_is_earliest dedup)); [by injection Hc as <- <- <-|]);
    (destruct (claim_request_with_projection _ _ _ _ _) as [[[rows snap]|] db1];
       [|by injection Hc as <- <- <-]);
    destruct (claim_commit _ _ _ _) as [[claimed cid]|]; by injection Hc as <- <- <-.
Qed.

(** A completed outcome certifies a persisted preview.  When
    [terminalize_owned] is asked to complete a streaming request it succeeds only
    if the final flush succeeded; if the flush failed, the request is settled as
    failed (or interrupted) instead and the caller gets an error.  Whenever it
    returns, a lost terminal write leaves the local state alone, and otherwise the
    local state is the one of the outcome it was asked for. *)
Theorem completion_certifies_flush self w i reason fresh fenv env fault db r self' w' db' doc :
  lc_state self = L_Streaming -> lc_response_doc_id self = Some doc ->
  terminalize_owned self w i O_Completed reason fresh fenv env fault db = (r, self', w', db') ->
  match flush_pending w i doc fenv fault db with
  | (Ok _, w1, db1) =>
      match r with
      | Ok Lost => lc_state self' = L_Streaming
      | Ok _ => lc_state self' = L_Completed
      | Err _ => lc_state self' = L_Streaming
      end
  | (Err _, w1, db1) => is_ok r = false /\ lc_state self' <> L_Completed
  end.
Proof.
  intros Hst Hdoc. unfold terminalize_owned. rewrite Hst, Hdoc.
  destruct (flush_pending w i doc fenv fault db) as [[[x|err] w1] db1];
    unfold terminalize_owned_without_stream;
    destruct (execution_generation self) as [g|eg]; cbn [outcome_eqb].
  - destruct (terminalize_execution _ _ _ _ _ _ _) as [[[]|] db2];
      intros [= <- <- <- <-]; done.
  - intros [= <- <- <- <-]; done.
  - destruct (terminalize_execution _ _ _ _ _ _ _) as [[[]|] db2];
      intros [= <- <- <- <-]; simpl; split; try done; congruence.
  - intros [= <- <- <- <-]; simpl; split; try done; congruence.
Qed.
End claim_lemmas.

(** ** The sweep *)

Section sweep_lemmas.
Context {DB : Type} `{DocStoreLaws DB} `{!Chrono}.
Implicit Types db : DB.

(** Only the named request can differ. *)
Definition only_doc (d : str) (c c' : Collections) : Prop :=
  ∀ d', d' <> d -> first_request d' c' = first_request d' c.

Lemma terminalize_only_doc d a out reason fresh env db :
  (∀ n x, ae_interference (env n) x = x) ->
  only_doc d (view db) (view (snd (terminalize_execution d a out reason fresh env db))).
Proof.
  intros Hq. unfold terminalize_execution.
  apply (persist_rel (λ x y, only_doc d (view x) (view y))).
  - done.
  - intros x y z Hxy Hyz d' Hd. by rewrite Hyz, Hxy.
  - intros n x. by rewrite Hq.
  - intros now fs x w x' fs' Hw Hwon d' Hd. destruct w; try done.
    apply terminalize_Won in Hw
      as (row & st & g & e & seq & dl & agent & session & m & ids & l' & _ & _ & _ & _ & _ & _ & _ &
          _ & _ & Hv).
    rewrite (first_request_update d' _ _ (view x) (view x')
               (finish_request_ident _ _ _ _) (ltac:(by rewrite Hv))).
    destruct (first_request d' (view x)) as [q|] eqn:E; [|done].
    simpl. apply first_request_Some in E as [_ E]. f_equal.
    destruct (request_cas _ _ _ _ _ q) eqn:Ec; [|done]. apply request_cas_true in Ec. naive_solver.
Qed.

Definition accounted (r r' : ActiveRequestRecoveryReport) : Prop :=
  tr_scanned (ar_requests r') = tr_scanned (ar_requests r) /\
  0 <= tr_repaired (ar_requests r') - tr_repaired (ar_requests r) /\
  ar_responses_recovered r' - ar_responses_recovered r =
    tr_repaired (ar_requests r') - tr_repaired (ar_requests r) /\
  0 <= (tr_repaired (ar_requests r') - tr_repaired (ar_requests r))
       + (tr_awaiting_outcome (ar_requests r') - tr_awaiting_outcome (ar_requests r))
       + (tr_failed (ar_requests r') - tr_failed (ar_requests r)) <= 1.

(** The lease of a row has passed at [now]. *)
Definition expired_at (now : Z) (row : RequestRow) : Prop :=
  ∃ e t, r_expiry row = Some e /\ parse_from_rfc3339 e = Ok t /\ t <= now.

Lemma recover_row_spec agent now row e report db report' db' :
  (∀ n x, ae_interference (se_attempts e n) x = x) ->
  recover_row agent now row e report db = Ok (report', db') ->
  accounted report report' /\
  (db' = db \/ expired_at now row /\ only_doc (ri_doc_id (r_ident row)) (view db) (view db')).
Proof.
  intros Hq. unfold recover_row, accounted. destruct (ri_session_id _); [|intros [= <- <-]; simpl; split; [lia|auto]].
  destruct (load_recovery_response _ _ _ _); [|done].
  destruct (opt_filter not_blank (r_generation row)); [|intros [= <- <-]; simpl; split; [lia|auto]].
  destruct (opt_filter not_blank (r_expiry row)) as [x|] eqn:Hx; [|intros [= <- <-]; simpl; split; [lia|auto]].
  destruct (parse_from_rfc3339 x) as [t|] eqn:Ht; [|intros [= <- <-]; simpl; split; [lia|auto]].
  destruct (opt_filter _ (r_progress row)); [|intros [= <- <-]; simpl; split; [lia|auto]].
  destruct (Z.ltb_spec now t); [intros [= <- <-]; simpl; split; [lia|auto]|].
  assert (Hexp : expired_at now row).
  { exists x, t. split_and!; [|done|done]. destruct (r_expiry row); simpl in Hx; [|done].
    destruct (not_blank _); naive_solver. }
  unfold recover_execution_generation.
  pose proof (λ a out rs fr, terminalize_only_doc (ri_doc_id (r_ident row)) a out rs fr _ db Hq) as Ho.
  match goal with |- context [terminalize_execution ?d ?a ?o ?rs ?fr ?en db] =>
    specialize (Ho a o rs fr); destruct (terminalize_execution d a o rs fr en db) as [[[]|] db1] end;
    intros [= <- <-]; simpl; (split; [lia|right; done]).
Qed.

Lemma recover_rows_spec agent now env :
  (∀ n m (x : DB), ae_interference (se_attempts (env n) m) x = x) ->
  ∀ l n r0 x report db', recover_rows agent now l env n r0 x = Ok (report, db') ->
    tr_scanned (ar_requests report) = tr_scanned (ar_requests r0) /\
    0 <= tr_repaired (ar_requests report) - tr_repaired (ar_requests r0) /\
    ar_responses_recovered report - ar_responses_recovered r0 =
      tr_repaired (ar_requests report) - tr_repaired (ar_requests r0) /\
    0 <= (tr_repaired (ar_requests report) - tr_repaired (ar_requests r0))
       + (tr_awaiting_outcome (ar_requests report) - tr_awaiting_outcome (ar_requests r0))
       + (tr_failed (ar_requests report) - tr_failed (ar_requests r0)) <= Z.of_nat (length l) /\
    ∀ d, first_request d (view db') <> first_request d (view x) ->
      ∃ row, row ∈ l /\ ri_doc_id (r_ident row) = d /\ expired_at now row.
Proof.
  intros Hq. induction l as [|row l IH]; intros n r0 x rep x'; simpl.
  - intros [= <- <-]. split_and!; try lia. done.
  - destruct (recover_row agent now row (env n) r0 x) as [[r1 x1]|] eqn:Er; [|done]. intros Hl.
    apply recover_row_spec in Er as [(Hs & Ha & Hb & Hc) Hd]; [|apply Hq].
    apply IH in Hl as (Hs' & Ha' & Hb' & Hc' & Hd'). split_and!; try lia.
    intros d Hne. destruct (decide (first_request d (view x') = first_request d (view x1))) as [Heq|Hne'].
    + exists row. rewrite Heq in Hne. destruct Hd as [->|[He Ho]]; [done|].
      split_and!; [by left| |done].
      destruct (decide (ri_doc_id (r_ident row) = d)) as [|Hdd]; [done|].
      exfalso. apply Hne. apply Ho. congruence.
    + destruct (Hd' d Hne') as (row' & Hin & ?). exists row'. split; [by right|done].
Qed.

(** The recovery sweep touches only what has expired and reports what it did.
    With no other writer at work, every request the sweep changed is one of the
    agent's claimed or processing rows whose lease had passed when the sweep
    began; each scanned row is counted at most once, as repaired, awaiting its
    outcome or failed; and exactly as many responses as requests are recovered. *)
Theorem sweep_spares_live_leases agent fault now env db report db' :
  (∀ n m x, ae_interference (se_attempts (env n) m) x = x) ->
  recover_active_requests agent fault now env db = Ok (report, db') ->
  let q := ar_requests report in
  tr_scanned q = Z.of_nat (length (active_rows agent (view db))) /\
  ar_responses_recovered report = tr_repaired q /\ 0 <= tr_repaired q /\
  0 <= tr_repaired q + tr_awaiting_outcome q + tr_failed q <= tr_scanned q /\
  ∀ d, first_request d (view db') <> first_request d (view db) ->
    ∃ row, row ∈ active_rows agent (view db) /\ ri_doc_id (r_ident row) = d /\ expired_at now row.
Proof.
  intros Hq. unfold recover_active_requests, read. destruct fault; [done|].
  set (rows := active_rows agent (view db)). simpl.
  intros Hl. apply recover_rows_spec in Hl as (Hs & Ha & Hb & Hc & Hd);
    [|exact Hq]. simpl in *.
  split_and!; try lia. exact Hd.
Qed.
End sweep_lemmas.

(** ** Re-drive *)

Section redrive_lemmas.
Context {DB : Type} `{DocStoreLaws DB}.
Implicit Types db : DB.

(** A row differs at most in its re-drive counter, which moved up within the cap. *)
Definition redriven (r r' : RequestRow) : Prop :=
  ∃ n, r' = set_r_redrive n r /\
    (n = r_redrive r \/ ∃ k, r_redrive r = Some k /\ k < TERMINAL_REDRIVE_CAP /\
       0 <= k /\ ∃ k', n = Some k' /\ k <= k' <= TERMINAL_REDRIVE_CAP).

Lemma redriven_refl r : redriven r r.
Proof. exists (r_redrive r). split; [by destruct r|auto]. Qed.

Lemma redriven_trans a b c : redriven a b -> redriven b c -> redriven a c.
Proof.
  intros (n & -> & Hn) (m & -> & Hm). exists m. split; [by destruct a|]. simpl in Hm.
  destruct Hm as [->|(k & -> & Hk & Hk0 & k' & -> & Hk')]; [done|].
  destruct Hn as [Hn|(j & Hj & Hjc & Hj0 & j' & Hj' & Hjj)].
  - right. exists k. split_and!; try done. eauto.
  - right. exists j. simplify_eq. split_and!; try done. exists k'. split; [done|lia].
Qed.

Lemma redrive_all_rows agent cands env n report db :
  (∀ n x, fst (env n) x = x) ->
  Forall (λ c, 0 <= snd c < TERMINAL_REDRIVE_CAP) cands ->
  let '(report', db') := redrive_all agent cands env n report db in
  Forall2 redriven (requests (view db)) (requests (view db')) /\
  rd_scanned report' = rd_scanned report /\
  0 <= (rd_reasserted report' - rd_reasserted report) + (rd_failed report' - rd_failed report)
    <= Z.of_nat (length cands).
Proof.
  intros Hq. revert n report db. induction cands as [|[[d st] k] cands IH]; intros n report db Hc; simpl.
  { split_and!; try lia. apply Forall_Forall2_diag, Forall_forall. intros; apply redriven_refl. }
  inversion_clear Hc as [|? ? Hk Hcs]. simpl in Hk. rewrite Hq.
  destruct (snd (env n)).
  - specialize (IH (S n) {| rd_reasserted := rd_reasserted report; rd_scanned := rd_scanned report;
                            rd_failed := rd_failed report + 1 |} db Hcs).
    destruct (redrive_all _ _ _ _ _ _) as [rep' db']. simpl in IH. naive_solver lia.
  - match goal with |- context [redrive_all _ _ _ _ ?rep ?x] => specialize (IH (S n) rep x Hcs) end.
    destruct (redrive_all _ _ _ _ _ _) as [rep' db']. cbn [rd_reasserted rd_scanned rd_failed] in IH.
    destruct IH as (Hrows & Hs & Hr). rewrite view_update_request in Hrows. simpl in Hrows.
    split_and!; [|done|case_match; lia..].
    apply (Forall2_trans redriven redriven redriven _ _ _ redriven_trans) with
      (2 := Hrows).
    unfold update_where. apply Forall2_fmap_r, Forall_Forall2_diag, Forall_forall. intros r _. unfold compose.
    match goal with |- context [if ?b then _ else _] => destruct b eqn:Ep end;
      [|apply redriven_refl]. bool_prop.
    exists (Some (saturating_add u32_max k 1)).
    assert (Hst : r_state r = Some st).
    { destruct (r_state r); simpl in *; [|done]. f_equal. by apply state_eqb_true. }
    assert (Hrd : r_redrive r = Some k).
    { destruct (r_redrive r); simpl in *; [|done]. f_equal. by apply Z.eqb_eq. }
    split.
    { destruct r. unfold set_r_redrive, set_r_state. simpl in *. by rewrite Hst. }
    right. exists k. split_and!; [done|lia|lia|]. eexists. split; [done|].
    assert (u32_max = 4294967295) by done. unfold TERMINAL_REDRIVE_CAP in *. mlia.
Qed.

Lemma collect_Forall {A B E} (f : A → result E B) (P : B → Prop) l bs :
  collect f l = Ok bs -> (∀ a b, a ∈ l -> f a = Ok b -> P b) ->
  Forall P bs /\ length bs = length l.
Proof.
  revert bs. induction l as [|a l IH]; intros bs; simpl.
  - intros [= <-] _. done.
  - destruct (f a) as [b|] eqn:Hfa; [|done]. destruct (collect f l) as [bs'|]; [|done].
    intros [= <-] HP. destruct (IH bs' eq_refl) as [? Hl]; [by intros; eapply HP; [right|]|].
    split; [|simpl; by rewrite Hl]. constructor; [|done]. eapply HP; [by left|done].
Qed.

(** Re-asserting terminal states is bounded and changes nothing else.  With no
    other writer at work, a re-drive leaves every request as it was except for its
    persisted attempt counter, which only moves up and never past the cap of 3, so
    a request is re-asserted a bounded number of times across restarts; one pass
    takes at most 64 candidates and counts each at most once. *)
Theorem redrive_is_bounded agent fault env db report db' :
  (∀ n x, fst (env n) x = x) ->
  redrive_terminal_convergence agent fault env db = Ok (report, db') ->
  Forall2 redriven (requests (view db)) (requests (view db')) /\
  rd_scanned report <= Z.of_nat TERMINAL_REDRIVE_BATCH_LIMIT /\
  rd_reasserted report + rd_failed report <= rd_scanned report.
Proof.
  intros Hq. unfold redrive_terminal_convergence, read. destruct fault; [done|].
  destruct (collect redrive_candidate _) as [cands|] eqn:Ec; [|done]. intros [= Hr].
  apply (collect_Forall _ (λ c, 0 <= snd c < TERMINAL_REDRIVE_CAP)) in Ec as [Hall Hlen].
  - pose proof (redrive_all_rows agent cands env 0
      {| rd_reasserted := 0; rd_scanned := Z.of_nat (length cands); rd_failed := 0 |} db Hq Hall) as Hd.
    rewrite Hr in Hd. simpl in Hd. destruct Hd as (? & Hs & ?). split_and!; [done| |lia].
    rewrite Hs, Hlen. unfold redrive_candidates. rewrite length_take. lia.
  - intros r [[d st] k] Hin Hc. unfold redrive_candidates in Hin.
    apply elem_of_take in Hin as (i & Hi & _). apply list_elem_of_lookup_2 in Hi.
    rewrite (merge_sort_Permutation redrive_key_le) in Hi.
    apply list_elem_of_In, List.filter_In in Hi as [_ Hp]. bool_prop.
    unfold redrive_candidate in Hc. destruct (r_state r); [|done]. simpl in Hc.
    destruct (r_redrive r) as [m|]; [|done]. simpl in *. unfold try_u32 in Hc.
    destruct (_ && _) eqn:Em; [|done]. injection Hc as <- <- <-. simpl. bool_prop. lia.
Qed.
End redrive_lemmas.

(** ** Witnesses *)

Definition demo_agent_request : AgentRequest :=
  {| aq_doc_id := lit "d1"; aq_request_id := lit "r1"; aq_agent_did := lit "did:a";
     aq_requester_did := None; aq_session_id := lit "s1"; aq_content := lit "hello";
     aq_metadata := None; aq_deadline := None |}.
Definition demo_lifecycle (st : LocalLifecycleState) : RequestLifecycle :=
  {| lc_agent_name := lit "a"; lc_agent_did := lit "did:a"; lc_behavior_id := lit "default";
     lc_backend_id := lit "b"; lc_failure_reason := None; lc_request := demo_agent_request;
     lc_request_commit_cid := None; lc_response_doc_id := Some (lit "p1"); lc_progress_seq := 0;
     lc_deadline_duration_secs := 600; lc_claimed_deadline_at := None;
     lc_bg_input_through_sequence := None; lc_state := st; lc_valid_until_at_claim := None;
     lc_execution_lease := Some (lit "g1"); lc_execution_lease_duration_secs := 60 |}.
Definition demo_claim_env : ClaimEnv Collections :=
  {| ce_fetch_fault := None; ce_now_ttl := 1000000; ce_dedup_fault := None; ce_between db := db;
     ce_now := 2000000; ce_uuid := lit "g9"; ce_attempts _ := demo_env Committed 2000000;
     ce_view_fault := None; ce_title := None |}.
Definition demo_pending_db : Collections :=
  {| requests := [demo_request Pending]; responses := []; sessions := []; conversations := [];
     messages := [] |}.
Definition demo_claim :=
  @claim_inner Collections _ demo_chrono (λ _, None) (λ _, Ok demo_agent_request)
    (λ _, Ok (Some (lit "cid"))) (demo_lifecycle L_Pending) demo_claim_env demo_pending_db.


Lemma claim_outcome_matches_store_witness :
  let c := @claim_inner Collections _ demo_chrono (λ _, None) (λ _, Ok demo_agent_request)
             (λ _, Ok (Some (lit "cid"))) (demo_lifecycle L_Pending) demo_claim_env
             (set_requests [set_r_interrupt (Some (lit "t1")) (demo_request Pending)] demo_pending_db) in
  has_state (lit "d1") Interrupted (view (snd c)).
Proof.
  intros c.
  assert (Hc : c = (Ok CO_Interrupted, snd (fst c), snd c)) by (vm_compute; reflexivity).
  exact (proj2 (@claim_outcome_matches_store Collections _ memory_store_laws demo_chrono
    _ _ _ _ _ _ _ _ _ Hc)).
Defined.

Lemma completion_certifies_flush_witness :
  let t := @terminalize_owned Collections _ demo_chrono (demo_lifecycle L_Streaming) demo_writer 30
             O_Completed None (lit "g2") (λ _, demo_env (Refused (Msg [])) 3000000)
             (λ _, demo_env Committed 4000000) None demo_db in
  is_ok (fst (fst (fst t))) = false.
Proof.
  intros t.
  pose proof (@completion_certifies_flush Collections _ demo_chrono
    (demo_lifecycle L_Streaming) demo_writer 30 None (lit "g2")
    (λ _, demo_env (Refused (Msg [])) 3000000) (λ _, demo_env Committed 4000000) None demo_db
    (fst (fst (fst t))) (snd (fst (fst t))) (snd (fst t)) (snd t) (lit "p1") eq_refl eq_refl) as H.
  assert (Ht : t = (fst (fst (fst t)), snd (fst (fst t)), snd (fst t), snd t))
    by (vm_compute; reflexivity).
  specialize (H Ht).
  assert (Hf : is_ok (fst (fst (@flush_pending Collections _ demo_chrono demo_writer 30 (lit "p1")
            (λ _, demo_env (Refused (Msg [])) 3000000) None demo_db))) = false)
    by (vm_compute; reflexivity).
  destruct (flush_pending _ _ _ _ _ _) as [[[x|e] w1] db1]; [discriminate Hf|exact (proj1 H)].
Defined.

Lemma sweep_spares_live_leases_witness :
  let env (_ : nat) := {| se_load_fault := None; se_fresh := lit "g2";
                          se_attempts _ := demo_env Committed 6000000 |} in
  ∃ report db', @recover_active_requests Collections _ demo_chrono (lit "did:a") None 6000000 env demo_db
                  = Ok (report, db') /\ tr_scanned (ar_requests report) = 1.
Proof.
  intros env.
  pose (r := @recover_active_requests Collections _ demo_chrono (lit "did:a") None 6000000 env demo_db).
  assert (Hr : match r with Ok p => r = Ok (fst p, snd p) | Err _ => False end)
    by (vm_compute; reflexivity).
  destruct r as [[report db']|] eqn:E; [|destruct Hr].
  exists report, db'. split; [exact E|].
  destruct (@sweep_spares_live_leases Collections _ memory_store_laws demo_chrono (lit "did:a") None
    6000000 env demo_db report db' (λ _ _ _, eq_refl) E) as [Hs _].
  rewrite Hs. vm_compute. reflexivity.
Defined.

Lemma redrive_is_bounded_witness :
  let row := set_r_redrive (Some 2) (demo_request Completed) in
  let row := {| r_ident := {| ri_doc_id := lit "d1"; ri_request_id := lit "r1";
                              ri_agent_did := Some (lit "did:a"); ri_requester_did := Some (lit "did:q");
                              ri_behavior_id := None; ri_session_id := None; ri_created_at := None;
                              ri_metadata := None; ri_content := [];
                              ri_trigger_id := None; ri_trigger_kind := None; ri_correlation := None;
                              ri_retry_key := None; ri_workspace_id := None; ri_parent_request_id := None;
                              ri_trigger_context := None |};
                r_state := r_state row; r_generation := None; r_expiry := None; r_progress := None;
                r_interrupt := None; r_valid_until := None; r_deadline := None; r_backend := None;
                r_claimed_at := None; r_failure := None; r_terminalized_at := None;
                r_redrive := r_redrive row; r_bg_seq := None; r_bg_keys := None |} in
  ∃ report db', @redrive_terminal_convergence Collections _ (lit "did:a") None (λ _, (λ x, x, None))
                  (set_requests [row] demo_db) = Ok (report, db') /\
    rd_reasserted report + rd_failed report <= rd_scanned report /\ rd_reasserted report = 1.
Proof.
  intros row0 row.
  pose (r := @redrive_terminal_convergence Collections _ (lit "did:a") None (λ _, (λ x, x, None))
               (set_requests [row] demo_db)).
  assert (Hr : match r with Ok p => rd_reasserted (fst p) = 1 | Err _ => False end)
    by (vm_compute; reflexivity).
  destruct r as [[report db']|] eqn:E; [|destruct Hr].
  exists report, db'. split; [exact E|]. split; [|exact Hr].
  exact (proj2 (proj2 (@redrive_is_bounded Collections _ memory_store_laws (lit "did:a") None
    (λ _, (λ x, x, None)) (set_requests [row] demo_db) report db' (λ _ _, eq_refl) E))).
Defined.
