(* ===== verification/LeaseSystem.v ===== *)
(** * The request system

    The committed effects of every lifecycle operation as one step relation over
    the store: runtimes claiming, beginning, streaming and settling requests,
    recovery and revocation, dropped owners, interruption requests and re-drives,
    interleaved in any order.  Invariants are proved by rule induction, and the
    retry loops of the operations are shown to be sequences of these steps. *)

From S2P Require Import Prelude RustStr RequestState Retry Store ExecutionLease Streaming Lifecycle.

(** ** Agreement of requests and responses *)

Definition req_doc (r : RequestRow) : str := ri_doc_id (r_ident r).
Definition resp_req (p : ResponseRow) : str := pi_request_doc_id (p_ident p).

(** A response of request [d] with the given liveness. *)
Definition has_response (rs : list ResponseRow) (d : str) (live : bool) : Prop :=
  ∃ p, p ∈ rs /\ resp_req p = d /\ is_streaming p = live.

(** The responses a request may have in each state. *)
Definition pair_ok (rs : list ResponseRow) (d : str) (st : option RequestLifecycleState) : Prop :=
  match st with
  | None => True
  | Some Processing => has_response rs d true
  | Some s => if is_terminal s then ¬ has_response rs d true
              else ∀ b, ¬ has_response rs d b
  end.

Record Coherent (c : Collections) : Prop := {
  co_requests : NoDup (req_doc <$> requests c);
  co_responses : NoDup (p_doc_id <$> responses c);
  co_one : NoDup (resp_req <$> responses c);
  co_agent : ∀ r p, r ∈ requests c -> p ∈ responses c -> resp_req p = req_doc r ->
               ri_agent_did (r_ident r) = Some (pi_agent_did (p_ident p));
  co_pair : ∀ r, r ∈ requests c -> pair_ok (responses c) (req_doc r) (r_state r)
}.

(** ** Steps *)

(** The response mutations the stream writer and [advance] make. *)
Definition keeps_status (m : ResponseMutation) : Prop :=
  match m with
  | update_AgentResponse _ f =>
      ∀ p, p_ident (f p) = p_ident p /\ p_doc_id (f p) = p_doc_id p /\ p_status (f p) = p_status p
  | create_AgentResponse _ => False
  end.

Section system.
Context {DB : Type} `{DocStore DB} `{Chrono}.

(** [Some d] records that request [d] was settled by the terminal owner. *)
Inductive step : DB → option str → DB → Prop :=
| step_begin f agent session rid beh requester ts now fs ids db db' fs' row :
    response_write_attempt f
      (create_AgentResponse (begun_response agent session rid (fence_request_doc_id f) beh requester ts))
      W_Begin now (db, fs) = (Ok ids, (db', fs')) ->
    first_request (fence_request_doc_id f) (view db) = Some row ->
    ri_agent_did (r_ident row) = Some agent ->
    step db None db'
| step_write f m k now fs ids db db' fs' :
    response_write_attempt f m k now (db, fs) = (Ok ids, (db', fs')) ->
    k <> W_Begin -> keeps_status m ->
    step db None db'
| step_terminalize d a out reason fresh now fs db db' fs' :
    terminalize_attempt d a out reason fresh now (db, fs) = (Ok Won, (db', fs')) ->
    step db (Some d) db'
| step_claim self at_ g e dl session cap pj fs rows snap db db' fs' :
    claim_attempt (aq_doc_id (lc_request self)) session cap pj
      (claim_input self at_ g e dl) (db, fs) = (Ok (rows, snap), (db', fs')) ->
    step db None db'
| step_pending self f st db :
    st = Interrupted \/ st = Dead ->
    (∀ r, r_ident (f r) = r_ident r /\ r_state (f r) = Some st) ->
    step db None (update_request (pending_filter self) f db)
| step_reject self reason ts fs res db db' fs' :
    reject_attempt self reason ts (db, fs) = (Ok res, (db', fs')) ->
    step db None db'
| step_relinquish doc g now db : step db None (relinquish doc g now db)
| step_annotate p f db :
    (∀ r, r_ident (f r) = r_ident r /\ (p r = true -> r_state (f r) = r_state r)) ->
    step db None (update_request p f db).

(** The events of a run, oldest first. *)
Inductive run : DB → list (option str) → DB → Prop :=
| run_nil db : run db [] db
| run_cons db e db1 es db' : step db e db1 -> run db1 es db' -> run db (e :: es) db'.
End system.

(** ** Coherence is preserved *)

Definition same_for (d : str) (rs rs' : list ResponseRow) : Prop :=
  ∀ b, has_response rs' d b <-> has_response rs d b.

Lemma pair_ok_same rs rs' d st : same_for d rs rs' -> pair_ok rs d st -> pair_ok rs' d st.
Proof.
  intros Hs. unfold pair_ok. destruct st as [[]|]; simpl; rewrite ?(Hs true); try done;
    intros Hno b; rewrite (Hs b); apply Hno.
Qed.

Lemma NoDup_fmap_inj {A B} (g : A → B) l x y :
  NoDup (g <$> l) -> x ∈ l -> y ∈ l -> g x = g y -> x = y.
Proof.
  induction l as [|a l IH]; simpl; [by intros _ ?%elem_of_nil|].
  intros Hc Hx Hy Hxy. pose proof (NoDup_cons_1_1 _ _ Hc) as Hn. apply NoDup_cons_1_2 in Hc.
  apply elem_of_cons in Hx as [->|Hx], Hy as [->|Hy]; try done.
  - exfalso. apply Hn. rewrite Hxy. by apply list_elem_of_fmap_2.
  - exfalso. apply Hn. rewrite <- Hxy. by apply list_elem_of_fmap_2.
  - by apply IH.
Qed.

(** A store whose requests were updated in place and whose responses keep their
    identities is coherent when every pair is. *)
Lemma coherent_intro c c' (p : RequestRow → bool) f :
  Coherent c ->
  requests c' = update_where p f (requests c) -> (∀ r, r_ident (f r) = r_ident r) ->
  NoDup (p_doc_id <$> responses c') -> NoDup (resp_req <$> responses c') ->
  (∀ r q, r ∈ requests c -> q ∈ responses c' -> resp_req q = req_doc r ->
     ri_agent_did (r_ident r) = Some (pi_agent_did (p_ident q))) ->
  (∀ r, r ∈ requests c -> pair_ok (responses c') (req_doc r) (r_state (if p r then f r else r))) ->
  Coherent c'.
Proof.
  intros [] Hreq Hf Hd1 Hd2 Hag Hpair.
  assert (Hmem : ∀ r, r ∈ requests c' -> ∃ r0, r0 ∈ requests c /\ r = if p r0 then f r0 else r0).
  { intros r Hr. rewrite Hreq in Hr. apply list_elem_of_fmap in Hr as (r0 & -> & ?). eauto. }
  split; try done.
  - rewrite Hreq, (update_where_fmap req_doc); [done|]. intros r _. unfold req_doc. by rewrite Hf.
  - intros r q Hr Hq Hrq. destruct (Hmem r Hr) as (r0 & Hr0 & ->).
    assert (Hid : r_ident (if p r0 then f r0 else r0) = r_ident r0) by (by destruct (p r0)).
    unfold req_doc in *. rewrite Hid in *. by apply Hag.
  - intros r Hr. destruct (Hmem r Hr) as (r0 & Hr0 & ->).
    assert (Hid : req_doc (if p r0 then f r0 else r0) = req_doc r0)
      by (unfold req_doc; destruct (p r0); by rewrite ?Hf).
    rewrite Hid. by apply Hpair.
Qed.

Lemma coherent_requests c c' (p : RequestRow → bool) f :
  Coherent c ->
  requests c' = update_where p f (requests c) -> responses c' = responses c ->
  (∀ r, r_ident (f r) = r_ident r) ->
  (∀ r, r ∈ requests c -> p r = true -> pair_ok (responses c) (req_doc r) (r_state (f r))) ->
  Coherent c'.
Proof.
  intros Hc Hreq Hresp Hf Hp. destruct (Hc). eapply coherent_intro; try done.
  - by rewrite Hresp.
  - by rewrite Hresp.
  - rewrite Hresp. done.
  - intros r Hr. rewrite Hresp. destruct (p r) eqn:E; auto.
Qed.

Lemma update_status_same d (q : ResponseRow → bool) g rs :
  (∀ p, p ∈ rs -> q p = true ->
     p_ident (g p) = p_ident p /\ (resp_req p = d -> p_status (g p) = p_status p)) ->
  same_for d rs (update_where q g rs).
Proof.
  intros Hg b. unfold has_response, resp_req, is_streaming in *. split.
  - intros (p & Hp & Hd & Hs). apply elem_of_update_where in Hp as [(p0 & Hp0 & Hq & ->)|[Hp0 Hq]].
    + destruct (Hg p0 Hp0 Hq) as [Hi Hst]. rewrite Hi in Hd. exists p0. rewrite (Hst Hd) in Hs. done.
    + by exists p.
  - intros (p & Hp & Hd & Hs). destruct (q p) eqn:Eq.
    + destruct (Hg p Hp Eq) as [Hi Hst]. exists (g p). rewrite Hi, (Hst Hd). split_and!; try done.
      apply elem_of_update_where. left. eauto.
    + exists p. split_and!; try done. apply elem_of_update_where. auto.
Qed.

Lemma create_same d rs row :
  resp_req row <> d -> same_for d rs (rs ++ [row]).
Proof.
  intros Hne b. unfold has_response. split; intros (p & Hp & Hd & Hs).
  - apply elem_of_app in Hp as [Hp|Hp]; [eauto|]. apply list_elem_of_singleton in Hp as ->. done.
  - exists p. split_and!; try done. apply elem_of_app. auto.
Qed.

Lemma coherent_requests_responses c c' (p : RequestRow → bool) f (q : ResponseRow → bool) g :
  Coherent c ->
  requests c' = update_where p f (requests c) -> (∀ r, r_ident (f r) = r_ident r) ->
  responses c' = update_where q g (responses c) ->
  (∀ x, p_ident (g x) = p_ident x /\ p_doc_id (g x) = p_doc_id x) ->
  (∀ r, r ∈ requests c -> pair_ok (responses c') (req_doc r) (r_state (if p r then f r else r))) ->
  Coherent c'.
Proof.
  intros Hc Hreq Hf Hresp Hg Hp. destruct (Hc). eapply coherent_intro; try done.
  - rewrite Hresp, update_where_fmap; [done|]. intros; apply Hg.
  - rewrite Hresp, update_where_fmap; [done|]. intros x _. unfold resp_req. by rewrite (proj1 (Hg x)).
  - rewrite Hresp. intros r x Hr Hx Hd. apply elem_of_update_where in Hx as [(x0 & Hx0 & _ & ->)|[Hx _]];
      [|by apply co_agent0].
    unfold resp_req in Hd. rewrite (proj1 (Hg x0)) in *. by apply co_agent0.
Qed.

Lemma coherent_requests_create c c' (p : RequestRow → bool) f row id agent d :
  Coherent c ->
  requests c' = update_where p f (requests c) -> (∀ r, r_ident (f r) = r_ident r) ->
  responses c' = responses c ++ [set_p_doc_id id row] ->
  id ∉ (p_doc_id <$> responses c) -> resp_req row = d -> (∀ b, ¬ has_response (responses c) d b) ->
  pi_agent_did (p_ident row) = agent ->
  (∀ r, r ∈ requests c -> req_doc r = d -> ri_agent_did (r_ident r) = Some agent) ->
  (∀ r, r ∈ requests c -> pair_ok (responses c') (req_doc r) (r_state (if p r then f r else r))) ->
  Coherent c'.
Proof.
  intros Hc Hreq Hf Hresp Hid Hd Hnone Hag Hagr Hp. destruct (Hc). eapply coherent_intro; try done.
  - rewrite Hresp, fmap_app. apply list.NoDup_app. split_and!; [done| |apply NoDup_singleton].
    intros x Hx Hx'. apply list_elem_of_singleton in Hx'. by subst.
  - rewrite Hresp, fmap_app. apply list.NoDup_app. split_and!; [done| |apply NoDup_singleton].
    intros x Hx Hx'. apply list_elem_of_singleton in Hx'. apply list_elem_of_fmap in Hx as (y & -> & Hy).
    apply (Hnone (is_streaming y)). exists y. split_and!; try done. rewrite Hx'. exact Hd.
  - rewrite Hresp. intros r x Hr Hx Hdr. apply elem_of_app in Hx as [Hx|Hx]; [by apply co_agent0|].
    apply list_elem_of_singleton in Hx as ->. simpl. rewrite Hag. apply Hagr; [done|].
    rewrite <- Hdr. exact Hd.
Qed.

Section preservation.
Context {DB : Type} `{DocStoreLaws DB} `{!Chrono}.
Implicit Types db : DB.

Lemma first_response_None (q : ResponseRow → bool) c p :
  first_response q c = None -> p ∈ responses c -> q p = false.
Proof. intros Hf Hp. eapply List.find_none in Hf; [exact Hf|]. by apply list_elem_of_In. Qed.

Lemma response_of_None d c : response_of d c = None -> ∀ b, ¬ has_response (responses c) d b.
Proof.
  intros Hn b (p & Hp & Hd & _). apply (first_response_None _ _ p) in Hn; [|done].
  cbv beta in Hn. unfold resp_req in Hd. rewrite Hd, str_eqb_refl in Hn. done.
Qed.

Lemma first_request_In d c row :
  NoDup (req_doc <$> requests c) -> first_request d c = Some row ->
  ∀ r, r ∈ requests c -> req_doc r = d -> r = row.
Proof.
  intros Hnd Hf r Hr Hd. apply first_request_Some in Hf as [Hin Hid].
  eapply (NoDup_fmap_inj req_doc); try done. unfold req_doc in *. congruence.
Qed.

Lemma step_begin_coherent f agent session rid beh requester ts now fs ids db db' fs' row :
  response_write_attempt f
    (create_AgentResponse (begun_response agent session rid (fence_request_doc_id f) beh requester ts))
    W_Begin now (db, fs) = (Ok ids, (db', fs')) ->
  first_request (fence_request_doc_id f) (view db) = Some row ->
  ri_agent_did (r_ident row) = Some agent ->
  Coherent (view db) -> Coherent (view db').
Proof.
  intros Hw Hrow Hag Hc. apply response_write_Ok in Hw
    as (row' & st & g & e & seq & dl & input & l' & Hrr & Hauth & Hin & _ & Hafter & Hv).
  apply authorize_live_spec in Hauth as (_ & _ & Hpair & Hst). simpl in Hst. subst st.
  injection Hin as <-. destruct Hafter as (id & -> & Hid & -> & _).
  pose proof (rr_first _ _ _ _ _ _ _ _ Hrr) as Hf. rewrite Hrow in Hf. injection Hf as <-.
  assert (Hnone : ∀ b, ¬ has_response (responses (view db)) (fence_request_doc_id f) b).
  { apply response_of_None. destruct Hpair as [[_ Hp]|[? _]]; [|done]. simpl in Hp.
    by destruct (response_of _ _). }
  set (d := fence_request_doc_id f) in *. set (p := request_cas d Claimed g e seq) in *.
  assert (Hp : p row = true) by apply (running_row_cas _ _ _ _ _ _ _ _ Hrr).
  assert (Hdoc : ∀ r, r ∈ requests (view db) -> req_doc r = d -> r = row)
    by (apply (first_request_In _ _ _ (co_requests _ Hc) Hrow)).
  eapply (coherent_requests_create (view db) (view db') p (set_r_state (Some Processing)) _ id agent d);
    try done; rewrite ?Hv; try done.
  - intros r Hr Hd. by rewrite (Hdoc r Hr Hd).
  - intros r Hr. simpl. destruct (p r) eqn:Ep.
    + apply request_cas_true in Ep as (Hd & _). simpl.
      eexists. split; [apply elem_of_app; right; by apply list_elem_of_singleton|]. by split.
    + eapply pair_ok_same; [|by apply (co_pair _ Hc)]. apply create_same. simpl. intros Hd.
      rewrite (Hdoc r Hr) in Ep by (unfold req_doc; done). congruence.
Qed.

Lemma step_write_coherent f m k now fs ids db db' fs' :
  response_write_attempt f m k now (db, fs) = (Ok ids, (db', fs')) ->
  k <> W_Begin -> keeps_status m -> Coherent (view db) -> Coherent (view db').
Proof.
  intros Hw Hk Hm Hc. apply response_write_Ok in Hw
    as (row & st & g & e & seq & dl & input & l' & Hrr & _ & Hin & _ & Hafter & Hv).
  destruct m as [q u|]; [|done]. destruct Hafter as [-> _]. simpl in Hm.
  assert (Hstate : ∀ r, r_state (input r) = r_state r).
  { destruct k; [done| |by injection Hin as <-]. simpl in Hin.
    destruct (with_context _ _); [|done]. by injection Hin as <-. }
  eapply coherent_requests_responses; [exact Hc|by rewrite Hv|exact (fence_input_ident _ _ _ _ _ Hin)
    |by rewrite Hv|intros; split; apply Hm|].
  intros r Hr. assert (Hs : r_state (if request_cas (fence_request_doc_id f) st g e seq r
    then input r else r) = r_state r) by (case_match; [apply Hstate|done]).
  rewrite Hs, Hv. simpl. eapply pair_ok_same; [|by apply (co_pair _ Hc)].
  apply update_status_same. intros x _ _. split; [apply Hm|intros; apply Hm].
Qed.

(** The response updated by a terminal write is the request's own. *)
Lemma step_terminalize_coherent d a out reason fresh now fs db db' fs' :
  terminalize_attempt d a out reason fresh now (db, fs) = (Ok Won, (db', fs')) ->
  Coherent (view db) -> Coherent (view db').
Proof.
  intros Hw Hc. apply terminalize_Won in Hw
    as (row & st & g & e & seq & dl & agent & session & m & ids & l' & Hrr & Hag & _ & Hst & _ & _ &
        Hm & _ & Hafter & Hv).
  set (o := effective_outcome out row) in *.
  pose proof (rr_first _ _ _ _ _ _ _ _ Hrr) as Hrow.
  assert (Hdoc : ∀ r, r ∈ requests (view db) -> req_doc r = d -> r = row)
    by (apply (first_request_In _ _ _ (co_requests _ Hc) Hrow)).
  pose proof (running_row_cas _ _ _ _ _ _ _ _ Hrr) as Hcas.
  apply first_request_Some in Hrow as [Hin Hid].
  assert (Hterm : ∀ gg r, pair_ok l' (req_doc r)
            (r_state (finish_request (request_state o) gg (to_rfc3339 now) reason r)) <->
            ¬ has_response l' (req_doc r) true).
  { intros gg r. simpl. unfold pair_ok. by destruct o. }
  unfold terminal_response_mutation in Hm. destruct (response_of_agent d agent (view db)) as [p0|] eqn:Hr0.
  - injection Hm as <-. destruct Hafter as [-> _].
    unfold response_of_agent, first_response in Hr0. apply List.find_some in Hr0 as [Hp0 Hq0].
    rewrite <- list_elem_of_In in Hp0. bool_prop. eqb_prop.
    match goal with H : pi_request_doc_id (p_ident p0) = d |- _ => rename H into Hd0 end.
    assert (Hown : ∀ x, x ∈ responses (view db) -> str_eqb (p_doc_id x) (p_doc_id p0) = true -> x = p0).
    { intros x Hx He. apply str_eqb_true in He. by eapply (NoDup_fmap_inj p_doc_id); [apply Hc|..]. }
    eapply (coherent_requests_responses (view db) (view db')); [exact Hc|by rewrite Hv|done
      |by rewrite Hv|intros x; split; apply finish_response_ident|].
    intros r Hr. rewrite Hv. simpl. destruct (request_cas d st g e seq r) eqn:Ec.
    + rewrite Hterm. intros (x & Hx & Hxd & Hxs).
      apply request_cas_true in Ec as (Hd & _). unfold req_doc in Hxd. rewrite Hd in Hxd.
      apply elem_of_update_where in Hx as [(x0 & _ & _ & ->)|[Hx Hq]].
      * unfold is_streaming in Hxs. rewrite (proj2 (proj2 (finish_response_ident _ _ _ _ _ x0))) in Hxs.
        by destruct o.
      * assert (x = p0) as ->.
        { eapply (NoDup_fmap_inj resp_req); [apply (co_one _ Hc)|done|done|]. unfold resp_req in *. congruence. }
        rewrite !str_eqb_refl in Hq. done.
    + assert (Hne : req_doc r <> d) by (intros Hd; rewrite (Hdoc r Hr Hd) in Ec; congruence).
      eapply pair_ok_same; [|by apply (co_pair _ Hc)].
      apply update_status_same. intros x Hx Hq. split; [apply finish_response_ident|]. intros Hxd.
      exfalso. bool_prop. rewrite (Hown x) in Hxd by done. unfold resp_req in Hxd. congruence.
  - destruct (with_context _ _); [|done]. injection Hm as <-.
    destruct Hafter as (id & -> & Hfresh & -> & _).
    assert (Hnone : ∀ b, ¬ has_response (responses (view db)) d b).
    { intros b (x & Hx & Hxd & _). apply (first_response_None _ _ x) in Hr0; [|done]. cbv beta in Hr0.
      pose proof (co_agent _ Hc row x Hin Hx (ltac:(unfold req_doc; congruence))) as Ha.
      rewrite Hag in Ha. injection Ha as Ha. unfold resp_req in Hxd.
      rewrite Hxd, Ha, !str_eqb_refl in Hr0. done. }
    eapply (coherent_requests_create (view db) (view db') _ _ _ id agent d);
      [exact Hc|by rewrite Hv|done|by rewrite Hv|done|done|done|done| |].
    + intros r Hr Hd. by rewrite (Hdoc r Hr Hd).
    + intros r Hr. rewrite Hv. simpl. destruct (request_cas d st g e seq r) eqn:Ec.
      * rewrite Hterm. apply request_cas_true in Ec as (Hd & _). unfold req_doc. rewrite Hd.
        intros (x & Hx & Hxd & Hxs). apply elem_of_app in Hx as [Hx|Hx].
        -- by apply (Hnone (is_streaming x)); exists x.
        -- apply list_elem_of_singleton in Hx as ->. unfold is_streaming in Hxs. simpl in Hxs.
           by destruct o.
      * eapply pair_ok_same; [|by apply (co_pair _ Hc)]. apply create_same. simpl. intros Hd.
        rewrite (Hdoc r Hr) in Ec by (unfold req_doc; done). congruence.
Qed.

Lemma step_claim_coherent self at_ g e dl session cap pj fs rows snap db db' fs' :
  claim_attempt (aq_doc_id (lc_request self)) session cap pj
    (claim_input self at_ g e dl) (db, fs) = (Ok (rows, snap), (db', fs')) ->
  Coherent (view db) -> Coherent (view db').
Proof.
  intros Hw Hc. apply claim_attempt_Ok in Hw as (_ & Hreq & Hresp).
  eapply coherent_requests; [exact Hc|exact Hreq|exact Hresp|intros; apply claim_input_fields|].
  intros r Hr Hp. cbv beta in Hp. bool_prop. pose proof (co_pair _ Hc r Hr) as Hpair.
  match goal with H : is_pending r = true |- _ => apply is_pending_true in H; rewrite H in Hpair end.
  destruct (claim_input_fields self at_ g e dl (if cap then Some snap else None) r) as (_ & -> & _).
  exact Hpair.
Qed.

Lemma pending_filter_state self r : pending_filter self r = true -> r_state r = Some Pending.
Proof. unfold pending_filter. intros Hp. bool_prop. by apply is_pending_true. Qed.

Lemma step_reject_coherent self reason ts fs res db db' fs' :
  reject_attempt self reason ts (db, fs) = (Ok res, (db', fs')) ->
  Coherent (view db) -> Coherent (view db').
Proof.
  intros Hw Hc. unfold reject_attempt in Hw. txn_inv.
  destruct (Nat.eqb _ 0) eqn:Hlen in Hw.
  { txn_inv. eapply coherent_requests; [exact Hc|by rewrite Hv|by rewrite Hv|done|].
    intros r Hr Hp. exfalso. rewrite length_fmap in Hlen.
    by rewrite (filter_nonempty _ _ r Hr Hp) in Hlen. }
  rewrite length_fmap in Hlen. destruct (List.filter _ (requests (view db))) as [|r0 rs] eqn:Ef; [done|].
  assert (Hin : List.In r0 (r0 :: rs)) by by left. cbn [fst] in Ef. rewrite <- Ef in Hin.
  apply List.filter_In in Hin as [Hr0 Hp0]. rewrite <- list_elem_of_In in Hr0.
  txn_inv. destruct Hafter as (id & -> & Hid & -> & _). rewrite Hv in *. simpl in *.
  set (doc := aq_doc_id (lc_request self)).
  assert (Hd0 : req_doc r0 = doc /\ ri_agent_did (r_ident r0) = Some (aq_agent_did (lc_request self)) /\
                r_state r0 = Some Pending).
  { split_and!; [| |by eapply pending_filter_state]; unfold pending_filter in Hp0; bool_prop;
      [by apply doc_is_true|by apply col_is_true]. }
  destruct Hd0 as (Hd0 & Ha0 & Hs0).
  assert (Hdoc : ∀ r, r ∈ requests (view db) -> req_doc r = doc -> r = r0).
  { intros r Hr Hd. eapply (NoDup_fmap_inj req_doc); [apply Hc|done|done|congruence]. }
  assert (Hnone : ∀ b, ¬ has_response (responses (view db)) doc b).
  { pose proof (co_pair _ Hc r0 Hr0) as Hp. rewrite Hs0 in Hp. by rewrite Hd0 in Hp. }
  eapply (coherent_requests_create (view db) _ _ _ _ id (aq_agent_did (lc_request self)) doc);
    [exact Hc|by rewrite Hv0|done|by rewrite Hv0|done|done|done|done| |].
  - intros r Hr Hd. by rewrite (Hdoc r Hr Hd).
  - intros r Hr. rewrite Hv0. simpl. destruct (pending_filter self r) eqn:Ep.
    + simpl. intros (x & Hx & Hxd & Hxs). apply elem_of_app in Hx as [Hx|Hx].
      * assert (Hrd : req_doc r = doc) by (unfold pending_filter in Ep; bool_prop; by apply doc_is_true).
        rewrite Hrd in Hxd. by apply (Hnone (is_streaming x)); exists x.
      * by apply list_elem_of_singleton in Hx as ->.
    + eapply pair_ok_same; [|by apply (co_pair _ Hc)]. apply create_same. simpl. intros Hd.
      rewrite (Hdoc r Hr) in Ep by done. congruence.
Qed.

Lemma step_coherent db ev db' : step db ev db' -> Coherent (view db) -> Coherent (view db').
Proof.
  intros Hs Hc. destruct Hs.
  - by eapply step_begin_coherent.
  - by eapply step_write_coherent.
  - by eapply step_terminalize_coherent.
  - by eapply step_claim_coherent.
  - rewrite view_update_request. eapply coherent_requests; try done; [naive_solver|].
    intros r Hr Hp. apply pending_filter_state in Hp. pose proof (co_pair _ Hc r Hr) as Hpair.
    rewrite Hp in Hpair. match goal with H : ∀ r, _ /\ r_state (f r) = _ |- _ => rewrite (proj2 (H r)) end.
    match goal with H : st = _ \/ _ |- _ => destruct H as [-> | ->] end; apply Hpair.
  - by eapply step_reject_coherent.
  - unfold relinquish. rewrite view_update_request. eapply coherent_requests; try done.
    intros r Hr _. exact (co_pair _ Hc r Hr).
  - rewrite view_update_request. eapply coherent_requests; try done; [naive_solver|].
    intros r Hr Hp. match goal with H : ∀ r, _ /\ _ |- _ => rewrite (proj2 (H r) Hp) end.
    by apply (co_pair _ Hc).
Qed.

(** C2. Requests and responses always agree.  From any coherent store (for
    instance pending requests with no responses), every interleaving of lifecycle
    steps keeps this invariant: a pending or claimed request has no response, a
    processing request has a streaming one, a settled request has none that still
    streams; each request has at most one response, carried by its own agent; and
    document identifiers stay unique. *)
Theorem requests_and_responses_agree db es db' :
  run db es db' -> Coherent (view db) -> Coherent (view db').
Proof. induction 1; [done|]. intros Hc. apply IHrun. by eapply step_coherent. Qed.

(** Every step updates request rows in place, and never the state of a settled one. *)
Lemma step_requests db ev db' :
  step db ev db' ->
  ∃ p f, requests (view db') = update_where p f (requests (view db)) /\
    (∀ r, r_ident (f r) = r_ident r) /\
    (∀ r, p r = true -> r_state (f r) = r_state r \/
                        ∃ s, r_state r = Some s /\ is_terminal s = false).
Proof.
  intros Hs. destruct Hs as
    [f agent session rid beh requester ts now fs ids db db' fs' row Hw _ _
    |f m k now fs ids db db' fs' Hw _ _|d a out reason fresh now fs db db' fs' Hw
    |self at_ g e dl session cap pj fs rows snap db db' fs' Hw|self f st db _ Hf
    |self reason ts fs res db db' fs' Hw|doc g now db|p f db Hf].
  1, 2: apply response_write_Ok in Hw
      as (row' & st & g & e & seq & dl & input & l' & Hrr & Hauth & Hin & _ & _ & Hv);
    do 2 eexists; split_and!; [by rewrite Hv|exact (fence_input_ident _ _ _ _ _ Hin)|];
    intros r Hr; apply request_cas_true in Hr as (_ & Hst & _); right; exists st; (split; [done|]);
    apply authorize_live_spec in Hauth as (_ & _ & Hp & _); unfold active_pair in Hp; simpl in Hp;
    by destruct Hp as [[-> _]|[-> _]].
  - apply terminalize_Won in Hw
      as (row & st & g & e & seq & dl & agent & session & m & ids & l' & _ & _ & _ & Hst & _ & _ & _ & _ & _ & Hv).
    do 2 eexists. split_and!; [by rewrite Hv|done|]. intros r Hr.
    apply request_cas_true in Hr as (_ & Hs & _). right. exists st. by destruct Hst as [-> | ->].
  - apply claim_attempt_Ok in Hw as (_ & Hreq & _). do 2 eexists.
    split_and!; [exact Hreq|intros; apply claim_input_fields|]. intros r Hr. cbv beta in Hr. bool_prop.
    right. exists Pending. split; [by apply is_pending_true|done].
  - do 2 eexists. rewrite view_update_request. split_and!; [done|apply Hf|]. intros r Hr.
    right. exists Pending. split; [by eapply pending_filter_state|done].
  - unfold reject_attempt in Hw. txn_inv. do 2 eexists.
    assert (Hreq : requests (view db') = requests (view d)).
    { destruct (Nat.eqb _ 0) in Hw; txn_inv; [done|]. by rewrite Hv0. }
    rewrite Hreq, Hv. split_and!; [done|done|]. intros r Hr.
    right. exists Pending. split; [by eapply pending_filter_state|done].
  - unfold relinquish. do 2 eexists. rewrite view_update_request. split_and!; [done|done|]. by left.
  - do 2 eexists. rewrite view_update_request. split_and!; [done|apply Hf|]. left. by apply Hf.
Qed.

(** Request [d] is settled in state [s]. *)
Definition settled (d : str) (s : RequestLifecycleState) (c : Collections) : Prop :=
  is_terminal s = true /\ ∃ row, first_request d c = Some row /\ r_state row = Some s.

Lemma step_settled d s db ev db' :
  step db ev db' -> settled d s (view db) -> settled d s (view db') /\ ev <> Some d.
Proof.
  intros Hs (Ht & row & Hrow & Hst). split.
  - destruct (step_requests _ _ _ Hs) as (p & f & Hreq & Hid & Hf). split; [done|].
    eexists. rewrite (first_request_update d p f (view db) (view db') Hid Hreq), Hrow. split; [done|].
    destruct (p row) eqn:Ep; [|done]. destruct (Hf row Ep) as [->|(s' & Hs' & Hn)]; [done|].
    rewrite Hst in Hs'. injection Hs' as <-. congruence.
  - intros ->. inversion Hs; subst.
    match goal with H : terminalize_attempt _ _ _ _ _ _ (?x, ?fs) = _ |- _ =>
      eapply (terminal_refuses_terminalization _ _ _ _ _ _ x fs row s Hrow Hst Ht); by rewrite H end.
Qed.

Lemma terminal_step_settles d db db' : step db (Some d) db' -> ∃ s, settled d s (view db').
Proof.
  intros Hs. inversion Hs; subst.
  match goal with H : terminalize_attempt _ _ _ _ _ _ _ = _ |- _ => apply terminalize_Won in H
    as (row & st & g & e & seq & dl & agent & session & m & ids & l' & Hrr & _ & _ & _ & _ & _ & _ & _ & _ & Hv) end.
  eexists. split; [apply request_state_terminal|]. eexists.
  rewrite (first_request_update d _ _ (view db) (view db')
             (finish_request_ident _ _ _ _) (ltac:(by rewrite Hv))).
  rewrite (rr_first _ _ _ _ _ _ _ _ Hrr). simpl. rewrite (running_row_cas _ _ _ _ _ _ _ _ Hrr). done.
Qed.

(** C1. Every request is settled at most once, and for good.  Along any
    interleaving of lifecycle steps, a settled request keeps its terminal state to
    the end and is never won again; so at most one terminal write ever wins a given
    request, whichever of its owner, recovery or revocation gets there first. *)
Theorem settled_once_and_for_good db es db' d :
  run db es db' ->
  (∀ s, settled d s (view db) -> settled d s (view db') /\ Some d ∉ es) /\
  (length (List.filter (λ ev, bool_decide (ev = Some d)) es) <= 1)%nat /\
  (Some d ∈ es -> ∃ s, settled d s (view db')).
Proof.
  induction 1 as [db|db ev db1 es db' Hs Hr IH].
  - split_and!; [|simpl; lia|by intros ?%elem_of_nil]. intros s Hset. split; [done|]. apply not_elem_of_nil.
  - destruct IH as (IH1 & IH2 & IH3). split_and!.
    + intros s Hset. destruct (step_settled _ _ _ _ _ Hs Hset) as [Hset1 Hne].
      destruct (IH1 s Hset1) as [? ?]. split; [done|]. apply not_elem_of_cons. split; [congruence|done].
    + simpl. case_bool_decide as Hev; [|done]. subst ev.
      destruct (terminal_step_settles _ _ _ Hs) as [s Hset]. destruct (IH1 s Hset) as [_ Hnin]. simpl.
      destruct (List.filter _ es) as [|ev l] eqn:Ef; [done|].
      assert (Hin : List.In ev (ev :: l)) by by left. rewrite <- Ef in Hin.
      apply List.filter_In in Hin as [Hin Hb]. apply bool_decide_eq_true in Hb. subst ev.
      exfalso. apply Hnin. by apply list_elem_of_In.
    + intros Hin. apply elem_of_cons in Hin as [Hev|Hin]; [|by apply IH3]. subst ev.
      destruct (terminal_step_settles _ _ _ Hs) as [s Hset]. exists s. by apply IH1.
Qed.

(** ** The operations are runs *)

Lemma run_one db ev db' : step db ev db' -> run db [ev] db'.
Proof. intros. econstructor; [done|constructor]. Qed.

Lemma run_app db es db1 es' db' : run db es db1 -> run db1 es' db' -> run db (es ++ es') db'.
Proof. induction 1; [done|]. intros. simpl. econstructor; [done|auto]. Qed.

Definition reaches (db db' : DB) : Prop := ∃ es, run db es db'.

Lemma reaches_refl db : reaches db db.
Proof. exists []. constructor. Qed.
Lemma reaches_trans a b c : reaches a b -> reaches b c -> reaches a c.
Proof. intros [es Hes] [es' Hes']. exists (es ++ es'). by eapply run_app. Qed.

(** Other writers take lifecycle steps too. *)
Definition honest (env : nat → AttemptEnv DB) : Prop :=
  ∀ n db, reaches db (ae_interference (env n) db).

Lemma write_reaches f m k env db :
  honest env -> k <> W_Begin -> keeps_status m ->
  reaches db (snd (execute_response_write f m k env db)).
Proof.
  intros Hh Hk Hm. apply (persist_rel reaches); [apply reaches_refl|apply reaches_trans|apply Hh|].
  intros now fs x a x' fs' Hw _. eexists. apply run_one. by eapply step_write.
Qed.

(** C8. The retry loops refine the step relation.  When the other writers a call
    meets take lifecycle steps, a terminalization, a flush of the stream writer, a
    reset of its tail and an advance of the lifecycle each leave the store in a
    state that lifecycle steps reach, whatever storage faults, refused or ambiguous
    commits their attempts met; so the invariants of the system hold across them. *)
Theorem operations_refine_steps env db :
  honest env ->
  (∀ d a out reason fresh, reaches db (snd (terminalize_execution d a out reason fresh env db))) /\
  (∀ w i doc fault, reaches db (snd (flush_pending w i doc env fault db))) /\
  (∀ w i doc fault, reaches db (snd (reset_tail w i doc env fault db))) /\
  (∀ self, reaches db (snd (advance self env db))).
Proof.
  intros Hh. split_and!.
  - intros d a out reason fresh.
    apply (persist_rel reaches); [apply reaches_refl|apply reaches_trans|apply Hh|].
    intros now fs x r x' fs' Hw Hwon. destruct r; try done. eexists. apply run_one. by eapply step_terminalize.
  - intros w i doc fault. unfold flush_pending, flush_snapshot.
    destruct (pending_snapshot w i doc true) as [[sn|]|]; try apply reaches_refl.
    destruct (w_buffers w !! doc) as [b|]; [|apply reaches_refl].
    pose proof (write_reaches (b_lease b) (update_AgentResponse (is_live doc) (write_snapshot sn))
      W_Progress env db Hh ltac:(done) ltac:(done)) as Hw.
    destruct (execute_response_write _ _ _ _ _) as [[ids|] db1]; [|done]. by destruct (Nat.eqb _ _).
  - intros w i doc fault. unfold reset_tail.
    destruct (w_buffers w !! doc) as [b|]; [|apply reaches_refl].
    destruct (_ && _ && _ && _); [apply reaches_refl|].
    match goal with |- context [execute_response_write ?f ?m ?k env db] =>
      pose proof (write_reaches f m k env db Hh ltac:(done) ltac:(done)) as Hw end.
    destruct (execute_response_write _ _ _ _ _) as [[ids|] db1]; [|done]. by destruct (Nat.eqb _ _).
  - intros self. unfold advance.
    match goal with |- reaches db (snd (match ?x with _ => _ end)) =>
      destruct x as [[[rd nx] g]|e] end; [|apply reaches_refl].
    match goal with |- context [execute_response_write ?f ?m ?k env db] =>
      pose proof (write_reaches f m k env db Hh ltac:(done) ltac:(done)) as Hw end.
    by destruct (execute_response_write _ _ _ _ _) as [[ids|] db1].
Qed.
End preservation.

(** ** Witnesses: the processing request of [demo_db] is settled by its owner. *)

Definition demo_won :=
  @terminalize_attempt Collections _ demo_chrono (lit "d1") (Owner (lit "g1")) O_Completed []
    (lit "g2") 3000000 (demo_db, []).
Definition demo_settled : Collections := fst (snd demo_won).

Lemma demo_coherent : Coherent demo_db.
Proof.
  split; try apply NoDup_singleton.
  - intros r p Hr Hp _. apply list_elem_of_singleton in Hr as ->, Hp as ->. reflexivity.
  - intros r Hr. apply list_elem_of_singleton in Hr as ->. exists demo_response.
    split; [by apply list_elem_of_singleton|]. by split.
Qed.

Lemma demo_run : @run Collections _ demo_chrono demo_db [Some (lit "d1")] demo_settled.
Proof.
  apply run_one. apply (@step_terminalize Collections _ demo_chrono (lit "d1") (Owner (lit "g1"))
    O_Completed [] (lit "g2") 3000000 [] demo_db demo_settled (snd (snd demo_won))).
  vm_compute. reflexivity.
Qed.

Lemma requests_and_responses_agree_witness : Coherent (view demo_settled).
Proof.
  apply (@requests_and_responses_agree Collections _ memory_store_laws demo_chrono demo_db
    [Some (lit "d1")] demo_settled); [exact demo_run|exact demo_coherent].
Defined.

Lemma settled_once_and_for_good_witness : ∃ s, settled (lit "d1") s (view demo_settled).
Proof.
  apply (@settled_once_and_for_good Collections _ memory_store_laws demo_chrono demo_db
    [Some (lit "d1")] demo_settled (lit "d1") demo_run). by left.
Defined.

Lemma operations_refine_steps_witness :
  ∃ es, @run Collections _ demo_chrono demo_db es
    (snd (@terminalize_execution Collections _ demo_chrono (lit "d1") (Owner (lit "g1")) O_Failed []
            (lit "g2") (λ _, demo_env (Ambiguous (Msg [])) 3000000) demo_db)).
Proof.
  apply (@operations_refine_steps Collections _ demo_chrono
    (λ _, demo_env (Ambiguous (Msg [])) 3000000) demo_db).
  intros n db. apply reaches_refl.
Defined.
