(* ===== verification/Admission.v ===== *)
(** * Backend admission

    [admission/config.rs], [admission/controller.rs], [admission/permit.rs] and
    [admission/registry.rs]: every provider call takes a slot of its backend's
    controller, waits in a bounded queue, or is refused; a reconciliation replaces
    controllers, draining the old one before the new one admits.

    The acquiring tasks run concurrently with each other and with a reconciliation,
    so the component is a step machine.  The controllers live in a shared heap (the
    source's [Arc]s), the registry maps point into it, and each task, and the
    reconciliation that holds the registry lock, is at one of the points between two
    atomic operations on shared state where another can run or where its future can
    be dropped.  Permits come from tokio's semaphore, of which the model uses that a
    permit is granted only while one is left and, by [try_acquire], only while the
    semaphore is open; which parked task is served is left open. *)

From S2P Require Import Prelude RustStr.

(** ** Configuration *)

Record BackendAdmissionConfig : Type := {
  ac_backend_id : str;
  ac_max_concurrent : Z;
  ac_max_queue_depth : Z;
  ac_enabled : bool;
  ac_probe_status : str;
  ac_measured_unhealthy : bool;
  ac_config_fingerprint : str
}.
#[global] Instance BackendAdmissionConfig_eq_dec : EqDecision BackendAdmissionConfig.
Proof. solve_decision. Defined.

Inductive BackendAvailability : Type :=
| BA_Available | BA_Disabled | BA_ProbeNotHealthy | BA_MeasuredUnhealthy.

Definition HEALTHY_PROBE_STATUS : str := lit "healthy".

Definition availability (c : BackendAdmissionConfig) : BackendAvailability :=
  if negb (ac_enabled c) then BA_Disabled
  else if negb (str_eqb (ac_probe_status c) HEALTHY_PROBE_STATUS) then BA_ProbeNotHealthy
  else if ac_measured_unhealthy c then BA_MeasuredUnhealthy
  else BA_Available.

Definition is_available (c : BackendAdmissionConfig) : bool :=
  match availability c with BA_Available => true | _ => false end.

Definition document_configured_from_fields (enabled : bool) (probe_status : str) : bool :=
  enabled && str_eqb probe_status HEALTHY_PROBE_STATUS.

Definition with_measured_unhealthy (c : BackendAdmissionConfig) (v : bool) : BackendAdmissionConfig :=
  {| ac_backend_id := ac_backend_id c; ac_max_concurrent := ac_max_concurrent c;
     ac_max_queue_depth := ac_max_queue_depth c; ac_enabled := ac_enabled c;
     ac_probe_status := ac_probe_status c; ac_measured_unhealthy := v;
     ac_config_fingerprint := ac_config_fingerprint c |}.

(** The columns of an [InferenceBackend] that admission reads; [ib_debug] is the
    [Debug] text of the whole row. *)
Record InferenceBackend : Type := {
  ib_backend_id : str;
  ib_max_concurrent : Z;
  ib_max_queue_depth : Z;
  ib_enabled : bool;
  ib_probe_status : str;
  ib_debug : str
}.

Definition from_backend (backend : InferenceBackend) : result str BackendAdmissionConfig :=
  if ib_max_concurrent backend <? 1 then
    Err (lit "backend " ++ ib_backend_id backend ++ lit " has invalid max_concurrent "
         ++ fmt_Z (ib_max_concurrent backend) ++ lit "; expected >= 1")
  else if ib_max_queue_depth backend <? 0 then
    Err (lit "backend " ++ ib_backend_id backend ++ lit " has invalid max_queue_depth "
         ++ fmt_Z (ib_max_queue_depth backend) ++ lit "; expected >= 0")
  else Ok {| ac_backend_id := ib_backend_id backend;
             ac_max_concurrent := ib_max_concurrent backend;
             ac_max_queue_depth := ib_max_queue_depth backend;
             ac_enabled := ib_enabled backend; ac_probe_status := ib_probe_status backend;
             ac_measured_unhealthy := false; ac_config_fingerprint := ib_debug backend |}.

Abbreviation Configs := (gmap str BackendAdmissionConfig).

Fixpoint configs_from (backends : list InferenceBackend) (measured_vetoed : list str)
    (configs : Configs) : result str Configs :=
  match backends with
  | [] => Ok configs
  | backend :: backends =>
      let? config := from_backend backend in
      let vetoed := existsb (str_eqb (ib_backend_id backend)) measured_vetoed in
      configs_from backends measured_vetoed
        (<[ib_backend_id backend := with_measured_unhealthy config vetoed]> configs)
  end.
Definition backend_admission_configs_from_backends (backends : list InferenceBackend)
    (measured_vetoed : list str) : result str Configs := configs_from backends measured_vetoed ∅.

(** ** Controllers *)

Record BackendAdmissionController : Type := {
  c_generation : Z;
  c_config : BackendAdmissionConfig;
  c_permits : Z;       (* permits the semaphore has left *)
  c_waiters : Z;
  c_in_flight : Z;
  c_closed : bool;
  c_semaphore_closed : bool
}.
Definition c_backend (c : BackendAdmissionController) : str := ac_backend_id (c_config c).

Definition new_controller (generation : Z) (config : BackendAdmissionConfig)
    : BackendAdmissionController :=
  {| c_generation := generation; c_config := config; c_permits := ac_max_concurrent config;
     c_waiters := 0; c_in_flight := 0; c_closed := false;
     c_semaphore_closed := false |}.

Definition add_counts (permits waiters in_flight : Z) (c : BackendAdmissionController)
    : BackendAdmissionController :=
  {| c_generation := c_generation c; c_config := c_config c;
     c_permits := c_permits c + permits; c_waiters := c_waiters c + waiters;
     c_in_flight := c_in_flight c + in_flight; c_closed := c_closed c;
     c_semaphore_closed := c_semaphore_closed c |}.

(** [close] is two operations: the flag, then the semaphore. *)
Definition close_flag (c : BackendAdmissionController) : BackendAdmissionController :=
  {| c_generation := c_generation c; c_config := c_config c; c_permits := c_permits c;
     c_waiters := c_waiters c; c_in_flight := c_in_flight c; c_closed := true;
     c_semaphore_closed := c_semaphore_closed c |}.
Definition close_semaphore (c : BackendAdmissionController) : BackendAdmissionController :=
  {| c_generation := c_generation c; c_config := c_config c; c_permits := c_permits c;
     c_waiters := c_waiters c; c_in_flight := c_in_flight c; c_closed := c_closed c;
     c_semaphore_closed := true |}.

Definition matches (c : BackendAdmissionController) (config : BackendAdmissionConfig) : bool :=
  bool_decide (c_config c = config) && negb (c_closed c).
Definition is_drained (c : BackendAdmissionController) : bool := c_in_flight c =? 0.

(** ** The registry *)

Abbreviation Heap := (list BackendAdmissionController).

Record PendingControllerConfig : Type := { pc_generation : Z; pc_config : BackendAdmissionConfig }.

Record RegistryState : Type := {
  rs_active : gmap str nat;
  rs_draining : gmap str (list nat);
  rs_pending : gmap str PendingControllerConfig
}.

Definition drained_at (h : Heap) (c : nat) : bool :=
  match h !! c with Some ctl => is_drained ctl | None => true end.

Definition prune_drained (h : Heap) (r : RegistryState) : RegistryState :=
  {| rs_active := rs_active r;
     rs_draining := omap (λ cs, match List.filter (λ c, negb (drained_at h c)) cs with
                                | [] => None | cs' => Some cs' end) (rs_draining r);
     rs_pending := rs_pending r |}.

(** [has_draining] prunes as it looks. *)
Definition has_draining (h : Heap) (b : str) (r : RegistryState) : RegistryState * bool :=
  let r := prune_drained h r in
  (r, match rs_draining r !! b with Some (_ :: _) => true | _ => false end).

Definition set_active (a : gmap str nat) (r : RegistryState) : RegistryState :=
  {| rs_active := a; rs_draining := rs_draining r; rs_pending := rs_pending r |}.
Definition set_draining (d : gmap str (list nat)) (r : RegistryState) : RegistryState :=
  {| rs_active := rs_active r; rs_draining := d; rs_pending := rs_pending r |}.
Definition set_pending (p : gmap str PendingControllerConfig) (r : RegistryState) : RegistryState :=
  {| rs_active := rs_active r; rs_draining := rs_draining r; rs_pending := p |}.

(** A fresh controller, installed as the active one of its backend. *)
Definition install (b : str) (generation : Z) (config : BackendAdmissionConfig)
    (s : Heap * RegistryState) : Heap * RegistryState :=
  let '(h, r) := s in
  (h ++ [new_controller generation config], set_active (<[b := length h]> (rs_active r)) r).

Definition install_pending_if_ready (b : str) (s : Heap * RegistryState) : Heap * RegistryState :=
  let '(h, r) := s in
  let r := prune_drained h r in
  if bool_decide (is_Some (rs_active r !! b)) then (h, r)
  else
    let '(r, draining) := has_draining h b r in
    if draining then (h, r)
    else match rs_pending r !! b with
         | None => (h, r)
         | Some p =>
             let r := set_pending (delete b (rs_pending r)) r in
             if is_available (pc_config p)
             then install b (pc_generation p) (pc_config p) (h, r) else (h, r)
         end.

Definition push_draining (b : str) (c : nat) (r : RegistryState) : RegistryState :=
  set_draining (<[b := default [] (rs_draining r !! b) ++ [c]]> (rs_draining r)) r.

(** First pass of [reconcile], one previously active backend: the controller is
    kept, or taken out of the map and its flag stored ([close], first half). *)
Definition reconcile_active (configs : Configs) (b : str) (s : Heap * RegistryState)
    : Heap * RegistryState * option nat :=
  let '(h, r) := s in
  match rs_active r !! b with
  | None => (h, r, None)
  | Some c =>
      match h !! c with
      | None => (h, r, None)
      | Some ctl =>
          match opt_filter is_available (configs !! b) with
          | Some config => if matches ctl config then (h, r, None)
                           else (<[c := close_flag ctl]> h,
                                 set_active (delete b (rs_active r)) r, Some c)
          | None => (<[c := close_flag ctl]> h, set_active (delete b (rs_active r)) r, Some c)
          end
      end
  end.

(** ... and, once the controller is closed, what the [is_drained] read decides. *)
Definition reconcile_closed (generation : Z) (configs : Configs) (b : str) (c : nat)
    (s : Heap * RegistryState) : Heap * RegistryState :=
  let '(h, r) := s in
  match opt_filter is_available (configs !! b) with
  | Some config =>
      if drained_at h c then install b generation config (h, r)
      else (h, set_pending (<[b := {| pc_generation := generation; pc_config := config |}]>
                              (rs_pending r)) (push_draining b c r))
  | None =>
      let r := if drained_at h c then r else push_draining b c r in
      (h, set_pending (delete b (rs_pending r)) r)
  end.

(** Second pass: one desired backend. *)
Definition reconcile_desired (generation : Z) (bc : str * BackendAdmissionConfig)
    (s : Heap * RegistryState) : Heap * RegistryState :=
  let '(b, config) := bc in
  let '(h, r) := s in
  if negb (is_available config) then (h, set_pending (delete b (rs_pending r)) r)
  else if bool_decide (is_Some (rs_active r !! b)) then (h, r)
  else
    let '(r, draining) := has_draining h b r in
    if draining
    then (h, set_pending (<[b := {| pc_generation := generation; pc_config := config |}]>
                            (rs_pending r)) r)
    else install b generation config (h, r).

(** Where a reconciliation is; it holds the registry lock until it ends. *)
Inductive Phase : Type :=
| Ph_Active (ids : list str)
| Ph_Closing (b : str) (c : nat) (ids : list str)     (* flag stored *)
| Ph_Closed (b : str) (c : nat) (ids : list str)      (* semaphore closed *)
| Ph_Desired (todo : list (str * BackendAdmissionConfig))
| Ph_Pending (ids : list str).

Inductive Lock : Type :=
| Unlocked
| Reconciling (generation : Z) (configs : Configs) (phase : Phase).

Definition reconcile_start (generation : Z) (configs : Configs) (s : Heap * RegistryState)
    : Heap * RegistryState * Lock :=
  let '(h, r) := s in
  (h, prune_drained h r,
   Reconciling generation configs (Ph_Active (map_to_list (rs_active r)).*1)).

Definition reconcile_next (generation : Z) (configs : Configs) (phase : Phase)
    (s : Heap * RegistryState) : Heap * RegistryState * Lock :=
  let busy := Reconciling generation configs in
  match phase with
  | Ph_Active [] => (s, busy (Ph_Desired (map_to_list configs)))
  | Ph_Active (b :: ids) =>
      let '(s', taken) := reconcile_active configs b s in
      (s', busy (match taken with Some c => Ph_Closing b c ids | None => Ph_Active ids end))
  | Ph_Closing b c ids => (alter close_semaphore c s.1, s.2, busy (Ph_Closed b c ids))
  | Ph_Closed b c ids => (reconcile_closed generation configs b c s, busy (Ph_Active ids))
  | Ph_Desired [] => (s, busy (Ph_Pending (map_to_list (rs_pending s.2)).*1))
  | Ph_Desired (bc :: todo) => (reconcile_desired generation bc s, busy (Ph_Desired todo))
  | Ph_Pending [] => (s, Unlocked)
  | Ph_Pending (b :: ids) => (install_pending_if_ready b s, busy (Ph_Pending ids))
  end.

(** ** Tasks *)

Inductive Pc : Type :=
| P_Start       (* the controller was looked up *)
| P_Counted     (* [InFlightGuard::new] done, before [is_closed] *)
| P_Trying      (* before the first [try_acquire_owned] *)
| P_Full        (* no permit, before [try_enter_queue] *)
| P_Second      (* queue full, before the second [try_acquire_owned] *)
| P_Starting    (* permit held, awaiting [persist_call_started] *)
| P_Queued      (* waiter unit held, awaiting [persist_call_queued] *)
| P_Parked      (* awaiting the semaphore *)
| P_Granted     (* permit assigned, waiter unit still held *)
| P_Leaving     (* [QueuedCallGuard] about to drop *)
| P_Running     (* permit held, awaiting [persist_existing_call_running] *)
| P_Admitted    (* the caller holds the [AdmissionPermit] *)
| P_Exiting (held : bool)     (* before the [fetch_sub] of [release_in_flight] *)
| P_Released (held : bool)    (* it released the last unit, before [is_closed] *)
| P_Signalling (held : bool)  (* before [controller_drained] *)
| P_Returning   (* the permit alone is left to drop *)
| P_Done.
#[global] Instance Pc_eq_dec : EqDecision Pc.
Proof. solve_decision. Defined.

Definition Task : Type := (nat * Pc)%type.

(** Which units a task holds at each point; a [held] exit still owns its permit. *)
Definition counted (p : Pc) : bool :=
  match p with
  | P_Start | P_Released _ | P_Signalling _ | P_Returning | P_Done => false
  | _ => true
  end.
Definition waiting (p : Pc) : bool :=
  match p with P_Queued | P_Parked | P_Granted | P_Leaving => true | _ => false end.
Definition holding (p : Pc) : bool :=
  match p with
  | P_Starting | P_Granted | P_Running | P_Admitted | P_Returning => true
  | P_Exiting held | P_Released held | P_Signalling held => held
  | _ => false
  end.
(** Past the closed check and not yet on the way out. *)
Definition engaged (p : Pc) : bool :=
  match p with
  | P_Trying | P_Full | P_Second | P_Starting | P_Queued | P_Parked | P_Granted | P_Running
  | P_Admitted => true
  | _ => false
  end.
(** Committed to telling the registry. *)
Definition signalling (p : Pc) : bool :=
  match p with P_Released _ | P_Signalling _ => true | _ => false end.

(** How the operation a task awaits ends: it succeeds, it returns an error, or the
    future is dropped while it waits. *)
Inductive Outcome : Type := Succeeds | Fails | Dropped.

Definition exit (held : bool) : Pc := if held then P_Returning else P_Done.

(** A move: the point it leads to and the permits, waiter units and in-flight units it
    adds to the controller. *)
Definition Move : Type := (Pc * (Z * Z * Z))%type.

Definition try_enter_queue (ctl : BackendAdmissionController) : option Z :=
  if ac_max_queue_depth (c_config ctl) <=? c_waiters ctl then None else Some (c_waiters ctl + 1).

(** [start_permit] from its await on: an error returns the permit explicitly before
    the in-flight unit, a drop of the future drops the parameters in reverse order. *)
Definition start_permit (o : Outcome) : Move :=
  match o with
  | Succeeds => (P_Admitted, (0, 0, 0))
  | Fails => (P_Exiting false, (1, 0, 0))
  | Dropped => (P_Exiting true, (0, 0, 0))
  end.

(** [Drop for AdmissionPermit]: the permit goes back before the in-flight unit. *)
Definition drop_permit : Move := (P_Exiting false, (1, 0, 0)).

(** The [fetch_sub] of [release_in_flight], and its [is_closed] read after it. *)
Definition release_in_flight (ctl : BackendAdmissionController) (held : bool) : Move :=
  (if c_in_flight ctl =? 1 then P_Released held else exit held, (0, 0, -1)).
Definition release_signal (ctl : BackendAdmissionController) (held : bool) : Move :=
  (if c_closed ctl then P_Signalling held else exit held, (0, 0, 0)).

(** The next operation of a task on its controller. *)
Definition task_move (ctl : BackendAdmissionController) (p : Pc) (o : Outcome)
    : option Move :=
  match p with
  | P_Start => match o with Dropped => Some (P_Done, (0, 0, 0)) | _ => Some (P_Counted, (0, 0, 1)) end
  | P_Counted => Some (if c_closed ctl then P_Exiting false else P_Trying, (0, 0, 0))
  | P_Trying =>
      if c_semaphore_closed ctl then Some (P_Exiting false, (0, 0, 0))
      else if 0 <? c_permits ctl then Some (P_Starting, (-1, 0, 0)) else Some (P_Full, (0, 0, 0))
  | P_Full =>
      match try_enter_queue ctl with
      | Some _ => Some (P_Queued, (0, 1, 0))
      | None => Some (P_Second, (0, 0, 0))
      end
  | P_Second =>
      if c_semaphore_closed ctl then Some (P_Exiting false, (0, 0, 0))
      else if 0 <? c_permits ctl then Some (P_Starting, (-1, 0, 0))
      else Some (P_Exiting false, (0, 0, 0))
  | P_Starting => Some (start_permit o)
  | P_Queued =>
      match o with
      | Succeeds => Some (P_Parked, (0, 0, 0))
      | _ => Some (P_Leaving, (0, 0, 0))
      end
  | P_Parked =>
      match o with
      | Succeeds =>
          if negb (c_semaphore_closed ctl) && (0 <? c_permits ctl)
          then Some (P_Granted, (-1, 0, 0)) else None
      | Fails => if c_semaphore_closed ctl then Some (P_Leaving, (0, 0, 0)) else None
      | Dropped => Some (P_Leaving, (0, 0, 0))
      end
  | P_Granted =>
      match o with
      | Succeeds => Some (P_Running, (0, -1, 0))
      | Fails => if c_semaphore_closed ctl then Some (P_Leaving, (1, 0, 0)) else None
      | Dropped => Some (P_Leaving, (1, 0, 0))
      end
  | P_Leaving => Some (P_Exiting false, (0, -1, 0))
  | P_Running =>
      match o with
      | Succeeds => Some (P_Admitted, (0, 0, 0))
      | _ => Some (P_Exiting false, (1, 0, 0))
      end
  | P_Admitted => Some drop_permit
  | P_Exiting held => Some (release_in_flight ctl held)
  | P_Released held => Some (release_signal ctl held)
  | P_Signalling _ => None
  | P_Returning => Some (P_Done, (1, 0, 0))
  | P_Done => None
  end.

(** ** The system *)

Record System : Type := {
  sy_heap : Heap;
  sy_registry : RegistryState;
  sy_lock : Lock;
  sy_tasks : list Task
}.

Definition initial : System :=
  {| sy_heap := []; sy_registry := {| rs_active := ∅; rs_draining := ∅; rs_pending := ∅ |};
     sy_lock := Unlocked; sy_tasks := [] |}.

Inductive Event : Type :=
| E_Reconcile (generation : Z) (backends : list InferenceBackend) (measured_vetoed : list str)
| E_Lock                              (* the running reconciliation's next operation *)
| E_Acquire (b : str)                 (* [acquire_current_call] looks its controller up *)
| E_Task (i : nat) (o : Outcome).

Definition exec (e : Event) (s : System) : option System :=
  let hr := (sy_heap s, sy_registry s) in
  match e, sy_lock s with
  | E_Reconcile generation backends measured_vetoed, Unlocked =>
      match backend_admission_configs_from_backends backends measured_vetoed with
      | Ok configs =>
          let '(h, r, l) := reconcile_start generation configs hr in
          Some {| sy_heap := h; sy_registry := r; sy_lock := l; sy_tasks := sy_tasks s |}
      | Err _ => None
      end
  | E_Lock, Reconciling generation configs phase =>
      let '(h, r, l) := reconcile_next generation configs phase hr in
      Some {| sy_heap := h; sy_registry := r; sy_lock := l; sy_tasks := sy_tasks s |}
  | E_Acquire b, Unlocked =>
      match rs_active (sy_registry s) !! b with
      | Some c => Some {| sy_heap := sy_heap s; sy_registry := sy_registry s; sy_lock := sy_lock s;
                          sy_tasks := sy_tasks s ++ [(c, P_Start)] |}
      | None => Some s
      end
  | E_Task i o, l =>
      match sy_tasks s !! i with
      | None => None
      | Some (c, p) =>
          match sy_heap s !! c with
          | None => None
          | Some ctl =>
              match p, l with
              | P_Signalling held, Unlocked =>
                  let '(h, r) := install_pending_if_ready (c_backend ctl) hr in
                  Some {| sy_heap := h; sy_registry := r; sy_lock := l;
                          sy_tasks := <[i := (c, exit held)]> (sy_tasks s) |}
              | _, _ =>
                  match task_move ctl p o with
                  | None => None
                  | Some (p', (dp, dw, df)) =>
                      Some {| sy_heap := <[c := add_counts dp dw df ctl]> (sy_heap s);
                              sy_registry := sy_registry s; sy_lock := l;
                              sy_tasks := <[i := (c, p')]> (sy_tasks s) |}
                  end
              end
          end
      end
  | _, _ => None
  end.

Fixpoint run (es : list Event) (s : System) : option System :=
  match es with
  | [] => Some s
  | e :: es => match exec e s with Some s' => run es s' | None => None end
  end.

Definition reachable (s : System) : Prop := ∃ es, run es initial = Some s.

(** ** Counting tasks *)

(** How many tasks of controller [c] are at a point that [f] selects. *)
Fixpoint weigh (f : Pc → bool) (c : nat) (ts : list Task) : Z :=
  match ts with
  | [] => 0
  | (c', p) :: ts => (if bool_decide (c' = c) then Z.b2z (f p) else 0) + weigh f c ts
  end.

Section weigh.
Implicit Types (f g : Pc → bool) (ts : list Task).

Lemma weigh_app f c ts us : weigh f c (ts ++ us) = weigh f c ts + weigh f c us.
Proof. induction ts as [|[c' p] ts IH]; cbn; [done|]. rewrite IH. lia. Qed.

Lemma weigh_nonneg f c ts : 0 <= weigh f c ts.
Proof.
  induction ts as [|[c' p] ts IH]; cbn; [done|]. case_bool_decide; [|lia].
  destruct (f p); cbn; lia.
Qed.

Lemma weigh_insert f c ts i c' p p' :
  ts !! i = Some (c', p) ->
  weigh f c (<[i := (c', p')]> ts)
    = weigh f c ts + (if bool_decide (c' = c) then Z.b2z (f p') - Z.b2z (f p) else 0).
Proof.
  revert i. induction ts as [|[d q] ts IH]; intros [|i] H; cbn in *; try done.
  - injection H as [= -> ->]. case_bool_decide; lia.
  - specialize (IH _ H). unfold insert in *. rewrite IH. lia.
Qed.

Lemma weigh_mono f g c ts : (∀ p, f p = true -> g p = true) -> weigh f c ts <= weigh g c ts.
Proof.
  intros Hfg. induction ts as [|[c' p] ts IH]; cbn; [done|].
  case_bool_decide; [|lia]. specialize (Hfg p). destruct (f p), (g p); cbn; lia.
Qed.

Lemma weigh_lookup f c ts i p : ts !! i = Some (c, p) -> f p = true -> 0 < weigh f c ts.
Proof.
  revert i. induction ts as [|[d q] ts IH]; intros [|i] H Hf; cbn in *; try done.
  - injection H as [= -> ->]. rewrite bool_decide_true by done. rewrite Hf.
    pose proof (weigh_nonneg f c ts). cbn. lia.
  - specialize (IH _ H Hf). case_bool_decide; [destruct (f q); cbn|]; lia.
Qed.

Lemma weigh_pos f c ts : 0 < weigh f c ts -> ∃ i p, ts !! i = Some (c, p) /\ f p = true.
Proof.
  induction ts as [|[d q] ts IH]; cbn; [lia|]. intros H.
  destruct (bool_decide (d = c) && f q) eqn:Hd.
  - bool_prop. apply bool_decide_eq_true in H0 as ->. by exists 0%nat, q.
  - destruct IH as (i & p & Hi & Hp).
    + case_bool_decide; [|lia]. destruct (f q); [done|]. cbn in H. lia.
    + by exists (S i), p.
Qed.

Lemma weigh_absent f c ts : (∀ i c' p, ts !! i = Some (c', p) -> (c' < c)%nat) -> weigh f c ts = 0.
Proof.
  intros H. destruct (Z.eq_dec (weigh f c ts) 0) as [|Hne]; [done|].
  destruct (weigh_pos f c ts) as (i & p & Hi & _).
  { pose proof (weigh_nonneg f c ts). lia. }
  apply H in Hi. lia.
Qed.
End weigh.

Lemma engaged_counted p : engaged p = true -> counted p = true.
Proof. by destruct p. Qed.

(** ** Invariants *)

Definition valid_config (b : str) (config : BackendAdmissionConfig) : Prop :=
  ac_backend_id config = b /\ 1 <= ac_max_concurrent config /\ 0 <= ac_max_queue_depth config.

(** The counters of a controller say exactly what its tasks hold. *)
Record Books (ts : list Task) (c : nat) (ctl : BackendAdmissionController) : Prop := {
  bk_config : 1 <= ac_max_concurrent (c_config ctl) /\ 0 <= ac_max_queue_depth (c_config ctl);
  bk_in_flight : c_in_flight ctl = weigh counted c ts;
  bk_waiters : c_waiters ctl = weigh waiting c ts;
  bk_permits : c_permits ctl = ac_max_concurrent (c_config ctl) - weigh holding c ts;
  bk_permits_left : 0 <= c_permits ctl;
  bk_depth : c_waiters ctl <= ac_max_queue_depth (c_config ctl)
}.

Record HeapInv (h : Heap) (ts : list Task) : Prop := {
  hi_books : ∀ c ctl, h !! c = Some ctl -> Books ts c ctl;
  hi_bound : ∀ i c p, ts !! i = Some (c, p) -> (c < length h)%nat
}.

(** What still has to happen before pending backend [b] is served. *)
Definition Awaited (h : Heap) (r : RegistryState) (ts : list Task) (b : str) : Prop :=
  ∃ c ctl, h !! c = Some ctl /\ c_backend ctl = b /\ c_closed ctl = true /\
    (rs_draining r !! b = Some [c] /\ 0 < c_in_flight ctl
     \/ ∃ i p, ts !! i = Some (c, p) /\ signalling p = true).

(** [tk] is the controller a reconciliation has taken out of the maps and [ex] the
    backend whose pending entry it is about to rewrite. *)
Record RegInv (h : Heap) (r : RegistryState) (tk : option (str * nat)) (ex : option str)
    (ts : list Task) : Prop := {
  ri_active : ∀ b c, rs_active r !! b = Some c ->
    rs_draining r !! b = None /\
    ∃ ctl, h !! c = Some ctl /\ c_backend ctl = b /\ c_closed ctl = false;
  ri_open : ∀ c ctl, h !! c = Some ctl -> c_closed ctl = false ->
    rs_active r !! c_backend ctl = Some c;
  ri_closed : ∀ c ctl, h !! c = Some ctl -> c_closed ctl = true ->
    rs_draining r !! c_backend ctl = Some [c] \/ tk = Some (c_backend ctl, c)
    \/ weigh engaged c ts = 0;
  ri_draining : ∀ b l, rs_draining r !! b = Some l ->
    ∃ c ctl, l = [c] /\ h !! c = Some ctl /\ c_backend ctl = b /\ c_closed ctl = true;
  ri_taken : ∀ b c, tk = Some (b, c) ->
    rs_active r !! b = None /\ rs_draining r !! b = None /\
    ∃ ctl, h !! c = Some ctl /\ c_backend ctl = b /\ c_closed ctl = true;
  ri_awaited : ∀ b p, rs_pending r !! b = Some p -> rs_active r !! b = None -> ex <> Some b ->
    Awaited h r ts b;
  ri_pending : ∀ b p, rs_pending r !! b = Some p -> valid_config b (pc_config p)
}.

Section registry.
Implicit Types (h : Heap) (r : RegistryState) (ts : list Task).

Lemma drained_quiet h ts c ctl :
  HeapInv h ts -> h !! c = Some ctl -> is_drained ctl = true -> weigh engaged c ts = 0.
Proof.
  intros HI Hc Hd. apply Z.eqb_eq in Hd. destruct (hi_books _ _ HI _ _ Hc) as [_ Hf _ _ _ _].
  pose proof (weigh_mono engaged counted c ts engaged_counted).
  pose proof (weigh_nonneg engaged c ts). lia.
Qed.

Lemma in_flight_pos h ts c ctl :
  HeapInv h ts -> h !! c = Some ctl -> is_drained ctl = false -> 0 < c_in_flight ctl.
Proof.
  intros HI Hc Hd. apply Z.eqb_neq in Hd. destruct (hi_books _ _ HI _ _ Hc) as [_ Hf _ _ _ _].
  pose proof (weigh_nonneg counted c ts). lia.
Qed.

(** Pruning, seen through the invariant. *)
Lemma prune_draining h r tk ex ts b l :
  RegInv h r tk ex ts ->
  rs_draining (prune_drained h r) !! b = Some l <->
  ∃ c ctl, l = [c] /\ rs_draining r !! b = Some [c] /\ h !! c = Some ctl /\ is_drained ctl = false.
Proof.
  intros HR. cbn. rewrite lookup_omap. split.
  - destruct (rs_draining r !! b) as [l0|] eqn:Hl; cbn; [|done].
    destruct (ri_draining _ _ _ _ _ HR _ _ Hl) as (c & ctl & -> & Hc & _). cbn.
    unfold drained_at. rewrite Hc. destruct (is_drained ctl) eqn:Hd; cbn; [done|].
    intros [= <-]. by exists c, ctl.
  - intros (c & ctl & -> & Hl & Hc & Hd). rewrite Hl. cbn. unfold drained_at. by rewrite Hc, Hd.
Qed.

Lemma prune_draining_None h r b :
  rs_draining r !! b = None -> rs_draining (prune_drained h r) !! b = None.
Proof. intros H. cbn. by rewrite lookup_omap, H. Qed.

Lemma prune_RegInv h r tk ex ts :
  HeapInv h ts -> RegInv h r tk ex ts -> RegInv h (prune_drained h r) tk ex ts.
Proof.
  intros HI HR. pose proof (λ b l, prune_draining h r tk ex ts b l HR) as Hp.
  destruct HR as [Ha Ho Hc Hd Ht Hw Hv]. split; cbn [prune_drained rs_active rs_pending] in *.
  - intros b c Hb. destruct (Ha _ _ Hb) as (Hn & Hx). eauto using prune_draining_None.
  - eauto.
  - intros c ctl Hh Hcl. destruct (is_drained ctl) eqn:Hdr; [eauto using drained_quiet|].
    destruct (Hc _ _ Hh Hcl) as [H|H]; [|tauto]. left. apply Hp. eauto 10.
  - intros b l Hl. apply Hp in Hl as (c & ctl & -> & Hl & _). eauto.
  - intros b c Htk. destruct (Ht _ _ Htk) as (?&?&?). eauto using prune_draining_None.
  - intros b p Hb Hn He. destruct (Hw _ _ Hb Hn He) as (c & ctl & Hh & Hbk & Hcl & Hor).
    exists c, ctl. split_and!; [done..|]. destruct Hor as [[Hl Hf]|]; [left|by right].
    split; [|done]. apply Hp. exists c, ctl. split_and!; try done.
    unfold is_drained. apply Z.eqb_neq. lia.
  - eauto.
Qed.

(** A taken controller that is drained, or that is pushed to the draining list. *)
Lemma drop_taken_RegInv h r b c ts :
  RegInv h r (Some (b, c)) (Some b) ts -> weigh engaged c ts = 0 ->
  RegInv h r None (Some b) ts.
Proof.
  intros [Ha Ho Hc Hd Ht Hw Hv] Hq. split; eauto; [|done].
  intros c' ctl Hh Hcl. destruct (Hc _ _ Hh Hcl) as [?|[[= _ ->]|?]]; auto.
Qed.

Lemma push_RegInv h r b c ts :
  RegInv h r (Some (b, c)) (Some b) ts -> RegInv h (push_draining b c r) None (Some b) ts.
Proof.
  intros [Ha Ho Hc Hd Ht Hw Hv].
  destruct (Ht _ _ eq_refl) as (Hna & Hnd & ctl & Hh & Hb & Hcl).
  unfold push_draining. rewrite Hnd. cbn [default app].
  split; cbn [set_draining rs_active rs_draining rs_pending]; [..|done| |done].
  - intros b' c' Hb'. rewrite lookup_insert_ne by congruence. eauto.
  - done.
  - intros c' ctl' Hh' Hcl'. destruct (Hc _ _ Hh' Hcl') as [H|[[= <- <-]|?]]; [| |by auto].
    + rewrite lookup_insert_ne by congruence. auto.
    + left. by rewrite lookup_insert_eq.
  - intros b' l Hl. destruct (decide (b' = b)) as [->|Hne].
    + rewrite lookup_insert_eq in Hl. injection Hl as [= <-]. by exists c, ctl.
    + rewrite lookup_insert_ne in Hl by done. eauto.
  - intros b' p Hp Hn He.
    destruct (Hw _ _ Hp Hn He) as (c' & ctl' & Hh' & Hb' & Hcl' & Hor).
    exists c', ctl'. cbn. rewrite lookup_insert_ne by congruence. auto.
Qed.

Lemma delete_pending_RegInv h r tk ex ex' b ts :
  RegInv h r tk ex ts -> ex' = ex \/ ex = Some b ->
  RegInv h (set_pending (delete b (rs_pending r)) r) tk ex' ts.
Proof.
  intros [Ha Ho Hc Hd Ht Hw Hv] Hex. split; eauto; cbn.
  - intros b' p Hp Hn He. destruct (decide (b' = b)) as [->|Hne].
    { by rewrite lookup_delete_eq in Hp. }
    rewrite lookup_delete_ne in Hp by done. apply (Hw _ _ Hp Hn). naive_solver.
  - intros b' p Hp. apply lookup_delete_Some in Hp as [_ Hp]. eauto.
Qed.

Lemma insert_pending_RegInv h r tk ex b p c ctl ts :
  RegInv h r tk ex ts -> ex = None \/ ex = Some b -> valid_config b (pc_config p) ->
  rs_draining r !! b = Some [c] -> h !! c = Some ctl -> is_drained ctl = false ->
  HeapInv h ts -> RegInv h (set_pending (<[b := p]> (rs_pending r)) r) tk None ts.
Proof.
  intros HR Hex Hvp Hl Hh Hdr HI. pose proof (in_flight_pos _ _ _ _ HI Hh Hdr) as Hpos.
  destruct (ri_draining _ _ _ _ _ HR _ _ Hl) as (c' & ctl' & [= <-] & Hh' & Hb & Hcl).
  rewrite Hh in Hh'. injection Hh' as [= <-].
  destruct HR as [Ha Ho Hc Hd Ht Hw Hv]. split; eauto; cbn.
  - intros b' q Hq Hn _. destruct (decide (b' = b)) as [->|Hne].
    + exists c, ctl. cbn. auto 10.
    + rewrite lookup_insert_ne in Hq by done. apply (Hw _ _ Hq Hn). naive_solver.
  - intros b' q. destruct (decide (b' = b)) as [->|Hne].
    + rewrite lookup_insert_eq. by intros [= <-].
    + rewrite lookup_insert_ne by done. eauto.
Qed.

(** A fresh controller for a backend that has none. *)
Lemma install_RegInv h r ex b generation config ts :
  HeapInv h ts -> RegInv h r None ex ts -> ex = None \/ ex = Some b -> valid_config b config ->
  rs_active r !! b = None -> rs_draining r !! b = None ->
  let s := install b generation config (h, r) in
  HeapInv s.1 ts /\ RegInv s.1 s.2 None None ts.
Proof.
  intros HI HR Hex Hv0 Hna Hnd. cbn. set (new := new_controller generation config).
  assert (Hnb : c_backend new = b) by apply Hv0.
  assert (Hlk : ∀ c ctl, (h ++ [new]) !! c = Some ctl ->
    h !! c = Some ctl \/ c = length h /\ ctl = new).
  { intros c ctl [H|[Hle H]]%lookup_app_Some; [by left|right].
    apply list_lookup_singleton_Some in H as [H <-]. split; [lia|done]. }
  assert (Hkeep : ∀ c ctl, h !! c = Some ctl -> (h ++ [new]) !! c = Some ctl)
    by (intros; by apply lookup_app_l_Some).
  split.
  - destruct HI as [Hbk Hbd]. split.
    + intros c ctl [H|[-> ->]]%Hlk; [eauto|].
      assert (Hz : ∀ f, weigh f (length h) ts = 0) by (intros; by apply weigh_absent).
      split; cbn; rewrite ?Hz; unfold valid_config in Hv0; lia.
    + intros i c p Hi. rewrite length_app. cbn. apply Hbd in Hi. lia.
  - destruct HR as [Ha Ho Hc Hd Ht Hw Hv]. split; cbn [set_active rs_active rs_draining rs_pending].
    + intros b' c. destruct (decide (b' = b)) as [->|Hne].
      * rewrite lookup_insert_eq. intros [= <-]. split; [done|]. exists new.
        split; [|done]. apply lookup_app_Some. right. by rewrite Nat.sub_diag.
      * rewrite lookup_insert_ne by done. intros H. destruct (Ha _ _ H) as (? & ctl & ? & ?).
        eauto 10.
    + intros c ctl [H|[-> ->]]%Hlk Hop.
      * pose proof (Ho _ _ H Hop) as Hac. rewrite lookup_insert_ne by congruence. done.
      * rewrite Hnb. apply lookup_insert_eq.
    + intros c ctl [H|[-> ->]]%Hlk Hcl; [eauto|done].
    + intros b' l Hl. destruct (Hd _ _ Hl) as (c & ctl & ? & ? & ?). eauto 10.
    + done.
    + intros b' p Hp Hn _. destruct (decide (b' = b)) as [->|Hne].
      { by rewrite lookup_insert_eq in Hn. }
      rewrite lookup_insert_ne in Hn by done.
      destruct (Hw _ _ Hp Hn) as (c & ctl & ? & ? & ? & ?); [naive_solver|].
      exists c, ctl. auto.
    + eauto.
Qed.

(** A reconciliation takes the active controller of [b] out of the maps. *)
Lemma take_RegInv h r b c ctl ts :
  RegInv h r None None ts -> rs_active r !! b = Some c -> h !! c = Some ctl ->
  RegInv (<[c := close_flag ctl]> h) (set_active (delete b (rs_active r)) r)
    (Some (b, c)) (Some b) ts.
Proof.
  intros [Ha Ho Hc Hd Ht Hw Hv] Hb Hh.
  destruct (Ha _ _ Hb) as (Hnd & ctl0 & Hh0 & Hbk & Hop).
  rewrite Hh in Hh0. injection Hh0 as [= <-].
  pose proof (lookup_lt_Some _ _ _ Hh) as Hlt.
  assert (Hne : ∀ d dl, h !! d = Some dl -> c_closed dl = true -> d <> c) by (intros; congruence).
  assert (Hkeep : ∀ d dl, h !! d = Some dl -> d <> c -> <[c := close_flag ctl]> h !! d = Some dl)
    by (intros; by rewrite list_lookup_insert_ne).
  split; cbn [set_active rs_active rs_draining rs_pending].
  - intros b' c' [Hne' Hb']%lookup_delete_Some. destruct (Ha _ _ Hb') as (? & dl & Hd' & ? & ?).
    split; [done|]. exists dl. rewrite list_lookup_insert_ne by congruence. done.
  - intros d dl [(<- & <- & _)|[Hne' Hd']]%list_lookup_insert_Some Hop'; [done|].
    pose proof (Ho _ _ Hd' Hop') as Hact. rewrite lookup_delete_ne by congruence. done.
  - intros d dl [(<- & <- & _)|[Hne' Hd']]%list_lookup_insert_Some Hcl; [right; left; by rewrite <- Hbk|].
    destruct (Hc _ _ Hd' Hcl) as [?|[[=]|?]]; auto.
  - intros b' l Hl. destruct (Hd _ _ Hl) as (d & dl & ? & Hd' & ? & ?). exists d, dl. split_and!; eauto.
  - intros b' c' [= <- <-]. split; [apply lookup_delete_eq|split; [done|]].
    exists (close_flag ctl). by rewrite list_lookup_insert_eq.
  - intros b' p Hp Hn He. rewrite lookup_delete_ne in Hn by congruence.
    destruct (Hw _ _ Hp Hn) as (d & dl & Hd' & ? & Hcl & ?); [done|]. exists d, dl. eauto 10.
  - done.
Qed.

Definition signalled (c : nat) (ts : list Task) : Prop :=
  ∃ i p, ts !! i = Some (c, p) /\ signalling p = true.

(** A controller's counters change, and with them its tasks. *)
Lemma update_RegInv h r tk ex ex' c ctl ctl' ts ts' :
  RegInv h r tk ex ts -> h !! c = Some ctl ->
  c_config ctl' = c_config ctl -> c_closed ctl' = c_closed ctl ->
  (∀ d dl, h !! d = Some dl -> c_closed dl = true ->
     weigh engaged d ts = 0 -> weigh engaged d ts' = 0) ->
  (c_closed ctl = true -> 0 < c_in_flight ctl -> 0 < c_in_flight ctl' \/ signalled c ts') ->
  (∀ d dl, h !! d = Some dl -> c_closed dl = true -> ex' <> Some (c_backend dl) ->
     signalled d ts -> signalled d ts') ->
  ex' = ex \/ ex = None ->
  RegInv (<[c := ctl']> h) r tk ex' ts'.
Proof.
  intros [Ha Ho Hc Hd Ht Hw Hv] Hh Hcfg Hcld Heng Hfl Hsig Hex.
  pose proof (lookup_lt_Some _ _ _ Hh) as Hlt.
  assert (Hbk : c_backend ctl' = c_backend ctl) by (unfold c_backend; by rewrite Hcfg).
  assert (Hfwd : ∀ d dl, h !! d = Some dl -> ∃ dl', <[c := ctl']> h !! d = Some dl' /\
    c_backend dl' = c_backend dl /\ c_closed dl' = c_closed dl).
  { intros d dl Hd'. destruct (decide (d = c)) as [->|Hne].
    - rewrite Hh in Hd'. injection Hd' as [= <-]. exists ctl'. by rewrite list_lookup_insert_eq.
    - exists dl. by rewrite list_lookup_insert_ne. }
  assert (Hbwd : ∀ d dl', <[c := ctl']> h !! d = Some dl' -> ∃ dl, h !! d = Some dl /\
    c_backend dl' = c_backend dl /\ c_closed dl' = c_closed dl).
  { intros d dl' [(<- & <- & _)|[Hne Hd']]%list_lookup_insert_Some; eauto. }
  split.
  - intros b d Hb. destruct (Ha _ _ Hb) as (? & dl & Hd' & <- & Hop). split; [done|].
    destruct (Hfwd _ _ Hd') as (dl' & ? & ? & ?). exists dl'. split_and!; congruence.
  - intros d dl' (dl & Hd' & -> & ->)%Hbwd Hop. eauto.
  - intros d dl' (dl & Hd' & -> & ->)%Hbwd Hcl. destruct (Hc _ _ Hd' Hcl) as [?|[?|?]]; eauto.
  - intros b l Hl. destruct (Hd _ _ Hl) as (d & dl & -> & Hd' & <- & Hcl).
    destruct (Hfwd _ _ Hd') as (dl' & ? & ? & ?). exists d, dl'. split_and!; congruence.
  - intros b d Htk. destruct (Ht _ _ Htk) as (? & ? & dl & Hd' & <- & Hcl). split_and!; [done..|].
    destruct (Hfwd _ _ Hd') as (dl' & ? & ? & ?). exists dl'. split_and!; congruence.
  - intros b p Hp Hn He. destruct (Hw _ _ Hp Hn) as (d & dl & Hd' & <- & Hcl & Hor); [naive_solver|].
    destruct (Hfwd _ _ Hd') as (dl' & Hd2 & Hb2 & Hc2). exists d, dl'.
    split_and!; [done|done|congruence|]. destruct Hor as [[Hl Hpos]|Hs]; [|right; by eapply Hsig].
    destruct (decide (d = c)) as [->|Hne].
    + rewrite Hh in Hd'. injection Hd' as [= <-]. rewrite list_lookup_insert_eq in Hd2 by done.
      injection Hd2 as [= <-]. destruct (Hfl Hcl Hpos); auto.
    + rewrite list_lookup_insert_ne in Hd2 by done. left. split; [done|congruence].
  - done.
Qed.

Lemma settle_RegInv h r tk ex b ts :
  RegInv h r tk ex ts -> ex = None \/ ex = Some b ->
  rs_pending r !! b = None \/ rs_active r !! b <> None \/ Awaited h r ts b ->
  RegInv h r tk None ts.
Proof.
  intros [Ha Ho Hc Hd Ht Hw Hv] Hex Hor. split; eauto.
  intros b' p Hp Hn _. destruct (decide (b' = b)) as [->|Hne].
  - destruct Hor as [?|[?|?]]; congruence.
  - apply (Hw _ _ Hp Hn). destruct Hex as [->| ->]; congruence.
Qed.

(** [has_draining] answers whether an undrained controller of the backend is left. *)
Lemma has_draining_RegInv h r tk ex b ts :
  HeapInv h ts -> RegInv h r tk ex ts ->
  let '(r', draining) := has_draining h b r in
  RegInv h r' tk ex ts /\ rs_active r' = rs_active r /\ rs_pending r' = rs_pending r /\
  if draining
  then ∃ c ctl, rs_draining r' !! b = Some [c] /\ h !! c = Some ctl /\ is_drained ctl = false
  else rs_draining r' !! b = None.
Proof.
  intros HI HR. unfold has_draining.
  destruct (rs_draining (prune_drained h r) !! b) as [l|] eqn:Hl; [|eauto using prune_RegInv].
  pose proof Hl as (c & ctl & -> & _ & Hc & Hd)%(prune_draining _ _ _ _ _ _ _ HR).
  cbn -[prune_drained]. split_and!; eauto using prune_RegInv.
Qed.

Lemma install_pending_RegInv h r ex b ts :
  HeapInv h ts -> RegInv h r None ex ts -> ex = None \/ ex = Some b ->
  let s := install_pending_if_ready b (h, r) in
  HeapInv s.1 ts /\ RegInv s.1 s.2 None None ts.
Proof.
  intros HI HR Hex. unfold install_pending_if_ready.
  apply (prune_RegInv h r) in HR as HR1; [|done]. set (r1 := prune_drained h r) in *.
  case_bool_decide as Hact.
  { cbn [fst snd]. split; [done|]. apply (settle_RegInv _ _ _ _ b _ HR1 Hex).
    right; left. by destruct Hact as [x ->]. }
  pose proof (has_draining_RegInv h r1 None ex b ts HI HR1) as HD.
  destruct (has_draining h b r1) as [r2 draining]. destruct HD as (HR2 & Ha2 & Hp2 & Hd2).
  destruct draining.
  { cbn [fst snd]. split; [done|]. apply (settle_RegInv _ _ _ _ b _ HR2 Hex).
    right; right. destruct Hd2 as (c & ctl & Hl & Hc & Hd).
    destruct (ri_draining _ _ _ _ _ HR2 _ _ Hl) as (c' & ctl' & [= <-] & Hc' & Hb & Hcl).
    rewrite Hc in Hc'. injection Hc' as [= <-].
    exists c, ctl. split_and!; eauto using in_flight_pos. }
  destruct (rs_pending r2 !! b) as [p|] eqn:Hp.
  2: { cbn [fst snd]. split; [done|]. apply (settle_RegInv _ _ _ _ b _ HR2 Hex). auto. }
  assert (HR3 : RegInv h (set_pending (delete b (rs_pending r2)) r2) None None ts).
  { apply (delete_pending_RegInv _ _ _ _ _ _ _ HR2). naive_solver. }
  destruct (is_available (pc_config p)); [|done].
  eapply install_RegInv; [done|done|by left| | |].
  - by apply (ri_pending _ _ _ _ _ HR2).
  - cbn. rewrite Ha2. by apply eq_None_not_Some.
  - done.
Qed.

(** Closing touches no counter. *)
Lemma reflag_HeapInv h ts c ctl ctl' :
  HeapInv h ts -> h !! c = Some ctl -> (Books ts c ctl -> Books ts c ctl') ->
  HeapInv (<[c := ctl']> h) ts.
Proof.
  intros [Hbk Hbd] Hc Hsame. split.
  - intros d dl [(<- & <- & _)|[Hne Hd]]%list_lookup_insert_Some; eauto.
  - intros i d p Hi. rewrite length_insert. eauto.
Qed.

Lemma alter_insert {A} (f : A → A) (l : list A) i x :
  l !! i = Some x -> alter f i l = <[i := f x]> l.
Proof.
  revert i. induction l as [|y l IH]; intros [|i] H; cbn in *; try done; [congruence|].
  f_equal. by apply IH.
Qed.

(** The passes of [reconcile]. *)
Lemma reconcile_active_RegInv h r configs b ts :
  HeapInv h ts -> RegInv h r None None ts ->
  let '(h', r', taken) := reconcile_active configs b (h, r) in
  HeapInv h' ts /\
  RegInv h' r' (option_map (pair b) taken) (option_map (λ _, b) taken) ts.
Proof.
  intros HI HR. unfold reconcile_active.
  destruct (rs_active r !! b) as [c|] eqn:Hb; [|done].
  destruct (h !! c) as [ctl|] eqn:Hc; [|done].
  assert (Htake : HeapInv (<[c := close_flag ctl]> h) ts /\
    RegInv (<[c := close_flag ctl]> h) (set_active (delete b (rs_active r)) r)
      (Some (b, c)) (Some b) ts).
  { split; [|by apply take_RegInv]. apply (reflag_HeapInv _ _ _ _ _ HI Hc). by intros []; split. }
  destruct (opt_filter is_available (configs !! b)); [|done]. by destruct (matches ctl _).
Qed.

Lemma opt_filter_Some {A} (f : A → bool) o a : opt_filter f o = Some a -> o = Some a.
Proof. destruct o as [x|]; cbn; [|done]. destruct (f x); congruence. Qed.

Lemma reconcile_closed_RegInv h r generation configs b c ts :
  HeapInv h ts -> RegInv h r (Some (b, c)) (Some b) ts ->
  (∀ b config, configs !! b = Some config -> valid_config b config) ->
  let s := reconcile_closed generation configs b c (h, r) in
  HeapInv s.1 ts /\ RegInv s.1 s.2 None None ts.
Proof.
  intros HI HR Hcfg. unfold reconcile_closed.
  destruct (ri_taken _ _ _ _ _ HR _ _ eq_refl) as (Hna & Hnd & ctl & Hc & Hb & Hcl).
  assert (Hdrop : drained_at h c = true -> RegInv h r None (Some b) ts).
  { unfold drained_at. rewrite Hc. intros Hd. eauto using drop_taken_RegInv, drained_quiet. }
  pose proof (push_RegInv _ _ _ _ _ HR) as Hpush.
  destruct (opt_filter is_available (configs !! b)) as [config|] eqn:Hf.
  - apply opt_filter_Some, Hcfg in Hf. destruct (drained_at h c) eqn:Hd.
    + eapply install_RegInv; [done|by apply Hdrop|by right|done..].
    + split; [done|]. unfold drained_at in Hd. rewrite Hc in Hd.
      apply (insert_pending_RegInv h (push_draining b c r) None (Some b) b _ c ctl ts);
        [done|by right|done| |done..].
      cbn. by rewrite lookup_insert_eq, Hnd.
  - split; [done|]. cbn [snd fst]. destruct (drained_at h c) eqn:Hd.
    + apply (delete_pending_RegInv _ _ _ (Some b)); [by apply Hdrop|by right].
    + apply (delete_pending_RegInv _ _ _ (Some b)); [done|by right].
Qed.

Lemma reconcile_desired_RegInv h r generation b config ts :
  HeapInv h ts -> RegInv h r None None ts -> valid_config b config ->
  let s := reconcile_desired generation (b, config) (h, r) in
  HeapInv s.1 ts /\ RegInv s.1 s.2 None None ts.
Proof.
  intros HI HR Hv. unfold reconcile_desired.
  destruct (is_available config); cbn [negb]; [|split; [done|]].
  2: { apply (delete_pending_RegInv _ _ _ None); [done|by left]. }
  case_bool_decide as Hact; [done|].
  pose proof (has_draining_RegInv h r None None b ts HI HR) as HD.
  destruct (has_draining h b r) as [r2 draining]. destruct HD as (HR2 & Ha2 & Hp2 & Hd2).
  destruct draining.
  - destruct Hd2 as (c & ctl & Hl & Hc & Hd). split; [done|].
    eapply insert_pending_RegInv; [exact HR2|by left|done..].
  - eapply install_RegInv; [done|done|by left|done| |done].
    rewrite Ha2. by apply eq_None_not_Some.
Qed.
End registry.

(** ** The system's invariant *)

Definition taken (l : Lock) : option (str * nat) :=
  match l with
  | Reconciling _ _ (Ph_Closing b c _) | Reconciling _ _ (Ph_Closed b c _) => Some (b, c)
  | _ => None
  end.

Definition LockOk (l : Lock) : Prop :=
  match l with
  | Unlocked => True
  | Reconciling _ configs phase =>
      (∀ b config, configs !! b = Some config -> valid_config b config) /\
      match phase with
      | Ph_Desired todo => Forall (λ bc, valid_config bc.1 bc.2) todo
      | _ => True
      end
  end.

Record Inv (s : System) : Prop := {
  inv_heap : HeapInv (sy_heap s) (sy_tasks s);
  inv_registry : RegInv (sy_heap s) (sy_registry s) (taken (sy_lock s))
                   (option_map fst (taken (sy_lock s))) (sy_tasks s);
  inv_lock : LockOk (sy_lock s)
}.

Lemma configs_from_valid backends vetoed configs configs' :
  (∀ b config, configs !! b = Some config -> valid_config b config) ->
  configs_from backends vetoed configs = Ok configs' ->
  ∀ b config, configs' !! b = Some config -> valid_config b config.
Proof.
  revert configs. induction backends as [|backend backends IH]; cbn; intros configs Hv.
  { by intros [= <-]. }
  destruct (from_backend backend) as [config|e] eqn:Hb; [|done]. apply IH.
  intros b config' [[<- <-]|[Hne Hl]]%lookup_insert_Some; [|eauto].
  revert Hb. unfold from_backend. split_ifs; intros; simplify_eq.
  unfold valid_config. cbn. split_and!; [done|lia..].
Qed.

Ltac unfold_moves :=
  unfold try_enter_queue, start_permit, drop_permit, release_in_flight, release_signal, exit.

(** A move of a task changes the counters by what the task holds before and after,
    and takes a permit or a waiter unit only where one is left. *)
Lemma task_move_units ctl p o p' dp dw df :
  task_move ctl p o = Some (p', (dp, dw, df)) ->
  df = Z.b2z (counted p') - Z.b2z (counted p) /\
  dw = Z.b2z (waiting p') - Z.b2z (waiting p) /\
  dp = Z.b2z (holding p) - Z.b2z (holding p') /\
  -1 <= dp /\ dw <= 1 /\
  (dp < 0 -> 0 < c_permits ctl) /\
  (0 < dw -> c_waiters ctl < ac_max_queue_depth (c_config ctl)).
Proof.
  destruct p, o; cbn; unfold_moves; intros H; split_ifs; bool_prop; try discriminate;
    try (destruct held); injection H as [= <- <- <- <-]; cbn; repeat split; lia.
Qed.

(** Whoever releases the last unit goes on to tell the registry. *)
Lemma task_move_last ctl p o p' dp dw df :
  task_move ctl p o = Some (p', (dp, dw, df)) -> 0 < c_in_flight ctl ->
  0 < c_in_flight ctl + df \/ signalling p' = true.
Proof.
  destruct p, o; cbn; unfold_moves; intros H; split_ifs; bool_prop; try discriminate;
    injection H as [= <- <- <- <-]; auto; left; lia.
Qed.

Lemma move_HeapInv h ts i c p o p' dp dw df ctl :
  HeapInv h ts -> ts !! i = Some (c, p) -> h !! c = Some ctl ->
  task_move ctl p o = Some (p', (dp, dw, df)) ->
  HeapInv (<[c := add_counts dp dw df ctl]> h) (<[i := (c, p')]> ts).
Proof.
  intros [Hbk Hbd] Hi Hc Hm. destruct (task_move_units _ _ _ _ _ _ _ Hm) as (Hf & Hw & Hp & Hp1 & Hw1 & Hp0 & Hw0).
  split.
  - intros d dl [(<- & <- & _)|[Hne Hd]]%list_lookup_insert_Some.
    + destruct (Hbk _ _ Hc) as [B1 B2 B3 B4 B5 B6].
      split; cbn; rewrite ?(weigh_insert _ _ _ _ _ _ _ Hi), ?bool_decide_true by done; lia.
    + destruct (Hbk _ _ Hd) as [B1 B2 B3 B4 B5 B6].
      split; rewrite ?(weigh_insert _ _ _ _ _ _ _ Hi), ?bool_decide_false by done; lia.
  - intros j d q. rewrite length_insert.
    intros [(<- & [= <- <-] & _)|[Hne Hd]]%list_lookup_insert_Some; eauto.
Qed.

Lemma signalled_insert ts i c p p' d :
  ts !! i = Some (c, p) -> (c = d -> signalling p = true -> signalling p' = true) ->
  signalled d ts -> signalled d (<[i := (c, p')]> ts).
Proof.
  intros Hi Hs (j & q & Hj & Hq). destruct (decide (j = i)) as [->|Hne].
  - rewrite Hi in Hj. injection Hj as [= -> ->]. exists i, p'.
    rewrite list_lookup_insert_eq by (by eapply lookup_lt_Some). auto.
  - exists j, q. by rewrite list_lookup_insert_ne.
Qed.

Lemma move_RegInv h r tk ts i c p o p' dp dw df ctl :
  HeapInv h ts -> RegInv h r tk (option_map fst tk) ts ->
  ts !! i = Some (c, p) -> h !! c = Some ctl ->
  task_move ctl p o = Some (p', (dp, dw, df)) ->
  RegInv (<[c := add_counts dp dw df ctl]> h) r tk (option_map fst tk) (<[i := (c, p')]> ts).
Proof.
  intros HI HR Hi Hc Hm.
  assert (Heng : c_closed ctl = true -> engaged p' = true -> engaged p = true).
  { clear -Hm. intros Hcl. revert Hm.
    destruct p, o; cbn; unfold_moves; rewrite ?Hcl; intros H; split_ifs;
      simplify_eq; try done; by destruct held. }
  assert (Hsig : c_closed ctl = true -> signalling p = true -> signalling p' = true).
  { clear -Hm. intros Hcl. revert Hm.
    destruct p, o; cbn; unfold_moves; rewrite ?Hcl; intros H; simplify_eq; done. }
  eapply update_RegInv; [exact HR|exact Hc|done|done| | | |by left].
  - intros d dl Hd Hcl. rewrite (weigh_insert _ _ _ _ _ _ _ Hi). case_bool_decide as Hcd; [|lia].
    subst d. rewrite Hc in Hd. injection Hd as [= <-]. intros Hz.
    pose proof (weigh_nonneg engaged c (<[i := (c, p')]> ts)) as Hnn.
    rewrite (weigh_insert _ _ _ _ _ _ _ Hi), bool_decide_true in Hnn by done.
    destruct (engaged p') eqn:E; [|destruct (engaged p); cbn in *; lia].
    rewrite (Heng Hcl eq_refl). cbn. lia.
  - intros _ Hpos. destruct (task_move_last _ _ _ _ _ _ _ Hm Hpos) as [?|Hs]; [by left|right].
    exists i, p'. by rewrite list_lookup_insert_eq by (by eapply lookup_lt_Some).
  - intros d dl Hd Hcl _. apply (signalled_insert _ _ _ _ _ _ Hi). intros <-.
    rewrite Hc in Hd. injection Hd as [= <-]. auto.
Qed.

Lemma reconcile_next_Inv generation configs phase h r ts :
  HeapInv h ts ->
  RegInv h r (taken (Reconciling generation configs phase))
    (option_map fst (taken (Reconciling generation configs phase))) ts ->
  LockOk (Reconciling generation configs phase) ->
  let '(h', r', l') := reconcile_next generation configs phase (h, r) in
  HeapInv h' ts /\ RegInv h' r' (taken l') (option_map fst (taken l')) ts /\ LockOk l'.
Proof.
  intros HI HR [Hcfg Hph]. destruct phase as [[|b ids]|b c ids|b c ids|[|[b config] todo]|[|b ids]].
  - split_and!; [done|done|]. split; [done|]. apply Forall_forall. intros [b config] Hin.
    apply list_elem_of_In, elem_of_map_to_list in Hin. eauto.
  - pose proof (reconcile_active_RegInv h r configs b ts HI HR) as H. unfold reconcile_next.
    destruct (reconcile_active configs b (h, r)) as [[h' r'] tk], H as [H1 H2].
    by destruct tk.
  - destruct (ri_taken _ _ _ _ _ HR _ _ eq_refl) as (_ & _ & ctl & Hc & _).
    cbn -[taken]. rewrite (alter_insert _ _ _ _ Hc). split; [|split; [|done]].
    + apply (reflag_HeapInv _ _ _ _ _ HI Hc). by intros []; split.
    + eapply update_RegInv; [exact HR|exact Hc|done|done|done| |done|by left]. by left.
  - pose proof (reconcile_closed_RegInv h r generation configs b c ts HI HR Hcfg) as H.
    unfold reconcile_next.
    by destruct (reconcile_closed generation configs b c (h, r)), H.
  - done.
  - apply Forall_cons_iff in Hph as [Hv Hph].
    pose proof (reconcile_desired_RegInv h r generation b config ts HI HR Hv) as H.
    unfold reconcile_next. by destruct (reconcile_desired generation (b, config) (h, r)), H.
  - done.
  - pose proof (install_pending_RegInv h r None b ts HI HR (or_introl eq_refl)) as H.
    unfold reconcile_next. by destruct (install_pending_if_ready b (h, r)), H.
Qed.

(** [controller_drained] by the task that released the last unit. *)
Lemma signal_Inv h r ts i c held ctl :
  HeapInv h ts -> RegInv h r None None ts ->
  ts !! i = Some (c, P_Signalling held) -> h !! c = Some ctl ->
  let s := install_pending_if_ready (c_backend ctl) (h, r) in
  let ts' := <[i := (c, exit held)]> ts in
  HeapInv s.1 ts' /\ RegInv s.1 s.2 None None ts'.
Proof.
  intros HI HR Hi Hc s ts'.
  assert (Hw : ∀ f, f (P_Signalling held) = f (exit held) -> ∀ d, weigh f d ts' = weigh f d ts).
  { intros f Hf d. unfold ts'. rewrite (weigh_insert _ _ _ _ _ _ _ Hi), Hf.
    case_bool_decide; lia. }
  assert (HI' : HeapInv h ts').
  { destruct HI as [Hbk Hbd]. split.
    - intros d dl Hd. destruct (Hbk _ _ Hd) as [B1 B2 B3 B4 B5 B6].
      split; rewrite ?Hw by (by destruct held); done.
    - intros j d q [(<- & [= <- <-] & _)|[Hne Hj]]%list_lookup_insert_Some; eauto. }
  apply (install_pending_RegInv h r (Some (c_backend ctl))); [done| |by right].
  rewrite <- (list_insert_id h c ctl Hc).
  eapply update_RegInv; [exact HR|exact Hc|done|done| | | |by right].
  - intros d dl _ _ Hz. by rewrite Hw by (by destruct held).
  - by left.
  - intros d dl Hd _ Hne. apply (signalled_insert _ _ _ _ _ _ Hi). congruence.
Qed.

Lemma exec_Inv e s s' : Inv s -> exec e s = Some s' -> Inv s'.
Proof.
  destruct s as [h r l ts]. intros [HI HR HL]. cbn in HI, HR, HL. unfold exec. cbn [sy_lock].
  destruct e as [generation backends vetoed| |b|i o]; cbn [sy_heap sy_registry sy_tasks sy_lock].
  - destruct l; [|done].
    destruct (backend_admission_configs_from_backends backends vetoed) as [configs|] eqn:Hb; [|done].
    intros [= <-]. split; cbn -[prune_drained]; [done|by apply prune_RegInv|].
    split; [|done]. refine (configs_from_valid _ _ _ _ _ Hb). intros b c H.
    by rewrite lookup_empty in H.
  - destruct l as [|generation configs phase]; [done|].
    pose proof (reconcile_next_Inv generation configs phase h r ts HI HR HL) as H.
    destruct (reconcile_next generation configs phase (h, r)) as [[h' r'] l'].
    intros [= <-]. by destruct H as (?&?&?).
  - destruct l; [|done]. destruct (rs_active r !! b) as [c|] eqn:Hb; intros [= <-]; [|by split].
    split; cbn; [..|done].
    + destruct HI as [Hbk Hbd]. split.
      * intros d dl Hd. destruct (Hbk _ _ Hd) as [B1 B2 B3 B4 B5 B6].
        split; rewrite ?weigh_app; cbn; try case_bool_decide; lia.
      * intros i d p [H|[_ H]]%lookup_app_Some; [eauto|].
        apply list_lookup_singleton_Some in H as [_ [= <- <-]].
        destruct (ri_active _ _ _ _ _ HR _ _ Hb) as (_ & ctl & Hc & _). by eapply lookup_lt_Some.
    + destruct (ri_active _ _ _ _ _ HR _ _ Hb) as (_ & ctl & Hc & _).
      rewrite <- (list_insert_id h c ctl Hc).
      eapply update_RegInv; [exact HR|exact Hc|done|done| | | |by left].
      * intros d dl _ _ Hz. rewrite weigh_app, Hz. cbn. by case_bool_decide.
      * by left.
      * intros d dl _ _ _ (j & p & Hj & Hp). exists j, p. split; [|done].
        by apply lookup_app_l_Some.
  - destruct (ts !! i) as [[c p]|] eqn:Hi; [|by destruct l].
    destruct (h !! c) as [ctl|] eqn:Hc; [|by destruct l].
    assert (Hmove : match task_move ctl p o with
                    | None => None
                    | Some (p', (dp, dw, df)) =>
                        Some {| sy_heap := <[c := add_counts dp dw df ctl]> h; sy_registry := r;
                                sy_lock := l; sy_tasks := <[i := (c, p')]> ts |}
                    end = Some s' -> Inv s').
    { destruct (task_move ctl p o) as [[p' [[dp dw] df]]|] eqn:Hm; [|done]. intros [= <-].
      split; cbn; [by eapply move_HeapInv|by eapply move_RegInv|done]. }
    destruct p; try (destruct l; exact Hmove). destruct l; [clear Hmove|exact Hmove].
    pose proof (signal_Inv h r ts i c held ctl HI HR Hi Hc) as H.
    destruct (install_pending_if_ready (c_backend ctl) (h, r)) as [h' r'].
    intros [= <-]. by destruct H.
Qed.

Lemma run_Inv es s s' : Inv s -> run es s = Some s' -> Inv s'.
Proof.
  revert s. induction es as [|e es IH]; cbn; intros s HI; [by intros [= <-]|].
  destruct (exec e s) as [s1|] eqn:He; [|done]. apply IH. by apply (exec_Inv e s).
Qed.

Lemma initial_Inv : Inv initial.
Proof. split; [split| split|]; cbn; intros; simplify_map_eq; done. Qed.

Lemma reachable_Inv s : reachable s -> Inv s.
Proof. intros [es Hr]. exact (run_Inv _ _ _ initial_Inv Hr). Qed.

(** ** What admission guarantees *)

(** Tasks that hold a permit and may call, or are about to call, the provider. *)
Definition admitted (p : Pc) : bool := engaged p && holding p.

(** The calls a backend serves at once, whatever controllers they came through. *)
Fixpoint backend_load (h : Heap) (b : str) (ts : list Task) : Z :=
  match ts with
  | [] => 0
  | (c, p) :: ts =>
      (match h !! c with
       | Some ctl => if str_eqb (c_backend ctl) b then Z.b2z (admitted p) else 0
       | None => 0
       end) + backend_load h b ts
  end.

(** C10. Slot accounting is exact: in every reachable state, whatever tasks were
    admitted, queued, refused, failed to persist or were dropped mid-way, a
    controller's free permits plus the permits its tasks hold are its
    [max_concurrent], so at most [max_concurrent] are held; its queue counter is the
    number of queued tasks and never exceeds [max_queue_depth]; and once all its
    tasks are done, every permit, queue unit and in-flight unit is back. *)
Theorem slots_never_leak s c ctl :
  reachable s -> sy_heap s !! c = Some ctl ->
  weigh holding c (sy_tasks s) + c_permits ctl = ac_max_concurrent (c_config ctl) /\
  0 <= c_permits ctl /\
  c_waiters ctl = weigh waiting c (sy_tasks s) /\
  c_waiters ctl <= ac_max_queue_depth (c_config ctl) /\
  c_in_flight ctl = weigh counted c (sy_tasks s) /\
  ((∀ i p, sy_tasks s !! i = Some (c, p) -> p = P_Done) ->
   c_permits ctl = ac_max_concurrent (c_config ctl) /\ c_waiters ctl = 0 /\ c_in_flight ctl = 0).
Proof.
  intros Hr Hc. destruct (reachable_Inv _ Hr) as [HI _ _].
  destruct (hi_books _ _ HI _ _ Hc) as [B1 B2 B3 B4 B5 B6]. split_and!; try lia.
  intros Hdone.
  assert (Hz : ∀ f, f P_Done = false -> weigh f c (sy_tasks s) = 0).
  { intros f Hf. destruct (Z.eq_dec (weigh f c (sy_tasks s)) 0) as [|Hne]; [done|].
    destruct (weigh_pos f c (sy_tasks s)) as (i & p & Hi & Hp).
    { pose proof (weigh_nonneg f c (sy_tasks s)). lia. }
    apply Hdone in Hi. congruence. }
  rewrite B2, B3, B4, !Hz by done. lia.
Qed.

Lemma engaged_controller s i c p ctl :
  Inv s -> sy_tasks s !! i = Some (c, p) -> engaged p = true -> sy_heap s !! c = Some ctl ->
  rs_active (sy_registry s) !! c_backend ctl = Some c
  \/ rs_draining (sy_registry s) !! c_backend ctl = Some [c]
  \/ taken (sy_lock s) = Some (c_backend ctl, c).
Proof.
  intros [HI HR _] Hi Hp Hc. destruct (c_closed ctl) eqn:Hcl.
  - destruct (ri_closed _ _ _ _ _ HR _ _ Hc Hcl) as [?|[?|Hz]]; [by auto..|].
    pose proof (weigh_lookup _ _ _ _ _ Hi Hp). lia.
  - left. by apply (ri_open _ _ _ _ _ HR).
Qed.

Lemma engaged_same_controller s i j c d p q ctl dl :
  Inv s ->
  sy_tasks s !! i = Some (c, p) -> sy_tasks s !! j = Some (d, q) ->
  engaged p = true -> engaged q = true ->
  sy_heap s !! c = Some ctl -> sy_heap s !! d = Some dl -> c_backend ctl = c_backend dl ->
  c = d.
Proof.
  intros HI Hi Hj Hp Hq Hc Hd Hb.
  pose proof (engaged_controller _ _ _ _ _ HI Hi Hp Hc) as H1.
  pose proof (engaged_controller _ _ _ _ _ HI Hj Hq Hd) as H2.
  destruct HI as [_ HR _]. rewrite Hb in H1.
  pose proof (ri_taken _ _ _ _ _ HR) as Ht.
  pose proof (ri_active _ _ _ _ _ HR (c_backend dl)) as Ha.
  destruct H1 as [H1|[H1|H1]], H2 as [H2|[H2|H2]]; try congruence;
    try (destruct (Ht _ _ H1) as (?&?&_)); try (destruct (Ht _ _ H2) as (?&?&_));
    try (destruct (Ha _ H1)); try (destruct (Ha _ H2)); congruence.
Qed.

Lemma backend_load_weigh h b c ctl ts :
  h !! c = Some ctl -> c_backend ctl = b ->
  (∀ i d dl q, ts !! i = Some (d, q) -> h !! d = Some dl -> c_backend dl = b ->
     admitted q = true -> d = c) ->
  backend_load h b ts = weigh admitted c ts.
Proof.
  intros Hc Hb Hall. induction ts as [|[d q] ts IH]; cbn; [done|].
  rewrite IH by (intros i d' dl q' Hi; apply (Hall (S i) d' dl q' Hi)). f_equal.
  destruct (h !! d) as [dl|] eqn:Hd; [|case_bool_decide; congruence].
  destruct (str_eqb (c_backend dl) b) eqn:Hs.
  - apply str_eqb_true in Hs. destruct (admitted q) eqn:Hq.
    + rewrite (Hall 0%nat d dl q eq_refl Hd Hs Hq). by rewrite bool_decide_true.
    + by case_bool_decide.
  - case_bool_decide as Hdc; [|done]. subst d. rewrite Hc in Hd. injection Hd as [= <-].
    by rewrite Hb, str_eqb_refl in Hs.
Qed.

(** C3. Replacing a backend's controller never admits two generations at once: in
    every reachable state, however reconciliations, acquisitions and releases
    interleave, all tasks past the closed check of one backend are on the same
    controller, so the calls the backend serves at once stay within the
    [max_concurrent] of that one controller. *)
Theorem one_generation_admits s b :
  reachable s ->
  (∀ i j c d p q ctl dl,
     sy_tasks s !! i = Some (c, p) -> sy_tasks s !! j = Some (d, q) ->
     engaged p = true -> engaged q = true ->
     sy_heap s !! c = Some ctl -> sy_heap s !! d = Some dl ->
     c_backend ctl = b -> c_backend dl = b -> c = d) /\
  (backend_load (sy_heap s) b (sy_tasks s) <> 0 ->
   ∃ c ctl, sy_heap s !! c = Some ctl /\ c_backend ctl = b /\
     backend_load (sy_heap s) b (sy_tasks s) = weigh admitted c (sy_tasks s) /\
     backend_load (sy_heap s) b (sy_tasks s) <= ac_max_concurrent (c_config ctl)).
Proof.
  intros Hr. apply reachable_Inv in Hr as HI. split.
  { intros i j c d p q ctl dl Hi Hj Hp Hq Hc Hd <- Hb. by eapply engaged_same_controller. }
  intros Hne.
  assert (Hex : ∃ i c ctl p, sy_tasks s !! i = Some (c, p) /\ sy_heap s !! c = Some ctl /\
    c_backend ctl = b /\ admitted p = true).
  { clear HI Hr. destruct s as [h r l ts]. cbn in *.
    induction ts as [|[c p] ts IH]; cbn in Hne; [done|].
    destruct (h !! c) as [ctl|] eqn:Hc; [destruct (str_eqb (c_backend ctl) b) eqn:Hs;
      [destruct (admitted p) eqn:Hp|]|].
    1: { apply str_eqb_true in Hs. exists 0%nat, c, ctl, p. auto. }
    all: destruct IH as (i & ?); [done|]; by exists (S i). }
  destruct Hex as (i & c & ctl & p & Hi & Hc & Hb & Hp). exists c, ctl.
  unfold admitted in Hp. bool_prop.
  assert (Hload : backend_load (sy_heap s) b (sy_tasks s) = weigh admitted c (sy_tasks s)).
  { eapply backend_load_weigh; [done|done|]. intros j d dl q Hj Hd Hbd Hq.
    unfold admitted in Hq. bool_prop.
    eapply (engaged_same_controller s j i); [done..|congruence]. }
  split_and!; [done|done|done|]. rewrite Hload.
  destruct HI as [HI _ _]. destruct (hi_books _ _ HI _ _ Hc) as [B1 B2 B3 B4 B5 B6].
  enough (weigh admitted c (sy_tasks s) <= weigh holding c (sy_tasks s)) by lia.
  apply weigh_mono. unfold admitted. intros q Hq. by bool_prop.
Qed.

Lemma has_draining_false h r tk ex ts b :
  RegInv h r tk ex ts ->
  (∀ c ctl, rs_draining r !! b = Some [c] -> h !! c = Some ctl -> c_in_flight ctl = 0) ->
  rs_draining (prune_drained h r) !! b = None.
Proof.
  intros HR Hz. destruct (rs_draining (prune_drained h r) !! b) as [l|] eqn:Hl; [|done].
  apply (prune_draining _ _ _ _ _ _ _ HR) in Hl as (c & ctl & _ & Hl & Hc & Hd).
  apply Z.eqb_neq in Hd. by destruct (Hd (Hz _ _ Hl Hc)).
Qed.

(** C11. A replacement waiting for its predecessor to drain is never forgotten: in
    every reachable state with the registry unlocked, a pending backend without an
    active controller has a task that still owes it a release or a drain signal on a
    closed controller of that backend; and when such a task signals and nothing of
    the backend is in flight, the pending configuration becomes the active
    controller, with all its permits, and is no longer pending. *)
Theorem no_lost_wakeup s b pending :
  reachable s -> sy_lock s = Unlocked ->
  rs_pending (sy_registry s) !! b = Some pending -> rs_active (sy_registry s) !! b = None ->
  (∃ i c p ctl, sy_tasks s !! i = Some (c, p) /\ sy_heap s !! c = Some ctl /\
     c_backend ctl = b /\ c_closed ctl = true /\ counted p || signalling p = true) /\
  (∀ i c held ctl o,
     sy_tasks s !! i = Some (c, P_Signalling held) -> sy_heap s !! c = Some ctl ->
     c_backend ctl = b ->
     (∀ d dl, rs_draining (sy_registry s) !! b = Some [d] -> sy_heap s !! d = Some dl ->
        c_in_flight dl = 0) ->
     is_available (pc_config pending) = true ->
     ∃ s', exec (E_Task i o) s = Some s' /\
       rs_active (sy_registry s') !! b = Some (length (sy_heap s)) /\
       sy_heap s' = sy_heap s ++ [new_controller (pc_generation pending) (pc_config pending)] /\
       rs_pending (sy_registry s') !! b = None).
Proof.
  intros Hr Hl Hp Ha. destruct (reachable_Inv _ Hr) as [HI HR _]. rewrite Hl in HR. cbn in HR. split.
  - destruct (ri_awaited _ _ _ _ _ HR _ _ Hp Ha) as (c & ctl & Hc & Hb & Hcl & Hor); [done|].
    destruct Hor as [[_ Hpos]|(i & p & Hi & Hs)].
    + rewrite (bk_in_flight _ _ _ (hi_books _ _ HI _ _ Hc)) in Hpos.
      apply weigh_pos in Hpos as (i & p & Hi & Hcn). exists i, c, p, ctl. by rewrite Hcn.
    + exists i, c, p, ctl. rewrite Hs, orb_true_r. done.
  - intros i c held ctl o Hi Hc Hb Hz Hav. unfold exec. rewrite Hl, Hi, Hc, Hb.
    unfold install_pending_if_ready, has_draining.
    rewrite bool_decide_false by (cbn; rewrite Ha; by intros [? ?]).
    rewrite (prune_draining_None _ (prune_drained _ _)) by (by eapply has_draining_false).
    cbn [prune_drained rs_pending]. rewrite Hp, Hav. cbn. eexists. split; [done|]. cbn.
    by rewrite lookup_insert_eq, lookup_delete_eq.
Qed.

(** ** What a reconciliation achieves *)

Definition Matching (h : Heap) (configs : Configs) (b : str) (c : nat) : Prop :=
  ∃ config ctl, configs !! b = Some config /\ is_available config = true /\
    h !! c = Some ctl /\ c_config ctl = config.

(** A desired configuration has been dealt with. *)
Definition Handled (r : RegistryState) (b : str) (config : BackendAdmissionConfig) : Prop :=
  if is_available config
  then rs_active r !! b <> None \/ ∃ p, rs_pending r !! b = Some p /\ pc_config p = config
  else rs_pending r !! b = None.

Definition Track (h : Heap) (r : RegistryState) (l : Lock) : Prop :=
  match l with
  | Unlocked => True
  | Reconciling _ configs phase =>
      match phase with
      | Ph_Active ids | Ph_Closing _ _ ids | Ph_Closed _ _ ids =>
          ∀ b c, rs_active r !! b = Some c -> b ∈ ids \/ Matching h configs b c
      | Ph_Desired todo =>
          (∀ b c, rs_active r !! b = Some c -> Matching h configs b c) /\
          Forall (λ bc, configs !! bc.1 = Some bc.2) todo /\
          ∀ b config, configs !! b = Some config -> (b, config) ∈ todo \/ Handled r b config
      | Ph_Pending _ =>
          ∀ b config, configs !! b = Some config ->
            Handled r b config /\ ∀ c, rs_active r !! b = Some c -> Matching h configs b c
      end
  end.

Lemma Matching_heap h h' configs b c :
  (∀ ctl, h !! c = Some ctl -> ∃ ctl', h' !! c = Some ctl' /\ c_config ctl' = c_config ctl) ->
  Matching h configs b c -> Matching h' configs b c.
Proof.
  intros Hh (config & ctl & Hb & Hav & Hc & Hcfg). destruct (Hh _ Hc) as (ctl' & Hc' & Heq).
  exists config, ctl'. split_and!; congruence.
Qed.

Lemma Track_heap h h' r l :
  (∀ c ctl, h !! c = Some ctl -> ∃ ctl', h' !! c = Some ctl' /\ c_config ctl' = c_config ctl) ->
  Track h r l -> Track h' r l.
Proof.
  intros Hh. destruct l as [|generation configs [ids|b c ids|b c ids|todo|ids]]; cbn; [done| | | | |].
  1-3: intros H b' c' Hb; destruct (H _ _ Hb); eauto using Matching_heap.
  - intros (H1 & H2 & H3). split_and!; eauto using Matching_heap.
  - intros H b config Hb. destruct (H _ _ Hb). eauto using Matching_heap.
Qed.

Lemma insert_heap (h : Heap) (c : nat) ctl ctl' :
  h !! c = Some ctl -> c_config ctl' = c_config ctl ->
  ∀ d dl, h !! d = Some dl -> ∃ dl', <[c := ctl']> h !! d = Some dl' /\ c_config dl' = c_config dl.
Proof.
  intros Hc Heq d dl Hd. destruct (decide (d = c)) as [->|Hne].
  - exists ctl'. rewrite list_lookup_insert_eq by (by eapply lookup_lt_Some). split; congruence.
  - exists dl. by rewrite list_lookup_insert_ne.
Qed.

Lemma Matching_app h new configs b c : Matching h configs b c -> Matching (h ++ new) configs b c.
Proof. apply Matching_heap. intros ctl Hc. exists ctl. split; [by apply lookup_app_l_Some|done]. Qed.

Lemma Matching_new h generation configs b config :
  configs !! b = Some config -> is_available config = true ->
  Matching (h ++ [new_controller generation config]) configs b (length h).
Proof.
  intros Hb Hav. exists config, (new_controller generation config). split_and!; try done.
  rewrite lookup_app_r by done. by rewrite Nat.sub_diag.
Qed.

(** The maps the passes leave alone. *)
Lemma install_pending_maps h r b :
  let s := install_pending_if_ready b (h, r) in
  s.1 = h /\ rs_active s.2 = rs_active r /\
    (rs_pending s.2 = rs_pending r
     \/ rs_pending s.2 = delete b (rs_pending r) /\
        ∃ p, rs_pending r !! b = Some p /\ is_available (pc_config p) = false)
  \/ ∃ p, rs_active r !! b = None /\ rs_pending r !! b = Some p /\
      is_available (pc_config p) = true /\
      s.1 = h ++ [new_controller (pc_generation p) (pc_config p)] /\
      rs_active s.2 = <[b := length h]> (rs_active r) /\ rs_pending s.2 = delete b (rs_pending r).
Proof.
  unfold install_pending_if_ready, has_draining. cbn [prune_drained rs_active rs_pending].
  case_bool_decide as Ha; [by left; auto|].
  destruct (match rs_draining _ !! b with Some (_ :: _) => true | _ => false end); [by left; auto|].
  destruct (rs_pending r !! b) as [p|] eqn:Hp; [|by left; auto].
  destruct (is_available (pc_config p)) eqn:Hav; [right|left].
  - exists p. split_and!; try done. by apply eq_None_not_Some.
  - split_and!; try done. right. eauto.
Qed.

Lemma install_pending_Track generation configs ids h r b :
  Track h r (Reconciling generation configs (Ph_Pending (b :: ids))) ->
  let s := install_pending_if_ready b (h, r) in
  Track s.1 s.2 (Reconciling generation configs (Ph_Pending ids)).
Proof.
  intros HT s. pose proof (install_pending_maps h r b) as HM. fold s in HM. clearbody s. cbn in HT |- *.
  intros b' config Hb'. destruct (HT _ _ Hb') as [HH HA]. unfold Handled in *.
  destruct HM as [(-> & Ha & Hp)|(p & Ha0 & Hp0 & Hav & Hh & Ha & Hp)].
  - rewrite Ha. split; [|done].
    destruct Hp as [->|(-> & p & Hp & Hav)]; [done|]. destruct (decide (b' = b)) as [->|Hne].
    + destruct (is_available config) eqn:Hc; [|apply lookup_delete_eq].
      destruct HH as [?|(q & Hq & <-)]; [by left|]. congruence.
    + by rewrite lookup_delete_ne.
  - rewrite Hh, Ha, Hp. destruct (decide (b' = b)) as [->|Hne].
    + rewrite lookup_insert_eq, lookup_delete_eq. split; [by destruct (is_available config); [left|]|].
      intros c [= <-]. rewrite Hp0 in HH. destruct (is_available config) eqn:Hc; [|done].
      destruct HH as [?|(q & [= <-] & <-)]; [done|]. by apply Matching_new.
    + rewrite lookup_insert_ne, lookup_delete_ne by done. split; [done|].
      intros c Hc. by apply Matching_app, HA.
Qed.

Lemma reconcile_desired_Track generation configs todo h r b config :
  Track h r (Reconciling generation configs (Ph_Desired ((b, config) :: todo))) ->
  let s := reconcile_desired generation (b, config) (h, r) in
  Track s.1 s.2 (Reconciling generation configs (Ph_Desired todo)).
Proof.
  intros (HA & HF & HH). apply Forall_cons_iff in HF as [Hb HF]. cbn in Hb.
  unfold reconcile_desired. destruct (is_available config) eqn:Hav; cbn [negb].
  2: { split_and!; [done|done|]. intros b' config' Hb'. destruct (decide (b' = b)) as [->|Hne].
       - right. unfold Handled. cbn. rewrite lookup_delete_eq. replace config' with config by congruence.
         by rewrite Hav.
       - destruct (HH _ _ Hb') as [[[= -> ->]|?]%elem_of_cons|H]; [done|by left|right].
         unfold Handled in *. cbn. by rewrite lookup_delete_ne. }
  assert (Hother : ∀ r' b' config', configs !! b' = Some config' ->
    (b' = b -> Handled r' b config) ->
    (b' <> b -> Handled r b' config' -> Handled r' b' config') ->
    (b', config') ∈ todo \/ Handled r' b' config').
  { intros r' b' config' Hb' H1 H2. destruct (decide (b' = b)) as [->|Hne].
    - right. replace config' with config by congruence. auto.
    - destruct (HH _ _ Hb') as [[[= -> ->]|?]%elem_of_cons|H]; [done|by left|auto]. }
  case_bool_decide as Hact.
  { split_and!; [done|done|]. intros b' config' Hb'. apply Hother; [done| |done]. intros _.
    unfold Handled. rewrite Hav. left. cbn. by destruct Hact as [x ->]. }
  unfold has_draining.
  destruct (match rs_draining _ !! b with Some (_ :: _) => true | _ => false end).
  - split_and!; [done|done|]. intros b' config' Hb'. apply Hother; [done| |].
    + intros _. unfold Handled. rewrite Hav. right. cbn. rewrite lookup_insert_eq. eauto.
    + intros Hne. unfold Handled. cbn. by rewrite lookup_insert_ne.
  - split_and!; [|done|].
    + intros b' c. cbn. intros [[<- <-]|[Hne Hc]]%lookup_insert_Some.
      * by apply Matching_new.
      * by apply Matching_app, HA.
    + intros b' config' Hb'. apply Hother; [done| |].
      * intros _. unfold Handled. rewrite Hav. left. cbn. by rewrite lookup_insert_eq.
      * intros Hne. unfold Handled. cbn. by rewrite lookup_insert_ne.
Qed.

Lemma reconcile_active_Track generation configs ids h r b ts :
  RegInv h r None None ts ->
  Track h r (Reconciling generation configs (Ph_Active (b :: ids))) ->
  let '(h', r', tk) := reconcile_active configs b (h, r) in
  Track h' r' (Reconciling generation configs
    (match tk with Some c => Ph_Closing b c ids | None => Ph_Active ids end)).
Proof.
  cbn [Track]. intros HR HT. unfold reconcile_active.
  destruct (rs_active r !! b) as [c|] eqn:Hb.
  2: { intros b' c' Hb'. destruct (HT _ _ Hb') as [[->|?]%elem_of_cons|?]; [congruence|auto..]. }
  destruct (ri_active _ _ _ _ _ HR _ _ Hb) as (_ & ctl & Hc & _). rewrite Hc.
  assert (Htake : ∀ b' c', delete b (rs_active r) !! b' = Some c' ->
    b' ∈ ids \/ Matching (<[c := close_flag ctl]> h) configs b' c').
  { intros b' c' [Hne Hb']%lookup_delete_Some.
    destruct (HT _ _ Hb') as [[->|?]%elem_of_cons|HM]; [done|by left|right].
    revert HM. apply Matching_heap. by apply (insert_heap h c ctl). }
  destruct (opt_filter is_available (configs !! b)) as [config|] eqn:Hf; [|done].
  destruct (matches ctl config) eqn:Hm; [|done].
  intros b' c' Hb'. destruct (HT _ _ Hb') as [[->|?]%elem_of_cons|?]; [|by auto..].
  right. replace c' with c by congruence. unfold matches in Hm. bool_prop.
  apply bool_decide_eq_true in H. exists config, ctl.
  revert Hf. destruct (configs !! b) as [x|]; cbn; [|done].
  destruct (is_available x) eqn:Hx; [|done]. by intros [= ->].
Qed.

Lemma reconcile_closed_Track generation configs ids h r b c :
  Track h r (Reconciling generation configs (Ph_Closed b c ids)) ->
  let s := reconcile_closed generation configs b c (h, r) in
  Track s.1 s.2 (Reconciling generation configs (Ph_Active ids)).
Proof.
  cbn [Track]. intros HT. unfold reconcile_closed.
  destruct (opt_filter is_available (configs !! b)) as [config|] eqn:Hf.
  2: { by destruct (drained_at h c). }
  destruct (drained_at h c); [|done]. cbn. intros b' c' [[<- <-]|[Hne Hb]]%lookup_insert_Some.
  - right. revert Hf. destruct (configs !! b) as [x|] eqn:Hb; cbn; [|done].
    destruct (is_available x) eqn:Hx; [|done]. intros [= ->]. by apply Matching_new.
  - destruct (HT _ _ Hb) as [?|?]; [by left|right]. by apply Matching_app.
Qed.

Lemma reconcile_next_Track generation configs phase h r tk ex ts :
  RegInv h r tk ex ts ->
  (∀ ids, phase = Ph_Active ids -> tk = None /\ ex = None) ->
  Track h r (Reconciling generation configs phase) ->
  let '(h', r', l') := reconcile_next generation configs phase (h, r) in Track h' r' l'.
Proof.
  intros HR Hnone HT. destruct phase as [[|b ids]|b c ids|b c ids|[|[b config] todo]|[|b ids]].
  - cbn in HT |- *. split_and!.
    + intros b c Hb. destruct (HT _ _ Hb) as [H|?]; [by apply elem_of_nil in H|done].
    + apply Forall_forall. intros [b config] Hin. cbn.
      by apply list_elem_of_In, elem_of_map_to_list in Hin.
    + intros b config Hb. left. by apply elem_of_map_to_list.
  - destruct (Hnone _ eq_refl) as [-> ->].
    pose proof (reconcile_active_Track generation configs ids h r b ts HR HT) as H.
    unfold reconcile_next. by destruct (reconcile_active configs b (h, r)) as [[h' r'] tk].
  - unfold reconcile_next. cbn -[Track]. apply (Track_heap h); [|exact HT]. intros d dl Hd.
    destruct (decide (c = d)) as [->|Hne].
    + rewrite list_lookup_alter_eq, Hd. by eexists.
    + rewrite list_lookup_alter_ne by done. eauto.
  - pose proof (reconcile_closed_Track generation configs ids h r b c HT) as H.
    unfold reconcile_next. by destruct (reconcile_closed generation configs b c (h, r)).
  - destruct HT as (HA & _ & HH). cbn -[Track]. intros b config Hb. split; [|by intros; apply HA].
    by destruct (HH _ _ Hb) as [H%elem_of_nil|?].
  - pose proof (reconcile_desired_Track generation configs todo h r b config HT) as H.
    unfold reconcile_next. by destruct (reconcile_desired generation (b, config) (h, r)).
  - done.
  - pose proof (install_pending_Track generation configs ids h r b HT) as H.
    unfold reconcile_next. by destruct (install_pending_if_ready b (h, r)).
Qed.

Definition Tracked (s : System) : Prop := Track (sy_heap s) (sy_registry s) (sy_lock s).

Lemma exec_Track e s s' : Inv s -> Tracked s -> exec e s = Some s' -> Tracked s'.
Proof.
  destruct s as [h r l ts]. intros [_ HR _] HT. unfold Tracked in *. cbn in HR, HT.
  unfold exec. destruct e as [generation backends vetoed| |b|i o]; cbn [sy_heap sy_registry sy_tasks sy_lock].
  - destruct l; [|done].
    destruct (backend_admission_configs_from_backends backends vetoed) as [configs|]; [|done].
    intros [= <-]. cbn. intros b c Hb. left. apply list_elem_of_fmap. exists (b, c).
    split; [done|]. by apply elem_of_map_to_list.
  - destruct l as [|generation configs phase]; [done|].
    pose proof (reconcile_next_Track generation configs phase h r _ _ ts HR) as H.
    destruct (reconcile_next generation configs phase (h, r)) as [[h' r'] l'].
    intros [= <-]. apply H; [|done]. by intros ids ->.
  - destruct l; [|done]. by destruct (rs_active r !! b); intros [= <-].
  - destruct (ts !! i) as [[c p]|]; [|by destruct l].
    destruct (h !! c) as [ctl|] eqn:Hc; [|by destruct l].
    assert (Hmove : match task_move ctl p o with
                    | None => None
                    | Some (p', (dp, dw, df)) =>
                        Some {| sy_heap := <[c := add_counts dp dw df ctl]> h; sy_registry := r;
                                sy_lock := l; sy_tasks := <[i := (c, p')]> ts |}
                    end = Some s' -> Track (sy_heap s') (sy_registry s') (sy_lock s')).
    { destruct (task_move ctl p o) as [[p' [[dp dw] df]]|]; [|done]. intros [= <-].
      revert HT. apply Track_heap. by apply (insert_heap h c ctl). }
    destruct p; try (destruct l; exact Hmove). destruct l; [clear Hmove|exact Hmove].
    by destruct (install_pending_if_ready (c_backend ctl) (h, r)); intros [= <-].
Qed.

Lemma reachable_Track s : reachable s -> Tracked s.
Proof.
  intros [es Hr]. revert Hr. generalize initial_Inv. assert (HT : Tracked initial) by done.
  revert HT. generalize initial. induction es as [|e es IH]; cbn; intros s0 HT HI.
  { by intros [= <-]. }
  destruct (exec e s0) as [s1|] eqn:He; [|done].
  apply IH; [by apply (exec_Track e s0)|by apply (exec_Inv e s0)].
Qed.

(** Undisturbed, the operations of a reconciliation come to an end. *)
Lemma lock_step generation configs phase h r ts s' :
  reconcile_next generation configs phase (h, r) = s' ->
  exec E_Lock {| sy_heap := h; sy_registry := r;
                 sy_lock := Reconciling generation configs phase; sy_tasks := ts |}
  = Some {| sy_heap := s'.1.1; sy_registry := s'.1.2; sy_lock := s'.2; sy_tasks := ts |}.
Proof. intros <-. unfold exec. cbn [sy_lock sy_heap sy_registry sy_tasks].
  by destruct (reconcile_next generation configs phase (h, r)) as [[h' r'] l']. Qed.

Definition Ends (s : System) : Prop :=
  ∃ n s', run (repeat E_Lock n) s = Some s' /\ sy_lock s' = Unlocked.

Lemma Ends_step s s' : exec E_Lock s = Some s' -> Ends s' -> Ends s.
Proof. intros He (n & s2 & Hr & Hl). exists (S n), s2. split; [|done]. cbn [repeat run]. by rewrite He. Qed.

Lemma reconciliation_ends generation configs phase h r ts :
  Ends {| sy_heap := h; sy_registry := r; sy_lock := Reconciling generation configs phase;
          sy_tasks := ts |}.
Proof.
  set (S l h r := {| sy_heap := h; sy_registry := r;
                     sy_lock := Reconciling generation configs l; sy_tasks := ts |}).
  assert (HP : ∀ ids h r, Ends (S (Ph_Pending ids) h r)).
  { induction ids as [|b ids IH]; intros h0 r0; (eapply Ends_step; [by apply lock_step|]); [|apply IH].
    exists 0%nat. eexists. by split. }
  assert (HD : ∀ todo h r, Ends (S (Ph_Desired todo) h r)).
  { induction todo as [|bc todo IH]; intros h0 r0; (eapply Ends_step; [by apply lock_step|]);
      [apply HP|apply IH]. }
  assert (HC : ∀ b c ids, (∀ h r, Ends (S (Ph_Active ids) h r)) ->
    ∀ h r, Ends (S (Ph_Closed b c ids) h r) /\ Ends (S (Ph_Closing b c ids) h r)).
  { intros b c ids IH. assert (H1 : ∀ h r, Ends (S (Ph_Closed b c ids) h r)).
    - intros h0 r0. eapply Ends_step; [by apply lock_step|]. apply IH.
    - intros h0 r0. split; [apply H1|]. eapply Ends_step; [by apply lock_step|]. apply H1. }
  assert (HA : ∀ ids h r, Ends (S (Ph_Active ids) h r)).
  { induction ids as [|b ids IH]; intros h0 r0; (eapply Ends_step; [by apply lock_step|]); [apply HD|].
    unfold reconcile_next. destruct (reconcile_active configs b (h0, r0)) as [[h1 r1] [c|]]; [|apply IH].
    by apply HC. }
  change (Ends (S phase h r)). destruct phase; auto; by apply HC.
Qed.

(** Reconciliation does what it is asked, in the middle of any traffic: it always
    comes to an end, and when it is about to release the registry, every available
    desired configuration either has an open active controller built from exactly
    that configuration, or is the pending one and waits for a closed predecessor that
    still has work in flight or a drain signal under way; every unavailable one has
    neither an active controller nor a pending one. *)
Theorem reconcile_serves_configs s generation configs phase :
  reachable s -> sy_lock s = Reconciling generation configs phase ->
  Ends s /\
  (phase = Ph_Pending [] ->
   ∀ b config, configs !! b = Some config ->
   if is_available config
   then (∃ c ctl, rs_active (sy_registry s) !! b = Some c /\ sy_heap s !! c = Some ctl /\
           c_config ctl = config /\ c_closed ctl = false)
        \/ (∃ p, rs_active (sy_registry s) !! b = None /\
              rs_pending (sy_registry s) !! b = Some p /\ pc_config p = config /\
              Awaited (sy_heap s) (sy_registry s) (sy_tasks s) b)
   else rs_active (sy_registry s) !! b = None /\ rs_pending (sy_registry s) !! b = None).
Proof.
  intros Hr Hl. apply reachable_Track in Hr as HT. apply reachable_Inv in Hr as [_ HR _].
  unfold Tracked in HT. destruct s as [h r l ts]. cbn in *. subst l.
  split; [apply reconciliation_ends|]. intros ->. cbn in HT, HR. intros b config Hb.
  destruct (HT _ _ Hb) as [HH HA]. unfold Handled in HH.
  destruct (rs_active r !! b) as [c|] eqn:Ha.
  - destruct (HA _ eq_refl) as (config' & ctl & Hb' & Hav & Hc & Hcfg).
    rewrite Hb in Hb'. injection Hb' as [= <-]. rewrite Hav. left.
    destruct (ri_active _ _ _ _ _ HR _ _ Ha) as (_ & ctl' & Hc' & _ & Hop).
    exists c, ctl. split_and!; congruence.
  - destruct (is_available config); [right|done].
    destruct HH as [?|(p & Hp & Hcfg)]; [done|]. exists p. split_and!; try done.
    by apply (ri_awaited _ _ _ _ _ HR _ _ Hp Ha).
Qed.

(** ** Witnesses and findings *)

Definition demo_backend (max_concurrent max_queue_depth : Z) : InferenceBackend :=
  {| ib_backend_id := lit "b"; ib_max_concurrent := max_concurrent;
     ib_max_queue_depth := max_queue_depth; ib_enabled := true;
     ib_probe_status := HEALTHY_PROBE_STATUS; ib_debug := lit "InferenceBackend" |}.

(** One call admitted and one queued by the first controller; a reconciliation then
    asks for two slots. *)
Definition demo_first : list Event :=
  E_Reconcile 1 [demo_backend 1 1] [] :: repeat E_Lock 4
  ++ E_Acquire (lit "b") :: repeat (E_Task 0 Succeeds) 4
  ++ E_Acquire (lit "b") :: repeat (E_Task 1 Succeeds) 5.
Definition demo_replaced : list Event :=
  demo_first ++ E_Reconcile 2 [demo_backend 2 1] [] :: repeat E_Lock 8.
(** The queued task is turned away, and the admitted one finishes. *)
Definition demo_drained : list Event :=
  demo_replaced ++ E_Task 1 Fails :: repeat (E_Task 1 Succeeds) 2
  ++ repeat (E_Task 0 Succeeds) 3.

Definition state_after (es : list Event) : System := default initial (run es initial).

Lemma state_after_reachable es s : run es initial = Some s -> reachable (state_after es).
Proof. intros H. exists es. unfold state_after. by rewrite H. Qed.

Lemma demo_reachable es : (if run es initial is Some _ then True else False) -> reachable (state_after es).
Proof. destruct (run es initial) eqn:H; [|done]. intros _. by apply (state_after_reachable _ _ H). Qed.

Lemma slots_never_leak_witness :
  ∃ ctl, sy_heap (state_after demo_replaced) !! 0%nat = Some ctl /\
    weigh holding 0 (sy_tasks (state_after demo_replaced)) + c_permits ctl = 1 /\ c_waiters ctl = 1.
Proof.
  eexists. split; [vm_compute; reflexivity|].
  destruct (slots_never_leak (state_after demo_replaced) 0%nat _
    (demo_reachable demo_replaced ltac:(vm_compute; exact I)) ltac:(vm_compute; reflexivity))
    as (H & _). split; [exact H|reflexivity].
Defined.

Lemma one_generation_admits_witness :
  reachable (state_after demo_replaced) /\
  backend_load (sy_heap (state_after demo_replaced)) (lit "b") (sy_tasks (state_after demo_replaced)) = 1 /\
  ∃ c ctl, sy_heap (state_after demo_replaced) !! c = Some ctl /\ c_backend ctl = lit "b".
Proof.
  assert (Hr : reachable (state_after demo_replaced)) by (apply demo_reachable; vm_compute; exact I).
  split; [exact Hr|split; [vm_compute; reflexivity|]].
  destruct (proj2 (one_generation_admits (state_after demo_replaced) (lit "b") Hr))
    as (c & ctl & Hc & Hb & _); [vm_compute; discriminate|]. exists c, ctl. split; assumption.
Defined.

Lemma no_lost_wakeup_witness :
  ∃ s', exec (E_Task 0 Succeeds) (state_after demo_drained) = Some s' /\
    rs_active (sy_registry s') !! lit "b" = Some 1%nat.
Proof.
  assert (Hr : reachable (state_after demo_drained)) by (apply demo_reachable; vm_compute; exact I).
  remember (state_after demo_drained) as s eqn:Hs. vm_compute in Hs.
  edestruct (no_lost_wakeup s (lit "b")) as [_ H];
    [exact Hr|rewrite Hs; reflexivity|rewrite Hs; vm_compute; reflexivity
    |rewrite Hs; vm_compute; reflexivity|].
  edestruct (H 0%nat 0%nat false) as (s' & He & Ha & _);
    [rewrite Hs; reflexivity|rewrite Hs; reflexivity|reflexivity| |reflexivity|].
  - rewrite Hs. cbn. intros d dl Hd. vm_compute in Hd. injection Hd as [= <-].
    intros [= <-]. reflexivity.
  - exists s'. split; [exact He|]. rewrite Ha, Hs. reflexivity.
Defined.

Definition demo_reconciled : System :=
  state_after (demo_first ++ E_Reconcile 2 [demo_backend 2 1] [] :: repeat E_Lock 7).

Lemma reconcile_serves_configs_witness :
  Ends demo_reconciled /\
  (∃ c ctl, rs_active (sy_registry demo_reconciled) !! lit "b" = Some c /\
     sy_heap demo_reconciled !! c = Some ctl)
  \/ (∃ p, rs_pending (sy_registry demo_reconciled) !! lit "b" = Some p /\
        Awaited (sy_heap demo_reconciled) (sy_registry demo_reconciled)
          (sy_tasks demo_reconciled) (lit "b")).
Proof.
  assert (Hr : reachable demo_reconciled) by (apply demo_reachable; vm_compute; exact I).
  destruct (backend_admission_configs_from_backends [demo_backend 2 1] []) as [configs|e] eqn:Hc;
    [|vm_compute in Hc; discriminate].
  edestruct (reconcile_serves_configs demo_reconciled 2 configs (Ph_Pending []) Hr) as [He H].
  { vm_compute in Hc. injection Hc as <-. vm_compute. reflexivity. }
  specialize (H eq_refl (lit "b")). vm_compute in Hc. injection Hc as <-.
  specialize (H _ ltac:(vm_compute; reflexivity)).
  destruct H as [(c & ctl & Ha & Hh & _)|(p & _ & Hp & _ & Haw)].
  - left. split; [exact He|]. exists c, ctl. split; assumption.
  - right. exists p. split; assumption.
Defined.

(** A backend removed while its controller drains comes back: the reconciliation that
    no longer lists it leaves its pending entry in place, and the last release then
    installs it as active. *)
Theorem removed_backend_is_reinstalled :
  let removed := demo_replaced ++ E_Reconcile 3 [] [] :: repeat E_Lock 4 in
  ∃ s1 s2,
    run removed initial = Some s1 /\ sy_lock s1 = Unlocked /\
    rs_active (sy_registry s1) !! lit "b" = None /\
    run (E_Task 1 Fails :: repeat (E_Task 1 Succeeds) 2 ++ repeat (E_Task 0 Succeeds) 4) s1 = Some s2 /\
    rs_active (sy_registry s2) !! lit "b" = Some 1%nat.
Proof.
  intros removed. exists (state_after removed).
  exists (default initial (run (E_Task 1 Fails :: repeat (E_Task 1 Succeeds) 2
                                ++ repeat (E_Task 0 Succeeds) 4) (state_after removed))).
  repeat apply conj; vm_compute; reflexivity.
Qed.

(** A call dropped while [persist_call_started] is awaited releases its in-flight unit
    before its permit, so a closed controller is found drained, and its replacement
    installed, while a permit of it is still out. *)
Theorem drained_with_permit_outstanding :
  let es := E_Reconcile 1 [demo_backend 1 1] [] :: repeat E_Lock 4
            ++ E_Acquire (lit "b") :: repeat (E_Task 0 Succeeds) 3
            ++ E_Reconcile 2 [demo_backend 2 1] [] :: repeat E_Lock 8
            ++ E_Task 0 Dropped :: repeat (E_Task 0 Succeeds) 3 in
  ∃ s old, run es initial = Some s /\ sy_heap s !! 0%nat = Some old /\
    c_closed old = true /\ is_drained old = true /\ c_permits old = 0 /\
    rs_active (sy_registry s) !! lit "b" = Some 1%nat.
Proof.
  intros es. exists (state_after es). eexists. repeat apply conj; vm_compute; reflexivity.
Qed.
