(* ===== verification/GraphqlText.v ===== *)
(** * Values spliced into GraphQL documents

    [gents-protocol/src/graphql.rs]: the runtime writes its queries as text, so every
    value that is not its own goes through one of three gates: an identifier check, the
    string escape, or the check of a whole filter object.  The reference readers below
    are the string-literal and punctuation rules of the GraphQL specification, against
    which the gates are stated. *)

From S2P Require Import Prelude RustStr.

Definition DQ : char := 34.
Definition BS : char := 92.
Definition TAB : char := 9.
Definition LBRACE : char := 123.
Definition RBRACE : char := 125.
Definition LBRACKET : char := 91.
Definition RBRACKET : char := 93.
Definition COLON : char := 58.
Definition COMMA : char := 44.
Definition MINUS : char := 45.
Definition PLUS : char := 43.
Definition DOT : char := 46.
Definition SLASH : char := 47.
Definition L_b : char := 98.
Definition L_f : char := 102.
Definition L_n : char := 110.
Definition L_r : char := 114.
Definition L_t : char := 116.
Definition UNDERSCORE : char := 95.
Ltac unfold_chars :=
  unfold DQ, BS, TAB, LBRACE, RBRACE, LBRACKET, RBRACKET, COLON, COMMA, MINUS, PLUS, DOT, SLASH,
    L_b, L_f, L_n, L_r, L_t, UNDERSCORE in *.

(** ** Identifiers *)

Definition is_ascii_alphabetic (c : char) : bool :=
  ((65 <=? c) && (c <=? 90)) || ((97 <=? c) && (c <=? 122)).
Definition is_ascii_alphanumeric (c : char) : bool := is_ascii_alphabetic c || is_digit c.

(** The rejections of the three gates; the source formats them with [anyhow!]. *)
Inductive TextError : Type :=
| InvalidStart (name : str) (c : char)
| EmptyName
| InvalidNameChar (name : str) (c : char)
| ReservedPrefix (name : str)
| FilterEmpty
| FilterNotObject
| FilterTrailing
| FilterUnbalanced (c : char) (index : Z)
| FilterMismatched (opener c : char) (index : Z)
| FilterChar (c : char) (index : Z)
| FilterUnterminated
| FilterUnclosed (opener : option char).

Definition validate_graphql_name (name : str) : result TextError unit :=
  match name with
  | [] => Err EmptyName
  | c :: _ =>
      if is_ascii_alphabetic c || (c =? UNDERSCORE) then
        match List.find (λ c, negb (is_ascii_alphanumeric c) && negb (c =? UNDERSCORE)) name with
        | Some c => Err (InvalidNameChar name c)
        | None => Ok tt
        end
      else Err (InvalidStart name c)
  end.

Definition validate_collection_identifier (name : str) : result TextError unit :=
  let? _ := validate_graphql_name name in
  if starts_with (lit "__") name then Err (ReservedPrefix name) else Ok tt.

(** ** The string escape *)

Definition escape_char (c : char) : str :=
  if c =? BS then [BS; BS]
  else if c =? DQ then [BS; DQ]
  else if c =? NL then [BS; L_n]
  else if c =? CR then [BS; L_r]
  else if c =? TAB then [BS; L_t]
  else [c].
Definition escape_graphql_string (value : str) : str := value ≫= escape_char.

(** ** The filter gate *)

Record ScanState : Type := {
  sc_stack : list char;
  sc_in_string : bool;
  sc_escaped : bool;
  sc_closed_at : option Z
}.

Definition filter_char (c : char) (index : Z) (st : ScanState) : result TextError ScanState :=
  let outside := Build_ScanState (sc_stack st) false (sc_escaped st) (sc_closed_at st) in
  if sc_in_string st then
    Ok (if sc_escaped st then Build_ScanState (sc_stack st) true false (sc_closed_at st)
        else if c =? BS then Build_ScanState (sc_stack st) true true (sc_closed_at st)
        else if c =? DQ then outside
        else st)
  else if bool_decide (is_Some (sc_closed_at st)) && negb (is_whitespace c) then Err FilterTrailing
  else if c =? DQ then
    Ok (Build_ScanState (sc_stack st) true (sc_escaped st) (sc_closed_at st))
  else if (c =? LBRACE) || (c =? LBRACKET) then
    Ok (Build_ScanState (c :: sc_stack st) false (sc_escaped st) (sc_closed_at st))
  else if (c =? RBRACE) || (c =? RBRACKET) then
    match sc_stack st with
    | [] => Err (FilterUnbalanced c index)
    | opener :: stack =>
        if opener =? (if c =? RBRACE then LBRACE else LBRACKET) then
          Ok (Build_ScanState stack false (sc_escaped st)
                (match stack with [] => Some index | _ => sc_closed_at st end))
        else Err (FilterMismatched opener c index)
    end
  else if (c =? COLON) || (c =? COMMA) then Ok st
  else if is_ascii_alphanumeric c || (c =? UNDERSCORE) then Ok st
  else if (c =? MINUS) || (c =? PLUS) || (c =? DOT) then Ok st
  else if is_whitespace c then Ok st
  else Err (FilterChar c index).

Fixpoint scan_filter (index : Z) (s : str) (st : ScanState) : result TextError ScanState :=
  match s with
  | [] => Ok st
  | c :: s =>
      let? st' := filter_char c index st in
      scan_filter (index + utf8_width c) s st'
  end.

Definition validate_graphql_filter_fragment (filter : str) : result TextError unit :=
  let trimmed := trim filter in
  if str_eqb trimmed [] then Err FilterEmpty
  else if negb (starts_with (lit "{") trimmed) then Err FilterNotObject
  else
    let? st := scan_filter 0 trimmed (Build_ScanState [] false false None) in
    if sc_in_string st then Err FilterUnterminated
    else match sc_stack st with
         | [] => Ok tt
         | stack => Err (FilterUnclosed (head stack))
         end.

(** ** Reference readers *)

(** The characters of a quoted string after its opening quote (GraphQL [StringValue],
    without the unicode escape): its value and the text after the closing quote. *)
Definition escape_value (c : char) : option char :=
  if c =? DQ then Some DQ
  else if c =? BS then Some BS
  else if c =? SLASH then Some (SLASH)
  else if c =? L_b then Some 8
  else if c =? L_f then Some 12
  else if c =? L_n then Some NL
  else if c =? L_r then Some CR
  else if c =? L_t then Some TAB
  else None.

Fixpoint read_string (s : str) : option (str * str) :=
  match s with
  | [] => None
  | c :: s =>
      if c =? DQ then Some ([], s)
      else if (c =? NL) || (c =? CR) then None
      else if c =? BS then
        match s with
        | [] => None
        | e :: s => match escape_value e, read_string s with
                    | Some v, Some (vs, rest) => Some (v :: vs, rest)
                    | _, _ => None
                    end
        end
      else match read_string s with
           | Some (vs, rest) => Some (c :: vs, rest)
           | None => None
           end
  end.

(** What the filter gate takes for the inside of a string. *)
Inductive StringBody : str → Prop :=
| sb_nil : StringBody []
| sb_char c q : c <> DQ -> c <> BS -> StringBody q -> StringBody (c :: q)
| sb_escape c q : StringBody q -> StringBody (BS :: c :: q).

Definition plain (c : char) : bool :=
  is_ascii_alphanumeric c || is_whitespace c
  || existsb (Z.eqb c) [COLON; COMMA; UNDERSCORE; MINUS; PLUS; DOT].

Definition closer (o : char) : char := if o =? LBRACE then RBRACE else RBRACKET.

(** Text in which every bracket is closed by its own and every string is closed. *)
Inductive Balanced : str → Prop :=
| bal_nil : Balanced []
| bal_plain c s : plain c = true -> Balanced s -> Balanced (c :: s)
| bal_string q s : StringBody q -> Balanced s -> Balanced (DQ :: q ++ DQ :: s)
| bal_nest o i s : o = LBRACE \/ o = LBRACKET ->
    Balanced i -> Balanced s -> Balanced (o :: i ++ closer o :: s).

(** ** Lemmas *)

Lemma escape_StringBody v : StringBody (escape_graphql_string v).
Proof.
  induction v as [|c v IH]; [constructor|]. cbn. unfold escape_char.
  split_ifs; cbn; repeat first [apply sb_escape | apply sb_char]; try done; lia.
Qed.

(** Escaping is exact and cannot be broken out of: whatever text a value holds, the
    GraphQL string literal written with it reads back as exactly that value and the
    reader resumes right after the closing quote the runtime wrote. *)
Theorem escaped_string_reads_back v rest :
  read_string (escape_graphql_string v ++ DQ :: rest) = Some (v, rest).
Proof.
  induction v as [|c v IH]; [done|]. change (escape_graphql_string (c :: v))
    with (escape_char c ++ escape_graphql_string v). rewrite <- app_assoc.
  unfold escape_char. split_ifs; cbn [app read_string].
  all: repeat match goal with H : (_ =? _) = true |- _ => apply Z.eqb_eq in H; subst c end.
  all: rewrite ?IH; try reflexivity.
  rewrite Hif0, Hif1, Hif2, Hif. reflexivity.
Qed.

Definition scanning (stack : list char) (closed : option Z) : ScanState :=
  Build_ScanState stack false false closed.
Definition quoting (stack : list char) (closed : option Z) : ScanState :=
  Build_ScanState stack true false closed.

Lemma scan_app index a b st :
  scan_filter index (a ++ b) st
    = (let? st' := scan_filter index a st in scan_filter (index + str_len a) b st').
Proof.
  revert index st. induction a as [|c a IH]; intros index st; cbn.
  { by rewrite Z.add_0_r. }
  destruct (filter_char c index st); [|done]. rewrite IH.
  destruct (scan_filter (index + utf8_width c) a a0); [|done]. f_equal; lia.
Qed.

Lemma scan_string index q stack closed :
  StringBody q -> scan_filter index q (quoting stack closed) = Ok (quoting stack closed).
Proof.
  intros H. revert index. induction H as [|c q Hq Hb _ IH|c q _ IH]; intros index; [done|..].
  - cbn [scan_filter]. unfold filter_char. cbn [sc_in_string sc_escaped quoting].
    rewrite (proj2 (Z.eqb_neq _ _) Hq), (proj2 (Z.eqb_neq _ _) Hb). apply IH.
  - cbn [scan_filter]. unfold filter_char at 1. cbn. apply IH.
Qed.

Lemma plain_step c index stack :
  plain c = true -> filter_char c index (scanning stack None) = Ok (scanning stack None).
Proof.
  unfold plain, filter_char, scanning. cbn. intros H.
  repeat match goal with |- context [if ?b then _ else _] => destruct b eqn:? end; try done;
    exfalso; unfold is_ascii_alphanumeric, is_ascii_alphabetic, is_whitespace, is_digit in *;
    unfold_chars; lia.
Qed.

Lemma open_step o index stack :
  o = LBRACE \/ o = LBRACKET ->
  filter_char o index (scanning stack None) = Ok (scanning (o :: stack) None).
Proof. by intros [-> | ->]. Qed.

Lemma close_step o index stack :
  o = LBRACE \/ o = LBRACKET ->
  filter_char (closer o) index (scanning (o :: stack) None)
    = Ok (scanning stack (match stack with [] => Some index | _ => None end)).
Proof. by intros [-> | ->]. Qed.

(** Balanced text leaves the bracket stack as it was. *)
Lemma scan_balanced s o stack index :
  Balanced s -> scan_filter index s (scanning (o :: stack) None) = Ok (scanning (o :: stack) None).
Proof.
  intros H. revert index o stack.
  induction H as [|c s Hc _ IH|q s Hq _ IH|o' i s Ho _ IHi _ IHs]; intros index o stack; [done|..].
  - cbn [scan_filter]. rewrite plain_step by done. apply IH.
  - cbn [scan_filter]. change (filter_char DQ index (scanning (o :: stack) None))
      with (@Ok TextError _ (quoting (o :: stack) None)). cbv iota.
    rewrite scan_app, scan_string by done. cbn [scan_filter].
    change (filter_char DQ ?i (quoting (o :: stack) None))
      with (@Ok TextError _ (scanning (o :: stack) None)). apply IH.
  - cbn [scan_filter]. rewrite open_step by done. rewrite scan_app, IHi. cbn [scan_filter].
    rewrite close_step by done. apply IHs.
Qed.

Lemma filter_char_inv c index o stack st :
  filter_char c index (scanning (o :: stack) None) = Ok st ->
  c = DQ /\ st = quoting (o :: stack) None
  \/ (c = LBRACE \/ c = LBRACKET) /\ st = scanning (c :: o :: stack) None
  \/ c = closer o /\ (o = LBRACE \/ o = LBRACKET) /\
     st = scanning stack (match stack with [] => Some index | _ => None end)
  \/ plain c = true /\ st = scanning (o :: stack) None.
Proof.
  unfold filter_char, scanning, quoting, plain, closer. cbn [existsb]. intros H.
  cbn -[is_ascii_alphanumeric is_whitespace] in H.
  destruct (c =? RBRACE) eqn:Hr;
    repeat match type of H with context [if ?b then _ else _] => destruct b eqn:? end;
    simplify_eq; bool_prop; unfold_chars.
  all: try (left; split; [lia|done]).
  all: try (right; left; split; [lia|done]).
  all: try (do 3 right; split; [rewrite !orb_true_iff; intuition lia|done]).
  all: try (exfalso; lia).
  all: right; right; left.
  all: first [assert (o = 123) as -> by lia | assert (o = 91) as -> by lia].
  all: cbn; split; [lia|auto].
Qed.

Lemma scan_string_inv n index (s : str) stack closed st :
  (length s <= n)%nat ->
  scan_filter index s (quoting stack closed) = Ok st -> sc_in_string st = false ->
  ∃ (q s' : str) index', s = q ++ DQ :: s' /\ StringBody q /\
    scan_filter index' s' (scanning stack closed) = Ok st.
Proof.
  revert index s. induction n as [|n IH]; intros index [|c s] Hn H Hs; cbn in Hn; try lia;
    try (injection H as [= <-]; done).
  cbn [scan_filter] in H. unfold filter_char at 1 in H. cbn [sc_in_string sc_escaped quoting] in H.
  destruct (c =? BS) eqn:Hb.
  { apply Z.eqb_eq in Hb as ->. destruct s as [|e s]; [injection H as [= <-]; done|].
    cbn [scan_filter] in H. unfold filter_char at 1 in H. cbn [sc_in_string sc_escaped] in H.
    cbn in Hn. destruct (IH _ s ltac:(lia) H Hs) as (q & s' & i' & -> & Hq & Hr).
    exists (BS :: e :: q), s', i'. split_and!; [done|by constructor|done]. }
  destruct (c =? DQ) eqn:Hd.
  { apply Z.eqb_eq in Hd as ->. exists [], s, (index + utf8_width DQ).
    split_and!; [done|constructor|done]. }
  destruct (IH _ s ltac:(lia) H Hs) as (q & s' & i' & -> & Hq & Hr).
  exists (c :: q), s', i'. apply Z.eqb_neq in Hb, Hd. split_and!; [done|by constructor|done].
Qed.

(** Accepted text splits at the bracket that closes the innermost open one. *)
Lemma scan_inv n index (s : str) o stack st :
  (length s <= n)%nat ->
  scan_filter index s (scanning (o :: stack) None) = Ok st ->
  sc_in_string st = false -> sc_stack st = [] ->
  ∃ (i s' : str) index' closed, s = i ++ closer o :: s' /\ Balanced i /\ (o = LBRACE \/ o = LBRACKET) /\
    (length s' < length s)%nat /\
    (closed = None <-> stack <> []) /\
    scan_filter index' s' (scanning stack closed) = Ok st.
Proof.
  revert index s o stack. induction n as [|n IH]; intros index [|c s] o stack Hn H Hs Hst;
    cbn in Hn; try lia; try (injection H as [= <-]; done).
  unfold str, char in *.
  cbn [scan_filter] in H. destruct (filter_char c index _) as [st1|] eqn:Hc; [|done].
  apply filter_char_inv in Hc as [(-> & ->)|[(Ho & ->)|[(-> & Ho & ->)|(Hp & ->)]]].
  - destruct (scan_string_inv (length s) _ _ _ _ _ (Nat.le_refl _) H Hs) as (q & s1 & i1 & -> & Hq & H1).
    rewrite length_app in Hn. cbn in Hn.
    apply IH in H1 as (i & s' & i' & cl & -> & Hi & Ho & Hl & Hcl & H2); [|lia|done|done].
    exists (DQ :: q ++ DQ :: i), s', i', cl. split_and!; [|by constructor|done| |done|done].
    + cbn. by rewrite <- app_assoc.
    + clear. unfold str, char in *. cbn. rewrite !length_app. cbn. rewrite length_app. cbn. lia.
  - apply IH in H as (i1 & s1 & ix1 & cl1 & -> & Hi1 & _ & Hl1 & Hcl1 & H1); [|lia|done|done].
    assert (cl1 = None) as -> by (by apply Hcl1).
    apply IH in H1 as (i & s' & i' & cl & -> & Hi & Ho2 & Hl & Hcl & H2); [|lia|done|done].
    exists (c :: i1 ++ closer c :: i), s', i', cl. split_and!; [|by constructor|done| |done|done].
    + cbn. by rewrite <- app_assoc.
    + cbn. lia.
  - eexists [], s, _, _. split_and!; [done|constructor|done|cbn; lia| |exact H].
    by destruct stack.
  - apply IH in H as (i & s' & i' & cl & -> & Hi & Ho & Hl & Hcl & H2); [|lia|done|done].
    exists (c :: i), s', i', cl. split_and!; [done|by constructor|done|cbn; lia|done|done].
Qed.

Lemma scan_closed index s k st :
  scan_filter index s (scanning [] (Some k)) = Ok st -> Forall (λ c, is_whitespace c = true) s.
Proof.
  revert index st. induction s as [|c s IH]; intros index st H; [constructor|].
  cbn [scan_filter] in H.
  destruct (is_whitespace c) eqn:Hw.
  - constructor; [done|].
    assert (Hc : filter_char c index (scanning [] (Some k)) = Ok (scanning [] (Some k))).
    { unfold filter_char, scanning. cbn. rewrite Hw.
      repeat match goal with |- context [if ?b then _ else _] => destruct b eqn:? end; try done;
        exfalso; unfold is_whitespace in *; unfold_chars; lia. }
    rewrite Hc in H. by eapply IH.
  - unfold filter_char in H. cbn in H. by rewrite Hw in H.
Qed.

Lemma drop_leading_head p s c s' : drop_leading p s = c :: s' -> p c = false.
Proof.
  induction s as [|d s IH]; cbn; [done|]. destruct (p d) eqn:Hd; [done|]. by intros [= <- <-].
Qed.

(** Trimmed text does not end in white space. *)
Lemma trim_last f a c : trim f = a ++ [c] -> is_whitespace c = false.
Proof.
  unfold trim, trim_end. intros H. apply (f_equal (@rev Z)) in H. rewrite rev_involutive, rev_app_distr in H.
  cbn in H. by apply drop_leading_head in H.
Qed.

Lemma scan_object body :
  Balanced body ->
  scan_filter 0 (LBRACE :: body ++ [RBRACE]) (scanning [] None)
    = Ok (scanning [] (Some (1 + str_len body))).
Proof.
  intros Hb. cbn [scan_filter]. rewrite open_step by auto. rewrite scan_app, scan_balanced by done.
  cbn [scan_filter]. change RBRACE with (closer LBRACE). by rewrite close_step by auto.
Qed.

(** The filter gate accepts exactly one balanced object: a fragment passes if and
    only if its trimmed text is an object literal whose brackets are all closed by
    their own kind, whose (single-line) strings are all closed, and whose other
    characters are those of names, numbers, separators and white space; nothing
    follows the object. *)
Theorem filter_is_one_balanced_object f :
  validate_graphql_filter_fragment f = Ok tt <->
  ∃ body, trim f = LBRACE :: body ++ [RBRACE] /\ Balanced body.
Proof.
  unfold validate_graphql_filter_fragment. split.
  - destruct (str_eqb (trim f) []); [done|].
    destruct (starts_with (lit "{") (trim f)) eqn:Hs; [|done]. cbn [negb].
    unfold starts_with in Hs. destruct (strip_prefix (lit "{") (trim f)) as [s|] eqn:Hp; [|done].
    apply strip_prefix_Some in Hp. change (lit "{" ++ s) with (LBRACE :: s) in Hp. rewrite Hp.
    destruct (scan_filter 0 (LBRACE :: s) _) as [st|] eqn:Hscan; [|done].
    destruct (sc_in_string st) eqn:Hin; [done|]. destruct (sc_stack st) eqn:Hst; [|done].
    intros _. cbn [scan_filter] in Hscan.
    change (Build_ScanState [] false false None) with (scanning [] None) in Hscan.
    rewrite open_step in Hscan by auto.
    destruct (scan_inv (length s) _ _ _ _ _ (Nat.le_refl _) Hscan Hin Hst)
      as (i & s' & ix & cl & -> & Hi & _ & _ & Hcl & Hrest).
    exists i. split; [|done]. destruct cl as [k|]; [|by destruct (proj1 Hcl eq_refl)].
    apply scan_closed in Hrest. destruct s' as [|c s'] using rev_ind; [done|].
    apply Forall_app in Hrest as [_ Hc]. apply Forall_cons_iff in Hc as [Hc _].
    rewrite (trim_last f (LBRACE :: i ++ closer LBRACE :: s') c) in Hc; [done|].
    rewrite Hp. cbn. by rewrite <- app_assoc.
  - intros (body & -> & Hb). cbn [starts_with]. cbn -[scan_filter].
    change (Build_ScanState [] false false None) with (scanning [] None).
    by rewrite scan_object.
Qed.

(** ** Block strings

    The specification also has block strings: three quotes open one, three quotes that
    no backslash precedes close it, and nothing else in it is special; and [#] starts
    a comment that runs to the end of its line. *)

Definition HASH : char := 35.
Definition TRIPLE : str := [DQ; DQ; DQ].

Inductive LexMode : Type := LM_Code | LM_String | LM_Block | LM_Comment.

(** The text after the object that opens at depth [depth], read with the
    specification's lexical rules; [skip] characters of a longer token are left. *)
Fixpoint after_object (m : LexMode) (depth skip : nat) (s : str) : option str :=
  match s with
  | [] => None
  | c :: s =>
      match skip with
      | S skip => after_object m depth skip s
      | O =>
          match m with
          | LM_Comment => after_object (if (c =? NL) || (c =? CR) then LM_Code else m) depth 0 s
          | LM_String =>
              if c =? BS then after_object m depth 1 s
              else if c =? DQ then after_object LM_Code depth 0 s
              else if (c =? NL) || (c =? CR) then None
              else after_object m depth 0 s
          | LM_Block =>
              if starts_with (BS :: TRIPLE) (c :: s) then after_object m depth 3 s
              else if starts_with TRIPLE (c :: s) then after_object LM_Code depth 2 s
              else after_object m depth 0 s
          | LM_Code =>
              if starts_with TRIPLE (c :: s) then after_object LM_Block depth 2 s
              else if c =? DQ then after_object LM_String depth 0 s
              else if c =? HASH then after_object LM_Comment depth 0 s
              else if c =? LBRACE then after_object m (S depth) 0 s
              else if c =? RBRACE then
                match depth with
                | S (S d) => after_object m (S d) 0 s
                | _ => Some s
                end
              else after_object m depth 0 s
          end
      end
  end.

Definition smuggled : str := lit ") { _docID } Secret { key } #" ++ DQ :: lit "}}".
Definition smuggling_filter : str :=
  lit "{name: {_eq: " ++ TRIPLE ++ lit " " ++ [DQ] ++ lit " " ++ TRIPLE ++ lit "}}" ++ smuggled.

(** The filter gate does not know block strings: a fragment that holds one with a
    quote inside is accepted, while under the specification's lexical rules its object
    ends early and the rest closes the argument list and adds a selection of its own. *)
Theorem block_string_breaks_out :
  validate_graphql_filter_fragment smuggling_filter = Ok tt /\
  after_object LM_Code 0 0 smuggling_filter = Some smuggled.
Proof. split; vm_compute; reflexivity. Qed.
