(* ===== verification/Truncation.v ===== *)
(** * Tool output truncation

    [truncation.rs] and [truncation/logic.rs]: a tool result that exceeds its line or
    byte limit is cut to a window of whole lines, the first ones or, for shells, the
    last ones, with a note saying which lines of how many are shown.  The [f64] ratios
    that pick the reported trigger are those of [Float64]. *)

From S2P Require Import Prelude RustStr Float64.

Inductive TruncationMode : Type := Head | Tail.
Inductive TruncationTrigger : Type := T_Lines | T_Bytes.

Record TruncationLimits : Type := { max_lines : Z; max_bytes : Z }.

Definition default_limits : TruncationLimits := {| max_lines := 2000; max_bytes := 50 * 1024 |}.

Definition tool_result_truncation_mode (tool_name : str) : TruncationMode :=
  if existsb (str_eqb tool_name) [lit "bash"; lit "shell"; lit "command"] then Tail else Head.

Record TextTruncation : Type := {
  tt_text : str;
  tt_truncated : bool;
  tt_trigger : option TruncationTrigger;
  tt_original_lines : Z;
  tt_original_bytes : Z;
  tt_returned_bytes : Z
}.

Definition trigger_of (limits : TruncationLimits) (original_lines original_bytes : Z)
    : TruncationTrigger :=
  let exceeds_lines := max_lines limits <? original_lines in
  let exceeds_bytes := max_bytes limits <? original_bytes in
  if exceeds_bytes && exceeds_lines then
    let line_ratio := f64_div (f64_of_Z original_lines) (f64_of_Z (max_lines limits)) in
    let byte_ratio := f64_div (f64_of_Z original_bytes) (f64_of_Z (max_bytes limits)) in
    if f64_gt byte_ratio line_ratio then T_Bytes else T_Lines
  else if exceeds_bytes then T_Bytes
  else T_Lines.

(** The loop of the [Head] arm: the lines left, what was kept and how many lines. *)
Fixpoint head_loop (limits : TruncationLimits) (lines : list str) (result : str) (line_count : Z)
    : str * Z :=
  match lines with
  | [] => (result, line_count)
  | line :: lines =>
      if max_lines limits <=? line_count then (result, line_count)
      else if max_bytes limits <? str_len result + str_len line + 1 then (result, line_count)
      else
        let result := if str_eqb result [] then result else result ++ [NL] in
        head_loop limits lines (result ++ line) (line_count + 1)
  end.

(** The loop of the [Tail] arm, over the lines from the last one on. *)
Fixpoint tail_loop (limits : TruncationLimits) (lines : list str) (result : str) (included : Z)
    : str * Z :=
  match lines with
  | [] => (result, included)
  | line :: lines =>
      if max_bytes limits <? str_len result + str_len line + 1 then (result, included)
      else tail_loop limits lines
             (if str_eqb result [] then line else line ++ [NL] ++ result) (included + 1)
  end.

Definition head_note (shown lines bytes : Z) : str :=
  [NL; NL] ++ lit "[Showing lines 1-" ++ fmt_Z shown ++ lit " of " ++ fmt_Z lines
  ++ lit " (" ++ fmt_Z bytes ++ lit " bytes total)]".
Definition tail_note (start lines bytes : Z) : str :=
  lit "[Showing lines " ++ fmt_Z start ++ lit "-" ++ fmt_Z lines ++ lit " of " ++ fmt_Z lines
  ++ lit " (" ++ fmt_Z bytes ++ lit " bytes total)]" ++ [NL; NL].

Definition truncate (text : str) (mode : TruncationMode) (limits : TruncationLimits)
    : TextTruncation :=
  let original_bytes := str_len text in
  let lines := str_lines text in
  let original_lines := Z.of_nat (length lines) in
  let exceeds_lines := max_lines limits <? original_lines in
  let exceeds_bytes := max_bytes limits <? original_bytes in
  if negb exceeds_lines && negb exceeds_bytes then
    {| tt_text := text; tt_truncated := false; tt_trigger := None;
       tt_original_lines := original_lines; tt_original_bytes := original_bytes;
       tt_returned_bytes := original_bytes |}
  else
    let trigger := trigger_of limits original_lines original_bytes in
    let '(truncated, returned_bytes) :=
      match mode with
      | Head =>
          let '(result, line_count) := head_loop limits lines [] 0 in
          (result ++ head_note line_count original_lines original_bytes, str_len result)
      | Tail =>
          let start_line :=
            if exceeds_lines then saturating_sub original_lines (max_lines limits) else 0 in
          let '(result, included) :=
            tail_loop limits (rev (drop (Z.to_nat start_line) lines)) [] 0 in
          let shown_start := original_lines - included + 1 in
          (tail_note shown_start original_lines original_bytes ++ result, str_len result)
      end in
    {| tt_text := truncated; tt_truncated := true; tt_trigger := Some trigger;
       tt_original_lines := original_lines; tt_original_bytes := original_bytes;
       tt_returned_bytes := returned_bytes |}.

Definition truncate_text (text : str) (mode : TruncationMode) (limits : TruncationLimits)
    : str * option TruncationTrigger * bool :=
  let result := truncate text mode limits in
  (tt_text result, tt_trigger result, tt_truncated result).

(** ** The window *)

(** The leading empty lines of a window go: an empty result gets no line break. *)
Fixpoint drop_empty (ls : list str) : list str :=
  match ls with [] :: ls => drop_empty ls | _ => ls end.

Definition glue (result line : str) : str :=
  (if str_eqb result [] then result else result ++ [NL]) ++ line.
Definition glue_front (result line : str) : str :=
  if str_eqb result [] then line else line ++ [NL] ++ result.

Lemma str_eqb_nil s : str_eqb s [] = match s with [] => true | _ => false end.
Proof. by destruct s. Qed.

Lemma join_snoc sep ls l : ls <> [] -> join sep (ls ++ [l]) = join sep ls ++ sep ++ l.
Proof.
  induction ls as [|a ls IH]; [done|]. intros _. destruct ls as [|b ls]; [done|].
  change ((a :: b :: ls) ++ [l]) with (a :: (b :: ls) ++ [l]).
  rewrite join_cons by done. rewrite IH by done. rewrite (join_cons _ a (b :: ls)) by done.
  by rewrite <- !app_assoc.
Qed.

Lemma join_nonempty sep l ls : l <> [] -> join sep (l :: ls) <> [].
Proof. destruct l; [done|]. intros _. by destruct ls. Qed.

Lemma foldl_glue_from acc ls :
  acc <> [] -> join [NL] acc <> [] -> foldl glue (join [NL] acc) ls = join [NL] (acc ++ ls).
Proof.
  revert acc. induction ls as [|l ls IH]; intros acc Ha Hj; cbn; [by rewrite app_nil_r|].
  assert (Hg : glue (join [NL] acc) l = join [NL] (acc ++ [l])).
  { rewrite join_snoc by done. unfold glue. rewrite str_eqb_nil.
    destruct (join [NL] acc); [done|]. by rewrite <- app_assoc. }
  rewrite Hg, IH; [by rewrite <- app_assoc|by destruct acc|].
  rewrite join_snoc by done. by destruct (join [NL] acc).
Qed.

Lemma foldl_glue ls : foldl glue [] ls = join [NL] (drop_empty ls).
Proof.
  induction ls as [|l ls IH]; [done|]. destruct l as [|c l]; [exact IH|].
  change (foldl glue (join [NL] [c :: l]) ls = join [NL] ([c :: l] ++ ls)).
  by apply foldl_glue_from.
Qed.

Lemma foldl_glue_front_from acc ls :
  acc <> [] -> join [NL] acc <> [] ->
  foldl glue_front (join [NL] acc) ls = join [NL] (rev ls ++ acc).
Proof.
  revert acc. induction ls as [|l ls IH]; intros acc Ha Hj; cbn; [done|].
  assert (Hg : glue_front (join [NL] acc) l = join [NL] (l :: acc)).
  { rewrite join_cons by done. unfold glue_front. rewrite str_eqb_nil. by destruct (join [NL] acc). }
  rewrite Hg, IH; [by rewrite <- app_assoc|done|].
  rewrite join_cons by done. by destruct l.
Qed.

Lemma foldl_glue_front ls : foldl glue_front [] ls = join [NL] (rev (drop_empty ls)).
Proof.
  induction ls as [|l ls IH]; [done|]. destruct l as [|c l]; [exact IH|].
  change (foldl glue_front (join [NL] [c :: l]) ls = join [NL] (rev ls ++ [c :: l])).
  by apply foldl_glue_front_from.
Qed.

Lemma glue_len result line b :
  str_len result + str_len line + 1 <= b -> str_len (glue result line) <= b.
Proof.
  unfold glue. pose proof (str_len_nonneg line). pose proof (str_len_nonneg result).
  split_ifs; rewrite !str_len_app; cbn; lia.
Qed.

Lemma glue_front_len result line b :
  str_len result + str_len line + 1 <= b -> str_len (glue_front result line) <= b.
Proof.
  unfold glue_front. pose proof (str_len_nonneg line). pose proof (str_len_nonneg result).
  split_ifs; rewrite ?str_len_app; cbn; rewrite ?str_len_app; cbn; lia.
Qed.

(** A line that would not fit after [body]. *)
Definition too_long (limits : TruncationLimits) (body : str) (line : option str) : Prop :=
  ∃ l, line = Some l /\ max_bytes limits < str_len body + str_len l + 1.

Lemma head_loop_spec limits lines result count :
  0 <= count <= max_lines limits -> str_len result <= max_bytes limits ->
  ∃ k, (k <= length lines)%nat /\ count + Z.of_nat k <= max_lines limits /\
    let body := foldl glue result (take k lines) in
    head_loop limits lines result count = (body, count + Z.of_nat k) /\
    str_len body <= max_bytes limits /\
    (k = length lines \/ count + Z.of_nat k = max_lines limits \/ too_long limits body (lines !! k)).
Proof.
  revert result count. induction lines as [|line lines IH]; intros result count Hc Hr; cbn [head_loop].
  { exists 0%nat. rewrite Z.add_0_r. cbn. split_and!; auto; lia. }
  destruct (max_lines limits <=? count) eqn:Hl.
  { exists 0%nat. rewrite Z.add_0_r. cbn. split_and!; try done; lia. }
  destruct (max_bytes limits <? _) eqn:Hb.
  { exists 0%nat. rewrite Z.add_0_r. cbn. split_and!; try done; try lia.
    right; right. exists line. split; [done|lia]. }
  destruct (IH (glue result line) (count + 1)) as (k & Hk & Hm & He & Hs & Hstop);
    [lia|apply glue_len; lia|].
  exists (S k). cbn [take foldl length]. 
  change (head_loop limits lines _ (count + 1)) with (head_loop limits lines (glue result line) (count + 1)).
  rewrite He.
  split_and!; [lia|lia|f_equal; lia|done|].
  destruct Hstop as [?|[?|?]]; [left; lia|right; left; lia|by right; right].
Qed.

Lemma tail_loop_spec limits lines result count :
  str_len result <= max_bytes limits ->
  ∃ k, (k <= length lines)%nat /\
    let body := foldl glue_front result (take k lines) in
    tail_loop limits lines result count = (body, count + Z.of_nat k) /\
    str_len body <= max_bytes limits /\
    (k = length lines \/ too_long limits body (lines !! k)).
Proof.
  revert result count. induction lines as [|line lines IH]; intros result count Hr; cbn [tail_loop].
  { exists 0%nat. rewrite Z.add_0_r. cbn. auto. }
  destruct (max_bytes limits <? _) eqn:Hb.
  { exists 0%nat. rewrite Z.add_0_r. cbn. split_and!; try done; try lia.
    right. exists line. split; [done|lia]. }
  destruct (IH (glue_front result line) (count + 1)) as (k & Hk & He & Hs & Hstop);
    [apply glue_front_len; lia|].
  exists (S k). cbn [take foldl length]. fold (glue_front result line). rewrite He.
  split_and!; [lia|f_equal; lia|done|].
  destruct Hstop as [?|?]; [left; lia|by right].
Qed.

(** The first [k] lines counted from the end of the text, last one first. *)
Definition from_end (lines : list str) : list str := rev lines.

Lemma from_end_drop lines n : (n <= length lines)%nat ->
  rev (drop n lines) = take (length lines - n) (from_end lines).
Proof.
  intros Hn. unfold from_end. rewrite firstn_rev. do 2 f_equal. unfold str in *. lia.
Qed.

(** What the text of a truncation shows of the [k] lines it counts. *)
Definition window (mode : TruncationMode) (k : nat) (lines : list str) : str :=
  match mode with
  | Head => join [NL] (drop_empty (take k lines))
  | Tail => join [NL] (rev (drop_empty (take k (from_end lines))))
  end.
Definition next_line (mode : TruncationMode) (k : nat) (lines : list str) : option str :=
  match mode with Head => lines !! k | Tail => from_end lines !! k end.

Lemma trigger_exceeded limits n b :
  (n <=? max_lines limits) && (b <=? max_bytes limits) = false ->
  Some (trigger_of limits n b) = Some T_Lines /\ max_lines limits < n
  \/ Some (trigger_of limits n b) = Some T_Bytes /\ max_bytes limits < b.
Proof.
  unfold trigger_of. rewrite !Z.ltb_antisym.
  destruct (n <=? max_lines limits) eqn:Hl, (b <=? max_bytes limits) eqn:Hb; cbn; [done| | |];
    intros _; [right|left|]; try (split; [done|lia]).
  destruct (f64_gt _ _); [right|left]; (split; [done|lia]).
Qed.

Lemma head_window limits lines :
  0 <= max_lines limits -> 0 <= max_bytes limits ->
  ∃ k, let body := window Head k lines in
    (k <= length lines)%nat /\ Z.of_nat k <= max_lines limits /\
    head_loop limits lines [] 0 = (body, Z.of_nat k) /\ str_len body <= max_bytes limits /\
    (k = length lines \/ Z.of_nat k = max_lines limits
     \/ too_long limits body (next_line Head k lines)).
Proof.
  intros Hml Hmb. destruct (head_loop_spec limits lines [] 0) as (k & H); [lia|done|].
  rewrite !Z.add_0_l, foldl_glue in H. by exists k.
Qed.

Lemma tail_window limits lines :
  0 <= max_lines limits -> 0 <= max_bytes limits ->
  let n := Z.of_nat (length lines) in
  ∃ k, let body := window Tail k lines in
    (k <= length lines)%nat /\ Z.of_nat k <= max_lines limits /\
    tail_loop limits
      (rev (drop (Z.to_nat (if negb (n <=? max_lines limits)
                            then saturating_sub n (max_lines limits) else 0)) lines)) [] 0
      = (body, Z.of_nat k) /\ str_len body <= max_bytes limits /\
    (k = length lines \/ Z.of_nat k = max_lines limits
     \/ too_long limits body (next_line Tail k lines)).
Proof.
  intros Hml Hmb n. set (start := Z.to_nat _).
  assert (Hst : (start <= length lines)%nat /\
    (Z.of_nat (length lines - start) = max_lines limits
     \/ start = 0%nat /\ n <= max_lines limits)).
  { unfold start, n, saturating_sub.
    destruct (Z.of_nat (length lines) <=? max_lines limits) eqn:Hl; cbn [negb]; lia. }
  destruct Hst as [Hle Hm]. rewrite from_end_drop by done.
  destruct (tail_loop_spec limits (take (length lines - start) (from_end lines)) [] 0)
    as (k & Hk & He & Hs & Hstop); [done|].
  assert (Hlen : length (take (length lines - start) (from_end lines)) = (length lines - start)%nat).
  { unfold from_end. rewrite length_take, length_rev. lia. }
  rewrite Hlen in *. rewrite take_take, Nat.min_l, foldl_glue_front, Z.add_0_l in * by lia.
  exists k. split_and!; [lia|lia|done|done|].
  destruct (decide (k = length lines - start)%nat) as [->|Hne].
  - destruct Hm as [?|[-> ?]]; [by right; left|left; lia].
  - destruct Hstop as [?|Hl]; [done|]. right; right.
    by rewrite lookup_take_lt in Hl by lia.
Qed.

(** Truncation returns the text unchanged exactly when it is within both limits.
    Otherwise it counts [k] whole lines from the start, or for shells from the end,
    with at most [max_lines] lines and [max_bytes] bytes of them, as many as fit (all,
    or the line limit, or the next line is too long); the text is their window and the
    note that names them, and the reported trigger is a limit that was exceeded.  The
    window is those [k] lines less the empty ones it would begin with (end with, for
    [Tail]), which the note still counts as shown. *)
Theorem truncation_shows_a_window text mode limits :
  0 <= max_lines limits -> 0 <= max_bytes limits ->
  let t := truncate text mode limits in
  let lines := str_lines text in
  let n := Z.of_nat (length lines) in
  tt_original_lines t = n /\ tt_original_bytes t = str_len text /\
  if (n <=? max_lines limits) && (str_len text <=? max_bytes limits)
  then tt_text t = text /\ tt_truncated t = false /\ tt_trigger t = None
       /\ tt_returned_bytes t = str_len text
  else
    tt_truncated t = true /\
    (tt_trigger t = Some T_Lines /\ max_lines limits < n
     \/ tt_trigger t = Some T_Bytes /\ max_bytes limits < str_len text) /\
    ∃ k, let body := window mode k lines in
      (k <= length lines)%nat /\ Z.of_nat k <= max_lines limits /\
      tt_returned_bytes t = str_len body /\ str_len body <= max_bytes limits /\
      (k = length lines \/ Z.of_nat k = max_lines limits
       \/ too_long limits body (next_line mode k lines)) /\
      tt_text t = match mode with
                  | Head => body ++ head_note (Z.of_nat k) n (str_len text)
                  | Tail => tail_note (n - Z.of_nat k + 1) n (str_len text) ++ body
                  end.
Proof.
  intros Hml Hmb. unfold truncate. set (lines := str_lines text). set (n := Z.of_nat (length lines)).
  rewrite !Z.ltb_antisym, !negb_involutive.
  destruct ((n <=? max_lines limits) && (str_len text <=? max_bytes limits)) eqn:Hc; [done|].
  destruct mode.
  - destruct (head_window limits lines Hml Hmb) as (k & Hk & Hkm & -> & Hs & Hstop). cbn.
    split_and!; [done|done|done|by apply trigger_exceeded|]. exists k. by split_and!.
  - destruct (tail_window limits lines Hml Hmb) as (k & Hk & Hkm & He & Hs & Hstop).
    fold n in He. rewrite He. cbn.
    split_and!; [done|done|done|by apply trigger_exceeded|]. exists k. by split_and!.
Qed.

Definition demo_limits : TruncationLimits := {| max_lines := 2; max_bytes := 100 |}.

Lemma truncation_shows_a_window_witness :
  let text := [NL] ++ lit "ab" ++ [NL] ++ lit "cd" in
  tt_text (truncate text Head demo_limits)
    = lit "ab" ++ [NL; NL] ++ lit "[Showing lines 1-2 of 3 (6 bytes total)]" /\
  tt_truncated (truncate text Head demo_limits) = true.
Proof.
  intros text. split; [vm_compute; reflexivity|].
  destruct (truncation_shows_a_window text Head demo_limits) as (_ & _ & H);
    [vm_compute; discriminate|vm_compute; discriminate|].
  exact (proj1 H).
Defined.
