(* ===== verification/InferenceCalls.v ===== *)
(** * Inference call records

    [admission/persistence.rs], [admission/permit.rs] and [admission/recovery.rs]: the
    durable row of every provider call, from its queued or running insert to its one
    terminal outcome, with the permit that settles it and the sweep that settles what a
    crash left behind.  A mutation is one atomic filtered update or insert that is
    committed, refused, or committed with an error reported; the retry on transaction
    conflicts inside [graphql_mutation_with_transaction_retry] repeats refused ones. *)

From S2P Require Import Prelude RustStr Errors TokenBudget RequestState Store ExecutionLease.

(** ** Rows *)

Record InferenceCallRecord : Type := {
  ir_call_id : str;
  ir_runtime_instance_id : str;
  ir_request_id : str;
  ir_request_doc_id : str;
  ir_call_seq : Z;
  ir_backend_id : str;
  ir_behavior_id : str;
  ir_agent_did : str;
  ir_call_kind : str;
  ir_attempt : Z;
  ir_queue_depth_at_enqueue : Z;
  ir_controller_generation : Z;
  ir_backend_config_fingerprint : str
}.

Record CallRow : Type := {
  k_doc_id : str;
  k_call : InferenceCallRecord;
  k_state : str;
  k_failure_reason : option str;
  k_queued_at : option str;
  k_started_at : option str;
  k_ended_at : option str;
  k_usage : option Z * option Z * option Z
}.
Abbreviation Calls := (list CallRow).

Definition QUEUED : str := lit "queued".
Definition RUNNING : str := lit "running".
Definition COMPLETED : str := lit "completed".
Definition FAILED : str := lit "failed".
Definition CANCELLED : str := lit "cancelled".

Definition terminal_call_state (s : str) : bool :=
  existsb (str_eqb s) [COMPLETED; FAILED; CANCELLED].

(** The row [add_call_mutation] inserts; [doc_id] is the store's. *)
Definition add_call_mutation (call : InferenceCallRecord) (call_state : str)
    (failure_reason queued_at started_at ended_at : option str) (usage : option Usage)
    (doc_id : str) : CallRow :=
  {| k_doc_id := doc_id; k_call := call; k_state := call_state; k_failure_reason := failure_reason;
     k_queued_at := queued_at; k_started_at := started_at; k_ended_at := ended_at;
     k_usage := usage_fields usage |}.

(** The [input] objects of the updates: an absent field is left as it is. *)
Definition running_input (started_at : str) (k : CallRow) : CallRow :=
  {| k_doc_id := k_doc_id k; k_call := k_call k; k_state := RUNNING;
     k_failure_reason := k_failure_reason k; k_queued_at := k_queued_at k;
     k_started_at := Some started_at; k_ended_at := k_ended_at k; k_usage := k_usage k |}.
Definition usage_input (usage : option Usage) (k : CallRow) : CallRow :=
  {| k_doc_id := k_doc_id k; k_call := k_call k; k_state := k_state k;
     k_failure_reason := k_failure_reason k; k_queued_at := k_queued_at k;
     k_started_at := k_started_at k; k_ended_at := k_ended_at k;
     k_usage := match usage with Some _ => usage_fields usage | None => k_usage k end |}.
Definition terminal_input (call_state : str) (failure_reason : option str) (ended_at : str)
    (usage : option Usage) (k : CallRow) : CallRow :=
  usage_input usage
    {| k_doc_id := k_doc_id k; k_call := k_call k; k_state := call_state;
       k_failure_reason := match failure_reason with Some r => Some r | None => k_failure_reason k end;
       k_queued_at := k_queued_at k; k_started_at := k_started_at k; k_ended_at := Some ended_at;
       k_usage := k_usage k |}.

(** ** Store operations *)

Definition update_calls (p : CallRow → bool) (f : CallRow → CallRow) (c : CommitResult) (rows : Calls)
    : result Error (list str) * Calls :=
  match c with
  | Committed => (Ok (k_doc_id <$> List.filter p rows), update_where p f rows)
  | Refused e => (Err e, rows)
  | Ambiguous e => (Err e, update_where p f rows)
  end.

Definition insert_call (row : CallRow) (c : CommitResult) (rows : Calls) : result Error str * Calls :=
  match c with
  | Committed => (Ok (k_doc_id row), rows ++ [row])
  | Refused e => (Err e, rows)
  | Ambiguous e => (Err e, rows ++ [row])
  end.

Definition has_call_id (call : InferenceCallRecord) (k : CallRow) : bool :=
  str_eqb (ir_call_id (k_call k)) (ir_call_id call).

(** ** Persistence *)

Definition persist_call_queued (now doc_id : str) (call : InferenceCallRecord) (c : CommitResult)
    (rows : Calls) : result Error str * Calls :=
  insert_call (add_call_mutation call QUEUED None (Some now) None None None doc_id) c rows.

Definition persist_call_started (now doc_id : str) (call : InferenceCallRecord) (c : CommitResult)
    (rows : Calls) : result Error str * Calls :=
  insert_call (add_call_mutation call RUNNING None (Some now) (Some now) None None doc_id) c rows.

Definition persist_terminal_call (now doc_id : str) (call : InferenceCallRecord) (call_state : str)
    (failure_reason : option str) (usage : option Usage) (c : CommitResult) (rows : Calls)
    : result Error str * Calls :=
  insert_call (add_call_mutation call call_state failure_reason (Some now) None (Some now) usage doc_id)
    c rows.

Definition no_longer_queued (call : InferenceCallRecord) : Error :=
  Msg (lit "InferenceCall " ++ ir_call_id call ++ lit " is no longer queued or is missing").

Definition persist_existing_call_running (now : str) (call : InferenceCallRecord) (c : CommitResult)
    (rows : Calls) : result Error unit * Calls :=
  let '(r, rows) := update_calls (λ k, has_call_id call k && str_eqb (k_state k) QUEUED)
                      (running_input now) c rows in
  (let? ids := r in ensure (negb (Nat.eqb (length ids) 0)) (no_longer_queued call), rows).

(** The live states a terminal state may replace. *)
Definition live_source (call_state : str) : option (list str) :=
  if str_eqb call_state COMPLETED || str_eqb call_state FAILED then Some [RUNNING]
  else if str_eqb call_state CANCELLED then Some [QUEUED; RUNNING]
  else None.

Definition cannot_transition (call : InferenceCallRecord) (call_state : str) : Error :=
  Msg (lit "InferenceCall " ++ ir_call_id call ++ lit " is missing or cannot transition to "
       ++ call_state).

Definition persist_existing_call_terminal (now : str) (call : InferenceCallRecord) (call_state : str)
    (failure_reason : option str) (usage : option Usage) (c1 c2 : CommitResult) (rows : Calls)
    : result Error unit * Calls :=
  match live_source call_state with
  | None => (Err (Msg (lit "invalid terminal InferenceCall state: " ++ call_state)), rows)
  | Some live =>
      let '(r, rows) :=
        update_calls (λ k, has_call_id call k && existsb (str_eqb (k_state k)) live)
          (terminal_input call_state failure_reason now usage) c1 rows in
      match r with
      | Err e => (Err e, rows)
      | Ok (_ :: _) => (Ok tt, rows)
      | Ok [] =>
          let settled k := has_call_id call k && terminal_call_state (k_state k) in
          let '(r, rows) :=
            match usage with
            | Some _ => update_calls settled (usage_input usage) c2 rows
            | None => (match c2 with
                       | Committed => Ok (k_doc_id <$> List.filter settled rows)
                       | Refused e | Ambiguous e => Err e
                       end, rows)
            end in
          (let? ids := r in ensure (negb (Nat.eqb (length ids) 0)) (cannot_transition call call_state),
           rows)
      end
  end.

(** ** Recovery *)

Inductive InferenceRecoveryOutcome : Type := IR_Cancelled | IR_Failed.

(** [recovery_outcome]: the observed call state and the parent request's state. *)
Definition call_recovery_outcome (call_state : str) (parent : option RequestLifecycleState)
    : option InferenceRecoveryOutcome :=
  if opt_eqb state_eqb parent (Some Interrupted) then Some IR_Cancelled
  else if negb (is_some_and is_terminal parent) then None
  else if str_eqb call_state QUEUED then Some IR_Cancelled
  else if str_eqb call_state RUNNING then Some IR_Failed
  else None.

Definition recovery_target (o : InferenceRecoveryOutcome) : str * str :=
  match o with
  | IR_Cancelled => (CANCELLED, lit "Cancelled")
  | IR_Failed => (FAILED, lit "StreamDroppedBeforeTerminalResponse")
  end.

Definition recover_inference_call_row (now doc_id call_state : str) (o : InferenceRecoveryOutcome)
    (c : CommitResult) (rows : Calls) : result Error bool * Calls :=
  let '(target, reason) := recovery_target o in
  let '(r, rows) :=
    update_calls (λ k, str_eqb (k_doc_id k) doc_id && str_eqb (k_state k) call_state)
      (terminal_input target (Some reason) now None) c rows in
  (let? ids := r in Ok (negb (Nat.eqb (length ids) 0)), rows).

(** [load_stale_inference_calls]: what a sweep observed earlier. *)
Definition stale_calls (agent_did : str) (rows : Calls) : Calls :=
  List.filter (λ k, str_eqb (ir_agent_did (k_call k)) agent_did
                    && existsb (str_eqb (k_state k)) [QUEUED; RUNNING]) rows.

(** One row of [recover_all]: [observed] is the row as the sweep loaded it, [parent] the
    state of its request if that was found. *)
Definition recover_observed (now : str) (observed : CallRow) (parent : option (option RequestLifecycleState))
    (c : CommitResult) (rows : Calls) : result Error bool * Calls :=
  match parent ≫= call_recovery_outcome (k_state observed) with
  | None => (Ok false, rows)
  | Some o => recover_inference_call_row now (k_doc_id observed) (k_state observed) o c rows
  end.

(** [recover_all]: the rows a sweep loaded, the state of each parent request as its
    lookup returns it (an error of a lookup ends the sweep) and the commit each
    mutation meets.  A failed mutation is skipped and not counted. *)
Fixpoint recover_call_rows (now : str) (parent : CallRow → result Error (option (option RequestLifecycleState)))
    (commit : CallRow → CommitResult) (observed : Calls) (calls_recovered : Z) (rows : Calls)
    : result Error Z * Calls :=
  match observed with
  | [] => (Ok calls_recovered, rows)
  | row :: observed =>
      match parent row with
      | Err e => (Err e, rows)
      | Ok state =>
          let '(r, rows) := recover_observed now row state (commit row) rows in
          let recovered := match r with Ok true => 1 | _ => 0 end in
          recover_call_rows now parent commit observed (calls_recovered + recovered) rows
      end
  end.

Definition recover_all_calls (now agent_did : str)
    (parent : CallRow → result Error (option (option RequestLifecycleState)))
    (commit : CallRow → CommitResult) (rows : Calls) : result Error Z * Calls :=
  recover_call_rows now parent commit (stale_calls agent_did rows) 0 rows.

(** ** Permits *)

Record PermitTerminal : Type := {
  pt_call_state : str;
  pt_failure_reason : option str;
  pt_usage : option Usage
}.

Record AdmissionPermit : Type := {
  ap_call : InferenceCallRecord;
  ap_terminal : option PermitTerminal;
  ap_finished : bool
}.

Definition new_permit (call : InferenceCallRecord) : AdmissionPermit :=
  {| ap_call := call; ap_terminal := None; ap_finished := false |}.
Definition with_terminal (t : PermitTerminal) (p : AdmissionPermit) : AdmissionPermit :=
  {| ap_call := ap_call p; ap_terminal := Some t; ap_finished := ap_finished p |}.
Definition set_finished (p : AdmissionPermit) : AdmissionPermit :=
  {| ap_call := ap_call p; ap_terminal := ap_terminal p; ap_finished := true |}.

Definition completed_terminal (usage : option Usage) : PermitTerminal :=
  {| pt_call_state := COMPLETED; pt_failure_reason := None; pt_usage := usage |}.
Definition failed_terminal (reason : str) : PermitTerminal :=
  {| pt_call_state := FAILED; pt_failure_reason := Some reason; pt_usage := None |}.
Definition cancelled_terminal : PermitTerminal :=
  {| pt_call_state := CANCELLED; pt_failure_reason := Some (lit "Cancelled"); pt_usage := None |}.

Definition mark_interrupted (p : AdmissionPermit) : AdmissionPermit :=
  if ap_finished p then p else with_terminal cancelled_terminal p.
Definition mark_stream_success (usage : option Usage) (p : AdmissionPermit) : AdmissionPermit :=
  match ap_terminal p with None => with_terminal (completed_terminal usage) p | Some _ => p end.
Definition mark_stream_error (error : str) (p : AdmissionPermit) : AdmissionPermit :=
  match ap_terminal p with None => with_terminal (failed_terminal error) p | Some _ => p end.

Definition persist_terminal (now : str) (call : InferenceCallRecord) (t : PermitTerminal)
    (c1 c2 : CommitResult) (rows : Calls) : result Error unit * Calls :=
  persist_existing_call_terminal now call (pt_call_state t) (pt_failure_reason t) (pt_usage t) c1 c2 rows.

Definition usage_not_persisted (p : AdmissionPermit) (e : Error) : CompletionError :=
  ProviderError (lit "persisting terminal InferenceCall usage failed for call "
                 ++ ir_call_id (ap_call p) ++ lit ": " ++ error_to_string e).

Definition finish (now : str) (c1 c2 : CommitResult) (p : AdmissionPermit) (rows : Calls)
    : result CompletionError unit * AdmissionPermit * Calls :=
  if ap_finished p then (Ok tt, p, rows)
  else
    let terminal := unwrap_or (completed_terminal None) (ap_terminal p) in
    let '(r, rows) := persist_terminal now (ap_call p) terminal c1 c2 rows in
    match r, pt_usage terminal with
    | Err e, Some _ => (Err (usage_not_persisted p e), p, rows)
    | _, _ => (Ok tt, set_finished p, rows)
    end.

Definition finish_success (usage : option Usage) (now : str) (c1 c2 : CommitResult)
    (p : AdmissionPermit) (rows : Calls) : result CompletionError unit * AdmissionPermit * Calls :=
  finish now c1 c2 (with_terminal (completed_terminal usage) p) rows.
Definition finish_failure (reason : str) (now : str) (c1 c2 : CommitResult)
    (p : AdmissionPermit) (rows : Calls) : result CompletionError unit * AdmissionPermit * Calls :=
  finish now c1 c2 (with_terminal (failed_terminal reason) p) rows.

(** The terminal a dropped permit persists: [cancelled] is its cancel observer and
    [failure] what its failure observer holds. *)
Definition drop_terminal (cancelled : bool) (failure : option str) (p : AdmissionPermit)
    : PermitTerminal :=
  match ap_terminal p with
  | Some t => t
  | None =>
      if cancelled then cancelled_terminal
      else failed_terminal (unwrap_or (lit "StreamDroppedBeforeTerminalResponse") failure)
  end.

(** [Drop]; the write is spawned, so it happens later, if at all. *)
Definition permit_drop (cancelled : bool) (failure : option str) (now : str) (c1 c2 : CommitResult)
    (p : AdmissionPermit) (rows : Calls) : Calls :=
  if ap_finished p then rows
  else snd (persist_terminal now (ap_call p) (drop_terminal cancelled failure p) c1 c2 rows).

(** ** Everything that writes the collection *)

Inductive CallOp : Type :=
| Op_Queued (now doc_id : str) (call : InferenceCallRecord) (c : CommitResult)
| Op_Started (now doc_id : str) (call : InferenceCallRecord) (c : CommitResult)
| Op_Refused (now doc_id : str) (call : InferenceCallRecord) (call_state : str)
    (failure_reason : option str) (usage : option Usage) (c : CommitResult)
| Op_Running (now : str) (call : InferenceCallRecord) (c : CommitResult)
| Op_Terminal (now : str) (call : InferenceCallRecord) (call_state : str)
    (failure_reason : option str) (usage : option Usage) (c1 c2 : CommitResult)
| Op_Recover (now : str) (observed : CallRow) (parent : option (option RequestLifecycleState))
    (c : CommitResult).

Definition call_op (o : CallOp) (rows : Calls) : Calls :=
  match o with
  | Op_Queued now id call c => snd (persist_call_queued now id call c rows)
  | Op_Started now id call c => snd (persist_call_started now id call c rows)
  | Op_Refused now id call st reason usage c =>
      snd (persist_terminal_call now id call st reason usage c rows)
  | Op_Running now call c => snd (persist_existing_call_running now call c rows)
  | Op_Terminal now call st reason usage c1 c2 =>
      snd (persist_existing_call_terminal now call st reason usage c1 c2 rows)
  | Op_Recover now observed parent c => snd (recover_observed now observed parent c rows)
  end.

(** A sweep works on rows it loaded in a live state. *)
Definition op_ok (o : CallOp) : Prop :=
  match o with
  | Op_Recover _ observed _ _ => k_state observed = QUEUED \/ k_state observed = RUNNING
  | _ => True
  end.

(** The edges of a call's life. *)
Inductive call_edge : str → str → Prop :=
| ce_run : call_edge QUEUED RUNNING
| ce_cancel_queued : call_edge QUEUED CANCELLED
| ce_complete : call_edge RUNNING COMPLETED
| ce_fail : call_edge RUNNING FAILED
| ce_cancel_running : call_edge RUNNING CANCELLED.

(** How a row may evolve. *)
Definition evolves (k k' : CallRow) : Prop :=
  k_doc_id k' = k_doc_id k /\ k_call k' = k_call k /\ rtc call_edge (k_state k) (k_state k') /\
  (terminal_call_state (k_state k) = true ->
   k_state k' = k_state k /\ k_failure_reason k' = k_failure_reason k /\
   k_queued_at k' = k_queued_at k /\ k_started_at k' = k_started_at k /\ k_ended_at k' = k_ended_at k).

Lemma evolves_refl k : evolves k k.
Proof. by repeat split. Qed.

Lemma call_edge_not_terminal a b : call_edge a b -> terminal_call_state a = false.
Proof. by intros []. Qed.

Lemma evolves_trans k1 k2 k3 : evolves k1 k2 -> evolves k2 k3 -> evolves k1 k3.
Proof.
  intros (D1 & C1 & R1 & T1) (D2 & C2 & R2 & T2). split_and!; [congruence|congruence|by etrans|].
  intros Ht. destruct (T1 Ht) as (S1 & ?). rewrite S1 in T2. destruct (T2 Ht) as (?&?&?&?&?).
  destruct_and!. split_and!; congruence.
Qed.

(** A row that takes one edge evolves, whatever else of it is rewritten. *)
Lemma evolves_edge k k' :
  k_doc_id k' = k_doc_id k -> k_call k' = k_call k -> call_edge (k_state k) (k_state k') ->
  evolves k k'.
Proof.
  intros HD HC HE. split_and!; [done|done|by apply rtc_once|].
  intros Ht. by rewrite (call_edge_not_terminal _ _ HE) in Ht.
Qed.

(** The collection only grows, and its rows evolve. *)
Definition grows (rows rows' : Calls) : Prop :=
  ∀ i k, rows !! i = Some k -> ∃ k', rows' !! i = Some k' /\ evolves k k'.

Lemma grows_refl rows : grows rows rows.
Proof. intros i k Hi. exists k. auto using evolves_refl. Qed.

Lemma grows_trans a b c : grows a b -> grows b c -> grows a c.
Proof.
  intros H1 H2 i k Hi. destruct (H1 _ _ Hi) as (k1 & Hi1 & E1).
  destruct (H2 _ _ Hi1) as (k2 & Hi2 & E2). exists k2. eauto using evolves_trans.
Qed.

Lemma insert_call_grows row c rows : grows rows (snd (insert_call row c rows)).
Proof.
  destruct c; cbn; [|apply grows_refl|]; intros i k Hi; exists k;
    (split; [by apply lookup_app_l_Some|apply evolves_refl]).
Qed.

Lemma update_calls_grows p f c rows :
  (∀ k, p k = true -> evolves k (f k)) -> grows rows (snd (update_calls p f c rows)).
Proof.
  intros Hp.
  assert (H : grows rows (update_where p f rows)).
  { intros i k Hi. unfold update_where. rewrite list_lookup_fmap, Hi. cbn. eexists. split; [done|].
    destruct (p k) eqn:Hk; [auto|apply evolves_refl]. }
  destruct c; cbn; [done|apply grows_refl|done].
Qed.

Lemma terminal_edge st live s :
  live_source st = Some live -> existsb (str_eqb s) live = true -> call_edge s st.
Proof.
  unfold live_source. intros Hl Hs.
  destruct (str_eqb st COMPLETED || str_eqb st FAILED) eqn:H1.
  - injection Hl as [= <-]. cbn in Hs. rewrite orb_false_r in Hs. apply str_eqb_true in Hs as ->.
    apply orb_true_iff in H1 as [H1|H1]; apply str_eqb_true in H1 as ->; constructor.
  - destruct (str_eqb st CANCELLED) eqn:H2; [|done]. apply str_eqb_true in H2 as ->.
    injection Hl as [= <-]. cbn in Hs. rewrite orb_false_r in Hs.
    apply orb_true_iff in Hs as [Hs|Hs]; apply str_eqb_true in Hs as ->; constructor.
Qed.

Lemma usage_input_evolves usage k : evolves k (usage_input usage k).
Proof. by repeat split. Qed.

Lemma persist_existing_call_terminal_grows now call st reason usage c1 c2 rows :
  grows rows (snd (persist_existing_call_terminal now call st reason usage c1 c2 rows)).
Proof.
  unfold persist_existing_call_terminal.
  destruct (live_source st) as [live|] eqn:Hl; [|apply grows_refl].
  pose proof (update_calls_grows (λ k, has_call_id call k && existsb (str_eqb (k_state k)) live)
    (terminal_input st reason now usage) c1 rows) as HG.
  destruct (update_calls _ _ c1 rows) as [r rows1]. cbn in HG.
  assert (H1 : grows rows rows1).
  { apply HG. intros k Hk. bool_prop. apply evolves_edge; [done|done|]. by eapply terminal_edge. }
  destruct r as [[|id ids]|e]; [|exact H1|exact H1].
  destruct usage as [u|]; [|exact H1].
  pose proof (update_calls_grows (λ k, has_call_id call k && terminal_call_state (k_state k))
    (usage_input (Some u)) c2 rows1 (λ k _, usage_input_evolves _ k)) as HG2.
  destruct (update_calls _ _ c2 rows1) as [r2 rows2]. cbn in *. by eapply grows_trans.
Qed.

Lemma recover_observed_grows now observed parent c rows :
  k_state observed = QUEUED \/ k_state observed = RUNNING ->
  grows rows (snd (recover_observed now observed parent c rows)).
Proof.
  intros Hs. unfold recover_observed.
  destruct (parent ≫= call_recovery_outcome (k_state observed)) as [o|] eqn:Ho; [|apply grows_refl].
  assert (He : call_edge (k_state observed) (fst (recovery_target o))).
  { destruct parent as [parent|]; [|done]. cbn in Ho. unfold call_recovery_outcome in Ho.
    destruct Hs as [Hs|Hs]; rewrite Hs in Ho |- *; split_ifs; simplify_eq;
      try constructor; by vm_compute in *. }
  unfold recover_inference_call_row. destruct (recovery_target o) as [target reason].
  pose proof (update_calls_grows
    (λ k, str_eqb (k_doc_id k) (k_doc_id observed) && str_eqb (k_state k) (k_state observed))
    (terminal_input target (Some reason) now None) c rows) as HG.
  destruct (update_calls _ _ c rows) as [r rows1]. cbn in *. apply HG. intros k Hk. bool_prop.
  apply str_eqb_true in H0. apply evolves_edge; [done|done|]. by rewrite H0.
Qed.

Lemma call_op_grows o rows : op_ok o -> grows rows (call_op o rows).
Proof.
  intros Hok. destruct o; cbn [call_op];
    [apply insert_call_grows|apply insert_call_grows|apply insert_call_grows| |
     apply persist_existing_call_terminal_grows|by apply recover_observed_grows].
  unfold persist_existing_call_running.
  pose proof (update_calls_grows (λ k, has_call_id call k && str_eqb (k_state k) QUEUED)
    (running_input now) c rows) as HG.
  destruct (update_calls _ _ c rows) as [r rows1]. cbn in *. apply HG. intros k Hk. bool_prop.
  apply str_eqb_true in H0. apply evolves_edge; [done|done|]. rewrite H0. constructor.
Qed.

(** A whole sweep, too, only lets rows evolve, and counts no more than it loaded. *)
Lemma recover_all_calls_grows now agent_did parent commit rows :
  grows rows (snd (recover_all_calls now agent_did parent commit rows)) /\
  ∀ n, fst (recover_all_calls now agent_did parent commit rows) = Ok n ->
       0 <= n <= Z.of_nat (length (stale_calls agent_did rows)).
Proof.
  unfold recover_all_calls.
  assert (Hlive : ∀ k, In k (stale_calls agent_did rows) -> k_state k = QUEUED \/ k_state k = RUNNING).
  { intros k [_ Hk]%filter_In. bool_prop. cbn [existsb] in H0. rewrite orb_false_r in H0.
    apply orb_true_iff in H0 as [H0|H0]; apply str_eqb_true in H0; auto. }
  assert (H : ∀ observed n0 rows0, (∀ k, In k observed -> k_state k = QUEUED \/ k_state k = RUNNING) ->
    grows rows0 (snd (recover_call_rows now parent commit observed n0 rows0)) /\
    ∀ n, fst (recover_call_rows now parent commit observed n0 rows0) = Ok n ->
         n0 <= n <= n0 + Z.of_nat (length observed)).
  { induction observed as [|k observed IH]; intros n0 rows0 Hk; cbn [recover_call_rows].
    { split; [apply grows_refl|]. cbn. intros n [= <-]. lia. }
    destruct (parent k) as [state|e]; [|split; [apply grows_refl|done]].
    pose proof (recover_observed_grows now k state (commit k) rows0 (Hk k (or_introl eq_refl))) as HG.
    destruct (recover_observed now k state (commit k) rows0) as [r rows1]. cbn in HG.
    set (n1 := match r with Ok true => 1 | _ => 0 end).
    assert (0 <= n1 <= 1) by (unfold n1; destruct r as [[]|]; lia).
    destruct (IH (n0 + n1) rows1 (λ k' Hk', Hk k' (or_intror Hk'))) as [HG2 HN].
    split; [by eapply grows_trans|]. intros n Hn. apply HN in Hn. cbn [length]. lia. }
  destruct (H (stale_calls agent_did rows) 0 rows Hlive) as [HG HN].
  split; [done|]. intros n Hn. apply HN in Hn. lia.
Qed.

(** The first terminal outcome of a provider call wins: along any sequence of
    inserts, running marks, terminal writes, permit settlements and recovery sweeps,
    with any mutation refused or its outcome ambiguous, a call's row stays, moves only
    along queued, running and terminal states in order, and once terminal keeps its
    state, reason and timestamps for good; later writers can only add the usage they
    observed. *)
Theorem first_call_outcome_wins ops rows i k :
  Forall op_ok ops -> rows !! i = Some k ->
  ∃ k', foldl (λ rows o, call_op o rows) rows ops !! i = Some k' /\ evolves k k'.
Proof.
  intros Hok Hi.
  assert (H : grows rows (foldl (λ rows o, call_op o rows) rows ops)); [|eauto].
  clear Hi i k. revert rows. induction Hok as [|o ops Ho _ IH]; intros rows; [apply grows_refl|].
  cbn. eapply grows_trans; [by apply call_op_grows|apply IH].
Qed.

Lemma update_calls_Ok p f c rows ids rows' :
  update_calls p f c rows = (Ok ids, rows') -> ids <> [] -> ∃ k, k ∈ rows' /\ ∃ k0, k = f k0 /\ p k0 = true.
Proof.
  destruct c; cbn; [|done|done]. intros [= <- <-] Hne.
  destruct (List.filter p rows) as [|k0 ks] eqn:Hk; [done|].
  assert (Hin : In k0 (List.filter p rows)) by (rewrite Hk; by left).
  apply filter_In in Hin as [Hin Hp]. exists (f k0). split; [|eauto].
  apply list_elem_of_fmap. exists k0. rewrite Hp. split; [done|by apply list_elem_of_In].
Qed.

Lemma live_source_terminal st live : live_source st = Some live -> terminal_call_state st = true.
Proof.
  unfold live_source, terminal_call_state. cbn [existsb]. intros H.
  destruct (str_eqb st COMPLETED), (str_eqb st FAILED), (str_eqb st CANCELLED); done.
Qed.

Lemma persisted_usage now call st reason u c1 c2 rows rows' :
  persist_existing_call_terminal now call st reason (Some u) c1 c2 rows = (Ok tt, rows') ->
  ∃ k, k ∈ rows' /\ ir_call_id (k_call k) = ir_call_id call /\
    terminal_call_state (k_state k) = true /\ k_usage k = usage_fields (Some u).
Proof.
  unfold persist_existing_call_terminal. destruct (live_source st) as [live|] eqn:Hl; [|done].
  destruct (update_calls _ _ c1 rows) as [[[|id ids]|e] rows1] eqn:H1; [| |done].
  - destruct (update_calls _ _ c2 rows1) as [[ids2|e] rows2] eqn:H2; cbn; [|done].
    destruct ids2 as [|id ids2]; [done|]. intros [= <-].
    apply update_calls_Ok in H2 as (k & Hin & k0 & -> & Hp); [|done]. bool_prop.
    apply str_eqb_true in H. exists (usage_input (Some u) k0). done.
  - intros [= <-]. apply update_calls_Ok in H1 as (k & Hin & k0 & -> & Hp); [|done]. bool_prop.
    apply str_eqb_true in H. eexists. split; [exact Hin|]. split_and!; [done| |done].
    by apply live_source_terminal in Hl.
Qed.

(** A call that reports success has its charged usage on disk: when
    [finish_success] with a usage report returns [Ok] on a permit not finished before,
    a row of that call exists, is terminal, and holds exactly the reported columns;
    when the write failed the error is returned and the permit stays unfinished, so
    that its drop tries again. *)
Theorem finished_usage_is_durable u now c1 c2 p rows r p' rows' :
  ap_finished p = false ->
  finish_success (Some u) now c1 c2 p rows = (r, p', rows') ->
  match r with
  | Ok _ => ap_finished p' = true /\
      ∃ k, k ∈ rows' /\ ir_call_id (k_call k) = ir_call_id (ap_call p) /\
        terminal_call_state (k_state k) = true /\ k_usage k = usage_fields (Some u)
  | Err _ => ap_finished p' = false /\ ap_terminal p' = Some (completed_terminal (Some u))
  end.
Proof.
  unfold finish_success, finish. intros Hf. cbn [ap_finished with_terminal ap_terminal ap_call]. rewrite Hf.
  cbn [unwrap_or default completed_terminal pt_usage].
  destruct (persist_terminal _ _ _ c1 c2 rows) as [w rows1] eqn:Hw.
  destruct w as [[]|e]; intros [= <- <- <-]; [|done]. split; [done|].
  unfold persist_terminal in Hw. cbn in Hw. by eapply persisted_usage.
Qed.

(** ** Witnesses *)

Definition demo_call : InferenceCallRecord :=
  {| ir_call_id := lit "call-1"; ir_runtime_instance_id := lit "runtime-1";
     ir_request_id := lit "request-1"; ir_request_doc_id := lit "doc-1"; ir_call_seq := 1;
     ir_backend_id := lit "backend-1"; ir_behavior_id := lit "behavior-1";
     ir_agent_did := lit "did:agent"; ir_call_kind := lit "inference"; ir_attempt := 1;
     ir_queue_depth_at_enqueue := 0; ir_controller_generation := 1;
     ir_backend_config_fingerprint := lit "f" |}.
Definition demo_usage : Usage :=
  {| input_tokens := 100; output_tokens := 50; total_tokens := 200; cached_input_tokens := 40;
     cache_creation_input_tokens := 10 |}.
Definition demo_running : CallRow :=
  add_call_mutation demo_call RUNNING None (Some (lit "t0")) (Some (lit "t0")) None None (lit "d1").

(** Recovery settles the call first; the provider's answer arrives late. *)
Lemma first_call_outcome_wins_witness :
  ∃ k', foldl (λ rows o, call_op o rows) [demo_running]
          [Op_Recover (lit "t1") demo_running (Some (Some Dead)) Committed;
           Op_Terminal (lit "t2") demo_call COMPLETED None (Some demo_usage) Committed Committed]
        !! 0%nat = Some k' /\ k_state k' = FAILED /\ k_usage k' = usage_fields (Some demo_usage).
Proof.
  destruct (first_call_outcome_wins
    [Op_Recover (lit "t1") demo_running (Some (Some Dead)) Committed;
     Op_Terminal (lit "t2") demo_call COMPLETED None (Some demo_usage) Committed Committed]
    [demo_running] 0%nat demo_running) as (k' & Hk & He).
  - constructor; [right; reflexivity|]. constructor; [exact I|constructor].
  - reflexivity.
  - exists k'. split; [exact Hk|]. vm_compute in Hk. injection Hk as <-. split; reflexivity.
Defined.

Lemma finished_usage_is_durable_witness :
  ∃ r p' rows', finish_success (Some demo_usage) (lit "t1") Committed Committed
                  (new_permit demo_call) [demo_running] = (r, p', rows') /\ ap_finished p' = true.
Proof.
  destruct (finish_success (Some demo_usage) (lit "t1") Committed Committed
              (new_permit demo_call) [demo_running]) as [[r p'] rows'] eqn:H.
  exists r, p', rows'. split; [reflexivity|].
  pose proof (finished_usage_is_durable demo_usage (lit "t1") Committed Committed
                (new_permit demo_call) [demo_running] r p' rows' eq_refl H) as HD.
  vm_compute in H. injection H as <- <- <-. exact (proj1 HD).
Defined.
