(* ===== verification/ToolCall.v ===== *)
(** * Tool calls

    [tool_call_lifecycle.rs], [tool_call_lifecycle/transition.rs] with [native.rs],
    [mode_policy.rs] and [bridge.rs], and [tool_call_lifecycle/query.rs]: the durable
    row of a tool call and the handle ([ToolCallLifecycle]) through which the owner of a
    request, an interrupt, a deadline sweep and a recovery race to settle it.

    A document is a finite map from column names to values, and the [input] object of
    a mutation is the list of columns it writes, so an absent column is left as it is.
    A mutation is one atomic filtered update or create that is committed, refused, or
    committed with an error reported ([CommitResult]).  Between a lost compare and the
    reload that follows it, other writers act ([en_between]). *)

From S2P Require Import Prelude RustStr RequestState Store ExecutionLease.

(** ** Vocabulary *)

Inductive ToolCallState : Type :=
| TS_Pending | TS_AwaitingApproval | TS_Running
| TS_Completed | TS_Failed | TS_TimedOut | TS_Cancelled.
#[global] Instance ToolCallState_eq_dec : EqDecision ToolCallState.
Proof. solve_decision. Defined.

Definition tool_state_as_str (s : ToolCallState) : str :=
  match s with
  | TS_Pending => lit "pending"
  | TS_AwaitingApproval => lit "awaitingApproval"
  | TS_Running => lit "running"
  | TS_Completed => lit "completed"
  | TS_Failed => lit "failed"
  | TS_TimedOut => lit "timedOut"
  | TS_Cancelled => lit "cancelled"
  end.

Definition tool_state_from_persisted (v : str) : option ToolCallState :=
  if str_eqb v (lit "pending") then Some TS_Pending
  else if str_eqb v (lit "awaitingApproval") then Some TS_AwaitingApproval
  else if str_eqb v (lit "running") then Some TS_Running
  else if str_eqb v (lit "completed") then Some TS_Completed
  else if str_eqb v (lit "failed") then Some TS_Failed
  else if str_eqb v (lit "timedOut") then Some TS_TimedOut
  else if str_eqb v (lit "cancelled") then Some TS_Cancelled
  else None.

Definition tool_state_is_terminal (s : ToolCallState) : bool :=
  match s with TS_Completed | TS_Failed | TS_TimedOut | TS_Cancelled => true | _ => false end.

Inductive FailureClass : Type :=
| ApprovalDenied | ArgumentInvalid | ServiceUnavailable | Transport
| ToolReturnedError | PolicyDenied | External.
#[global] Instance FailureClass_eq_dec : EqDecision FailureClass.
Proof. solve_decision. Defined.

Definition failure_class_as_str (c : FailureClass) : str :=
  match c with
  | ApprovalDenied => lit "approvalDenied"
  | ArgumentInvalid => lit "argumentInvalid"
  | ServiceUnavailable => lit "serviceUnavailable"
  | Transport => lit "transport"
  | ToolReturnedError => lit "toolReturnedError"
  | PolicyDenied => lit "policyDenied"
  | External => lit "external"
  end.

Definition failure_class_from_persisted (v : str) : option FailureClass :=
  if str_eqb v (lit "approvalDenied") then Some ApprovalDenied
  else if str_eqb v (lit "argumentInvalid") then Some ArgumentInvalid
  else if str_eqb v (lit "serviceUnavailable") then Some ServiceUnavailable
  else if str_eqb v (lit "transport") then Some Transport
  else if str_eqb v (lit "toolReturnedError") then Some ToolReturnedError
  else if str_eqb v (lit "policyDenied") then Some PolicyDenied
  else if str_eqb v (lit "external") then Some External
  else None.

Inductive AwaitMode : Type := Foreground | Background.
#[global] Instance AwaitMode_eq_dec : EqDecision AwaitMode.
Proof. solve_decision. Defined.

Definition await_mode_as_str (m : AwaitMode) : str :=
  match m with Foreground => lit "foreground" | Background => lit "background" end.
Definition await_mode_from_persisted (v : str) : option AwaitMode :=
  if str_eqb v (lit "foreground") then Some Foreground
  else if str_eqb v (lit "background") then Some Background
  else None.

Inductive CancelPolicy : Type := Cascade | Detach.
#[global] Instance CancelPolicy_eq_dec : EqDecision CancelPolicy.
Proof. solve_decision. Defined.

Definition cancel_policy_as_str (p : CancelPolicy) : str :=
  match p with Cascade => lit "cascade" | Detach => lit "detach" end.
Definition cancel_policy_from_persisted (v : str) : option CancelPolicy :=
  if str_eqb v (lit "cascade") then Some Cascade
  else if str_eqb v (lit "detach") then Some Detach
  else None.

Inductive CancelCause : Type := CC_Interrupted | CC_Deadline | CC_UserCancelled.
#[global] Instance CancelCause_eq_dec : EqDecision CancelCause.
Proof. solve_decision. Defined.

Definition cancel_cause_as_str (c : CancelCause) : str :=
  match c with
  | CC_Interrupted => lit "interrupted"
  | CC_Deadline => lit "deadline"
  | CC_UserCancelled => lit "userCancelled"
  end.
Definition cancel_cause_from_persisted (v : str) : option CancelCause :=
  if str_eqb v (lit "interrupted") then Some CC_Interrupted
  else if str_eqb v (lit "deadline") then Some CC_Deadline
  else if str_eqb v (lit "userCancelled") then Some CC_UserCancelled
  else None.

Inductive ChildTerminal : Type :=
| CT_Failed (reason : str) (failure_class : FailureClass)
| CT_Dead
| CT_Interrupted
| CT_Superseded.

Definition projected_state (t : ChildTerminal) : ToolCallState :=
  match t with CT_Interrupted => TS_Cancelled | _ => TS_Failed end.

(** ** Errors *)

Inductive IllegalToolCallTransition : Type :=
| BadState (method : string) (from : ToolCallState) (allowed : list ToolCallState)
| ModeAlreadyBackground
| ModeAlreadyForeground
| PolicyAlreadyDetach
| DetachRequiresChildLink
| BridgeCompleteRequiresChildLink
| BridgeFailureRequiresChildLink
| CascadeRequiresCancelled
| SubagentDepthExceeded
| ParentLinkageIncoherent
| NativeCompleteOnSubagentTool
| NativeFailOnSubagentTool.

Inductive ToolError : Type :=
| Illegal (t : IllegalToolCallTransition)
| TMsg (text : str).

(** [ok_or_else(|| anyhow!(..))?]. *)
Definition require {A} (m : string) (o : option A) : result ToolError A := ok_or (TMsg (lit m)) o.
(** [.context(..)?] on a mutation. *)
Definition mutation_context (method : string) : ToolError := TMsg (lit method ++ lit " mutation").

(** ** Documents *)

Inductive Val : Type :=
| VNull
| VStr (s : str)
| VInt (z : Z)
| VBool (b : bool)
| VList (l : list str).
#[global] Instance Val_eq_dec : EqDecision Val.
Proof. solve_decision. Defined.

Abbreviation Doc := (gmap string Val).
Abbreviation Input := (list (string * Val)).
Record ToolDoc : Type := { d_id : str; d_cols : Doc }.
Abbreviation ToolCalls := (list ToolDoc).

(** Columns of an [input] are distinct, so the order of their writes is immaterial. *)
Fixpoint write_columns (input : Input) (cols : Doc) : Doc :=
  match input with
  | [] => cols
  | (c, v) :: input => write_columns input (<[c := v]> cols)
  end.
Definition apply_input (input : Input) (d : ToolDoc) : ToolDoc :=
  {| d_id := d_id d; d_cols := write_columns input (d_cols d) |}.

Definition text (c : string) (d : ToolDoc) : option str :=
  match d_cols d !! c with Some (VStr s) => Some s | _ => None end.
Definition int (c : string) (d : ToolDoc) : option Z :=
  match d_cols d !! c with Some (VInt z) => Some z | _ => None end.
Definition opt_text (o : option str) : Val := match o with Some s => VStr s | None => VNull end.
Definition opt_list (o : option (list str)) : Val := match o with Some l => VList l | None => VNull end.

Definition text_is (c : string) (s : str) (d : ToolDoc) : bool := opt_eqb str_eqb (text c d) (Some s).
Definition in_state (s : ToolCallState) (d : ToolDoc) : bool :=
  text_is "lifecycle_state" (tool_state_as_str s) d.
Definition is_doc (id : str) (d : ToolDoc) : bool := str_eqb (d_id d) id.

(** ** The handle *)

Record SelectedToolIdentity : Type := { sel_service_id : str; sel_tool_name : str }.

(** The fields no transition writes. *)
Record ToolCallIdent : Type := {
  ti_request_id : str;
  ti_request_doc_id : option str;
  ti_session_id : str;
  ti_agent_did : str;
  ti_requester_did : option str;
  ti_tool_call_id : str;
  ti_message_sequence : Z;
  ti_tool_name : str;
  ti_args : str;
  ti_selected : option SelectedToolIdentity;
  ti_spawn_target_did : option str
}.

Record ToolCallLifecycle : Type := {
  tl_ident : ToolCallIdent;
  tl_doc_id : option str;
  tl_deadline_at : Z;
  tl_state : ToolCallState;
  tl_started_at : option Z;
  tl_failure_class : option FailureClass;
  tl_cancel_cause : option CancelCause;
  tl_await_mode : AwaitMode;
  tl_cancel_policy : CancelPolicy;
  tl_child_request_id : option str;
  tl_unclaimed_deadline_at : option Z
}.

(** The mutable fields, in the order of the struct. *)
Definition with_fields (self : ToolCallLifecycle) (doc_id : option str) (state : ToolCallState)
    (started_at : option Z) (failure_class : option FailureClass)
    (cancel_cause : option CancelCause) : ToolCallLifecycle :=
  {| tl_ident := tl_ident self; tl_doc_id := doc_id; tl_deadline_at := tl_deadline_at self;
     tl_state := state; tl_started_at := started_at; tl_failure_class := failure_class;
     tl_cancel_cause := cancel_cause; tl_await_mode := tl_await_mode self;
     tl_cancel_policy := tl_cancel_policy self; tl_child_request_id := tl_child_request_id self;
     tl_unclaimed_deadline_at := tl_unclaimed_deadline_at self |}.
Definition set_state (s : ToolCallState) (self : ToolCallLifecycle) : ToolCallLifecycle :=
  with_fields self (tl_doc_id self) s (tl_started_at self) (tl_failure_class self)
    (tl_cancel_cause self).
Definition set_failure (c : option FailureClass) (self : ToolCallLifecycle) : ToolCallLifecycle :=
  with_fields self (tl_doc_id self) (tl_state self) (tl_started_at self) c (tl_cancel_cause self).
Definition set_cause (c : option CancelCause) (self : ToolCallLifecycle) : ToolCallLifecycle :=
  with_fields self (tl_doc_id self) (tl_state self) (tl_started_at self) (tl_failure_class self) c.
Definition set_started (t : option Z) (self : ToolCallLifecycle) : ToolCallLifecycle :=
  with_fields self (tl_doc_id self) (tl_state self) t (tl_failure_class self) (tl_cancel_cause self).
Definition set_doc (id : str) (self : ToolCallLifecycle) : ToolCallLifecycle :=
  with_fields self (Some id) (tl_state self) (tl_started_at self) (tl_failure_class self)
    (tl_cancel_cause self).
Definition set_modes (m : AwaitMode) (p : CancelPolicy) (self : ToolCallLifecycle)
    : ToolCallLifecycle :=
  {| tl_ident := tl_ident self; tl_doc_id := tl_doc_id self; tl_deadline_at := tl_deadline_at self;
     tl_state := tl_state self; tl_started_at := tl_started_at self;
     tl_failure_class := tl_failure_class self; tl_cancel_cause := tl_cancel_cause self;
     tl_await_mode := m; tl_cancel_policy := p; tl_child_request_id := tl_child_request_id self;
     tl_unclaimed_deadline_at := tl_unclaimed_deadline_at self |}.

(** The constructors: all start [Pending], with nothing persisted. *)
Definition new_lifecycle (ident : ToolCallIdent) (deadline_at : Z) (m : AwaitMode)
    (p : CancelPolicy) (child : option str) : ToolCallLifecycle :=
  {| tl_ident := ident; tl_doc_id := None; tl_deadline_at := deadline_at; tl_state := TS_Pending;
     tl_started_at := None; tl_failure_class := None; tl_cancel_cause := None;
     tl_await_mode := m; tl_cancel_policy := p; tl_child_request_id := child;
     tl_unclaimed_deadline_at := None |}.
Definition new_ident (request_id session_id agent_did tool_call_id : str) (message_sequence : Z)
    (tool_name args : str) (spawn_target_did : option str) : ToolCallIdent :=
  {| ti_request_id := request_id; ti_request_doc_id := None; ti_session_id := session_id;
     ti_agent_did := agent_did; ti_requester_did := None; ti_tool_call_id := tool_call_id;
     ti_message_sequence := message_sequence; ti_tool_name := tool_name; ti_args := args;
     ti_selected := None; ti_spawn_target_did := spawn_target_did |}.
Definition new_native (request_id session_id agent_did tool_call_id : str) (message_sequence : Z)
    (tool_name args : str) (deadline_at : Z) : ToolCallLifecycle :=
  new_lifecycle (new_ident request_id session_id agent_did tool_call_id message_sequence tool_name
                   args None) deadline_at Foreground Cascade None.
Definition new_subagent (request_id session_id agent_did tool_call_id : str) (message_sequence : Z)
    (tool_name args : str) (deadline_at : Z) (m : AwaitMode) (p : CancelPolicy)
    (child_request_id spawn_target_did : str) : ToolCallLifecycle :=
  new_lifecycle (new_ident request_id session_id agent_did tool_call_id message_sequence tool_name
                   args (Some spawn_target_did)) deadline_at m p (Some child_request_id).
Definition new_background_tool (request_id session_id agent_did tool_call_id : str)
    (message_sequence : Z) (tool_name args : str) (deadline_at : Z) : ToolCallLifecycle :=
  new_lifecycle (new_ident request_id session_id agent_did tool_call_id message_sequence tool_name
                   args None) deadline_at Background Cascade None.

Definition set_ident (f : ToolCallIdent → ToolCallIdent) (self : ToolCallLifecycle)
    : ToolCallLifecycle :=
  {| tl_ident := f (tl_ident self); tl_doc_id := tl_doc_id self;
     tl_deadline_at := tl_deadline_at self; tl_state := tl_state self;
     tl_started_at := tl_started_at self; tl_failure_class := tl_failure_class self;
     tl_cancel_cause := tl_cancel_cause self; tl_await_mode := tl_await_mode self;
     tl_cancel_policy := tl_cancel_policy self; tl_child_request_id := tl_child_request_id self;
     tl_unclaimed_deadline_at := tl_unclaimed_deadline_at self |}.

Definition nonblank (s : str) : bool := negb (str_eqb (trim s) []).

Definition with_requester_did (did : option str) (self : ToolCallLifecycle) : ToolCallLifecycle :=
  set_ident (λ i, {| ti_request_id := ti_request_id i; ti_request_doc_id := ti_request_doc_id i;
     ti_session_id := ti_session_id i; ti_agent_did := ti_agent_did i;
     ti_requester_did := did ≫= (λ d, if nonblank d then Some (trim d) else None);
     ti_tool_call_id := ti_tool_call_id i; ti_message_sequence := ti_message_sequence i;
     ti_tool_name := ti_tool_name i; ti_args := ti_args i; ti_selected := ti_selected i;
     ti_spawn_target_did := ti_spawn_target_did i |}) self.
Definition with_request_doc_id (id : option str) (self : ToolCallLifecycle) : ToolCallLifecycle :=
  set_ident (λ i, {| ti_request_id := ti_request_id i; ti_request_doc_id := opt_filter nonblank id;
     ti_session_id := ti_session_id i; ti_agent_did := ti_agent_did i;
     ti_requester_did := ti_requester_did i; ti_tool_call_id := ti_tool_call_id i;
     ti_message_sequence := ti_message_sequence i; ti_tool_name := ti_tool_name i;
     ti_args := ti_args i; ti_selected := ti_selected i;
     ti_spawn_target_did := ti_spawn_target_did i |}) self.
Definition with_selected_tool_identity (sel : option (str * str)) (self : ToolCallLifecycle)
    : ToolCallLifecycle :=
  match sel with
  | None => self
  | Some (service_id, tool_name) =>
      set_ident (λ i, {| ti_request_id := ti_request_id i; ti_request_doc_id := ti_request_doc_id i;
        ti_session_id := ti_session_id i; ti_agent_did := ti_agent_did i;
        ti_requester_did := ti_requester_did i; ti_tool_call_id := ti_tool_call_id i;
        ti_message_sequence := ti_message_sequence i; ti_tool_name := ti_tool_name i;
        ti_args := ti_args i;
        ti_selected := Some {| sel_service_id := service_id; sel_tool_name := tool_name |};
        ti_spawn_target_did := ti_spawn_target_did i |}) self
  end.

Definition is_deadline_expired (now : Z) (self : ToolCallLifecycle) : bool :=
  tl_deadline_at self <=? now.
Definition is_subagent_bridge (self : ToolCallLifecycle) : bool :=
  bool_decide (is_Some (tl_child_request_id self)).
Definition is_background_tool_bridge (self : ToolCallLifecycle) : bool :=
  negb (is_subagent_bridge self) && bool_decide (tl_await_mode self = Background).
Definition is_bridge (self : ToolCallLifecycle) : bool :=
  is_subagent_bridge self || is_background_tool_bridge self.

Definition terminal_persistence_status (completion_reason : option str) (self : ToolCallLifecycle)
    : str :=
  if is_background_tool_bridge self then
    match completion_reason with
    | Some reason => lit "completionPending:" ++ reason
    | None => lit "completionPending"
    end
  else lit "completed".

Definition ensure_state (allowed : list ToolCallState) (method : string) (self : ToolCallLifecycle)
    : result ToolError unit :=
  if existsb (λ s, bool_decide (s = tl_state self)) allowed then Ok tt
  else Err (Illegal (BadState method (tl_state self) allowed)).

Definition set_unclaimed_deadline_at (t : option Z) (self : ToolCallLifecycle) : ToolCallLifecycle :=
  {| tl_ident := tl_ident self; tl_doc_id := tl_doc_id self; tl_deadline_at := tl_deadline_at self;
     tl_state := tl_state self; tl_started_at := tl_started_at self;
     tl_failure_class := tl_failure_class self; tl_cancel_cause := tl_cancel_cause self;
     tl_await_mode := tl_await_mode self; tl_cancel_policy := tl_cancel_policy self;
     tl_child_request_id := tl_child_request_id self; tl_unclaimed_deadline_at := t |}.

(** ** What a transition meets *)

(** [to_rfc3339_opts(Secs, true)] of [chrono], next to [to_rfc3339]: the text drops the
    fraction of the second. *)
Class ChronoSecs : Type := { to_rfc3339_secs : Z → str }.
Class ChronoSecsLaws `{Chrono} `{ChronoSecs} : Prop := {
  rfc3339_secs_roundtrip t : parse_from_rfc3339 (to_rfc3339_secs t) = Ok (t - t mod seconds 1)
}.

Record Env : Type := {
  en_now : Z;
  en_doc_id : str;
  en_commit : CommitResult;
  en_between : ToolCalls → ToolCalls;
  en_read : option Error;
  en_cascade_at : Z;
  en_child_did : str → result Error (option str)
}.

(** The columns of a command-policy denial, as its accessors render them. *)
Record CommandPolicyDenial : Type := {
  dn_contract : str;
  dn_argv : option (list str);
  dn_command : option str;
  dn_argument : option str;
  dn_subcommand : option str;
  dn_prefix : option (list str);
  dn_policy_mode : str;
  dn_policy_network : str
}.

Definition command_denial_fields (denial : option CommandPolicyDenial) : Input :=
  match denial with
  | None => []
  | Some d =>
      [("denial_reason", VStr (dn_contract d)); ("denied_argv", opt_list (dn_argv d));
       ("denied_command", opt_text (dn_command d)); ("denied_argument", opt_text (dn_argument d));
       ("denied_subcommand", opt_text (dn_subcommand d));
       ("denied_prefix", opt_list (dn_prefix d)); ("policy_mode", VStr (dn_policy_mode d));
       ("policy_network", VStr (dn_policy_network d))]
  end.

(** ** Store operations *)

Definition update_tool_calls (method : string) (p : ToolDoc → bool) (input : Input) (c : CommitResult)
    (rows : ToolCalls) : result ToolError bool * ToolCalls :=
  match c with
  | Committed => (Ok (existsb p rows), update_where p (apply_input input) rows)
  | Refused _ => (Err (mutation_context method), rows)
  | Ambiguous _ => (Err (mutation_context method), update_where p (apply_input input) rows)
  end.

Definition create_tool_call (method : string) (id : str) (input : Input) (c : CommitResult)
    (rows : ToolCalls) : result ToolError str * ToolCalls :=
  let row := {| d_id := id; d_cols := write_columns input ∅ |} in
  match c with
  | Committed => (Ok id, rows ++ [row])
  | Refused _ => (Err (mutation_context method), rows)
  | Ambiguous _ => (Err (mutation_context method), rows ++ [row])
  end.

Section lifecycle.
Context `{Chrono} `{ChronoSecs}.

(** ** Loading *)

Definition decode_selected_tool_identity (service_id tool_name : option str)
    : result ToolError (option SelectedToolIdentity) :=
  let bad := Err (TMsg (lit "AgentToolCall selected tool identity must contain both non-empty selected_service_id and selected_tool_name")) in
  match service_id, tool_name with
  | None, None => Ok None
  | Some s, Some t =>
      if nonblank s && nonblank t then Ok (Some {| sel_service_id := s; sel_tool_name := t |})
      else bad
  | _, _ => bad
  end.

Definition timestamp (c : string) (d : ToolDoc) : option Z :=
  text c d ≫= λ s, result_ok (parse_from_rfc3339 s).

(** The columns [serde] insists on; a row without them decodes as no row at all. *)
Definition decodable (d : ToolDoc) : bool :=
  is_some_and (λ z, (0 <=? z) && (z <=? u32_max)) (int "message_sequence" d)
  && bool_decide (is_Some (text "tool_name" d)) && bool_decide (is_Some (text "args" d)).

Definition nonempty (s : str) : bool := negb (str_eqb s []).

(** The fields of the loaded row, with the checks in the order of the source. *)
Definition decode_row (session_id tool_call_id : str) (d : ToolDoc)
    : result ToolError ToolCallLifecycle :=
  let? state := require "AgentToolCall is missing a valid lifecycle_state"
                  (text "lifecycle_state" d ≫= tool_state_from_persisted) in
  let? deadline_at := require "AgentToolCall is missing a valid deadline_at"
                        (timestamp "deadline_at" d) in
  let? await_mode := require "AgentToolCall is missing a valid await_mode"
                       (text "await_mode" d ≫= await_mode_from_persisted) in
  let? cancel_policy := require "AgentToolCall is missing a valid cancel_policy"
                          (text "cancel_policy" d ≫= cancel_policy_from_persisted) in
  let? selected := decode_selected_tool_identity (text "selected_service_id" d)
                     (text "selected_tool_name" d) in
  let? request_id := require "AgentToolCall is missing request_id"
                       (opt_filter nonblank (text "request_id" d)) in
  let? agent_did := require "AgentToolCall is missing agent_did"
                      (opt_filter nonblank (text "agent_did" d)) in
  Ok {| tl_ident :=
          {| ti_request_id := request_id;
             ti_request_doc_id := opt_filter nonblank (text "request_doc_id" d);
             ti_session_id := session_id; ti_agent_did := agent_did;
             ti_requester_did := opt_filter nonblank (text "requester_did" d);
             ti_tool_call_id := tool_call_id;
             ti_message_sequence := unwrap_or 0 (int "message_sequence" d);
             ti_tool_name := unwrap_or [] (text "tool_name" d);
             ti_args := unwrap_or [] (text "args" d);
             ti_selected := selected;
             ti_spawn_target_did := opt_filter nonempty (text "spawn_target_did" d) |};
        tl_doc_id := Some (d_id d); tl_deadline_at := deadline_at; tl_state := state;
        tl_started_at := timestamp "started_at" d;
        tl_failure_class := text "tool_failure_class" d ≫= failure_class_from_persisted;
        tl_cancel_cause := text "cancel_cause" d ≫= cancel_cause_from_persisted;
        tl_await_mode := await_mode; tl_cancel_policy := cancel_policy;
        tl_child_request_id := opt_filter nonempty (text "child_request_id" d);
        tl_unclaimed_deadline_at := timestamp "unclaimed_deadline_at" d |}.

Definition is_call (session_id tool_call_id : str) (d : ToolDoc) : bool :=
  text_is "session_id" session_id d && text_is "tool_call_id" tool_call_id d.

Definition load (session_id tool_call_id : str) (fault : option Error) (rows : ToolCalls)
    : result ToolError (option ToolCallLifecycle) :=
  match fault with
  | Some _ => Err (TMsg (lit "load AgentToolCall query failed"))
  | None =>
      match opt_filter decodable (List.find (is_call session_id tool_call_id) rows) with
      | None => Ok None
      | Some d => let? self := decode_row session_id tool_call_id d in Ok (Some self)
      end
  end.

(** [load_tool_call_result]. *)
Definition load_tool_call_result (session_id tool_call_id : str) (fault : option Error)
    (rows : ToolCalls) : result ToolError str :=
  match fault with
  | Some _ => Err (TMsg (lit "loading tool call result"))
  | None =>
      match List.find (text_is "tool_call_key" (session_id ++ lit ":" ++ tool_call_id)) rows with
      | None => Err (TMsg (lit "loading tool call result: no AgentToolCall"))
      | Some d => require "invalid type: null, expected a string" (text "result" d)
      end
  end.

(** ** Losing a compare *)

(** The fields every reload adopts, then those [sync_after_lost_held_compare] leaves. *)
Definition adopt (current self : ToolCallLifecycle) : ToolCallLifecycle :=
  {| tl_ident := tl_ident self; tl_doc_id := tl_doc_id current;
     tl_deadline_at := tl_deadline_at current; tl_state := tl_state current;
     tl_started_at := tl_started_at current; tl_failure_class := tl_failure_class current;
     tl_cancel_cause := tl_cancel_cause current; tl_await_mode := tl_await_mode current;
     tl_cancel_policy := tl_cancel_policy current;
     tl_child_request_id := tl_child_request_id current;
     tl_unclaimed_deadline_at := tl_unclaimed_deadline_at current |}.
Definition adopt_held (current self : ToolCallLifecycle) : ToolCallLifecycle :=
  {| tl_ident := tl_ident self; tl_doc_id := tl_doc_id current;
     tl_deadline_at := tl_deadline_at current; tl_state := tl_state current;
     tl_started_at := tl_started_at current; tl_failure_class := tl_failure_class current;
     tl_cancel_cause := tl_cancel_cause current; tl_await_mode := tl_await_mode self;
     tl_cancel_policy := tl_cancel_policy self;
     tl_child_request_id := tl_child_request_id self;
     tl_unclaimed_deadline_at := tl_unclaimed_deadline_at self |}.

Definition row_disappeared (method : string) : ToolError :=
  TMsg (lit method ++ lit " compare failed and AgentToolCall row disappeared").
Definition row_still (method : string) (what : string) : ToolError :=
  TMsg (lit method ++ lit " compare failed but AgentToolCall row is still " ++ lit what).

Definition reload (method : string) (fault : option Error) (self : ToolCallLifecycle)
    (rows : ToolCalls) : result ToolError ToolCallLifecycle :=
  let? current := load (ti_session_id (tl_ident self)) (ti_tool_call_id (tl_ident self)) fault rows in
  ok_or (row_disappeared method) current.

Definition sync_after_lost_running_compare (method : string) (fault : option Error)
    (rows : ToolCalls) (self : ToolCallLifecycle) : result ToolError ToolCallLifecycle :=
  let? current := reload method fault self rows in
  if bool_decide (tl_state current = TS_Running) then Err (row_still method "running")
  else Ok (adopt current self).

Definition sync_after_lost_mode_compare (method : string) (target : AwaitMode) (fault : option Error)
    (rows : ToolCalls) (self : ToolCallLifecycle) : result ToolError ToolCallLifecycle :=
  let? current := reload method fault self rows in
  if bool_decide (tl_state current = TS_Running) && negb (bool_decide (tl_await_mode current = target))
  then Err (row_still method "running in another mode")
  else Ok (adopt current self).

Definition sync_after_lost_held_compare (method : string) (fault : option Error)
    (rows : ToolCalls) (self : ToolCallLifecycle) : result ToolError ToolCallLifecycle :=
  let? current := reload method fault self rows in
  if bool_decide (tl_state current = TS_AwaitingApproval)
  then Err (row_still method "awaitingApproval")
  else Ok (adopt_held current self).

(** ** Transitions *)

Definition Outcome (A : Type) : Type := result ToolError A * ToolCallLifecycle * ToolCalls.

Definition guarded {A B} (c : result ToolError A) (self : ToolCallLifecycle) (rows : ToolCalls)
    (k : A → Outcome B) : Outcome B :=
  match c with Ok a => k a | Err e => (Err e, self, rows) end.
Definition forget_won (o : Outcome bool) : Outcome unit :=
  let '(r, self, rows) := o in (let? _ := r in Ok tt, self, rows).

(** The compare-and-set every settling transition ends with: a filtered update; the
    winner changes its fields, a loser reloads. *)
Definition compare_and_set (method : string) (p : ToolDoc → bool) (input : Input)
    (won : ToolCallLifecycle → ToolCallLifecycle)
    (sync : ToolCalls → ToolCallLifecycle → result ToolError ToolCallLifecycle)
    (env : Env) (self : ToolCallLifecycle) (rows : ToolCalls) : Outcome bool :=
  let '(r, rows) := update_tool_calls method p input (en_commit env) rows in
  match r with
  | Err e => (Err e, self, rows)
  | Ok true => (Ok true, won self, rows)
  | Ok false =>
      let rows := en_between env rows in
      match sync rows self with
      | Err e => (Err e, self, rows)
      | Ok self => (Ok false, self, rows)
      end
  end.

Definition create_row (method : string) (input : Input)
    (won : ToolCallLifecycle → ToolCallLifecycle) (env : Env) (self : ToolCallLifecycle)
    (rows : ToolCalls) : Outcome unit :=
  let '(r, rows) := create_tool_call method (en_doc_id env) input (en_commit env) rows in
  match r with
  | Err e => (Err e, self, rows)
  | Ok id => (Ok tt, won (set_doc id self), rows)
  end.

Definition requester_did_field (did : option str) : Input :=
  match opt_filter nonempty (trim <$> did) with
  | Some d => [("requester_did", VStr d)] | None => [] end.
Definition request_doc_id_field (id : option str) : Input :=
  match opt_filter nonempty (trim <$> id) with
  | Some d => [("request_doc_id", VStr d)] | None => [] end.
Definition selected_tool_fields (sel : option SelectedToolIdentity) : Input :=
  match sel with
  | Some s => [("selected_service_id", VStr (sel_service_id s));
               ("selected_tool_name", VStr (sel_tool_name s))]
  | None => [("selected_service_id", VNull); ("selected_tool_name", VNull)]
  end.

(** The columns every create writes. *)
Definition identity_fields (self : ToolCallLifecycle) : Input :=
  let i := tl_ident self in
  [("tool_call_key", VStr (ti_session_id i ++ lit ":" ++ ti_tool_call_id i));
   ("request_id", VStr (ti_request_id i))]
  ++ request_doc_id_field (ti_request_doc_id i)
  ++ [("session_id", VStr (ti_session_id i)); ("agent_did", VStr (ti_agent_did i))]
  ++ requester_did_field (ti_requester_did i)
  ++ [("message_sequence", VInt (ti_message_sequence i)); ("tool_name", VStr (ti_tool_name i));
      ("tool_call_id", VStr (ti_tool_call_id i)); ("args", VStr (ti_args i))].

Definition opt_field (c : string) (o : option str) : Input :=
  match o with Some s => [(c, VStr s)] | None => [] end.

Definition state_field (s : ToolCallState) : Input :=
  [("lifecycle_state"%string, VStr (tool_state_as_str s))].

Definition start_running_input (env : Env) (self : ToolCallLifecycle) : Input :=
  identity_fields self
  ++ [("result", VStr []); ("status", VStr (lit "called"))]
  ++ state_field TS_Running
  ++ [("started_at", VStr (to_rfc3339 (en_now env)));
      ("deadline_at", VStr (to_rfc3339 (tl_deadline_at self)))]
  ++ opt_field "child_request_id" (tl_child_request_id self)
  ++ opt_field "spawn_target_did" (ti_spawn_target_did (tl_ident self))
  ++ opt_field "unclaimed_deadline_at" (to_rfc3339_secs <$> tl_unclaimed_deadline_at self)
  ++ [("await_mode", VStr (await_mode_as_str (tl_await_mode self)));
      ("cancel_policy", VStr (cancel_policy_as_str (tl_cancel_policy self)))]
  ++ selected_tool_fields (ti_selected (tl_ident self))
  ++ [("tool_failure_class", VNull); ("latency_ms", VNull)].

Definition start_running (env : Env) (self : ToolCallLifecycle) (rows : ToolCalls) : Outcome unit :=
  if bool_decide (tl_state self = TS_Running) then (Ok tt, self, rows)
  else
    guarded (ensure_state [TS_Pending] "start_running" self) self rows (λ _,
      create_row "start_running" (start_running_input env self)
        (λ self, set_started (Some (en_now env)) (set_state TS_Running self)) env self rows).

Definition spawn_failed_with_details (failure : FailureClass) (reason : str)
    (denial : option CommandPolicyDenial) (env : Env) (self : ToolCallLifecycle) (rows : ToolCalls)
    : Outcome unit :=
  guarded (ensure_state [TS_Pending] "spawn_failed" self) self rows (λ _,
    create_row "spawn_failed"
      (identity_fields self
       ++ [("result", VStr reason); ("status", VStr (lit "completed"))]
       ++ state_field TS_Failed
       ++ [("started_at", VNull); ("deadline_at", VStr (to_rfc3339 (tl_deadline_at self)));
           ("completed_at", VStr (to_rfc3339 (en_now env)));
           ("tool_failure_class", VStr (failure_class_as_str failure))]
       ++ command_denial_fields denial
       ++ selected_tool_fields (ti_selected (tl_ident self))
       ++ [("latency_ms", VInt 0)])
      (λ self, set_failure (Some failure) (set_state TS_Failed self)) env self rows).

Definition spawn_failed (failure : FailureClass) (reason : str) := spawn_failed_with_details failure reason None.
Definition spawn_failed_with_command_denial (reason : str) (denial : CommandPolicyDenial) :=
  spawn_failed_with_details PolicyDenied reason (Some denial).

Definition cancel_before_dispatch (cause : CancelCause) (env : Env) (self : ToolCallLifecycle)
    (rows : ToolCalls) : Outcome unit :=
  guarded (ensure_state [TS_Pending] "cancel_before_dispatch" self) self rows (λ _,
    create_row "cancel_before_dispatch"
      (identity_fields self
       ++ [("result", VStr (lit "tool call cancelled before dispatch"));
           ("status", VStr (lit "completed"))]
       ++ state_field TS_Cancelled
       ++ [("cancel_cause", VStr (cancel_cause_as_str cause)); ("started_at", VNull);
           ("deadline_at", VStr (to_rfc3339 (tl_deadline_at self)));
           ("completed_at", VStr (to_rfc3339 (en_now env)))]
       ++ selected_tool_fields (ti_selected (tl_ident self))
       ++ [("latency_ms", VInt 0)])
      (λ self, set_cause (Some cause) (set_state TS_Cancelled self)) env self rows).

Definition hold_for_approval_input (self : ToolCallLifecycle) : Input :=
  identity_fields self
  ++ [("result", VStr []); ("status", VStr (lit "called"))]
  ++ state_field TS_AwaitingApproval
  ++ [("started_at", VNull); ("deadline_at", VStr (to_rfc3339 (tl_deadline_at self)))]
  ++ selected_tool_fields (ti_selected (tl_ident self))
  ++ [("tool_failure_class", VNull); ("latency_ms", VNull)].

Definition hold_for_approval (env : Env) (self : ToolCallLifecycle) (rows : ToolCalls) : Outcome unit :=
  if bool_decide (tl_state self = TS_AwaitingApproval) then (Ok tt, self, rows)
  else
    guarded (ensure_state [TS_Pending] "hold_for_approval" self) self rows (λ _,
      create_row "hold_for_approval" (hold_for_approval_input self)
        (set_state TS_AwaitingApproval) env self rows).

(** The row identifier and the start of a call the handle believes is running. *)
Definition running_row (method : string) (self : ToolCallLifecycle) : result ToolError (str * Z) :=
  let? doc_id := ok_or (TMsg (lit method ++ lit " called before start_running persisted a row"))
                   (tl_doc_id self) in
  let? started_at := ok_or (TMsg (lit method ++ lit " called without started_at set"))
                       (tl_started_at self) in
  Ok (doc_id, started_at).
Definition held_row (method : string) (self : ToolCallLifecycle) : result ToolError str :=
  ok_or (TMsg (lit method ++ lit " called before hold_for_approval persisted a row"))
    (tl_doc_id self).

Definition clear_unclaimed_deadline (self : ToolCallLifecycle) : Input :=
  match tl_unclaimed_deadline_at self with
  | Some _ => [("unclaimed_deadline_at", VNull)] | None => [] end.
Definition resupply_unclaimed_deadline (self : ToolCallLifecycle) : Input :=
  opt_field "unclaimed_deadline_at" (to_rfc3339_secs <$> tl_unclaimed_deadline_at self).

(** [num_milliseconds] of a difference of instants. *)
Definition latency_ms (now started_at : Z) : Z := Z.quot (now - started_at) (milliseconds 1).

(** The columns a settled running call writes beside its verdict. *)
Definition settled_fields (env : Env) (started_at : Z) (self : ToolCallLifecycle) : Input :=
  [("started_at", VStr (to_rfc3339 started_at));
   ("deadline_at", VStr (to_rfc3339 (tl_deadline_at self)));
   ("completed_at", VStr (to_rfc3339 (en_now env)));
   ("latency_ms", VInt (latency_ms (en_now env) started_at))]
  ++ clear_unclaimed_deadline self.
(** And a settled held call. *)
Definition held_settled_fields (env : Env) (self : ToolCallLifecycle) : Input :=
  [("deadline_at", VStr (to_rfc3339 (tl_deadline_at self)));
   ("completed_at", VStr (to_rfc3339 (en_now env))); ("latency_ms", VInt 0)].

Definition is_row_in (s : ToolCallState) (doc_id : str) (d : ToolDoc) : bool :=
  is_doc doc_id d && in_state s d.

Definition running_compare (method : string) (doc_id : str) (input : Input)
    (won : ToolCallLifecycle → ToolCallLifecycle) (env : Env) : ToolCallLifecycle → ToolCalls → Outcome bool :=
  compare_and_set method (is_row_in TS_Running doc_id) input won
    (sync_after_lost_running_compare method (en_read env)) env.
Definition held_compare (method : string) (doc_id : str) (input : Input)
    (won : ToolCallLifecycle → ToolCallLifecycle) (env : Env) : ToolCallLifecycle → ToolCalls → Outcome bool :=
  compare_and_set method (is_row_in TS_AwaitingApproval doc_id) input won
    (sync_after_lost_held_compare method (en_read env)) env.

Definition complete (result : str) (env : Env) (self : ToolCallLifecycle) (rows : ToolCalls)
    : Outcome unit :=
  guarded (let? _ := ensure_state [TS_Running] "complete" self in
           let? _ := ensure (negb (is_bridge self)) (Illegal NativeCompleteOnSubagentTool) in
           running_row "complete" self) self rows (λ '(doc_id, started_at),
    forget_won (running_compare "complete" doc_id
      ([("result", VStr result); ("status", VStr (lit "completed"))]
       ++ state_field TS_Completed ++ settled_fields env started_at self)
      (set_state TS_Completed) env self rows)).

Definition fail_with_details (result : str) (failure : FailureClass)
    (denial : option CommandPolicyDenial) (env : Env) (self : ToolCallLifecycle) (rows : ToolCalls)
    : Outcome unit :=
  guarded (let? _ := ensure_state [TS_Running] "fail" self in
           let? _ := ensure (negb (is_bridge self)) (Illegal NativeFailOnSubagentTool) in
           running_row "fail" self) self rows (λ '(doc_id, started_at),
    forget_won (running_compare "fail" doc_id
      ([("result", VStr result); ("status", VStr (lit "completed"))]
       ++ state_field TS_Failed
       ++ [("tool_failure_class", VStr (failure_class_as_str failure))]
       ++ command_denial_fields denial ++ settled_fields env started_at self)
      (λ self, set_failure (Some failure) (set_state TS_Failed self)) env self rows)).
Definition fail (result : str) (failure : FailureClass) := fail_with_details result failure None.
Definition fail_with_command_denial (result : str) (denial : CommandPolicyDenial) :=
  fail_with_details result PolicyDenied (Some denial).

Definition timeout (env : Env) (self : ToolCallLifecycle) (rows : ToolCalls) : Outcome bool :=
  guarded (let? _ := ensure_state [TS_Running] "timeout" self in
           running_row "timeout" self) self rows (λ '(doc_id, started_at),
    running_compare "timeout" doc_id
      ([("result", VStr (lit "tool call deadline exceeded at " ++ to_rfc3339 (tl_deadline_at self)));
        ("status", VStr (lit "completed"))]
       ++ state_field TS_TimedOut
       ++ [("tool_failure_class", VStr (failure_class_as_str External));
           ("cancel_cause", VStr (cancel_cause_as_str CC_Deadline))]
       ++ settled_fields env started_at self)
      (λ self, set_cause (Some CC_Deadline) (set_failure (Some External) (set_state TS_TimedOut self)))
      env self rows).

(** ** Held calls *)

Definition approve_and_start (env : Env) (self : ToolCallLifecycle) (rows : ToolCalls) : Outcome bool :=
  guarded (let? _ := ensure_state [TS_AwaitingApproval] "approve_and_start" self in
           held_row "approve_and_start" self) self rows (λ doc_id,
    held_compare "approve_and_start" doc_id
      (state_field TS_Running
       ++ [("started_at", VStr (to_rfc3339 (en_now env)));
           ("deadline_at", VStr (to_rfc3339 (tl_deadline_at self)))])
      (λ self, set_started (Some (en_now env)) (set_state TS_Running self)) env self rows).

Definition deny_approval (reason : str) (env : Env) (self : ToolCallLifecycle) (rows : ToolCalls)
    : Outcome bool :=
  guarded (let? _ := ensure_state [TS_AwaitingApproval] "deny_approval" self in
           held_row "deny_approval" self) self rows (λ doc_id,
    held_compare "deny_approval" doc_id
      ([("result", VStr reason); ("status", VStr (lit "completed"))]
       ++ state_field TS_Failed
       ++ [("tool_failure_class", VStr (failure_class_as_str ApprovalDenied))]
       ++ held_settled_fields env self)
      (λ self, set_failure (Some ApprovalDenied) (set_state TS_Failed self)) env self rows).

Definition cancel_while_held (cause : CancelCause) (env : Env) (self : ToolCallLifecycle)
    (rows : ToolCalls) : Outcome bool :=
  guarded (let? _ := ensure_state [TS_AwaitingApproval] "cancel_while_held" self in
           held_row "cancel_while_held" self) self rows (λ doc_id,
    held_compare "cancel_while_held" doc_id
      ([("result", VStr (lit "tool call cancelled while awaiting approval"));
        ("status", VStr (lit "completed"))]
       ++ state_field TS_Cancelled
       ++ [("cancel_cause", VStr (cancel_cause_as_str cause))]
       ++ held_settled_fields env self)
      (λ self, set_cause (Some cause) (set_state TS_Cancelled self)) env self rows).

Definition timeout_while_held (env : Env) (self : ToolCallLifecycle) (rows : ToolCalls) : Outcome bool :=
  guarded (let? _ := ensure_state [TS_AwaitingApproval] "timeout_while_held" self in
           held_row "timeout_while_held" self) self rows (λ doc_id,
    held_compare "timeout_while_held" doc_id
      ([("result", VStr (lit "tool call approval deadline exceeded at "
                         ++ to_rfc3339 (tl_deadline_at self)));
        ("status", VStr (lit "completed"))]
       ++ state_field TS_TimedOut
       ++ [("tool_failure_class", VStr (failure_class_as_str External));
           ("cancel_cause", VStr (cancel_cause_as_str CC_Deadline))]
       ++ held_settled_fields env self)
      (λ self, set_cause (Some CC_Deadline) (set_failure (Some External) (set_state TS_TimedOut self)))
      env self rows).

(** ** Mode and policy flips *)

Definition flip_mode (method : string) (from to : AwaitMode) (already : IllegalToolCallTransition)
    (env : Env) (self : ToolCallLifecycle) (rows : ToolCalls) : Outcome unit :=
  guarded (let? _ := ensure_state [TS_Running] method self in
           let? _ := ensure (negb (bool_decide (tl_await_mode self = to))) (Illegal already) in
           running_row method self) self rows (λ '(doc_id, started_at),
    forget_won (compare_and_set method
      (λ d, is_row_in TS_Running doc_id d && text_is "await_mode" (await_mode_as_str from) d)
      ([("await_mode", VStr (await_mode_as_str to)); ("started_at", VStr (to_rfc3339 started_at));
        ("deadline_at", VStr (to_rfc3339 (tl_deadline_at self)))]
       ++ resupply_unclaimed_deadline self)
      (λ self, set_modes to (tl_cancel_policy self) self)
      (sync_after_lost_mode_compare method to (en_read env)) env self rows)).
Definition background := flip_mode "background" Foreground Background ModeAlreadyBackground.
Definition foreground := flip_mode "foreground" Background Foreground ModeAlreadyForeground.

Definition detach (env : Env) (self : ToolCallLifecycle) (rows : ToolCalls) : Outcome unit :=
  guarded (let? _ := ensure_state [TS_Pending; TS_Running] "detach" self in
           let? _ := ensure (negb (bool_decide (tl_cancel_policy self = Detach)))
                       (Illegal PolicyAlreadyDetach) in
           let? _ := ensure (is_subagent_bridge self) (Illegal DetachRequiresChildLink) in
           require "doc_id must be set before policy-flip" (tl_doc_id self)) self rows (λ doc_id,
    let '(r, rows) :=
      update_tool_calls "detach" (is_doc doc_id)
        ([("cancel_policy", VStr (cancel_policy_as_str Detach));
          ("deadline_at", VStr (to_rfc3339 (tl_deadline_at self)))]
         ++ opt_field "started_at" (to_rfc3339 <$> tl_started_at self)
         ++ resupply_unclaimed_deadline self) (en_commit env) rows in
    match r with
    | Err e => (Err e, self, rows)
    | Ok _ => (Ok tt, set_modes (tl_await_mode self) Detach self, rows)
    end).

(** ** Bridges *)

Definition bridge_complete (child_result : str) (env : Env) (self : ToolCallLifecycle)
    (rows : ToolCalls) : Outcome bool :=
  guarded (let? _ := ensure_state [TS_Running] "bridge_complete" self in
           let? _ := ensure (is_bridge self) (Illegal BridgeCompleteRequiresChildLink) in
           running_row "bridge_complete" self) self rows (λ '(doc_id, started_at),
    running_compare "bridge_complete" doc_id
      ([("result", VStr child_result); ("status", VStr (terminal_persistence_status None self))]
       ++ state_field TS_Completed ++ settled_fields env started_at self)
      (set_state TS_Completed) env self rows).

Definition bridge_failure_with_completion_reason (child_terminal : ChildTerminal)
    (completion_reason : str) (env : Env) (self : ToolCallLifecycle) (rows : ToolCalls)
    : Outcome bool :=
  let projected := projected_state child_terminal in
  let cause := if bool_decide (projected = TS_Cancelled) then Some CC_Interrupted else None in
  let failure_class := match child_terminal with CT_Failed _ fc => Some fc | _ => None end in
  guarded (let? _ := ensure_state [TS_Running] "bridge_failure" self in
           let? _ := ensure (is_bridge self) (Illegal BridgeFailureRequiresChildLink) in
           running_row "bridge_failure" self) self rows (λ '(doc_id, started_at),
    running_compare "bridge_failure" doc_id
      (match child_terminal with
       | CT_Failed reason fc =>
           [("result", VStr reason); ("tool_failure_class", VStr (failure_class_as_str fc))]
       | _ => []
       end
       ++ opt_field "cancel_cause" (cancel_cause_as_str <$> cause)
       ++ [("status", VStr (terminal_persistence_status (Some completion_reason) self))]
       ++ state_field projected ++ settled_fields env started_at self)
      (λ self, set_cause cause (set_failure failure_class (set_state projected self)))
      env self rows).

Definition bridge_failure (child_terminal : ChildTerminal) : Env → ToolCallLifecycle → ToolCalls → Outcome bool :=
  bridge_failure_with_completion_reason child_terminal
    match child_terminal with
    | CT_Dead => lit "deadline_exceeded"
    | CT_Interrupted => lit "explicit_cancel"
    | CT_Failed _ _ | CT_Superseded => lit "tool_failed"
    end.

Record CascadeIntent : Type := { ci_child_request_id : str; ci_at : Z }.
Inductive CascadeDispatch : Type := CD_Local (intent : CascadeIntent) | CD_RemoteIntentWritten.

Definition bridge_cancel_cascade (env : Env) (self : ToolCallLifecycle)
    : result ToolError (option CascadeIntent) :=
  if negb (bool_decide (tl_state self = TS_Cancelled)) then Err (Illegal CascadeRequiresCancelled)
  else if negb (bool_decide (tl_cancel_policy self = Cascade)) then Ok None
  else Ok ((λ c, {| ci_child_request_id := c; ci_at := en_cascade_at env |})
             <$> tl_child_request_id self).

Definition child_request_is_locally_owned (env : Env) (local_did child_request_id : str)
    : result ToolError bool :=
  match en_child_did env child_request_id with
  | Err _ => Err (TMsg (lit "query AgentRequest for cross-deployment cancel dispatch failed"))
  | Ok did => Ok (opt_eqb str_eqb did (Some local_did))
  end.

Definition write_bridge_cancel_cascade_intent (at_ : Z) (env : Env) (self : ToolCallLifecycle)
    (rows : ToolCalls) : result ToolError unit * ToolCalls :=
  match (let? doc_id := require "bridge_cancel_cascade_dispatch called before row was persisted"
                          (tl_doc_id self) in
         let? started_at := require "bridge_cancel_cascade_dispatch called without started_at set"
                              (tl_started_at self) in Ok (doc_id, started_at)) with
  | Err e => (Err e, rows)
  | Ok (doc_id, started_at) =>
      let '(r, rows) :=
        update_tool_calls "write bridge cancel cascade intent" (is_doc doc_id)
          ([("started_at", VStr (to_rfc3339_secs started_at));
            ("deadline_at", VStr (to_rfc3339_secs (tl_deadline_at self)));
            ("completed_at", VStr (to_rfc3339_secs at_));
            ("cancel_cascade_intent_at", VStr (to_rfc3339_secs at_));
            ("cancel_pending_remote_ack", VBool true)]
           ++ clear_unclaimed_deadline self) (en_commit env) rows in
      (let? _ := r in Ok tt, rows)
  end.

Definition bridge_cancel_cascade_dispatch (local_did : str) (env : Env) (self : ToolCallLifecycle)
    (rows : ToolCalls) : result ToolError (option CascadeDispatch) * ToolCalls :=
  match bridge_cancel_cascade env self with
  | Err e => (Err e, rows)
  | Ok None => (Ok None, rows)
  | Ok (Some intent) =>
      match child_request_is_locally_owned env local_did (ci_child_request_id intent) with
      | Err e => (Err e, rows)
      | Ok true => (Ok (Some (CD_Local intent)), rows)
      | Ok false =>
          let '(r, rows) := write_bridge_cancel_cascade_intent (ci_at intent) env self rows in
          (let? _ := r in Ok (Some CD_RemoteIntentWritten), rows)
      end
  end.

Definition cancel_during_run_inner (cause : CancelCause) (remote_cancel_intent_at : option Z)
    (completion_reason_override : option str) (env : Env) (self : ToolCallLifecycle)
    (rows : ToolCalls) : Outcome bool :=
  guarded (let? _ := ensure_state [TS_Running] "cancel_during_run" self in
           running_row "cancel_during_run" self) self rows (λ '(doc_id, started_at),
    let completion_reason :=
      unwrap_or match cause with
                | CC_Deadline => lit "deadline_exceeded"
                | CC_Interrupted => lit "parent_interrupted"
                | CC_UserCancelled => lit "explicit_cancel"
                end completion_reason_override in
    running_compare "cancel_during_run" doc_id
      ([("result", VStr (lit "tool call cancelled"));
        ("status", VStr (terminal_persistence_status (Some completion_reason) self))]
       ++ state_field TS_Cancelled
       ++ [("cancel_cause", VStr (cancel_cause_as_str cause))]
       ++ match remote_cancel_intent_at with
          | Some at_ => [("cancel_cascade_intent_at", VStr (to_rfc3339 at_));
                         ("cancel_pending_remote_ack", VBool true)]
          | None => []
          end
       ++ settled_fields env started_at self)
      (λ self, set_cause (Some cause) (set_state TS_Cancelled self)) env self rows).
Definition cancel_during_run (cause : CancelCause) := cancel_during_run_inner cause None None.
Definition cancel_during_run_owned (cause : CancelCause) (completion_reason : str) :=
  cancel_during_run_inner cause None (Some completion_reason).

Definition map_won {A} (f : bool → A) (o : Outcome bool) : Outcome A :=
  let '(r, self, rows) := o in (let? won := r in Ok (f won), self, rows).

Definition cancel_during_run_with_cascade_dispatch (cause : CancelCause) (local_did : str)
    (env : Env) (self : ToolCallLifecycle) (rows : ToolCalls) : Outcome (option CascadeDispatch) :=
  guarded (ensure_state [TS_Running] "cancel_during_run_with_cascade_dispatch" self) self rows (λ _,
    let plain := map_won (λ _, None) (cancel_during_run_inner cause None None env self rows) in
    match tl_child_request_id self with
    | None => plain
    | Some child_request_id =>
        if negb (bool_decide (tl_cancel_policy self = Cascade)) then plain
        else
          let intent := {| ci_child_request_id := child_request_id; ci_at := en_cascade_at env |} in
          guarded (child_request_is_locally_owned env local_did child_request_id) self rows (λ local,
            if local then
              map_won (λ won, if (won : bool) then Some (CD_Local intent) else None)
                (cancel_during_run_inner cause None None env self rows)
            else
              map_won (λ won, if (won : bool) then Some CD_RemoteIntentWritten else None)
                (cancel_during_run_inner cause (Some (ci_at intent)) None env self rows))
    end).

(** ** Every writer of the collection *)

Inductive ToolOp : Type :=
| TO_StartRunning
| TO_Complete (result : str)
| TO_Fail (result : str) (failure : FailureClass) (denial : option CommandPolicyDenial)
| TO_SpawnFailed (failure : FailureClass) (reason : str) (denial : option CommandPolicyDenial)
| TO_Timeout
| TO_CancelBeforeDispatch (cause : CancelCause)
| TO_Hold
| TO_Approve
| TO_Deny (reason : str)
| TO_CancelHeld (cause : CancelCause)
| TO_TimeoutHeld
| TO_Background
| TO_Foreground
| TO_Detach
| TO_BridgeComplete (child_result : str)
| TO_BridgeFailure (child_terminal : ChildTerminal) (completion_reason : str)
| TO_DispatchCascade (local_did : str)
| TO_CancelRun (cause : CancelCause) (remote_at : option Z) (reason : option str)
| TO_CancelCascade (cause : CancelCause) (local_did : str).

(** The transitions that settle a running call and report whether they won. *)
Definition settles (o : ToolOp) : bool :=
  match o with
  | TO_Timeout | TO_BridgeComplete _ | TO_BridgeFailure _ _ | TO_CancelRun _ _ _ => true
  | _ => false
  end.

(** Some transitions report only completion, which counts as no claim to have won. *)
Definition as_won {A} (o : Outcome A) : Outcome bool :=
  let '(r, self, rows) := o in (let? _ := r in Ok false, self, rows).

Definition exec_op (o : ToolOp) (env : Env) (self : ToolCallLifecycle) (rows : ToolCalls)
    : Outcome bool :=
  match o with
  | TO_StartRunning => as_won (start_running env self rows)
  | TO_Complete result => as_won (complete result env self rows)
  | TO_Fail result failure denial => as_won (fail_with_details result failure denial env self rows)
  | TO_SpawnFailed failure reason denial =>
      as_won (spawn_failed_with_details failure reason denial env self rows)
  | TO_Timeout => timeout env self rows
  | TO_CancelBeforeDispatch cause => as_won (cancel_before_dispatch cause env self rows)
  | TO_Hold => as_won (hold_for_approval env self rows)
  | TO_Approve => approve_and_start env self rows
  | TO_Deny reason => deny_approval reason env self rows
  | TO_CancelHeld cause => cancel_while_held cause env self rows
  | TO_TimeoutHeld => timeout_while_held env self rows
  | TO_Background => as_won (background env self rows)
  | TO_Foreground => as_won (foreground env self rows)
  | TO_Detach => as_won (detach env self rows)
  | TO_BridgeComplete child_result => bridge_complete child_result env self rows
  | TO_BridgeFailure t reason => bridge_failure_with_completion_reason t reason env self rows
  | TO_DispatchCascade local_did =>
      let '(r, rows) := bridge_cancel_cascade_dispatch local_did env self rows in
      as_won (r, self, rows)
  | TO_CancelRun cause remote_at reason => cancel_during_run_inner cause remote_at reason env self rows
  | TO_CancelCascade cause local_did =>
      as_won (cancel_during_run_with_cascade_dispatch cause local_did env self rows)
  end.

(** One action of the system: some handle, however stale, runs one transition. *)
Record Action : Type := { ac_self : ToolCallLifecycle; ac_op : ToolOp; ac_env : Env }.
Definition act (a : Action) (rows : ToolCalls) : Outcome bool :=
  exec_op (ac_op a) (ac_env a) (ac_self a) rows.

Fixpoint run_actions (l : list Action) (rows : ToolCalls) : list (result ToolError bool) * ToolCalls :=
  match l with
  | [] => ([], rows)
  | a :: l =>
      let '(r, _, rows) := act a rows in
      let '(rs, rows) := run_actions l rows in (r :: rs, rows)
  end.

(** ** The state machine of a row *)

Definition row_state (d : ToolDoc) : option ToolCallState :=
  text "lifecycle_state" d ≫= tool_state_from_persisted.
Definition settled (d : ToolDoc) : bool := is_some_and tool_state_is_terminal (row_state d).

(** The edges the transitions implement on a persisted row. *)
Definition edge (a b : ToolCallState) : bool :=
  match a, b with
  | TS_AwaitingApproval, (TS_Running | TS_Failed | TS_Cancelled | TS_TimedOut) => true
  | TS_Running, (TS_Completed | TS_Failed | TS_Cancelled | TS_TimedOut) => true
  | _, _ => false
  end.

(** The columns that say how a call ended. *)
Definition verdict_columns : list string :=
  ["lifecycle_state"; "result"; "tool_failure_class"; "cancel_cause"; "latency_ms"].
(** The columns that say which call it is. *)
Definition identity_columns : list string :=
  ["tool_call_key"; "request_id"; "request_doc_id"; "session_id"; "agent_did"; "requester_did";
   "message_sequence"; "tool_name"; "tool_call_id"; "args"; "child_request_id"; "spawn_target_did";
   "selected_service_id"; "selected_tool_name"].

Definition same_columns (cs : list string) (d d' : ToolDoc) : Prop :=
  Forall (λ c, d_cols d' !! c = d_cols d !! c) cs.

(** The columns [load] insists on and transitions write. *)
Definition typed (d : ToolDoc) : Prop :=
  is_Some (row_state d) /\ is_Some (timestamp "deadline_at" d) /\
  is_Some (text "await_mode" d ≫= await_mode_from_persisted) /\
  is_Some (text "cancel_policy" d ≫= cancel_policy_from_persisted).

(** One write of a row: its identity stays, its state moves along an edge or stays, what
    a settled row says of its end stays, the columns a load needs stay readable, and an
    await mode the create left out is never supplied. *)
Record doc_step (d d' : ToolDoc) : Prop := {
  ds_id : d_id d' = d_id d;
  ds_identity : same_columns identity_columns d d';
  ds_state : row_state d' = row_state d \/
             ∃ a b, row_state d = Some a /\ row_state d' = Some b /\ edge a b = true;
  ds_verdict : settled d = true → same_columns verdict_columns d d';
  ds_typed : typed d → typed d';
  ds_mode : text "await_mode" d = None → text "await_mode" d' = None
}.
Definition doc_evolves : ToolDoc → ToolDoc → Prop := rtc doc_step.

(** Rows never disappear or move. *)
Definition evolves (rows rows' : ToolCalls) : Prop :=
  ∀ i d, rows !! i = Some d → ∃ d', rows' !! i = Some d' /\ doc_evolves d d'.

(** What the other writers of an environment are relied on to do: what any writer
    does. *)
Definition env_ok (env : Env) : Prop := ∀ rows, evolves rows (en_between env rows).
End lifecycle.

(** ** Lemmas: vocabulary and columns *)

Ltac vocabulary :=
  repeat match goal with
  | |- context [str_eqb ?a ?b] =>
      let H := fresh in destruct (str_eqb a b) eqn:H; [apply str_eqb_true in H|]
  end; try (intros [= <-]); try done.

Lemma tool_state_roundtrip s : tool_state_from_persisted (tool_state_as_str s) = Some s.
Proof. by destruct s; vm_compute. Qed.
Lemma tool_state_persisted v s : tool_state_from_persisted v = Some s → v = tool_state_as_str s.
Proof. unfold tool_state_from_persisted. vocabulary. Qed.
Lemma failure_class_roundtrip c : failure_class_from_persisted (failure_class_as_str c) = Some c.
Proof. by destruct c; vm_compute. Qed.
Lemma cancel_cause_roundtrip c : cancel_cause_from_persisted (cancel_cause_as_str c) = Some c.
Proof. by destruct c; vm_compute. Qed.
Lemma await_mode_roundtrip m : await_mode_from_persisted (await_mode_as_str m) = Some m.
Proof. by destruct m; vm_compute. Qed.
Lemma cancel_policy_roundtrip p : cancel_policy_from_persisted (cancel_policy_as_str p) = Some p.
Proof. by destruct p; vm_compute. Qed.

Lemma text_is_true c s d : text_is c s d = true <-> text c d = Some s.
Proof.
  unfold text_is, opt_eqb. destruct (text c d) as [v|]; [|done].
  rewrite str_eqb_true. naive_solver.
Qed.

Lemma in_state_row s d : in_state s d = true <-> row_state d = Some s.
Proof.
  unfold in_state, row_state. rewrite text_is_true. split.
  - intros ->. apply tool_state_roundtrip.
  - destruct (text _ d) as [v|]; [|done]. simpl. intros Hv.
    by rewrite (tool_state_persisted _ _ Hv).
Qed.

(** The value an [input] leaves in a column, if it writes it. *)
Fixpoint written (c : string) (input : Input) : option Val :=
  match input with
  | [] => None
  | (k, v) :: input =>
      match written c input with
      | Some w => Some w
      | None => if String.eqb k c then Some v else None
      end
  end.

Lemma write_columns_lookup input c : ∀ cols,
  write_columns input cols !! c =
  match written c input with Some v => Some v | None => cols !! c end.
Proof.
  induction input as [|[k v] input IH]; intros cols; simpl; [done|].
  rewrite IH. destruct (written c input); [done|].
  destruct (String.eqb_spec k c) as [->|]; [by rewrite lookup_insert_eq|by rewrite lookup_insert_ne].
Qed.

Definition untouched (cs : list string) (input : Input) : bool :=
  forallb (λ c, bool_decide (written c input = None)) cs.

Lemma untouched_same cs input d : untouched cs input = true → same_columns cs d (apply_input input d).
Proof.
  unfold untouched, same_columns. rewrite forallb_forall, List.Forall_forall.
  intros H c Hc. apply H, bool_decide_eq_true in Hc. simpl. by rewrite write_columns_lookup, Hc.
Qed.

Lemma text_written c input d :
  text c (apply_input input d) =
  match written c input with
  | Some v => match v with VStr s => Some s | _ => None end
  | None => text c d
  end.
Proof. unfold text. simpl. rewrite write_columns_lookup. by destruct (written c input). Qed.

Lemma same_columns_text cs c d d' : same_columns cs d d' → c ∈ cs → text c d' = text c d.
Proof.
  unfold same_columns, text. rewrite List.Forall_forall. intros H Hc.
  by rewrite (H c) by (by apply list_elem_of_In).
Qed.

(** ** Lemmas: one write *)

Lemma edge_source a b : edge a b = true → tool_state_is_terminal a = false.
Proof. by destruct a, b. Qed.

(** What an [input] writes to the columns a load needs is readable. *)
Definition readable (c : string) (read : str → Prop) (input : Input) : Prop :=
  match written c input with
  | None => True
  | Some (VStr s) => read s
  | Some _ => False
  end.
Definition typed_input `{Chrono} (input : Input) : Prop :=
  readable "lifecycle_state" (λ s, is_Some (tool_state_from_persisted s)) input /\
  readable "deadline_at" (λ s, is_Some (result_ok (parse_from_rfc3339 s))) input /\
  readable "await_mode" (λ s, is_Some (await_mode_from_persisted s)) input /\
  readable "cancel_policy" (λ s, is_Some (cancel_policy_from_persisted s)) input.

Lemma readable_keeps {A} c (f : str → option A) input d :
  readable c (λ s, is_Some (f s)) input → is_Some (text c d ≫= f) →
  is_Some (text c (apply_input input d) ≫= f).
Proof. unfold readable. rewrite text_written. destruct (written c input) as [[]|]; simpl; done. Qed.

Lemma typed_input_keeps `{Chrono} input d :
  typed_input input → typed d → typed (apply_input input d).
Proof.
  intros (I1 & I2 & I3 & I4) (T1 & T2 & T3 & T4).
  repeat apply conj; by apply readable_keeps.
Qed.

Section one_write.
Context `{Chrono}.

(** A write that neither moves the state nor touches the verdict. *)
Lemma quiet_step input d :
  untouched identity_columns input = true → untouched verdict_columns input = true →
  typed_input input →
  (written "await_mode" input = None \/ is_Some (text "await_mode" d)) →
  doc_step d (apply_input input d).
Proof.
  intros Hi Hv Ht Hm. pose proof (untouched_same _ _ d Hv) as Hs.
  constructor; [done|by apply untouched_same| |done|by apply typed_input_keeps|].
  - left. unfold row_state. by rewrite (same_columns_text _ "lifecycle_state" _ _ Hs) by (by left).
  - rewrite text_written. intros Hn. destruct Hm as [->|[? Hm]]; congruence.
Qed.

(** A write that moves an unsettled row along an edge. *)
Lemma moving_step input d a b :
  untouched ("await_mode" :: identity_columns) input = true → typed_input input →
  written "lifecycle_state" input = Some (VStr (tool_state_as_str b)) →
  edge a b = true → row_state d = Some a →
  doc_step d (apply_input input d) /\ row_state (apply_input input d) = Some b.
Proof.
  intros [Hm Hi]%andb_true_iff Ht Hw He Ha. apply bool_decide_eq_true in Hm.
  assert (Hb : row_state (apply_input input d) = Some b).
  { unfold row_state. rewrite text_written, Hw. simpl. apply tool_state_roundtrip. }
  split; [|done].
  constructor; [done|by apply untouched_same| | |by apply typed_input_keeps|].
  - right. by exists a, b.
  - unfold settled. rewrite Ha. simpl. by rewrite (edge_source _ _ He).
  - by rewrite text_written, Hm.
Qed.

Lemma settled_step d d' : doc_step d d' → settled d = true → settled d' = true.
Proof.
  intros Hd Hs. pose proof (ds_verdict _ _ Hd Hs) as Hv. unfold settled, row_state in *.
  by rewrite (same_columns_text _ "lifecycle_state" _ _ Hv) by (by left).
Qed.

Lemma same_columns_trans cs a b c :
  same_columns cs a b → same_columns cs b c → same_columns cs a c.
Proof.
  unfold same_columns. rewrite !List.Forall_forall. intros H1 H2 x Hx.
  by rewrite (H2 x Hx), (H1 x Hx).
Qed.
Lemma same_columns_refl cs d : same_columns cs d d.
Proof. unfold same_columns. by rewrite List.Forall_forall. Qed.

Lemma doc_evolves_identity d d' :
  doc_evolves d d' → d_id d' = d_id d /\ same_columns identity_columns d d'.
Proof.
  induction 1 as [d|d d1 d' Hs _ [IH1 IH2]]; [split; [done|apply same_columns_refl]|].
  destruct Hs as [H1 H2 _ _ _ _]. split; [congruence|by eapply same_columns_trans].
Qed.

Lemma doc_evolves_settled d d' :
  doc_evolves d d' → settled d = true → settled d' = true /\ same_columns verdict_columns d d'.
Proof.
  induction 1 as [d|d d1 d' Hs _ IH]; intros Hd; [split; [done|apply same_columns_refl]|].
  destruct (IH (settled_step _ _ Hs Hd)) as [H1 H2]. split; [done|].
  by eapply same_columns_trans; [apply (ds_verdict _ _ Hs)|].
Qed.

Lemma doc_evolves_typed d d' : doc_evolves d d' → typed d → typed d'.
Proof. induction 1 as [|d d1 d' Hs _ IH]; [done|]. intros Ht. by apply IH, (ds_typed _ _ Hs). Qed.
Lemma doc_evolves_mode d d' :
  doc_evolves d d' → text "await_mode" d = None → text "await_mode" d' = None.
Proof. induction 1 as [|d d1 d' Hs _ IH]; [done|]. intros Ht. by apply IH, (ds_mode _ _ Hs). Qed.

(** ** Lemmas: the collection *)

Lemma rows_evolve_refl rows : evolves rows rows.
Proof. intros i d Hd. exists d. split; [done|apply rtc_refl]. Qed.
Lemma rows_evolve_trans a b c : evolves a b → evolves b c → evolves a c.
Proof.
  intros H1 H2 i d Hd. apply H1 in Hd as (d1 & Hd1 & E1).
  apply H2 in Hd1 as (d2 & Hd2 & E2). exists d2. split; [done|]. by etrans.
Qed.
Lemma evolves_app rows l : evolves rows (rows ++ l).
Proof.
  intros i d Hd. exists d. split; [|apply rtc_refl]. by apply lookup_app_l_Some.
Qed.

Lemma update_where_unmatched {A} (p : A → bool) f l : existsb p l = false → update_where p f l = l.
Proof.
  intros Hno. apply update_where_none. induction l as [|a l IH]; [done|]. simpl in *.
  apply orb_false_iff in Hno as [-> Hno]. by apply IH.
Qed.
Lemma lookup_update_where {A} (p : A → bool) f l i :
  update_where p f l !! i = (λ a, if p a then f a else a) <$> l !! i.
Proof. unfold update_where. apply list_lookup_fmap. Qed.

Lemma evolves_update p f rows :
  (∀ d, p d = true → doc_step d (f d)) → evolves rows (update_where p f rows).
Proof.
  intros Hf i d Hd. rewrite lookup_update_where, Hd. simpl. destruct (p d) eqn:Hp.
  - exists (f d). split; [done|]. by apply rtc_once, Hf.
  - exists d. split; [done|apply rtc_refl].
Qed.

Lemma update_tool_calls_evolves method p input c rows :
  (∀ d, p d = true → doc_step d (apply_input input d)) →
  evolves rows (snd (update_tool_calls method p input c rows)).
Proof.
  intros Hp. destruct c; simpl; [by apply evolves_update|apply rows_evolve_refl|by apply evolves_update].
Qed.
End one_write.

(** ** Lemmas: every transition is a step of the state machine *)

(** Decide which columns an [input] writes: its keys are literals once the optional
    fields are split. *)
Ltac split_columns :=
  unfold settled_fields, held_settled_fields, clear_unclaimed_deadline,
    resupply_unclaimed_deadline, command_denial_fields, opt_field, state_field;
  repeat match goal with
  | |- context [?f <$> Some ?a] => change (f <$> Some a) with (Some (f a))
  | |- context [?f <$> None] => change (f <$> None) with (@None str)
  | |- context [?f <$> ?o] => lazymatch type of o with option _ => destruct o end
  | |- context [match ?o with Some _ => _ | None => _ end] =>
      lazymatch o with written _ _ => fail | Some _ => fail | None => fail | _ => destruct o end
  end.
Ltac columns := split_columns; vm_compute; reflexivity.
(** And that what it writes is readable. *)
Ltac columns_typed :=
  unfold typed_input, readable; split_columns;
  repeat apply conj; cbn [written app String.eqb Ascii.eqb Bool.eqb];
  rewrite ?rfc3339_roundtrip, ?rfc3339_secs_roundtrip, ?tool_state_roundtrip,
    ?await_mode_roundtrip, ?cancel_policy_roundtrip; try exact I; by eexists.

(** Reduce to the rows an update touches. *)
Ltac after_update :=
  match goal with
  | |- context [update_tool_calls ?m ?p ?i ?c ?r] =>
      let Hu := fresh "Hu" in
      pose proof (update_tool_calls_evolves m p i c r) as Hu;
      destruct (update_tool_calls m p i c r) as [[?|?] ?]; cbn [fst snd] in *; apply Hu
  end.

Section transition_lemmas.
Context `{ChronoSecsLaws} `{!ChronoLaws}.

Lemma is_row_in_state s doc_id d : is_row_in s doc_id d = true → d_id d = doc_id /\ row_state d = Some s.
Proof.
  unfold is_row_in. intros [Hd Hs]%andb_true_iff. apply str_eqb_true in Hd.
  by apply in_state_row in Hs.
Qed.

Lemma guarded_evolves {A B} (c : result ToolError A) self rows (k : A → Outcome B) :
  (∀ a, c = Ok a → evolves rows (snd (k a))) → evolves rows (snd (guarded c self rows k)).
Proof. destruct c; simpl; [auto|intros _; apply rows_evolve_refl]. Qed.

Lemma as_won_rows {A} (o : Outcome A) : snd (as_won o) = snd o.
Proof. by destruct o as [[r s] rows]. Qed.
Lemma forget_won_rows o : snd (forget_won o) = snd o.
Proof. by destruct o as [[r s] rows]. Qed.
Lemma map_won_rows {A} (f : bool → A) o : snd (map_won f o) = snd o.
Proof. by destruct o as [[r s] rows]. Qed.

Lemma create_row_evolves method input won env self rows :
  evolves rows (snd (create_row method input won env self rows)).
Proof.
  unfold create_row, create_tool_call. destruct (en_commit env); simpl;
    [apply evolves_app|apply rows_evolve_refl|apply evolves_app].
Qed.

Lemma compare_and_set_evolves method p input won sync env self rows :
  env_ok env → (∀ d, p d = true → doc_step d (apply_input input d)) →
  evolves rows (snd (compare_and_set method p input won sync env self rows)).
Proof.
  intros Henv Hp. unfold compare_and_set.
  pose proof (update_tool_calls_evolves method p input (en_commit env) rows Hp) as Hu.
  destruct (update_tool_calls _ _ _ _ _) as [[[]|e] rows1]; simpl in *; [done| |done].
  destruct (sync _ _); simpl; (eapply rows_evolve_trans; [exact Hu|apply Henv]).
Qed.

Lemma running_compare_evolves method doc_id input won env self rows b :
  env_ok env → untouched ("await_mode" :: identity_columns) input = true → typed_input input →
  written "lifecycle_state" input = Some (VStr (tool_state_as_str b)) → edge TS_Running b = true →
  evolves rows (snd (running_compare method doc_id input won env self rows)).
Proof.
  intros Henv Hi Ht Hw He. apply compare_and_set_evolves; [done|]. intros d Hd.
  apply is_row_in_state in Hd as [_ Hd]. by eapply moving_step.
Qed.

Lemma held_compare_evolves method doc_id input won env self rows b :
  env_ok env → untouched ("await_mode" :: identity_columns) input = true → typed_input input →
  written "lifecycle_state" input = Some (VStr (tool_state_as_str b)) →
  edge TS_AwaitingApproval b = true →
  evolves rows (snd (held_compare method doc_id input won env self rows)).
Proof.
  intros Henv Hi Ht Hw He. apply compare_and_set_evolves; [done|]. intros d Hd.
  apply is_row_in_state in Hd as [_ Hd]. by eapply moving_step.
Qed.

Lemma cancel_during_run_inner_evolves cause remote reason env self rows :
  env_ok env → evolves rows (snd (cancel_during_run_inner cause remote reason env self rows)).
Proof.
  intros Henv. apply guarded_evolves. intros [doc_id started_at] _.
  apply running_compare_evolves with TS_Cancelled; [done|columns|columns_typed|columns|done].
Qed.

Lemma bridge_cancel_cascade_dispatch_evolves local_did env self rows :
  evolves rows (snd (bridge_cancel_cascade_dispatch local_did env self rows)).
Proof.
  unfold bridge_cancel_cascade_dispatch.
  destruct (bridge_cancel_cascade env self) as [[intent|]|e]; try apply rows_evolve_refl.
  destruct (child_request_is_locally_owned _ _ _) as [[]|e]; try apply rows_evolve_refl.
  unfold write_bridge_cancel_cascade_intent.
  destruct (let? _ := _ in _) as [[doc_id started_at]|e]; [|apply rows_evolve_refl].
  after_update; intros d _; (apply quiet_step; [columns|columns|columns_typed|left; columns]).
Qed.

Lemma cancel_cascade_evolves cause local_did env self rows :
  env_ok env →
  evolves rows (snd (cancel_during_run_with_cascade_dispatch cause local_did env self rows)).
Proof.
  intros Henv. apply guarded_evolves. intros _ _.
  pose proof (λ remote, cancel_during_run_inner_evolves cause remote None env self rows Henv) as Hc.
  destruct (tl_child_request_id self); [|rewrite map_won_rows; apply Hc].
  destruct (negb _); [rewrite map_won_rows; apply Hc|].
  apply guarded_evolves. intros [] _; rewrite map_won_rows; apply Hc.
Qed.

Lemma detach_evolves env self rows : evolves rows (snd (detach env self rows)).
Proof.
  apply guarded_evolves. intros doc_id _.
  after_update; intros d _; (apply quiet_step; [columns|columns|columns_typed|left; columns]).
Qed.

Lemma flip_mode_evolves method from to already env self rows :
  env_ok env → evolves rows (snd (flip_mode method from to already env self rows)).
Proof.
  intros Henv. apply guarded_evolves. intros [doc_id started_at] _.
  rewrite forget_won_rows. apply compare_and_set_evolves; [done|].
  intros d [_ Hm%text_is_true]%andb_true_iff.
  apply quiet_step; [columns|columns|columns_typed|right; by eexists].
Qed.

Lemma create_transitions_evolve env self rows :
  evolves rows (snd (start_running env self rows)) /\
  evolves rows (snd (hold_for_approval env self rows)) /\
  (∀ f reason denial, evolves rows (snd (spawn_failed_with_details f reason denial env self rows))) /\
  (∀ cause, evolves rows (snd (cancel_before_dispatch cause env self rows))).
Proof.
  split; [|split; [|split]].
  - unfold start_running. destruct (bool_decide _); [apply rows_evolve_refl|].
    apply guarded_evolves. intros _ _. apply create_row_evolves.
  - unfold hold_for_approval. destruct (bool_decide _); [apply rows_evolve_refl|].
    apply guarded_evolves. intros _ _. apply create_row_evolves.
  - intros f reason denial. apply guarded_evolves. intros _ _. apply create_row_evolves.
  - intros cause. apply guarded_evolves. intros _ _. apply create_row_evolves.
Qed.

Ltac running b :=
  apply guarded_evolves; intros [doc_id started_at] _; rewrite ?forget_won_rows;
  apply running_compare_evolves with b; [done|columns|columns_typed|columns|done].
Ltac held b :=
  apply guarded_evolves; intros doc_id _;
  apply held_compare_evolves with b; [done|columns|columns_typed|columns|done].

Lemma exec_op_evolves o env self rows :
  env_ok env → evolves rows (snd (exec_op o env self rows)).
Proof.
  intros Henv. destruct (create_transitions_evolve env self rows) as (Hc1 & Hc2 & Hc3 & Hc4).
  destruct o; simpl; rewrite ?as_won_rows; auto using cancel_during_run_inner_evolves,
    cancel_cascade_evolves, detach_evolves, flip_mode_evolves.
  - running TS_Completed.
  - running TS_Failed.
  - running TS_TimedOut.
  - held TS_Running.
  - held TS_Failed.
  - held TS_Cancelled.
  - held TS_TimedOut.
  - by apply flip_mode_evolves.
  - by apply flip_mode_evolves.
  - running TS_Completed.
  - destruct child_terminal.
    + running TS_Failed.
    + running TS_Failed.
    + running TS_Cancelled.
    + running TS_Failed.
  - pose proof (bridge_cancel_cascade_dispatch_evolves local_did env self rows) as Hd.
    by destruct (bridge_cancel_cascade_dispatch _ _ _ _).
Qed.

Lemma act_evolves a rows r self rows' :
  env_ok (ac_env a) → act a rows = (r, self, rows') → evolves rows rows'.
Proof.
  intros Ha He. pose proof (exec_op_evolves (ac_op a) (ac_env a) (ac_self a) rows Ha) as Hev.
  unfold act in He. by rewrite He in Hev.
Qed.

Lemma run_actions_evolves l : ∀ rows,
  Forall (λ a, env_ok (ac_env a)) l → evolves rows (snd (run_actions l rows)).
Proof.
  induction l as [|a l IH]; intros rows Hl; [apply rows_evolve_refl|].
  apply Forall_cons_iff in Hl as [Ha Hl]. simpl.
  pose proof (exec_op_evolves (ac_op a) (ac_env a) (ac_self a) rows Ha) as He.
  fold (act a rows) in He. destruct (act a rows) as [[r s] rows1]. simpl in He.
  specialize (IH rows1 Hl). destruct (run_actions l rows1) as [rs rows2]. simpl in *.
  by eapply rows_evolve_trans.
Qed.

(** A winner found the row running and leaves it settled. *)
Definition won_row (doc_id : str) (b : ToolCallState) (rows rows' : ToolCalls) : Prop :=
  ∃ i d d', rows !! i = Some d /\ d_id d = doc_id /\ row_state d = Some TS_Running /\
    rows' !! i = Some d' /\ d_id d' = doc_id /\ row_state d' = Some b.

Lemma compare_and_set_won method p input won sync env self rows self' rows' :
  compare_and_set method p input won sync env self rows = (Ok true, self', rows') →
  existsb p rows = true /\ self' = won self /\ rows' = update_where p (apply_input input) rows.
Proof.
  unfold compare_and_set. destruct (en_commit env); simpl; [|done..].
  destruct (existsb p rows); [by intros [= <- <-]|]. by destruct (sync _ _).
Qed.

Lemma running_compare_won method doc_id input won env self rows self' rows' b :
  untouched ("await_mode" :: identity_columns) input = true → typed_input input →
  written "lifecycle_state" input = Some (VStr (tool_state_as_str b)) → edge TS_Running b = true →
  running_compare method doc_id input won env self rows = (Ok true, self', rows') →
  won_row doc_id b rows rows' /\ self' = won self.
Proof.
  intros Hi Ht Hw He Hr. apply compare_and_set_won in Hr as (Hex & -> & ->). split; [|done].
  apply existsb_exists in Hex as (d & Hin & Hp).
  apply list_elem_of_In, list_elem_of_lookup in Hin as [i Hd].
  destruct (is_row_in_state _ _ _ Hp) as [Hid Hs].
  destruct (moving_step _ d _ _ Hi Ht Hw He Hs) as [_ Hb].
  exists i, d, (apply_input input d). repeat apply conj; try done.
  by rewrite lookup_update_where, Hd; simpl; rewrite Hp.
Qed.

Lemma guarded_Ok {A B} (c : result ToolError A) self rows (k : A → Outcome B) r self' rows' :
  guarded c self rows k = (Ok r, self', rows') → ∃ a, c = Ok a /\ k a = (Ok r, self', rows').
Proof. destruct c; simpl; [by eexists|done]. Qed.

Lemma running_row_Ok method self doc_id started_at :
  running_row method self = Ok (doc_id, started_at) → tl_doc_id self = Some doc_id.
Proof. unfold running_row. destruct (tl_doc_id self), (tl_started_at self); naive_solver. Qed.

Ltac won_by st :=
  let Hw := fresh "Hw" in
  intros ([doc_id started_at] & Hg & Hw)%guarded_Ok;
  apply running_compare_won with (b := st) in Hw as [Hw ->]; [|columns|columns_typed|columns|done];
  exists doc_id, st; repeat apply conj; try done;
  repeat match type of Hg with
  | (let? _ := ?c in _) = _ => destruct c; [|done]
  end; by eapply running_row_Ok.

Lemma settle_won o env self rows self' rows' :
  settles o = true → exec_op o env self rows = (Ok true, self', rows') →
  ∃ doc_id b, tl_doc_id self = Some doc_id /\ tool_state_is_terminal b = true /\
    tl_state self' = b /\ won_row doc_id b rows rows'.
Proof.
  destruct o; try done; intros _; cbn [exec_op].
  - won_by TS_TimedOut.
  - won_by TS_Completed.
  - destruct child_terminal; [won_by TS_Failed|won_by TS_Failed|won_by TS_Cancelled|won_by TS_Failed].
  - won_by TS_Cancelled.
Qed.

(** Where documents have distinct identifiers at the end, they had all along. *)
Lemma evolves_unique rows rows' i j d e :
  evolves rows rows' → NoDup (d_id <$> rows') → rows !! i = Some d → rows !! j = Some e →
  d_id d = d_id e → i = j.
Proof.
  intros He Hnd Hd Hx Heq.
  destruct (He i d Hd) as (d' & Hd' & Ed), (He j e Hx) as (e' & He' & Ee).
  destruct (doc_evolves_identity _ _ Ed) as [Id _], (doc_evolves_identity _ _ Ee) as [Ie _].
  eapply NoDup_lookup; [exact Hnd| |]; rewrite list_lookup_fmap.
  - by rewrite Hd'.
  - rewrite He'. simpl. congruence.
Qed.

(** Positions of a run. *)
Lemma run_actions_split l i a : ∀ rows,
  l !! i = Some a →
  ∃ rows1 r self rows2,
    rows1 = snd (run_actions (take i l) rows) /\ act a rows1 = (r, self, rows2) /\
    fst (run_actions l rows) !! i = Some r /\
    snd (run_actions l rows) = snd (run_actions (drop (S i) l) rows2) /\
    ∀ k, fst (run_actions l rows) !! (S i + k)%nat = fst (run_actions (drop (S i) l) rows2) !! k.
Proof.
  revert i. induction l as [|x l IH]; intros i rows Hi; [done|].
  destruct i as [|i]; simpl in *.
  - injection Hi as ->. destruct (act a rows) as [[r s] rows2] eqn:Ha.
    exists rows, r, s, rows2. rewrite drop_0.
    by destruct (run_actions l rows2); repeat apply conj.
  - destruct (act x rows) as [[r s] rows1] eqn:Hx.
    destruct (IH i rows1 Hi) as (ra & r' & s' & rb & H1' & H2' & H3' & H4' & H5').
    exists ra, r', s', rb. destruct (run_actions l rows1), (run_actions (take i l) rows1).
    by repeat apply conj.
Qed.

Lemma settled_of_state d b : row_state d = Some b → settled d = tool_state_is_terminal b.
Proof. unfold settled. by intros ->. Qed.
End transition_lemmas.

(** ** Lemmas: loading *)

Section loading.
Context `{Chrono}.

(** A row [load] can read. *)
Definition loadable (d : ToolDoc) : Prop :=
  typed d /\ decodable d = true /\
  is_ok (decode_selected_tool_identity (text "selected_service_id" d) (text "selected_tool_name" d))
    = true /\
  is_Some (opt_filter nonblank (text "request_id" d)) /\
  is_Some (opt_filter nonblank (text "agent_did" d)).

Lemma identity_text c d d' :
  same_columns identity_columns d d' → c ∈ identity_columns → text c d' = text c d.
Proof. apply same_columns_text. Qed.
Lemma identity_int c d d' :
  same_columns identity_columns d d' → c ∈ identity_columns → int c d' = int c d.
Proof.
  unfold same_columns, int. rewrite List.Forall_forall. intros Hs Hc.
  by rewrite (Hs c) by (by apply list_elem_of_In).
Qed.

Ltac identity_column := unfold identity_columns; set_solver.

Lemma decodable_evolves d d' : doc_evolves d d' → decodable d' = decodable d.
Proof.
  intros He. destruct (doc_evolves_identity _ _ He) as [_ Hs]. unfold decodable.
  by rewrite (identity_int "message_sequence" d d'), (identity_text "tool_name" d d'),
    (identity_text "args" d d') by (done || identity_column).
Qed.

Lemma loadable_evolves d d' : doc_evolves d d' → loadable d → loadable d'.
Proof.
  intros He (Ht & Hd & Hsel & Hr & Ha). destruct (doc_evolves_identity _ _ He) as [_ Hs].
  unfold loadable. rewrite (decodable_evolves _ _ He).
  rewrite (identity_text "selected_service_id" d d'), (identity_text "selected_tool_name" d d'),
    (identity_text "request_id" d d'), (identity_text "agent_did" d d') by (done || identity_column).
  split; [by apply (doc_evolves_typed d)|done].
Qed.

Lemma is_call_evolves s t d d' : doc_evolves d d' → is_call s t d' = is_call s t d.
Proof.
  intros He. destruct (doc_evolves_identity _ _ He) as [_ Hs]. unfold is_call, text_is.
  by rewrite (identity_text "session_id" d d'), (identity_text "tool_call_id" d d')
    by (done || identity_column).
Qed.

(** The row [load] selects: the first of the call. *)
Definition first_row (s t : str) (i : nat) (d : ToolDoc) (rows : ToolCalls) : Prop :=
  rows !! i = Some d /\ is_call s t d = true /\
  ∀ j e, (j < i)%nat → rows !! j = Some e → is_call s t e = false.

Lemma first_row_find s t i d rows : first_row s t i d rows → List.find (is_call s t) rows = Some d.
Proof.
  unfold first_row. revert i. induction rows as [|x rows IH]; intros i (Hd & Hc & Hlt); [done|].
  destruct i as [|i]; simpl in *; [injection Hd as ->; by rewrite Hc|].
  rewrite (Hlt 0%nat x) by (done || lia). apply (IH i). repeat apply conj; try done.
  intros j e Hj He. apply (Hlt (S j)); [lia|done].
Qed.

Lemma first_row_evolves s t i d rows rows' :
  evolves rows rows' → first_row s t i d rows →
  ∃ d', first_row s t i d' rows' /\ doc_evolves d d'.
Proof.
  intros He (Hd & Hc & Hlt). destruct (He i d Hd) as (d' & Hd' & Ed). exists d'.
  split; [|done]. split; [done|]. split; [by rewrite (is_call_evolves _ _ _ _ Ed)|].
  intros j e Hj Hx. destruct (rows !! j) as [x|] eqn:Hrow.
  - destruct (He j x Hrow) as (e' & Hx' & Ex). simplify_eq.
    rewrite (is_call_evolves _ _ _ _ Ex). by apply (Hlt j).
  - apply lookup_ge_None in Hrow. apply lookup_lt_Some in Hd. lia.
Qed.

(** What a load reports of a row. *)
Definition reports (cur : ToolCallLifecycle) (d : ToolDoc) : Prop :=
  tl_doc_id cur = Some (d_id d) /\ row_state d = Some (tl_state cur) /\
  tl_failure_class cur = (text "tool_failure_class" d ≫= failure_class_from_persisted) /\
  tl_cancel_cause cur = (text "cancel_cause" d ≫= cancel_cause_from_persisted).

Lemma load_first_row s t i d rows :
  first_row s t i d rows → loadable d →
  ∃ cur, load s t None rows = Ok (Some cur) /\ reports cur d /\
    ti_session_id (tl_ident cur) = s /\ ti_tool_call_id (tl_ident cur) = t.
Proof.
  intros Hf (([st Hst] & [dl Hdl] & [m Hm] & [p Hp]) & Hd & Hsel & [r Hr] & [a Ha]).
  unfold load. rewrite (first_row_find _ _ _ _ _ Hf). simpl. rewrite Hd. unfold decode_row.
  unfold row_state in *. rewrite Hst, Hdl, Hm, Hp. simpl.
  destruct (decode_selected_tool_identity _ _) as [sel|]; [|done].
  rewrite Hr, Ha. simpl. eexists. split; [reflexivity|].
  unfold reports, row_state. by rewrite Hst.
Qed.

Lemma load_without_mode s t i d rows :
  first_row s t i d rows → text "await_mode" d = None → decodable d = true →
  ∃ e, load s t None rows = Err e.
Proof.
  intros Hf Hm Hd. unfold load. rewrite (first_row_find _ _ _ _ _ Hf). simpl. rewrite Hd.
  unfold decode_row. rewrite Hm.
  destruct (text "lifecycle_state" d ≫= _); [|by eexists].
  destruct (timestamp "deadline_at" d); by eexists.
Qed.
Lemma first_row_app s t d rows :
  is_call s t d = true → (∀ e, e ∈ rows → is_call s t e = false) →
  first_row s t (length rows) d (rows ++ [d]).
Proof.
  intros Hd Hno. split; [by apply list_lookup_middle|]. split; [done|].
  intros j e Hj He. rewrite lookup_app_l in He by lia. by eapply Hno, list_elem_of_lookup_2.
Qed.
End loading.

(** ** Lemmas: creation *)

(** An identifier that is neither blank nor padded. *)
Definition clean (o : option str) : Prop :=
  match o with Some s => trim s = s /\ nonempty s = true | None => True end.

(** What the constructors and their callers put in a handle that is not yet persisted. *)
Record fresh_handle (self : ToolCallLifecycle) : Prop := {
  fh_state : tl_state self = TS_Pending;
  fh_failure : tl_failure_class self = None;
  fh_cause : tl_cancel_cause self = None;
  fh_request : nonblank (ti_request_id (tl_ident self)) = true;
  fh_agent : nonblank (ti_agent_did (tl_ident self)) = true;
  fh_sequence : in_u32 (ti_message_sequence (tl_ident self));
  fh_request_doc : clean (ti_request_doc_id (tl_ident self));
  fh_requester : clean (ti_requester_did (tl_ident self));
  fh_selected : match ti_selected (tl_ident self) with
                | Some s => nonblank (sel_service_id s) = true /\ nonblank (sel_tool_name s) = true
                | None => True
                end;
  fh_child : is_Some (tl_child_request_id self) →
             is_Some (opt_filter nonempty (tl_child_request_id self));
  fh_spawn : is_Some (ti_spawn_target_did (tl_ident self)) →
             is_Some (opt_filter nonempty (ti_spawn_target_did (tl_ident self)))
}.

Lemma opt_filter_kept {A} (f : A → bool) o :
  (is_Some o → is_Some (opt_filter f o)) → opt_filter f o = o.
Proof.
  destruct o as [a|]; [|done]. simpl. intros Hs. destruct (f a); [done|].
  destruct Hs as [? ?]; [by eexists|done].
Qed.

Lemma written_requester c o :
  clean o → written c (requester_did_field o) =
            if String.eqb "requester_did" c then VStr <$> o else None.
Proof.
  unfold requester_did_field. destruct o as [d|]; [|by destruct (String.eqb "requester_did" c)].
  cbn [fmap option_fmap option_map clean]. unfold opt_filter. by intros [-> ->].
Qed.
Lemma written_request_doc c o :
  clean o → written c (request_doc_id_field o) =
            if String.eqb "request_doc_id" c then VStr <$> o else None.
Proof.
  unfold request_doc_id_field. destruct o as [d|]; [|by destruct (String.eqb "request_doc_id" c)].
  cbn [fmap option_fmap option_map clean]. unfold opt_filter. by intros [-> ->].
Qed.
Lemma written_selected c o :
  written c (selected_tool_fields o) =
  if String.eqb "selected_tool_name" c then Some (opt_text (sel_tool_name <$> o))
  else if String.eqb "selected_service_id" c then Some (opt_text (sel_service_id <$> o))
  else None.
Proof. by destruct o; cbn [selected_tool_fields written]; destruct (String.eqb "selected_tool_name" c). Qed.
Lemma clean_kept o : clean o → opt_filter nonblank o = o.
Proof.
  destruct o as [d|]; [|done]. unfold nonblank. simpl. intros [-> Hd].
  unfold nonempty in Hd. by rewrite Hd.
Qed.

Lemma written_app c a b :
  written c (a ++ b) = match written c b with Some v => Some v | None => written c a end.
Proof.
  induction a as [|[k v] a IH]; simpl; [by destruct (written c b)|].
  rewrite IH. by destruct (written c b).
Qed.
Lemma written_opt_field c k o :
  written c (opt_field k o) = if String.eqb k c then VStr <$> o else None.
Proof. destruct o; simpl; by destruct (String.eqb k c). Qed.

(** What [load] reads of the row [start_running] creates. *)
Section started.
Context `{ChronoSecsLaws} `{!ChronoLaws}.

Definition created_row (env : Env) (input : Input) : ToolDoc :=
  {| d_id := en_doc_id env; d_cols := write_columns input ∅ |}.
Definition started_row (env : Env) (self : ToolCallLifecycle) : ToolDoc :=
  created_row env (start_running_input env self).
Definition floor_second (t : Z) : Z := t - t mod seconds 1.

Lemma created_lookup env input c : d_cols (created_row env input) !! c = written c input.
Proof. cbn [created_row d_cols]. rewrite write_columns_lookup, lookup_empty. by destruct (written _ _). Qed.

Ltac created_column Hf :=
  unfold text, int, started_row; rewrite created_lookup;
  unfold start_running_input, hold_for_approval_input, identity_fields, state_field;
  rewrite !written_app, ?written_opt_field, written_requester, written_request_doc, written_selected
    by apply Hf;
  cbn [written String.eqb Ascii.eqb Bool.eqb].

Lemma started_texts env self :
  fresh_handle self →
  let d := started_row env self in
  text "lifecycle_state" d = Some (tool_state_as_str TS_Running) /\
  text "deadline_at" d = Some (to_rfc3339 (tl_deadline_at self)) /\
  text "started_at" d = Some (to_rfc3339 (en_now env)) /\
  text "await_mode" d = Some (await_mode_as_str (tl_await_mode self)) /\
  text "cancel_policy" d = Some (cancel_policy_as_str (tl_cancel_policy self)) /\
  text "tool_failure_class" d = None /\ text "cancel_cause" d = None.
Proof.
  intros Hf. repeat apply conj; by created_column Hf.
Qed.

Lemma started_identity env self :
  fresh_handle self →
  let d := started_row env self in let i := tl_ident self in
  text "session_id" d = Some (ti_session_id i) /\ text "tool_call_id" d = Some (ti_tool_call_id i) /\
  text "request_id" d = Some (ti_request_id i) /\ text "agent_did" d = Some (ti_agent_did i) /\
  int "message_sequence" d = Some (ti_message_sequence i) /\
  text "tool_name" d = Some (ti_tool_name i) /\ text "args" d = Some (ti_args i) /\
  text "selected_service_id" d = (sel_service_id <$> ti_selected i) /\
  text "selected_tool_name" d = (sel_tool_name <$> ti_selected i) /\
  text "request_doc_id" d = ti_request_doc_id i /\ text "requester_did" d = ti_requester_did i /\
  text "child_request_id" d = tl_child_request_id self /\
  text "spawn_target_did" d = ti_spawn_target_did i /\
  text "unclaimed_deadline_at" d = (to_rfc3339_secs <$> tl_unclaimed_deadline_at self).
Proof.
  intros Hf. repeat apply conj; created_column Hf; try done;
    try (by destruct (ti_selected (tl_ident self))).
  - by destruct (ti_request_doc_id (tl_ident self)).
  - by destruct (ti_requester_did (tl_ident self)).
  - by destruct (tl_child_request_id self).
  - by destruct (ti_spawn_target_did (tl_ident self)).
  - by destruct (tl_unclaimed_deadline_at self).
Qed.

Lemma decodable_intro d z a b :
  int "message_sequence" d = Some z → in_u32 z → text "tool_name" d = Some a → text "args" d = Some b →
  decodable d = true.
Proof.
  intros H1' [Hlo%Z.leb_le Hhi%Z.leb_le] H2' H3'. unfold decodable. rewrite H1', H2', H3'.
  cbn [is_some_and]. by rewrite Hlo, Hhi.
Qed.

Lemma held_columns env self :
  fresh_handle self →
  let d := created_row env (hold_for_approval_input self) in
  is_call (ti_session_id (tl_ident self)) (ti_tool_call_id (tl_ident self)) d = true /\
  text "await_mode" d = None /\ decodable d = true.
Proof.
  intros Hf. split; [|split].
  - apply andb_true_iff. rewrite !text_is_true. by split; created_column Hf.
  - by created_column Hf.
  - apply (decodable_intro _ (ti_message_sequence (tl_ident self)) (ti_tool_name (tl_ident self))
             (ti_args (tl_ident self))); [by created_column Hf|apply Hf|by created_column Hf..].
Qed.

Lemma started_loadable env self : fresh_handle self → loadable (started_row env self).
Proof.
  intros Hf. destruct (started_texts env self Hf) as (T1 & T2 & _ & T4 & T5 & _).
  destruct (started_identity env self Hf) as (_ & _ & I3 & I4 & I5 & I6 & I7 & I8 & I9 & _).
  assert (Hd : decodable (started_row env self) = true) by (by eapply decodable_intro; [|apply Hf|..]).
  unfold loadable, typed, row_state, timestamp.
  rewrite T1, T2, T4, T5, I3, I4, I8, I9. cbn [mbind option_bind].
  rewrite tool_state_roundtrip, rfc3339_roundtrip, await_mode_roundtrip, cancel_policy_roundtrip.
  unfold opt_filter. rewrite (fh_request _ Hf), (fh_agent _ Hf).
  repeat apply conj; try (by eexists); [done|].
  - pose proof (fh_selected _ Hf) as Hs. destruct (ti_selected (tl_ident self)) as [sel|]; [|done].
    destruct Hs as [Hs1 Hs2]. simpl. by rewrite Hs1, Hs2.
Qed.

Lemma started_is_call env self :
  fresh_handle self →
  is_call (ti_session_id (tl_ident self)) (ti_tool_call_id (tl_ident self)) (started_row env self) = true.
Proof.
  intros Hf. destruct (started_identity env self Hf) as (I1 & I2 & _).
  apply andb_true_iff. by rewrite !text_is_true.
Qed.

Lemma start_running_Ok env self rows self' rows' :
  fresh_handle self → start_running env self rows = (Ok tt, self', rows') →
  self' = set_started (Some (en_now env)) (set_state TS_Running (set_doc (en_doc_id env) self)) /\
  rows' = rows ++ [started_row env self].
Proof.
  intros Hf. unfold start_running, ensure_state. rewrite (fh_state _ Hf). simpl.
  unfold create_row, create_tool_call. destruct (en_commit env); simpl; [|done..].
  by intros [= <- <-].
Qed.

Lemma started_decodes env self :
  fresh_handle self →
  decode_row (ti_session_id (tl_ident self)) (ti_tool_call_id (tl_ident self)) (started_row env self)
  = Ok (set_unclaimed_deadline_at (floor_second <$> tl_unclaimed_deadline_at self)
          (set_started (Some (en_now env)) (set_state TS_Running (set_doc (en_doc_id env) self)))).
Proof.
  intros Hf. destruct (started_texts env self Hf) as (T1 & T2 & T3 & T4 & T5 & T6 & T7).
  destruct (started_identity env self Hf)
    as (_ & _ & I3 & I4 & I5 & I6 & I7 & I8 & I9 & I10 & I11 & I12 & I13 & I14).
  unfold decode_row, timestamp.
  rewrite T1, T2, T3, T4, T5, T6, T7, I3, I4, I5, I6, I7, I8, I9, I10, I11, I12, I13, I14.
  cbn [mbind option_bind].
  rewrite tool_state_roundtrip, !rfc3339_roundtrip, await_mode_roundtrip, cancel_policy_roundtrip.
  rewrite (clean_kept _ (fh_request_doc _ Hf)), (clean_kept _ (fh_requester _ Hf)),
    (opt_filter_kept _ _ (fh_child _ Hf)), (opt_filter_kept _ _ (fh_spawn _ Hf)).
  unfold opt_filter. rewrite (fh_request _ Hf), (fh_agent _ Hf).
  assert (Hu : (to_rfc3339_secs <$> tl_unclaimed_deadline_at self)
               ≫= (λ s, result_ok (parse_from_rfc3339 s))
               = floor_second <$> tl_unclaimed_deadline_at self).
  { destruct (tl_unclaimed_deadline_at self); [|done]. simpl. by rewrite rfc3339_secs_roundtrip. }
  rewrite Hu.
  assert (Hs : decode_selected_tool_identity (sel_service_id <$> ti_selected (tl_ident self))
                 (sel_tool_name <$> ti_selected (tl_ident self)) = Ok (ti_selected (tl_ident self))).
  { pose proof (fh_selected _ Hf) as Hs. destruct (ti_selected (tl_ident self)) as [[a b]|]; [|done].
    destruct Hs as [Hs1 Hs2]. simpl in *. by rewrite Hs1, Hs2. }
  rewrite Hs. destruct self as [[] ? ? ? ? fc cc ? ? ? ?]. destruct Hf as [_ Hfc Hcc _ _ _ _ _ _ _ _].
  simpl in *. by subst fc cc.
Qed.
End started.

(** ** Theorems *)

Section theorems.
Context `{ChronoSecsLaws} `{!ChronoLaws}.

(** C12. Whatever handles, however stale, run whatever transitions in whatever order, with
    refused and ambiguous commits and other writers in between, a row keeps its position,
    its document and every column that identifies the call; once its state is terminal it
    stays so, and the state, result, failure class, cancel cause and latency of its
    first terminal write are never overwritten. *)
Theorem settled_call_keeps_its_verdict l rows i d :
  Forall (λ a, env_ok (ac_env a)) l → rows !! i = Some d →
  ∃ d', snd (run_actions l rows) !! i = Some d' /\ d_id d' = d_id d /\
    same_columns identity_columns d d' /\
    (settled d = true → settled d' = true /\ same_columns verdict_columns d d').
Proof.
  intros Hl Hd. destruct (run_actions_evolves l rows Hl i d Hd) as (d' & Hd' & He).
  exists d'. split; [done|]. destruct (doc_evolves_identity _ _ He) as [Hid Hsame].
  repeat apply conj; [done|done|]. by apply doc_evolves_settled.
Qed.

(** Of all the transitions that report whether they won the settlement of a running
    call (timeout, bridge completion and failure, cancellation), at most one ever reports
    [true] for one document, so completion side effects are projected by one actor. *)
Theorem call_is_won_once l rows i j a b doc_id :
  Forall (λ a, env_ok (ac_env a)) l → NoDup (d_id <$> snd (run_actions l rows)) →
  (i < j)%nat → l !! i = Some a → l !! j = Some b →
  settles (ac_op a) = true → settles (ac_op b) = true →
  tl_doc_id (ac_self a) = Some doc_id → tl_doc_id (ac_self b) = Some doc_id →
  fst (run_actions l rows) !! i = Some (Ok true) →
  fst (run_actions l rows) !! j ≠ Some (Ok true).
Proof.
  intros Hl Hnd Hij Ha Hb Sa Sb Da Db Wa Wb.
  destruct (run_actions_split l i a rows Ha) as (ra & r & s & rb & _ & Hact & Hr & Hfin & Hrest).
  rewrite Hr in Wa. injection Wa as ->.
  destruct (settle_won _ _ _ _ _ _ Sa Hact) as (da & ba & Da' & Ta & _ & k & x & x' & _ & _ & _ & Hx' & Ix' & Sx').
  simplify_eq.
  assert (Hj : ∃ m, j = (S i + m)%nat) by (exists (j - S i)%nat; lia). destruct Hj as [m ->].
  rewrite Hrest in Wb. rewrite <- lookup_drop in Hb.
  destruct (run_actions_split _ m b rb Hb) as (rc & r & s' & rd & -> & Hact' & Hr' & Hfin' & _).
  rewrite Hr' in Wb. injection Wb as ->.
  destruct (settle_won _ _ _ _ _ _ Sb Hact') as (db & bb & Db' & _ & _ & k' & y & y' & Hy & Iy & Sy & _).
  simplify_eq. rewrite Hfin in Hnd.
  assert (Hl' : Forall (λ a, env_ok (ac_env a)) (drop (S i) l)) by (by apply Forall_drop).
  destruct (run_actions_evolves (take m (drop (S i) l)) rb (Forall_take _ _ _ Hl') k x' Hx')
    as (z & Hz & Ez).
  destruct (doc_evolves_settled _ _ Ez) as [Sz _]; [by rewrite (settled_of_state _ _ Sx')|].
  destruct (doc_evolves_identity _ _ Ez) as [Iz _].
  assert (k' = k) as ->.
  { assert (Eb : env_ok (ac_env b)).
    { eapply Forall_lookup_1 in Hl'; [exact Hl'|exact Hb]. }
    eapply evolves_unique; [|exact Hnd|exact Hy|exact Hz|congruence].
    rewrite Hfin'. eapply rows_evolve_trans; [|by apply run_actions_evolves, Forall_drop].
    by eapply act_evolves. }
  rewrite Hz in Hy. simplify_eq. by rewrite (settled_of_state _ _ Sy) in Sz.
Qed.

(** The row [start_running] writes reads back as the handle that wrote it: every field
    survives, the unclaimed deadline to the second, which is how it is printed. *)
Theorem started_call_loads_back env self rows self' rows' :
  fresh_handle self →
  (∀ e, e ∈ rows → is_call (ti_session_id (tl_ident self)) (ti_tool_call_id (tl_ident self)) e = false) →
  start_running env self rows = (Ok tt, self', rows') →
  load (ti_session_id (tl_ident self)) (ti_tool_call_id (tl_ident self)) None rows'
  = Ok (Some (set_unclaimed_deadline_at (floor_second <$> tl_unclaimed_deadline_at self) self')).
Proof.
  intros Hf Hno Hr. apply start_running_Ok in Hr as [-> ->]; [|done].
  pose proof (first_row_app _ _ _ rows (started_is_call env self Hf) Hno) as Hrow.
  unfold load. rewrite (first_row_find _ _ _ _ _ Hrow). cbn [opt_filter].
  destruct (started_loadable env self Hf) as (_ & -> & _). by rewrite started_decodes.
Qed.

(** A started call stays readable: whatever the writers do to it afterwards, [load]
    finds it, every column it insists on still has a valid value, and it reports the
    document, state, failure class and cancel cause the row holds. *)
Theorem started_call_stays_loadable env self rows self' rows' l :
  fresh_handle self →
  (∀ e, e ∈ rows → is_call (ti_session_id (tl_ident self)) (ti_tool_call_id (tl_ident self)) e = false) →
  start_running env self rows = (Ok tt, self', rows') →
  Forall (λ a, env_ok (ac_env a)) l →
  ∃ d cur, snd (run_actions l rows') !! length rows = Some d /\ d_id d = en_doc_id env /\
    load (ti_session_id (tl_ident self)) (ti_tool_call_id (tl_ident self)) None
      (snd (run_actions l rows')) = Ok (Some cur) /\ reports cur d.
Proof.
  intros Hf Hno Hr Hl. apply start_running_Ok in Hr as [-> ->]; [|done].
  pose proof (first_row_app _ _ _ rows (started_is_call env self Hf) Hno) as Hrow.
  destruct (first_row_evolves _ _ _ _ _ _ (run_actions_evolves l _ Hl) Hrow) as (d & Hd & He).
  destruct (load_first_row _ _ _ _ _ Hd (loadable_evolves _ _ He (started_loadable env self Hf)))
    as (cur & Hload & Hrep & _).
  exists d, cur. split; [apply Hd|]. split; [|done].
  by destruct (doc_evolves_identity _ _ He) as [-> _].
Qed.

(** What a transition of a running call asks of its handle. *)
Definition may_settle (o : ToolOp) (self : ToolCallLifecycle) : bool :=
  bool_decide (tl_state self = TS_Running) && bool_decide (is_Some (tl_started_at self)) &&
  match o with
  | TO_BridgeComplete _ | TO_BridgeFailure _ _ => is_bridge self
  | TO_Complete _ | TO_Fail _ _ _ => negb (is_bridge self)
  | TO_Timeout | TO_CancelRun _ _ _ => true
  | _ => false
  end.

Lemma lost_running_compare method input won env self rows i d :
  env_ok env → en_commit env = Committed → en_read env = None →
  (∀ e, e ∈ rows → d_id e = d_id d → e = d) →
  first_row (ti_session_id (tl_ident self)) (ti_tool_call_id (tl_ident self)) i d rows →
  loadable d → settled d = true →
  ∃ self' rows', running_compare method (d_id d) input won env self rows = (Ok false, self', rows') /\
    evolves rows rows' /\ reports self' d.
Proof.
  intros Henv Hc Hread Huniq Hrow Hload Hset.
  assert (Hex : existsb (is_row_in TS_Running (d_id d)) rows = false).
  { apply not_true_is_false. intros (e & Hin & Hp)%existsb_exists.
    apply is_row_in_state in Hp as [Hid Hs]. apply list_elem_of_In in Hin.
    rewrite (Huniq e Hin Hid) in Hs. by rewrite (settled_of_state _ _ Hs) in Hset. }
  unfold running_compare, compare_and_set, update_tool_calls. rewrite Hc, Hex.
  rewrite update_where_unmatched by done.
  destruct (first_row_evolves _ _ _ _ _ _ (Henv rows) Hrow) as (d' & Hrow' & He).
  destruct (load_first_row _ _ _ _ _ Hrow' (loadable_evolves _ _ He Hload))
    as (cur & Hl & (R1 & R2 & R3 & R4) & _).
  destruct (doc_evolves_settled _ _ He Hset) as [Hset' Hsame].
  destruct (doc_evolves_identity _ _ He) as [Hid _].
  unfold sync_after_lost_running_compare, reload. rewrite Hread, Hl. simpl.
  rewrite (settled_of_state _ _ R2) in Hset'.
  rewrite bool_decide_eq_false_2 by (intros Hst; by rewrite Hst in Hset').
  exists (adopt cur self), (en_between env rows). split; [done|]. split; [apply Henv|].
  unfold reports, row_state in *.
  rewrite <- (same_columns_text _ "lifecycle_state" _ _ Hsame),
    <- (same_columns_text _ "tool_failure_class" _ _ Hsame),
    <- (same_columns_text _ "cancel_cause" _ _ Hsame) by (unfold verdict_columns; set_solver).
  rewrite <- Hid. repeat apply conj; try done.
Qed.

(** A transition that comes too late does not fail and does not overwrite: with the
    store answering, it returns without having won, and its handle now holds the document,
    state, failure class and cancel cause of the terminal write that won. *)
Theorem late_settlement_adopts_the_terminal o env self rows i d :
  env_ok env → en_commit env = Committed → en_read env = None →
  may_settle o self = true → tl_doc_id self = Some (d_id d) →
  (∀ e, e ∈ rows → d_id e = d_id d → e = d) →
  first_row (ti_session_id (tl_ident self)) (ti_tool_call_id (tl_ident self)) i d rows →
  loadable d → settled d = true →
  ∃ self' rows', exec_op o env self rows = (Ok false, self', rows') /\
    evolves rows rows' /\ reports self' d.
Proof.
  intros Henv Hc Hread Hmay Hdoc Huniq Hrow Hload Hset. unfold may_settle in Hmay.
  apply andb_true_iff in Hmay as [[Hst Hsa]%andb_true_iff Hop].
  apply bool_decide_eq_true in Hst, Hsa. destruct Hsa as [sa Hsa].
  pose proof (λ m input won, lost_running_compare m input won env self rows i d Henv Hc Hread Huniq
                Hrow Hload Hset) as Hlost.
  destruct o; try done; cbn [exec_op];
    unfold complete, fail_with_details, timeout, bridge_complete,
      bridge_failure_with_completion_reason, cancel_during_run_inner, ensure_state, running_row;
    rewrite Hst, Hdoc, Hsa, ?Hop; cbn [existsb guarded ensure ok_or];
    rewrite bool_decide_eq_true_2 by done; cbn [orb guarded];
    match goal with
    | |- context [running_compare ?m _ ?input ?won _ _ _] =>
        destruct (Hlost m input won) as (self' & rows' & -> & Hev & Hrep)
    end; by exists self', rows'.
Qed.

(** The transitions of a held call. *)
Definition of_held (o : ToolOp) : bool :=
  match o with TO_Approve | TO_Deny _ | TO_CancelHeld _ | TO_TimeoutHeld => true | _ => false end.

Lemma lost_held_compare method doc_id input won env self rows i d :
  env_ok env → (∀ e, e ∈ rows → d_id e = doc_id → row_state e ≠ Some TS_AwaitingApproval) →
  first_row (ti_session_id (tl_ident self)) (ti_tool_call_id (tl_ident self)) i d rows →
  text "await_mode" d = None → decodable d = true →
  is_ok (fst (fst (held_compare method doc_id input won env self rows))) = false.
Proof.
  intros Henv Hleft Hrow Hm Hdec.
  assert (Hex : existsb (is_row_in TS_AwaitingApproval doc_id) rows = false).
  { apply not_true_is_false. intros (e & Hin & Hp)%existsb_exists.
    apply is_row_in_state in Hp as [Hid Hs]. apply list_elem_of_In in Hin.
    by apply (Hleft e Hin Hid). }
  unfold held_compare, compare_and_set, update_tool_calls. rewrite Hex.
  destruct (en_commit env); [|done..]. rewrite update_where_unmatched by done.
  destruct (first_row_evolves _ _ _ _ _ _ (Henv rows) Hrow) as (d' & Hrow' & He).
  rewrite <- (decodable_evolves _ _ He) in Hdec.
  destruct (load_without_mode _ _ _ _ _ Hrow' (doc_evolves_mode _ _ He Hm) Hdec) as [e Hl].
  unfold sync_after_lost_held_compare, reload.
  destruct (en_read env); [done|]. by rewrite Hl.
Qed.

Lemma held_op_fails o env self rows i d :
  env_ok env → of_held o = true →
  (∀ e, e ∈ rows → Some (d_id e) = tl_doc_id self → row_state e ≠ Some TS_AwaitingApproval) →
  first_row (ti_session_id (tl_ident self)) (ti_tool_call_id (tl_ident self)) i d rows →
  text "await_mode" d = None → decodable d = true →
  is_ok (fst (fst (exec_op o env self rows))) = false.
Proof.
  intros Henv Ho Hleft Hrow Hm Hdec.
  destruct o; try done; cbn [exec_op];
    unfold approve_and_start, deny_approval, cancel_while_held, timeout_while_held, held_row;
    (destruct (ensure_state _ _ _); [|done]; destruct (tl_doc_id self) as [doc_id|] eqn:Hdoc; [|done];
     cbn [ok_or guarded]; eapply lost_held_compare; try done;
     intros e He Hid; apply Hleft; [done|congruence]).
Qed.

(** The row [hold_for_approval] creates has no [await_mode], no writer ever supplies one,
    and [load] refuses a row without it.  So once a held call has been settled or started by
    another actor, an approval, denial, cancellation or timeout of it never returns
    [Ok(false)] with the durable state adopted, as its comment says: it returns an error. *)
Theorem lost_held_compare_is_an_error env self rows self' rows' l o env' h :
  fresh_handle self →
  (∀ e, e ∈ rows → is_call (ti_session_id (tl_ident self)) (ti_tool_call_id (tl_ident self)) e = false) →
  hold_for_approval env self rows = (Ok tt, self', rows') →
  Forall (λ a, env_ok (ac_env a)) l → env_ok env' → of_held o = true →
  tl_ident h = tl_ident self →
  (∀ e, e ∈ snd (run_actions l rows') → Some (d_id e) = tl_doc_id h →
        row_state e ≠ Some TS_AwaitingApproval) →
  is_ok (fst (fst (exec_op o env' h (snd (run_actions l rows'))))) = false.
Proof.
  intros Hf Hno Hhold Hl Henv Ho Hid Hleft.
  assert (Hrows : rows' = rows ++ [created_row env (hold_for_approval_input self)]).
  { revert Hhold. unfold hold_for_approval, ensure_state. rewrite (fh_state _ Hf). simpl.
    unfold create_row, create_tool_call. destruct (en_commit env); simpl; [|done..]. by intros [= _ <-]. }
  subst rows'. destruct (held_columns env self Hf) as (Hc & Hm & Hd).
  pose proof (first_row_app _ _ _ rows Hc Hno) as Hrow.
  destruct (first_row_evolves _ _ _ _ _ _ (run_actions_evolves l _ Hl) Hrow) as (d & Hrow' & He).
  rewrite <- Hid in Hrow'. apply held_op_fails with (length rows) d; try done.
  - by apply (doc_evolves_mode _ _ He).
  - by rewrite (decodable_evolves _ _ He).
Qed.
End theorems.

(** ** Witnesses: one background call that a deadline sweep and a cancellation race for,
    and one held call. *)

Definition demo_secs : ChronoSecs := {| to_rfc3339_secs t := [t - t mod seconds 1] |}.
#[local] Existing Instance demo_chrono.
#[local] Existing Instance demo_chrono_laws.
#[local] Existing Instance demo_secs.
Definition demo_secs_laws : ChronoSecsLaws.
Proof. by split. Defined.
#[local] Existing Instance demo_secs_laws.

Definition demo_tool_env (now : Z) : Env :=
  {| en_now := now; en_doc_id := lit "doc1"; en_commit := Committed; en_between := id;
     en_read := None; en_cascade_at := now; en_child_did := λ _, Ok None |}.
Definition demo_call : ToolCallLifecycle :=
  new_background_tool (lit "r1") (lit "s1") (lit "did:a") (lit "c1") 1 (lit "bash") (lit "{}") 100.
Definition demo_started : Outcome unit := start_running (demo_tool_env 10) demo_call [].
Definition demo_handle : ToolCallLifecycle := snd (fst demo_started).
Definition demo_rows : ToolCalls := snd demo_started.
Definition demo_race : list Action :=
  [{| ac_self := demo_handle; ac_op := TO_Timeout; ac_env := demo_tool_env 100 |};
   {| ac_self := demo_handle; ac_op := TO_CancelRun CC_Interrupted None None;
      ac_env := demo_tool_env 101 |}].

Lemma demo_env_ok now : env_ok (demo_tool_env now).
Proof. intros rows. apply rows_evolve_refl. Qed.
Lemma demo_race_ok : Forall (λ a, env_ok (ac_env a)) demo_race.
Proof. repeat constructor; apply demo_env_ok. Qed.
Lemma demo_call_fresh : fresh_handle demo_call.
Proof. by constructor; vm_compute. Qed.

(** The rows and the row after the sweep has won. *)
Definition demo_rows1 : ToolCalls := snd (run_actions (take 1 demo_race) demo_rows).
Definition demo_settled : ToolDoc := hd {| d_id := []; d_cols := ∅ |} demo_rows1.
Lemma demo_rows1_eq : demo_rows1 = [demo_settled].
Proof. vm_compute. reflexivity. Qed.
Lemma demo_settled_state : row_state demo_settled = Some TS_TimedOut.
Proof. vm_compute. reflexivity. Qed.

Lemma settled_call_keeps_its_verdict_witness :
  settled demo_settled = true /\
  ∃ d', snd (run_actions (drop 1 demo_race) demo_rows1) !! 0%nat = Some d' /\ settled d' = true /\
    same_columns verdict_columns demo_settled d'.
Proof.
  assert (Hs : settled demo_settled = true) by (vm_compute; reflexivity).
  split; [exact Hs|].
  destruct (settled_call_keeps_its_verdict (drop 1 demo_race) demo_rows1 0 demo_settled
    (Forall_drop _ 1 _ demo_race_ok)) as (d' & Hd' & _ & _ & Hv); [by rewrite demo_rows1_eq|].
  exists d'. destruct (Hv Hs) as [H1 H2]. repeat apply conj; assumption.
Defined.

Lemma call_is_won_once_witness :
  fst (run_actions demo_race demo_rows) !! 0%nat = Some (Ok true) /\
  fst (run_actions demo_race demo_rows) !! 1%nat ≠ Some (Ok true).
Proof.
  assert (Hw : fst (run_actions demo_race demo_rows) !! 0%nat = Some (Ok true))
    by (vm_compute; reflexivity).
  split; [exact Hw|].
  apply (call_is_won_once demo_race demo_rows 0 1
           {| ac_self := demo_handle; ac_op := TO_Timeout; ac_env := demo_tool_env 100 |}
           {| ac_self := demo_handle; ac_op := TO_CancelRun CC_Interrupted None None;
              ac_env := demo_tool_env 101 |} (lit "doc1")
           demo_race_ok); [|lia|reflexivity|reflexivity|reflexivity|reflexivity| | |exact Hw].
  - apply (bool_decide_unpack _). vm_compute. exact I.
  - vm_compute; reflexivity.
  - vm_compute; reflexivity.
Defined.

Lemma started_call_loads_back_witness :
  load (lit "s1") (lit "c1") None demo_rows
  = Ok (Some (set_unclaimed_deadline_at None demo_handle)).
Proof.
  apply (started_call_loads_back (demo_tool_env 10) demo_call [] demo_handle demo_rows demo_call_fresh).
  - intros e He. by apply not_elem_of_nil in He.
  - vm_compute; reflexivity.
Defined.

Lemma started_call_stays_loadable_witness :
  ∃ d cur, load (lit "s1") (lit "c1") None (snd (run_actions demo_race demo_rows)) = Ok (Some cur) /\
    reports cur d.
Proof.
  destruct (started_call_stays_loadable (demo_tool_env 10) demo_call [] demo_handle demo_rows demo_race
    demo_call_fresh) as (d & cur & _ & _ & Hl & Hr).
  - intros e He. by apply not_elem_of_nil in He.
  - vm_compute; reflexivity.
  - exact demo_race_ok.
  - exists d, cur. split; assumption.
Defined.

Lemma late_settlement_adopts_the_terminal_witness :
  ∃ self' rows', exec_op (TO_CancelRun CC_Interrupted None None) (demo_tool_env 101) demo_handle
    demo_rows1 = (Ok false, self', rows') /\ tl_state self' = TS_TimedOut.
Proof.
  destruct (late_settlement_adopts_the_terminal (TO_CancelRun CC_Interrupted None None)
    (demo_tool_env 101) demo_handle demo_rows1 0 demo_settled)
    as (self' & rows' & He & _ & (_ & Hst & _)).
  - apply demo_env_ok.
  - reflexivity.
  - reflexivity.
  - vm_compute; reflexivity.
  - vm_compute; reflexivity.
  - rewrite demo_rows1_eq. intros e He _. by apply list_elem_of_singleton in He.
  - rewrite demo_rows1_eq. split; [done|]. split; [vm_compute; reflexivity|intros j e Hj; lia].
  - destruct (run_actions_evolves (take 1 demo_race) demo_rows (Forall_take _ 1 _ demo_race_ok)
                0%nat (started_row (demo_tool_env 10) demo_call))
      as (d' & Hd' & He); [vm_compute; reflexivity|].
    fold demo_rows1 in Hd'. rewrite demo_rows1_eq in Hd'. injection Hd' as <-.
    by apply (loadable_evolves _ _ He), started_loadable, demo_call_fresh.
  - vm_compute; reflexivity.
  - exists self', rows'. split; [exact He|]. rewrite demo_settled_state in Hst. by injection Hst as <-.
Defined.

Definition demo_held : Outcome unit := hold_for_approval (demo_tool_env 10) demo_call [].

Lemma lost_held_compare_is_an_error_witness :
  let l := [{| ac_self := snd (fst demo_held); ac_op := TO_CancelHeld CC_Interrupted;
               ac_env := demo_tool_env 20 |}] in
  is_ok (fst (fst (exec_op TO_Approve (demo_tool_env 21) (snd (fst demo_held))
                     (snd (run_actions l (snd demo_held)))))) = false.
Proof.
  intros l. apply (lost_held_compare_is_an_error (demo_tool_env 10) demo_call [] (snd (fst demo_held))
    (snd demo_held) l TO_Approve (demo_tool_env 21) (snd (fst demo_held)) demo_call_fresh).
  - intros e He. by apply not_elem_of_nil in He.
  - vm_compute; reflexivity.
  - repeat constructor; apply demo_env_ok.
  - apply demo_env_ok.
  - reflexivity.
  - vm_compute; reflexivity.
  - intros e He _. assert (Hl : snd (run_actions l (snd demo_held)) =
      [hd {| d_id := []; d_cols := ∅ |} (snd (run_actions l (snd demo_held)))]) by (vm_compute; reflexivity).
    rewrite Hl in He. apply list_elem_of_singleton in He. subst e. vm_compute. congruence.
Defined.
