(* ===== verification/ToolApproval.v ===== *)
(** * Held tool calls

    [hook/persistence/approval.rs]: the watcher that drives a call held for approval to
    its verdict.  It polls: each [Poll] says what other tasks did to the shared map of
    in-flight handles and to the collection before each of its locks, what the clock
    and the approval query answered, and what its one transition meets. *)

From S2P Require Import Prelude RustStr RequestState Store ExecutionLease ToolCall.

(** ** Approvals *)

Record ApprovalRow : Type := {
  ar_agent_did : str;
  ar_tool_call_id : str;
  ar_tool_call_doc_id : option str;
  ar_decision : option str;
  ar_reason : option str
}.

Inductive ApprovalDecision : Type := AD_Approved | AD_Denied (reason : option str).

(** A row's verdict on the physical call [doc_id], if it has one. *)
Definition row_decision (doc_id : str) (row : ApprovalRow) : option ApprovalDecision :=
  if negb (opt_eqb str_eqb (trim <$> ar_tool_call_doc_id row) (Some doc_id)) then None
  else if opt_eqb str_eqb (ar_decision row) (Some (lit "approved")) then Some AD_Approved
  else if opt_eqb str_eqb (ar_decision row) (Some (lit "denied")) then Some (AD_Denied (ar_reason row))
  else None.

Fixpoint first_decision (doc_id : str) (rows : list ApprovalRow) : option ApprovalDecision :=
  match rows with
  | [] => None
  | row :: rows =>
      match row_decision doc_id row with
      | Some d => Some d
      | None => first_decision doc_id rows
      end
  end.

(** [rows] is the collection in the order of [created_at]; the query keeps the rows of
    this agent and this call. *)
Definition first_approval_decision (agent_did doc_id tool_call_id : str)
    (rows : list ApprovalRow) : option ApprovalDecision :=
  first_decision doc_id
    (List.filter (λ r, str_eqb (ar_tool_call_id r) tool_call_id && str_eqb (ar_agent_did r) agent_did)
       rows).

(** ** The watcher *)

Inductive ToolCallHookAction : Type := HA_Continue | HA_Skip (reason : str).

Record Held : Type := { hd_in_flight : gmap str ToolCallLifecycle; hd_rows : ToolCalls }.

Record Poll : Type := {
  po_before : Held → Held;
  po_now : Z;
  po_approvals : result Error (list ApprovalRow);
  po_between : Held → Held;
  po_env : Env
}.

Definition skip_text (tool_name : str) (what : string) : ToolCallHookAction :=
  HA_Skip (lit "tool call " ++ tool_name ++ lit what).

Definition denial_text (tool_name : str) (reason : option str) : str :=
  match opt_filter nonempty (trim <$> reason) with
  | Some r => lit "tool call " ++ tool_name ++ lit " denied by operator: " ++ r
  | None => lit "tool call " ++ tool_name ++ lit " denied by operator"
  end.

Definition remove_in_flight (id : str) (h : Held) : Held :=
  {| hd_in_flight := delete id (hd_in_flight h); hd_rows := hd_rows h |}.
Definition put_back (id : str) (self : ToolCallLifecycle) (rows : ToolCalls) (h : Held) : Held :=
  {| hd_in_flight := <[id := self]> (hd_in_flight h); hd_rows := rows |}.

Section drive.
Context `{Chrono} `{ChronoSecs}.
Variables (agent_did tool_name internal_call_id : str).

(** How a round ends: with an answer, or with another round. *)
Abbreviation Round := (option (result ToolError ToolCallHookAction) * Held)%type.

(** The transition of the verdict, on the handle in the map if it is still there. *)
Definition on_in_flight (t : ToolCallLifecycle → ToolCalls → Outcome bool) (h : Held)
    : option (result ToolError bool) * Held :=
  match hd_in_flight h !! internal_call_id with
  | None => (None, h)
  | Some self =>
      let '(r, self, rows) := t self (hd_rows h) in
      (Some r, put_back internal_call_id self rows h)
  end.

Definition expire_round (p : Poll) (h : Held) : Round :=
  let h := po_between p h in
  match on_in_flight (timeout_while_held (po_env p)) h with
  | (Some (Err e), h) => (Some (Err e), h)
  | (_, h) =>
      (Some (Ok (skip_text tool_name " approval deadline exceeded")),
       remove_in_flight internal_call_id h)
  end.

Definition approved_round (p : Poll) (h : Held) : Round :=
  let h := po_between p h in
  match on_in_flight (approve_and_start (po_env p)) h with
  | (Some (Err e), h) => (Some (Err e), h)
  | (Some (Ok true), h) => (Some (Ok HA_Continue), h)
  | (_, h) => (None, h)
  end.

Definition denied_round (reason : option str) (p : Poll) (h : Held) : Round :=
  let h := po_between p h in
  let denial := denial_text tool_name reason in
  match on_in_flight (deny_approval denial (po_env p)) h with
  | (Some (Err e), h) => (Some (Err e), h)
  | (Some (Ok true), h) => (Some (Ok (HA_Skip denial)), remove_in_flight internal_call_id h)
  | (_, h) => (None, h)
  end.

Definition decide_round (doc_id : str) (p : Poll) (h : Held) : Round :=
  match po_approvals p with
  | Err _ => (Some (Err (TMsg (lit "AgentToolApproval query failed"))), h)
  | Ok rows =>
      match first_approval_decision agent_did doc_id internal_call_id rows with
      | Some AD_Approved => approved_round p h
      | Some (AD_Denied reason) => denied_round reason p h
      | None => (None, h)
      end
  end.

Definition drive_round (p : Poll) (h : Held) : Round :=
  let h := po_before p h in
  match hd_in_flight h !! internal_call_id with
  | None => (Some (Ok (skip_text tool_name " was cancelled or timed out while awaiting approval")), h)
  | Some self =>
      match tl_doc_id self with
      | None => (Some (Err (TMsg (lit "held tool call is missing its persisted AgentToolCall _docID"))), h)
      | Some doc_id =>
          match tl_state self with
          | TS_AwaitingApproval =>
              if is_deadline_expired (po_now p) self then expire_round p h
              else decide_round doc_id p h
          | TS_Cancelled =>
              (Some (Ok (skip_text tool_name " was cancelled while awaiting approval")),
               remove_in_flight internal_call_id h)
          | TS_TimedOut =>
              (Some (Ok (skip_text tool_name " timed out while awaiting approval")),
               remove_in_flight internal_call_id h)
          | _ => (Some (Err (TMsg (lit "held tool call observed in unexpected state"))), h)
          end
      end
  end.

(** The loop, for as long as the polls go. *)
Fixpoint drive_held_tool_call (polls : list Poll) (h : Held) : Round :=
  match polls with
  | [] => (None, h)
  | p :: polls =>
      match drive_round p h with
      | (Some r, h) => (Some r, h)
      | (None, h) => drive_held_tool_call polls h
      end
  end.

(** ** Lemmas *)

Lemma first_decision_Some doc_id rows d :
  first_decision doc_id rows = Some d →
  ∃ pre row post, rows = pre ++ row :: post /\ row_decision doc_id row = Some d /\
    Forall (λ r, row_decision doc_id r = None) pre.
Proof.
  induction rows as [|row rows IH]; simpl; [done|].
  destruct (row_decision doc_id row) as [d'|] eqn:Hd.
  - intros [= ->]. by exists [], row, rows.
  - intros Hr. destruct (IH Hr) as (pre & r & post & -> & H1 & H2).
    exists (row :: pre), r, post. repeat split; try done. by constructor.
Qed.

Lemma row_decision_Some doc_id row d :
  row_decision doc_id row = Some d →
  (trim <$> ar_tool_call_doc_id row) = Some doc_id /\
  ar_decision row = Some match d with AD_Approved => lit "approved" | AD_Denied _ => lit "denied" end.
Proof.
  unfold row_decision, opt_eqb.
  destruct (trim <$> ar_tool_call_doc_id row) as [x|]; [|done].
  destruct (str_eqb x doc_id) eqn:Hx; [|done]. apply str_eqb_true in Hx as ->. simpl.
  destruct (ar_decision row) as [v|]; [|done].
  destruct (str_eqb v (lit "approved")) eqn:Ha; [apply str_eqb_true in Ha as ->; by intros [= <-]|].
  destruct (str_eqb v (lit "denied")) eqn:Hd; [apply str_eqb_true in Hd as ->; by intros [= <-]|done].
Qed.

Lemma held_compare_won method doc_id input won env self rows self' rows' :
  held_compare method doc_id input won env self rows = (Ok true, self', rows') →
  self' = won self /\ ∃ i d, rows !! i = Some d /\ d_id d = doc_id /\
    row_state d = Some TS_AwaitingApproval /\ rows' !! i = Some (apply_input input d).
Proof.
  intros Hr. apply compare_and_set_won in Hr as (Hex & -> & ->). split; [done|].
  apply existsb_exists in Hex as (d & Hin & Hp).
  apply list_elem_of_In, list_elem_of_lookup in Hin as [i Hd].
  destruct (is_row_in_state _ _ _ Hp) as [Hid Hs]. exists i, d.
  repeat apply conj; try done. by rewrite lookup_update_where, Hd; simpl; rewrite Hp.
Qed.

Lemma approve_and_start_won env self rows self' rows' :
  approve_and_start env self rows = (Ok true, self', rows') →
  tl_state self' = TS_Running /\
  ∃ doc_id i d d', tl_doc_id self = Some doc_id /\ rows !! i = Some d /\ d_id d = doc_id /\
    row_state d = Some TS_AwaitingApproval /\ rows' !! i = Some d' /\ row_state d' = Some TS_Running.
Proof.
  intros (doc_id & Hg & Hw)%guarded_Ok.
  apply held_compare_won in Hw as (-> & i & d & Hd & Hid & Hs & Hd'). split; [done|].
  exists doc_id, i, d. eexists. repeat apply conj; [|exact Hd|done|done|exact Hd'|].
  - destruct (ensure_state _ _ _); [|done]. unfold held_row in Hg.
    destruct (tl_doc_id self); naive_solver.
  - unfold row_state. rewrite text_written. cbn [written app state_field String.eqb Ascii.eqb Bool.eqb].
    apply tool_state_roundtrip.
Qed.

(** What it takes for one round to dispatch the tool. *)
Definition dispatched (p : Poll) (h h' : Held) : Prop :=
  ∃ rows self doc_id, po_approvals p = Ok rows /\
    hd_in_flight (po_before p h) !! internal_call_id = Some self /\
    tl_doc_id self = Some doc_id /\ is_deadline_expired (po_now p) self = false /\
    first_approval_decision agent_did doc_id internal_call_id rows = Some AD_Approved /\
    let h1 := po_between p (po_before p h) in
    ∃ self1 self' doc_id' i d d',
      hd_in_flight h1 !! internal_call_id = Some self1 /\ tl_doc_id self1 = Some doc_id' /\
      hd_rows h1 !! i = Some d /\ d_id d = doc_id' /\ row_state d = Some TS_AwaitingApproval /\
      hd_rows h' !! i = Some d' /\ row_state d' = Some TS_Running /\
      hd_in_flight h' !! internal_call_id = Some self' /\ tl_state self' = TS_Running.

Lemma drive_round_continue p h h' :
  drive_round p h = (Some (Ok HA_Continue), h') → dispatched p h h'.
Proof.
  unfold drive_round, dispatched.
  destruct (hd_in_flight (po_before p h) !! internal_call_id) as [self|] eqn:Hself; [|done].
  destruct (tl_doc_id self) as [doc_id|] eqn:Hdoc; [|done].
  destruct (tl_state self); try done.
  destruct (is_deadline_expired (po_now p) self) eqn:Hexp.
  { unfold expire_round. by destruct (on_in_flight _ _) as [[[]|] ?]. }
  unfold decide_round. destruct (po_approvals p) as [rows|]; [|done].
  destruct (first_approval_decision _ _ _ rows) as [[|reason]|] eqn:Hfirst; [| |done].
  2:{ unfold denied_round. by destruct (on_in_flight _ _) as [[[[]|]|] ?]. }
  unfold approved_round, on_in_flight. set (h1 := po_between p (po_before p h)).
  destruct (hd_in_flight h1 !! internal_call_id) as [self1|] eqn:H1; [|done].
  destruct (approve_and_start (po_env p) self1 (hd_rows h1)) as [[[[]|e] self'] rows'] eqn:Hap;
    try done.
  intros [= <-].
  apply approve_and_start_won in Hap as (Hst & doc_id' & i & d & d' & Hd1 & Hd2 & Hd3 & Hd4 & Hd5 & Hd6).
  exists rows, self, doc_id. do 5 (split; [done|]). exists self1, self', doc_id', i, d, d'.
  repeat apply conj; try done. simpl. apply lookup_insert_eq.
Qed.

(** ** Theorems *)

(** C13. A held call is dispatched only on an operator's approval of that very document: the
    round that returns [Continue] saw, among the approvals of this agent and call in the
    order of their creation, an [approved] row bound to the held document before any other
    decision on it, its deadline had not passed, and its compare-and-set moved the durable
    row from [awaitingApproval] to [running]. *)
Theorem dispatch_needs_first_approval polls h h' :
  drive_held_tool_call polls h = (Some (Ok HA_Continue), h') →
  ∃ p h0 rows self doc_id pre row post,
    p ∈ polls /\ po_approvals p = Ok rows /\ dispatched p h0 h' /\
    hd_in_flight (po_before p h0) !! internal_call_id = Some self /\ tl_doc_id self = Some doc_id /\
    List.filter (λ r, str_eqb (ar_tool_call_id r) internal_call_id && str_eqb (ar_agent_did r) agent_did)
      rows = pre ++ row :: post /\
    (trim <$> ar_tool_call_doc_id row) = Some doc_id /\ ar_decision row = Some (lit "approved") /\
    Forall (λ r, row_decision doc_id r = None) pre.
Proof.
  revert h. induction polls as [|p polls IH]; intros h; simpl; [done|].
  destruct (drive_round p h) as [[r|] h1] eqn:Hround.
  - intros [= -> ->]. pose proof (drive_round_continue _ _ _ Hround) as Hd.
    pose proof Hd as (rows & self & doc_id & Hap & Hin & Hdoc & _ & Hfirst & _).
    apply first_decision_Some in Hfirst as (pre & row & post & Hsplit & Hrow & Hpre).
    apply row_decision_Some in Hrow as [Hr1 Hr2].
    exists p, h, rows, self, doc_id, pre, row, post. repeat apply conj; try done. by left.
  - intros Hc. destruct (IH h1 Hc) as (q & h0 & rows & self & doc_id & pre & row & post & Hq & Hrest).
    exists q, h0, rows, self, doc_id, pre, row, post. split; [by right|done].
Qed.

(** The poll at which the deadline of the held call, whatever other tasks did to its handle,
    has passed. *)
Definition past_deadline (p : Poll) : Prop :=
  ∀ h self, hd_in_flight (po_before p h) !! internal_call_id = Some self →
    is_deadline_expired (po_now p) self = true.

(** A held call is not held for ever: at the first poll past its deadline the watcher
    returns, whatever the approvals are and whatever other tasks do. *)
Theorem watcher_ends_at_the_deadline polls p h :
  past_deadline p → fst (drive_held_tool_call (polls ++ [p]) h) ≠ None.
Proof.
  intros Hp. revert h. induction polls as [|q polls IH]; intros h; simpl.
  - assert (Hr : fst (drive_round p h) ≠ None).
    { unfold drive_round. destruct (hd_in_flight (po_before p h) !! _) as [self|] eqn:Hs; [|done].
      destruct (tl_doc_id self); [|done]. destruct (tl_state self); try done.
      rewrite (Hp _ _ Hs). unfold expire_round. by destruct (on_in_flight _ _) as [[[]|] ?]. }
    by destruct (drive_round p h) as [[r|] h1].
  - destruct (drive_round q h) as [[r|] h1]; [done|apply IH].
Qed.
End drive.

(** ** Witnesses: a held call, an approval of another document, then one of this. *)

#[local] Existing Instance demo_chrono.
#[local] Existing Instance demo_secs.

Definition demo_approval (doc_id decision : string) : ApprovalRow :=
  {| ar_agent_did := lit "did:a"; ar_tool_call_id := lit "c1"; ar_tool_call_doc_id := Some (lit doc_id);
     ar_decision := Some (lit decision); ar_reason := None |}.
Definition demo_poll (now : Z) (rows : list ApprovalRow) : Poll :=
  {| po_before := id; po_now := now; po_approvals := Ok rows; po_between := id;
     po_env := demo_tool_env now |}.
Definition demo_hold : Held :=
  {| hd_in_flight := {[ lit "c1" := snd (fst demo_held) ]}; hd_rows := snd demo_held |}.
Definition demo_polls : list Poll :=
  [demo_poll 20 [demo_approval "doc2" "approved"];
   demo_poll 30 [demo_approval "doc2" "denied"; demo_approval " doc1 " "approved";
                 demo_approval "doc1" "denied"]].

Lemma dispatch_needs_first_approval_witness :
  ∃ h', drive_held_tool_call (lit "did:a") (lit "bash") (lit "c1") demo_polls demo_hold
        = (Some (Ok HA_Continue), h') /\
  ∃ p h0, p ∈ demo_polls /\ dispatched (lit "did:a") (lit "c1") p h0 h'.
Proof.
  destruct (drive_held_tool_call (lit "did:a") (lit "bash") (lit "c1") demo_polls demo_hold)
    as [r h'] eqn:Hd.
  assert (Hr : r = Some (Ok HA_Continue)).
  { change r with (fst (r, h')). rewrite <- Hd. vm_compute. reflexivity. }
  subst r. exists h'. split; [reflexivity|].
  destruct (dispatch_needs_first_approval _ _ _ _ _ _ Hd)
    as (p & h0 & rows & self & doc_id & pre & row & post & Hp & _ & Hdis & _).
  exists p, h0. split; assumption.
Defined.

Definition demo_late : Poll :=
  {| po_before := λ _, demo_hold; po_now := 100; po_approvals := Ok []; po_between := id;
     po_env := demo_tool_env 100 |}.

Lemma watcher_ends_at_the_deadline_witness :
  fst (drive_held_tool_call (lit "did:a") (lit "bash") (lit "c1") ([demo_poll 20 []] ++ [demo_late])
         demo_hold) ≠ None.
Proof.
  apply (watcher_ends_at_the_deadline (lit "did:a") (lit "bash") (lit "c1") [demo_poll 20 []] demo_late
           demo_hold).
  intros h self. cbn [demo_late po_before demo_hold hd_in_flight po_now]. rewrite lookup_singleton_eq.
  intros [= <-]. vm_compute. reflexivity.
Defined.
