(* ===== verification/ToolRecovery.v ===== *)
(** * Recovery of running tool calls

    [tool_call_lifecycle/recovery.rs]: the startup sweep over rows a restart orphaned, the
    live sweep over tools of terminal parents, and the sweep over native background tools
    whose worker is gone, with the classifier they share.

    A sweep loads the running rows once and works through them; what each row's turn
    meets (the answers of the request queries, the clock, the commit of its mutation and
    the writes of others before it) is a [RowEnv].  The writes to other collections
    (interrupting a child, the completion notification) are reported as events. *)

From S2P Require Import Prelude RustStr RequestState Store ExecutionLease ToolCall.

(** The parent request is seen through its [lifecycle_state] column. *)
Abbreviation ParentRow := (option RequestLifecycleState).

(** ** The observed row *)

Section recovery.
Context `{Chrono} `{ChronoSecs}.

(** [non_empty]: trimmed, and nothing if that leaves nothing. *)
Definition non_empty (value : option str) : option str := opt_filter nonempty (trim <$> value).

Definition parse_datetime (value : option str) : option Z :=
  non_empty value ≫= λ v, result_ok (parse_from_rfc3339 v).

Definition deadline_at_is_expired (now : Z) (deadline_at : option Z) : bool :=
  is_some_and (λ d, d <=? now) deadline_at.
Definition deadline_is_expired (now : Z) (deadline_at : option str) : bool :=
  deadline_at_is_expired now (parse_datetime deadline_at).

Definition row_child_request_id (row : ToolDoc) : option str :=
  opt_filter nonempty (text "child_request_id" row).
Definition row_cancel_policy (row : ToolDoc) : CancelPolicy :=
  unwrap_or Cascade (text "cancel_policy" row ≫= cancel_policy_from_persisted).
Definition row_await_mode (row : ToolDoc) : AwaitMode :=
  unwrap_or Foreground (text "await_mode" row ≫= await_mode_from_persisted).

Definition has_child (row : ToolDoc) : bool := bool_decide (is_Some (row_child_request_id row)).
Definition is_background_subagent_tool (row : ToolDoc) : bool :=
  has_child row && bool_decide (row_await_mode row = Background).
Definition is_background_tool_row (row : ToolDoc) : bool :=
  negb (has_child row) && bool_decide (row_await_mode row = Background).
Definition is_detached_subagent_tool (row : ToolDoc) : bool :=
  has_child row && bool_decide (row_cancel_policy row = Detach).
Definition cascade_child_request_id (row : ToolDoc) : option str :=
  opt_filter (λ _, bool_decide (row_cancel_policy row = Cascade)) (row_child_request_id row).

Definition request_is_interrupted (parent : ParentRow) : bool := opt_eqb state_eqb parent (Some Interrupted).
Definition request_is_cleanly_completed (parent : ParentRow) : bool :=
  opt_eqb state_eqb parent (Some Completed).
Definition request_is_terminal (parent : ParentRow) : bool := is_some_and is_terminal parent.
Definition request_is_cancel_worthy_terminal (parent : ParentRow) : bool :=
  request_is_terminal parent && negb (request_is_cleanly_completed parent).

(** ** Classification *)

Inductive RecoveryOutcome : Type :=
| RO_TimedOut | RO_Cancelled | RO_Failed | RO_BackgroundInterrupted
| RO_UnclaimedCrossDeploymentSpawn.
#[global] Instance RecoveryOutcome_eq_dec : EqDecision RecoveryOutcome.
Proof. solve_decision. Defined.

Definition notification_reason (o : RecoveryOutcome) : str :=
  match o with
  | RO_TimedOut => lit "deadline_exceeded"
  | RO_Cancelled => lit "parent_interrupted"
  | RO_Failed => lit "parent_terminal"
  | RO_BackgroundInterrupted => lit "interrupted_on_restart"
  | RO_UnclaimedCrossDeploymentSpawn => lit "unclaimed_spawn_timeout"
  end.

Definition outcome_lifecycle_state (o : RecoveryOutcome) : ToolCallState :=
  match o with
  | RO_TimedOut => TS_TimedOut
  | RO_Cancelled | RO_BackgroundInterrupted => TS_Cancelled
  | RO_Failed | RO_UnclaimedCrossDeploymentSpawn => TS_Failed
  end.

Definition outcome_failure_class (o : RecoveryOutcome) : option FailureClass :=
  match o with
  | RO_TimedOut | RO_Failed => Some External
  | RO_UnclaimedCrossDeploymentSpawn => Some ServiceUnavailable
  | RO_Cancelled | RO_BackgroundInterrupted => None
  end.

Definition outcome_result_text (o : RecoveryOutcome) (deadline_at : option Z) : str :=
  match o with
  | RO_TimedOut =>
      match deadline_at with
      | Some d => lit "tool call deadline exceeded at " ++ to_rfc3339 d
      | None => lit "tool call deadline exceeded"
      end
  | RO_Cancelled => lit "tool call cancelled because parent request was interrupted"
  | RO_BackgroundInterrupted => lit "backgrounded tool call interrupted on restart"
  | RO_Failed => lit "tool call failed because parent request was already terminal"
  | RO_UnclaimedCrossDeploymentSpawn =>
      lit "no peer claimed subagent spawn before the unclaimed spawn deadline"
  end.

Definition outcome_cancel_cause (o : RecoveryOutcome) (persisted : option str) : option CancelCause :=
  match persisted ≫= cancel_cause_from_persisted with
  | Some c => Some c
  | None =>
      match o with
      | RO_TimedOut => Some CC_Deadline
      | RO_Cancelled | RO_BackgroundInterrupted => Some CC_Interrupted
      | RO_Failed | RO_UnclaimedCrossDeploymentSpawn => None
      end
  end.

Definition classify_terminal_parent_tool_recovery (row : ToolDoc) (parent : ParentRow)
    : option RecoveryOutcome :=
  if is_detached_subagent_tool row && request_is_interrupted parent then None
  else if request_is_cleanly_completed parent && has_child row then None
  else if request_is_interrupted parent then Some RO_Cancelled
  else if request_is_terminal parent then Some RO_Failed
  else None.

Definition classify_running_tool_recovery (row : ToolDoc) (parent : option ParentRow) (now : Z)
    : option RecoveryOutcome :=
  if deadline_is_expired now (text "deadline_at" row) then Some RO_TimedOut
  else if deadline_is_expired now (text "unclaimed_deadline_at" row)
  then Some RO_UnclaimedCrossDeploymentSpawn
  else if is_background_tool_row row && is_some_and (λ p, negb (request_is_terminal p)) parent
  then Some RO_BackgroundInterrupted
  else parent ≫= classify_terminal_parent_tool_recovery row.

(** ** Writing a row *)

(** The mutations take their times from the row as it was loaded. *)
Definition recovered_latency (now started_at : Z) : Z := Z.max 0 (latency_ms now started_at).

Definition recover_tool_call_input (row : ToolDoc) (deadline_at : option Z) (outcome : RecoveryOutcome)
    (completion_side_effects_owed : bool) (remote_cancel_intent_at : option Z) (now : Z) : Input :=
  let started_at := unwrap_or now (parse_datetime (text "started_at" row)) in
  [("result", VStr (outcome_result_text outcome deadline_at));
   ("status", VStr (if is_background_tool_row row && completion_side_effects_owed
                    then lit "completionPending:" ++ notification_reason outcome
                    else lit "completed"))]
  ++ state_field (outcome_lifecycle_state outcome)
  ++ [("started_at", VStr (to_rfc3339 started_at))]
  ++ opt_field "deadline_at" (to_rfc3339 <$> deadline_at)
  ++ [("completed_at", VStr (to_rfc3339 now));
      ("latency_ms", VInt (recovered_latency now started_at)); ("unclaimed_deadline_at", VNull)]
  ++ opt_field "tool_failure_class" (failure_class_as_str <$> outcome_failure_class outcome)
  ++ opt_field "cancel_cause"
       (cancel_cause_as_str <$> outcome_cancel_cause outcome (text "cancel_cause" row))
  ++ match remote_cancel_intent_at with
     | Some at_ => [("cancel_cascade_intent_at", VStr (to_rfc3339 at_));
                    ("cancel_pending_remote_ack", VBool true)]
     | None => []
     end.

Definition recover_tool_call_row (row : ToolDoc) (deadline_at : option Z) (outcome : RecoveryOutcome)
    (completion_side_effects_owed : bool) (remote_cancel_intent_at : option Z) (now : Z)
    (c : CommitResult) (rows : ToolCalls) : result ToolError bool * ToolCalls :=
  update_tool_calls "recover running tool call" (is_row_in TS_Running (d_id row))
    (recover_tool_call_input row deadline_at outcome completion_side_effects_owed
       remote_cancel_intent_at now) c rows.

(** The times both bridge projections write. *)
Definition bridge_times (row : ToolDoc) (now : Z) : Input :=
  let started_at := unwrap_or now (parse_datetime (text "started_at" row)) in
  let deadline_at := unwrap_or now (parse_datetime (text "deadline_at" row)) in
  [("started_at", VStr (to_rfc3339 started_at)); ("deadline_at", VStr (to_rfc3339 deadline_at));
   ("completed_at", VStr (to_rfc3339 now)); ("latency_ms", VInt (recovered_latency now started_at));
   ("unclaimed_deadline_at", VNull)].

Definition recover_bridge_completed_row (row : ToolDoc) (child_result : str) (now : Z)
    (c : CommitResult) (rows : ToolCalls) : result ToolError bool * ToolCalls :=
  update_tool_calls "recover bridge completed child" (is_row_in TS_Running (d_id row))
    ([("result", VStr child_result); ("status", VStr (lit "completed"))]
     ++ state_field TS_Completed ++ bridge_times row now) c rows.

Definition recover_bridge_failed_row (row : ToolDoc) (terminal : ChildTerminal) (now : Z)
    (c : CommitResult) (rows : ToolCalls) : result ToolError bool * ToolCalls :=
  let cause :=
    if bool_decide (projected_state terminal = TS_Cancelled)
    then Some (unwrap_or CC_Interrupted (text "cancel_cause" row ≫= cancel_cause_from_persisted))
    else None in
  update_tool_calls "recover bridge terminal child" (is_row_in TS_Running (d_id row))
    (match terminal with
     | CT_Failed reason fc =>
         [("result", VStr reason); ("tool_failure_class", VStr (failure_class_as_str fc))]
     | _ => []
     end
     ++ opt_field "cancel_cause" (cancel_cause_as_str <$> cause)
     ++ [("status", VStr (lit "completed"))]
     ++ state_field (projected_state terminal) ++ bridge_times row now) c rows.

(** ** Child requests *)

Record ChildRow : Type := {
  ch_state : option RequestLifecycleState;
  ch_failure_reason : option str;
  ch_agent_did : option str;
  ch_deadline : option str
}.

Definition child_request_completed (child : ChildRow) : bool :=
  opt_eqb state_eqb (ch_state child) (Some Completed).

Definition project_child_terminal (child : ChildRow) : option ChildTerminal :=
  match ch_state child with
  | Some Failed =>
      Some (CT_Failed (unwrap_or (lit "child request failed") (non_empty (ch_failure_reason child)))
              External)
  | Some Dead => Some CT_Dead
  | Some Interrupted => Some CT_Interrupted
  | Some Superseded => Some CT_Superseded
  | _ => None
  end.

(** The gates of [terminalize_expired_child_with_row]: the deadline of an own, unsettled
    child that has passed. *)
Definition expired_child (agent_did : str) (now : Z) (child : ChildRow) : option Z :=
  if negb (opt_eqb str_eqb (ch_agent_did child) (Some agent_did)) then None
  else if is_some_and is_terminal (ch_state child) then None
  else opt_filter (λ d, deadline_at_is_expired now (Some d)) (parse_datetime (ch_deadline child)).

(** ** One row's turn *)

Record RowEnv : Type := {
  re_before : ToolCalls → ToolCalls;
  re_parent : str → result ToolError (option ParentRow);
  re_expire_child : result ToolError unit;
  re_child : str → result ToolError (option ChildRow);
  re_child_result : str → result ToolError (option str);
  re_child_side_effects : result ToolError unit;
  re_child_did : str → result ToolError (option str);
  re_live_worker : bool;
  re_now : Z;
  re_cascade_at : Z;
  re_write_at : Z;
  re_commit : CommitResult
}.

Inductive SweepEvent : Type :=
| SE_InterruptChild (child_request_id : str)
| SE_Completion (tool_call_id status reason : str).

#[global] Instance SweepEvent_eq_dec : EqDecision SweepEvent.
Proof. solve_decision. Defined.

Definition Turn (A : Type) : Type := result ToolError A * list SweepEvent * ToolCalls.

(** After the bridge row is written: the side effects of a background bridge. *)
Definition projected_bridge (env : RowEnv) (row : ToolDoc) (written : result ToolError bool * ToolCalls)
    : result ToolError bool * ToolCalls :=
  let '(r, rows) := written in
  (let? _ := r in
   let? _ := (if is_background_subagent_tool row then re_child_side_effects env else Ok tt) in
   Ok true, rows).

(** [Ok true] once the child is terminal, whoever wrote the bridge. *)
Definition recover_bridge_terminal_child (env : RowEnv) (row : ToolDoc) (rows : ToolCalls)
    : result ToolError bool * ToolCalls :=
  match row_child_request_id row with
  | None => (Ok false, rows)
  | Some child_id =>
      match re_child env child_id with
      | Err e => (Err e, rows)
      | Ok None => (Ok false, rows)
      | Ok (Some child) =>
          if child_request_completed child then
            match re_child_result env child_id with
            | Err e => (Err e, rows)
            | Ok content =>
                projected_bridge env row (recover_bridge_completed_row row
                          (unwrap_or (lit "child request " ++ child_id ++ lit " completed") content)
                          (re_write_at env) (re_commit env) rows)
            end
          else
            match project_child_terminal child with
            | None => (Ok false, rows)
            | Some terminal =>
                projected_bridge env row (recover_bridge_failed_row row terminal (re_write_at env) (re_commit env) rows)
            end
      end
  end.

Definition row_parent (env : RowEnv) (row : ToolDoc) : result ToolError (option ParentRow) :=
  match opt_filter nonempty (text "request_id" row) with
  | Some request_id => re_parent env request_id
  | None => Ok None
  end.

(** Cascading to the child of a row: interrupt an own child, or leave a durable intent for
    a remote one. *)
Definition cascade (agent_did : str) (env : RowEnv) (row : ToolDoc) (wanted : bool)
    : result ToolError (list SweepEvent * option Z) :=
  match (if wanted then cascade_child_request_id row else None) with
  | None => Ok ([], None)
  | Some child_id =>
      let? did := re_child_did env child_id in
      if opt_eqb str_eqb did (Some agent_did) then Ok ([SE_InterruptChild child_id], None)
      else Ok ([], Some (re_cascade_at env))
  end.

(** [append_recovered_background_tool_completion], what it asks to be delivered. *)
Definition recovered_completion (row : ToolDoc) (outcome : RecoveryOutcome) : list SweepEvent :=
  match opt_filter nonempty (text "request_id" row) with
  | None => []
  | Some _ =>
      let status := match outcome with
                    | RO_Cancelled | RO_BackgroundInterrupted => lit "cancelled"
                    | _ => lit "failed"
                    end in
      [SE_Completion (unwrap_or [] (text "tool_call_id" row)) status (notification_reason outcome)]
  end.

(** The write, and what follows when it won; a failed write is skipped. *)
Definition settle_row (row : ToolDoc) (outcome : RecoveryOutcome) (owed : bool)
    (events : list SweepEvent) (intent_at : option Z) (notify : bool) (env : RowEnv)
    (rows : ToolCalls) : Turn bool :=
  let '(r, rows) := recover_tool_call_row row (parse_datetime (text "deadline_at" row)) outcome owed
                      intent_at (re_write_at env) (re_commit env) rows in
  match r with
  | Ok true => (Ok true, events ++ (if notify then recovered_completion row outcome else []), rows)
  | _ => (Ok false, events, rows)
  end.

Definition owned_by (agent_did : str) (row : ToolDoc) : bool := text_is "agent_did" agent_did row.

(** One row of [recover_stuck_running_tool_calls]. *)
Definition recover_stuck_row (agent_did : str) (env : RowEnv) (row : ToolDoc) (rows : ToolCalls)
    : Turn bool :=
  let rows := re_before env rows in
  if negb (owned_by agent_did row) then (Ok false, [], rows)
  else
    match (let? parent := row_parent env row in
           let? _ := (if has_child row then re_expire_child env else Ok tt) in Ok parent) with
    | Err e => (Err e, [], rows)
    | Ok parent =>
        let '(r, rows) := recover_bridge_terminal_child env row rows in
        match r with
        | Err e => (Err e, [], rows)
        | Ok true => (Ok true, [], rows)
        | Ok false =>
            match classify_running_tool_recovery row parent (re_now env) with
            | None => (Ok false, [], rows)
            | Some outcome =>
                let should_cascade :=
                  negb (bool_decide (outcome = RO_UnclaimedCrossDeploymentSpawn))
                  && match parent with None => true | Some p => negb (request_is_cleanly_completed p) end in
                match cascade agent_did env row should_cascade with
                | Err e => (Err e, [], rows)
                | Ok (events, intent_at) =>
                    settle_row row outcome (bool_decide (is_Some parent)) events intent_at
                      (is_background_tool_row row) env rows
                end
            end
        end
    end.

(** One row of [reconcile_terminal_parent_owned_tools]. *)
Definition terminal_parent_row (agent_did : str) (env : RowEnv) (row : ToolDoc) (rows : ToolCalls)
    : Turn bool :=
  let rows := re_before env rows in
  if negb (owned_by agent_did row) || is_background_tool_row row then (Ok false, [], rows)
  else
    match row_parent env row with
    | Err e => (Err e, [], rows)
    | Ok None => (Ok false, [], rows)
    | Ok (Some parent) =>
        if negb (request_is_terminal parent) then (Ok false, [], rows)
        else
          let '(r, rows) := recover_bridge_terminal_child env row rows in
          match r with
          | Err e => (Err e, [], rows)
          | Ok true => (Ok true, [], rows)
          | Ok false =>
              match classify_terminal_parent_tool_recovery row parent with
              | None => (Ok false, [], rows)
              | Some outcome =>
                  match cascade agent_did env row (request_is_cancel_worthy_terminal parent) with
                  | Err e => (Err e, [], rows)
                  | Ok (events, intent_at) =>
                      settle_row row outcome true events intent_at (is_background_tool_row row) env rows
                  end
              end
          end
    end.

(** One row of [reconcile_orphaned_background_tools]; [re_live_worker] is the registry's
    answer for the row's call. *)
Definition orphaned_background_row (agent_did : str) (env : RowEnv) (row : ToolDoc)
    (rows : ToolCalls) : Turn bool :=
  let rows := re_before env rows in
  if negb (owned_by agent_did row) || negb (is_background_tool_row row) || re_live_worker env
  then (Ok false, [], rows)
  else
    match row_parent env row with
    | Err e => (Err e, [], rows)
    | Ok parent =>
        match classify_running_tool_recovery row parent (re_now env) with
        | None => (Ok false, [], rows)
        | Some outcome =>
            settle_row row outcome (bool_decide (is_Some parent)) [] None (bool_decide (is_Some parent))
              env rows
        end
    end.

(** ** Sweeps *)

(** The columns [serde] insists on; malformed rows are skipped. *)
Definition decodes_running (d : ToolDoc) : bool :=
  forallb (λ c, bool_decide (is_Some (text c d))) ["session_id"; "tool_call_id"; "tool_name"; "args"].

Definition running_rows_for_agent (agent_did : str) (rows : ToolCalls) : ToolCalls :=
  List.filter (λ d, in_state TS_Running d && owned_by agent_did d && decodes_running d) rows.

Fixpoint sweep (turn : RowEnv → ToolDoc → ToolCalls → Turn bool) (env : ToolDoc → RowEnv)
    (observed : ToolCalls) (count : Z) (rows : ToolCalls) : Turn Z :=
  match observed with
  | [] => (Ok count, [], rows)
  | row :: observed =>
      let '(r, events, rows) := turn (env row) row rows in
      match r with
      | Err e => (Err e, events, rows)
      | Ok b =>
          let '(r, events', rows) := sweep turn env observed (count + if b then 1 else 0) rows in
          (r, events ++ events', rows)
      end
  end.

Definition recover_stuck_running_tool_calls (agent_did : str) (env : ToolDoc → RowEnv)
    (rows : ToolCalls) : Turn Z :=
  sweep (recover_stuck_row agent_did) env (running_rows_for_agent agent_did rows) 0 rows.
Definition reconcile_terminal_parent_owned_tools (agent_did : str) (env : ToolDoc → RowEnv)
    (rows : ToolCalls) : Turn Z :=
  sweep (terminal_parent_row agent_did) env (running_rows_for_agent agent_did rows) 0 rows.
Definition reconcile_orphaned_background_tools (agent_did : str) (env : ToolDoc → RowEnv)
    (rows : ToolCalls) : Turn Z :=
  sweep (orphaned_background_row agent_did) env (running_rows_for_agent agent_did rows) 0 rows.

(** What the notification redrive says of a settled background call. *)
Definition background_completion_projection (row : ToolDoc) : option (str * option str) :=
  let persisted := strip_prefix (lit "completionPending:") (unwrap_or [] (text "status" row)) in
  match text "lifecycle_state" row with
  | None => None
  | Some s =>
      if str_eqb s (lit "completed") then Some (lit "completed", None)
      else if str_eqb s (lit "timedOut")
      then Some (lit "failed", Some (unwrap_or (lit "deadline_exceeded") persisted))
      else if str_eqb s (lit "cancelled")
      then Some (lit "cancelled",
                 Some (unwrap_or (if opt_eqb str_eqb (text "cancel_cause" row) (Some (lit "userCancelled"))
                                  then lit "explicit_cancel" else lit "parent_interrupted") persisted))
      else if str_eqb s (lit "failed")
      then Some (lit "failed", Some (unwrap_or (lit "tool_failed") persisted))
      else None
  end.
End recovery.

(** ** Lemmas *)

Section recovery_lemmas.
Context `{ChronoSecsLaws} `{!ChronoLaws}.

(** What other writers do before a turn is what any writer does. *)
Definition turn_ok (env : RowEnv) : Prop := ∀ rows, evolves rows (re_before env rows).

(** The writes of a recovery: filtered on the running state, to a terminal one. *)
Definition settling (b : ToolCallState) (input : Input) : Prop :=
  untouched ("await_mode" :: identity_columns) input = true /\ typed_input input /\
  written "lifecycle_state" input = Some (VStr (tool_state_as_str b)) /\ edge TS_Running b = true.

Lemma recover_tool_call_settling row dl o owed intent now :
  settling (outcome_lifecycle_state o) (recover_tool_call_input row dl o owed intent now).
Proof.
  unfold settling, recover_tool_call_input. set (st := unwrap_or _ _).
  split; [columns|split; [columns_typed|split; [columns|by destruct o]]].
Qed.

Lemma bridge_completed_settling row res now :
  settling TS_Completed ([("result", VStr res); ("status", VStr (lit "completed"))]
     ++ state_field TS_Completed ++ bridge_times row now).
Proof.
  unfold settling, bridge_times. split; [columns|split; [columns_typed|split; [columns|done]]].
Qed.

Lemma bridge_failed_settling row terminal cause now :
  settling (projected_state terminal)
    (match terminal with
     | CT_Failed reason fc =>
         [("result", VStr reason); ("tool_failure_class", VStr (failure_class_as_str fc))]
     | _ => []
     end
     ++ opt_field "cancel_cause" cause ++ [("status", VStr (lit "completed"))]
     ++ state_field (projected_state terminal) ++ bridge_times row now).
Proof.
  unfold settling, bridge_times.
  destruct terminal, cause; (split; [columns|split; [columns_typed|split; [columns|done]]]).
Qed.

Lemma settling_evolves method b input id c rows :
  settling b input → evolves rows (snd (update_tool_calls method (is_row_in TS_Running id) input c rows)).
Proof.
  intros (Hi & Ht & Hw & He). apply update_tool_calls_evolves. intros d Hd.
  apply is_row_in_state in Hd as [_ Hd]. by eapply moving_step.
Qed.

Lemma bridge_failed_write row terminal now c rows :
  ∃ input b, settling b input /\
    recover_bridge_failed_row row terminal now c rows =
    update_tool_calls "recover bridge terminal child" (is_row_in TS_Running (d_id row)) input c rows.
Proof. do 2 eexists. split; [|reflexivity]. apply bridge_failed_settling. Qed.
Lemma bridge_completed_write row res now c rows :
  ∃ input b, settling b input /\
    recover_bridge_completed_row row res now c rows =
    update_tool_calls "recover bridge completed child" (is_row_in TS_Running (d_id row)) input c rows.
Proof. do 2 eexists. split; [|reflexivity]. apply bridge_completed_settling. Qed.

Lemma projected_bridge_rows env row w : snd (projected_bridge env row w) = snd w.
Proof. by destruct w. Qed.

Lemma bridge_child_evolves env row rows :
  evolves rows (snd (recover_bridge_terminal_child env row rows)).
Proof.
  unfold recover_bridge_terminal_child.
  destruct (row_child_request_id row) as [child_id|]; [|apply rows_evolve_refl].
  destruct (re_child env child_id) as [[child|]|e]; try apply rows_evolve_refl.
  destruct (child_request_completed child).
  - destruct (re_child_result env child_id) as [content|e]; [|apply rows_evolve_refl].
    rewrite projected_bridge_rows.
    match goal with |- context [recover_bridge_completed_row ?a ?b ?c ?d ?e] =>
      destruct (bridge_completed_write a b c d e) as (input & st & Hset & ->) end.
    by apply (settling_evolves _ st).
  - destruct (project_child_terminal child) as [terminal|]; [|apply rows_evolve_refl].
    rewrite projected_bridge_rows.
    destruct (bridge_failed_write row terminal (re_write_at env) (re_commit env) rows)
      as (input & st & Hset & ->).
    by apply (settling_evolves _ st).
Qed.

Lemma settle_row_evolves row o owed events intent notify env rows :
  evolves rows (snd (settle_row row o owed events intent notify env rows)).
Proof.
  unfold settle_row, recover_tool_call_row.
  pose proof (settling_evolves "recover running tool call" _ _ (d_id row) (re_commit env) rows
    (recover_tool_call_settling row (parse_datetime (text "deadline_at" row)) o owed intent
       (re_write_at env))) as Hu.
  by destruct (update_tool_calls _ _ _ _ _) as [[[]|] ?].
Qed.

Ltac turn_step :=
  match goal with
  | |- evolves ?a ?a => apply rows_evolve_refl
  | |- context [recover_bridge_terminal_child ?e ?d ?r] =>
      let Hb := fresh "Hb" in
      pose proof (bridge_child_evolves e d r) as Hb;
      destruct (recover_bridge_terminal_child e d r) as [[[]|] ?]; cbn [fst snd] in *; try exact Hb;
      eapply rows_evolve_trans; [exact Hb|]
  | |- context [settle_row] => apply settle_row_evolves
  | |- context [if ?b then _ else _] => destruct b
  | |- context [match ?x with _ => _ end] => destruct x
  end.

Lemma turns_evolve agent_did env row rows :
  turn_ok env →
  evolves rows (snd (recover_stuck_row agent_did env row rows)) /\
  evolves rows (snd (terminal_parent_row agent_did env row rows)) /\
  evolves rows (snd (orphaned_background_row agent_did env row rows)).
Proof.
  intros Henv. unfold recover_stuck_row, terminal_parent_row, orphaned_background_row.
  repeat apply conj; (eapply rows_evolve_trans; [apply Henv|]); generalize (re_before env rows);
    intros rows'; repeat (turn_step; cbn [fst snd]).
Qed.

Lemma sweep_evolves turn env observed : ∀ count rows,
  (∀ row rows, turn_ok (env row) → evolves rows (snd (turn (env row) row rows))) →
  (∀ row, row ∈ observed → turn_ok (env row)) →
  evolves rows (snd (sweep turn env observed count rows)).
Proof.
  induction observed as [|row observed IH]; intros count rows Hturn Hok; [apply rows_evolve_refl|].
  simpl. pose proof (Hturn row rows (Hok row ltac:(by left))) as Ht.
  destruct (turn (env row) row rows) as [[[b|e] events] rows1]; [|done].
  specialize (IH (count + if b then 1 else 0) rows1 Hturn (λ r Hr, Hok r ltac:(by right))).
  destruct (sweep _ _ _ _ _) as [[r events'] rows2]. by eapply rows_evolve_trans.
Qed.

(** A running row that others worked on is still running, or settled. *)
Lemma doc_evolves_running d d' :
  doc_evolves d d' → row_state d = Some TS_Running → row_state d' = Some TS_Running \/ settled d' = true.
Proof.
  intros He. induction He as [|d d1 d' Hs Hrest IH]; [by left|]. intros Hd.
  destruct (ds_state _ _ Hs) as [Hsame|(a & b & Ha & Hb & Hedge)]; [apply IH; congruence|].
  right. rewrite Hd in Ha. injection Ha as <-.
  apply (doc_evolves_settled _ _ Hrest). rewrite (settled_of_state _ _ Hb). by destruct b.
Qed.

(** After a committed recovery write the row is settled, whoever won. *)
Lemma settling_settles method b input id rows i d :
  settling b input → rows !! i = Some d → d_id d = id →
  row_state d = Some TS_Running \/ settled d = true →
  ∃ d', snd (update_tool_calls method (is_row_in TS_Running id) input Committed rows) !! i = Some d' /\
    settled d' = true.
Proof.
  intros (Hi & Ht & Hw & He) Hd Hid Hst. simpl. rewrite lookup_update_where, Hd. simpl.
  destruct (is_row_in TS_Running id d) eqn:Hp.
  - apply is_row_in_state in Hp as [_ Hs].
    destruct (moving_step _ d _ _ Hi Ht Hw He Hs) as [_ Hb].
    exists (apply_input input d). split; [done|]. rewrite (settled_of_state _ _ Hb). by destruct b.
  - exists d. split; [done|]. destruct Hst as [Hs|Hs]; [|done]. exfalso.
    unfold is_row_in, is_doc in Hp. apply in_state_row in Hs. rewrite Hs, Hid, str_eqb_refl in Hp. done.
Qed.

(** Every query of the turn answers and its mutation commits. *)
Record answers (env : RowEnv) : Prop := {
  an_commit : re_commit env = Committed;
  an_parent : ∀ id, is_ok (re_parent env id) = true;
  an_expire : is_ok (re_expire_child env) = true;
  an_child : ∀ id, is_ok (re_child env id) = true;
  an_result : ∀ id, is_ok (re_child_result env id) = true;
  an_effects : is_ok (re_child_side_effects env) = true;
  an_did : ∀ id, is_ok (re_child_did env id) = true
}.

(** The child of a row is known to be settled. *)
Definition child_settled (env : RowEnv) (row : ToolDoc) : bool :=
  match row_child_request_id row with
  | None => false
  | Some id =>
      match re_child env id with
      | Ok (Some child) => is_some_and is_terminal (ch_state child)
      | _ => false
      end
  end.

(** What makes the startup sweep settle a row: its child has ended, or the classifier
    names a cause. *)
Definition due (env : RowEnv) (row : ToolDoc) : Prop :=
  child_settled env row = true \/
  ∃ parent, row_parent env row = Ok parent /\
    is_Some (classify_running_tool_recovery row parent (re_now env)).

Lemma projected_bridge_settles method env row input b rows i d :
  answers env → settling b input → rows !! i = Some d → d_id d = d_id row →
  row_state d = Some TS_Running \/ settled d = true →
  let w := projected_bridge env row
             (update_tool_calls method (is_row_in TS_Running (d_id row)) input (re_commit env) rows) in
  fst w = Ok true /\ ∃ d', snd w !! i = Some d' /\ settled d' = true.
Proof.
  intros Hans Hset Hd Hid Hst. rewrite (an_commit _ Hans). cbn zeta. split.
  - simpl. pose proof (an_effects _ Hans) as He.
    destruct (is_background_subagent_tool row); [|done]. by destruct (re_child_side_effects env).
  - rewrite projected_bridge_rows. by eapply settling_settles.
Qed.

Lemma bridge_child_settles env row rows i d :
  answers env → rows !! i = Some d → d_id d = d_id row →
  row_state d = Some TS_Running \/ settled d = true →
  let w := recover_bridge_terminal_child env row rows in
  fst w = Ok (child_settled env row) /\
  if child_settled env row then ∃ d', snd w !! i = Some d' /\ settled d' = true else snd w = rows.
Proof.
  intros Hans Hd Hid Hst. cbn zeta. unfold recover_bridge_terminal_child, child_settled.
  destruct (row_child_request_id row) as [id|]; [|done].
  pose proof (an_child _ Hans id) as Hc. destruct (re_child env id) as [[child|]|e]; [|done..].
  destruct (child_request_completed child) eqn:Hcomp.
  - assert (Hterm : is_some_and is_terminal (ch_state child) = true).
    { unfold child_request_completed in Hcomp. by destruct (ch_state child) as [[]|]. }
    rewrite Hterm.
    pose proof (an_result _ Hans id) as Hres. destruct (re_child_result env id) as [content|e]; [|done].
    match goal with |- context [recover_bridge_completed_row ?a ?b ?c ?d ?e] =>
      destruct (bridge_completed_write a b c d e) as (input & st & Hset & ->) end.
    by apply (projected_bridge_settles _ env row input st rows i d).
  - assert (Hterm : is_some_and is_terminal (ch_state child) =
                    bool_decide (is_Some (project_child_terminal child))).
    { unfold project_child_terminal. unfold child_request_completed in Hcomp.
      by destruct (ch_state child) as [[]|]. }
    rewrite Hterm. destruct (project_child_terminal child) as [terminal|]; [|done].
    rewrite bool_decide_eq_true_2 by done.
    destruct (bridge_failed_write row terminal (re_write_at env) (re_commit env) rows)
      as (input & st & Hset & ->).
    by apply (projected_bridge_settles _ env row input st rows i d).
Qed.

Lemma settle_row_settles row o owed events intent notify env rows i d :
  answers env → rows !! i = Some d → d_id d = d_id row →
  row_state d = Some TS_Running \/ settled d = true →
  let w := settle_row row o owed events intent notify env rows in
  is_ok (fst (fst w)) = true /\ ∃ d', snd w !! i = Some d' /\ settled d' = true.
Proof.
  intros Hans Hd Hid Hst. cbn zeta. unfold settle_row, recover_tool_call_row.
  rewrite (an_commit _ Hans).
  destruct (settling_settles "recover running tool call" _ _ (d_id row) rows i d
    (recover_tool_call_settling row (parse_datetime (text "deadline_at" row)) o owed intent
       (re_write_at env)) Hd Hid Hst) as (d' & Hd' & Hs').
  by destruct (update_tool_calls _ _ _ _ _) as [[[]|] rows'] eqn:Hu; simpl in *;
    [split; [|exists d']..|injection Hu as Hu].
Qed.

Lemma cascade_Ok agent_did env row wanted :
  answers env → ∃ x, cascade agent_did env row wanted = Ok x.
Proof.
  intros Hans. unfold cascade.
  destruct (if wanted then cascade_child_request_id row else None) as [id|]; [|by eexists].
  pose proof (an_did _ Hans id) as Hd. destruct (re_child_did env id) as [did|]; [|done].
  destruct (opt_eqb _ _ _); by eexists.
Qed.

(** A row's turn in the startup sweep never fails, and settles the row if it is due. *)
Lemma stuck_row_settles agent_did env row rows i d :
  answers env → turn_ok env → owned_by agent_did row = true →
  rows !! i = Some d → doc_evolves row d → row_state row = Some TS_Running →
  let w := recover_stuck_row agent_did env row rows in
  is_ok (fst (fst w)) = true /\
  (due env row → ∃ d', snd w !! i = Some d' /\ settled d' = true).
Proof.
  intros Hans Hok Hown Hd Hev Hrun. cbn zeta. unfold recover_stuck_row, due. rewrite Hown. simpl negb.
  destruct (Hok rows i d Hd) as (d1 & Hd1 & He1). cbn iota.
  assert (Hev1 : doc_evolves row d1) by (unfold doc_evolves in *; transitivity d; assumption).
  destruct (doc_evolves_identity _ _ Hev1) as [Hid _].
  pose proof (doc_evolves_running _ _ Hev1 Hrun) as Hst.
  assert (Hp : ∃ parent, row_parent env row = Ok parent).
  { unfold row_parent. destruct (opt_filter _ _) as [id|]; [|by eexists].
    pose proof (an_parent _ Hans id) as Hp. destruct (re_parent env id); [by eexists|done]. }
  destruct Hp as [parent Hp]. rewrite Hp.
  assert (Hx : (if has_child row then re_expire_child env else Ok tt) = Ok tt).
  { pose proof (an_expire _ Hans) as Hx. destruct (has_child row); [|done].
    by destruct (re_expire_child env) as [[]|]. }
  rewrite Hx. generalize dependent (re_before env rows). intros rows1 Hd1.
  destruct (bridge_child_settles env row rows1 i d1 Hans Hd1 Hid Hst) as [Hb1 Hb2].
  destruct (recover_bridge_terminal_child env row rows1) as [r rows2]. cbn [fst snd] in *. subst r.
  destruct (child_settled env row); [by split|]. subst rows2.
  destruct (classify_running_tool_recovery row parent (re_now env)) as [o|] eqn:Hcl.
  - match goal with |- context [cascade ?a ?b ?c ?w] => destruct (cascade_Ok a b c w Hans) as [[ev int] ->] end.
    destruct (settle_row_settles row o (bool_decide (is_Some parent)) ev int (is_background_tool_row row)
                env rows1 i d1 Hans Hd1 Hid Hst) as [H1' H2']. by split.
  - split; [done|]. intros [?|(p & [= <-] & [x Hx'])]; [done|]. congruence.
Qed.

(** The loaded rows, and where they are. *)
Lemma running_rows_spec agent_did rows row :
  row ∈ running_rows_for_agent agent_did rows <->
  row ∈ rows /\ row_state row = Some TS_Running /\ owned_by agent_did row = true /\
  decodes_running row = true.
Proof.
  unfold running_rows_for_agent. rewrite list_elem_of_In, List.filter_In, <- list_elem_of_In.
  rewrite !andb_true_iff, in_state_row. naive_solver.
Qed.

Lemma stuck_sweep_settles agent_did env observed i d : ∀ count rows,
  (∀ row, row ∈ observed → answers (env row) /\ turn_ok (env row) /\ owned_by agent_did row = true /\
     row_state row = Some TS_Running /\ ∃ j e, rows !! j = Some e /\ doc_evolves row e) →
  d ∈ observed → due (env d) d → (∃ e, rows !! i = Some e /\ doc_evolves d e) →
  ∃ d', snd (sweep (recover_stuck_row agent_did) env observed count rows) !! i = Some d' /\
    settled d' = true.
Proof.
  induction observed as [|row observed IH]; intros count rows Hall Hd Hdue He;
    [by apply not_elem_of_nil in Hd|].
  destruct (Hall row ltac:(by left)) as (Hans & Hok & Hown & Hrun & j & e & Hj & Hje).
  pose proof (λ r rows (Hr : turn_ok (env r)), proj1 (turns_evolve agent_did (env r) r rows Hr)) as Hturn.
  pose proof (Hturn row rows Hok) as Hev.
  destruct (stuck_row_settles agent_did (env row) row rows j e Hans Hok Hown Hj Hje Hrun) as [Hokr _].
  simpl. destruct (recover_stuck_row agent_did (env row) row rows) as [[[b|err] events] rows1] eqn:Ht;
    [|done]. cbn [snd] in Hev.
  assert (Hrest : ∀ r, r ∈ observed → turn_ok (env r)).
  { intros r Hr. by destruct (Hall r ltac:(by right)) as (_ & Hr' & _). }
  pose proof (sweep_evolves (recover_stuck_row agent_did) env observed
    (count + if b then 1 else 0) rows1 Hturn Hrest) as Hsw.
  destruct He as (e1 & He1 & Hd1).
  apply elem_of_cons in Hd as [->|Hd].
  - destruct (stuck_row_settles agent_did (env row) row rows i e1 Hans Hok Hown He1 Hd1 Hrun) as [_ Hs].
    rewrite Ht in Hs. destruct (Hs Hdue) as (d' & Hd' & Hset). cbn [snd] in Hd'.
    destruct (Hsw i d' Hd') as (d2 & Hd2 & He2).
    exists d2. destruct (sweep _ _ _ _ _) as [[r ev] rows2]. cbn [snd] in *. split; [done|].
    by apply (doc_evolves_settled _ _ He2).
  - destruct (IH (count + if b then 1 else 0) rows1) as (d2 & Hd2 & Hset); [|done|done| |].
    + intros r Hr. destruct (Hall r ltac:(by right)) as (A1 & A2 & A3 & A4 & k & x & Hk & Hx).
      repeat apply conj; try done. destruct (Hev k x Hk) as (x' & Hk' & Hx').
      exists k, x'. split; [done|]. unfold doc_evolves in *. by transitivity x.
    + destruct (Hev i e1 He1) as (x' & Hx1 & Hx2). exists x'. split; [done|].
      unfold doc_evolves in *. by transitivity e1.
    + exists d2. by destruct (sweep _ _ _ _ _) as [[r ev] rows2].
Qed.

(** What a sweep reports comes from some row's turn. *)
Lemma sweep_events turn env observed ev : ∀ count rows,
  ev ∈ snd (fst (sweep turn env observed count rows)) →
  ∃ row rows', row ∈ observed /\ ev ∈ snd (fst (turn (env row) row rows')).
Proof.
  induction observed as [|row observed IH]; intros count rows; simpl; [by intros ?%not_elem_of_nil|].
  destruct (turn (env row) row rows) as [[[b|e] events] rows1] eqn:Ht.
  - destruct (sweep turn env observed (count + if b then 1 else 0) rows1) as [[r ev'] rows2] eqn:Hs.
    simpl. intros [He|He]%elem_of_app.
    + exists row, rows. rewrite Ht. split; [by left|done].
    + specialize (IH (count + if b then 1 else 0) rows1). rewrite Hs in IH.
      destruct (IH He) as (r' & rows' & Hr & Hev). exists r', rows'. split; [by right|done].
  - simpl. intros He. exists row, rows. rewrite Ht. split; [by left|done].
Qed.
End recovery_lemmas.

(** ** Theorems *)

Section recovery_theorems.
Context `{ChronoSecsLaws} `{!ChronoLaws}.

(** No recovery sweep overwrites a settled call: whatever its queries answer, however its
    mutations end and whatever others write between its rows, every row stays where it is with
    its identity, and a row that is settled keeps the verdict of its first terminal write. *)
Theorem recovery_never_overwrites agent_did env rows rows' i d :
  (∀ row, turn_ok (env row)) →
  (rows' = snd (recover_stuck_running_tool_calls agent_did env rows) \/
   rows' = snd (reconcile_terminal_parent_owned_tools agent_did env rows) \/
   rows' = snd (reconcile_orphaned_background_tools agent_did env rows)) →
  rows !! i = Some d →
  ∃ d', rows' !! i = Some d' /\ d_id d' = d_id d /\ same_columns identity_columns d d' /\
    (settled d = true → settled d' = true /\ same_columns verdict_columns d d').
Proof.
  intros Hok Hrows Hd. assert (He : evolves rows rows').
  { destruct Hrows as [-> | [-> | ->]]; apply sweep_evolves; try (intros; apply Hok);
      intros row rows1 Hr; by destruct (turns_evolve agent_did (env row) row rows1 Hr) as (? & ? & ?). }
  destruct (He i d Hd) as (d' & Hd' & Hev). exists d'. split; [done|].
  destruct (doc_evolves_identity _ _ Hev) as [Hid Hsame]. repeat apply conj; [done|done|].
  by apply doc_evolves_settled.
Qed.

(** The startup sweep leaves no due call behind: when its queries answer and its mutations
    commit, every running call of the agent whose child has ended, whose deadline or unclaimed
    deadline has passed, whose worker the restart lost, or whose parent ended in a way that ends
    it, is settled afterwards, by the sweep or by whoever was first. *)
Theorem startup_sweep_settles_due_calls agent_did env rows i d :
  (∀ row, answers (env row) /\ turn_ok (env row)) →
  rows !! i = Some d → row_state d = Some TS_Running → owned_by agent_did d = true →
  decodes_running d = true → due (env d) d →
  ∃ d', snd (recover_stuck_running_tool_calls agent_did env rows) !! i = Some d' /\ settled d' = true.
Proof.
  intros Hans Hd Hrun Hown Hdec Hdue. apply stuck_sweep_settles with d; [| |done|].
  - intros row (Hin & Hst & Ho & _)%running_rows_spec. destruct (Hans row) as [A1 A2].
    repeat apply conj; try done. apply list_elem_of_lookup in Hin as [j Hj].
    exists j, row. split; [done|apply rtc_refl].
  - apply running_rows_spec. repeat apply conj; try done. by eapply list_elem_of_lookup_2.
  - exists d. split; [done|apply rtc_refl].
Qed.

Lemma cascade_event agent_did env row wanted events intent c :
  cascade agent_did env row wanted = Ok (events, intent) → SE_InterruptChild c ∈ events →
  wanted = true /\ row_child_request_id row = Some c /\ row_cancel_policy row = Cascade /\
  re_child_did env c = Ok (Some agent_did).
Proof.
  unfold cascade, cascade_child_request_id. destruct wanted; [|by intros [= <- <-] ?%not_elem_of_nil].
  destruct (row_child_request_id row) as [child|]; simpl; [|by intros [= <- <-] ?%not_elem_of_nil].
  destruct (bool_decide (row_cancel_policy row = Cascade)) eqn:Hpol;
    [|by intros [= <- <-] ?%not_elem_of_nil].
  apply bool_decide_eq_true in Hpol.
  destruct (re_child_did env child) as [did|] eqn:Hdid; [|done].
  destruct (opt_eqb str_eqb did (Some agent_did)) eqn:Heq; [|by intros [= <- <-] ?%not_elem_of_nil].
  intros [= <- <-] [= <-]%list_elem_of_singleton. repeat apply conj; try done. rewrite Hdid.
  destruct did as [did|]; [|done]. by apply str_eqb_true in Heq as ->.
Qed.

Lemma settle_row_event row o owed events intent notify env rows c :
  SE_InterruptChild c ∈ snd (fst (settle_row row o owed events intent notify env rows)) →
  SE_InterruptChild c ∈ events.
Proof.
  unfold settle_row. destruct (recover_tool_call_row _ _ _ _ _ _ _ _) as [[[]|] ?]; simpl; [|done..].
  intros [He|He]%elem_of_app; [done|]. destruct notify; [|by apply not_elem_of_nil in He].
  unfold recovered_completion in He. destruct (opt_filter _ _); [|by apply not_elem_of_nil in He].
  by apply list_elem_of_singleton in He.
Qed.

Lemma bridge_child_unsettled env row rows rows' :
  recover_bridge_terminal_child env row rows = (Ok false, rows') → child_settled env row = false.
Proof.
  unfold recover_bridge_terminal_child, child_settled, projected_bridge.
  destruct (row_child_request_id row) as [id|]; [|done].
  destruct (re_child env id) as [[child|]|]; [|done..].
  destruct (child_request_completed child) eqn:Hc.
  - destruct (re_child_result env id); [|done].
    destruct (recover_bridge_completed_row _ _ _ _ _) as [[]]; [|done].
    by destruct (if is_background_subagent_tool row then _ else _).
  - unfold project_child_terminal. unfold child_request_completed in Hc.
    destruct (ch_state child) as [[]|]; try done;
      (destruct (recover_bridge_failed_row _ _ _ _ _) as [[]]; [|done];
       by destruct (if is_background_subagent_tool row then _ else _)).
Qed.

Ltac no_event := by intros ?%not_elem_of_nil.

Lemma stuck_row_event agent_did env row rows c :
  SE_InterruptChild c ∈ snd (fst (recover_stuck_row agent_did env row rows)) →
  row_child_request_id row = Some c /\ row_cancel_policy row = Cascade /\
  re_child_did env c = Ok (Some agent_did) /\ child_settled env row = false /\
  ∀ p, row_parent env row = Ok (Some p) → request_is_cleanly_completed p = false.
Proof.
  unfold recover_stuck_row. destruct (negb _); [no_event|].
  destruct (row_parent env row) as [parent|] eqn:Hp; [|no_event].
  destruct (if has_child row then _ else _); [|no_event].
  destruct (recover_bridge_terminal_child _ _ _) as [[[]|] rows1] eqn:Hb; [no_event| |no_event].
  apply bridge_child_unsettled in Hb.
  destruct (classify_running_tool_recovery _ _ _) as [o|]; [|no_event].
  destruct (cascade _ _ _ _) as [[events intent]|] eqn:Hc; [|no_event].
  intros He%settle_row_event. destruct (cascade_event _ _ _ _ _ _ _ Hc He) as (Hw & H1' & H2' & H3').
  apply andb_true_iff in Hw as [_ Hw]. repeat apply conj; try done.
  intros p [= ->]. by apply negb_true_iff in Hw.
Qed.

Lemma terminal_parent_row_event agent_did env row rows c :
  SE_InterruptChild c ∈ snd (fst (terminal_parent_row agent_did env row rows)) →
  row_child_request_id row = Some c /\ row_cancel_policy row = Cascade /\
  re_child_did env c = Ok (Some agent_did) /\ child_settled env row = false /\
  ∃ p, row_parent env row = Ok (Some p) /\ request_is_cancel_worthy_terminal p = true.
Proof.
  unfold terminal_parent_row. destruct (_ || _); [no_event|].
  destruct (row_parent env row) as [[parent|]|] eqn:Hp; [|no_event..].
  destruct (negb (request_is_terminal parent)); [no_event|].
  destruct (recover_bridge_terminal_child _ _ _) as [[[]|] rows1] eqn:Hb; [no_event| |no_event].
  apply bridge_child_unsettled in Hb.
  destruct (classify_terminal_parent_tool_recovery _ _) as [o|]; [|no_event].
  destruct (cascade _ _ _ _) as [[events intent]|] eqn:Hc; [|no_event].
  intros He%settle_row_event. destruct (cascade_event _ _ _ _ _ _ _ Hc He) as (Hw & H1' & H2' & H3').
  repeat apply conj; try done. by exists parent.
Qed.

Lemma orphaned_row_event agent_did env row rows c :
  SE_InterruptChild c ∉ snd (fst (orphaned_background_row agent_did env row rows)).
Proof.
  unfold orphaned_background_row. destruct (_ || _); [no_event|].
  destruct (row_parent env row); [|no_event].
  destruct (classify_running_tool_recovery _ _ _); [|no_event].
  intros He%settle_row_event. by apply not_elem_of_nil in He.
Qed.

(** Recovery interrupts a child request only for a running call of this agent that links
    it with the cascade policy, whose child this agent owns and has not ended, and never when
    the parent completed cleanly; the live sweep moreover only when the parent ended in a
    cancel-worthy state, and the orphan sweep never. *)
Theorem recovery_interrupts_only_cascading_children agent_did env rows c :
  let of_child row :=
    row ∈ rows /\ row_state row = Some TS_Running /\ owned_by agent_did row = true /\
    row_child_request_id row = Some c /\ row_cancel_policy row = Cascade /\
    re_child_did (env row) c = Ok (Some agent_did) /\ child_settled (env row) row = false in
  (SE_InterruptChild c ∈ snd (fst (recover_stuck_running_tool_calls agent_did env rows)) →
   ∃ row, of_child row /\
     ∀ p, row_parent (env row) row = Ok (Some p) → request_is_cleanly_completed p = false) /\
  (SE_InterruptChild c ∈ snd (fst (reconcile_terminal_parent_owned_tools agent_did env rows)) →
   ∃ row p, of_child row /\ row_parent (env row) row = Ok (Some p) /\
     request_is_cancel_worthy_terminal p = true) /\
  SE_InterruptChild c ∉ snd (fst (reconcile_orphaned_background_tools agent_did env rows)).
Proof.
  intros of_child. repeat apply conj.
  - intros (row & rows' & (H1' & H2' & H3' & _)%running_rows_spec & He)%sweep_events.
    apply stuck_row_event in He as (E1 & E2 & E3 & E4 & E5). exists row. split; [|done].
    by repeat apply conj.
  - intros (row & rows' & (H1' & H2' & H3' & _)%running_rows_spec & He)%sweep_events.
    apply terminal_parent_row_event in He as (E1 & E2 & E3 & E4 & p & E5 & E6). exists row, p.
    split; [|done]. by repeat apply conj.
  - intros (row & rows' & _ & He)%sweep_events. by apply orphaned_row_event in He.
Qed.
End recovery_theorems.

(** ** Witnesses: a background call whose worker a restart lost, and a linked child under an
    interrupted parent. *)

#[local] Existing Instance demo_chrono.
#[local] Existing Instance demo_chrono_laws.
#[local] Existing Instance demo_secs.
#[local] Existing Instance demo_secs_laws.

Definition demo_row_env (parent : option ParentRow) (child : option ChildRow) : RowEnv :=
  {| re_before := id; re_parent := λ _, Ok parent; re_expire_child := Ok tt;
     re_child := λ _, Ok child; re_child_result := λ _, Ok None; re_child_side_effects := Ok tt;
     re_child_did := λ _, Ok (Some (lit "did:a")); re_live_worker := false;
     re_now := 50; re_cascade_at := 50; re_write_at := 51; re_commit := Committed |}.
Lemma demo_row_env_ok parent child : answers (demo_row_env parent child) /\ turn_ok (demo_row_env parent child).
Proof. split; [by constructor|]. intros rows. apply rows_evolve_refl. Qed.
Definition demo_live_parent : ToolDoc → RowEnv := λ _, demo_row_env (Some (Some Processing)) None.
Definition demo_started_doc : ToolDoc := started_row (demo_tool_env 10) demo_call.
Lemma demo_rows_eq : demo_rows = [demo_started_doc].
Proof. vm_compute. reflexivity. Qed.

Lemma recovery_never_overwrites_witness :
  ∃ d', snd (recover_stuck_running_tool_calls (lit "did:a") demo_live_parent demo_rows1) !! 0%nat = Some d' /\
    same_columns verdict_columns demo_settled d'.
Proof.
  destruct (recovery_never_overwrites (lit "did:a") demo_live_parent demo_rows1
    (snd (recover_stuck_running_tool_calls (lit "did:a") demo_live_parent demo_rows1)) 0 demo_settled)
    as (d' & Hd' & _ & _ & Hv).
  - intros row. apply demo_row_env_ok.
  - left. reflexivity.
  - by rewrite demo_rows1_eq.
  - exists d'. split; [exact Hd'|]. apply Hv. vm_compute. reflexivity.
Defined.

Lemma startup_sweep_settles_due_calls_witness :
  ∃ d', snd (recover_stuck_running_tool_calls (lit "did:a") demo_live_parent demo_rows) !! 0%nat = Some d' /\
    settled d' = true.
Proof.
  apply (startup_sweep_settles_due_calls (lit "did:a") demo_live_parent demo_rows 0 demo_started_doc).
  - intros row. apply demo_row_env_ok.
  - by rewrite demo_rows_eq.
  - vm_compute. reflexivity.
  - vm_compute. reflexivity.
  - vm_compute. reflexivity.
  - right. exists (Some (Some Processing)). split; [vm_compute; reflexivity|].
    exists RO_BackgroundInterrupted. vm_compute. reflexivity.
Defined.

Definition demo_spawn : ToolCallLifecycle :=
  new_subagent (lit "r1") (lit "s1") (lit "did:a") (lit "c2") 1 (lit "spawn_subagent") (lit "{}") 100
    Foreground Cascade (lit "child1") (lit "did:a").
Definition demo_spawned : ToolCalls := snd (start_running (demo_tool_env 10) demo_spawn []).
Definition demo_interrupted_parent : ToolDoc → RowEnv :=
  λ _, demo_row_env (Some (Some Interrupted))
         (Some {| ch_state := Some Processing; ch_failure_reason := None;
                  ch_agent_did := Some (lit "did:a"); ch_deadline := None |}).

Lemma recovery_interrupts_only_cascading_children_witness :
  ∃ row p, row ∈ demo_spawned /\ row_parent (demo_interrupted_parent row) row = Ok (Some p) /\
    request_is_cancel_worthy_terminal p = true.
Proof.
  destruct (recovery_interrupts_only_cascading_children (lit "did:a") demo_interrupted_parent demo_spawned
              (lit "child1")) as (_ & Hlive & _).
  destruct Hlive as (row & p & (Hin & _) & Hp & Hc).
  - apply (bool_decide_unpack _). vm_compute. exact I.
  - exists row, p. repeat apply conj; assumption.
Defined.
