(* ===== verification/Messages.v ===== *)
(** * Conversation messages

    The native message family of [gents-protocol] ([src/crates/gents-protocol/
    src/message.rs]): messages, user and assistant content, tool calls and tool
    results, with the JSON values their arguments carry.  [serde_json]'s [Map]
    is the sorted one of its default features, so an object is the list of its
    fields in key order and equality of values is equality of these lists. *)

From S2P Require Import Prelude RustStr.
Open Scope Z_scope.

(** ** [serde_json::Value] *)

Inductive Json : Type :=
| JNull
| JBool (b : bool)
| JNumber (text : str)
| JString (s : str)
| JArray (items : list Json)
| JObject (fields : list (str * Json)).

Definition Json_dec : ∀ x y : Json, Decision (x = y).
Proof.
  fix IH 1. intros [|b|n|s|l|f] [|b'|n'|s'|l'|f']; try (right; discriminate).
  - by left.
  - destruct (decide (b = b')) as [->|]; [by left|right; congruence].
  - destruct (decide (n = n')) as [->|]; [by left|right; congruence].
  - destruct (decide (s = s')) as [->|]; [by left|right; congruence].
  - assert (EqDecision Json) as HJ by exact IH.
    destruct (@list_eq_dec _ IH l l') as [->|]; [by left|right; congruence].
  - destruct (@list_eq_dec _ (@prod_eq_dec _ _ _ IH) f f') as [->|];
      [by left|right; congruence].
Defined.
#[global] Instance Json_eq_dec : EqDecision Json := Json_dec.

Definition as_str (v : Json) : option str :=
  match v with JString s => Some s | _ => None end.
Definition as_bool (v : Json) : option bool :=
  match v with JBool b => Some b | _ => None end.
Definition as_array (v : Json) : option (list Json) :=
  match v with JArray l => Some l | _ => None end.
Fixpoint assoc (key : str) (fields : list (str * Json)) : option Json :=
  match fields with
  | [] => None
  | (k, v) :: rest => if str_eqb k key then Some v else assoc key rest
  end.
(** [value.get("key")]: [None] on anything but an object. *)
Definition json_get (key : str) (v : Json) : option Json :=
  match v with JObject fields => assoc key fields | _ => None end.

(** ** Media *)

Inductive DocumentSourceKind : Type :=
| Url (s : str)
| Base64 (s : str)
| Raw (bytes : list Z)
| DString (s : str)
| DUnknown.
#[global] Instance DocumentSourceKind_eq_dec : EqDecision DocumentSourceKind.
Proof. solve_decision. Defined.

Definition from_data (data : str) : DocumentSourceKind :=
  if starts_with (lit "http://") data || starts_with (lit "https://") data
  then Url data else Base64 data.

Inductive ImageMediaType : Type := JPEG | PNG | GIF | WEBP | HEIC | HEIF | SVG.
#[global] Instance ImageMediaType_eq_dec : EqDecision ImageMediaType.
Proof. solve_decision. Defined.

Definition from_mime_type (mime_type : str) : option ImageMediaType :=
  if str_eqb mime_type (lit "image/jpeg") then Some JPEG
  else if str_eqb mime_type (lit "image/png") then Some PNG
  else if str_eqb mime_type (lit "image/gif") then Some GIF
  else if str_eqb mime_type (lit "image/webp") then Some WEBP
  else if str_eqb mime_type (lit "image/heic") then Some HEIC
  else if str_eqb mime_type (lit "image/heif") then Some HEIF
  else if str_eqb mime_type (lit "image/svg+xml") then Some SVG
  else None.

Inductive DocumentMediaType : Type :=
| PDF | TXT | RTF | HTML | CSS | MARKDOWN | CSV | XML | Javascript | Python.
#[global] Instance DocumentMediaType_eq_dec : EqDecision DocumentMediaType.
Proof. solve_decision. Defined.
Inductive AudioMediaType : Type := WAV | MP3 | AIFF | AAC | OGG | FLAC | M4A | PCM16 | PCM24.
#[global] Instance AudioMediaType_eq_dec : EqDecision AudioMediaType.
Proof. solve_decision. Defined.
Inductive VideoMediaType : Type := AVI | MP4 | MPEG | MOV | WEBM.
#[global] Instance VideoMediaType_eq_dec : EqDecision VideoMediaType.
Proof. solve_decision. Defined.
Inductive ImageDetail : Type := Low | High | Auto.
#[global] Instance ImageDetail_eq_dec : EqDecision ImageDetail.
Proof. solve_decision. Defined.

Record Image : Type := mkImage {
  im_data : DocumentSourceKind;
  im_media_type : option ImageMediaType;
  im_detail : option ImageDetail;
  im_additional_params : option Json }.
#[global] Instance Image_eq_dec : EqDecision Image.
Proof. solve_decision. Defined.
Record Audio : Type := mkAudio {
  au_data : DocumentSourceKind;
  au_media_type : option AudioMediaType;
  au_additional_params : option Json }.
#[global] Instance Audio_eq_dec : EqDecision Audio.
Proof. solve_decision. Defined.
Record Video : Type := mkVideo {
  vi_data : DocumentSourceKind;
  vi_media_type : option VideoMediaType;
  vi_additional_params : option Json }.
#[global] Instance Video_eq_dec : EqDecision Video.
Proof. solve_decision. Defined.
Record Document : Type := mkDocument {
  do_data : DocumentSourceKind;
  do_media_type : option DocumentMediaType;
  do_additional_params : option Json }.
#[global] Instance Document_eq_dec : EqDecision Document.
Proof. solve_decision. Defined.

(** ** Tool calls and results *)

Record Text : Type := mkText { text : str }.
#[global] Instance Text_eq_dec : EqDecision Text.
Proof. solve_decision. Defined.

Inductive ToolResultContent : Type :=
| TRText (t : Text)
| TRImage (i : Image).
#[global] Instance ToolResultContent_eq_dec : EqDecision ToolResultContent.
Proof. solve_decision. Defined.

Record ToolResult : Type := mkToolResult {
  tr_id : str;
  tr_call_id : option str;
  tr_content : list ToolResultContent }.
#[global] Instance ToolResult_eq_dec : EqDecision ToolResult.
Proof. solve_decision. Defined.

Record ToolFunction : Type := mkToolFunction { tf_name : str; tf_arguments : Json }.
#[global] Instance ToolFunction_eq_dec : EqDecision ToolFunction.
Proof. solve_decision. Defined.

Record ToolCall : Type := mkToolCall {
  tc_id : str;
  tc_call_id : option str;
  tc_function : ToolFunction;
  tc_signature : option str;
  tc_additional_params : option Json }.
#[global] Instance ToolCall_eq_dec : EqDecision ToolCall.
Proof. solve_decision. Defined.

Definition ToolCall_new (id : str) (function : ToolFunction) : ToolCall :=
  mkToolCall id None function None None.
Definition with_call_id (call_id : str) (self : ToolCall) : ToolCall :=
  mkToolCall (tc_id self) (Some call_id) (tc_function self) (tc_signature self)
    (tc_additional_params self).

(** ** Reasoning *)

Inductive ReasoningContent : Type :=
| RText (t : str) (signature : option str)
| Encrypted (s : str)
| Redacted (data : str)
| Summary (s : str).
#[global] Instance ReasoningContent_eq_dec : EqDecision ReasoningContent.
Proof. solve_decision. Defined.

Record Reasoning : Type := mkReasoning {
  re_id : option str;
  re_content : list ReasoningContent }.
#[global] Instance Reasoning_eq_dec : EqDecision Reasoning.
Proof. solve_decision. Defined.

Definition Reasoning_new_with_signature (input : str) (signature : option str) : Reasoning :=
  mkReasoning None [RText input signature].
Definition Reasoning_new (input : str) : Reasoning := Reasoning_new_with_signature input None.
Definition Reasoning_with_id (id : str) (self : Reasoning) : Reasoning :=
  mkReasoning (Some id) (re_content self).

(** ** Messages *)

Inductive UserContent : Type :=
| UText (t : Text)
| UToolResult (r : ToolResult)
| UImage (i : Image)
| UAudio (a : Audio)
| UVideo (v : Video)
| UDocument (d : Document).
#[global] Instance UserContent_eq_dec : EqDecision UserContent.
Proof. solve_decision. Defined.

Inductive AssistantContent : Type :=
| AText (t : Text)
| AToolCall (c : ToolCall)
| AReasoning (r : Reasoning)
| AImage (i : Image).
#[global] Instance AssistantContent_eq_dec : EqDecision AssistantContent.
Proof. solve_decision. Defined.

Inductive Message : Type :=
| System (content : str)
| User (content : list UserContent)
| Assistant (id : option str) (content : list AssistantContent).
#[global] Instance Message_eq_dec : EqDecision Message.
Proof. solve_decision. Defined.

Definition message_system (t : str) : Message := System t.
Definition message_user (t : str) : Message := User [UText (mkText t)].
Definition message_assistant (t : str) : Message := Assistant None [AText (mkText t)].
Definition message_assistant_with_id (id t : str) : Message :=
  Assistant (Some id) [AText (mkText t)].

(** The first text block of a user message. *)
Fixpoint first_text (content : list UserContent) : option str :=
  match content with
  | [] => None
  | UText t :: _ => Some (text t)
  | _ :: rest => first_text rest
  end.
Definition rag_text (self : Message) : option str :=
  match self with User content => first_text content | _ => None end.

Definition tool_result_with_call_id (id call_id : str) (content : list ToolResultContent)
  : UserContent := UToolResult (mkToolResult id (Some call_id) content).
Definition user_tool_result (id : str) (content : list ToolResultContent) : UserContent :=
  UToolResult (mkToolResult id None content).

(** ** [ToolResultContent::from_tool_output]

    [from_str] is [serde_json::from_str::<Value>] and [to_string] the display of
    a value; both are parameters. *)
Section from_tool_output.
Context (from_str : str → option Json) (to_string : Json → str).

Definition is_image (v : Json) : bool :=
  is_some_and (λ t, str_eqb t (lit "image")) (json_get (lit "type") v ≫= as_str).

Definition image_of (v : Json) : option ToolResultContent :=
  match json_get (lit "data") v ≫= as_str, json_get (lit "mimeType") v ≫= as_str with
  | Some data, Some mime_type =>
      Some (TRImage (mkImage (from_data data) (from_mime_type mime_type) None None))
  | _, _ => None
  end.

Definition response_parts (json : Json) : list ToolResultContent :=
  match json_get (lit "response") json with
  | Some response => [TRText (mkText (to_string response))]
  | None => []
  end ++
  match json_get (lit "parts") json ≫= as_array with
  | Some parts => omap (λ part, if is_image part then image_of part else None) parts
  | None => []
  end.

Definition from_tool_output (output_str : str) : list ToolResultContent :=
  let plain := [TRText (mkText output_str)] in
  match from_str output_str with
  | None => plain
  | Some json =>
      let hybrid :=
        if bool_decide (is_Some (json_get (lit "response") json))
           || bool_decide (is_Some (json_get (lit "parts") json))
        then response_parts json else [] in
      match hybrid with
      | [] =>
          match (if is_image json then image_of json else None) with
          | Some image => [image]
          | None => plain
          end
      | results => results
      end
  end.

(** A tool output never becomes an empty tool result. *)
Lemma from_tool_output_nonempty output_str : from_tool_output output_str ≠ [].
Proof.
  unfold from_tool_output. destruct (from_str output_str) as [json|]; [|done].
  destruct (if _ || _ then _ else _); [|done]. by destruct (if is_image json then _ else _).
Qed.
End from_tool_output.
