(* ===== verification/History.v ===== *)
(** * Provider history

    The narrowing of a durable transcript to what a provider accepts
    ([src/crates/gents/src/compaction/history.rs] and the history half of
    [src/crates/gents/src/compaction.rs]): stubbing tool results, dropping
    orphaned results and unpaired calls, ordering assistant content, the
    pair-safe split of a transcript for a summary, and the cursor that names a
    compacted prefix.

    Parameters: [image_json_len], the length of the JSON of an image tool result
    ([serde_json], 0 when it does not serialize), and [estimate], the provider
    input estimate of a message list ([ProviderInputCounter], whose projections
    are [rig]'s). *)

From stdpp Require Import sorting.
From S2P Require Import Prelude RustStr Messages.
Open Scope Z_scope.

Definition tool_call_key (tool_call : ToolCall) : str :=
  default (tc_id tool_call) (tc_call_id tool_call).
Definition tool_result_key (tool_result : ToolResult) : str :=
  default (tr_id tool_result) (tr_call_id tool_result).

Definition is_read_tool (name : str) : bool :=
  existsb (str_eqb name)
    (lit <$> ["read_file"; "list_files"; "glob"; "grep"; "read"; "cat"; "search"; "find"; "query"]).
Definition is_write_tool (name : str) : bool :=
  existsb (str_eqb name)
    (lit <$> ["write_file"; "edit_file"; "write"; "edit"; "replace"; "apply_patch"]).

Record ToolCallInfo : Type := mkInfo {
  ti_name : str;
  ti_file_path : option str;
  ti_is_read : bool;
  ti_is_write : bool }.

Definition ToolCallInfo_from (tool_call : ToolCall) : ToolCallInfo :=
  let arguments := tf_arguments (tc_function tool_call) in
  let file_path :=
    (match json_get (lit "file_path") arguments with
     | Some v => Some v
     | None => json_get (lit "path") arguments
     end) ≫= as_str in
  let name := tf_name (tc_function tool_call) in
  let dry_run := default false (json_get (lit "dry_run") arguments ≫= as_bool) in
  let writes := is_write_tool name in
  mkInfo name file_path (is_read_tool name || (writes && dry_run)) (writes && negb dry_run).

(** ** Sourced messages *)

Record SourcedMessage : Type := mkSourced { source_index : nat; message : Message }.

Definition source_messages (messages : list Message) : list SourcedMessage :=
  imap mkSourced messages.
Definition messages_only (messages : list SourcedMessage) : list Message := message <$> messages.

Definition is_tool_call (item : AssistantContent) : bool :=
  match item with AToolCall _ => true | _ => false end.
Definition is_tool_result (item : UserContent) : bool :=
  match item with UToolResult _ => true | _ => false end.
Definition opens_turn (content : list AssistantContent) : bool := existsb is_tool_call content.
Definition has_plain_content (content : list UserContent) : bool :=
  existsb (λ item, negb (is_tool_result item)) content.
(** The call keys an assistant message announces, in order. *)
Definition call_keys (content : list AssistantContent) : list str :=
  omap (λ item, match item with AToolCall c => Some (tool_call_key c) | _ => None end) content.
(** The keys of the results a user message carries, in order. *)
Definition result_keys (content : list UserContent) : list str :=
  omap (λ item, match item with UToolResult r => Some (tool_result_key r) | _ => None end) content.

(** [tool_calls.insert(key, info)] for every announced call. *)
Definition note_calls (tool_calls : gmap str ToolCallInfo) (content : list AssistantContent)
    : gmap str ToolCallInfo :=
  foldl (λ m item, match item with
                   | AToolCall c => <[tool_call_key c := ToolCallInfo_from c]> m
                   | _ => m
                   end)
    (if opens_turn content then ∅ else tool_calls) content.

(** ** File activity *)

Record FileActivity : Type := mkActivity { files_read : list str; files_modified : list str }.

Fixpoint str_leb (a b : str) : bool :=
  match a, b with
  | [], _ => true
  | _ :: _, [] => false
  | x :: a', y :: b' => (x <? y) || ((x =? y) && str_leb a' b')
  end.
Definition str_le (a b : str) : Prop := str_leb a b = true.
#[global] Instance str_le_dec : RelDecision str_le := λ a b, bool_eq_dec (str_leb a b) true.
(** [Vec::dedup]: consecutive repeats are removed. *)
Fixpoint dedup (paths : list str) : list str :=
  match paths with
  | a :: ((b :: _) as rest) => if str_eqb a b then dedup rest else a :: dedup rest
  | short => short
  end.
Definition dedupe_paths (paths : list str) : list str :=
  dedup (merge_sort str_le paths).

Definition push_file_activity (activity : FileActivity) (info : ToolCallInfo) : FileActivity :=
  match ti_file_path info with
  | Some path =>
      if ti_is_write info
      then mkActivity (files_read activity) (files_modified activity ++ [path])
      else if ti_is_read info
      then mkActivity (files_read activity ++ [path]) (files_modified activity)
      else activity
  | None => activity
  end.

Definition credit_results (pending : gmap str ToolCallInfo) (content : list UserContent)
    (activity : FileActivity) : FileActivity :=
  foldl (λ acc key, match pending !! key with
                    | Some info => push_file_activity acc info
                    | None => acc
                    end) activity (result_keys content).

Fixpoint file_activity_loop (pending : gmap str ToolCallInfo) (activity : FileActivity)
    (messages : list Message) : FileActivity :=
  match messages with
  | [] => activity
  | Assistant _ content :: rest => file_activity_loop (note_calls pending content) activity rest
  | User content :: rest =>
      file_activity_loop pending (credit_results pending content activity) rest
  | System _ :: rest => file_activity_loop pending activity rest
  end.
Definition extract_file_activity (messages : list Message) : FileActivity :=
  let activity := file_activity_loop ∅ (mkActivity [] []) messages in
  mkActivity (dedupe_paths (files_read activity)) (dedupe_paths (files_modified activity)).

(** ** Stubs *)

Definition STUB_HEAD : str := lit "[tool: ".
Definition STUB_TAIL : str := lit "see DefraDB AgentToolCall for full output]".
(** [" — "], with an em dash. *)
Definition STUB_JOIN : str := [32; 8212; 32].
Definition STUB_TRUNCATED : str := lit ", truncated".
Definition TRUNCATION_MARKERS : list str :=
  [lit "[Full output: DefraDB doc "; lit "[Showing lines "].

Definition strip_suffix (suffix s : str) : option str :=
  (@rev char) <$> strip_prefix (rev suffix) (rev s).
(** [s.rsplit_once(sep)] for a string separator: the text on both sides of its
    last occurrence. *)
Definition rsplit_once_str (sep s : str) : option (str * str) :=
  match find_split (rev sep) (rev s) with
  | Some (a, b) => Some (rev b, rev a)
  | None => None
  end.

Record StubFacts : Type := mkFacts { sf_byte_count : Z; sf_truncated : bool }.

Definition parse_stub_text (t : str) : option StubFacts :=
  body ← strip_prefix STUB_HEAD t;
  body ← strip_suffix STUB_TAIL body;
  body ← strip_suffix STUB_JOIN body;
  let '(body, truncated) :=
    match strip_suffix STUB_TRUNCATED body with
    | Some head => (head, true)
    | None => (body, false)
    end in
  '(_, last) ← rsplit_once_str (lit ", ") body;
  count ← strip_suffix (lit " bytes") last;
  byte_count ← parse_unsigned usize_max count;
  Some (mkFacts byte_count truncated).
Definition parse_stub (tool_result : ToolResult) : option StubFacts :=
  match tr_content tool_result with
  | [TRText t] => parse_stub_text (text t)
  | _ => None
  end.

Definition tool_result_was_truncated (tool_result : ToolResult) : bool :=
  existsb (λ content, match content with
                      | TRText t => existsb (λ marker, contains marker (text t)) TRUNCATION_MARKERS
                      | _ => false
                      end) (tr_content tool_result).

(** The stub text itself. *)
Definition stub_text (info : option ToolCallInfo) (call_id : str) (facts : StubFacts) : str :=
  STUB_HEAD ++ match info with Some i => ti_name i | None => lit "unknown" end
  ++ match info ≫= ti_file_path with
     | Some path => lit "(" ++ path ++ lit ")"
     | None => []
     end
  ++ lit ", call_id: " ++ call_id ++ lit ", " ++ fmt_Z (sf_byte_count facts) ++ lit " bytes"
  ++ (if sf_truncated facts then STUB_TRUNCATED else []) ++ STUB_JOIN ++ STUB_TAIL.

Section stubs.
Context (image_json_len : Image → Z).

Definition content_byte_count (content : ToolResultContent) : Z :=
  match content with TRText t => str_len (text t) | TRImage i => image_json_len i end.
Definition tool_result_byte_count (tool_result : ToolResult) : Z :=
  foldr Z.add 0 (content_byte_count <$> tr_content tool_result).

Definition strip_tool_result (tool_result : ToolResult) (tool_calls : gmap str ToolCallInfo)
    : ToolResult :=
  let facts :=
    match parse_stub tool_result with
    | Some it => it
    | None => mkFacts (tool_result_byte_count tool_result) (tool_result_was_truncated tool_result)
    end in
  let call_id := tool_result_key tool_result in
  let stub := stub_text (tool_calls !! call_id) call_id facts in
  mkToolResult (tr_id tool_result) (tr_call_id tool_result) [TRText (mkText stub)].

Definition strip_item (tool_calls : gmap str ToolCallInfo) (item : UserContent) : UserContent :=
  match item with
  | UToolResult r => UToolResult (strip_tool_result r tool_calls)
  | other => other
  end.

Fixpoint strip_loop (tool_calls : gmap str ToolCallInfo) (messages : list SourcedMessage)
    : list SourcedMessage :=
  match messages with
  | [] => []
  | mkSourced i (Assistant id content) :: rest =>
      mkSourced i (Assistant id content) :: strip_loop (note_calls tool_calls content) rest
  | mkSourced i (User content) :: rest =>
      mkSourced i (User (strip_item tool_calls <$> content)) :: strip_loop tool_calls rest
  | mkSourced i (System content) :: rest =>
      mkSourced i (System content) :: strip_loop tool_calls rest
  end.

Definition strip_tool_results_sourced (messages : list SourcedMessage)
    : list SourcedMessage * FileActivity :=
  let file_activity := extract_file_activity (messages_only messages) in
  (strip_loop ∅ messages, file_activity).
Definition strip_tool_results (messages : list Message) : list Message * FileActivity :=
  let '(messages, file_activity) := strip_tool_results_sourced (source_messages messages) in
  (messages_only messages, file_activity).
End stubs.

(** ** Orphaned results *)

(** [content.into_iter().filter(..)] with the pending set the filter consumes:
    a result is kept when its key was pending, and the key is then erased. *)
Fixpoint keep_pending (pending : gset str) (content : list UserContent)
    : list UserContent * gset str :=
  match content with
  | [] => ([], pending)
  | UToolResult r :: rest =>
      let key := tool_result_key r in
      let '(kept, pending') := keep_pending (pending ∖ {[key]}) rest in
      (if bool_decide (key ∈ pending) then UToolResult r :: kept else kept, pending')
  | item :: rest =>
      let '(kept, pending') := keep_pending pending rest in (item :: kept, pending')
  end.

Fixpoint drop_orphaned_loop (pending_calls : gset str) (messages : list SourcedMessage)
    : list SourcedMessage :=
  match messages with
  | [] => []
  | mkSourced i (Assistant id content) :: rest =>
      mkSourced i (Assistant id content)
        :: drop_orphaned_loop (list_to_set (call_keys content)) rest
  | mkSourced i (User content) :: rest =>
      let '(kept, pending) := keep_pending pending_calls content in
      let pending := if has_plain_content content then ∅ else pending in
      match kept with
      | [] => drop_orphaned_loop pending rest
      | _ => mkSourced i (User kept) :: drop_orphaned_loop pending rest
      end
  | mkSourced i (System content) :: rest =>
      mkSourced i (System content) :: drop_orphaned_loop ∅ rest
  end.
Definition drop_orphaned_tool_results_sourced (messages : list SourcedMessage)
    : list SourcedMessage := drop_orphaned_loop ∅ messages.
Definition drop_orphaned_tool_results (messages : list Message) : list Message :=
  messages_only (drop_orphaned_tool_results_sourced (source_messages messages)).

(** ** Unpaired calls *)

Definition insert_keys (keys : list str) (s : gset str) : gset str := s ∪ list_to_set keys.

Fixpoint resolved_loop (per_turn : list (gset str)) (active_turn : option nat) (index : nat)
    (messages : list Message) : list (gset str) :=
  match messages with
  | [] => per_turn
  | Assistant _ _ :: rest => resolved_loop per_turn (Some index) (S index) rest
  | User content :: rest =>
      let per_turn :=
        match active_turn with
        | Some turn => alter (insert_keys (result_keys content)) turn per_turn
        | None => per_turn
        end in
      resolved_loop per_turn (if has_plain_content content then None else active_turn)
        (S index) rest
  | System _ :: rest => resolved_loop per_turn None (S index) rest
  end.
Definition resolved_keys_per_turn (len : nat) (messages : list Message) : list (gset str) :=
  resolved_loop (replicate len ∅) None 0 messages.

(** The filter of one assistant message with the set of keys already announced:
    a call survives when it is resolved and the first of its key. *)
Fixpoint keep_resolved (resolved announced : gset str) (content : list AssistantContent)
    : list AssistantContent :=
  match content with
  | [] => []
  | AToolCall c :: rest =>
      let key := tool_call_key c in
      if bool_decide (key ∈ resolved) then
        if bool_decide (key ∈ announced) then keep_resolved resolved announced rest
        else AToolCall c :: keep_resolved resolved ({[key]} ∪ announced) rest
      else keep_resolved resolved announced rest
  | item :: rest => item :: keep_resolved resolved announced rest
  end.

Definition keep_paired (resolved_per_turn : list (gset str)) (index : nat)
    (sourced : SourcedMessage) : option SourcedMessage :=
  match message sourced with
  | Assistant id content =>
      let resolved := default ∅ (resolved_per_turn !! index) in
      match keep_resolved resolved ∅ content with
      | [] => None
      | kept => Some (mkSourced (source_index sourced) (Assistant id kept))
      end
  | other => Some (mkSourced (source_index sourced) other)
  end.
Definition drop_unpaired_tool_calls_sourced (messages : list SourcedMessage)
    : list SourcedMessage :=
  let resolved_per_turn := resolved_keys_per_turn (length messages) (messages_only messages) in
  omap id (imap (keep_paired resolved_per_turn) messages).
Definition drop_unpaired_tool_calls (messages : list Message) : list Message :=
  messages_only (drop_unpaired_tool_calls_sourced (source_messages messages)).

(** ** Content order *)

Definition is_text (item : AssistantContent) : bool :=
  match item with AText _ => true | _ => false end.
Definition is_middle (item : AssistantContent) : bool :=
  match item with AText _ | AToolCall _ => false | _ => true end.
Definition order_content (content : list AssistantContent) : list AssistantContent :=
  List.filter is_text content ++ List.filter is_middle content
  ++ List.filter is_tool_call content.
Definition normalize_message (m : Message) : Message :=
  match m with
  | Assistant id content => Assistant id (order_content content)
  | other => other
  end.
Definition normalize_assistant_content_order_sourced (messages : list SourcedMessage)
    : list SourcedMessage :=
  (λ s, mkSourced (source_index s) (normalize_message (message s))) <$> messages.
Definition normalize_assistant_content_order (messages : list Message) : list Message :=
  messages_only (normalize_assistant_content_order_sourced (source_messages messages)).

(** ** The provider view *)

Definition sanitize_history_for_provider (messages : list Message) : list Message :=
  normalize_assistant_content_order
    (drop_unpaired_tool_calls (drop_orphaned_tool_results messages)).

Section view.
Context (image_json_len : Image → Z).

Definition provider_view (messages : list Message) : list Message * FileActivity :=
  let '(stripped, activity) := strip_tool_results image_json_len messages in
  (sanitize_history_for_provider stripped, activity).

Definition provider_view_with_sources (messages : list Message)
    : list SourcedMessage * FileActivity :=
  let '(stripped, activity) :=
    strip_tool_results_sourced image_json_len (source_messages messages) in
  (normalize_assistant_content_order_sourced
     (drop_unpaired_tool_calls_sourced (drop_orphaned_tool_results_sourced stripped)),
   activity).

(** The rows of a session: each message with its sequence number. *)
Definition compacted_through_sequence (rows : list (Z * Message)) (provider_prefix_len : nat)
    : option Z :=
  if (provider_prefix_len =? 0)%nat || (length rows =? 0)%nat then None else
  let messages := snd <$> rows in
  let sourced_view := fst (provider_view_with_sources messages) in
  if (length sourced_view <? provider_prefix_len)%nat then None else
  let split :=
    match sourced_view !! provider_prefix_len with
    | Some item => source_index item
    | None => length rows
    end in
  if (split =? 0)%nat then None else
  let prefix_view := fst (provider_view (take split messages)) in
  if negb (length prefix_view =? provider_prefix_len)%nat then None else
  let suffix_view := fst (provider_view (drop split messages)) in
  let full_view := message <$> sourced_view in
  if bool_decide (prefix_view ++ suffix_view = full_view)
  then fst <$> rows !! (split - 1)%nat
  else None.

Record ExactReduction : Type := mkExact {
  compacted_prefix : list Message;
  retained_suffix : list Message;
  checkpoint : str }.

Inductive CursorError : Type := PrefixExceedsHistory | NotAPartition | PrefixCountOverflow.

Definition session_cursor_for_reduction (rows : list (Z * Message))
    (prior_provider_prefix : nat) (reduction : ExactReduction)
    : result CursorError (option Z) :=
  let full_provider_view := fst (provider_view (snd <$> rows)) in
  let? _ := ensure (prior_provider_prefix <=? length full_provider_view)%nat
              PrefixExceedsHistory in
  let active := sanitize_history_for_provider (drop prior_provider_prefix full_provider_view) in
  let? _ := ensure (bool_decide
              (compacted_prefix reduction ++ retained_suffix reduction = active))
              NotAPartition in
  let? cumulative_prefix := ok_or PrefixCountOverflow
    (checked_add usize_max (Z.of_nat prior_provider_prefix)
       (Z.of_nat (length (compacted_prefix reduction)))) in
  let candidate := compacted_through_sequence rows (Z.to_nat cumulative_prefix) in
  Ok (opt_filter (λ cursor,
        let suffix := snd <$> List.filter (λ row, cursor <? fst row) rows in
        bool_decide (fst (provider_view suffix) = retained_suffix reduction)) candidate).
End view.

(** ** The passes on plain messages

    Each pass as a recursion on the messages alone: what the passes on sourced
    messages do to the message component. *)

Fixpoint orphans (p : gset str) (l : list Message) : list Message :=
  match l with
  | [] => []
  | Assistant id c :: rest => Assistant id c :: orphans (list_to_set (call_keys c)) rest
  | User c :: rest =>
      let '(kept, p') := keep_pending p c in
      let p' := if has_plain_content c then ∅ else p' in
      match kept with [] => orphans p' rest | _ => User kept :: orphans p' rest end
  | System c :: rest => System c :: orphans ∅ rest
  end.

(** The keys of the results of the turn that is open before [l]. *)
Fixpoint turn_results (l : list Message) : gset str :=
  match l with
  | User c :: rest =>
      list_to_set (result_keys c) ∪ (if has_plain_content c then ∅ else turn_results rest)
  | _ => ∅
  end.

Definition keep_message (m : Message) (rest : list Message) : option Message :=
  match m with
  | Assistant id c =>
      match keep_resolved (turn_results rest) ∅ c with
      | [] => None
      | kept => Some (Assistant id kept)
      end
  | other => Some other
  end.
Fixpoint unpaired (l : list Message) : list Message :=
  match l with
  | [] => []
  | m :: rest =>
      match keep_message m rest with
      | Some m' => m' :: unpaired rest
      | None => unpaired rest
      end
  end.
(** The same with the source indices. *)
Fixpoint unpaired_sourced (l : list SourcedMessage) : list SourcedMessage :=
  match l with
  | [] => []
  | s :: rest =>
      match keep_message (message s) (messages_only rest) with
      | Some m' => mkSourced (source_index s) m' :: unpaired_sourced rest
      | None => unpaired_sourced rest
      end
  end.

(** [resolved_keys_per_turn] collects, for the assistant message at an index,
    the results of the turn it opens. *)
Lemma resolved_loop_other l : ∀ pt active i j, (j < i)%nat -> active ≠ Some j ->
  resolved_loop pt active i l !! j = pt !! j.
Proof.
  induction l as [|[c|c|id c] l IH]; intros pt active i j Hj Ha; cbn [resolved_loop]; [done|..].
  - apply IH; [lia|done].
  - rewrite IH; [|lia|by destruct (has_plain_content c)].
    destruct active as [t|]; [|done]. rewrite list_lookup_alter_ne; [done|congruence].
  - apply IH; [lia|]. intros [= ->]. lia.
Qed.

Lemma resolved_loop_active l : ∀ pt i j, (j < i)%nat ->
  resolved_loop pt (Some j) i l !! j = (λ s, s ∪ turn_results l) <$> pt !! j.
Proof.
  induction l as [|[c|c|id c] l IH]; intros pt i j Hj; cbn [resolved_loop turn_results].
  - destruct (pt !! j) as [s|]; [|done]. simpl. f_equal. set_solver.
  - rewrite resolved_loop_other by (lia || done).
    destruct (pt !! j) as [s|]; [|done]. simpl. f_equal. set_solver.
  - destruct (has_plain_content c).
    + rewrite resolved_loop_other by (lia || done). rewrite list_lookup_alter_eq.
      destruct (pt !! j) as [s|]; [|done]. simpl. f_equal. unfold insert_keys. set_solver.
    + rewrite IH by lia. rewrite list_lookup_alter_eq.
      destruct (pt !! j) as [s|]; [|done]. simpl. f_equal. unfold insert_keys. set_solver.
  - rewrite resolved_loop_other; [|lia|intros [= ->]; lia].
    destruct (pt !! j) as [s|]; [|done]. simpl. f_equal. set_solver.
Qed.

Lemma drop_unpaired_loop l : ∀ pt active i,
  (∀ j, (i <= j < i + length l)%nat -> pt !! j = Some ∅) ->
  (∀ j, active = Some j -> (j < i)%nat) ->
  omap id (imap (λ k, keep_paired (resolved_loop pt active i (messages_only l)) (i + k)) l)
  = unpaired_sourced l.
Proof.
  induction l as [|[si m] l IH]; intros pt active i Hpt Ha; [done|].
  rewrite imap_cons. cbn [messages_only fmap list_fmap message]. fold messages_only.
  assert (Htail : ∀ pt' active', (∀ j, (S i <= j < S i + length l)%nat -> pt' !! j = Some ∅) ->
    (∀ j, active' = Some j -> (j < S i)%nat) ->
    omap id (imap ((λ k, keep_paired (resolved_loop pt' active' (S i) (messages_only l)) (i + k))
      ∘ S) l) = unpaired_sourced l).
  { intros pt' active' H1 H2. rewrite <-(IH pt' active' (S i) H1 H2). f_equal.
    apply imap_ext. intros k x _. simpl. by rewrite Nat.add_succ_r. }
  assert (Hpt' : ∀ j, (S i <= j < S i + length l)%nat -> pt !! j = Some ∅)
    by (intros j Hj; apply Hpt; simpl; lia).
  rewrite Nat.add_0_r. cbn [unpaired_sourced message source_index].
  destruct m as [c|c|mid c]; cbn [resolved_loop keep_message].
  - cbn [omap list_omap id keep_paired message source_index]. f_equal. by apply Htail.
  - cbn [omap list_omap id keep_paired message source_index]. f_equal. apply Htail.
    + intros j Hj. destruct active as [t|]; [|by apply Hpt'].
      specialize (Ha t eq_refl). rewrite list_lookup_alter_ne by lia. by apply Hpt'.
    + intros j Hj. destruct (has_plain_content c); [done|]. specialize (Ha j Hj). lia.
  - change (message <$> l) with (messages_only l).
    set (R := resolved_loop pt (Some i) (S i) (messages_only l)).
    assert (HR : keep_paired R i (mkSourced si (Assistant mid c)) =
      (λ m', mkSourced si m') <$> keep_message (Assistant mid c) (messages_only l)).
    { unfold keep_paired. cbn [message source_index]. subst R.
      rewrite resolved_loop_active by lia. rewrite Hpt by (simpl; lia). simpl.
      rewrite (left_id_L ∅ (∪)). by destruct (keep_resolved _ ∅ c). }
    cbn [omap list_omap]. rewrite HR. cbn [keep_message].
    destruct (keep_resolved (turn_results (messages_only l)) ∅ c) eqn:E; simpl;
      [|f_equal]; (apply Htail; [done|intros j [= ->]; lia]).
Qed.

Lemma drop_unpaired_sourced_eq l : drop_unpaired_tool_calls_sourced l = unpaired_sourced l.
Proof.
  unfold drop_unpaired_tool_calls_sourced, resolved_keys_per_turn.
  apply (drop_unpaired_loop l (replicate (length l) ∅) None 0); [|done].
  intros j Hj. rewrite lookup_replicate_2; [done|lia].
Qed.

Lemma messages_only_source l : messages_only (source_messages l) = l.
Proof.
  unfold messages_only, source_messages. rewrite fmap_imap.
  rewrite <-(list_fmap_id l) at 2. rewrite <-imap_const. by apply imap_ext.
Qed.

Lemma messages_only_unpaired l : messages_only (unpaired_sourced l) = unpaired (messages_only l).
Proof.
  induction l as [|s l IH]; [done|]. simpl. fold (messages_only l).
  destruct (keep_message _ _); simpl; by rewrite <-IH.
Qed.

Lemma messages_only_orphans l : ∀ p,
  messages_only (drop_orphaned_loop p l) = orphans p (messages_only l).
Proof.
  induction l as [|[i [c|c|mid c]] l IH]; intros p; cbn; [done|by f_equal| |by f_equal].
  destruct (keep_pending p c) as [kept p']. destruct kept; cbn; [apply IH|f_equal; apply IH].
Qed.

Lemma sanitize_eq l : sanitize_history_for_provider l =
  normalize_message <$> unpaired (orphans ∅ l).
Proof.
  unfold sanitize_history_for_provider, normalize_assistant_content_order,
    normalize_assistant_content_order_sourced, drop_unpaired_tool_calls,
    drop_orphaned_tool_results, drop_orphaned_tool_results_sourced.
  rewrite drop_unpaired_sourced_eq, messages_only_unpaired, messages_only_source,
    messages_only_orphans, messages_only_source.
  unfold messages_only. rewrite <-list_fmap_compose.
  rewrite <-(messages_only_source (unpaired (orphans ∅ l))) at 2.
  unfold messages_only. by rewrite <-list_fmap_compose.
Qed.

(** ** Well-paired histories

    What a strict provider accepts: no empty message; the calls of an assistant
    message have distinct keys and each is answered exactly once before the turn
    ends, by a result of a call of that turn. *)

Fixpoint consume (pending : gset str) (keys : list str) : option (gset str) :=
  match keys with
  | [] => Some pending
  | k :: ks => if bool_decide (k ∈ pending) then consume (pending ∖ {[k]}) ks else None
  end.

Fixpoint well_paired (pending : gset str) (l : list Message) : bool :=
  match l with
  | [] => bool_decide (pending = ∅)
  | Assistant _ c :: rest =>
      bool_decide (pending = ∅) && bool_decide (c ≠ []) && bool_decide (NoDup (call_keys c))
      && well_paired (list_to_set (call_keys c)) rest
  | User c :: rest =>
      bool_decide (c ≠ []) &&
      match consume pending (result_keys c) with
      | Some open =>
          (negb (has_plain_content c) || bool_decide (open = ∅)) && well_paired open rest
      | None => false
      end
  | System _ :: rest => bool_decide (pending = ∅) && well_paired ∅ rest
  end.

(** Every result finds its call, which may still lack a result. *)
Fixpoint no_orphans (p : gset str) (l : list Message) : Prop :=
  match l with
  | [] => True
  | Assistant _ c :: rest => no_orphans (list_to_set (call_keys c)) rest
  | User c :: rest =>
      c ≠ [] ∧ ∃ p', consume p (result_keys c) = Some p' ∧
        no_orphans (if has_plain_content c then ∅ else p') rest
  | System _ :: rest => no_orphans ∅ rest
  end.

Lemma consume_Some p keys p' : consume p keys = Some p' ->
  p' = p ∖ list_to_set keys ∧ list_to_set keys ⊆ p ∧ NoDup keys.
Proof.
  revert p. induction keys as [|k ks IH]; intros p; simpl.
  { intros [= ->]. split_and!; [set_solver|set_solver|constructor]. }
  case_bool_decide as Hk; [|done]. intros (-> & Hsub & Hnd)%IH.
  split_and!; [set_solver|set_solver|]. constructor; [|done].
  intros Hin. specialize (Hsub k). set_solver.
Qed.

Lemma consume_ok p keys : list_to_set keys ⊆ p -> NoDup keys ->
  consume p keys = Some (p ∖ list_to_set keys).
Proof.
  revert p. induction keys as [|k ks IH]; intros p Hsub Hnd; simpl; [f_equal; set_solver|].
  inversion_clear Hnd as [|? ? Hk Hnd'].
  rewrite bool_decide_eq_true_2 by set_solver. rewrite IH; [f_equal; set_solver| |exact Hnd'].
  intros x Hx. assert (x ≠ k); [|set_solver]. intros ->. by apply elem_of_list_to_set in Hx.
Qed.

Lemma keep_pending_consume p c kept p' : keep_pending p c = (kept, p') ->
  consume p (result_keys kept) = Some p' ∧ p' = p ∖ list_to_set (result_keys c).
Proof.
  revert p kept p'. induction c as [|item c IH]; intros p kept p'; cbn [keep_pending].
  { intros [= <- <-]. split; [done|]. set_solver. }
  destruct item as [t|r|i|a|v|d]; cbn [keep_pending].
  all: destruct (keep_pending _ c) as [k q] eqn:E; intros [= <- <-];
    apply IH in E as [Hc ->].
  2: { cbn [result_keys omap list_omap]. fold (result_keys c). case_bool_decide as Hin.
       - cbn [result_keys omap list_omap consume]. fold (result_keys k).
         rewrite bool_decide_eq_true_2 by done. split; [done|set_solver].
       - assert (p ∖ {[tool_result_key r]} = p) as Hp by set_solver.
         rewrite Hp in *. split; [done|set_solver]. }
  all: by split.
Qed.

Lemma keep_pending_plain p c kept p' : keep_pending p c = (kept, p') ->
  has_plain_content kept = has_plain_content c.
Proof.
  revert p kept p'. induction c as [|item c IH]; intros p kept p'; cbn [keep_pending].
  { by intros [= <- <-]. }
  destruct item; destruct (keep_pending _ c) as [k q] eqn:E; intros [= <- <-];
    apply IH in E; [done| |done..].
  case_bool_decide; [exact E|exact E].
Qed.

Lemma no_orphans_orphans l : ∀ p, no_orphans p (orphans p l).
Proof.
  induction l as [|[c|c|mid c] l IH]; intros p; cbn [orphans no_orphans]; [done|by apply IH| |by apply IH].
  destruct (keep_pending p c) as [kept p'] eqn:E.
  pose proof (keep_pending_plain _ _ _ _ E) as Hpl.
  apply keep_pending_consume in E as [Hc _].
  destruct kept as [|k0 kept].
  - simpl in Hpl, Hc. injection Hc as <-. rewrite <-Hpl. apply IH.
  - cbn [no_orphans]. split; [done|]. exists p'. split; [done|]. rewrite Hpl. apply IH.
Qed.

Lemma no_orphans_results p l : no_orphans p l -> turn_results l ⊆ p.
Proof.
  revert p. induction l as [|[c|c|mid c] l IH]; intros p; cbn [no_orphans turn_results];
    try set_solver.
  intros (_ & p' & Hc & Hl). apply consume_Some in Hc as (-> & Hsub & _).
  destruct (has_plain_content c); [set_solver|]. specialize (IH _ Hl). set_solver.
Qed.

(** What the filter of one assistant message keeps. *)
Lemma keep_resolved_keys resolved announced c k :
  k ∈ call_keys (keep_resolved resolved announced c) <->
  k ∈ call_keys c ∧ k ∈ resolved ∧ k ∉ announced.
Proof.
  revert announced. induction c as [|item c IH]; intros announced.
  { cbn. set_solver. }
  destruct item as [t|tc|r|i]; cbn [keep_resolved]; try apply IH.
  change (call_keys (AToolCall tc :: c)) with (tool_call_key tc :: call_keys c).
  rewrite elem_of_cons.
  case_bool_decide as Hr; [case_bool_decide as Ha|].
  - rewrite IH. set_solver.
  - change (call_keys (AToolCall tc :: ?x)) with (tool_call_key tc :: call_keys x).
    rewrite elem_of_cons, IH. destruct (decide (k = tool_call_key tc)); set_solver.
  - rewrite IH. set_solver.
Qed.

Lemma keep_resolved_nodup resolved announced c :
  NoDup (call_keys (keep_resolved resolved announced c)).
Proof.
  revert announced. induction c as [|item c IH]; intros announced; [constructor|].
  destruct item as [t|tc|r|i]; cbn [keep_resolved]; try apply IH.
  repeat case_bool_decide; try apply IH. cbn [call_keys omap list_omap].
  constructor; [|apply IH].
  change (tool_call_key tc ∉ call_keys (keep_resolved resolved ({[tool_call_key tc]} ∪ announced) c)).
  rewrite keep_resolved_keys. set_solver.
Qed.

Lemma keep_resolved_id resolved announced c :
  NoDup (call_keys c) -> (∀ k, k ∈ call_keys c -> k ∈ resolved ∧ k ∉ announced) ->
  keep_resolved resolved announced c = c.
Proof.
  revert announced. induction c as [|item c IH]; intros announced Hnd Hk; [done|].
  destruct item as [t|tc|r|i]; cbn [keep_resolved]; try (f_equal; by apply IH).
  cbn [call_keys omap list_omap] in Hnd, Hk. fold (call_keys c) in Hnd, Hk.
  inversion_clear Hnd as [|? ? Hn Hnd'].
  destruct (Hk (tool_call_key tc)) as [Hr Ha]; [left|].
  rewrite bool_decide_eq_true_2, bool_decide_eq_false_2 by done. f_equal.
  apply IH; [exact Hnd'|]. intros k Hin. destruct (Hk k); [by right|]. split; [done|].
  intros [->%elem_of_singleton|]%elem_of_union; done.
Qed.

Lemma call_keys_app a b : call_keys (a ++ b) = call_keys a ++ call_keys b.
Proof. apply omap_app. Qed.

Lemma call_keys_order c : call_keys (order_content c) = call_keys c.
Proof.
  unfold order_content. rewrite !call_keys_app.
  assert (∀ f, (∀ tc, f (AToolCall tc) = false) -> call_keys (List.filter f c) = []) as Hnone.
  { intros f Hf. induction c as [|[t|tc|r|i] c IH]; [done|..]; cbn [List.filter];
      rewrite ?Hf; try destruct (f _); exact IH. }
  rewrite !Hnone by done. clear Hnone. simpl.
  induction c as [|[t|tc|r|i] c IH]; [done|exact IH| |exact IH|exact IH].
  cbn [List.filter is_tool_call].
  change (call_keys (AToolCall tc :: ?x)) with (tool_call_key tc :: call_keys x).
  by f_equal.
Qed.

Lemma order_content_nil c : order_content c = [] -> c = [].
Proof.
  unfold order_content. destruct c as [|[t|tc|r|i] c]; [done|..]; cbn; intros H; try done;
    by repeat apply app_eq_nil in H as [? H].
Qed.

Lemma order_content_idemp c : order_content (order_content c) = order_content c.
Proof.
  unfold order_content. rewrite !List.filter_app.
  assert (∀ f g : AssistantContent → bool, (∀ x, f x = true -> g x = false) ->
    List.filter g (List.filter f c) = []) as Hdis.
  { intros f g H. induction c as [|x c IH]; [done|]. cbn. destruct (f x) eqn:E; cbn;
      rewrite ?(H _ E); done. }
  assert (∀ f : AssistantContent → bool, List.filter f (List.filter f c) = List.filter f c)
    as Hsame.
  { intros f. clear Hdis. induction c as [|x c IH]; [done|]. cbn. destruct (f x) eqn:E; cbn;
      by rewrite ?E, ?IH. }
  rewrite !Hsame, !Hdis by (by intros [] ). by rewrite !app_nil_r.
Qed.

Lemma well_paired_normalize l : ∀ p, well_paired p (normalize_message <$> l) = well_paired p l.
Proof.
  induction l as [|[c|c|mid c] l IH]; intros p; [done|..];
    cbn [fmap list_fmap normalize_message well_paired]; fold (normalize_message <$> l);
    change (list_fmap _ _ normalize_message l) with (normalize_message <$> l).
  - by rewrite IH.
  - destruct (consume _ _); by rewrite ?IH.
  - rewrite IH, call_keys_order. do 3 f_equal. apply bool_decide_ext.
    split; [intros H ->; by apply H|intros H ->%order_content_nil; done].
Qed.

Lemma unpaired_well_paired p l : no_orphans p l -> well_paired (turn_results l) (unpaired l) = true.
Proof.
  revert p. induction l as [|[c|c|mid c] l IH]; intros p; cbn [no_orphans unpaired keep_message].
  - intros _. by apply bool_decide_eq_true.
  - intros H. pose proof (no_orphans_results _ _ H) as Hs. cbn [turn_results well_paired].
    rewrite bool_decide_eq_true_2 by done. replace ∅ with (turn_results l) by set_solver.
    by eapply IH.
  - intros (Hne & p' & Hc & H). apply consume_Some in Hc as (-> & Hsub & Hnd).
    pose proof (no_orphans_results _ _ H) as Hs. cbn [turn_results well_paired].
    rewrite bool_decide_eq_true_2 by done. cbn [andb].
    rewrite consume_ok by (done || set_solver).
    destruct (has_plain_content c) eqn:Epl.
    + replace (_ ∖ _) with (turn_results l) by set_solver.
      rewrite bool_decide_eq_true_2 by set_solver. by eapply IH.
    + replace (_ ∖ _) with (turn_results l) by set_solver. by eapply IH.
  - intros H. pose proof (no_orphans_results _ _ H) as Hs.
    pose proof (keep_resolved_keys (turn_results l) ∅ c) as Hk.
    pose proof (keep_resolved_nodup (turn_results l) ∅ c) as Hnd.
    assert (Hset : list_to_set (call_keys (keep_resolved (turn_results l) ∅ c)) = turn_results l).
    { apply set_eq. intros k. rewrite elem_of_list_to_set, Hk. specialize (Hs k).
      rewrite elem_of_list_to_set in Hs. set_solver. }
    cbn [turn_results]. destruct (keep_resolved (turn_results l) ∅ c) as [|k0 kept] eqn:E.
    + cbn in Hset. rewrite Hset. by eapply IH.
    + cbn [well_paired]. rewrite Hset.
      rewrite !bool_decide_eq_true_2 by done. by eapply IH.
Qed.

(** A well-paired list of non-empty messages is left alone by both passes. *)
Lemma keep_pending_id p c p' : consume p (result_keys c) = Some p' -> keep_pending p c = (c, p').
Proof.
  revert p. induction c as [|item c IH]; intros p; cbn [keep_pending]; [by intros [= ->]|].
  destruct item as [t|r|i|a|v|d]; try (intros H; by rewrite (IH _ H)).
  change (result_keys (UToolResult r :: c)) with (tool_result_key r :: result_keys c).
  cbn [consume]. case_bool_decide; [|done]. intros H'. by rewrite (IH _ H').
Qed.

Lemma well_paired_orphans p l : well_paired p l = true -> orphans p l = l.
Proof.
  revert p. induction l as [|[c|c|mid c] l IH]; intros p; cbn [well_paired orphans]; [done|..].
  - intros [? ?]%andb_true_iff. f_equal. by apply IH.
  - intros [Hc H]%andb_true_iff. apply bool_decide_eq_true in Hc.
    destruct (consume p (result_keys c)) as [p'|] eqn:E; [|done].
    rewrite (keep_pending_id _ _ _ E). apply andb_true_iff in H as [Hp H].
    assert ((if has_plain_content c then ∅ else p') = p') as ->.
    { destruct (has_plain_content c); [|done]. cbn in Hp. by apply bool_decide_eq_true in Hp. }
    rewrite (IH _ H). by destruct c.
  - intros [_ H]%andb_true_iff. f_equal. by apply IH.
Qed.

Lemma well_paired_results p l : well_paired p l = true -> turn_results l = p.
Proof.
  revert p. induction l as [|[c|c|mid c] l IH]; intros p; cbn [well_paired turn_results].
  - intros H%bool_decide_eq_true. done.
  - intros [H _]%andb_true_iff. by apply bool_decide_eq_true in H.
  - intros [_ H]%andb_true_iff.
    destruct (consume p (result_keys c)) as [p'|] eqn:E; [|done].
    apply consume_Some in E as (-> & Hsub & _). apply andb_true_iff in H as [Hp H].
    destruct (has_plain_content c); cbn in Hp.
    + apply bool_decide_eq_true in Hp. clear IH H. apply set_eq. intros x.
      destruct (decide (x ∈ result_keys c)); set_solver.
    + rewrite (IH _ H). apply set_eq. intros x. destruct (decide (x ∈ result_keys c)); set_solver.
  - intros H. bool_prop. symmetry. by eapply bool_decide_eq_true.
Qed.

Lemma well_paired_unpaired p l : well_paired p l = true -> unpaired l = l.
Proof.
  revert p. induction l as [|[c|c|mid c] l IH]; intros p; cbn [well_paired unpaired keep_message];
    [done|..].
  - intros [_ H]%andb_true_iff. f_equal. by eapply IH.
  - intros [_ H]%andb_true_iff. destruct (consume _ _); [|done].
    apply andb_true_iff in H as [_ H]. f_equal. by eapply IH.
  - intros H. bool_prop.
    match goal with H1 : bool_decide (c ≠ []) = true, H2 : bool_decide (NoDup _) = true,
      H3 : well_paired _ l = true |- _ =>
      apply bool_decide_eq_true in H1, H2; rename H1 into Hne, H2 into Hnd, H3 into Hw end.
    rewrite keep_resolved_id; [|done|].
    + rewrite (IH _ Hw). by destruct c.
    + rewrite (well_paired_results _ _ Hw). set_solver.
Qed.

Lemma sanitize_well_paired l : well_paired ∅ (sanitize_history_for_provider l) = true.
Proof.
  rewrite sanitize_eq, well_paired_normalize.
  pose proof (no_orphans_orphans l ∅) as H. pose proof (no_orphans_results _ _ H) as Hs.
  replace ∅ with (turn_results (orphans ∅ l)) at 1 by set_solver. by eapply unpaired_well_paired.
Qed.

Definition normalized (l : list Message) : Prop := normalize_message <$> l = l.

Lemma normalize_idemp l : normalized (normalize_message <$> l).
Proof.
  unfold normalized. rewrite <-list_fmap_compose. apply list_fmap_ext. intros i m _.
  destruct m; simpl; by rewrite ?order_content_idemp.
Qed.

Lemma sanitize_fixed l : well_paired ∅ l = true -> normalized l ->
  sanitize_history_for_provider l = l.
Proof.
  intros Hw Hn. rewrite sanitize_eq, (well_paired_orphans _ _ Hw).
  by rewrite (well_paired_unpaired _ _ Hw).
Qed.

Lemma sanitize_normalized l : normalized (sanitize_history_for_provider l).
Proof. rewrite sanitize_eq. apply normalize_idemp. Qed.

(** ** Stubs read back *)

Lemma strip_suffix_app a b : strip_suffix b (a ++ b) = Some a.
Proof.
  unfold strip_suffix. rewrite rev_app_distr, (proj2 (strip_prefix_Some _ _ (rev a))) by done.
  simpl. by rewrite rev_involutive.
Qed.

(** A suffix is not found behind a text that ends with another character. *)
Lemma strip_suffix_last a b c d : c ≠ d -> strip_suffix (a ++ [c]) (b ++ [d]) = None.
Proof.
  intros Hne. unfold strip_suffix. rewrite !rev_app_distr. simpl.
  destruct (Z.eqb_spec c d); [congruence|done].
Qed.

Lemma find_split_pair (c1 c2 : char) y z : c1 ≠ c2 -> c2 ∉ y ->
  find_split [c1; c2] (y ++ c1 :: c2 :: z) = Some (y, z).
Proof.
  intros Hne. induction y as [|a y IH]; intros Hy.
  { cbn. by rewrite !Z.eqb_refl. }
  assert (strip_prefix [c1; c2] ((a :: y) ++ c1 :: c2 :: z) = None) as Hnone.
  { cbn [strip_prefix app]. destruct (c1 =? a); [|done].
    destruct y as [|b y]; cbn [app].
    - by destruct (Z.eqb_spec c2 c1); [congruence|].
    - destruct (Z.eqb_spec c2 b) as [->|]; [|done]. set_solver. }
  cbn [app] in *. cbn [find_split]. rewrite Hnone. rewrite IH by set_solver. done.
Qed.

Lemma rsplit_once_comma a b : 44 ∉ b ->
  rsplit_once_str (lit ", ") (a ++ lit ", " ++ b) = Some (a, b).
Proof.
  intros Hb. unfold rsplit_once_str. rewrite !rev_app_distr, <-app_assoc.
  change (rev (lit ", ")) with [32; 44]. cbn [app].
  rewrite find_split_pair; [by rewrite !rev_involutive|done|].
  by rewrite list_elem_of_In, <-in_rev, <-list_elem_of_In.
Qed.

Lemma parse_stub_stub info call_id facts :
  0 <= sf_byte_count facts <= usize_max ->
  parse_stub_text (stub_text info call_id facts) = Some facts.
Proof.
  intros Hn. destruct facts as [n tr]. cbn [sf_byte_count] in Hn.
  unfold parse_stub_text, stub_text. cbn [sf_byte_count sf_truncated].
  set (label := match info with Some i => ti_name i | None => lit "unknown" end).
  set (arg := match info ≫= ti_file_path with
     | Some path => lit "(" ++ path ++ lit ")" | None => [] end).
  rewrite (proj2 (strip_prefix_Some STUB_HEAD _ _) eq_refl). cbn [mbind option_bind].
  set (front := label ++ arg ++ lit ", call_id: " ++ call_id).
  set (tail := fmt_Z n ++ lit " bytes").
  assert (Hbody : label ++ arg ++ lit ", call_id: " ++ call_id ++ lit ", " ++ fmt_Z n ++
      lit " bytes" ++ (if tr then STUB_TRUNCATED else []) ++ STUB_JOIN ++ STUB_TAIL =
    ((front ++ lit ", " ++ tail) ++ (if tr then STUB_TRUNCATED else [])) ++ STUB_JOIN ++ STUB_TAIL).
  { subst front tail. by rewrite <-!app_assoc. }
  match goal with |- context [strip_suffix STUB_TAIL ?x] =>
    replace x with ((((front ++ lit ", " ++ tail) ++ (if tr then STUB_TRUNCATED else []))
      ++ STUB_JOIN) ++ STUB_TAIL) by (rewrite <-(app_assoc _ STUB_JOIN); symmetry; exact Hbody) end.
  rewrite strip_suffix_app. cbn [mbind option_bind].
  rewrite strip_suffix_app. cbn [mbind option_bind].
  assert (Hlast : 44 ∉ tail).
  { subst tail. intros [H|H]%elem_of_app; [|by vm_compute in H; set_solver].
    pose proof (fmt_Z_digits n ltac:(lia)) as Hd. rewrite Forall_forall in Hd.
    apply list_elem_of_In in H. by specialize (Hd _ H). }
  assert (Hrest : ∀ b, ('(_, last) ← rsplit_once_str (lit ", ") (front ++ lit ", " ++ tail);
    count ← strip_suffix (lit " bytes") last;
    byte_count ← parse_unsigned usize_max count;
    Some (mkFacts byte_count b)) = Some (mkFacts n b)).
  { intros b. rewrite rsplit_once_comma by done. cbn [mbind option_bind].
    unfold tail. rewrite strip_suffix_app. cbn [mbind option_bind].
    by rewrite parse_fmt_Z by done. }
  destruct tr.
  - rewrite strip_suffix_app. apply Hrest.
  - rewrite app_nil_r. subst tail.
    replace (front ++ lit ", " ++ fmt_Z n ++ lit " bytes") with
      ((front ++ lit ", " ++ fmt_Z n ++ lit " byte") ++ [115]) at 1
      by (by rewrite <-!app_assoc).
    change STUB_TRUNCATED with (lit ", truncate" ++ [100]).
    rewrite strip_suffix_last by done. apply Hrest.
Qed.

Lemma parse_stub_range r facts : parse_stub r = Some facts -> 0 <= sf_byte_count facts <= usize_max.
Proof.
  unfold parse_stub, parse_stub_text. destruct (tr_content r) as [|[t|i] [|]]; try done.
  destruct (strip_prefix _ _) as [b1|]; [|done]. cbn [mbind option_bind].
  destruct (strip_suffix _ _) as [b2|]; [|done]. cbn [mbind option_bind].
  destruct (strip_suffix _ _) as [b3|]; [|done]. cbn [mbind option_bind].
  destruct (match strip_suffix STUB_TRUNCATED b3 with Some _ => _ | None => _ end) as [b4 tr].
  destruct (rsplit_once_str _ _) as [[b5 b6]|]; [|done]. cbn [mbind option_bind].
  destruct (strip_suffix _ _) as [b7|]; [|done]. cbn [mbind option_bind].
  destruct (parse_unsigned usize_max b7) as [n|] eqn:E; [|done]. cbn [mbind option_bind].
  intros [= <-]. cbn [sf_byte_count]. by apply parse_unsigned_range in E.
Qed.

Section provider_view_proofs.
Context (image_json_len : Image → Z).
#[local] Abbreviation strip := (strip_item image_json_len).

(** Every tool result has a size that is a [usize]. *)
Definition measurable_item (item : UserContent) : Prop :=
  match item with
  | UToolResult r => 0 <= tool_result_byte_count image_json_len r <= usize_max
  | _ => True
  end.
Definition measurable (l : list Message) : Prop :=
  Forall (λ m, match m with User c => Forall measurable_item c | _ => True end) l.
(** No assistant message announces the same call key twice. *)
Definition distinct_calls (l : list Message) : Prop :=
  Forall (λ m, match m with Assistant _ c => NoDup (call_keys c) | _ => True end) l.

(** [strip_tool_results] on plain messages. *)
Fixpoint stripped (tc : gmap str ToolCallInfo) (l : list Message) : list Message :=
  match l with
  | [] => []
  | Assistant mid c :: rest => Assistant mid c :: stripped (note_calls tc c) rest
  | User c :: rest => User (strip tc <$> c) :: stripped tc rest
  | System c :: rest => System c :: stripped tc rest
  end.

Lemma messages_only_strip l : ∀ tc,
  messages_only (strip_loop image_json_len tc l) = stripped tc (messages_only l).
Proof. induction l as [|[i [c|c|mid c]] l IH]; intros tc; cbn; [done|..]; by f_equal. Qed.

Lemma provider_view_eq l :
  fst (provider_view image_json_len l) = sanitize_history_for_provider (stripped ∅ l).
Proof.
  unfold provider_view, strip_tool_results, strip_tool_results_sourced. cbn.
  by rewrite messages_only_strip, messages_only_source.
Qed.

(** Re-stubbing a stub is a fixed point. *)
Lemma strip_tool_result_fixed r tc : 0 <= tool_result_byte_count image_json_len r <= usize_max ->
  strip_tool_result image_json_len (strip_tool_result image_json_len r tc) tc =
  strip_tool_result image_json_len r tc.
Proof.
  intros Hr. unfold strip_tool_result at 1 3.
  set (facts := match parse_stub r with Some it => it | None => _ end).
  assert (Hf : 0 <= sf_byte_count facts <= usize_max).
  { subst facts. destruct (parse_stub r) as [it|] eqn:E; [by apply parse_stub_range in E|exact Hr]. }
  change (tool_result_key (strip_tool_result image_json_len r tc)) with (tool_result_key r).
  assert (Hp : parse_stub (strip_tool_result image_json_len r tc) = Some facts).
  { unfold parse_stub, strip_tool_result. cbn [tr_content text]. by apply parse_stub_stub. }
  by rewrite Hp.
Qed.

Lemma strip_item_fixed tc item : measurable_item item -> strip tc (strip tc item) = strip tc item.
Proof. destruct item; cbn; [done|..]; try done. intros H. by rewrite strip_tool_result_fixed. Qed.

(** Every result is the stub its own turn's calls give it. *)
Fixpoint stubbed (tc : gmap str ToolCallInfo) (l : list Message) : Prop :=
  match l with
  | [] => True
  | Assistant _ c :: rest => stubbed (note_calls tc c) rest
  | User c :: rest => Forall (λ item, strip tc item = item) c ∧ stubbed tc rest
  | System _ :: rest => stubbed tc rest
  end.

Lemma stubbed_stripped l : ∀ tc, stubbed tc l -> stripped tc l = l.
Proof.
  induction l as [|[c|c|mid c] l IH]; intros tc; cbn [stubbed stripped]; [done|..].
  - intros H. f_equal. by apply IH.
  - intros [Hc H]. f_equal; [|by apply IH]. f_equal.
    induction Hc as [|x c Hx _ IHc]; [done|]. by rewrite fmap_cons, Hx, IHc.
  - intros H. f_equal. by apply IH.
Qed.

Lemma stripped_stubbed l : ∀ tc, measurable l -> stubbed tc (stripped tc l).
Proof.
  induction l as [|[c|c|mid c] l IH]; intros tc [Hc Hl]%Forall_cons_iff || (intros tc _);
    cbn [stubbed stripped]; try (by apply IH); [done|].
  split; [|by apply IH]. rewrite Forall_fmap. eapply Forall_impl; [|exact Hc].
  intros item Hi. by apply strip_item_fixed.
Qed.

Lemma keep_pending_Forall (P : UserContent → Prop) p c kept p' :
  keep_pending p c = (kept, p') -> Forall P c -> Forall P kept.
Proof.
  revert p kept p'. induction c as [|item c IH]; intros p kept p'; cbn [keep_pending].
  { by intros [= <- <-]. }
  destruct item; destruct (keep_pending _ c) as [k q] eqn:E; intros [= <- <-];
    intros [? ?]%Forall_cons_iff; try (constructor; [done|]; by eapply IH).
  case_bool_decide; [constructor; [done|]|]; by eapply IH.
Qed.

Lemma orphans_stubbed l : ∀ p tc, stubbed tc l -> stubbed tc (orphans p l).
Proof.
  induction l as [|[c|c|mid c] l IH]; intros p tc; cbn [stubbed orphans]; [done|by apply IH| |by apply IH].
  intros [Hc Hl]. destruct (keep_pending p c) as [kept p'] eqn:E.
  pose proof (keep_pending_Forall _ _ _ _ _ E Hc) as Hk.
  destruct kept; [by apply IH|]. split; [done|by apply IH].
Qed.

(** The info a turn's calls record for a key. *)
Definition note (m : gmap str ToolCallInfo) (item : AssistantContent) : gmap str ToolCallInfo :=
  match item with AToolCall c => <[tool_call_key c := ToolCallInfo_from c]> m | _ => m end.

Lemma note_calls_eq tc c : note_calls tc c = foldl note (if opens_turn c then ∅ else tc) c.
Proof. done. Qed.

Lemma foldl_note_other c : ∀ m k, k ∉ call_keys c -> foldl note m c !! k = m !! k.
Proof.
  induction c as [|item c IH]; intros m k Hk; [done|]. cbn [foldl].
  destruct item as [t|tc|r|i]; cbn [note]; try (by apply IH).
  change (call_keys (AToolCall tc :: c)) with (tool_call_key tc :: call_keys c) in Hk.
  rewrite IH by set_solver. rewrite lookup_insert_ne; [done|set_solver].
Qed.

Lemma foldl_note_in c : ∀ m x, NoDup (call_keys c) -> AToolCall x ∈ c ->
  foldl note m c !! tool_call_key x = Some (ToolCallInfo_from x).
Proof.
  induction c as [|item c IH]; intros m x Hnd Hx; [by apply not_elem_of_nil in Hx|]. cbn [foldl].
  apply elem_of_cons in Hx as [<-|Hx].
  - change (call_keys (AToolCall x :: c)) with (tool_call_key x :: call_keys c) in Hnd.
    inversion_clear Hnd. rewrite foldl_note_other by done. cbn [note]. by rewrite lookup_insert_eq.
  - apply IH; [|done]. destruct item as [t|tc|r|i]; try exact Hnd.
    change (call_keys (AToolCall tc :: c)) with (tool_call_key tc :: call_keys c) in Hnd.
    by inversion_clear Hnd.
Qed.

Lemma call_keys_elem k c : k ∈ call_keys c <-> ∃ x, AToolCall x ∈ c ∧ tool_call_key x = k.
Proof.
  unfold call_keys. rewrite list_elem_of_omap. split.
  - intros ([t|x|r|i] & Hin & Hk); try done. injection Hk as <-. eauto.
  - intros (x & Hin & <-). by exists (AToolCall x).
Qed.

Lemma keep_resolved_sub resolved announced c item :
  item ∈ keep_resolved resolved announced c -> item ∈ c.
Proof.
  revert announced. induction c as [|it c IH]; intros announced; [done|].
  destruct it as [t|tc|r|i]; cbn [keep_resolved].
  2: repeat case_bool_decide.
  all: rewrite ?elem_of_cons; naive_solver.
Qed.

Lemma opens_turn_keys c : call_keys c ≠ [] -> opens_turn c = true.
Proof. induction c as [|[t|tc|r|i] c IH]; [done|exact IH|done|exact IH|exact IH]. Qed.

Lemma strip_item_agree tc tc' item :
  (∀ r, item = UToolResult r -> tc !! tool_result_key r = tc' !! tool_result_key r) ->
  strip tc item = strip tc' item.
Proof.
  destruct item; cbn; try done. intros H. unfold strip_tool_result. by rewrite (H _ eq_refl).
Qed.

Lemma result_keys_elem r c : UToolResult r ∈ c -> tool_result_key r ∈ result_keys c.
Proof. intros H. apply list_elem_of_omap. by exists (UToolResult r). Qed.

(** Dropping unpaired calls changes no stub: the calls it drops have no result. *)
Lemma unpaired_stubbed l : ∀ p tc tc', no_orphans p l -> distinct_calls l -> stubbed tc l ->
  (∀ k, k ∈ turn_results l -> tc !! k = tc' !! k) -> stubbed tc' (unpaired l).
Proof.
  induction l as [|m l IH]; intros p tc tc' Hno Hd Hs Hag; [done|].
  apply Forall_cons_iff in Hd as [Hm Hd].
  destruct m as [c|c|mid c]; cbn [no_orphans stubbed unpaired keep_message turn_results] in *.
  - pose proof (no_orphans_results _ _ Hno). eapply IH; [done..|]. set_solver.
  - destruct Hno as (_ & p' & Hc & Hno), Hs as [Hst Hs].
    pose proof (no_orphans_results _ _ Hno) as Hsub. split.
    + apply Forall_forall. intros item Hin%list_elem_of_In. rewrite Forall_forall in Hst.
      rewrite <-(Hst item) at 2 by (by apply list_elem_of_In). apply strip_item_agree.
      intros r ->. symmetry. apply Hag. apply elem_of_union_l, elem_of_list_to_set.
      by apply result_keys_elem.
    + eapply IH; [done..|]. intros k Hk. apply Hag.
      destruct (has_plain_content c); set_solver.
  - pose proof (no_orphans_results _ _ Hno) as Hsub.
    pose proof (keep_resolved_keys (turn_results l) ∅ c) as Hkk.
    assert (Hag' : ∀ k, k ∈ turn_results l ->
      note_calls tc c !! k = note_calls tc' (keep_resolved (turn_results l) ∅ c) !! k).
    { intros k Hk. assert (Hin : k ∈ call_keys (keep_resolved (turn_results l) ∅ c)).
      { apply Hkk. specialize (Hsub k Hk). rewrite elem_of_list_to_set in Hsub. set_solver. }
      apply call_keys_elem in Hin as (x & Hx & <-). rewrite !note_calls_eq.
      rewrite foldl_note_in by (done || by eapply keep_resolved_sub).
      rewrite foldl_note_in; [done|apply keep_resolved_nodup|done]. }
    destruct (keep_resolved (turn_results l) ∅ c) as [|k0 kept] eqn:E.
    + eapply IH; [done..|]. intros k Hk. exfalso.
      specialize (Hsub k Hk). rewrite elem_of_list_to_set in Hsub.
      assert (k ∈ call_keys []) as []%not_elem_of_nil. apply Hkk. set_solver.
    + cbn [stubbed]. by eapply IH.
Qed.

Lemma note_calls_order tc c : note_calls tc (order_content c) = note_calls tc c.
Proof.
  rewrite !note_calls_eq.
  assert (Hf : ∀ m, foldl note m (order_content c) = foldl note m c).
  { intros m. unfold order_content. rewrite !foldl_app.
    assert (∀ f m', (∀ tc, f (AToolCall tc) = false) -> foldl note m' (List.filter f c) = m') as Hn.
    { intros f m' Hf. induction c as [|[t|x|r|i] c IH]; [done|..]; cbn [List.filter];
        rewrite ?Hf; try destruct (f _); exact IH. }
    rewrite (Hn is_text), (Hn is_middle) by done. clear Hn. revert m.
    induction c as [|[t|x|r|i] c IH]; intros m; [done|..]; cbn; apply IH. }
  rewrite Hf. f_equal.
  assert (opens_turn (order_content c) = opens_turn c) as ->; [|done].
  apply eq_bool_prop_intro. unfold opens_turn. rewrite !Is_true_true, !existsb_exists.
  unfold order_content. setoid_rewrite in_app_iff. setoid_rewrite in_app_iff.
  setoid_rewrite filter_In. naive_solver.
Qed.

Lemma normalize_stubbed l : ∀ tc, stubbed tc l -> stubbed tc (normalize_message <$> l).
Proof.
  induction l as [|[c|c|mid c] l IH]; intros tc; cbn; [done|by apply IH| |].
  - intros [? ?]. split; [done|by apply IH].
  - rewrite note_calls_order. by apply IH.
Qed.

Lemma distinct_stripped l : ∀ tc, distinct_calls l -> distinct_calls (stripped tc l).
Proof.
  induction l as [|[c|c|mid c] l IH]; intros tc; cbn [stripped]; [done|..];
    intros [? ?]%Forall_cons_iff; (constructor; [done|by apply IH]).
Qed.

Lemma distinct_orphans l : ∀ p, distinct_calls l -> distinct_calls (orphans p l).
Proof.
  induction l as [|[c|c|mid c] l IH]; intros p; cbn [orphans]; [done|..];
    intros [? ?]%Forall_cons_iff; try (constructor; [done|by apply IH]).
  destruct (keep_pending p c) as [[|k kept] p']; [by apply IH|constructor; [done|by apply IH]].
Qed.

Lemma provider_view_stubbed l : measurable l -> distinct_calls l ->
  stubbed ∅ (fst (provider_view image_json_len l)).
Proof.
  intros Hm Hd. rewrite provider_view_eq, sanitize_eq. apply normalize_stubbed.
  apply (unpaired_stubbed _ ∅ ∅); [apply no_orphans_orphans| | |done].
  - by apply distinct_orphans, distinct_stripped.
  - by apply orphans_stubbed, stripped_stubbed.
Qed.

(** The provider view is a fixed point: narrowing a view again changes
    nothing, neither a stub (its byte count is read back, not measured again) nor
    the pairing nor the content order.  Each message's call keys are distinct
    and each result's size is a [usize]. *)
Theorem provider_view_is_idempotent l : measurable l -> distinct_calls l ->
  fst (provider_view image_json_len (fst (provider_view image_json_len l)))
  = fst (provider_view image_json_len l).
Proof.
  intros Hm Hd. rewrite provider_view_eq at 1.
  rewrite (stubbed_stripped _ _ (provider_view_stubbed _ Hm Hd)).
  rewrite provider_view_eq. apply sanitize_fixed; [apply sanitize_well_paired|apply sanitize_normalized].
Qed.
End provider_view_proofs.

(** C14. Sanitizing makes any transcript acceptable to a strict provider: no
    message is empty, every tool result answers a call of the assistant message
    that opened its turn, and every call of that message is answered exactly
    once before the turn ends.  A history that is already so, with its content
    in order, is returned unchanged. *)
Theorem sanitized_history_is_well_paired l :
  well_paired ∅ (sanitize_history_for_provider l) = true ∧
  ∀ h, well_paired ∅ h = true -> normalized h -> sanitize_history_for_provider h = h.
Proof. split; [apply sanitize_well_paired|]. intros h. apply sanitize_fixed. Qed.

(** ** Concrete histories *)

Definition call_of (name key path : string) : AssistantContent :=
  AToolCall (ToolCall_new (lit key)
    (mkToolFunction (lit name) (JObject [(lit "file_path", JString (lit path))]))).
Definition result_of (key out : string) : UserContent :=
  user_tool_result (lit key) [TRText (mkText (lit out))].
(** A turn with one unanswered call, an orphaned result and late text. *)
Definition demo_history : list Message :=
  [message_user (lit "fix it");
   Assistant None [call_of "read_file" "a" "x.rs"; call_of "write_file" "b" "y.rs";
                   AText (mkText (lit "reading"))];
   User [result_of "a" "contents"; result_of "zz" "orphan"];
   message_user (lit "thanks")].
Definition no_images : Image → Z := λ _, 0.

(** Two calls of one turn share a key. *)
Definition repeated_key_history : list Message :=
  [Assistant None [call_of "read_file" "k" "a.rs"; call_of "write_file" "k" "b.rs"];
   User [result_of "k" "done"]].

Lemma sanitized_history_is_well_paired_witness :
  well_paired ∅ (sanitize_history_for_provider demo_history) = true ∧
  length (sanitize_history_for_provider demo_history) = 4%nat ∧
  sanitize_history_for_provider (sanitize_history_for_provider demo_history)
  = sanitize_history_for_provider demo_history.
Proof.
  destruct (sanitized_history_is_well_paired demo_history) as [H1 H2].
  split; [exact H1|]. split; [vm_compute; reflexivity|].
  apply H2; [exact H1|]. vm_compute. reflexivity.
Defined.

Lemma provider_view_is_idempotent_witness :
  fst (provider_view no_images (fst (provider_view no_images demo_history)))
  = fst (provider_view no_images demo_history) ∧
  length (fst (provider_view no_images demo_history)) = 4%nat.
Proof.
  split; [|vm_compute; reflexivity]. apply provider_view_is_idempotent.
  - repeat constructor; vm_compute; try done; split; discriminate.
  - repeat (constructor; [first [exact I|apply (bool_decide_unpack _); vm_compute; exact I]|]).
    constructor.
Defined.

(** When one assistant message announces the same call key twice, the view is
    not a fixed point: the stub is labelled by the last call of the key while
    only the first one is kept, so narrowing the view again relabels the
    result. *)
Theorem repeated_key_view_is_not_fixed :
  fst (provider_view no_images (fst (provider_view no_images repeated_key_history)))
  ≠ fst (provider_view no_images repeated_key_history) ∧
  fst (provider_view no_images repeated_key_history) =
    [Assistant None [call_of "read_file" "k" "a.rs"];
     User [UToolResult (mkToolResult (lit "k") None [TRText (mkText (stub_text
       (Some (mkInfo (lit "write_file") (Some (lit "b.rs")) false true)) (lit "k")
       (mkFacts 4 false)))])]] ∧
  files_modified (snd (provider_view no_images repeated_key_history)) = [lit "b.rs"].
Proof. vm_compute. split; [discriminate|]. split; reflexivity. Qed.
