(* ===== verification/HistorySplit.v ===== *)
(** * Splitting a history

    Where a transcript may be cut ([pair_safe_boundaries]), the split that
    compaction makes ([split_messages_for_summary_with_counter]), the
    pre-truncation of tool results, and the durable cursor of a compacted prefix
    ([compacted_through_sequence]): definitions from
    [src/crates/gents/src/compaction/history.rs], and what the split and the
    cursor guarantee. *)

From Stdlib Require Import Sorted.
From S2P Require Import Prelude RustStr Messages History.
Open Scope Z_scope.

(** ** Pair-safe boundaries *)

(** The calls that await a result after a message. *)
Definition step_pending (pending : gset str) (m : Message) : gset str :=
  match m with
  | Assistant _ content => list_to_set (call_keys content)
  | User content =>
      let pending := pending ∖ list_to_set (result_keys content) in
      if has_plain_content content then ∅ else pending
  | System _ => ∅
  end.
Fixpoint boundaries_loop (pending : gset str) (index : nat) (messages : list Message) : list nat :=
  match messages with
  | [] => []
  | m :: rest =>
      let pending := step_pending pending m in
      if bool_decide (pending = ∅)
      then S index :: boundaries_loop pending (S index) rest
      else boundaries_loop pending (S index) rest
  end.
Definition pair_safe_boundaries (messages : list Message) : list nat :=
  boundaries_loop ∅ 0 messages.
Definition pair_safe_boundary (messages : list Message) (limit : nat) : nat :=
  let limit := (limit `min` length messages)%nat in
  default 0%nat (hd_error (rev (pair_safe_boundaries (take limit messages)))).

(** ** The split for a summary

    [estimate] is [counter.estimate_message_request].  The search loop has fuel;
    [None] means it ran out, which [split_total] excludes. *)
Section split.
Context {E : Type} (estimate : list Message → result E Z).

Fixpoint search_split (fuel : nat) (messages : list Message) (keep_recent_tokens : Z)
    (low high split_index : nat) : option (result E nat) :=
  if (low <=? high)%nat then
    match fuel with
    | O => None
    | S fuel =>
        let index := (low + (high - low) / 2)%nat in
        match estimate (drop index messages) with
        | Err e => Some (Err e)
        | Ok tokens =>
            if tokens <=? keep_recent_tokens then
              if (index =? 0)%nat then Some (Ok index)
              else search_split fuel messages keep_recent_tokens low (index - 1) index
            else search_split fuel messages keep_recent_tokens (index + 1) high split_index
        end
    end
  else Some (Ok split_index).

Definition split_messages_for_summary_with_counter (messages : list Message)
    (keep_recent_tokens : Z) : option (result E (list Message * list Message)) :=
  let len := length messages in
  if (len <=? 1)%nat then Some (Ok ([], messages)) else
  match search_split len messages keep_recent_tokens 0 (len - 1) (len - 1) with
  | None => None
  | Some (Err e) => Some (Err e)
  | Some (Ok raw_split_index) =>
      let split_index := pair_safe_boundary messages raw_split_index in
      match estimate (drop split_index messages) with
      | Err e => Some (Err e)
      | Ok retained_tokens =>
          let split_index :=
            if (split_index <? raw_split_index)%nat && (keep_recent_tokens <? retained_tokens)
               && (pair_safe_boundary messages len =? len)%nat
            then len else split_index in
          if (split_index =? 0)%nat then Some (Ok ([], messages))
          else Some (Ok (take split_index messages, drop split_index messages))
      end
  end.
End split.

(** ** Pre-truncation *)

(** [s.is_char_boundary(i)]. *)
Fixpoint is_char_boundary (s : str) (i : Z) : bool :=
  (i =? 0) ||
  match s with
  | [] => false
  | c :: s' => (utf8_width c <=? i) && is_char_boundary s' (i - utf8_width c)
  end.
(** [&s[..i]]: [None] is the panic of a slice inside a character. *)
Fixpoint slice_to (s : str) (i : Z) : option str :=
  if i =? 0 then Some [] else
  match s with
  | [] => None
  | c :: s' => if utf8_width c <=? i then cons c <$> slice_to s' (i - utf8_width c) else None
  end.
Fixpoint floor_loop (t : str) (index : nat) : nat :=
  match index with
  | O => O
  | S i' => if is_char_boundary t (Z.of_nat index) then index else floor_loop t i'
  end.
Definition floor_char_boundary (t : str) (index : Z) : Z :=
  if str_len t <=? index then str_len t else Z.of_nat (floor_loop t (Z.to_nat index)).

(** ["… [pre-truncated {cut}/{len} chars for compaction]"]. *)
Definition pretruncated_note (cut len : Z) : str :=
  [8230] ++ lit " [pre-truncated " ++ fmt_Z cut ++ lit "/" ++ fmt_Z len
  ++ lit " chars for compaction]".
Definition truncate_tool_result_content (max_chars : Z) (content : ToolResultContent)
    : option ToolResultContent :=
  match content with
  | TRText t =>
      if max_chars <? str_len (text t) then
        let cut := floor_char_boundary (text t) max_chars in
        head ← slice_to (text t) cut;
        Some (TRText (mkText (head ++ pretruncated_note cut (str_len (text t)))))
      else Some content
  | other => Some other
  end.
Definition pretruncate_item (max_chars : Z) (item : UserContent) : option UserContent :=
  match item with
  | UToolResult r =>
      contents ← mapM (truncate_tool_result_content max_chars) (tr_content r);
      Some (UToolResult (mkToolResult (tr_id r) (tr_call_id r) contents))
  | other => Some other
  end.
Definition pretruncate_message (max_chars : Z) (m : Message) : option Message :=
  match m with
  | User content => User <$> mapM (pretruncate_item max_chars) content
  | other => Some other
  end.
Definition pretruncate_tool_results (messages : list Message) (max_chars : Z)
    : option (list Message) := mapM (pretruncate_message max_chars) messages.

(** ** Compaction gates *)

Inductive ResponseStatus : Type := RStreaming | RComplete | RError.
Definition rstatus_is_terminal (s : ResponseStatus) : bool :=
  match s with RComplete | RError => true | RStreaming => false end.
Definition rstatus_from_defra (value : str) : option ResponseStatus :=
  if str_eqb value (lit "streaming") then Some RStreaming
  else if str_eqb value (lit "complete") then Some RComplete
  else if str_eqb value (lit "error") then Some RError
  else None.
Definition carries_tool_result (m : Message) : bool :=
  match m with User content => existsb is_tool_result content | _ => false end.
Definition safe_to_reduce (messages : list Message)
    (status_of : Message → option ResponseStatus) : bool :=
  forallb (λ m, negb (carries_tool_result m) || is_some_and rstatus_is_terminal (status_of m))
    messages.
Fixpoint unique_call_ids_loop (announced : gset str) (messages : list Message) : bool :=
  match messages with
  | [] => true
  | Assistant _ content :: rest =>
      let this_turn : gset str := list_to_set (call_keys content) in
      if bool_decide (this_turn ## announced)
      then unique_call_ids_loop (this_turn ∪ announced) rest
      else false
  | _ :: rest => unique_call_ids_loop announced rest
  end.
Definition has_unique_call_ids (messages : list Message) : bool :=
  unique_call_ids_loop ∅ messages.

(** ** The view of a concatenation *)

Definition pending_after (p : gset str) (l : list Message) : gset str := foldl step_pending p l.

Lemma keep_pending_step p c kept p' : keep_pending p c = (kept, p') ->
  (if has_plain_content c then ∅ else p') = step_pending p (User c).
Proof. intros E. apply keep_pending_consume in E as [_ ->]. done. Qed.

Lemma orphans_app a b : ∀ p, orphans p (a ++ b) = orphans p a ++ orphans (pending_after p a) b.
Proof.
  induction a as [|m a IH]; intros p; [done|]. cbn [app pending_after foldl].
  change (foldl step_pending ?q a) with (pending_after q a).
  destruct m as [c|c|mid c]; cbn [orphans app].
  - by rewrite IH.
  - destruct (keep_pending p c) as [kept p'] eqn:E.
    rewrite (keep_pending_step _ _ _ _ E). destruct kept; cbn [app]; by rewrite IH.
  - by rewrite IH.
Qed.

Lemma turn_results_app a b : turn_results b = ∅ -> turn_results (a ++ b) = turn_results a.
Proof.
  intros Hb. induction a as [|[c|c|mid c] a IH]; [done|done| |done]. cbn. by rewrite IH.
Qed.

Lemma turn_results_prefix a b : turn_results a ⊆ turn_results (a ++ b).
Proof.
  induction a as [|[c|c|mid c] a IH]; cbn; try set_solver.
  destruct (has_plain_content c); set_solver.
Qed.

Lemma unpaired_app a b : turn_results b = ∅ -> unpaired (a ++ b) = unpaired a ++ unpaired b.
Proof.
  intros Hb. induction a as [|m a IH]; [done|]. cbn [app unpaired].
  assert (keep_message m (a ++ b) = keep_message m a) as ->
    by (destruct m; cbn; by rewrite ?turn_results_app).
  rewrite IH. by destruct (keep_message m a).
Qed.

Section view_of_concatenation.
Context (image_json_len : Image → Z).
#[local] Abbreviation strip := (strip_item image_json_len).
#[local] Abbreviation stripped := (stripped image_json_len).

Definition calls_after (tc : gmap str ToolCallInfo) (l : list Message) : gmap str ToolCallInfo :=
  foldl (λ tc m, match m with Assistant _ c => note_calls tc c | _ => tc end) tc l.

Lemma stripped_app a b : ∀ tc, stripped tc (a ++ b) = stripped tc a ++ stripped (calls_after tc a) b.
Proof. induction a as [|[c|c|mid c] a IH]; intros tc; cbn; [done|..]; by rewrite IH. Qed.

Lemma result_keys_strip tc c : result_keys (strip tc <$> c) = result_keys c.
Proof. induction c as [|[t|r|i|a|v|d] c IH]; [done|..]; cbn; unfold result_keys in IH; by rewrite IH. Qed.

Lemma has_plain_strip tc c : has_plain_content (strip tc <$> c) = has_plain_content c.
Proof. by induction c as [|[t|r|i|a|v|d] c IH]. Qed.

Lemma pending_after_stripped l : ∀ p tc, pending_after p (stripped tc l) = pending_after p l.
Proof.
  induction l as [|[c|c|mid c] l IH]; intros p tc; cbn; [done|apply IH| |apply IH].
  rewrite has_plain_strip, result_keys_strip. apply IH.
Qed.

Lemma keep_pending_agree p tc tc' c : (∀ k, k ∈ p -> tc !! k = tc' !! k) ->
  keep_pending p (strip tc <$> c) = keep_pending p (strip tc' <$> c).
Proof.
  revert p. induction c as [|item c IH]; intros p Hag; [done|].
  destruct item as [t|r|i|a|v|d]; try (cbn; by rewrite IH).
  cbn [fmap list_fmap strip_item keep_pending].
  change (list_fmap _ _ (strip ?x) c) with (strip x <$> c).
  rewrite (IH (p ∖ {[_]})) by set_solver.
  change (tool_result_key (strip_tool_result image_json_len r _)) with (tool_result_key r).
  destruct (keep_pending _ (strip tc' <$> c)) as [kept p'].
  case_bool_decide as Hin; [|done]. do 2 f_equal.
  unfold strip_tool_result. by rewrite (Hag _ Hin).
Qed.

(** A result that survives is labelled by its own turn: the calls known before
    the list only matter for pending keys. *)
Lemma orphans_agree l : ∀ p tc tc', (∀ k, k ∈ p -> tc !! k = tc' !! k) ->
  orphans p (stripped tc l) = orphans p (stripped tc' l).
Proof.
  induction l as [|[c|c|mid c] l IH]; intros p tc tc' Hag; cbn [History.stripped orphans]; [done|..].
  - f_equal. apply IH. set_solver.
  - rewrite (keep_pending_agree _ _ _ _ Hag), !has_plain_strip.
    destruct (keep_pending p (strip tc' <$> c)) as [kept p'] eqn:E.
    apply keep_pending_consume in E as [_ E].
    assert (Hl : orphans (if has_plain_content c then ∅ else p') (stripped tc l)
               = orphans (if has_plain_content c then ∅ else p') (stripped tc' l)).
    { apply IH. destruct (has_plain_content c); set_solver. }
    by destruct kept; rewrite Hl.
  - f_equal. apply IH. intros k Hk. rewrite elem_of_list_to_set in Hk.
    rewrite !note_calls_eq, opens_turn_keys; [done|]. intros Hn. rewrite Hn in Hk.
    by apply not_elem_of_nil in Hk.
Qed.

(** The view before the content order is normalized. *)
Definition view (l : list Message) : list Message := unpaired (orphans ∅ (stripped ∅ l)).

Lemma provider_view_view l : fst (provider_view image_json_len l) = normalize_message <$> view l.
Proof. by rewrite provider_view_eq, sanitize_eq. Qed.

Lemma orphans_no_results l : turn_results (orphans ∅ l) = ∅.
Proof. pose proof (no_orphans_results _ _ (no_orphans_orphans l ∅)). set_solver. Qed.

Lemma view_app a b : pending_after ∅ a = ∅ -> view (a ++ b) = view a ++ view b.
Proof.
  intros Ha. unfold view. rewrite stripped_app, orphans_app, pending_after_stripped, Ha.
  rewrite (orphans_agree b ∅ _ ∅) by set_solver.
  apply unpaired_app. by apply orphans_no_results.
Qed.

Lemma provider_view_app a b : pending_after ∅ a = ∅ ->
  fst (provider_view image_json_len (a ++ b)) =
  fst (provider_view image_json_len a) ++ fst (provider_view image_json_len b).
Proof. intros Ha. by rewrite !provider_view_view, view_app, fmap_app. Qed.
End view_of_concatenation.

(** ** Boundaries *)

Lemma boundaries_loop_spec l : ∀ p i n, n ∈ boundaries_loop p i l <->
  (i < n <= i + length l)%nat ∧ pending_after p (take (n - i) l) = ∅.
Proof.
  induction l as [|m l IH]; intros p i n; cbn [boundaries_loop length].
  { rewrite elem_of_nil. split; [done|lia]. }
  assert (Hstep : n ∈ boundaries_loop (step_pending p m) (S i) l <->
    (S i < n <= i + S (length l))%nat ∧ pending_after p (take (n - i) (m :: l)) = ∅).
  { rewrite IH. split; intros [Hn Hp]; (split; [lia|]);
      (replace (n - i)%nat with (S (n - S i)) in * by lia); exact Hp. }
  case_bool_decide as Hb; rewrite ?elem_of_cons, Hstep.
  - split; [intros [-> | [? ?]]|intros [Hn Hp]].
    + split; [lia|]. replace (S i - i)%nat with 1%nat by lia. destruct l; exact Hb.
    + split; [lia|done].
    + destruct (decide (n = S i)); [by left|right]. split; [lia|done].
  - split; [intros [? ?]; split; [lia|done]|]. intros [Hn Hp]. split; [|done].
    destruct (decide (n = S i)) as [->|]; [|lia].
    replace (S i - i)%nat with 1%nat in Hp by lia. destruct l; cbn in Hp; congruence.
Qed.

Lemma pair_safe_boundaries_spec l n : n ∈ pair_safe_boundaries l <->
  (0 < n <= length l)%nat ∧ pending_after ∅ (take n l) = ∅.
Proof. unfold pair_safe_boundaries. rewrite boundaries_loop_spec. by rewrite Nat.sub_0_r. Qed.

Lemma boundaries_loop_lower l : ∀ p i, Forall (λ n, (i < n)%nat) (boundaries_loop p i l).
Proof.
  intros p i. apply Forall_forall. intros n Hn%list_elem_of_In%boundaries_loop_spec. lia.
Qed.

Lemma boundaries_loop_sorted l : ∀ p i, StronglySorted lt (boundaries_loop p i l).
Proof.
  induction l as [|m l IH]; intros p i; cbn; [constructor|].
  case_bool_decide; [constructor; [apply IH|apply boundaries_loop_lower]|apply IH].
Qed.

Lemma sorted_last_max (l : list nat) n x : StronglySorted lt l ->
  hd_error (rev l) = Some x -> n ∈ l -> (n <= x)%nat.
Proof.
  intros Hs. induction Hs as [|a l Hs IH Ha]; [done|]. cbn [rev]. intros Hx Hn.
  destruct (rev l) as [|y r] eqn:E.
  - apply (f_equal (@rev nat)) in E. rewrite rev_involutive in E. subst l. cbn in Hx.
    injection Hx as ->. apply list_elem_of_singleton in Hn. lia.
  - cbn in Hx. injection Hx as ->. apply elem_of_cons in Hn as [->|Hn]; [|by apply IH].
    rewrite Forall_forall in Ha. specialize (Ha x). apply Nat.lt_le_incl, Ha.
    apply in_rev. rewrite E. by left.
Qed.

(** [pair_safe_boundary] is the greatest cut at or below the limit that leaves no
    call waiting. *)
Lemma pair_safe_boundary_safe l limit : let j := pair_safe_boundary l limit in
  (j <= limit)%nat ∧ (j <= length l)%nat ∧ pending_after ∅ (take j l) = ∅.
Proof.
  unfold pair_safe_boundary. set (lim := (limit `min` length l)%nat).
  assert (Hlim : (lim <= limit)%nat ∧ (lim <= length l)%nat) by lia.
  destruct (hd_error (rev (pair_safe_boundaries (take lim l)))) as [j|] eqn:E;
    [|cbn; repeat split; lia || done].
  cbn. assert (Hj : j ∈ pair_safe_boundaries (take lim l)).
  { apply list_elem_of_In, in_rev. destruct (rev _); [done|]. injection E as ->. by left. }
  apply pair_safe_boundaries_spec in Hj as [Hj Hp]. rewrite length_take in Hj.
  rewrite take_take in Hp. replace (j `min` lim)%nat with j in Hp by lia.
  split_and!; [lia..|exact Hp].
Qed.

Lemma pair_safe_boundary_greatest l limit n :
  (n <= limit)%nat -> n ∈ pair_safe_boundaries l -> (n <= pair_safe_boundary l limit)%nat.
Proof.
  intros Hl [Hn Hp]%pair_safe_boundaries_spec. unfold pair_safe_boundary.
  set (lim := (limit `min` length l)%nat).
  assert (Hin : n ∈ pair_safe_boundaries (take lim l)).
  { apply pair_safe_boundaries_spec. rewrite length_take, take_take.
    replace (n `min` lim)%nat with n by lia. split; [lia|done]. }
  destruct (hd_error (rev _)) as [x|] eqn:E.
  - cbn. eapply sorted_last_max; [apply boundaries_loop_sorted|exact E|exact Hin].
  - destruct (rev (pair_safe_boundaries (take lim l))) eqn:E'; [|done].
    apply (f_equal (@rev nat)) in E'. rewrite rev_involutive in E'. rewrite E' in Hin.
    by apply not_elem_of_nil in Hin.
Qed.

(** ** The split *)

Section split_proofs.
Context {E : Type} (estimate : list Message → result E Z).

(** The search ends within as many rounds as the range has indices, at an index
    of the range or at the index it started from, or at the estimator's error. *)
Lemma search_split_total messages keep fuel : ∀ low high spl,
  (high + 1 - low <= fuel)%nat ->
  ∃ r, search_split estimate fuel messages keep low high spl = Some r ∧
    match r with
    | Ok raw => raw = spl ∨ (low <= raw <= high)%nat
    | Err e => ∃ i, estimate (drop i messages) = Err e
    end.
Proof.
  induction fuel as [|fuel IH]; intros low high spl Hf; cbn [search_split];
    destruct (Nat.leb_spec low high) as [Hle|Hgt];
    [lia|by exists (Ok spl); split; [|left]| |by exists (Ok spl); split; [|left]].
  set (index := (low + (high - low) / 2)%nat).
  assert (Hi : (low <= index <= high)%nat).
  { subst index. pose proof (Nat.Div0.div_le_upper_bound (high - low) 2 (high - low)) as Hd.
    specialize (Hd ltac:(lia)). lia. }
  clearbody index. destruct (estimate (drop index messages)) as [tokens|e] eqn:Ee;
    [|eexists; split; [done|by exists index]].
  destruct (tokens <=? keep).
  - destruct (Nat.eqb_spec index 0) as [Hz|Hz]; [eexists; split; [done|by right]|].
    destruct (IH low (index - 1)%nat index) as (r & -> & Hr); [lia|].
    exists r. split; [done|]. destruct r as [raw|]; [|done]. right. lia.
  - destruct (IH (index + 1)%nat high spl) as (r & -> & Hr); [lia|].
    exists r. split; [done|]. destruct r as [raw|]; [|done]. destruct Hr; [by left|right; lia].
Qed.

(** The reference: the first index, scanned from the start, whose suffix fits. *)
Definition fits (messages : list Message) (keep : Z) (i : nat) : bool :=
  match estimate (drop i messages) with Ok tokens => tokens <=? keep | Err _ => false end.
Definition first_fit (messages : list Message) (keep : Z) : nat :=
  default (length messages - 1)%nat (List.find (fits messages keep) (seq 0 (length messages))).

Lemma find_seq (f : nat → bool) n : ∀ start,
  match List.find f (seq start n) with
  | Some i => (start <= i < start + n)%nat ∧ f i = true ∧ ∀ j, (start <= j < i)%nat -> f j = false
  | None => ∀ j, (start <= j < start + n)%nat -> f j = false
  end.
Proof.
  induction n as [|n IH]; intros start; cbn [seq List.find]; [intros; lia|].
  destruct (f start) eqn:Ef; [split; [lia|split; [done|intros; lia]]|].
  specialize (IH (S start)). destruct (List.find f (seq (S start) n)) as [i|].
  - destruct IH as (? & ? & Hj). split_and!; [lia..|done|]. intros j Hlt.
    destruct (decide (j = start)) as [->|]; [done|apply Hj; lia].
  - intros j Hj. destruct (decide (j = start)) as [->|]; [done|apply IH; lia].
Qed.

Lemma first_fit_unique messages keep raw :
  (raw < length messages)%nat -> (∀ i, (i < raw)%nat -> fits messages keep i = false) ->
  fits messages keep raw = true ∨ raw = (length messages - 1)%nat ->
  raw = first_fit messages keep.
Proof.
  intros Hr Hlt Hfit. unfold first_fit. pose proof (find_seq (fits messages keep) (length messages) 0) as H.
  destruct (List.find _ _) as [i|]; cbn.
  - destruct H as (Hi & Hf & Hj). destruct (Nat.lt_trichotomy i raw) as [?|[->|?]]; [|done|].
    + rewrite Hlt in Hf by lia. done.
    + destruct Hfit as [Hfit| ->]; [|lia]. rewrite Hj in Hfit by lia. done.
  - destruct Hfit as [Hfit|]; [|done]. rewrite H in Hfit by lia. done.
Qed.

(** Longer suffixes never cost less. *)
Definition monotone_estimate (messages : list Message) : Prop :=
  (∀ i, ∃ n, estimate (drop i messages) = Ok n) ∧
  ∀ i j n m, (i <= j)%nat -> estimate (drop i messages) = Ok n ->
    estimate (drop j messages) = Ok m -> m <= n.

Lemma search_split_first_fit messages keep fuel : monotone_estimate messages ->
  ∀ low high spl, (high + 1 - low <= fuel)%nat -> (high < length messages)%nat ->
  (low <= high + 1)%nat ->
  (∀ i, (i < low)%nat -> fits messages keep i = false) ->
  (spl = (high + 1)%nat ∧ (spl < length messages)%nat ∧ fits messages keep spl = true) ∨
  (spl = (length messages - 1)%nat ∧ high = (length messages - 1)%nat) ->
  search_split estimate fuel messages keep low high spl = Some (Ok (first_fit messages keep)).
Proof.
  intros [Htot Hmono]. induction fuel as [|fuel IH]; intros low high spl Hf Hhi Hlo Hlow Hs;
    cbn [search_split]; destruct (Nat.leb_spec low high) as [Hle|Hgt]; [lia| | |].
  1,3: do 2 f_equal; apply first_fit_unique; [lia|intros i Hi; apply Hlow; lia|naive_solver].
  set (index := (low + (high - low) / 2)%nat).
  assert (Hi : (low <= index <= high)%nat).
  { subst index. pose proof (Nat.Div0.div_le_upper_bound (high - low) 2 (high - low)) as Hd.
    specialize (Hd ltac:(lia)). lia. }
  clearbody index. destruct (Htot index) as [tokens Ht]. rewrite Ht.
  assert (Hfi : fits messages keep index = (tokens <=? keep)) by (unfold fits; by rewrite Ht).
  destruct (Z.leb_spec tokens keep) as [Hk|Hk].
  - destruct (Nat.eqb_spec index 0) as [Hz|Hz].
    + do 2 f_equal. apply first_fit_unique; [lia|intros; lia|by left].
    + apply IH; [lia..|done|]. left. split_and!; [lia..|done].
  - apply IH; [lia..| |].
    + intros i Hii. unfold fits. destruct (Htot i) as [m Hm]. rewrite Hm.
      apply Z.leb_gt. assert (Hin : (i <= index)%nat) by lia.
      pose proof (Hmono _ _ _ _ Hin Hm Ht). lia.
    + destruct Hs as [Hs|Hs]; [by left|by right].
Qed.

(** What a split of a transcript is. *)
Definition lossless_split (image_json_len : Image → Z) (messages old recent : list Message) : Prop :=
  old ++ recent = messages ∧ pending_after ∅ old = ∅ ∧
  fst (provider_view image_json_len messages) =
    fst (provider_view image_json_len old) ++ fst (provider_view image_json_len recent).

Lemma lossless_split_at image_json_len messages j : pending_after ∅ (take j messages) = ∅ ->
  lossless_split image_json_len messages (take j messages) (drop j messages).
Proof.
  intros Hp. split; [apply take_drop|]. split; [done|].
  rewrite <-(take_drop j messages) at 1. by apply provider_view_app.
Qed.

Lemma split_total image_json_len messages keep :
  ∃ r, split_messages_for_summary_with_counter estimate messages keep = Some r ∧
    match r with
    | Ok (old, recent) => lossless_split image_json_len messages old recent
    | Err e => ∃ i, estimate (drop i messages) = Err e
    end.
Proof.
  unfold split_messages_for_summary_with_counter.
  destruct (Nat.leb_spec (length messages) 1) as [Hl|Hl].
  { eexists. split; [done|]. apply (lossless_split_at image_json_len messages 0). done. }
  destruct (search_split_total messages keep (length messages) 0 (length messages - 1)
    (length messages - 1)) as (r & -> & Hr); [lia|].
  destruct r as [raw|e]; [|by eexists].
  pose proof (pair_safe_boundary_safe messages raw) as (_ & _ & Hp).
  pose proof (pair_safe_boundary_safe messages (length messages)) as (_ & _ & Hend).
  destruct (estimate (drop (pair_safe_boundary messages raw) messages)) as [tokens|e] eqn:Ee;
    [|eexists; split; [done|by eexists]].
  set (j := if _ && _ && _ then _ else _).
  assert (Hj : pending_after ∅ (take j messages) = ∅).
  { subst j. destruct (_ && _ && _) eqn:Hc; [|done]. bool_prop.
    match goal with H : (_ =? length messages)%nat = true |- _ => apply Nat.eqb_eq in H as Hq end.
    by rewrite Hq in Hend. }
  clearbody j. destruct (Nat.eqb_spec j 0) as [->|]; eexists; (split; [done|]).
  - apply (lossless_split_at image_json_len messages 0). done.
  - by apply lossless_split_at.
Qed.

(** C15. The split for a summary always ends, whatever the estimator says, and
    separates no call from its result: the two parts make up the transcript, no
    call of the first part waits for a result of the second, and the provider
    view of the whole is the views of the parts one after the other, so nothing
    is lost from what the model sees.  An error is the estimator's own. *)
Theorem split_never_separates_a_call image_json_len messages keep :
  ∃ r, split_messages_for_summary_with_counter estimate messages keep = Some r ∧
    match r with
    | Ok (old, recent) => lossless_split image_json_len messages old recent
    | Err e => ∃ i, estimate (drop i messages) = Err e
    end.
Proof. apply split_total. Qed.

(** The binary search finds what a scan from the start of the transcript
    would: the first index whose suffix fits the retention budget, and the last
    message when none does.  Suffixes of the transcript never cost more than the
    longer ones. *)
Theorem search_equals_linear_scan messages keep :
  (1 < length messages)%nat -> monotone_estimate messages ->
  search_split estimate (length messages) messages keep 0 (length messages - 1)
    (length messages - 1) = Some (Ok (first_fit messages keep)).
Proof.
  intros Hl Hm. apply search_split_first_fit; [done|lia..|intros; lia|]. by right.
Qed.
End split_proofs.

(** ** The cursor of a compacted prefix *)

Section cursor.
Context (image_json_len : Image → Z).
#[local] Abbreviation view := (view image_json_len).
#[local] Abbreviation stripped := (stripped image_json_len).
#[local] Abbreviation strip_loop := (strip_loop image_json_len).

(** The sourced view before the content order is normalized, from a state of the
    passes. *)
Definition sourced_from (tc : gmap str ToolCallInfo) (p : gset str) (l : list SourcedMessage)
    : list SourcedMessage := unpaired_sourced (drop_orphaned_loop p (strip_loop tc l)).

Lemma messages_only_sourced_from tc p l :
  messages_only (sourced_from tc p l) = unpaired (orphans p (stripped tc (messages_only l))).
Proof.
  unfold sourced_from. by rewrite messages_only_unpaired, messages_only_orphans, messages_only_strip.
Qed.

Lemma strip_loop_app a b : ∀ tc,
  strip_loop tc (a ++ b) = strip_loop tc a ++ strip_loop (calls_after tc (messages_only a)) b.
Proof. induction a as [|[i [c|c|mid c]] a IH]; intros tc; cbn; [done|..]; by rewrite IH. Qed.

Lemma drop_orphaned_loop_app a b : ∀ p, drop_orphaned_loop p (a ++ b) =
  drop_orphaned_loop p a ++ drop_orphaned_loop (pending_after p (messages_only a)) b.
Proof.
  induction a as [|[i m] a IH]; intros p; [done|].
  cbn [app messages_only fmap list_fmap message pending_after foldl].
  change (list_fmap _ _ message a) with (messages_only a).
  change (foldl step_pending ?q ?x) with (pending_after q x).
  destruct m as [c|c|mid c]; cbn [drop_orphaned_loop app]; [by rewrite IH| |by rewrite IH].
  destruct (keep_pending p c) as [kept p'] eqn:E.
  rewrite (keep_pending_step _ _ _ _ E). destruct kept; cbn [app]; by rewrite IH.
Qed.

Lemma unpaired_sourced_app a b : turn_results (messages_only b) = ∅ ->
  unpaired_sourced (a ++ b) = unpaired_sourced a ++ unpaired_sourced b.
Proof.
  intros Hb. induction a as [|s a IH]; [done|]. cbn [app unpaired_sourced].
  assert (keep_message (message s) (messages_only (a ++ b)) =
          keep_message (message s) (messages_only a)) as ->.
  { unfold messages_only. rewrite fmap_app. destruct (message s); cbn; by rewrite ?turn_results_app. }
  rewrite IH. by destruct (keep_message _ _).
Qed.

Lemma sourced_from_app a b : pending_after ∅ (messages_only a) = ∅ ->
  sourced_from ∅ ∅ (a ++ b) =
  sourced_from ∅ ∅ a ++ sourced_from (calls_after ∅ (messages_only a)) ∅ b.
Proof.
  intros Ha. unfold sourced_from. rewrite strip_loop_app, drop_orphaned_loop_app.
  rewrite messages_only_strip, pending_after_stripped, Ha. apply unpaired_sourced_app.
  rewrite messages_only_orphans. apply orphans_no_results.
Qed.

(** A message of which no result is kept is treated the same with no call
    pending. *)
Lemma keep_pending_none c : ∀ p kept p', keep_pending p c = (kept, p') -> result_keys kept = [] ->
  keep_pending ∅ c = (kept, ∅).
Proof.
  induction c as [|item c IH]; intros p kept p' H Hk; cbn [keep_pending] in H;
    [by injection H as <- <-|].
  destruct item as [t|r|i|a|v|d]; destruct (keep_pending _ c) as [k q] eqn:E in H;
    injection H as <- <-; cbn [keep_pending].
  2: { case_bool_decide as Hin; [done|].
       replace (∅ ∖ {[tool_result_key r]}) with (∅ : gset str) by set_solver.
       rewrite (IH _ _ _ E Hk), bool_decide_eq_false_2 by set_solver. done. }
  all: by rewrite (IH _ _ _ E Hk).
Qed.

(** Calls that no later result answers may be forgotten. *)
Lemma orphans_forget l : ∀ p, turn_results (orphans p l) = ∅ -> orphans p l = orphans ∅ l.
Proof.
  induction l as [|[c|c|mid c] l IH]; intros p; cbn [orphans]; [done|done| |done].
  destruct (keep_pending p c) as [kept p'] eqn:E. intros Ht.
  assert (Hk : result_keys kept = []).
  { destruct kept as [|k0 kept]; [done|]. cbn [turn_results] in Ht.
    destruct (result_keys (k0 :: kept)) as [|x xs]; [done|]. set_solver. }
  rewrite (keep_pending_none _ _ _ _ E Hk).
  assert (Hl : orphans (if has_plain_content c then ∅ else p') l =
               orphans (if has_plain_content c then ∅ else ∅) l).
  { destruct (has_plain_content c) eqn:Hpl; [done|]. apply IH. destruct kept as [|k0 kept]; [exact Ht|].
    cbn [turn_results] in Ht. rewrite <-(keep_pending_plain _ _ _ _ E) in Hpl. rewrite Hpl in Ht.
    set_solver. }
  by destruct kept; rewrite Hl.
Qed.

Lemma view_forget tc p l : turn_results (orphans p (stripped tc l)) = ∅ ->
  unpaired (orphans p (stripped tc l)) = view l.
Proof.
  intros H. rewrite orphans_forget by done. unfold HistorySplit.view.
  by rewrite (orphans_agree image_json_len l ∅ tc ∅) by set_solver.
Qed.

Lemma view_drop_user p tc c p' r : keep_pending p (strip_item image_json_len tc <$> c) = ([], p') ->
  view (User c :: r) = view r.
Proof.
  intros E. unfold HistorySplit.view. cbn [History.stripped orphans].
  rewrite (keep_pending_agree image_json_len ∅ ∅ tc) by set_solver.
  rewrite (keep_pending_none _ _ _ _ E) by done. by destruct (has_plain_content _).
Qed.

Lemma view_drop_assistant mid c r tc : keep_resolved ∅ ∅ c = [] ->
  turn_results (orphans (list_to_set (call_keys c)) (stripped (note_calls tc c) r)) = ∅ ->
  view (Assistant mid c :: r) = view r.
Proof.
  intros Hk Ht. rewrite (orphans_agree image_json_len r _ _ (note_calls ∅ c)) in Ht.
  2: { intros k Hin. rewrite elem_of_list_to_set in Hin. rewrite !note_calls_eq, opens_turn_keys; [done|].
       intros Hn. rewrite Hn in Hin. by apply not_elem_of_nil in Hin. }
  unfold HistorySplit.view at 1. cbn [History.stripped orphans unpaired keep_message].
  rewrite Ht, Hk. by apply view_forget.
Qed.

Lemma turn_results_stripped_prefix p tc a b :
  turn_results (orphans p (stripped tc (a ++ b))) = ∅ ->
  turn_results (orphans p (stripped tc a)) = ∅.
Proof.
  rewrite stripped_app, orphans_app. intros H.
  pose proof (turn_results_prefix (orphans p (stripped tc a)) (orphans
    (pending_after p (stripped tc a)) (stripped (calls_after tc a) b))). set_solver.
Qed.

(** Where the first message of a view comes from: everything before it has an
    empty view, and the view starts there. *)
Lemma first_kept B : ∀ tc p h t, turn_results (orphans p (stripped tc (messages_only B))) = ∅ ->
  sourced_from tc p B = h :: t ->
  ∃ B1 x B2, B = B1 ++ x :: B2 ∧ source_index h = source_index x ∧
    view (messages_only B1) = [] ∧ view (messages_only (x :: B2)) = view (messages_only B).
Proof.
  induction B as [|[i m] B IH]; intros tc p h t Ht Hh; [done|].
  assert (Hhere : source_index h = i -> ∃ B1 x B2, mkSourced i m :: B = B1 ++ x :: B2 ∧
    source_index h = source_index x ∧ view (messages_only B1) = [] ∧
    view (messages_only (x :: B2)) = view (messages_only (mkSourced i m :: B))).
  { intros Hi. by exists [], (mkSourced i m), B. }
  unfold sourced_from in Hh. destruct m as [c|c|mid c];
    cbn [History.strip_loop drop_orphaned_loop] in Hh.
  - cbn in Hh. injection Hh as <- _. by apply Hhere.
  - cbn [messages_only fmap list_fmap message History.stripped orphans] in Ht.
    change (list_fmap _ _ message B) with (messages_only B) in Ht.
    destruct (keep_pending p (strip_item image_json_len tc <$> c)) as [[|k0 kept] p'] eqn:E.
    + destruct (IH _ _ _ _ Ht Hh) as (B1 & x & B2 & -> & Hi & H1 & H2).
      exists (mkSourced i (User c) :: B1), x, B2. split_and!; [done..| |].
      * cbn [messages_only fmap list_fmap message]. by rewrite (view_drop_user _ _ _ _ _ E).
      * rewrite H2. cbn [messages_only fmap list_fmap message].
        by rewrite (view_drop_user _ _ _ _ _ E).
    + cbn in Hh. injection Hh as <- _. by apply Hhere.
  - cbn [unpaired_sourced message source_index] in Hh.
    rewrite messages_only_orphans, messages_only_strip in Hh.
    set (R := orphans (list_to_set (call_keys c)) (stripped (note_calls tc c) (messages_only B))) in Hh.
    cbn [keep_message] in Hh.
    destruct (keep_resolved (turn_results R) ∅ c) as [|k0 kept] eqn:Ek;
      [|injection Hh as <- _; by apply Hhere].
    assert (HR : turn_results R = ∅).
    { apply set_eq. intros k. split; [|set_solver]. intros Hk.
      pose proof (no_orphans_results _ _ (no_orphans_orphans
        (stripped (note_calls tc c) (messages_only B)) (list_to_set (call_keys c))) k Hk) as Hin.
      rewrite elem_of_list_to_set in Hin.
      assert (Hno : k ∈ call_keys (keep_resolved (turn_results R) ∅ c)).
      { apply keep_resolved_keys. split_and!; [done|done|set_solver]. }
      rewrite Ek in Hno. by apply not_elem_of_nil in Hno. }
    rewrite HR in Ek.
    destruct (IH _ _ _ _ HR Hh) as (B1 & x & B2 & -> & Hi & H1 & H2).
    exists (mkSourced i (Assistant mid c) :: B1), x, B2. split_and!; [done..| |].
    + cbn [messages_only fmap list_fmap message].
      rewrite (view_drop_assistant _ _ _ tc Ek); [exact H1|].
      apply (turn_results_stripped_prefix _ _ _ (messages_only (x :: B2))).
      subst R. unfold messages_only in *. by rewrite fmap_app in HR.
    + rewrite H2. symmetry. by apply (view_drop_assistant _ _ _ tc Ek).
Qed.

Lemma sourced_view_eq messages : fst (provider_view_with_sources image_json_len messages) =
  (λ s, mkSourced (source_index s) (normalize_message (message s)))
    <$> sourced_from ∅ ∅ (source_messages messages).
Proof.
  unfold provider_view_with_sources, strip_tool_results_sourced,
    drop_orphaned_tool_results_sourced. cbn. by rewrite drop_unpaired_sourced_eq.
Qed.

Lemma source_messages_app a b : source_messages (a ++ b) =
  source_messages a ++ imap (λ i, mkSourced (length a + i)) b.
Proof. unfold source_messages. by rewrite imap_app. Qed.

Lemma imap_split_index (f : nat → nat) (b : list Message) B1 x B2 :
  imap (λ i, mkSourced (f i)) b = B1 ++ x :: B2 ->
  b = messages_only B1 ++ messages_only (x :: B2) ∧ source_index x = f (length B1) .
Proof.
  intros H. split.
  - assert (b = messages_only (imap (λ i, mkSourced (f i)) b)) as ->.
    { unfold messages_only. rewrite fmap_imap. rewrite <-(list_fmap_id b) at 1.
      rewrite <-imap_const. by apply imap_ext. }
    rewrite H. unfold messages_only. by rewrite fmap_app.
  - assert (Hx : imap (λ i, mkSourced (f i)) b !! length B1 = Some x)
      by (rewrite H; by apply list_lookup_middle).
    rewrite list_lookup_imap in Hx. destruct (b !! length B1); [|done]. by injection Hx as <-.
Qed.

Lemma messages_only_imap (f : nat → nat) b : messages_only (imap (λ i, mkSourced (f i)) b) = b.
Proof.
  unfold messages_only. rewrite fmap_imap. rewrite <-(list_fmap_id b) at 2.
  rewrite <-imap_const. by apply imap_ext.
Qed.

(** The cursor's row, whatever boundary it is computed from. *)
Lemma cursor_at rows n s :
  let messages := snd <$> rows in
  pending_after ∅ (take n messages) = ∅ -> view (take n messages) ≠ [] ->
  (n <= s <= length rows)%nat -> (0 < n)%nat ->
  match fst (provider_view_with_sources image_json_len messages) !! length (view (take n messages)) with
  | Some item => source_index item
  | None => length rows
  end = s ->
  view (take s messages) = view (take n messages) ->
  view (drop s messages) = view (drop n messages) ->
  compacted_through_sequence image_json_len rows
    (length (fst (provider_view image_json_len (take n messages)))) = fst <$> rows !! (s - 1)%nat.
Proof.
  intros messages Hp Hne Hs Hn Hsplit Htake Hdrop.
  assert (Hall : view messages = view (take n messages) ++ view (drop n messages)).
  { rewrite <-(take_drop n messages) at 1. by apply view_app. }
  unfold compacted_through_sequence. fold messages.
  rewrite (provider_view_view _ (take n messages)), length_fmap.
  assert (Hlen : length (fst (provider_view_with_sources image_json_len messages)) = length (view messages)).
  { rewrite sourced_view_eq, length_fmap. unfold HistorySplit.view.
    rewrite <-(messages_only_source messages) at 2. rewrite <-messages_only_sourced_from.
    unfold messages_only. by rewrite length_fmap. }
  rewrite Hsplit.
  destruct (Nat.eqb_spec (length (view (take n messages))) 0) as [Hz|_].
  { by apply nil_length_inv in Hz. }
  destruct (Nat.eqb_spec (length rows) 0); [lia|]. cbn [orb].
  destruct (Nat.ltb_spec (length (fst (provider_view_with_sources image_json_len messages)))
    (length (view (take n messages)))) as [Hlt|_].
  { rewrite Hlen, Hall, length_app in Hlt. lia. }
  destruct (Nat.eqb_spec s 0); [lia|].
  rewrite !provider_view_view, length_fmap, Htake, Nat.eqb_refl. cbn [negb].
  rewrite bool_decide_eq_true_2; [done|].
  rewrite Hdrop, sourced_view_eq, <-list_fmap_compose, <-fmap_app, <-Hall.
  unfold HistorySplit.view. rewrite <-(messages_only_source messages) at 1.
  rewrite <-messages_only_sourced_from. unfold messages_only. by rewrite <-list_fmap_compose.
Qed.

(** A cursor exists for every prefix the reducer can compact: for a pair-safe
    boundary with a non-empty view, the cursor found from the length of that
    view names a row at or after the boundary, the rows up to it have exactly
    the compacted view, and the rows after it have exactly the retained view. *)
Theorem compacted_prefix_has_a_cursor rows n :
  let messages := snd <$> rows in
  n ∈ pair_safe_boundaries messages ->
  fst (provider_view image_json_len (take n messages)) ≠ [] ->
  ∃ s row, compacted_through_sequence image_json_len rows
      (length (fst (provider_view image_json_len (take n messages)))) = Some (fst row) ∧
    (n <= s)%nat ∧ rows !! (s - 1)%nat = Some row ∧
    fst (provider_view image_json_len (take s messages)) =
      fst (provider_view image_json_len (take n messages)) ∧
    fst (provider_view image_json_len (drop s messages)) =
      fst (provider_view image_json_len (drop n messages)).
Proof.
  intros messages [Hn Hp]%pair_safe_boundaries_spec Hne.
  assert (Hlen : length messages = length rows) by apply length_fmap.
  assert (Hvne : view (take n messages) ≠ []).
  { intros H. apply Hne. by rewrite provider_view_view, H. }
  assert (Hgoal : ∃ s, (n <= s <= length rows)%nat ∧
    match fst (provider_view_with_sources image_json_len messages)
            !! length (view (take n messages)) with
    | Some item => source_index item | None => length rows end = s ∧
    view (take s messages) = view (take n messages) ∧
    view (drop s messages) = view (drop n messages)).
  { rewrite sourced_view_eq, list_lookup_fmap.
    assert (HL : source_messages messages = source_messages (take n messages) ++
      imap (λ i, mkSourced (length (take n messages) + i)) (drop n messages))
      by (by rewrite <-source_messages_app, take_drop).
    rewrite HL. set (A := source_messages (take n messages)).
    set (B := imap _ (drop n messages)).
    assert (HA : messages_only A = take n messages) by apply messages_only_source.
    assert (HB : messages_only B = drop n messages) by apply messages_only_imap.
    rewrite sourced_from_app by (by rewrite HA). rewrite HA.
    assert (Hk : length (sourced_from ∅ ∅ A) = length (view (take n messages))).
    { rewrite <-HA. unfold HistorySplit.view. rewrite <-messages_only_sourced_from.
      unfold messages_only. by rewrite length_fmap. }
    rewrite lookup_app_r by lia. rewrite Hk, Nat.sub_diag.
    destruct (sourced_from (calls_after ∅ (take n messages)) ∅ B) as [|h t] eqn:Eb.
    - assert (Hnil : view (drop n messages) = []).
      { rewrite <-HB. rewrite <-(view_forget (calls_after ∅ (take n messages)) ∅)
          by apply orphans_no_results. by rewrite <-messages_only_sourced_from, Eb. }
      exists (length rows). cbn. split_and!; [lia..|done| |].
      + rewrite take_ge by lia. rewrite <-(take_drop n messages) at 1. rewrite view_app by done.
        by rewrite Hnil, app_nil_r.
      + rewrite drop_ge by lia. by rewrite Hnil.
    - destruct (first_kept B _ _ _ _ (orphans_no_results _) Eb) as (B1 & x & B2 & HBe & Hi & H1 & H2).
      subst B. destruct (imap_split_index _ _ _ _ _ HBe) as [Hd Hx].
      cbn. rewrite Hi, Hx. exists (length (take n messages) + length B1)%nat.
      rewrite length_take in *. replace (n `min` length messages)%nat with n by lia.
      assert (Hl : (length B1 <= length messages - n)%nat).
      { rewrite <-length_drop, Hd, length_app. unfold messages_only. rewrite !length_fmap. lia. }
      assert (Hb1 : take (length B1) (drop n messages) = messages_only B1).
      { rewrite Hd. apply take_app_length'. unfold messages_only. by rewrite length_fmap. }
      assert (Hb2 : drop (length B1) (drop n messages) = messages_only (x :: B2)).
      { rewrite Hd. apply drop_app_length'. unfold messages_only. by rewrite length_fmap. }
      split_and!; [lia..|done| |].
      + rewrite <-take_take_drop. rewrite Hb1. rewrite view_app by done. by rewrite H1, app_nil_r.
      + rewrite <-drop_drop, Hb2, H2. by rewrite messages_only_imap. }
  destruct Hgoal as (s & Hs & Hsplit & Htake & Hdrop).
  destruct (lookup_lt_is_Some_2 rows (s - 1)) as [row Hrow]; [lia|].
  exists s, row. split_and!; [|lia|done|by rewrite !provider_view_view, Htake|
    by rewrite !provider_view_view, Hdrop].
  pose proof (cursor_at rows n s Hp Hvne Hs ltac:(lia) Hsplit Htake Hdrop) as Hc.
  fold messages in Hc. by rewrite Hc, Hrow.
Qed.
End cursor.

(** ** Pre-truncation is safe *)

Lemma is_char_boundary_slice s : ∀ i, is_char_boundary s i = true ->
  ∃ head rest, slice_to s i = Some head ∧ s = head ++ rest ∧ str_len head = i.
Proof.
  induction s as [|c s IH]; intros i; cbn [is_char_boundary slice_to].
  - destruct (Z.eqb_spec i 0) as [->|]; [|done]. intros _. by exists [], [].
  - destruct (Z.eqb_spec i 0) as [->|]; [intros _; by exists [], (c :: s)|]. cbn [orb].
    intros [Hw H]%andb_true_iff. rewrite Hw. apply IH in H as (head & rest & -> & -> & Hl).
    exists (c :: head), rest. split; [done|]. split; [done|]. cbn. lia.
Qed.

Lemma is_char_boundary_0 s : is_char_boundary s 0 = true.
Proof. by destruct s. Qed.

Lemma boundary_nearby s : ∀ i, 0 <= i <= str_len s ->
  ∃ j, 0 <= j ∧ i - 4 < j <= i ∧ is_char_boundary s j = true.
Proof.
  induction s as [|c s IH]; intros i Hi; cbn [str_len] in Hi.
  { exists 0. split_and!; [lia..|done]. }
  pose proof (utf8_width_bounds c).
  destruct (Z.ltb_spec i (utf8_width c)).
  { exists 0. split_and!; [lia..|done]. }
  destruct (IH (i - utf8_width c)) as (j & Hj0 & Hj & Hb); [lia|].
  exists (j + utf8_width c). split_and!; [lia..|]. cbn [is_char_boundary].
  replace (j + utf8_width c - utf8_width c) with j by lia. rewrite Hb.
  destruct (Z.leb_spec (utf8_width c) (j + utf8_width c)); [|lia]. by destruct (_ =? 0).
Qed.

Lemma floor_loop_spec t n :
  is_char_boundary t (Z.of_nat (floor_loop t n)) = true ∧ (floor_loop t n <= n)%nat ∧
  ∀ j, (j <= n)%nat -> is_char_boundary t (Z.of_nat j) = true -> (j <= floor_loop t n)%nat.
Proof.
  induction n as [|n (H1 & H2 & H3)]; cbn [floor_loop].
  { split_and!; [apply is_char_boundary_0|lia|lia]. }
  destruct (is_char_boundary t (Z.of_nat (S n))) eqn:E; [by split_and!|].
  split_and!; [done|lia|]. intros j Hj Hb. apply H3; [|done].
  destruct (decide (j = S n)) as [->|]; [congruence|lia].
Qed.

Lemma floor_char_boundary_spec t index : 0 <= index < str_len t ->
  ∃ head rest, slice_to t (floor_char_boundary t index) = Some head ∧ t = head ++ rest ∧
    str_len head = floor_char_boundary t index ∧ index - 4 < floor_char_boundary t index <= index.
Proof.
  intros Hi. unfold floor_char_boundary. destruct (Z.leb_spec (str_len t) index); [lia|].
  destruct (floor_loop_spec t (Z.to_nat index)) as (Hb & Hle & Hmax).
  destruct (is_char_boundary_slice _ _ Hb) as (head & rest & Hs & Ht & Hl).
  exists head, rest. split_and!; [done..| |lia].
  destruct (boundary_nearby t index) as (j & Hj0 & Hj & Hjb); [lia|].
  specialize (Hmax (Z.to_nat j)). rewrite Z2Nat.id in Hmax by lia.
  specialize (Hmax ltac:(lia) Hjb). lia.
Qed.

(** What pre-truncation may do to one piece of a result. *)
Definition pretruncated_content (max_chars : Z) (a b : ToolResultContent) : Prop :=
  match a, b with
  | TRText t, TRText t' =>
      if max_chars <? str_len (text t)
      then ∃ head rest, text t = head ++ rest ∧ max_chars - 4 < str_len head <= max_chars ∧
             text t' = head ++ pretruncated_note (str_len head) (str_len (text t))
      else t' = t
  | _, _ => b = a
  end.
Definition pretruncated_item (max_chars : Z) (a b : UserContent) : Prop :=
  match a, b with
  | UToolResult r, UToolResult r' =>
      tr_id r' = tr_id r ∧ tr_call_id r' = tr_call_id r ∧
      Forall2 (pretruncated_content max_chars) (tr_content r) (tr_content r')
  | _, _ => b = a
  end.
Definition pretruncated_message (max_chars : Z) (a b : Message) : Prop :=
  match a, b with
  | User c, User c' => Forall2 (pretruncated_item max_chars) c c'
  | _, _ => b = a
  end.

Lemma mapM_total {A B} (f : A → option B) (R : A → B → Prop) (l : list A) :
  (∀ x, ∃ y, f x = Some y ∧ R x y) -> ∃ k, mapM f l = Some k ∧ Forall2 R l k.
Proof.
  intros H. induction l as [|x l (k & Hk & Hr)]; [by exists []|].
  destruct (H x) as (y & Hy & Hxy). exists (y :: k). cbn. rewrite Hy, Hk. by repeat constructor.
Qed.

Lemma truncate_content_total max_chars content : 0 <= max_chars ->
  ∃ out, truncate_tool_result_content max_chars content = Some out ∧
    pretruncated_content max_chars content out.
Proof.
  intros Hm. destruct content as [[t]|i]; [|by exists (TRImage i)].
  unfold truncate_tool_result_content, pretruncated_content. cbn [text].
  destruct (Z.ltb_spec max_chars (str_len t)) as [Hlt|Hge]; [|by eexists].
  destruct (floor_char_boundary_spec t max_chars) as (head & rest & Hs & Ht & Hl & Hb); [lia|].
  cbv zeta. rewrite Hs. cbn [mbind option_bind]. eexists. split; [done|]. cbn [text].
  exists head, rest. rewrite Hl. split; [exact Ht|]. split; [exact Hb|reflexivity].
Qed.

Lemma pretruncate_message_total max_chars m : 0 <= max_chars ->
  ∃ out, pretruncate_message max_chars m = Some out ∧ pretruncated_message max_chars m out.
Proof.
  intros Hm. destruct m as [c|c|mid c]; [by eexists| |by eexists].
  destruct (mapM_total (pretruncate_item max_chars) (pretruncated_item max_chars) c)
    as (k & Hk & Hr).
  { intros [t|r|i|a|v|d]; try (by eexists). cbn.
    destruct (mapM_total (truncate_tool_result_content max_chars)
      (pretruncated_content max_chars) (tr_content r)) as (k & Hk & Hr).
    { intros x. by apply truncate_content_total. }
    rewrite Hk. cbn. eexists. split; [done|]. by split_and!. }
  cbn. rewrite Hk. cbn. by eexists.
Qed.

Lemma pretruncate_total messages max_chars : 0 <= max_chars ->
  ∃ out, pretruncate_tool_results messages max_chars = Some out ∧
    Forall2 (pretruncated_message max_chars) messages out.
Proof. intros Hm. apply mapM_total. intros m. by apply pretruncate_message_total. Qed.

(** Pre-truncating tool results never cuts inside a character, whatever the
    byte budget and the text: it always succeeds, leaves every message, call key
    and short text as it is, and shortens a long text to the longest prefix of
    whole characters within the budget, followed by the note. *)
Theorem pretruncation_never_splits_a_character messages max_chars : 0 <= max_chars ->
  ∃ out, pretruncate_tool_results messages max_chars = Some out ∧
    Forall2 (pretruncated_message max_chars) messages out.
Proof. apply pretruncate_total. Qed.

(** ** Witnesses *)

(** Every message costs one token. *)
Definition count_messages (l : list Message) : result unit Z := Ok (Z.of_nat (length l)).

Lemma split_never_separates_a_call_witness :
  split_messages_for_summary_with_counter count_messages demo_history 3 =
    Some (Ok (take 1 demo_history, drop 1 demo_history)) ∧
  lossless_split no_images demo_history (take 1 demo_history) (drop 1 demo_history).
Proof.
  destruct (split_never_separates_a_call count_messages no_images demo_history 3) as (r & Hr & H).
  assert (Hv : split_messages_for_summary_with_counter count_messages demo_history 3 =
    Some (Ok (take 1 demo_history, drop 1 demo_history))) by (vm_compute; reflexivity).
  split; [exact Hv|]. rewrite Hv in Hr. injection Hr as <-. exact H.
Defined.

Lemma search_equals_linear_scan_witness :
  search_split count_messages 4 demo_history 2 0 3 3 = Some (Ok 2%nat).
Proof.
  apply (search_equals_linear_scan count_messages demo_history 2); [vm_compute; lia|].
  split; [by eexists|]. unfold count_messages. intros i j n m Hij Hn Hm.
  inversion Hn. inversion Hm. rewrite !length_drop. lia.
Defined.

Definition demo_rows : list (Z * Message) := imap (λ i m, (10 * Z.of_nat i, m)) demo_history.

Lemma compacted_prefix_has_a_cursor_witness :
  compacted_through_sequence no_images demo_rows 1 = Some 0 ∧
  ∃ s row, compacted_through_sequence no_images demo_rows 1 = Some (fst row) ∧ (1 <= s)%nat ∧
    demo_rows !! (s - 1)%nat = Some row.
Proof.
  split; [vm_compute; reflexivity|].
  destruct (compacted_prefix_has_a_cursor no_images demo_rows 1) as (s & row & H1 & H2 & H3 & _).
  - vm_compute. left.
  - vm_compute. discriminate.
  - exists s, row. split; [exact H1|]. split; [exact H2|exact H3].
Defined.

Lemma pretruncation_never_splits_a_character_witness :
  ∃ out, pretruncate_tool_results [User [user_tool_result [97] [TRText (mkText [233; 233; 233])]]] 3
    = Some out ∧ Forall2 (pretruncated_message 3)
      [User [user_tool_result [97] [TRText (mkText [233; 233; 233])]]] out.
Proof. apply pretruncation_never_splits_a_character. lia. Defined.
