(* ===== verification/Compaction.v ===== *)
(** * Compaction

    The rolling reduction of a transcript ([src/crates/gents/src/compaction.rs])
    and the text of its checkpoints ([compaction/summary.rs]): the admission and
    reduction decisions, the choice of each summary chunk, the rolling loop, the
    guided summary with its one fallback, and the rendering of a checkpoint.

    Parameters: the estimates of a message list and of a summary request, the
    agent loop that answers a summary request, the clock, [serde_json]'s reading
    of a checkpoint and its quoting of a string.  A step of the rolling loop is
    numbered, and the answers of the loop and of the clock depend on that
    number, so they may change from one step to the next. *)

From S2P Require Import Prelude RustStr Float64 Errors TokenBudget Truncation Messages History HistorySplit.
Open Scope Z_scope.

(** ** Checkpoint text ([summary.rs]) *)

Definition ERROR_DIAGNOSTIC_MAX_BYTES : Z := 256.
Definition RAW_OUTPUT_PREVIEW_MAX_BYTES : Z := 192.
Definition SUMMARY_ITEM_MAX_BYTES : Z := 512.
(** ["…"]: three bytes. *)
Definition SUMMARY_ITEM_TRUNCATION_SUFFIX : str := [8230].
Definition MODEL_LIST_MAX_ITEMS : nat := 8.
Definition LIST_OVERFLOW_SUFFIX : str := lit "(omitted from this summary)".

(** [&s[..floor_char_boundary(s, i)]]; the slice is never inside a character
    ([floor_prefix_exact]). *)
Definition floor_prefix (s : str) (i : Z) : str :=
  default [] (slice_to s (floor_char_boundary s i)).

Definition bounded_error_diagnostic (raw : str) : str :=
  if str_len raw <=? ERROR_DIAGNOSTIC_MAX_BYTES then raw
  else floor_prefix raw ERROR_DIAGNOSTIC_MAX_BYTES ++ [8230] ++ lit " [truncated, "
       ++ fmt_Z (str_len raw) ++ lit " bytes total]".

(** [char::is_control]: the control characters of Latin-1. *)
Definition is_control (c : char) : bool :=
  ((0 <=? c) && (c <=? 31)) || ((127 <=? c) && (c <=? 159)).

Definition sanitize_item (item : str) : str :=
  let cleaned := (λ c, if is_control c then 32 else c) <$> trim item in
  if SUMMARY_ITEM_MAX_BYTES <? str_len cleaned
  then floor_prefix cleaned (SUMMARY_ITEM_MAX_BYTES - str_len SUMMARY_ITEM_TRUNCATION_SUFFIX)
       ++ SUMMARY_ITEM_TRUNCATION_SUFFIX
  else cleaned.
Definition is_empty (s : str) : bool := match s with [] => true | _ => false end.
Definition sanitized_items (items : list str) : list str :=
  List.filter (λ item, negb (is_empty item)) (sanitize_item <$> items).

Definition bullet_section (title : str) (items : list str) (max_items : nat) : option str :=
  let items := sanitized_items items in
  match items with
  | [] => None
  | _ =>
      let lines := (λ item, lit "- " ++ item) <$> take max_items items in
      let omitted := (length items - max_items)%nat in
      let lines :=
        if (0 <? omitted)%nat
        then lines ++ [lit "- " ++ [8230] ++ lit " and " ++ fmt_Z (Z.of_nat omitted)
                       ++ lit " more " ++ LIST_OVERFLOW_SUFFIX]
        else lines in
      Some (title ++ [NL; NL] ++ join [NL] lines)
  end.
Definition numbered_section (title : str) (items : list str) (max_items : nat) : option str :=
  let items := sanitized_items items in
  match items with
  | [] => None
  | _ =>
      let lines := imap (λ index item, fmt_Z (Z.of_nat (index + 1)) ++ lit ". " ++ item)
                     (take max_items items) in
      let omitted := (length items - max_items)%nat in
      let lines :=
        if (0 <? omitted)%nat
        then lines ++ [fmt_Z (Z.of_nat (length lines + 1)) ++ lit ". " ++ [8230] ++ lit " and "
                       ++ fmt_Z (Z.of_nat omitted) ++ lit " more " ++ LIST_OVERFLOW_SUFFIX]
        else lines in
      Some (title ++ [NL; NL] ++ join [NL] lines)
  end.

Record ContinuationCheckpoint : Type := mkCheckpoint {
  goal : str;
  constraints_and_preferences : list str;
  completed_work : list str;
  in_progress : list str;
  blockers : list str;
  current_work : list str;
  key_decisions : list str;
  errors_and_fixes : list str;
  verification : list str;
  uncertainties : list str;
  next_actions : list str;
  critical_context : list str }.

Definition progress_section (checkpoint : ContinuationCheckpoint) : option str :=
  let subsections := omap id
    [bullet_section (lit "### Done") (completed_work checkpoint) MODEL_LIST_MAX_ITEMS;
     bullet_section (lit "### In progress") (in_progress checkpoint) MODEL_LIST_MAX_ITEMS;
     bullet_section (lit "### Blocked") (blockers checkpoint) MODEL_LIST_MAX_ITEMS] in
  match subsections with
  | [] => None
  | _ => Some (lit "## Progress" ++ [NL; NL] ++ join [NL; NL] subsections)
  end.

(** The sections that carry the continuation state, before the file lists. *)
Definition state_sections (checkpoint : ContinuationCheckpoint) : list (option str) :=
  [Some (lit "# Continuation checkpoint" ++ [NL; NL] ++ lit "## Goal" ++ [NL; NL]
         ++ sanitize_item (goal checkpoint));
   bullet_section (lit "## Constraints and preferences")
     (constraints_and_preferences checkpoint) MODEL_LIST_MAX_ITEMS;
   progress_section checkpoint;
   bullet_section (lit "## Current work") (current_work checkpoint) MODEL_LIST_MAX_ITEMS;
   bullet_section (lit "## Key decisions") (key_decisions checkpoint) MODEL_LIST_MAX_ITEMS;
   bullet_section (lit "## Errors and fixes") (errors_and_fixes checkpoint) MODEL_LIST_MAX_ITEMS;
   bullet_section (lit "## Verification") (verification checkpoint) MODEL_LIST_MAX_ITEMS;
   bullet_section (lit "## Uncertainties") (uncertainties checkpoint) MODEL_LIST_MAX_ITEMS;
   numbered_section (lit "## Next actions") (next_actions checkpoint) MODEL_LIST_MAX_ITEMS;
   bullet_section (lit "## Critical context") (critical_context checkpoint) MODEL_LIST_MAX_ITEMS].
Definition not_blank (s : str) : bool := negb (is_empty (trim s)).
Definition format_summary (checkpoint : ContinuationCheckpoint) (files_read files_modified : list str)
    (file_list_max : nat) : str :=
  join [NL; NL] (List.filter not_blank (omap id
    (state_sections checkpoint ++
     [bullet_section (lit "## Files read") files_read file_list_max;
      bullet_section (lit "## Files modified") files_modified file_list_max]))).

Definition bounded_summary (summary : str) : str :=
  let '(bounded, _, _) := truncate_text summary Head default_limits in bounded.

(** The text around a checkpoint object: a [json] or untyped Markdown fence goes. *)
Definition FENCE : str := [96; 96; 96].
Definition strip_markdown_fence (raw : str) : str :=
  let trimmed := trim raw in
  match (match strip_prefix (FENCE ++ lit "json") trimmed with
         | Some body => Some body
         | None => strip_prefix FENCE trimmed
         end) with
  | None => trimmed
  | Some body =>
      let body := trim body in
      match strip_suffix FENCE body with Some b => trim_end b | None => body end
  end.

Section fallback.
Context (from_str : str → result str ContinuationCheckpoint) (json_string : str → str).

Definition bounded_raw_output_preview (raw : str) : str :=
  let cut := Z.min (str_len raw) RAW_OUTPUT_PREVIEW_MAX_BYTES in
  let suffix := if floor_char_boundary raw cut <? str_len raw then [8230] else [] in
  json_string (floor_prefix raw cut ++ suffix).

Definition parse_fallback_checkpoint (raw : str) : result str ContinuationCheckpoint :=
  match from_str (strip_markdown_fence raw) with
  | Err error => Err (lit "strict JSON validation failed: " ++ error ++ lit "; raw_output_preview="
                      ++ bounded_raw_output_preview raw)
  | Ok checkpoint =>
      if is_empty (trim (goal checkpoint))
      then Err (lit "checkpoint goal is empty; raw_output_preview="
                ++ bounded_raw_output_preview raw)
      else if forallb (λ action, is_empty (trim action)) (next_actions checkpoint)
      then Err (lit "checkpoint has no pending next action; raw_output_preview="
                ++ bounded_raw_output_preview raw)
      else Ok checkpoint
  end.
End fallback.

(** ** Decisions *)

Inductive ReductionError : Type :=
| DeadlineElapsed
| IndivisibleUnitCannotFit (start end_ estimated_input_tokens input_budget
    reserved_output_tokens context_window : Z)
| ExactCountOverflow (field : string) (value : Z)
| InvalidRollingPlan
| RE_CannotFit.

Fixpoint sum_checked (total : Z) (l : list nat) : option Z :=
  match l with
  | [] => Some total
  | n :: l => match checked_add usize_max total (Z.of_nat n) with
              | Some total => sum_checked total l
              | None => None
              end
  end.
Definition rolling_plan_is_valid (target_messages : nat) (chunk_messages : list nat)
    (chunk_pair_closed chunk_can_dispatch : list bool) (checkpoint_covered : nat) : bool :=
  negb (length chunk_messages =? 0)%nat
  && (length chunk_messages =? length chunk_pair_closed)%nat
  && (length chunk_messages =? length chunk_can_dispatch)%nat
  && forallb (λ messages, 0 <? messages)%nat chunk_messages
  && forallb id chunk_pair_closed
  && forallb id chunk_can_dispatch
  && bool_decide (sum_checked 0 chunk_messages = Some (Z.of_nat target_messages))
  && (checkpoint_covered =? target_messages)%nat.

Definition rolling_step_input {T} (prior_checkpoint : option T) (chunk : list T) : list T :=
  match prior_checkpoint with Some c => c :: chunk | None => chunk end.

Record ReductionAdmission : Type := mkAdmission {
  ra_input_tokens : Z;
  ra_effective_input_budget : Z;
  ra_threshold_decision : ThresholdDecision }.
Definition admission_for_input (input_tokens context_window : Z) (threshold : f64)
    : option ReductionAdmission :=
  let budget := effective_input_budget context_window threshold in
  match threshold_decision input_tokens budget with
  | ReduceEligible => Some (mkAdmission input_tokens budget ReduceEligible)
  | NotNeeded => None
  end.

Inductive ReductionDecision (C : Type) : Type :=
| D_NotNeeded
| D_CannotFit
| D_Reduce (prefix_len : nat) (checkpoint : C).
Arguments D_NotNeeded {C}. Arguments D_CannotFit {C}. Arguments D_Reduce {C}.
Inductive ReductionOutcome (T C : Type) : Type :=
| O_NotNeeded (messages : list T)
| O_CannotFit
| O_Reduced (compacted_prefix retained_suffix : list T) (checkpoint : C).
Arguments O_NotNeeded {T C}. Arguments O_CannotFit {T C}. Arguments O_Reduced {T C}.

Definition reduction_decision {C} (threshold : ThresholdDecision) (can_fit : bool)
    (prefix_len : nat) (checkpoint : C) : ReductionDecision C :=
  match threshold with
  | NotNeeded => D_NotNeeded
  | ReduceEligible => if can_fit then D_Reduce prefix_len checkpoint else D_CannotFit
  end.
Definition admission_decision {C} (self : ReductionAdmission) (can_fit : bool)
    (prefix_len : nat) (checkpoint : C) : ReductionDecision C :=
  reduction_decision (ra_threshold_decision self) can_fit prefix_len checkpoint.
Definition apply_reduction_decision {T C} (source : list T) (decision : ReductionDecision C)
    : ReductionOutcome T C :=
  match decision with
  | D_NotNeeded => O_NotNeeded source
  | D_CannotFit => O_CannotFit
  | D_Reduce prefix_len checkpoint =>
      if (0 <? prefix_len)%nat && (prefix_len <=? length source)%nat
      then O_Reduced (take prefix_len source) (drop prefix_len source) checkpoint
      else O_CannotFit
  end.

Inductive ReductionMode : Type := StripOnly | Summarize.
Inductive CompactionStrategy : Type := StripToolResults | StripThenSummarize.
Definition strategy_as_str (s : CompactionStrategy) : str :=
  match s with
  | StripToolResults => lit "StripToolResults"
  | StripThenSummarize => lit "StripThenSummarize"
  end.
Definition reduction_mode (s : CompactionStrategy) : ReductionMode :=
  match s with StripToolResults => StripOnly | StripThenSummarize => Summarize end.

Inductive ReductionResultState : Type :=
| ProviderViewRepaired (messages : list Message)
| Decided (outcome : ReductionOutcome Message str).
Record ReductionResult : Type := mkReduction {
  rr_state : ReductionResultState;
  rr_original_token_estimate : Z;
  rr_compacted_token_estimate : Z;
  rr_files_read : list str;
  rr_files_modified : list str }.

Definition provider_messages (self : ReductionResult) : result ReductionError (list Message) :=
  match rr_state self with
  | ProviderViewRepaired messages => Ok messages
  | Decided (O_NotNeeded messages) => Ok messages
  | Decided (O_Reduced _ retained_suffix _) => Ok retained_suffix
  | Decided O_CannotFit => Err RE_CannotFit
  end.
Definition exact_reduction (self : ReductionResult) : option ExactReduction :=
  match rr_state self with
  | Decided (O_Reduced compacted_prefix retained_suffix checkpoint) =>
      Some (mkExact compacted_prefix retained_suffix checkpoint)
  | _ => None
  end.
Definition cannot_fit (self : ReductionResult) : bool :=
  match rr_state self with Decided O_CannotFit => true | _ => false end.

Definition messages_compacted (self : ExactReduction) : result ReductionError Z :=
  let n := Z.of_nat (length (compacted_prefix self)) in
  if n <=? u32_max then Ok n else Err (ExactCountOverflow "messages_compacted" n).

(** ** Checkpoint messages ([prompt.rs]) *)

Definition continuation_checkpoint_reminder (checkpoints : str) : str :=
  lit "Continuation checkpoints from earlier conversation (oldest to newest):" ++ [NL; NL]
  ++ checkpoints ++ [NL; NL]
  ++ lit "Continue from these checkpoints and the retained conversation. Treat recorded results as "
  ++ lit "evidence, not as a prohibition on verification. Re-check facts when state may have changed, "
  ++ lit "the checkpoint is ambiguous, or correctness depends on them. Avoid repeating completed or "
  ++ lit "expensive work without a concrete reason.".
Definition system_reminder (t : str) : Message :=
  message_user (lit "<system-reminder>" ++ [NL] ++ t ++ [NL] ++ lit "</system-reminder>").
Definition join_compaction_summaries (compaction_summaries : list str) : str :=
  join ([NL; NL] ++ lit "---" ++ [NL; NL]) compaction_summaries.
Definition compaction_summary_message (compaction_summaries : list str) : option Message :=
  match compaction_summaries with
  | [] => None
  | _ => Some (system_reminder (continuation_checkpoint_reminder
                                  (join_compaction_summaries compaction_summaries)))
  end.
Definition checkpoint_messages (self : ExactReduction) : list Message :=
  match compaction_summary_message [trim (checkpoint self)] with Some m => [m] | None => [] end
  ++ retained_suffix self.

(** ** The reduction engine *)

Definition MAX_COMPACTION_SUMMARY_MAX_OUTPUT_TOKENS : Z := 32768.
Definition MAX_COMPACTION_SUMMARY_FILE_LIST_MAX : Z := 1000.
(** [x.clamp(lo, hi)]. *)
Definition clamp (lo hi x : Z) : Z := Z.max lo (Z.min hi x).

Record ReductionOptions : Type := mkOptions {
  ro_tool_result_max_chars : Z;
  ro_keep_recent_tokens : Z;
  ro_mode : ReductionMode;
  ro_summary_max_output_tokens : Z;
  ro_summary_file_list_max : Z;
  ro_deadline : option Z;
  ro_aggregate_token_budget : option AggregateTokenBudget;
  ro_sampling_seed : option Z }.

(** The loop configuration: the fields a summary changes, and the rest. *)
Record LoopConfig (R : Type) : Type := mkConfig {
  lc_context_window : Z;
  lc_preamble : option str;
  lc_context_message : option Message;
  lc_tool_choice : option R;
  lc_turn_compactor : option R;
  lc_max_turns : Z;
  lc_max_tokens : option Z;
  lc_aggregate_token_budget : option AggregateTokenBudget;
  lc_additional_params : option Json;
  lc_deadline : option Z;
  lc_structured_output : bool;
  lc_no_retry : bool;
  lc_rest : R }.
Arguments mkConfig {R}. Arguments lc_context_window {R}. Arguments lc_preamble {R}.
Arguments lc_context_message {R}. Arguments lc_tool_choice {R}. Arguments lc_turn_compactor {R}.
Arguments lc_max_turns {R}. Arguments lc_max_tokens {R}. Arguments lc_aggregate_token_budget {R}.
Arguments lc_additional_params {R}. Arguments lc_deadline {R}. Arguments lc_structured_output {R}.
Arguments lc_no_retry {R}. Arguments lc_rest {R}.

(** A failed agent loop: its rendered chain of causes, and the causes. *)
Record LoopError : Type := mkLoopError { le_display : str; le_chain : list error_cause }.

Inductive CompactionError : Type :=
| CE_Reduction (e : ReductionError)
| CE_Projection (context e : str)
| CE_Provider (message : str)
| CE_Budget (context : str) (e : LoopError).

Definition is_guided_output_failure (error : LoopError) : bool :=
  contains (lit "structured-output validation failed") (le_display error)
  || contains (lit "completion produced no visible output") (le_display error).
Definition deadline_elapsed (deadline : option Z) (now : Z) : bool :=
  is_some_and (λ d, d <=? now) deadline.

Definition projecting {A} (context : string) (r : result str A) : result CompactionError A :=
  match r with Ok a => Ok a | Err e => Err (CE_Projection (lit context) e) end.

Section engine.
Context {R : Type}.
(** Estimates, and the image lengths of the stubs. *)
Context (estimate : list Message → result str Z).
Context (estimate_summary : LoopConfig R → list Message → result str Z).
Context (image_json_len : Image → Z).
(** The [k]-th step's clock readings and loop answers. *)
Context (now_step now_dispatch now_fallback now_error : nat → Z).
Context (run_typed : nat → LoopConfig R → list Message → result LoopError ContinuationCheckpoint).
Context (run_text : nat → LoopConfig R → list Message → result LoopError str).
Context (from_str : str → result str ContinuationCheckpoint) (json_string : str → str).
(** The prompts and the merge of request parameters. *)
Context (compaction_prompt compaction_json_fallback_prompt : str).
Context (merge_optional_params : option Json → option Json → option Json).
Context (seed_params : Z → Json).

(** [None] is a panic or exhausted fuel; [reduce] has neither. *)
Definition prior_message (prior_summary : option str) : option Message :=
  prior_summary ≫= λ summary, compaction_summary_message [summary].

Definition summary_candidate_tokens (chunk : list Message) (prior_summary : option str)
    (summary_config : LoopConfig R) (options : ReductionOptions)
    : option (result CompactionError Z) :=
  match pretruncate_tool_results chunk (ro_tool_result_max_chars options) with
  | None => None
  | Some prepared_chunk =>
      let history := rolling_step_input (prior_message prior_summary) prepared_chunk in
      Some (projecting "projecting rolling compaction summary request"
              (estimate_summary summary_config history))
  end.

Fixpoint chunk_search (fuel : nat) (boundaries : list nat)
    (tokens : nat → option (result CompactionError Z)) (input_budget context_window
    configured_output : Z) (low high : nat) (best : option (nat * Z))
    : option (result CompactionError (option (nat * Z))) :=
  if (low <? high)%nat then
    match fuel with
    | O => None
    | S fuel =>
        let middle := (low + (high - low) / 2)%nat in
        match boundaries !! middle with
        | None => None
        | Some boundary =>
            match tokens boundary with
            | None => None
            | Some (Err e) => Some (Err e)
            | Some (Ok estimate) =>
                if (estimate <=? input_budget)
                   && can_dispatch estimate context_window configured_output
                then chunk_search fuel boundaries tokens input_budget context_window
                       configured_output (middle + 1) high (Some (boundary, estimate))
                else chunk_search fuel boundaries tokens input_budget context_window
                       configured_output low middle best
            end
        end
    end
  else Some (Ok best).

Definition cannot_fit_error (remaining : list Message) (unit_len : nat) (prior_summary : option str)
    (summary_config : LoopConfig R) (options : ReductionOptions) (absolute_start : nat)
    (context_window : Z) : option (result CompactionError (nat * Z)) :=
  let configured_output := configured_output_ceiling (lc_max_tokens summary_config) in
  let input_budget := rolling_summary_input_budget context_window configured_output in
  match summary_candidate_tokens (take unit_len remaining) prior_summary summary_config options with
  | None => None
  | Some (Err e) => Some (Err e)
  | Some (Ok estimated) =>
      match checked_add usize_max (Z.of_nat absolute_start) (Z.of_nat unit_len) with
      | None => Some (Err (CE_Reduction
                  (ExactCountOverflow "indivisible_unit_end" (Z.of_nat absolute_start))))
      | Some absolute_end =>
          Some (Err (CE_Reduction (IndivisibleUnitCannotFit (Z.of_nat absolute_start) absolute_end
            estimated input_budget configured_output context_window)))
      end
  end.

Definition largest_fitting_summary_chunk (remaining : list Message) (prior_summary : option str)
    (summary_config : LoopConfig R) (options : ReductionOptions) (absolute_start : nat)
    (context_window : Z) : option (result CompactionError (nat * Z)) :=
  let boundaries := pair_safe_boundaries remaining in
  let configured_output := configured_output_ceiling (lc_max_tokens summary_config) in
  let input_budget := rolling_summary_input_budget context_window configured_output in
  match boundaries with
  | [] => cannot_fit_error remaining (length remaining) prior_summary summary_config options
            absolute_start context_window
  | first_boundary :: _ =>
      let tokens boundary :=
        summary_candidate_tokens (take boundary remaining) prior_summary summary_config options in
      match chunk_search (length boundaries) boundaries tokens input_budget context_window
              configured_output 0 (length boundaries) None with
      | None => None
      | Some (Err e) => Some (Err e)
      | Some (Ok (Some best)) => Some (Ok best)
      | Some (Ok None) =>
          cannot_fit_error remaining first_boundary prior_summary summary_config options
            absolute_start context_window
      end
  end.

Definition provider_failure (guided_error : LoopError) (fallback_error : str) : CompactionError :=
  CE_Provider (lit "compaction_provider_failure: guided structured output failed: "
    ++ bounded_error_diagnostic (le_display guided_error)
    ++ lit "; non-guided JSON fallback failed: " ++ bounded_error_diagnostic fallback_error).
Definition budget_exhausted (error : LoopError) : bool :=
  bool_decide (is_Some (aggregate_token_budget_exhaustion_message (le_chain error))).

Definition fallback_config_of (c : LoopConfig R) : LoopConfig R :=
  mkConfig (lc_context_window c)
    (Some (compaction_prompt ++ [NL; NL] ++ compaction_json_fallback_prompt))
    (lc_context_message c) (lc_tool_choice c) (lc_turn_compactor c) (lc_max_turns c)
    (lc_max_tokens c) (lc_aggregate_token_budget c) (lc_additional_params c) (lc_deadline c)
    false true (lc_rest c).

Definition summarize_checkpoint (k : nat) (prepared_history : list Message)
    (summary_config : LoopConfig R) : result CompactionError ContinuationCheckpoint :=
  if deadline_elapsed (lc_deadline summary_config) (now_dispatch k)
  then Err (CE_Reduction DeadlineElapsed) else
  match run_typed k summary_config prepared_history with
  | Ok checkpoint => Ok checkpoint
  | Err guided_error =>
      if is_guided_output_failure guided_error
         && negb (deadline_elapsed (lc_deadline summary_config) (now_fallback k)) then
        match run_text k (fallback_config_of summary_config) prepared_history with
        | Err fallback_error =>
            if budget_exhausted fallback_error
            then Err (CE_Budget
              (lit "non-guided compaction fallback exhausted the request token budget")
              fallback_error)
            else Err (provider_failure guided_error (le_display fallback_error))
        | Ok raw =>
            match parse_fallback_checkpoint from_str json_string raw with
            | Ok checkpoint => Ok checkpoint
            | Err fallback_error => Err (provider_failure guided_error fallback_error)
            end
        end
      else if budget_exhausted guided_error
      then Err (CE_Budget (lit "guided compaction exhausted the request token budget") guided_error)
      else
        let deadline_context :=
          if deadline_elapsed (lc_deadline summary_config) (now_error k)
          then lit "compaction deadline elapsed after " else [] in
        Err (CE_Provider (lit "compaction_provider_failure: " ++ deadline_context
               ++ bounded_error_diagnostic (le_display guided_error)))
  end.

(** The state of the rolling loop. *)
Record Rolling : Type := mkRolling {
  consumed : nat;
  rolling_summary : option str;
  chunk_messages : list nat;
  chunk_pair_closed : list bool;
  chunk_can_dispatch : list bool }.

Fixpoint rolling_loop (fuel k : nat) (old_messages : list Message) (activity : FileActivity)
    (summary_config : LoopConfig R) (options : ReductionOptions) (context_window : Z) (st : Rolling)
    : option (result CompactionError Rolling) :=
  if (consumed st <? length old_messages)%nat then
    match fuel with
    | O => None
    | S fuel =>
        if deadline_elapsed (lc_deadline summary_config) (now_step k)
        then Some (Err (CE_Reduction DeadlineElapsed)) else
        let remaining := drop (consumed st) old_messages in
        match largest_fitting_summary_chunk remaining (rolling_summary st) summary_config options
                (consumed st) context_window with
        | None => None
        | Some (Err e) => Some (Err e)
        | Some (Ok (chunk_len, chunk_input_tokens)) =>
            let pair_closed := bool_decide (chunk_len ∈ pair_safe_boundaries remaining) in
            let configured_output := configured_output_ceiling (lc_max_tokens summary_config) in
            match pretruncate_tool_results (take chunk_len remaining)
                    (ro_tool_result_max_chars options) with
            | None => None
            | Some chunk =>
                let prepared_history :=
                  rolling_step_input (prior_message (rolling_summary st)) chunk in
                match summarize_checkpoint k prepared_history summary_config with
                | Err e => Some (Err e)
                | Ok checkpoint =>
                    match checked_add usize_max (Z.of_nat (consumed st)) (Z.of_nat chunk_len) with
                    | None => Some (Err (CE_Reduction (ExactCountOverflow "messages_compacted"
                                (Z.of_nat (length old_messages)))))
                    | Some _ =>
                        let consumed' := (consumed st + chunk_len)%nat in
                        let '(step_files_read, step_files_modified) :=
                          if (consumed' =? length old_messages)%nat
                          then (files_read activity, files_modified activity) else ([], []) in
                        rolling_loop fuel (S k) old_messages activity summary_config options
                          context_window
                          (mkRolling consumed'
                             (Some (bounded_summary (format_summary checkpoint step_files_read
                                step_files_modified (Z.to_nat (clamp 1
                                  MAX_COMPACTION_SUMMARY_FILE_LIST_MAX
                                  (ro_summary_file_list_max options))))))
                             (chunk_messages st ++ [chunk_len])
                             (chunk_pair_closed st ++ [pair_closed])
                             (chunk_can_dispatch st ++ [can_dispatch chunk_input_tokens
                                context_window configured_output]))
                    end
                end
            end
        end
    end
  else Some (Ok st).

Definition earliest_deadline (a b : option Z) : option Z :=
  match a, b with
  | Some x, Some y => Some (Z.min x y)
  | Some x, None => Some x
  | None, y => y
  end.
Definition summary_config_of (config : LoopConfig R) (options : ReductionOptions)
    (context_window : Z) : LoopConfig R :=
  let configured := clamp 1 MAX_COMPACTION_SUMMARY_MAX_OUTPUT_TOKENS
                      (ro_summary_max_output_tokens options) in
  mkConfig context_window (Some compaction_prompt) None None None 0
    (Some (summary_output_ceiling configured context_window))
    (ro_aggregate_token_budget options)
    (merge_optional_params (lc_additional_params config) (seed_params <$> ro_sampling_seed options))
    (earliest_deadline (ro_deadline options) (lc_deadline config))
    true (lc_no_retry config) (lc_rest config).

Definition reduce (config : LoopConfig R) (messages : list Message) (context_window : Z)
    (options : ReductionOptions) (admission : ReductionAdmission)
    : option (result CompactionError ReductionResult) :=
  match projecting "projecting original compaction input" (estimate messages) with
  | Err e => Some (Err e)
  | Ok original_token_estimate =>
  let '(stripped_messages, stripped_activity) := provider_view image_json_len messages in
  match projecting "projecting normalized compaction input" (estimate stripped_messages) with
  | Err e => Some (Err e)
  | Ok stripped_token_estimate =>
  let not_reduced state := Some (Ok (mkReduction state original_token_estimate
      stripped_token_estimate (files_read stripped_activity) (files_modified stripped_activity))) in
  match ro_mode options with
  | StripOnly => not_reduced (ProviderViewRepaired stripped_messages)
  | Summarize =>
  match split_messages_for_summary_with_counter estimate stripped_messages
          (ro_keep_recent_tokens options) with
  | None => None
  | Some (Err e) => Some (Err (CE_Projection [] e))
  | Some (Ok ([], _)) =>
      not_reduced (if stripped_token_estimate <? original_token_estimate
                   then ProviderViewRepaired stripped_messages
                   else Decided (apply_reduction_decision stripped_messages
                          (admission_decision admission false 0 [])))
  | Some (Ok (old_messages, recent_messages)) =>
  let summary_config := summary_config_of config options context_window in
  let activity := extract_file_activity old_messages in
  match rolling_loop (length old_messages) 0 old_messages activity summary_config options
          context_window (mkRolling 0 None [] [] []) with
  | None => None
  | Some (Err e) => Some (Err e)
  | Some (Ok st) =>
  match rolling_summary st with
  | None => None
  | Some rolled =>
  let summary := trim rolled in
  if is_empty summary then Some (Err (CE_Reduction InvalidRollingPlan)) else
  if negb (rolling_plan_is_valid (length old_messages) (chunk_messages st)
             (chunk_pair_closed st) (chunk_can_dispatch st) (consumed st))
  then Some (Err (CE_Reduction InvalidRollingPlan)) else
  let compacted_projection :=
    match compaction_summary_message [summary] with Some m => [m] | None => [] end
    ++ recent_messages in
  match projecting "projecting final compacted provider input" (estimate compacted_projection) with
  | Err e => Some (Err e)
  | Ok compacted_token_estimate =>
  let prefix_len := length old_messages in
  if u32_max <? Z.of_nat prefix_len
  then Some (Err (CE_Reduction (ExactCountOverflow "messages_compacted" (Z.of_nat prefix_len))))
  else
  match apply_reduction_decision stripped_messages
          (admission_decision admission true prefix_len summary) with
  | O_CannotFit => Some (Err (CE_Reduction InvalidRollingPlan))
  | outcome => Some (Ok (mkReduction (Decided outcome) original_token_estimate
      compacted_token_estimate (files_read activity) (files_modified activity)))
  end end end end end end end end.
End engine.

(** ** The text of a checkpoint *)

Lemma floor_prefix_exact s i : 0 <= i ->
  slice_to s (floor_char_boundary s i) = Some (floor_prefix s i) ∧
  (∃ rest, s = floor_prefix s i ++ rest) ∧ str_len (floor_prefix s i) <= i.
Proof.
  intros Hi. unfold floor_prefix. destruct (Z.leb_spec (str_len s) i) as [Hle|Hlt].
  - unfold floor_char_boundary. destruct (Z.leb_spec (str_len s) i); [|lia].
    assert (slice_to s (str_len s) = Some s) as ->.
    { clear. induction s as [|c s IH]; [done|]. cbn [slice_to str_len].
      pose proof (utf8_width_bounds c). pose proof (str_len_nonneg s).
      destruct (Z.eqb_spec (utf8_width c + str_len s) 0); [lia|].
      destruct (Z.leb_spec (utf8_width c) (utf8_width c + str_len s)); [|lia].
      replace (utf8_width c + str_len s - utf8_width c) with (str_len s) by lia. by rewrite IH. }
    cbn. split; [done|]. split; [|done]. exists []. by rewrite app_nil_r.
  - destruct (floor_char_boundary_spec s i) as (head & rest & -> & Ht & Hl & Hb); [lia|].
    cbn. split; [done|]. split; [by exists rest|lia].
Qed.

Lemma trim_nonempty c s : is_whitespace c = false -> trim (c :: s) ≠ [].
Proof.
  intros Hc. unfold trim, trim_end, trim_start. cbn [drop_leading]. rewrite Hc. cbn [rev].
  intros H%(f_equal (@rev char)). rewrite rev_involutive in H. cbn [rev] in H.
  revert H. match goal with |- context [?x ++ [c]] => generalize x end. intros l. induction l as [|d l IH]; cbn [app drop_leading].
  - by rewrite Hc.
  - destruct (is_whitespace d); [exact IH|done].
Qed.

Lemma head_loop_extends limits lines : ∀ r n, ∃ s, fst (head_loop limits lines r n) = r ++ s.
Proof.
  induction lines as [|l lines IH]; intros r n; cbn [head_loop].
  { exists []. by rewrite app_nil_r. }
  destruct (max_lines limits <=? n); [exists []; by rewrite app_nil_r|].
  destruct (max_bytes limits <? _); [exists []; by rewrite app_nil_r|].
  cbv zeta. match goal with |- context [head_loop limits lines ?x ?y] =>
    destruct (IH x y) as [s Hs] end. rewrite Hs.
  destruct (str_eqb r []); rewrite <-?app_assoc; by eexists.
Qed.

(** Bounding a text that begins with a line short enough to keep keeps that
    line's first character. *)
Lemma bounded_summary_head c line rest : NL ∉ (c :: line) -> (c :: line) ≠ [] ->
  str_len (c :: line) + 1 <= max_bytes default_limits ->
  c ≠ CR -> CR ∉ line ->
  ∃ tail, bounded_summary ((c :: line) ++ [NL] ++ rest) = c :: tail.
Proof.
  intros Hnl _ Hlen Hc Hcr. unfold bounded_summary, truncate_text, truncate.
  destruct (negb _ && negb _); [by eexists|]. cbn [tt_text].
  assert (Hl : ∃ ls, str_lines ((c :: line) ++ [NL] ++ rest) = (c :: line) :: ls).
  { unfold str_lines.
    assert (Hs : split_inclusive_nl ((c :: line) ++ [NL] ++ rest) =
      (c :: line, true) :: split_inclusive_nl rest).
    { generalize dependent (c :: line). intros l Hn _. induction l as [|d l IH]; [done|].
      cbn [app split_inclusive_nl]. destruct (Z.eqb_spec d NL) as [->|]; [set_solver|].
      cbn [app] in IH. by rewrite IH by set_solver. }
    rewrite Hs. cbn [fmap list_fmap fst snd].
    assert (strip_suffix_char CR (c :: line) = c :: line) as ->; [|by eexists].
    unfold strip_suffix_char. destruct (rev (c :: line)) as [|d r] eqn:E; [done|].
    destruct (Z.eqb_spec d CR) as [->|]; [|done]. exfalso.
    assert (In CR (c :: line)) as [?|?%list_elem_of_In]; [|done..].
    apply in_rev. match goal with |- In _ ?x => replace x with (CR :: r) by (symmetry; exact E) end.
    by left. }
  destruct Hl as [ls ->]. cbn [head_loop]. 
  destruct (Z.leb_spec (max_lines default_limits) 0) as [H|_]; [by cbn in H|].
  destruct (Z.ltb_spec (max_bytes default_limits) (str_len [] + str_len (c :: line) + 1)) as [H|_];
    [cbn [str_len] in H, Hlen; lia|].
  cbn [str_eqb]. rewrite str_eqb_refl. cbn [app].
  destruct (head_loop_extends default_limits ls (c :: line) (0 + 1)) as [s Hs].
  destruct (head_loop default_limits ls (c :: line) (0 + 1)) as [res cnt]. cbn in Hs. subst res.
  cbn. by eexists.
Qed.

Lemma format_summary_head checkpoint fr fm n :
  ∃ rest, format_summary checkpoint fr fm n = lit "# Continuation checkpoint" ++ [NL] ++ rest.
Proof.
  unfold format_summary.
  match goal with |- context [omap id (state_sections _ ++ ?fl)] => set (files := fl) end.
  set (first := lit "# Continuation checkpoint" ++ [NL; NL] ++ lit "## Goal" ++ [NL; NL]
         ++ sanitize_item (goal checkpoint)).
  assert (Hs : omap id (state_sections checkpoint ++ files) =
    first :: omap id (tl (state_sections checkpoint) ++ files)) by reflexivity.
  rewrite Hs. clear Hs. generalize (omap id (tl (state_sections checkpoint) ++ files)) as others.
  intros others.
  assert (Hb : not_blank first = true).
  { unfold not_blank, is_empty. destruct (trim first) eqn:E; [|done].
    by apply (trim_nonempty 35) in E. }
  cbn [List.filter]. rewrite Hb. subst first.
  destruct (List.filter not_blank others) as [|x xs].
  - by eexists.
  - rewrite join_cons by done. rewrite <-!app_assoc. by eexists.
Qed.

Lemma checkpoint_not_blank checkpoint fr fm n :
  trim (bounded_summary (format_summary checkpoint fr fm n)) ≠ [].
Proof.
  destruct (format_summary_head checkpoint fr fm n) as [rest ->].
  destruct (bounded_summary_head 35 (lit " Continuation checkpoint") rest) as [tail Ht].
  - apply (bool_decide_unpack _). vm_compute. exact I.
  - done.
  - vm_compute. discriminate.
  - done.
  - apply (bool_decide_unpack _). vm_compute. exact I.
  - change (lit "# Continuation checkpoint") with (35 :: lit " Continuation checkpoint").
    rewrite Ht. by apply trim_nonempty.
Qed.

(** ** The rolling loop *)

Lemma well_paired_app a b : ∀ p, well_paired p (a ++ b) = true -> pending_after p a = ∅ ->
  well_paired p a = true ∧ well_paired ∅ b = true.
Proof.
  induction a as [|m a IH]; intros p; cbn [app].
  { cbn. intros H ->. split; [by apply bool_decide_eq_true|exact H]. }
  destruct m as [c|c|mid c]; cbn [well_paired pending_after foldl step_pending].
  - intros [-> H]%andb_true_iff Hp. by apply IH.
  - intros [-> H]%andb_true_iff Hp. destruct (consume p (result_keys c)) as [open|] eqn:E; [|done].
    apply consume_Some in E as (-> & _ & _). apply andb_true_iff in H as [Hpl H]. rewrite Hpl. cbn [andb].
    apply IH; [done|]. destruct (has_plain_content c); cbn in Hpl; [|exact Hp].
    apply bool_decide_eq_true in Hpl. by rewrite Hpl.
  - intros [-> H]%andb_true_iff Hp. by apply IH.
Qed.

Lemma sum_checked_app total a b :
  sum_checked total (a ++ b) = sum_checked total a ≫= λ t, sum_checked t b.
Proof.
  revert total. induction a as [|n a IH]; intros total; [done|]. cbn.
  destruct (checked_add _ _ _); [apply IH|done].
Qed.

Section engine_proofs.
Context {R : Type}.
Context (estimate : list Message → result str Z).
Context (estimate_summary : LoopConfig R → list Message → result str Z).
Context (image_json_len : Image → Z).
Context (now_step now_dispatch now_fallback now_error : nat → Z).
Context (run_typed : nat → LoopConfig R → list Message → result LoopError ContinuationCheckpoint).
Context (run_text : nat → LoopConfig R → list Message → result LoopError str).
Context (from_str : str → result str ContinuationCheckpoint) (json_string : str → str).
Context (compaction_prompt compaction_json_fallback_prompt : str).
Context (merge_optional_params : option Json → option Json → option Json).
Context (seed_params : Z → Json).
#[local] Abbreviation candidate := (summary_candidate_tokens estimate_summary).
#[local] Abbreviation largest := (largest_fitting_summary_chunk estimate_summary).
#[local] Abbreviation summarize := (summarize_checkpoint now_dispatch now_fallback now_error
  run_typed run_text from_str json_string compaction_prompt compaction_json_fallback_prompt).
#[local] Abbreviation loop := (rolling_loop estimate_summary now_step now_dispatch now_fallback
  now_error run_typed run_text from_str json_string compaction_prompt
  compaction_json_fallback_prompt).
#[local] Abbreviation reduce := (reduce estimate estimate_summary image_json_len now_step
  now_dispatch now_fallback now_error run_typed run_text from_str json_string compaction_prompt
  compaction_json_fallback_prompt merge_optional_params seed_params).

(** The errors a reduction may legitimately end with. *)
Definition not_a_plan_error (e : CompactionError) : Prop :=
  e ≠ CE_Reduction InvalidRollingPlan ∧ e ≠ CE_Reduction RE_CannotFit.

Lemma candidate_total chunk prior cfg options : 0 <= ro_tool_result_max_chars options ->
  ∃ r, candidate chunk prior cfg options = Some r ∧
    match r with Ok _ => True | Err e => not_a_plan_error e end.
Proof.
  intros Hm. unfold summary_candidate_tokens.
  destruct (pretruncate_total chunk _ Hm) as (k & -> & _). eexists. split; [done|].
  destruct (estimate_summary _ _); cbn; [done|]. by split.
Qed.

Lemma chunk_search_spec boundaries tokens input_budget w out fuel :
  (∀ b, ∃ r, tokens b = Some r ∧ match r with Ok _ => True | Err e => not_a_plan_error e end) ->
  ∀ low high best, (high - low <= fuel)%nat -> (high <= length boundaries)%nat ->
  (∀ b n, best = Some (b, n) -> b ∈ boundaries ∧ can_dispatch n w out = true) ->
  ∃ r, chunk_search fuel boundaries tokens input_budget w out low high best = Some r ∧
    match r with
    | Ok (Some (b, n)) => b ∈ boundaries ∧ can_dispatch n w out = true
    | Ok None => True
    | Err e => not_a_plan_error e
    end.
Proof.
  intros Htok. induction fuel as [|fuel IH]; intros low high best Hf Hh Hb; cbn [chunk_search];
    destruct (Nat.ltb_spec low high) as [Hlt|Hge]; [lia| | |].
  1,3: exists (Ok best); split; [done|]; destruct best as [[b n]|]; [by apply Hb|done].
  set (middle := (low + (high - low) / 2)%nat).
  assert (Hm : (low <= middle < high)%nat).
  { subst middle. pose proof (Nat.div_lt (high - low) 2 ltac:(lia) ltac:(lia)). lia. }
  clearbody middle.
  destruct (lookup_lt_is_Some_2 boundaries middle) as [b Hbm]; [lia|]. rewrite Hbm.
  destruct (Htok b) as (r & -> & Hr). destruct r as [n|e]; [|by eexists].
  destruct ((n <=? input_budget) && can_dispatch n w out) eqn:Hc.
  - apply IH; [lia..|]. intros b' n' [= <- <-]. bool_prop. split; [|done].
    by eapply list_elem_of_lookup_2.
  - apply IH; [lia..|exact Hb].
Qed.

Lemma cannot_fit_error_spec remaining n prior cfg options start w :
  0 <= ro_tool_result_max_chars options ->
  ∃ e, cannot_fit_error estimate_summary remaining n prior cfg options start w = Some (Err e) ∧
    not_a_plan_error e.
Proof.
  intros Hm. unfold cannot_fit_error.
  destruct (candidate_total (take n remaining) prior cfg options Hm) as ([z|e] & -> & He);
    [|by eexists].
  destruct (checked_add _ _ _); eexists; (split; [done|by split]).
Qed.

Lemma largest_spec remaining prior cfg options start w : 0 <= ro_tool_result_max_chars options ->
  ∃ r, largest remaining prior cfg options start w = Some r ∧
    match r with
    | Ok (n, tokens) => n ∈ pair_safe_boundaries remaining ∧
        can_dispatch tokens w (configured_output_ceiling (lc_max_tokens cfg)) = true
    | Err e => not_a_plan_error e
    end.
Proof.
  intros Hm. unfold largest_fitting_summary_chunk.
  destruct (pair_safe_boundaries remaining) as [|b0 bs] eqn:Eb.
  { destruct (cannot_fit_error_spec remaining (length remaining) prior cfg options start w Hm)
      as (e & -> & He). by eexists. }
  destruct (chunk_search_spec (b0 :: bs)
    (λ boundary, candidate (take boundary remaining) prior cfg options)
    (rolling_summary_input_budget w (configured_output_ceiling (lc_max_tokens cfg))) w
    (configured_output_ceiling (lc_max_tokens cfg)) (length (b0 :: bs)))
    with (low := 0%nat) (high := length (b0 :: bs)) (best := @None (nat * Z))
    as (r & -> & Hr); [intros b; by apply candidate_total|lia|done|done|].
  destruct r as [[[n tokens]|]|e]; [by eexists| |by eexists].
  destruct (cannot_fit_error_spec remaining b0 prior cfg options start w Hm) as (e & -> & He).
  by eexists.
Qed.

Lemma summarize_spec k history cfg e : summarize k history cfg = Err e -> not_a_plan_error e.
Proof.
  unfold summarize_checkpoint. destruct (deadline_elapsed _ _); [by intros [= <-]|].
  destruct (run_typed _ _ _) as [?|ge]; [done|].
  destruct (_ && _).
  - destruct (run_text _ _ _) as [raw|fe].
    + destruct (parse_fallback_checkpoint _ _ _); [done|]. by intros [= <-].
    + destruct (budget_exhausted fe); by intros [= <-].
  - destruct (budget_exhausted ge); by intros [= <-].
Qed.

(** The bookkeeping of the loop after some chunks. *)
Definition rolling_ok (old_messages : list Message) (st : Rolling) : Prop :=
  (consumed st <= length old_messages)%nat ∧
  length (chunk_messages st) = length (chunk_pair_closed st) ∧
  length (chunk_messages st) = length (chunk_can_dispatch st) ∧
  forallb (λ messages, 0 <? messages)%nat (chunk_messages st) = true ∧
  forallb id (chunk_pair_closed st) = true ∧ forallb id (chunk_can_dispatch st) = true ∧
  sum_checked 0 (chunk_messages st) = Some (Z.of_nat (consumed st)) ∧
  pending_after ∅ (take (consumed st) old_messages) = ∅ ∧
  ((0 < consumed st)%nat -> chunk_messages st ≠ [] ∧ ∃ s, rolling_summary st = Some s ∧ trim s ≠ []).

Lemma rolling_ok_start old_messages : rolling_ok old_messages (mkRolling 0 None [] [] []).
Proof. unfold rolling_ok. cbn. split_and!; try done; lia. Qed.

Lemma rolling_step_ok old_messages st n s cd :
  Z.of_nat (length old_messages) <= usize_max -> rolling_ok old_messages st ->
  n ∈ pair_safe_boundaries (drop (consumed st) old_messages) -> trim s ≠ [] -> cd = true ->
  rolling_ok old_messages (mkRolling (consumed st + n) (Some s) (chunk_messages st ++ [n])
    (chunk_pair_closed st ++ [bool_decide (n ∈ pair_safe_boundaries (drop (consumed st) old_messages))])
    (chunk_can_dispatch st ++ [cd])).
Proof.
  intros Hlen (Hc & H1 & H2 & H3 & H4 & H5 & H6 & H7 & _) Hn Hs ->.
  rewrite bool_decide_eq_true_2 by done. apply pair_safe_boundaries_spec in Hn as [Hn Hp].
  rewrite length_drop in Hn. unfold rolling_ok. cbn [consumed chunk_messages chunk_pair_closed
    chunk_can_dispatch rolling_summary].
  rewrite !length_app, !forallb_app, sum_checked_app, H3, H4, H5, H6. cbn [mbind option_bind sum_checked].
  split_and!; [lia|simpl; lia|simpl; lia|simpl; destruct n; [lia|done]|done|done| | |].
  - unfold checked_add. destruct (Z.leb_spec (Z.of_nat (consumed st) + Z.of_nat n) usize_max); [|lia].
    f_equal. lia.
  - rewrite <-take_take_drop. unfold pending_after in *. by rewrite foldl_app, H7.
  - intros _. split; [by destruct (chunk_messages st)|]. by exists s.
Qed.

(** The loop ends within one round per message, with every chunk closed and
    dispatchable and the whole prefix consumed, or with an error of a step. *)
Lemma rolling_loop_spec old_messages activity cfg options w fuel :
  0 <= ro_tool_result_max_chars options -> Z.of_nat (length old_messages) <= usize_max ->
  ∀ k st, (length old_messages - consumed st <= fuel)%nat -> rolling_ok old_messages st ->
  ∃ r, loop fuel k old_messages activity cfg options w st = Some r ∧
    match r with
    | Ok st' => rolling_ok old_messages st' ∧ consumed st' = length old_messages
    | Err e => not_a_plan_error e
    end.
Proof.
  intros Hm Hlen. induction fuel as [|fuel IH]; intros k st Hf Hst; cbn [rolling_loop];
    destruct (Nat.ltb_spec (consumed st) (length old_messages)) as [Hlt|Hge]; [lia| | |].
  1,3: eexists; split; [done|]; split; [done|]; destruct Hst; lia.
  destruct (deadline_elapsed _ _); [eexists; split; [done|by split]|].
  destruct (largest_spec (drop (consumed st) old_messages) (rolling_summary st) cfg options
    (consumed st) w Hm) as (r & -> & Hr).
  destruct r as [[n tokens]|e]; [|by eexists]. destruct Hr as [Hn Hd].
  destruct (pretruncate_total (take n (drop (consumed st) old_messages)) _ Hm) as (chunk & -> & _).
  destruct (summarize k _ cfg) as [cp|e] eqn:Es; [|eexists; split; [done|by eapply summarize_spec]].
  pose proof Hn as Hnb. apply pair_safe_boundaries_spec in Hnb as [Hnb _]. rewrite length_drop in Hnb.
  unfold checked_add. destruct (Z.leb_spec (Z.of_nat (consumed st) + Z.of_nat n) usize_max); [|lia].
  destruct (if (consumed st + n =? length old_messages)%nat then _ else _) as [fr fm].
  apply IH; [cbn [consumed]; lia|].
  apply rolling_step_ok; [done..| |done]. apply checkpoint_not_blank.
Qed.

Lemma rolling_ok_valid old_messages st : old_messages ≠ [] -> rolling_ok old_messages st ->
  consumed st = length old_messages ->
  rolling_plan_is_valid (length old_messages) (chunk_messages st) (chunk_pair_closed st)
    (chunk_can_dispatch st) (consumed st) = true.
Proof.
  intros Hne (Hc & H1 & H2 & H3 & H4 & H5 & H6 & H7 & H8) Hall. unfold rolling_plan_is_valid.
  assert (Hpos : (0 < consumed st)%nat) by (destruct old_messages; [done|]; cbn in Hall; lia).
  destruct (H8 Hpos) as [Hcm _].
  rewrite H3, H4, H5, H6, <-H1, <-H2, Hall, !Nat.eqb_refl.
  rewrite bool_decide_eq_true_2 by done.
  destruct (Nat.eqb_spec (length (chunk_messages st)) 0) as [Hz|]; [|done].
  by apply nil_length_inv in Hz.
Qed.

(** What a reduction result says about the provider view. *)
Definition exact_state (view : list Message) (state : ReductionResultState) : Prop :=
  match state with
  | ProviderViewRepaired messages => messages = view
  | Decided (O_Reduced prefix suffix checkpoint) =>
      prefix ≠ [] ∧ prefix ++ suffix = view ∧ Z.of_nat (length prefix) <= u32_max ∧
      well_paired ∅ prefix = true ∧ well_paired ∅ suffix = true ∧ checkpoint ≠ []
  | Decided O_CannotFit => True
  | Decided (O_NotNeeded _) => False
  end.

(** C16. An admitted reduction always ends without a panic, and never with the
    invalid-plan error: the rolling loop's chunks always cover the prefix, closed
    and dispatchable, and the trimmed checkpoint is never empty.  When it reduces, the
    compacted prefix and the retained suffix make up the provider view exactly,
    the cut separates no call from its result, so both parts are again well
    paired, and the prefix length fits the durable counter. *)
Theorem admitted_reduction_is_exact config messages w options admission :
  0 <= ro_tool_result_max_chars options ->
  Z.of_nat (length (fst (provider_view image_json_len messages))) <= usize_max ->
  ra_threshold_decision admission = ReduceEligible ->
  ∃ r, reduce config messages w options admission = Some r ∧
    match r with
    | Ok res => exact_state (fst (provider_view image_json_len messages)) (rr_state res)
    | Err e => not_a_plan_error e
    end.
Proof.
  intros Hm Hlen Had. unfold Compaction.reduce.
  destruct (estimate messages) as [orig|e]; cbn [projecting]; [|eexists; split; [done|by split]].
  assert (Hwp : well_paired ∅ (fst (provider_view image_json_len messages)) = true).
  { rewrite provider_view_eq. apply sanitize_well_paired. }
  destruct (provider_view image_json_len messages) as [v act]. cbn [fst] in *.
  destruct (estimate v) as [strip|e]; cbn [projecting]; [|eexists; split; [done|by split]].
  destruct (ro_mode options); [by eexists|].
  destruct (split_total estimate image_json_len v (ro_keep_recent_tokens options)) as (r & -> & Hr).
  destruct r as [[old recent]|e]; [|eexists; split; [done|by split]].
  destruct Hr as (Hsplit & Hpend & _).
  destruct old as [|m0 old]; [|remember (m0 :: old) as olds eqn:Eo].
  { eexists. split; [done|]. cbn [rr_state]. destruct (strip <? orig); [done|].
    unfold admission_decision, reduction_decision. by rewrite Had. }
  assert (Hne : olds ≠ []) by (by subst).
  assert (Hl : (length olds <= length v)%nat) by (rewrite <-Hsplit, length_app; lia).
  destruct (rolling_loop_spec olds (extract_file_activity olds)
    (summary_config_of compaction_prompt merge_optional_params seed_params config options w)
    options w (length olds) Hm ltac:(lia) 0%nat (mkRolling 0 None [] [] []))
    as (r & -> & Hr); [cbn; lia|apply rolling_ok_start|].
  destruct r as [st|e]; [|by eexists]. destruct Hr as [Hok Hall].
  pose proof Hok as (_ & _ & _ & _ & _ & _ & _ & _ & H8).
  destruct H8 as (_ & s & -> & Hs); [destruct olds; [done|]; cbn in Hall; lia|].
  unfold is_empty. destruct (trim s) as [|c0 s0] eqn:Et; [done|].
  rewrite (rolling_ok_valid _ _ Hne Hok Hall). cbn [negb].
  destruct (estimate _) as [est|e]; cbn [projecting]; [|eexists; split; [done|by split]].
  destruct (Z.ltb_spec u32_max (Z.of_nat (length olds))); [eexists; split; [done|by split]|].
  unfold admission_decision, reduction_decision. rewrite Had. cbn [apply_reduction_decision].
  destruct (Nat.ltb_spec 0 (length olds)); [|destruct olds; [done|cbn in *; lia]].
  destruct (Nat.leb_spec (length olds) (length v)); [|lia]. cbn [andb].
  eexists. split; [done|]. cbn [rr_state exact_state].
  assert (Htake : take (length olds) v = olds) by (rewrite <-Hsplit; apply take_app_length).
  assert (Hdrop : drop (length olds) v = recent) by (rewrite <-Hsplit; apply drop_app_length).
  rewrite Htake, Hdrop. rewrite <-Hsplit in Hwp.
  destruct (well_paired_app _ _ _ Hwp Hpend) as [Hw1 Hw2].
  by split_and!.
Qed.
End engine_proofs.

(** ** The rendered checkpoint *)

Lemma join_app_prefix sep (a b : list str) : a ≠ [] ->
  ∃ tail, join sep (a ++ b) = join sep a ++ tail.
Proof.
  intros Ha. induction a as [|x [|y a] IH]; [done| |].
  - destruct b as [|z b]; [exists []; by rewrite !app_nil_r|].
    cbn [app]. rewrite join_cons by done. by eexists.
  - destruct IH as [tail IH]; [done|]. exists tail. cbn [app] in *.
    rewrite !(join_cons _ x) by done. rewrite IH. by rewrite <-!app_assoc.
Qed.

Lemma sanitize_item_bound item :
  str_len (sanitize_item item) <= SUMMARY_ITEM_MAX_BYTES ∧
  Forall (λ c, is_control c = false) (sanitize_item item).
Proof.
  unfold sanitize_item. set (cleaned := (λ c, if is_control c then 32 else c) <$> trim item).
  assert (Hc : Forall (λ c, is_control c = false) cleaned).
  { subst cleaned. rewrite Forall_fmap. apply Forall_true. intros c. cbn.
    by destruct (is_control c) eqn:E. }
  destruct (Z.ltb_spec SUMMARY_ITEM_MAX_BYTES (str_len cleaned)) as [Hlt|Hge]; [|by split; [lia|]].
  destruct (floor_prefix_exact cleaned
    (SUMMARY_ITEM_MAX_BYTES - str_len SUMMARY_ITEM_TRUNCATION_SUFFIX)) as (_ & [rest Hr] & Hlen);
    [by vm_compute|].
  split; [rewrite str_len_app; lia|].
  apply Forall_app. split; [|by repeat constructor].
  rewrite Hr in Hc. by apply Forall_app in Hc as [? _].
Qed.

(** A checkpoint's text is its continuation state followed by its file lists:
    the lists only append to the text without them, so cutting the text from the
    end loses files before state.  Every rendered item has at most 512 bytes,
    whatever the model wrote, and no control character. *)
Theorem checkpoint_state_precedes_files cp files_read files_modified n :
  (∃ tail, format_summary cp files_read files_modified n = format_summary cp [] [] n ++ tail) ∧
  ∀ item, str_len (sanitize_item item) <= SUMMARY_ITEM_MAX_BYTES ∧
    Forall (λ c, is_control c = false) (sanitize_item item).
Proof.
  split; [|apply sanitize_item_bound]. unfold format_summary.
  change (omap id (state_sections cp ++ [bullet_section (lit "## Files read") [] n;
    bullet_section (lit "## Files modified") [] n])) with (omap id (state_sections cp)).
  rewrite omap_app, List.filter_app. apply join_app_prefix.
  set (first := lit "# Continuation checkpoint" ++ [NL; NL] ++ lit "## Goal" ++ [NL; NL]
         ++ sanitize_item (goal cp)).
  assert (Hs : omap id (state_sections cp) = first :: omap id (tl (state_sections cp))) by reflexivity.
  rewrite Hs. cbn [List.filter].
  assert (not_blank first = true) as ->; [|done].
  unfold not_blank, is_empty. destruct (trim first) eqn:E; [|done]. by apply (trim_nonempty 35) in E.
Qed.

(** ** Witnesses *)

Definition demo_checkpoint : ContinuationCheckpoint :=
  mkCheckpoint (lit "ship") [] [lit "read x"] [] [] [] [] [] [] [] [lit "write y"] [].
Definition demo_config : LoopConfig unit :=
  mkConfig 1000 None None None None 5 (Some 100) None None None false false tt.
Definition demo_options : ReductionOptions := mkOptions 2000 2 Summarize 500 100 None None None.
Definition demo_admission : ReductionAdmission := mkAdmission 900 750 ReduceEligible.
Definition demo_estimate (l : list Message) : result str Z := Ok (Z.of_nat (length l)).
Definition demo_reduce : option (result CompactionError ReductionResult) :=
  reduce demo_estimate (λ _, demo_estimate) no_images (λ _, 0) (λ _, 0) (λ _, 0) (λ _, 0)
    (λ _ _ _, Ok demo_checkpoint) (λ _ _ _, Ok []) (λ _, Err []) id [] [] (λ a _, a)
    (λ _, JNull) demo_config demo_history 1000 demo_options demo_admission.

Lemma admitted_reduction_is_exact_witness :
  match demo_reduce with
  | Some (Ok res) => exact_state (fst (provider_view no_images demo_history)) (rr_state res) ∧
      length (compacted_prefix (default (mkExact [] [] []) (exact_reduction res))) = 4%nat
  | _ => False
  end.
Proof.
  destruct (admitted_reduction_is_exact demo_estimate (λ _, demo_estimate) no_images (λ _, 0)
    (λ _, 0) (λ _, 0) (λ _, 0) (λ _ _ _, Ok demo_checkpoint) (λ _ _ _, Ok []) (λ _, Err []) id
    [] [] (λ a _, a) (λ _, JNull) demo_config demo_history 1000 demo_options demo_admission)
    as (r & Hr & H); [by vm_compute|by vm_compute|done|].
  fold demo_reduce in Hr.
  assert (Hs : match demo_reduce with
               | Some (Ok res) => length (compacted_prefix
                   (default (mkExact [] [] []) (exact_reduction res))) = 4%nat
               | _ => False end) by (vm_compute; reflexivity).
  rewrite Hr in Hs |- *. destruct r as [res|e]; [|done]. by split.
Defined.
