(* ===== verification/ToolArgs.v ===== *)
(** * Tool arguments and provider-input repair

    The tolerant reading of tool-call arguments ([src/crates/gents/src/llm/tool.rs])
    and the one lossy repair of rejected provider input
    ([agent/loop_stream/request_assembly.rs]): escaping of lone backslashes and of
    control characters, the object shape of arguments, the string leaves, and the
    repair of the joined history and prompt.

    Parameter: [from_str], [serde_json::from_str::<Value>]. *)

From S2P Require Import Prelude RustStr Messages History HistorySplit Compaction.
Open Scope Z_scope.

Definition BACKSLASH : char := 92.
Definition QUOTE : char := 34.

(** ** [repair_tool_arguments] *)

(** A quote, a backslash, a slash, [b], [f], [n], [r] or [t]: what may follow a
    backslash. *)
Definition is_simple_escape (c : char) : bool :=
  existsb (Z.eqb c) [34; 92; 47; 98; 102; 110; 114; 116].
Definition is_ascii_hexdigit (c : char) : bool :=
  is_digit c || ((97 <=? c) && (c <=? 102)) || ((65 <=? c) && (c <=? 70)).
(** Four hexadecimal digits follow the [u]. *)
Definition is_valid_unicode_escape (after_u : str) : bool :=
  match after_u with
  | a :: b :: c :: d :: _ =>
      is_ascii_hexdigit a && is_ascii_hexdigit b && is_ascii_hexdigit c && is_ascii_hexdigit d
  | _ => false
  end.

Fixpoint escape_lone_backslashes (raw : str) : str :=
  match raw with
  | [] => []
  | ch :: rest =>
      if negb (ch =? BACKSLASH) then ch :: escape_lone_backslashes rest
      else match rest with
           | next :: rest' =>
               if is_simple_escape next || ((next =? 117) && is_valid_unicode_escape rest')
               then BACKSLASH :: next :: escape_lone_backslashes rest'
               else BACKSLASH :: BACKSLASH :: escape_lone_backslashes rest
           | [] => [BACKSLASH; BACKSLASH]
           end
  end.

Definition hex_digit (n : Z) : char := if n <? 10 then 48 + n else 87 + n.
(** The four-digit escape of a control character. *)
Definition unicode_escape (c : char) : str :=
  [BACKSLASH; 117; 48; 48; hex_digit (c / 16); hex_digit (c mod 16)].
Definition escape_in_string (ch : char) : str :=
  if ch =? 10 then [BACKSLASH; 110]
  else if ch =? 13 then [BACKSLASH; 114]
  else if ch =? 9 then [BACKSLASH; 116]
  else if ch =? 8 then [BACKSLASH; 98]
  else if ch =? 12 then [BACKSLASH; 102]
  else if (0 <=? ch) && (ch <? 32) then unicode_escape ch
  else [ch].

Fixpoint escape_controls (in_string : bool) (raw : str) : str :=
  match raw with
  | [] => []
  | ch :: rest =>
      if negb in_string then
        ch :: escape_controls (ch =? QUOTE) rest
      else if ch =? BACKSLASH then
        match rest with
        | next :: rest' => ch :: next :: escape_controls true rest'
        | [] => [ch]
        end
      else if ch =? QUOTE then ch :: escape_controls false rest
      else escape_in_string ch ++ escape_controls true rest
  end.
Definition escape_control_characters_in_strings (raw : str) : str := escape_controls false raw.

Definition repair_tool_arguments (raw : str) : option str :=
  let escaped := escape_control_characters_in_strings (escape_lone_backslashes raw) in
  if str_eqb escaped raw then None else Some escaped.

(** ** The object shape, and string leaves *)

Section normalize.
Context (from_str : str → option Json).

Definition empty_object : Json := JObject [].
Definition normalize_tool_call_arguments (arguments : Json) : Json :=
  match arguments with
  | JObject _ => arguments
  | JNull => empty_object
  | JString raw =>
      if is_empty (trim raw) then empty_object
      else
        let parsed :=
          match from_str raw with
          | Some v => Some v
          | None => repair_tool_arguments raw ≫= from_str
          end in
        match parsed with
        | Some (JObject map) => JObject map
        | _ => empty_object
        end
  | _ => empty_object
  end.

Definition sanitize_char (ch : char) : str :=
  if ch =? 10 then [BACKSLASH; 110]
  else if ch =? 9 then [BACKSLASH; 116]
  else if is_control ch then []
  else [ch].
Definition sanitize_provider_arg_string (t : str) : str := t ≫= sanitize_char.

Fixpoint sanitize_json_string_leaves (value : Json) : Json :=
  match value with
  | JArray values => JArray (map sanitize_json_string_leaves values)
  | JObject fields => JObject (map (λ '(k, v), (k, sanitize_json_string_leaves v)) fields)
  | JString t => JString (sanitize_provider_arg_string t)
  | other => other
  end.

(** ** The repair of provider input *)

Definition repair_call (tool_call : ToolCall) : ToolCall :=
  let repaired := sanitize_json_string_leaves
    (normalize_tool_call_arguments (tf_arguments (tc_function tool_call))) in
  mkToolCall (tc_id tool_call) (tc_call_id tool_call)
    (mkToolFunction (tf_name (tc_function tool_call)) repaired)
    (tc_signature tool_call) (tc_additional_params tool_call).
Definition repair_item (item : AssistantContent) : AssistantContent :=
  match item with AToolCall c => AToolCall (repair_call c) | other => other end.
Definition repair_message (m : Message) : Message :=
  match m with
  | Assistant id content => Assistant id (repair_item <$> content)
  | other => other
  end.
Definition repair_messages (messages : list Message) : list Message := repair_message <$> messages.

(** [None] is the [provider_input_repair_removed_complete_prompt] error; otherwise
    the new history and the new messages, which hold the prompt alone. *)
Definition repair_provider_input (history new_messages : list Message)
    : option (list Message * list Message) :=
  let provider_messages :=
    sanitize_history_for_provider (repair_messages (history ++ new_messages)) in
  match rev provider_messages with
  | [] => None
  | prompt :: prior => Some (rev prior, [prompt])
  end.
End normalize.

(** ** Escaping is a fixed point *)

(** Texts in which every backslash starts a valid escape. *)
Inductive escaped_text : str → Prop :=
| ET_nil : escaped_text []
| ET_char c s : c ≠ BACKSLASH → escaped_text s → escaped_text (c :: s)
| ET_simple c s : is_simple_escape c = true → escaped_text s →
    escaped_text (BACKSLASH :: c :: s)
| ET_unicode s : is_valid_unicode_escape s = true → escaped_text s →
    escaped_text (BACKSLASH :: 117 :: s).

Lemma hex_not_special c : is_ascii_hexdigit c = true ->
  c ≠ BACKSLASH ∧ c ≠ QUOTE ∧ escape_in_string c = [c].
Proof.
  unfold is_ascii_hexdigit, is_digit, BACKSLASH, QUOTE. intros H.
  assert (48 <= c <= 57 ∨ 97 <= c <= 102 ∨ 65 <= c <= 70) by (bool_prop; naive_solver lia).
  split_and!; [lia..|]. unfold escape_in_string.
  rewrite !(proj2 (Z.eqb_neq c _)) by lia. destruct (Z.ltb_spec c 32); [lia|].
  by rewrite andb_false_r.
Qed.

Lemma escape_lone_hex s : is_valid_unicode_escape s = true ->
  is_valid_unicode_escape (escape_lone_backslashes s) = true.
Proof.
  destruct s as [|a [|b [|c [|d s]]]]; try done. cbn [is_valid_unicode_escape].
  intros H. bool_prop.
  repeat match goal with Hx : is_ascii_hexdigit ?x = true |- _ =>
    pose proof (proj1 (hex_not_special x Hx)) as ?Hn; revert Hx end. intros.
  cbn [escape_lone_backslashes].
  repeat match goal with Hx : ?x ≠ BACKSLASH |- _ =>
    rewrite (proj2 (Z.eqb_neq x BACKSLASH) Hx); clear Hx end.
  cbn [negb is_valid_unicode_escape]. by bool_prop.
Qed.

Lemma escape_lone_escaped n : ∀ s, (length s <= n)%nat -> escaped_text (escape_lone_backslashes s).
Proof.
  induction n as [|n IH]; intros [|c s] Hn; try constructor; [cbn in Hn; lia|].
  cbn [escape_lone_backslashes length] in *. destruct (Z.eqb_spec c BACKSLASH) as [->|Hc]; cbn [negb].
  - destruct s as [|d s]; [by repeat constructor|]. cbn [length] in Hn.
    destruct (is_simple_escape d) eqn:Hd; cbn [orb].
    { constructor; [done|]. apply IH. lia. }
    destruct ((d =? 117) && is_valid_unicode_escape s) eqn:Hu.
    + apply andb_true_iff in Hu as [->%Z.eqb_eq Hu]. constructor; [by apply escape_lone_hex|].
      apply IH. lia.
    + constructor; [done|]. apply IH. cbn. lia.
  - constructor; [done|]. apply IH. lia.
Qed.

Lemma escaped_lone_fixed s : escaped_text s -> escape_lone_backslashes s = s.
Proof.
  induction 1 as [|c s Hc _ IH|c s Hc _ IH|s Hu _ IH]; [done|..]; cbn [escape_lone_backslashes].
  - rewrite (proj2 (Z.eqb_neq c BACKSLASH) Hc). cbn [negb]. by rewrite IH.
  - rewrite Z.eqb_refl, Hc. cbn [negb orb]. by rewrite IH.
  - rewrite Z.eqb_refl, Hu, Z.eqb_refl, orb_true_r. cbn [negb]. by rewrite IH.
Qed.

Lemma hex_digit_hex n : 0 <= n < 16 -> is_ascii_hexdigit (hex_digit n) = true.
Proof.
  intros Hn. unfold hex_digit, is_ascii_hexdigit, is_digit. destruct (Z.ltb_spec n 10).
  - apply orb_true_iff; left. apply orb_true_iff; left. bool_prop; apply Z.leb_le; lia.
  - apply orb_true_iff; left. apply orb_true_iff; right. bool_prop; apply Z.leb_le; lia.
Qed.

(** What one character of a string becomes is escaped, and stays as it is. *)
Lemma escape_in_string_cases ch : ch ≠ BACKSLASH -> ch ≠ QUOTE ->
  (escape_in_string ch = [ch]) ∨
  (∃ e, is_simple_escape e = true ∧ escape_in_string ch = [BACKSLASH; e]) ∨
  (∃ a b, is_ascii_hexdigit a = true ∧ is_ascii_hexdigit b = true ∧
     escape_in_string ch = [BACKSLASH; 117; 48; 48; a; b]).
Proof.
  intros _ _. unfold escape_in_string.
  destruct (ch =? 10); [right; left; by exists 110|].
  destruct (ch =? 13); [right; left; by exists 114|].
  destruct (ch =? 9); [right; left; by exists 116|].
  destruct (ch =? 8); [right; left; by exists 98|].
  destruct (ch =? 12); [right; left; by exists 102|].
  destruct ((0 <=? ch) && (ch <? 32)) eqn:Hc; [|by left]. bool_prop.
  right; right. exists (hex_digit (ch / 16)), (hex_digit (ch mod 16)).
  split_and!; [apply hex_digit_hex|apply hex_digit_hex|done].
  - split; [apply Z.div_pos; lia|]. apply Z.div_lt_upper_bound; lia.
  - apply Z.mod_pos_bound. lia.
Qed.

Lemma escape_controls_hex b s : is_valid_unicode_escape s = true ->
  is_valid_unicode_escape (escape_controls b s) = true.
Proof.
  destruct s as [|a [|b' [|c [|d s]]]]; try done. cbn [is_valid_unicode_escape]. intros H. bool_prop.
  assert (Hstep : ∀ x b r, is_ascii_hexdigit x = true ->
    escape_controls b (x :: r) = x :: escape_controls b r).
  { intros x b0 r Hx. destruct (hex_not_special _ Hx) as (Hx1 & Hx2 & Hx3). cbn [escape_controls].
    rewrite (proj2 (Z.eqb_neq x BACKSLASH) Hx1), (proj2 (Z.eqb_neq x QUOTE) Hx2), Hx3.
    by destruct b0. }
  rewrite !Hstep by done. cbn [is_valid_unicode_escape]. by bool_prop.
Qed.

Lemma escape_controls_escaped s : escaped_text s -> ∀ b, escaped_text (escape_controls b s).
Proof.
  induction 1 as [|c s Hc _ IH|c s Hc _ IH|s Hu _ IH]; intros b; [constructor|..];
    cbn [escape_controls].
  - rewrite (proj2 (Z.eqb_neq c BACKSLASH) Hc). destruct b; cbn [negb]; [|by constructor].
    destruct (Z.eqb_spec c QUOTE) as [->|Hq]; [by constructor|].
    destruct (escape_in_string_cases c Hc Hq) as [->|[(e & He & ->)|(x & y & Hx & Hy & ->)]]; cbn [app].
    + by constructor.
    + by constructor.
    + destruct (hex_not_special _ Hx) as (Hx1 & _ & _). destruct (hex_not_special _ Hy) as (Hy1 & _ & _).
      constructor; [cbn; by rewrite Hx, Hy|].
      do 4 (constructor; [done|]). apply IH.
  - destruct b; cbn [negb]; rewrite Z.eqb_refl || idtac; [by constructor|].
    change (BACKSLASH =? QUOTE) with false. cbn [negb].
    by constructor.
  - destruct b; cbn [negb]; rewrite Z.eqb_refl || idtac;
      [constructor; [by apply escape_controls_hex|apply IH]|].
    change (BACKSLASH =? QUOTE) with false. cbn [negb]. change (117 =? QUOTE) with false.
    constructor; [by apply escape_controls_hex|apply IH].
Qed.

Lemma escape_controls_fixed s : escaped_text s -> ∀ b,
  escape_controls b (escape_controls b s) = escape_controls b s.
Proof.
  induction 1 as [|c s Hc _ IH|c s Hc _ IH|s Hu _ IH]; intros b; [done|..]; cbn [escape_controls].
  - rewrite (proj2 (Z.eqb_neq c BACKSLASH) Hc). destruct b; cbn [negb].
    2: { cbn [escape_controls negb]. by rewrite IH. }
    destruct (Z.eqb_spec c QUOTE) as [->|Hq].
    { cbn [escape_controls negb]. change (QUOTE =? BACKSLASH) with false. rewrite Z.eqb_refl. by rewrite IH. }
    pose proof (escape_in_string_cases c Hc Hq) as Hcase.
    destruct Hcase as [E|[(e & He & E)|(x & y & Hx & Hy & E)]]; rewrite E; cbn [app escape_controls negb].
    + rewrite (proj2 (Z.eqb_neq c BACKSLASH) Hc), (proj2 (Z.eqb_neq c QUOTE) Hq), E. cbn [app].
      by rewrite IH.
    + rewrite Z.eqb_refl. by rewrite IH.
    + rewrite Z.eqb_refl.
      destruct (hex_not_special _ Hx) as (Hx1 & Hx2 & Hx3).
      destruct (hex_not_special _ Hy) as (Hy1 & Hy2 & Hy3).
      cbn [escape_controls negb].
      rewrite !(proj2 (Z.eqb_neq x _)), !(proj2 (Z.eqb_neq y _)) by done.
      rewrite Hx3, Hy3. change (48 =? BACKSLASH) with false. change (48 =? QUOTE) with false.
      change (escape_in_string 48) with [48]. cbn [app]. by rewrite IH.
  - destruct b; cbn [negb].
    + rewrite Z.eqb_refl. cbn [escape_controls negb]. rewrite Z.eqb_refl. by rewrite IH.
    + change (BACKSLASH =? QUOTE) with false. cbn [negb escape_controls].
      change (BACKSLASH =? QUOTE) with false. cbn [negb]. by rewrite IH.
  - destruct b; cbn [negb].
    + rewrite Z.eqb_refl. cbn [escape_controls negb]. rewrite Z.eqb_refl. by rewrite IH.
    + change (BACKSLASH =? QUOTE) with false. cbn [negb escape_controls].
      change (BACKSLASH =? QUOTE) with false. cbn [negb]. by rewrite IH.
Qed.

(** Repairing tool arguments is a fixed point: what the escape-only repair
    returns has nothing left to repair, so re-entering the path never escapes its
    own escapes; and every backslash of it starts a valid escape. *)
Theorem repaired_arguments_are_stable raw repaired :
  repair_tool_arguments raw = Some repaired ->
  repair_tool_arguments repaired = None ∧ escaped_text repaired.
Proof.
  unfold repair_tool_arguments, escape_control_characters_in_strings.
  destruct (str_eqb _ raw); [done|]. intros [= <-].
  pose proof (escape_lone_escaped (length raw) raw ltac:(lia)) as Ht.
  pose proof (escape_controls_escaped _ Ht false) as Hg.
  split; [|exact Hg]. rewrite (escaped_lone_fixed _ Hg), (escape_controls_fixed _ Ht).
  by rewrite str_eqb_refl.
Qed.

(** ** Repair changes payloads only *)

Section repair_proofs.
Context (from_str : str → option Json).
#[local] Abbreviation repair_message := (repair_message from_str).
#[local] Abbreviation repair_messages := (repair_messages from_str).

Lemma sanitize_string_idemp t :
  sanitize_provider_arg_string (sanitize_provider_arg_string t) = sanitize_provider_arg_string t.
Proof.
  unfold sanitize_provider_arg_string. induction t as [|c t IH]; [done|].
  rewrite bind_cons, bind_app, IH. f_equal. unfold sanitize_char.
  destruct (c =? 10) eqn:E1; [done|]. destruct (c =? 9) eqn:E2; [done|].
  destruct (is_control c) eqn:E3; [done|]. rewrite bind_cons. unfold sanitize_char.
  by rewrite E1, E2, E3.
Qed.

Lemma sanitize_leaves_idemp : ∀ v,
  sanitize_json_string_leaves (sanitize_json_string_leaves v) = sanitize_json_string_leaves v.
Proof.
  fix IH 1. intros [|b|n|s|l|f]; cbn [sanitize_json_string_leaves]; try done.
  - by rewrite sanitize_string_idemp.
  - f_equal. induction l as [|x l IHl]; [done|]. cbn [map]. by rewrite IH, IHl.
  - f_equal. induction f as [|[k x] f IHf]; [done|]. cbn [map]. by rewrite IH, IHf.
Qed.

Lemma normalize_is_object v : ∃ f, normalize_tool_call_arguments from_str v = JObject f.
Proof.
  destruct v as [|b|n|s|l|f]; cbn; try (by eexists).
  destruct (is_empty _); [by eexists|].
  destruct (match from_str s with Some _ => _ | None => _ end) as [[]|]; by eexists.
Qed.

Lemma repair_call_idemp c : repair_call from_str (repair_call from_str c) = repair_call from_str c.
Proof.
  unfold repair_call. cbn [tf_arguments tc_function tf_name tc_id tc_call_id tc_signature
    tc_additional_params]. do 2 f_equal.
  destruct (normalize_is_object (tf_arguments (tc_function c))) as [f ->].
  cbn [sanitize_json_string_leaves normalize_tool_call_arguments].
  apply (sanitize_leaves_idemp (JObject f)).
Qed.

Lemma repair_messages_idemp l : repair_messages (repair_messages l) = repair_messages l.
Proof.
  unfold ToolArgs.repair_messages. rewrite <-list_fmap_compose. apply list_fmap_ext. intros i m _.
  destruct m as [c|c|mid c]; cbn; [done|done|]. f_equal. rewrite <-list_fmap_compose.
  apply list_fmap_ext. intros j item _. destruct item; cbn; [done| |done..]. by rewrite repair_call_idemp.
Qed.

Lemma call_keys_repair c : call_keys (repair_item from_str <$> c) = call_keys c.
Proof.
  induction c as [|[t|tc|r|i] c IH]; [done|exact IH| |exact IH|exact IH].
  rewrite fmap_cons. cbn [repair_item].
  change (call_keys (AToolCall ?x :: ?y)) with (tool_call_key x :: call_keys y).
  by rewrite IH.
Qed.

(** The arguments of no call carry a bare control character any more. *)
Lemma well_paired_repair l : ∀ p, well_paired p (repair_messages l) = well_paired p l.
Proof.
  induction l as [|[c|c|mid c] l IH]; intros p; [done|..];
    unfold ToolArgs.repair_messages in *; rewrite fmap_cons;
    cbn [ToolArgs.repair_message well_paired].
  - by rewrite IH.
  - destruct (consume _ _); by rewrite ?IH.
  - rewrite IH, call_keys_repair. do 3 f_equal. apply bool_decide_ext.
    by destruct c.
Qed.

Lemma repair_order c : order_content (repair_item from_str <$> c) =
  repair_item from_str <$> order_content c.
Proof.
  unfold order_content. rewrite !fmap_app.
  assert (Hf : ∀ f, (∀ x, f (repair_item from_str x) = f x) ->
    List.filter f (repair_item from_str <$> c) = repair_item from_str <$> List.filter f c).
  { intros f Hf. induction c as [|x c IH]; [done|]. rewrite fmap_cons. cbn [List.filter].
    rewrite Hf, IH. by destruct (f x). }
  by rewrite !Hf by (by intros []).
Qed.

Lemma normalized_repair l : normalized l -> normalized (repair_messages l).
Proof.
  unfold normalized, ToolArgs.repair_messages. intros Hn. rewrite <-Hn at 2.
  rewrite <-!list_fmap_compose. apply list_fmap_ext. intros i m _.
  destruct m as [c|c|mid c]; cbn; [done|done|]. by rewrite repair_order.
Qed.

(** Messages whose calls are already repaired. *)
Definition repaired (m : Message) : Prop :=
  match m with Assistant _ c => Forall (λ item, repair_item from_str item = item) c | _ => True end.

Lemma repaired_fixed l : Forall repaired l -> repair_messages l = l.
Proof.
  unfold ToolArgs.repair_messages. induction 1 as [|m l Hm _ IH]; [done|]. rewrite fmap_cons, IH.
  f_equal. destruct m as [c|c|mid c]; cbn; [done|done|]. f_equal.
  induction Hm as [|x c Hx _ IHc]; [done|]. by rewrite fmap_cons, Hx, IHc.
Qed.

Lemma repaired_repair l : Forall repaired (repair_messages l).
Proof.
  unfold ToolArgs.repair_messages. induction l as [|m l IH]; [constructor|]. rewrite fmap_cons.
  constructor; [|exact IH]. destruct m as [c|c|mid c]; cbn; [done|done|].
  apply Forall_fmap, Forall_true. intros [t|tc|r|i]; cbn; [done| |done..]. by rewrite repair_call_idemp.
Qed.

Lemma repaired_orphans l : ∀ p, Forall repaired l -> Forall repaired (orphans p l).
Proof.
  induction l as [|[c|c|mid c] l IH]; intros p; cbn [orphans]; [done|..];
    intros [? ?]%Forall_cons_iff; try (constructor; [done|by apply IH]).
  destruct (keep_pending p c) as [[|k kept] p']; [by apply IH|constructor; [done|by apply IH]].
Qed.

Lemma repaired_unpaired l : Forall repaired l -> Forall repaired (unpaired l).
Proof.
  induction 1 as [|m l Hm _ IH]; [constructor|]. cbn [unpaired].
  destruct (keep_message m l) as [m'|] eqn:E; [|done]. constructor; [|done].
  destruct m as [c|c|mid c]; cbn in E; [by injection E as <-|by injection E as <-|].
  destruct (keep_resolved (turn_results l) ∅ c) as [|k0 kept] eqn:Ek; [done|]. injection E as <-.
  cbn [repaired] in *. rewrite Forall_forall in *. intros x Hx. apply Hm.
  apply list_elem_of_In, (keep_resolved_sub no_images (turn_results l) ∅). rewrite Ek. by apply list_elem_of_In.
Qed.

Lemma repaired_normalize l : Forall repaired l -> Forall repaired (normalize_message <$> l).
Proof.
  induction 1 as [|m l Hm _ IH]; [constructor|]. rewrite fmap_cons. constructor; [|exact IH].
  destruct m as [c|c|mid c]; cbn [normalize_message repaired] in *; [done|done|].
  rewrite Forall_forall in *. intros x Hx. apply Hm. unfold order_content in Hx.
  rewrite !in_app_iff, !filter_In in Hx. naive_solver.
Qed.

(** A repair of rejected provider input that succeeds leaves a well-paired
    conversation whose last message is the prompt and is idempotent, so repairing
    again changes nothing; of a conversation that was well paired and in normal
    order it changes argument payloads only. *)
Theorem provider_repair_is_stable history new_messages history' new_messages' :
  repair_provider_input from_str history new_messages = Some (history', new_messages') ->
  well_paired ∅ (history' ++ new_messages') = true ∧ length new_messages' = 1%nat ∧
  repair_provider_input from_str history' new_messages' = Some (history', new_messages') ∧
  (well_paired ∅ (history ++ new_messages) = true -> normalized (history ++ new_messages) ->
   history' ++ new_messages' = repair_messages (history ++ new_messages)).
Proof.
  unfold repair_provider_input.
  set (joined := sanitize_history_for_provider (repair_messages (history ++ new_messages))).
  destruct (rev joined) as [|prompt prior] eqn:E; [done|]. intros [= <- <-].
  assert (Hj : rev prior ++ [prompt] = joined).
  { change (rev (prompt :: prior) = joined). rewrite <-E. apply rev_involutive. }
  assert (Hw : well_paired ∅ joined = true) by apply sanitize_well_paired.
  assert (Hrep : repair_messages joined = joined).
  { subst joined. rewrite sanitize_eq.
    by apply repaired_fixed, repaired_normalize, repaired_unpaired, repaired_orphans, repaired_repair. }
  rewrite Hj. split_and!; [done|done| |].
  - rewrite Hrep. rewrite sanitize_fixed by (done || apply sanitize_normalized). by rewrite E.
  - intros Hw0 Hn0. subst joined. apply sanitize_fixed; [by rewrite well_paired_repair|].
    by apply normalized_repair.
Qed.
End repair_proofs.

(** ** Witnesses *)

(** A quoted text with a lone backslash and a raw line break. *)
Definition corrupt_arguments : str := [34; 92; 113; 10; 34].

Lemma repaired_arguments_are_stable_witness :
  repair_tool_arguments corrupt_arguments = Some [34; 92; 92; 113; 92; 110; 34] ∧
  repair_tool_arguments [34; 92; 92; 113; 92; 110; 34] = None.
Proof.
  assert (H : repair_tool_arguments corrupt_arguments = Some [34; 92; 92; 113; 92; 110; 34])
    by (vm_compute; reflexivity).
  split; [exact H|]. apply (proj1 (repaired_arguments_are_stable _ _ H)).
Defined.

Definition reject_all : str → option Json := λ _, None.

Lemma provider_repair_is_stable_witness :
  match repair_provider_input reject_all (take 3 demo_history) (drop 3 demo_history) with
  | Some (h, n) => well_paired ∅ (h ++ n) = true ∧ length n = 1%nat
  | None => False
  end.
Proof.
  destruct (repair_provider_input reject_all (take 3 demo_history) (drop 3 demo_history))
    as [[h n]|] eqn:E; [|vm_compute in E; discriminate E].
  destruct (provider_repair_is_stable reject_all _ _ _ _ E) as (H1 & H2 & _). by split.
Defined.
