(* ===== verification/OutputObligation.v ===== *)
(** * Output obligations

    The completion gate of requests that must write documents before they may
    answer: [src/crates/gents/src/agent/output_obligation.rs], the contract of
    [document_config/tool_selection.rs] and the count reader of [graphql.rs].
    The completed writes are the rows the gate's query returns. *)

From S2P Require Import Prelude RustStr Messages.
Open Scope Z_scope.

Inductive WriteToolOutputObligationScope : Type := ScopeRequest | ScopeTrigger.
Record WriteToolOutputObligation : Type := mkObligation {
  wo_scope : WriteToolOutputObligationScope;
  wo_minimum_writes : Z;
  wo_expected_count_field : option str }.
Inductive OutputObligationDecision : Type := OD_Continue | OD_Complete | OD_Reject.

Definition default_minimum_writes : Z := 1.
(** [Deserialize]: the field name is trimmed, and an empty one is none. *)
Definition obligation_of_raw (scope : WriteToolOutputObligationScope) (minimum_writes : option Z)
    (expected_count_field : option str) : WriteToolOutputObligation :=
  mkObligation scope (default default_minimum_writes minimum_writes)
    (opt_filter (λ field, negb (str_eqb field [])) (trim <$> expected_count_field)).

Definition applies_to (self : WriteToolOutputObligation) (has_automated_trigger_lineage : bool) : bool :=
  match wo_scope self with
  | ScopeRequest => true
  | ScopeTrigger => has_automated_trigger_lineage
  end.

Definition obligation_decision (self : WriteToolOutputObligation) (completed_writes : Z)
    (expected_writes : option Z) (count_valid : bool) : OutputObligationDecision :=
  if negb count_valid then OD_Reject else
  match expected_writes with
  | Some expected_writes =>
      if (expected_writes <? wo_minimum_writes self) || (expected_writes <? completed_writes)
      then OD_Reject
      else if completed_writes =? expected_writes then OD_Complete else OD_Continue
  | None => if wo_minimum_writes self <=? completed_writes then OD_Complete else OD_Continue
  end.

(** ** Counts *)

Definition MAX_EVENT_TRIGGER_GROUP_DOCS : Z := 256.
Section counts.
(** [Number::as_u64] of a JSON number. *)
Context (as_u64 : str → option Z).

Definition canonical_positive_count (value : Json) (maximum : Z) : option Z :=
  parsed ← match value with
           | JNumber n => as_u64 n
           | JString s =>
               if negb (str_eqb s []) && forallb is_digit s
                  && (str_eqb s [48] || negb (starts_with [48] s))
               then parse_unsigned usize_max s else None
           | _ => None
           end;
  if (1 <=? parsed) && (parsed <=? maximum) then Some parsed else None.

(** ** The gate *)

Record ActiveOutputObligation : Type := mkActive {
  ao_tool_name : str;
  ao_contract : WriteToolOutputObligation }.
Record UnmetOutputObligation : Type := mkUnmet {
  uo_tool_name : str;
  uo_minimum_writes : Z;
  uo_completed_writes : Z;
  uo_expected_writes : option Z;
  uo_expected_count_field : option str }.
Record CompletedWriteRow : Type := mkWrite { cw_tool_name : str; cw_args : str }.

Definition active_for_request (configured : list (str * WriteToolOutputObligation))
    (has_automated_trigger_lineage : bool) : list ActiveOutputObligation :=
  (λ '(tool_name, obligation), mkActive tool_name obligation)
    <$> List.filter (λ '(_, obligation), applies_to obligation has_automated_trigger_lineage) configured.

Inductive ObligationError : Type :=
| NoRequestDocument
| QueryFailed (error : str)
| InvalidArguments (tool error : str)
| MissingCountField (tool field : str)
| NotACount (tool field : str)
| CountsDisagree (tool field : str)
| Rejected (tool : str) (completed : Z) (expected : option Z) (minimum : Z).

Context (from_str : str → result str Json).

Fixpoint expected_count_loop (tool field : str) (expected : option Z)
    (completed : list CompletedWriteRow) : result ObligationError (option Z) :=
  match completed with
  | [] => Ok expected
  | row :: rest =>
      match from_str (cw_args row) with
      | Err error => Err (InvalidArguments tool error)
      | Ok args =>
          match json_get field args with
          | None => Err (MissingCountField tool field)
          | Some value =>
              match canonical_positive_count value MAX_EVENT_TRIGGER_GROUP_DOCS with
              | None => Err (NotACount tool field)
              | Some count =>
                  if is_some_and (λ prior, negb (prior =? count)) expected
                  then Err (CountsDisagree tool field)
                  else expected_count_loop tool field (Some count) rest
              end
          end
      end
  end.
Definition expected_write_count (obligation : ActiveOutputObligation)
    (completed : list CompletedWriteRow) : result ObligationError (option Z) :=
  match wo_expected_count_field (ao_contract obligation) with
  | None => Ok None
  | Some field => expected_count_loop (ao_tool_name obligation) field None completed
  end.

(** The completed writes of one tool, in the order of the rows. *)
Definition writes_of (tool_name : str) (rows : list CompletedWriteRow) : list CompletedWriteRow :=
  List.filter (λ row, str_eqb (cw_tool_name row) tool_name) rows.

Fixpoint unmet_loop (rows : list CompletedWriteRow) (obligations : list ActiveOutputObligation)
    : result ObligationError (list UnmetOutputObligation) :=
  match obligations with
  | [] => Ok []
  | obligation :: rest =>
      let completed := writes_of (ao_tool_name obligation) rows in
      let count := Z.of_nat (length completed) in
      let? expected := expected_write_count obligation completed in
      match obligation_decision (ao_contract obligation) count expected true with
      | OD_Continue =>
          let? unmet := unmet_loop rows rest in
          Ok (mkUnmet (ao_tool_name obligation) (wo_minimum_writes (ao_contract obligation)) count
                expected (wo_expected_count_field (ao_contract obligation)) :: unmet)
      | OD_Complete => unmet_loop rows rest
      | OD_Reject => Err (Rejected (ao_tool_name obligation) count expected
                            (wo_minimum_writes (ao_contract obligation)))
      end
  end.
(** [query] is the answer of the completed-writes query for the request. *)
Definition unmet (request_doc_id : str) (obligations : list ActiveOutputObligation)
    (query : result str (list CompletedWriteRow))
    : result ObligationError (list UnmetOutputObligation) :=
  match obligations with
  | [] => Ok []
  | _ =>
      if str_eqb (trim request_doc_id) [] then Err NoRequestDocument else
      match query with
      | Err error => Err (QueryFailed error)
      | Ok rows => unmet_loop rows obligations
      end
  end.
End counts.

Definition tick (s : str) : str := [96] ++ s ++ [96].
Definition requirement (o : UnmetOutputObligation) : str :=
  match uo_expected_writes o with
  | Some expected =>
      tick (uo_tool_name o) ++ lit " exactly " ++ fmt_Z expected ++ lit " total time(s) ("
      ++ fmt_Z (uo_completed_writes o) ++ lit " completed, "
      ++ fmt_Z (saturating_sub expected (uo_completed_writes o)) ++ lit " remaining)"
  | None =>
      match uo_expected_count_field o with
      | Some field =>
          tick (uo_tool_name o) ++ lit " at least once to declare the exact closed-set size in "
          ++ tick field ++ lit " (" ++ fmt_Z (uo_completed_writes o) ++ lit " completed)"
      | None =>
          tick (uo_tool_name o) ++ lit " at least " ++ fmt_Z (uo_minimum_writes o)
          ++ lit " total time(s) (" ++ fmt_Z (uo_completed_writes o) ++ lit " completed)"
      end
  end.
Definition continuation_message (obligations : list UnmetOutputObligation) : str :=
  lit "The request cannot complete yet because its configured output obligation is unmet. "
  ++ lit "Complete the required durable write before answering: "
  ++ join (lit ", ") (requirement <$> obligations) ++ lit ".".

(** ** What the gate lets through *)

Section gate_proofs.
Context (as_u64 : str → option Z) (from_str : str → result str Json).

(** An obligation is met by the completed writes of its tool: all of them declare
    the same size and there are exactly that many, or there is no size to
    declare and there are enough. *)
Definition met (rows : list CompletedWriteRow) (o : ActiveOutputObligation) : Prop :=
  let completed := writes_of (ao_tool_name o) rows in
  let count := Z.of_nat (length completed) in
  match wo_expected_count_field (ao_contract o) with
  | None => wo_minimum_writes (ao_contract o) <= count
  | Some field =>
      match completed with
      | [] => wo_minimum_writes (ao_contract o) <= 0
      | _ => wo_minimum_writes (ao_contract o) <= count ∧
          Forall (λ row, ∃ args v, from_str (cw_args row) = Ok args ∧ json_get field args = Some v ∧
            canonical_positive_count as_u64 v MAX_EVENT_TRIGGER_GROUP_DOCS = Some count) completed
      end
  end.

Lemma expected_count_loop_spec tool field completed : ∀ expected r,
  expected_count_loop as_u64 from_str tool field expected completed = Ok r ->
  (completed = [] ∧ r = expected) ∨
  ∃ n, r = Some n ∧ (∀ prior, expected = Some prior -> prior = n) ∧
    Forall (λ row, ∃ args v, from_str (cw_args row) = Ok args ∧ json_get field args = Some v ∧
      canonical_positive_count as_u64 v MAX_EVENT_TRIGGER_GROUP_DOCS = Some n) completed.
Proof.
  induction completed as [|row rest IH]; intros expected r; cbn [expected_count_loop].
  { intros [= <-]. by left. }
  destruct (from_str (cw_args row)) as [args|e] eqn:Ea; [|done].
  destruct (json_get field args) as [v|] eqn:Ev; [|done].
  destruct (canonical_positive_count _ v _) as [count|] eqn:Ec; [|done].
  destruct (is_some_and _ expected) eqn:Ed; [done|]. intros H. right.
  assert (Hp : ∀ prior, expected = Some prior -> prior = count).
  { intros prior ->. cbn in Ed. apply negb_false_iff, Z.eqb_eq in Ed. done. }
  destruct (IH _ _ H) as [[-> ->]|(n & -> & Hn & Hf)].
  - exists count. split; [done|]. split; [done|]. repeat constructor. eauto.
  - specialize (Hn count eq_refl) as <-. exists count. split; [done|]. split; [done|].
    constructor; [eauto|done].
Qed.

Lemma unmet_nil_spec rows obligations :
  unmet_loop as_u64 from_str rows obligations = Ok [] -> Forall (met rows) obligations.
Proof.
  induction obligations as [|o rest IH]; [constructor|]. cbn [unmet_loop].
  destruct (expected_write_count _ _ o _) as [expected|e] eqn:Ee; [|done].
  destruct (obligation_decision _ _ expected true) eqn:Ed; [|intros H; constructor; [|by apply IH]|done].
  { destruct (unmet_loop _ _ rows rest); [|done]. discriminate. }
  unfold met, expected_write_count, obligation_decision in *. cbn [negb] in Ed.
  destruct (wo_expected_count_field (ao_contract o)) as [field|].
  - apply expected_count_loop_spec in Ee as [[Hw ->]|(n & -> & _ & Hf)].
    + rewrite Hw in Ed |- *. change (Z.of_nat (length [])) with 0 in Ed.
      destruct (Z.leb_spec (wo_minimum_writes (ao_contract o)) 0); [done|done].
    + destruct (_ || _) eqn:Eo; [done|]. apply orb_false_iff in Eo as [Eo _].
      apply Z.ltb_ge in Eo.
      destruct (Z.eqb_spec (Z.of_nat (length (writes_of (ao_tool_name o) rows))) n) as [<-|]; [|done].
      destruct (writes_of (ao_tool_name o) rows) eqn:Ew; [change (Z.of_nat (length [])) with 0 in *; lia|].
      split; [lia|exact Hf].
  - injection Ee as <-. destruct (Z.leb_spec (wo_minimum_writes (ao_contract o))
      (Z.of_nat (length (writes_of (ao_tool_name o) rows)))); [done|done].
Qed.

Lemma unmet_nil doc obligations query :
  unmet as_u64 from_str doc obligations query = Ok [] ->
  obligations = [] ∨ ∃ rows, query = Ok rows ∧ Forall (met rows) obligations.
Proof.
  unfold unmet. destruct obligations as [|o rest]; [by left|].
  destruct (str_eqb _ _); [done|]. destruct query as [rows|]; [|done].
  intros H. right. exists rows. split; [done|]. by apply unmet_nil_spec.
Qed.

(** The gate lets a request answer only when every obligation of it is met by
    durable completed writes: enough of them, and where the contract names a
    count field exactly as many as every one of them declares. *)
Theorem gate_opens_only_when_met doc obligations query :
  unmet as_u64 from_str doc obligations query = Ok [] ->
  obligations = [] ∨ ∃ rows, query = Ok rows ∧ Forall (met rows) obligations.
Proof. apply unmet_nil. Qed.
End gate_proofs.

Definition demo_obligation : ActiveOutputObligation :=
  mkActive (lit "write_result") (mkObligation ScopeTrigger 1 None).

Lemma gate_opens_only_when_met_witness :
  Forall (met (λ _, None) (λ _, Err []) [mkWrite (lit "write_result") (lit "{}")]) [demo_obligation].
Proof.
  destruct (gate_opens_only_when_met (λ _, None) (λ _, Err []) (lit "doc") [demo_obligation]
    (Ok [mkWrite (lit "write_result") (lit "{}")])) as [H|(rows & Hr & H)];
    [vm_compute; reflexivity|discriminate H|]. injection Hr as <-. exact H.
Defined.
