(* ===== verification/Denial.v ===== *)
(** * Command-policy denials

    The typed reasons a command is refused and their payload, which travels as
    text through the tool-call error path and is read back by the dispatcher
    ([src/crates/gents/src/toolset/denial.rs]), with the execution and network
    modes the payload names ([toolset/shared/command.rs]). *)

From S2P Require Import Prelude RustStr Messages.
Open Scope Z_scope.

(** ** Modes and authorities *)

Inductive CommandExecutionMode : Type := ReadOnly | WorkspaceWrite | Unrestricted.
#[global] Instance CommandExecutionMode_eq_dec : EqDecision CommandExecutionMode.
Proof. solve_decision. Defined.

Definition is_one_of (s : str) (names : list string) : bool := existsb (λ n, str_eqb s (lit n)) names.

Definition execution_mode_parse (value : str) : option CommandExecutionMode :=
  let value := trim value in
  if str_eqb value [] || is_one_of value ["read_only"; "ReadOnly"]%string then Some ReadOnly
  else if is_one_of value ["workspace_write"; "WorkspaceWrite"; "managed_write"; "ManagedWrite"]%string
  then Some WorkspaceWrite
  else if is_one_of value ["unrestricted"; "Unrestricted"]%string then Some Unrestricted
  else None.
Definition execution_mode_as_str (m : CommandExecutionMode) : str :=
  match m with
  | ReadOnly => lit "read_only"
  | WorkspaceWrite => lit "workspace_write"
  | Unrestricted => lit "unrestricted"
  end.
Definition execution_mode_rank (m : CommandExecutionMode) : Z :=
  match m with ReadOnly => 0 | WorkspaceWrite => 1 | Unrestricted => 2 end.
Definition execution_mode_meet (self other : CommandExecutionMode) : CommandExecutionMode :=
  if execution_mode_rank self <=? execution_mode_rank other then self else other.

Inductive CommandNetworkMode : Type := Inherit | Disabled | Enabled.
#[global] Instance CommandNetworkMode_eq_dec : EqDecision CommandNetworkMode.
Proof. solve_decision. Defined.
Definition network_mode_parse (value : str) : option CommandNetworkMode :=
  let value := trim value in
  if str_eqb value [] || is_one_of value ["inherit"; "Inherit"]%string then Some Inherit
  else if is_one_of value ["disabled"; "Disabled"; "off"; "Off"]%string then Some Disabled
  else if is_one_of value ["enabled"; "Enabled"; "on"; "On"]%string then Some Enabled
  else None.
Definition network_mode_as_str (m : CommandNetworkMode) : str :=
  match m with
  | Inherit => lit "inherit"
  | Disabled => lit "disabled"
  | Enabled => lit "enabled"
  end.
Definition allows_network (m : CommandNetworkMode) : bool :=
  match m with Disabled => false | _ => true end.
Definition network_mode_rank (m : CommandNetworkMode) : Z :=
  match m with Disabled => 0 | Inherit => 1 | Enabled => 2 end.
Definition network_mode_meet (self other : CommandNetworkMode) : CommandNetworkMode :=
  if network_mode_rank self <=? network_mode_rank other then self else other.

(** ** Reasons *)

Inductive DenialReason : Type :=
| ForbiddenPrefix (matched : list str)
| AllowedPrefixRequired (argv : list str)
| ReadOnlyCommandNotAllowlisted (command : str)
| ReadOnlyArgumentNotAllowed (command argument : str)
| ReadOnlySubcommandRequired (command : str)
| ReadOnlySubcommandNotAllowlisted (command subcommand : str)
| ReadOnlyUrlRequired (command : str)
| DisabledNetworkUnenforceable
| DisabledNetworkCommand (command : str)
| WorkspaceWriteSandboxUnavailable
| WorkspaceExecutable
| GitMetadataWriteDenied (command subcommand : str).
#[global] Instance DenialReason_eq_dec : EqDecision DenialReason.
Proof. solve_decision. Defined.

Definition reason_to_contract (r : DenialReason) : str :=
  match r with
  | ForbiddenPrefix _ => lit "forbiddenPrefix"
  | AllowedPrefixRequired _ => lit "allowedPrefixRequired"
  | ReadOnlyCommandNotAllowlisted _ => lit "readOnlyCommandNotAllowlisted"
  | ReadOnlyArgumentNotAllowed _ _ => lit "readOnlyArgumentNotAllowed"
  | ReadOnlySubcommandRequired _ => lit "readOnlySubcommandRequired"
  | ReadOnlySubcommandNotAllowlisted _ _ => lit "readOnlySubcommandNotAllowlisted"
  | ReadOnlyUrlRequired _ => lit "readOnlyUrlRequired"
  | DisabledNetworkUnenforceable => lit "disabledNetworkUnenforceable"
  | DisabledNetworkCommand _ => lit "disabledNetworkCommand"
  | WorkspaceWriteSandboxUnavailable => lit "workspaceWriteSandboxUnavailable"
  | WorkspaceExecutable => lit "workspaceExecutable"
  | GitMetadataWriteDenied _ _ => lit "gitMetadataWriteDenied"
  end.
Definition matched_prefix (r : DenialReason) : option (list str) :=
  match r with ForbiddenPrefix matched => Some matched | _ => None end.
Definition denied_argv (r : DenialReason) : option (list str) :=
  match r with AllowedPrefixRequired argv => Some argv | _ => None end.
Definition denied_command (r : DenialReason) : option str :=
  match r with
  | ReadOnlyCommandNotAllowlisted command | ReadOnlyArgumentNotAllowed command _
  | ReadOnlySubcommandRequired command | ReadOnlySubcommandNotAllowlisted command _
  | ReadOnlyUrlRequired command | DisabledNetworkCommand command
  | GitMetadataWriteDenied command _ => Some command
  | _ => None
  end.
Definition denied_argument (r : DenialReason) : option str :=
  match r with ReadOnlyArgumentNotAllowed _ argument => Some argument | _ => None end.
Definition denied_subcommand (r : DenialReason) : option str :=
  match r with
  | ReadOnlySubcommandNotAllowlisted _ subcommand | GitMetadataWriteDenied _ subcommand =>
      Some subcommand
  | _ => None
  end.

Definition shell_join_display (argv : list str) : str := join [32] argv.
Definition ends_with (suffix s : str) : bool := starts_with (rev suffix) (rev s).
Definition starts_with_any (s : str) (prefixes : list string) : bool :=
  existsb (λ p, starts_with (lit p) s) prefixes.

Definition argument_diagnostic (command argument : str) : str :=
  if str_eqb command (lit "sed") && (is_one_of argument ["-i"; "--in-place"]%string
       || starts_with_any argument ["-i"; "--in-place="]%string)
  then lit "sed in-place edits are not allowed"
  else if str_eqb command (lit "find")
  then lit "find arguments that can write or execute are not allowed"
  else if str_eqb command (lit "sudo") && ends_with (lit "launchctl") argument
  then lit "sudo launchctl must use the absolute /bin/launchctl path"
  else if str_eqb command (lit "git") && (is_one_of argument ["-C"; "-c"]%string
       || starts_with_any argument ["-C"; "-c"; "--config-env"; "--exec-path"; "--git-dir";
            "--namespace"; "--super-prefix"; "--work-tree"]%string)
  then lit "git global options that redirect config or helper lookup are not allowed"
  else if str_eqb command (lit "git")
       && (str_eqb argument (lit "-D") || starts_with (lit "--format=") argument)
  then lit "git branch argument is not read-only: " ++ argument
  else if str_eqb command (lit "git")
  then lit "git argument is not allowed by the read-only bash tool: " ++ argument
  else if str_eqb command (lit "rg")
  then lit "rg argument is not allowed by the read-only bash tool: " ++ argument
  else if str_eqb command (lit "curl")
  then lit "curl argument is not allowed by the read-only bash tool: " ++ argument
  else command ++ lit " argument is not allowed by the read-only bash tool: " ++ argument.

Section diagnostic.
(** [cfg!(target_os = "macos")]. *)
Context (macos : bool).

Definition diagnostic (r : DenialReason) : str :=
  match r with
  | ForbiddenPrefix matched =>
      lit "command is forbidden by command execution policy prefix: " ++ shell_join_display matched
  | AllowedPrefixRequired argv =>
      lit "command is not allowed by command execution policy prefixes: " ++ shell_join_display argv
  | ReadOnlyCommandNotAllowlisted command =>
      lit "command is not allowed by the read-only bash tool: " ++ command
  | ReadOnlyArgumentNotAllowed command argument => argument_diagnostic command argument
  | ReadOnlySubcommandRequired command =>
      if str_eqb command (lit "sudo") then lit "sudo requires an approved command"
      else command ++ lit " requires a read-only subcommand"
  | ReadOnlySubcommandNotAllowlisted command subcommand =>
      if str_eqb command (lit "sudo")
      then lit "sudo command is not allowed by the read-only bash tool: " ++ subcommand
      else command ++ lit " subcommand is not allowed by the read-only bash tool: " ++ subcommand
  | ReadOnlyUrlRequired command =>
      command ++ lit " requires an http:// or https:// URL in the read-only bash tool"
  | DisabledNetworkUnenforceable =>
      lit "command_network_mode=disabled cannot be enforced for unrestricted bash"
  | DisabledNetworkCommand command =>
      if str_eqb command (lit "tailscale")
      then lit "tailscale network probes are not allowed when command_network_mode=disabled"
      else command ++ lit " is not allowed when command_network_mode=disabled"
  | WorkspaceWriteSandboxUnavailable =>
      if macos
      then lit "macOS sandbox-exec is required for workspace_write bash but was not found"
      else lit "workspace_write bash requires macOS seatbelt sandbox enforcement on this build"
  | WorkspaceExecutable =>
      lit "language-server executable is not admitted (workspace-local or missing)"
  | GitMetadataWriteDenied command subcommand =>
      command ++ [32] ++ subcommand
      ++ lit " is denied under WorkspaceWrite+git_worktree_diff (shared Git metadata is integrator-only)"
  end.

Definition from_contract_fields (reason : str) (matched_prefix denied_argv : option (list str))
    (denied_command denied_argument denied_subcommand : option str) : option DenialReason :=
  if str_eqb reason (lit "forbiddenPrefix") then ForbiddenPrefix <$> matched_prefix
  else if str_eqb reason (lit "allowedPrefixRequired") then AllowedPrefixRequired <$> denied_argv
  else if str_eqb reason (lit "readOnlyCommandNotAllowlisted")
  then ReadOnlyCommandNotAllowlisted <$> denied_command
  else if str_eqb reason (lit "readOnlyArgumentNotAllowed")
  then c ← denied_command; a ← denied_argument; Some (ReadOnlyArgumentNotAllowed c a)
  else if str_eqb reason (lit "readOnlySubcommandRequired")
  then ReadOnlySubcommandRequired <$> denied_command
  else if str_eqb reason (lit "readOnlySubcommandNotAllowlisted")
  then c ← denied_command; s ← denied_subcommand; Some (ReadOnlySubcommandNotAllowlisted c s)
  else if str_eqb reason (lit "readOnlyUrlRequired") then ReadOnlyUrlRequired <$> denied_command
  else if str_eqb reason (lit "disabledNetworkUnenforceable") then Some DisabledNetworkUnenforceable
  else if str_eqb reason (lit "disabledNetworkCommand") then DisabledNetworkCommand <$> denied_command
  else if str_eqb reason (lit "workspaceWriteSandboxUnavailable")
  then Some WorkspaceWriteSandboxUnavailable
  else if str_eqb reason (lit "workspaceExecutable") then Some WorkspaceExecutable
  else if str_eqb reason (lit "gitMetadataWriteDenied")
  then c ← denied_command; s ← denied_subcommand; Some (GitMetadataWriteDenied c s)
  else None.

(** ** The payload *)

Record CommandPolicyDenial : Type := mkDenial {
  cd_reason : DenialReason;
  cd_policy_mode : str;
  cd_policy_network : str }.
Definition CommandPolicyDenial_new (reason : DenialReason) (mode : CommandExecutionMode)
    (network_mode : CommandNetworkMode) : CommandPolicyDenial :=
  mkDenial reason (execution_mode_as_str mode) (network_mode_as_str network_mode).

(** What [json!] makes of an option. *)
Definition json_opt_str (o : option str) : Json := from_option JString JNull o.
Definition json_opt_strs (o : option (list str)) : Json :=
  from_option (λ l, JArray (JString <$> l)) JNull o.

Definition payload_value (d : CommandPolicyDenial) : Json :=
  let r := cd_reason d in
  JObject [(lit "ok", JBool false);
           (lit "failure_class", JString (lit "policyDenied"));
           (lit "denial_reason", JString (reason_to_contract r));
           (lit "denied_argv", json_opt_strs (denied_argv r));
           (lit "denied_command", json_opt_str (denied_command r));
           (lit "denied_argument", json_opt_str (denied_argument r));
           (lit "denied_subcommand", json_opt_str (denied_subcommand r));
           (lit "denied_prefix", json_opt_strs (matched_prefix r));
           (lit "policy_mode", JString (cd_policy_mode d));
           (lit "policy_network", JString (cd_policy_network d));
           (lit "message", JString (diagnostic r))].
(** [to_string] is [serde_json::to_string], which cannot fail on a [Value]. *)
Definition tool_error_payload (to_string : Json → str) (d : CommandPolicyDenial) : str :=
  to_string (payload_value d).
End diagnostic.

Definition string_field (value : Json) (key : str) : option str :=
  opt_filter (λ s, negb (str_eqb s [])) (json_get key value ≫= as_str).
Definition string_vec_field (value : Json) (key : str) : option (list str) :=
  option_map (λ items : list Json, omap as_str items : list str) (json_get key value ≫= as_array).
Definition from_payload_value (value : Json) : option CommandPolicyDenial :=
  reason ← json_get (lit "denial_reason") value ≫= as_str;
  let matched_prefix := string_vec_field value (lit "denied_prefix") in
  let denied_argv := string_vec_field value (lit "denied_argv") in
  let denied_command := string_field value (lit "denied_command") in
  let denied_argument := string_field value (lit "denied_argument") in
  let denied_subcommand := string_field value (lit "denied_subcommand") in
  reason ← from_contract_fields reason matched_prefix denied_argv denied_command denied_argument
             denied_subcommand;
  Some (mkDenial reason (default [] (string_field value (lit "policy_mode")))
          (default [] (string_field value (lit "policy_network")))).

(** ** Round trip *)

(** No name of the denial is empty: an empty one reads back as absent. *)
Definition names_present (r : DenialReason) : Prop :=
  denied_command r ≠ Some [] ∧ denied_argument r ≠ Some [] ∧ denied_subcommand r ≠ Some [].

Lemma string_field_of fields key o :
  assoc key fields = Some (json_opt_str o) -> o ≠ Some [] -> string_field (JObject fields) key = o.
Proof.
  intros H Ho. unfold string_field. cbn [json_get]. rewrite H.
  destruct o as [s|]; [|done]. cbn. destruct s; [done|]. done.
Qed.
Lemma string_vec_field_of fields key o :
  assoc key fields = Some (json_opt_strs o) -> string_vec_field (JObject fields) key = o.
Proof.
  intros H. unfold string_vec_field. cbn [json_get]. rewrite H.
  destruct o as [l|]; [|done]. cbn [json_opt_strs from_option as_array mbind option_bind option_map].
  f_equal. clear H. induction l as [|s l IH]; [done|]. exact (f_equal (cons s) IH).
Qed.

Lemma payload_reads_back macos d : names_present (cd_reason d) ->
  cd_policy_mode d ≠ [] -> cd_policy_network d ≠ [] ->
  from_payload_value (payload_value macos d) = Some d.
Proof.
  intros (Hc & Ha & Hs) Hm Hn. destruct d as [r pm pn]. unfold from_payload_value, payload_value.
  cbn [cd_reason cd_policy_mode cd_policy_network] in *.
  rewrite (string_vec_field_of _ (lit "denied_prefix") (matched_prefix r)) by reflexivity.
  rewrite (string_vec_field_of _ (lit "denied_argv") (denied_argv r)) by reflexivity.
  rewrite (string_field_of _ (lit "denied_command") (denied_command r)) by (reflexivity || done).
  rewrite (string_field_of _ (lit "denied_argument") (denied_argument r)) by (reflexivity || done).
  rewrite (string_field_of _ (lit "denied_subcommand") (denied_subcommand r)) by (reflexivity || done).
  rewrite (string_field_of _ (lit "policy_mode") (Some pm)) by (reflexivity || congruence).
  rewrite (string_field_of _ (lit "policy_network") (Some pn)) by (reflexivity || congruence).
  destruct r; reflexivity.
Qed.
