(* ===== verification/ToolDispatch.v ===== *)
(** * Tool dispatch

    From the model's arguments to the text that is threaded back: the tolerant
    reading of arguments ([llm/tool.rs]), the dispatch of one call under its
    deadline and cancellation ([agent/loop_stream/tool_dispatch.rs]) and the typed
    outcome ([tool_call_lifecycle/runtime.rs]).

    Parameters: [serde_json]'s reading and printing, and what a tool answers.  The
    polls of the dispatcher's [select!] are a list of instants at which the tool
    was still running, followed by the one at which it had answered. *)

From S2P Require Import Prelude RustStr Errors Messages History HistorySplit Compaction ToolArgs ToolCall Denial.
Open Scope Z_scope.

(** ** Errors and outcomes *)

Inductive UnparseableArgsKind : Type := UA_Truncated | UA_Malformed.
Inductive ToolError : Type :=
| TE_ToolCallError (error : str)
| TE_JsonError (error : str)
| TE_UnparseableArgs (kind : UnparseableArgsKind) (reason : str)
| TE_ReportedFailure (class : FailureClass) (text : str).

Inductive ToolOutcome : Type :=
| TO_Completed (text : str)
| TO_Failed (class : FailureClass) (denial : option CommandPolicyDenial) (text : str)
| TO_TimedOut (deadline_at : option Z)
| TO_Cancelled.

Definition model_facing_text (o : ToolOutcome) : str :=
  match o with
  | TO_Completed text | TO_Failed _ _ text => text
  | TO_TimedOut _ | TO_Cancelled => []
  end.

Definition classify_error_text (err : str) : FailureClass :=
  if contains (lit "timeout") err || contains (lit "deadline") err then External
  else if contains (lit "invalid argument") err || contains (lit "parse") err then ArgumentInvalid
  else if contains (lit "unavailable") err || contains (lit "not found") err then ServiceUnavailable
  else if contains (lit "transport") err || contains (lit "connection") err then Transport
  else ToolReturnedError.

Definition strip_error_prefix (value : str) : option str :=
  match strip_prefix (lit "error:") value with
  | Some rest => Some rest
  | None =>
      match strip_prefix (lit "Error:") value with
      | Some rest => Some rest
      | None => strip_prefix (lit "ERROR:") value
      end
  end.
(** Every round removes a prefix of six characters. *)
Fixpoint strip_error_prefixes_loop (fuel : nat) (value : str) : str :=
  match strip_error_prefix value, fuel with
  | Some stripped, S fuel => strip_error_prefixes_loop fuel (trim stripped)
  | _, _ => trim value
  end.
Definition strip_error_prefixes (value : str) : str := strip_error_prefixes_loop (length value) value.

Section dispatch.
(** [serde_json::from_str::<Value>]. *)
Context (from_str : str → option Json).

Definition parse_command_policy_denial (detail : str) : option CommandPolicyDenial :=
  let payload := strip_error_prefixes detail in
  value ← from_str payload;
  if negb (opt_eqb str_eqb (json_get (lit "failure_class") value ≫= as_str)
             (Some (lit "policyDenied")))
  then None else from_payload_value value.

Definition from_tool_call_error (detail : str) : ToolOutcome :=
  match parse_command_policy_denial detail with
  | Some denial => TO_Failed PolicyDenied (Some denial) detail
  | None => TO_Failed (classify_error_text detail) None detail
  end.

Definition args_guidance (kind : UnparseableArgsKind) : str :=
  match kind with
  | UA_Truncated =>
      lit "the arguments were cut off " ++ [8212]
      ++ lit " your response hit the token limit before the JSON was complete; re-call the tool with a shorter, complete arguments object"
  | UA_Malformed =>
      lit "the arguments were not valid JSON; re-call the tool with valid JSON (escape any backslash as "
      ++ [BACKSLASH; BACKSLASH] ++ lit ")"
  end.

Definition from_dispatch (name : str) (outcome : result ToolError str) : ToolOutcome :=
  match outcome with
  | Ok result => TO_Completed result
  | Err (TE_UnparseableArgs kind reason) =>
      TO_Failed ArgumentInvalid None
        (lit "tool '" ++ name ++ lit "' arguments could not be parsed: " ++ args_guidance kind ++ lit ".")
  | Err (TE_JsonError error) => TO_Failed ArgumentInvalid None error
  | Err (TE_ReportedFailure class text) => TO_Failed class None text
  | Err (TE_ToolCallError error) => from_tool_call_error error
  end.

(** ** Reading arguments, and calling a typed tool *)

(** A [serde_json::Error]: whether its category is [Eof], and its text. *)
Record SerdeError : Type := mkSerde { serde_eof : bool; serde_text : str }.
Definition unparseable_args_error (error : SerdeError) : ToolError :=
  TE_UnparseableArgs (if serde_eof error then UA_Truncated else UA_Malformed) (serde_text error).

Definition parse_tool_args {A} (from_str_args : str → result SerdeError A) (args : str)
    : result ToolError A :=
  match from_str_args args with
  | Ok value => Ok value
  | Err first_error =>
      match repair_tool_arguments args with
      | Some repaired =>
          match from_str_args repaired with
          | Ok value => Ok value
          | Err second_error => Err (unparseable_args_error second_error)
          end
      | None => Err (unparseable_args_error first_error)
      end
  end.

(** The value of a tool's output; a string is its own text. *)
Definition serialize_tool_output (to_string : Json → str) (output : result str Json)
    : result str str :=
  match output with
  | Err error => Err error
  | Ok (JString text) => Ok text
  | Ok value => Ok (to_string value)
  end.

(** [ToolDyn::call] of a [Tool]: its argument reader, body, error conversion and
    the [serde_json] value of its output. *)
Definition tool_dyn_call {A O E} (from_str_args : str → result SerdeError A)
    (call : A → result E O) (into_dyn_error : E → ToolError) (to_value : O → result str Json)
    (to_string : Json → str) (args : str) : result ToolError str :=
  match parse_tool_args from_str_args args with
  | Err error => Err error
  | Ok parsed =>
      match call parsed with
      | Err error => Err (into_dyn_error error)
      | Ok output =>
          match serialize_tool_output to_string (to_value output) with
          | Ok text => Ok text
          | Err error => Err (TE_JsonError error)
          end
      end
  end.

Definition value_to_json_string (to_string : Json → str) (value : Json) : str :=
  match value with JString string => string | other => to_string other end.

(** ** [dispatch_tool] *)

(** What the dispatcher finds at one poll besides the tool's answer. *)
Record Poll : Type := mkPoll { po_now : Z; po_cancelled : bool }.
(** One execution of a tool: the polls at which it was running, and the poll at
    which it had answered. *)
Record ToolRun : Type := mkRun {
  tr_running : list Poll;
  tr_finished : Poll;
  tr_answer : result ToolError str }.

(** [deadline_remaining] is [Some(ZERO)], or the sleep until then is over. *)
Definition deadline_passed (now : Z) (deadline_at : option Z) : bool :=
  is_some_and (λ deadline, deadline <=? now) deadline_at.

(** The branches of the biased [select!] before the tool's. *)
Definition interrupted (deadline_at : option Z) (p : Poll) : option ToolOutcome :=
  if po_cancelled p then Some TO_Cancelled
  else if deadline_passed (po_now p) deadline_at then Some (TO_TimedOut deadline_at)
  else None.
Fixpoint select_call (name : str) (deadline_at : option Z) (running : list Poll) (finished : Poll)
    (answer : result ToolError str) : ToolOutcome :=
  match running with
  | p :: rest =>
      match interrupted deadline_at p with
      | Some outcome => outcome
      | None => select_call name deadline_at rest finished answer
      end
  | [] =>
      match interrupted deadline_at finished with
      | Some outcome => outcome
      | None => from_dispatch name answer
      end
  end.

(** [tools] are the names of the installed tools, [scope] the deadline of the
    current tool runtime context, [now] the clock before the call. *)
Definition dispatch_tool (tools : list str) (name : str) (scope : option (option Z)) (now : Z)
    (run : ToolRun) : ToolOutcome :=
  if negb (existsb (λ tool, str_eqb tool name) tools)
  then from_tool_call_error (lit "error: unknown tool '" ++ name ++ lit "'")
  else match scope with
       | None => from_dispatch name (tr_answer run)
       | Some deadline_at =>
           if deadline_passed now deadline_at then TO_TimedOut deadline_at
           else select_call name deadline_at (tr_running run) (tr_finished run) (tr_answer run)
       end.
End dispatch.

(** ** Denials survive the text *)

Lemma trim_length s : (length (trim s) <= length s)%nat.
Proof.
  assert (Hd : ∀ t, (length (trim_start t) <= length t)%nat).
  { induction t as [|c t IH]; [done|]. unfold trim_start. cbn [drop_leading].
    destruct (is_whitespace c); [|done]. cbn [length]. unfold trim_start in IH. lia. }
  unfold trim, trim_end. rewrite length_rev. etransitivity; [apply Hd|]. rewrite length_rev. apply Hd.
Qed.

Lemma strip_error_prefix_length s r : strip_error_prefix s = Some r -> (length r < length s)%nat.
Proof.
  unfold strip_error_prefix. intros H.
  repeat match type of H with context [match strip_prefix ?p s with _ => _ end] =>
    destruct (strip_prefix p s) eqn:?
  end; simplify_eq;
  match goal with E : strip_prefix _ s = Some _ |- _ => apply strip_prefix_Some in E as -> end;
  rewrite length_app; cbn; lia.
Qed.

Definition solid (s : str) : Prop :=
  match s with c :: _ => is_whitespace c = false | [] => False end ∧
  match rev s with c :: _ => is_whitespace c = false | [] => False end.

Lemma trim_start_solid c s : is_whitespace c = false -> trim_start (c :: s) = c :: s.
Proof. intros H. unfold trim_start. cbn [drop_leading]. by rewrite H. Qed.
Lemma trim_end_solid s : match rev s with c :: _ => is_whitespace c = false | [] => False end ->
  trim_end s = s.
Proof.
  intros H. unfold trim_end. assert (Hr : trim_start (rev s) = rev s).
  { destruct (rev s) as [|c r]; [done|]. by apply trim_start_solid. }
  exact (eq_trans (f_equal (@rev Z) Hr) (rev_involutive s)).
Qed.
Lemma trim_solid s : solid s -> trim s = s.
Proof.
  intros [H1 H2]. unfold trim. destruct s as [|c s]; [done|].
  rewrite trim_start_solid by done. by apply trim_end_solid.
Qed.

Definition error_prefix : str := lit "error: ".
Lemma solid_prefixed s : solid s -> solid (error_prefix ++ s).
Proof.
  intros [H1 H2]. split; [reflexivity|]. rewrite rev_app_distr.
  destruct (rev s); [done|]. exact H2.
Qed.
Lemma solid_prefixes n s : solid s -> solid (concat (repeat error_prefix n) ++ s).
Proof.
  intros Hs. induction n as [|n IH]; [done|]. cbn [repeat concat]. rewrite <-app_assoc.
  by apply solid_prefixed.
Qed.

Lemma strip_error_prefixed s : strip_error_prefix (error_prefix ++ s) = Some (32 :: s).
Proof. reflexivity. Qed.
Lemma strip_prefixes n s : solid s -> strip_error_prefix s = None ->
  ∀ fuel, (n <= fuel)%nat ->
  strip_error_prefixes_loop fuel (concat (repeat error_prefix n) ++ s) = s.
Proof.
  intros Hs Hn. induction n as [|n IH]; intros fuel Hf.
  - cbn [repeat concat app]. destruct fuel; cbn [strip_error_prefixes_loop]; rewrite Hn; by apply trim_solid.
  - destruct fuel as [|fuel]; [lia|]. cbn [repeat concat]. rewrite <-app_assoc.
    cbn [strip_error_prefixes_loop]. rewrite strip_error_prefixed.
    assert (Ht : ∀ t, trim (32 :: t) = trim t) by reflexivity.
    rewrite Ht, trim_solid by (by apply solid_prefixes). apply IH. lia.
Qed.

Lemma braced_solid body : solid ([123] ++ body ++ [125]) ∧
  strip_error_prefix ([123] ++ body ++ [125]) = None.
Proof. split; [|reflexivity]. split; [reflexivity|]. by rewrite app_assoc, rev_app_distr. Qed.

(** A command-policy denial that a tool raises as error text, under any number
    of [error:] prefixes, leaves the dispatcher as the same typed denial with
    class [policyDenied] and the untouched text, given that [serde_json] prints the
    payload as an object and reads it back. *)
Theorem denial_survives_dispatch macos from_str to_string name d n :
  names_present (cd_reason d) -> cd_policy_mode d ≠ [] -> cd_policy_network d ≠ [] ->
  (∃ body, to_string (payload_value macos d) = [123] ++ body ++ [125]) ->
  from_str (to_string (payload_value macos d)) = Some (payload_value macos d) ->
  let text := concat (repeat error_prefix n) ++ tool_error_payload macos to_string d in
  from_dispatch from_str name (Err (TE_ToolCallError text)) = TO_Failed PolicyDenied (Some d) text.
Proof.
  intros Hd Hm Hn [body Hb] Hr text. cbn [from_dispatch].
  unfold from_tool_call_error, parse_command_policy_denial, strip_error_prefixes.
  assert (Hs : strip_error_prefixes_loop (length text) text = to_string (payload_value macos d)).
  { unfold text, tool_error_payload. rewrite Hb. destruct (braced_solid body) as [H1 H2].
    apply strip_prefixes; [done|done|]. rewrite length_app.
    enough (n <= length (concat (repeat error_prefix n)))%nat by lia. clear.
    induction n as [|n IH]; [done|]. cbn [repeat concat]. rewrite length_app. change (length error_prefix) with 7%nat. lia. }
  rewrite Hs, Hr. cbn [mbind option_bind].
  change (json_get (lit "failure_class") (payload_value macos d) ≫= as_str)
    with (Some (lit "policyDenied")).
  change (opt_eqb str_eqb (Some (lit "policyDenied")) (Some (lit "policyDenied"))) with true.
  cbn [negb]. by rewrite payload_reads_back.
Qed.

Definition demo_denial : CommandPolicyDenial :=
  CommandPolicyDenial_new (ReadOnlyArgumentNotAllowed (lit "sed") (lit "-i")) ReadOnly Inherit.
Lemma denial_survives_dispatch_witness :
  from_dispatch (λ _, Some (payload_value false demo_denial)) (lit "bash")
    (Err (TE_ToolCallError (lit "error: {}")))
  = TO_Failed PolicyDenied (Some demo_denial) (lit "error: {}").
Proof.
  apply (denial_survives_dispatch false (λ _, Some (payload_value false demo_denial))
           (λ _, lit "{}") (lit "bash") demo_denial 1);
    [by repeat split|done|done|by exists []|reflexivity].
Defined.

(** ** Deadlines and cancellation *)

Lemma select_call_inv from_str name deadline_at running finished answer o :
  select_call from_str name deadline_at running finished answer = o ->
  (Forall (λ p, interrupted deadline_at p = None) (running ++ [finished]) ∧
   o = from_dispatch from_str name answer) ∨
  (∃ p, p ∈ running ++ [finished] ∧ interrupted deadline_at p = Some o).
Proof.
  induction running as [|p rest IH]; cbn [select_call app].
  - destruct (interrupted deadline_at finished) as [o'|] eqn:E; intros <-.
    + right. exists finished. split; [set_solver|done].
    + left. split; [by constructor|done].
  - destruct (interrupted deadline_at p) as [o'|] eqn:E.
    + intros <-. right. exists p. split; [set_solver|done].
    + intros H. destruct (IH H) as [[H1 H2]|(q & Hq & Ho)].
      * left. split; [by constructor|done].
      * right. exists q. split; [set_solver|done].
Qed.

(** The dispatcher lets a tool's answer through only if the tool is installed
    and at no poll up to and including its answer the request was cancelled or the
    deadline had passed; a call whose deadline passed before it started does not
    run. *)
Theorem answers_come_in_time from_str tools name deadline_at now run text :
  dispatch_tool from_str tools name (Some deadline_at) now run = TO_Completed text ->
  name ∈ tools ∧ deadline_passed now deadline_at = false ∧ tr_answer run = Ok text ∧
  Forall (λ p, po_cancelled p = false ∧ deadline_passed (po_now p) deadline_at = false)
    (tr_running run ++ [tr_finished run]).
Proof.
  unfold dispatch_tool. destruct (existsb _ tools) eqn:Et; cbn [negb].
  2: { unfold from_tool_call_error. by destruct (parse_command_policy_denial _ _). }
  apply existsb_exists in Et as (tool & Hin & Heq). apply str_eqb_true in Heq as <-.
  destruct (deadline_passed now deadline_at) eqn:Ed; [done|].
  intros H. apply select_call_inv in H as [[Hf Ho]|(p & _ & Hp)].
  - split; [by apply list_elem_of_In|]. split; [done|]. split.
    + destruct (tr_answer run) as [t|[e|e|k r|c t]]; cbn in Ho; try discriminate Ho; [by injection Ho as ->|].
      unfold from_tool_call_error in Ho. by destruct (parse_command_policy_denial _ _).
    + eapply List.Forall_impl; [|exact Hf]. intros p. unfold interrupted.
      destruct (po_cancelled p); [done|]. by destruct (deadline_passed (po_now p) deadline_at).
  - unfold interrupted in Hp. destruct (po_cancelled p); [done|]. by destruct (deadline_passed (po_now p) deadline_at).
Qed.

Lemma answers_come_in_time_witness :
  lit "echo" ∈ [lit "echo"] ∧ deadline_passed 5 (Some 10) = false ∧
  Forall (λ p, po_cancelled p = false ∧ deadline_passed (po_now p) (Some 10) = false)
    [mkPoll 6 false; mkPoll 9 false].
Proof.
  destruct (answers_come_in_time (λ _, None) [lit "echo"] (lit "echo") (Some 10) 5
    (mkRun [mkPoll 6 false] (mkPoll 9 false) (Ok (lit "hi"))) (lit "hi")) as (H1 & H2 & _ & H3);
    [reflexivity|]. exact (conj H1 (conj H2 H3)).
Defined.
