(* ===== verification/AgentTurn.v ===== *)
(** * One turn of the agent loop: content, requests and traces

    What the owned loop builds around a provider call
    ([src/crates/gents/src/agent/loop_stream/request_assembly.rs],
    [turn_threading.rs], [contract.rs], [agent/stream_processor.rs]): the assistant
    content accumulated from a stream, the messages threaded back, the completion
    request with its budgeted construction and its repair, and the trace captured
    before a dispatch ([gents-protocol/src/rendered_request.rs]).

    [rig]'s message family mirrors the native one and is represented by it;
    [to_rig_message] and [from_rig_tool_call] are what the conversions change. *)

From S2P Require Import Prelude RustStr Float64 Errors TokenBudget Retry Messages History HistorySplit Compaction ToolArgs OutputObligation.
Open Scope Z_scope.

(** ** [AssistantTurnAccumulator] *)

Record AssistantTurnAccumulator : Type := mkAcc {
  ac_text : str;
  ac_reasoning : list Reasoning;
  ac_pending_reasoning_delta_text : str;
  ac_pending_reasoning_delta_id : option str;
  ac_tool_calls : list ToolCall }.
Definition default_accumulator : AssistantTurnAccumulator := mkAcc [] [] [] None [].

(** The search from the back: [rev] is the reversed list. *)
Fixpoint extend_last_match (incoming : Reasoning) (reversed : list Reasoning)
    : option (list Reasoning) :=
  match reversed with
  | [] => None
  | existing :: rest =>
      if (match re_id existing, re_id incoming with
          | Some existing_id, Some incoming_id => str_eqb existing_id incoming_id
          | _, _ => false
          end)
      then Some (mkReasoning (re_id existing) (re_content existing ++ re_content incoming) :: rest)
      else cons existing <$> extend_last_match incoming rest
  end.
Definition merge_reasoning_blocks (accumulated : list Reasoning) (incoming : Reasoning)
    : list Reasoning :=
  match extend_last_match incoming (rev accumulated) with
  | Some reversed => rev reversed
  | None => accumulated ++ [incoming]
  end.

Definition push_text (t : str) (a : AssistantTurnAccumulator) : AssistantTurnAccumulator :=
  mkAcc (ac_text a ++ t) (ac_reasoning a) (ac_pending_reasoning_delta_text a)
    (ac_pending_reasoning_delta_id a) (ac_tool_calls a).
Definition push_reasoning (r : Reasoning) (a : AssistantTurnAccumulator) : AssistantTurnAccumulator :=
  mkAcc (ac_text a) (merge_reasoning_blocks (ac_reasoning a) r) (ac_pending_reasoning_delta_text a)
    (ac_pending_reasoning_delta_id a) (ac_tool_calls a).
Definition push_reasoning_delta (id : option str) (reasoning : str) (a : AssistantTurnAccumulator)
    : AssistantTurnAccumulator :=
  mkAcc (ac_text a) (ac_reasoning a) (ac_pending_reasoning_delta_text a ++ reasoning)
    (match ac_pending_reasoning_delta_id a with None => id | some => some end) (ac_tool_calls a).
Definition push_tool_call (c : ToolCall) (a : AssistantTurnAccumulator) : AssistantTurnAccumulator :=
  mkAcc (ac_text a) (ac_reasoning a) (ac_pending_reasoning_delta_text a)
    (ac_pending_reasoning_delta_id a) (ac_tool_calls a ++ [c]).

(** The deltas count only when no whole reasoning block arrived. *)
Definition assembled_reasoning (a : AssistantTurnAccumulator) : list Reasoning :=
  match ac_reasoning a with
  | [] =>
      if is_empty (ac_pending_reasoning_delta_text a) then []
      else let assembled := Reasoning_new (ac_pending_reasoning_delta_text a) in
           let assembled := match ac_pending_reasoning_delta_id a with
                            | Some id => Reasoning_with_id id assembled
                            | None => assembled
                            end in
           merge_reasoning_blocks [] assembled
  | blocks => blocks
  end.
Definition build_content (a : AssistantTurnAccumulator) : list AssistantContent :=
  (if is_empty (ac_text a) then [] else [AText (mkText (ac_text a))])
  ++ (AReasoning <$> assembled_reasoning a) ++ (AToolCall <$> ac_tool_calls a).
(** The message, and the emptied accumulator. *)
Definition build_message (a : AssistantTurnAccumulator)
    : option Message * AssistantTurnAccumulator :=
  (match build_content a with [] => None | content => Some (Assistant None content) end,
   default_accumulator).
Definition take_message (a : AssistantTurnAccumulator)
    : option Message * AssistantTurnAccumulator := build_message a.
Definition message_snapshot (a : AssistantTurnAccumulator) : option Message := fst (build_message a).

Definition reconcile_text (final_text : str) (a : AssistantTurnAccumulator)
    : AssistantTurnAccumulator :=
  if is_empty final_text then a
  else if is_empty (ac_text a) then push_text final_text a
  else match strip_prefix (ac_text a) final_text with
       | Some remainder => push_text remainder a
       | None => a
       end.

Definition reasoning_piece (part : ReasoningContent) : str :=
  match part with
  | RText t _ | Summary t => t
  | Encrypted _ => lit "[encrypted reasoning]"
  | Redacted _ => lit "[redacted reasoning]"
  end.
Definition append_piece (rendered piece : str) : str :=
  if is_empty piece then rendered
  else (if is_empty rendered then rendered else rendered ++ [NL]) ++ piece.
Definition render_reasoning_text (reasoning : Reasoning) : str :=
  foldl append_piece [] (reasoning_piece <$> re_content reasoning).

(** ** The entry of a request *)

Definition assemble_new_messages (context_message : option Message) (prompt : Message)
    : list Message :=
  match context_message with Some m => [m] | None => [] end ++ [prompt].
Definition ends_with_str (suffix s : str) : bool := bool_decide (is_Some (strip_suffix suffix s)).
Definition is_request_context_message (m : Message) : bool :=
  match m with
  | User [UText t] =>
      let trimmed := trim (text t) in
      starts_with (lit "<context>") trimmed && ends_with_str (lit "</context>") trimmed
  | _ => false
  end.
Definition error_chat_history (history new_messages : list Message) : list Message :=
  history ++ new_messages.
Fixpoint find_rag_text (messages : list Message) : option str :=
  match messages with
  | [] => None
  | m :: rest => match rag_text m with Some t => Some t | None => find_rag_text rest end
  end.
Definition current_rag_text (prompt : Message) (history prior : list Message) : str :=
  match rag_text prompt with
  | Some t => t
  | None => default [] (find_rag_text (rev (history ++ prior)))
  end.

(** ** Conversions at the provider seam ([llm/rig_compat.rs]) *)

Section seam.
Context (from_str : str → option Json).

(** Ingest and egress normalize the arguments of a call to an object. *)
Definition from_rig_tool_call (call : ToolCall) : ToolCall :=
  mkToolCall (tc_id call) (tc_call_id call)
    (mkToolFunction (tf_name (tc_function call))
       (normalize_tool_call_arguments from_str (tf_arguments (tc_function call))))
    (tc_signature call) (tc_additional_params call).
Definition to_rig_tool_call (call : ToolCall) : ToolCall := from_rig_tool_call call.
(** [OneOrMany::many] of nothing becomes one empty text. *)
Definition to_rig_tool_result (r : ToolResult) : ToolResult :=
  mkToolResult (tr_id r) (tr_call_id r)
    match tr_content r with [] => [TRText (mkText [])] | content => content end.
Definition to_rig_user_content (c : UserContent) : UserContent :=
  match c with UToolResult r => UToolResult (to_rig_tool_result r) | other => other end.
Definition to_rig_assistant_content (c : AssistantContent) : AssistantContent :=
  match c with AToolCall call => AToolCall (to_rig_tool_call call) | other => other end.
Definition to_rig_message (m : Message) : Message :=
  match m with
  | System content => System content
  | User content =>
      User match to_rig_user_content <$> content with [] => [UText (mkText [])] | c => c end
  | Assistant id content =>
      Assistant id
        match to_rig_assistant_content <$> content with [] => [AText (mkText [])] | c => c end
  end.
Definition to_rig_messages (messages : list Message) : list Message := to_rig_message <$> messages.

(** ** Closing a turn ([turn_threading.rs]) *)

Context (to_string : Json → str).

(** A call, its internal id and its bounded result. *)
Definition PendingResult : Type := (ToolCall * str * str)%type.
Definition result_of (p : PendingResult) : ToolResult :=
  let '(call, _, bounded_result) := p in
  mkToolResult (tc_id call) (tc_call_id call) (from_tool_output from_str to_string bounded_result).
Definition result_content_of (p : PendingResult) : UserContent :=
  let '(call, _, bounded_result) := p in
  let content := from_tool_output from_str to_string bounded_result in
  match tc_call_id call with
  | Some call_id => tool_result_with_call_id (tc_id call) call_id content
  | None => user_tool_result (tc_id call) content
  end.
Definition set_message_id (id : option str) (m : Message) : Message :=
  match m with Assistant _ content => Assistant id content | other => other end.
Definition push_assistant (new_messages : list Message) (a : AssistantTurnAccumulator)
    (message_id : option str) : list Message :=
  match fst (take_message a) with
  | Some m => new_messages ++ [set_message_id message_id m]
  | None => new_messages
  end.
(** The threaded messages, and the results to yield with their internal ids. *)
Definition close_streaming_turn (new_messages : list Message) (a : AssistantTurnAccumulator)
    (message_id : option str) (pending_results : list PendingResult)
    : list Message * list (ToolResult * str) :=
  (push_assistant new_messages a message_id
     ++ ((λ p, User [result_content_of p]) <$> pending_results),
   (λ p, (to_rig_tool_result (result_of p), snd (fst p))) <$> pending_results).
End seam.

(** ** The completion request *)

Inductive ToolChoice : Type := TC_Auto | TC_None | TC_Required | TC_Specific (function_names : list str).
Record ToolDefinition : Type := mkToolDefinition {
  td_name : str;
  td_description : str;
  td_parameters : Json }.
(** Everything of a request but its output ceiling. *)
Record RequestBody : Type := mkBody {
  rb_chat_history : list Message;
  rb_prompt : Message;
  rb_temperature : option f64;
  rb_additional_params : option Json;
  rb_output_schema : option Json;
  rb_tools : list ToolDefinition;
  rb_tool_choice : option ToolChoice }.
Definition LoopRequest : Type := CompletionRequest RequestBody.

Record StructuredOutputConfig : Type := mkStructured {
  so_schema : Json;
  so_validate : str → result str unit }.
(** Callbacks are flags: their answers come with the environment of a turn or of
    an attempt.  The gate is its request document and its obligations. *)
Record LoopConfig : Type := mkConfig {
  lc_preamble : option str;
  lc_context_message : option Message;
  lc_temperature : option f64;
  lc_max_tokens : option Z;
  lc_additional_params : option Json;
  lc_structured_output : option StructuredOutputConfig;
  lc_tool_choice : option ToolChoice;
  lc_on_rendered_request : bool;
  lc_turn_compactor : bool;
  lc_active_reduction_keys : list str;
  lc_reduction_chain_keys : list str;
  lc_initial_turn_index : Z;
  lc_context_window : Z;
  lc_compaction_threshold : f64;
  lc_retry_policy : CompletionRetryPolicy;
  lc_deadline : option Z;
  lc_max_turns : Z;
  lc_output_obligation_gate : option (str * list ActiveOutputObligation) }.
(** The tools of a request: their names and their definitions for a prompt text. *)
Record Toolbox : Type := mkToolbox {
  tb_names : list str;
  tb_definitions : str → list ToolDefinition }.

Definition build_request (from_str : str → option Json) (prompt : Message)
    (history prior : list Message) (tools : Toolbox) (config : LoopConfig) : LoopRequest :=
  let rag := current_rag_text prompt history prior in
  {| max_tokens := lc_max_tokens config;
     rest := mkBody
       (match lc_preamble config with Some preamble => [System preamble] | None => [] end
        ++ to_rig_messages from_str history ++ to_rig_messages from_str prior)
       (to_rig_message from_str prompt)
       (lc_temperature config) (lc_additional_params config)
       (so_schema <$> lc_structured_output config)
       (tb_definitions tools rag) (lc_tool_choice config) |}.

(** ** Failures of the loop *)

Inductive LoopFailure : Type :=
| LF_Streaming (e : StreamingError)
| LF_CannotFit
| LF_RepairRemovedPrompt
| LF_MaxTurns (max_turns : Z) (chat_history : list Message) (prompt : Message)
| LF_PromptCancelled (chat_history : list Message) (reason : str).
Definition provider_failure (message : str) : LoopFailure :=
  LF_Streaming (SE_Completion (ProviderError message)).
Definition lift_streaming {A} (r : result StreamingError A) : result LoopFailure A :=
  match r with Ok a => Ok a | Err e => Err (LF_Streaming e) end.

(** ** Traces ([rendered_request.rs]) *)

Inductive AssemblyBuildPath : Type := BP_Budgeted | BP_Repair.
Inductive ContextCompactionReason : Type :=
| CR_BelowThreshold | CR_Compacted | CR_ProviderViewRepaired | CR_CompactorUnavailable.
Record ContextInputComponents : Type := mkComponents {
  ci_messages : Z; ci_documents : Z; ci_tool_schemas : Z;
  ci_additional_parameters : Z; ci_output_schema : Z }.
Record ProviderInputProjection : Type := mkProjection {
  pp_components : ContextInputComponents;
  pp_estimated_input_tokens : Z;
  pp_estimator : str }.
Record ContextAccounting : Type := mkAccounting {
  ca_accounting_version : Z;
  ca_turn_index : Z;
  ca_attempt : Z;
  ca_estimator : str;
  ca_components : ContextInputComponents;
  ca_estimated_input_tokens : Z;
  ca_context_window : Z;
  ca_compaction_threshold_basis_points : Z;
  ca_compaction_threshold_tokens : Z;
  ca_configured_max_output_tokens : option Z;
  ca_effective_max_output_tokens : option Z;
  ca_compaction_reason : ContextCompactionReason;
  ca_pre_compaction_input_tokens : option Z }.
Definition CONTEXT_ACCOUNTING_VERSION : Z := 2.

Definition context_accounting_for_request
    (dispatch : PreparedDispatch RequestBody ProviderInputProjection) (config : LoopConfig)
    (turn_index attempt : Z) (compaction_reason : ContextCompactionReason)
    (pre_compaction_input_tokens : option Z) : ContextAccounting :=
  let request := pd_request dispatch in
  let projection := pd_projection dispatch in
  mkAccounting CONTEXT_ACCOUNTING_VERSION turn_index attempt (pp_estimator projection)
    (pp_components projection) (pp_estimated_input_tokens projection) (lc_context_window config)
    (threshold_basis_points (lc_compaction_threshold config))
    (threshold_budget (lc_context_window config) (lc_compaction_threshold config))
    (lc_max_tokens config) (max_tokens request) compaction_reason pre_compaction_input_tokens.

Record ThreadedToolResult : Type := mkThreaded {
  th_message_index : nat; th_tool_call_id : str; th_call_id : option str;
  th_content : list ToolResultContent }.
Record AssemblyTrace : Type := mkTrace {
  at_build_path : AssemblyBuildPath;
  at_effective_message_count : nat;
  at_effective_messages : option (list Message);
  at_assistant_message_ids : list (nat * str);
  at_threaded_tool_results : list ThreadedToolResult;
  at_reduction_keys : list str;
  at_context_accounting : option ContextAccounting }.

Definition message_ids_at (index : nat) (m : Message) : list (nat * str) :=
  match m with Assistant (Some id) _ => [(index, id)] | _ => [] end.
Definition threaded_at (index : nat) (m : Message) : list ThreadedToolResult :=
  match m with
  | User content =>
      omap (λ item, match item with
                    | UToolResult r => Some (mkThreaded index (tr_id r) (tr_call_id r) (tr_content r))
                    | _ => None
                    end) content
  | _ => []
  end.
Definition from_messages (build_path : AssemblyBuildPath) (effective_messages : list Message)
    (retain_effective_messages : bool) : AssemblyTrace :=
  mkTrace build_path (length effective_messages)
    (if retain_effective_messages then Some effective_messages else None)
    (concat (imap message_ids_at effective_messages))
    (concat (imap threaded_at effective_messages)) [] None.
Definition from_effective_messages (p : AssemblyBuildPath) (l : list Message) : AssemblyTrace :=
  from_messages p l true.
Definition from_reconstructible_messages (p : AssemblyBuildPath) (l : list Message) : AssemblyTrace :=
  from_messages p l false.
Definition with_reduction_keys (keys : list str) (t : AssemblyTrace) : AssemblyTrace :=
  mkTrace (at_build_path t) (at_effective_message_count t) (at_effective_messages t)
    (at_assistant_message_ids t) (at_threaded_tool_results t) keys (at_context_accounting t).
Definition with_context_accounting (a : ContextAccounting) (t : AssemblyTrace) : AssemblyTrace :=
  mkTrace (at_build_path t) (at_effective_message_count t) (at_effective_messages t)
    (at_assistant_message_ids t) (at_threaded_tool_results t) (at_reduction_keys t) (Some a).

(** ** Budgeted construction and repair *)

Record TurnCompactionRequest : Type := mkTurnCompaction {
  tcr_messages : list Message;
  tcr_admission : ReductionAdmission;
  tcr_turn_index : Z;
  tcr_prior_reduction_keys : list str }.
Inductive TurnCompactionOutcome : Type :=
| TCO_ProviderViewRepaired (messages : list Message)
| TCO_Reduced (messages : list Message) (reduction_key : str)
| TCO_CannotFit.
(** A compactor's error: its chain of causes and how the chain prints. *)
Record CompactorError : Type := mkCompactorError { ce_chain : list error_cause; ce_display : str }.
Definition compactor_failure (e : CompactorError) : LoopFailure :=
  match aggregate_token_budget_exhaustion_message (ce_chain e) with
  | Some reason => provider_failure reason
  | None => provider_failure (lit "per-turn provider-input compaction failed: " ++ ce_display e)
  end.

Record TurnContextDecision : Type := mkDecision {
  tcd_reason : ContextCompactionReason;
  tcd_pre_compaction_input_tokens : option Z }.

(** The messages of the loop, and its reduction keys. *)
Record Conversation : Type := mkConv {
  cv_history : list Message;
  cv_new_messages : list Message;
  cv_chain_keys : list str;
  cv_active_keys : list str }.
Definition effective_messages (c : Conversation) : list Message := cv_history c ++ cv_new_messages c.

(** [new_messages.last()] and what precedes it. *)
Definition split_prompt (new_messages : list Message) : option (list Message * Message) :=
  match rev new_messages with [] => None | prompt :: prior => Some (rev prior, prompt) end.

Section build.
Context (from_str : str → option Json).
Context (project_request : LoopRequest → result str ProviderInputProjection).

Definition completion_request_input_components (request : LoopRequest)
    : result StreamingError ProviderInputProjection := projection_failed (project_request request).

(** What a compaction leaves of the conversation. *)
Definition adopt_compaction (c : Conversation) (compacted : list Message) (reduction_key : option str)
    : option (Conversation * Message) :=
  match split_prompt compacted with
  | None => None
  | Some (history, prompt) =>
      Some (mkConv history [prompt]
              (match reduction_key with Some k => cv_chain_keys c ++ [k] | None => cv_chain_keys c end)
              (match reduction_key with Some k => [k] | None => cv_active_keys c end), prompt)
  end.

Definition rebuild_compacted (tools : Toolbox) (config : LoopConfig) (c : Conversation)
    (prompt : Message) (reason : ContextCompactionReason) (before_tokens : Z)
    : result LoopFailure (LoopRequest * TurnContextDecision) :=
  let rebuilt := build_request from_str prompt (cv_history c) [] tools config in
  let? projection := lift_streaming (completion_request_input_components rebuilt) in
  let after_tokens := pp_estimated_input_tokens projection in
  if can_dispatch after_tokens (lc_context_window config)
       (configured_output_ceiling (max_tokens rebuilt))
     && bool_decide (is_Some (admission_for_input after_tokens (lc_context_window config)
                                (lc_compaction_threshold config)))
  then Err LF_CannotFit
  else Ok (rebuilt, mkDecision reason (Some before_tokens)).

(** [None]: there is no prompt, which [expect] rules out.  The compactor answers
    for its request, and may charge the aggregate budget it shares. *)
Definition build_budgeted_request (compactor : TurnCompactionRequest →
      result CompactorError TurnCompactionOutcome)
    (tools : Toolbox) (config : LoopConfig) (turn_index : Z) (c : Conversation)
    : option (result LoopFailure (LoopRequest * TurnContextDecision) * Conversation) :=
  match split_prompt (cv_new_messages c) with
  | None => None
  | Some (prior, prompt) =>
      let request := build_request from_str prompt (cv_history c) prior tools config in
      Some
        match lift_streaming (completion_request_input_components request) with
        | Err e => (Err e, c)
        | Ok projection =>
            let before_tokens := pp_estimated_input_tokens projection in
            if negb (lc_turn_compactor config)
            then (Ok (request, mkDecision CR_CompactorUnavailable None), c)
            else
            match admission_for_input before_tokens (lc_context_window config)
                    (lc_compaction_threshold config) with
            | None => (Ok (request, mkDecision CR_BelowThreshold None), c)
            | Some admission =>
                let adopt messages key reason :=
                  match adopt_compaction c messages key with
                  | None => (Err (provider_failure
                      (lit "per-turn provider-input compaction returned no prompt")), c)
                  | Some (c', prompt) =>
                      (rebuild_compacted tools config c' prompt reason before_tokens, c')
                  end in
                match compactor (mkTurnCompaction (effective_messages c) admission turn_index
                                   (cv_chain_keys c)) with
                | Err e => (Err (compactor_failure e), c)
                | Ok (TCO_ProviderViewRepaired messages) => adopt messages None CR_ProviderViewRepaired
                | Ok (TCO_Reduced messages key) => adopt messages (Some key) CR_Compacted
                | Ok TCO_CannotFit => (Err LF_CannotFit, c)
                end
            end
        end
  end.

Definition repair_and_rebuild_request (tools : Toolbox) (config : LoopConfig) (c : Conversation)
    : result LoopFailure (LoopRequest * Conversation) :=
  match repair_provider_input from_str (cv_history c) (cv_new_messages c) with
  | None => Err LF_RepairRemovedPrompt
  | Some (history, new_messages) =>
      match split_prompt new_messages with
      | None => Err LF_RepairRemovedPrompt
      | Some (prior, prompt) =>
          Ok (build_request from_str prompt history prior tools config,
              mkConv history new_messages (cv_chain_keys c) (cv_active_keys c))
      end
  end.
End build.
