(* ===== verification/AgentLoop.v ===== *)
(** * The owned agent loop

    The multi-turn completion loop ([src/crates/gents/src/agent/loop_stream.rs]):
    request assembly, capture, dispatch, stream consumption with inline tool
    execution, retry, retraction, repair, threading of results and the conditions
    for a final answer.

    The loop is a function of its environment, given per turn and per attempt: what
    the capture sink, the provider, the hook, the tools, the compactor, the gate's
    query and the clock answer.  A provider stream is the finite list of its items.
    The trace of the run records what the loop yields, captures, sends and
    executes, in order.  Both loops carry fuel; [loop_fuel] is enough. *)

From S2P Require Import Prelude RustStr Float64 Errors TokenBudget RequestState Retry Truncation Messages History HistorySplit Compaction ToolArgs OutputObligation Denial ToolDispatch AgentTurn.
Open Scope Z_scope.

(** ** The environment *)

Inductive HookAction : Type := HA_Continue | HA_Terminate (reason : str).
Inductive ToolCallHookAction : Type :=
| TH_Continue | TH_Skip (reason : str) | TH_Terminate (reason : str).
(** Around one tool call: what the hook answers before and after it, the tool
    runtime scope, the clock, and the execution itself. *)
Record ToolEnv : Type := mkToolEnv {
  te_call_action : ToolCallHookAction;
  te_scope : option (option Z);
  te_now : Z;
  te_run : ToolRun;
  te_result_action : HookAction }.
Inductive StreamedAssistantContent : Type :=
| SC_Text (t : str)
| SC_Reasoning (r : Reasoning)
| SC_ReasoningDelta (id : option str) (reasoning : str)
| SC_ToolCall (call : ToolCall) (internal_call_id : str) (env : ToolEnv)
| SC_ToolCallDelta
| SC_Final (usage : option Usage).

Record AttemptEnv : Type := mkAttemptEnv {
  ae_capture : result str unit;
  ae_response : result CompletionError (list (result CompletionError StreamedAssistantContent));
  ae_message_id : option str;
  ae_armed : bool;
  ae_now : Z;
  ae_writes : result str (list CompletedWriteRow) }.
(** [ev_charge]: what the compactor's own provider calls leave of the budget. *)
Record TurnEnv : Type := mkTurnEnv {
  ev_compactor : TurnCompactionRequest → result CompactorError TurnCompactionOutcome;
  ev_charge : AggregateTokenBudget → AggregateTokenBudget;
  ev_on_completion : HookAction;
  ev_attempts : Z → AttemptEnv }.

(** ** What the loop does *)

Inductive LoopStreamItem : Type :=
| LI_Text (t : str)
| LI_Reasoning (r : Reasoning)
| LI_ReasoningDelta (id : option str) (reasoning : str)
| LI_ToolCall (call : ToolCall) (internal_call_id : str)
| LI_ToolResult (result : ToolResult) (internal_call_id : str)
| LI_Final (response : str) (usage : Usage)
| LI_TurnRetracted (turn attempt backoff : Z)
| LI_AttemptFailed (turn attempt : Z) (error : InferenceError) (will_retry : bool) (backoff : Z)
| LI_OutputObligationPending (reminder : Message).
Inductive Action : Type :=
| Yield (item : LoopStreamItem)
| Capture (turn attempt : Z) (request : LoopRequest) (trace : AssemblyTrace)
| Send (request : LoopRequest)
| Execute (internal_call_id : str) (outcome : ToolOutcome).

(** ** State *)

Record LoopState : Type := mkLoop {
  ls_conv : Conversation;
  ls_usage : Usage;
  ls_budget : option AggregateTokenBudget;
  ls_turn : Z;
  ls_retry : CompletionRetryState;
  ls_oracle : bool }.
Record TurnState : Type := mkTurn {
  ts_turn_index : Z;
  ts_attempt : Z;
  ts_request : LoopRequest;
  ts_build_path : AssemblyBuildPath;
  ts_decision : TurnContextDecision }.
(** The locals of one attempt's stream, with the usage and budget it updates. *)
Record StreamState : Type := mkStream {
  ss_acc : AssistantTurnAccumulator;
  ss_pending : list PendingResult;
  ss_text : str;
  ss_saw_item : bool;
  ss_saw_final : bool;
  ss_exhausted : bool;
  ss_usage_failure : option str;
  ss_usage : Usage;
  ss_budget : option AggregateTokenBudget }.

Definition set_conv (c : Conversation) (s : LoopState) : LoopState :=
  mkLoop c (ls_usage s) (ls_budget s) (ls_turn s) (ls_retry s) (ls_oracle s).
Definition set_retry (r : CompletionRetryState) (s : LoopState) : LoopState :=
  mkLoop (ls_conv s) (ls_usage s) (ls_budget s) (ls_turn s) r (ls_oracle s).
Definition set_oracle (s : LoopState) : LoopState :=
  mkLoop (ls_conv s) (ls_usage s) (ls_budget s) (ls_turn s) (ls_retry s) true.
Definition set_messages (new_messages : list Message) (s : LoopState) : LoopState :=
  set_conv (mkConv (cv_history (ls_conv s)) new_messages (cv_chain_keys (ls_conv s))
              (cv_active_keys (ls_conv s))) s.
(** The usage and the budget after a stream. *)
Definition adopt_stream (ss : StreamState) (s : LoopState) : LoopState :=
  mkLoop (ls_conv s) (ss_usage ss) (ss_budget ss) (ls_turn s) (ls_retry s) (ls_oracle s).
Definition initial_stream (s : LoopState) : StreamState :=
  mkStream default_accumulator [] [] false false false None (ls_usage s) (ls_budget s).

(** What follows an attempt: another one of the turn, another turn, or the end.
    [N_Panic] stands for the [unreachable!] and [expect] of the source. *)
Inductive Next : Type :=
| N_Attempt (request : LoopRequest) (build_path : AssemblyBuildPath)
| N_Turn
| N_Done
| N_Fail (failure : LoopFailure)
| N_Panic.

Section agent_loop.
(** [serde_json] reading and printing, integers of JSON numbers and the reading of
    durable arguments. *)
Context (from_str : str → option Json) (to_string : Json → str).
Context (as_u64 : str → option Z) (from_str_args : str → result str Json).
Context (display_obligation_error : ObligationError → str).
(** [rig]'s [Display], the random draw and the deadline text of the retry ledger. *)
Context (completion_display : CompletionError → str) (streaming_display : StreamingError → str).
Context (draw : Z → Z) (deadline_reason : Z → option Z → str).
(** The provider-input counter. *)
Context (estimate_request : LoopRequest → result str Z).
Context (project_request : LoopRequest → result str ProviderInputProjection).
(** The request: its configuration, its tools and whether it has a hook. *)
Context (config : LoopConfig) (tools : Toolbox) (has_hook : bool).

Definition terminal_pre_stream_retry_reason (classified : InferenceError) (attempt : Z) (reason : str)
    : str :=
  if negb (is_retryable classified) then reason
  else lit "completion retry budget exhausted after " ++ fmt_Z (attempt + 1) ++ lit " attempts: "
       ++ reason ++ lit "; last error: " ++ inference_error_display classified.

Definition not_captured (turn_index attempt : Z) : LoopFailure :=
  provider_failure (lit "provider response for turn " ++ fmt_Z turn_index ++ lit " attempt "
    ++ fmt_Z attempt ++ lit " arrived without a durable rendered-request capture; the completion client is missing its capturing transport").

Definition cancelled (s : LoopState) (reason : str) : LoopFailure :=
  LF_PromptCancelled (to_rig_messages from_str (error_chat_history (cv_history (ls_conv s))
                                                  (cv_new_messages (ls_conv s)))) reason.

(** ** One item of the stream *)

Definition budget_missing (what : str) (l : AggregateTokenLedger) : str :=
  lit "aggregate_token_usage_missing: limit=" ++ fmt_Z (limit l) ++ lit ", used=" ++ fmt_Z (used l)
  ++ lit "; " ++ what.

(** Run the hook around the call and the tool; [Err] ends the request. *)
Definition execute_call (s : LoopState) (call : ToolCall) (internal_call_id : str) (env : ToolEnv)
    : list Action * result LoopFailure str :=
  let tool_name := tf_name (tc_function call) in
  match (if has_hook then te_call_action env else TH_Continue) with
  | TH_Terminate reason => ([], Err (cancelled s reason))
  | TH_Skip reason => ([], Ok reason)
  | TH_Continue =>
      let outcome := dispatch_tool from_str (tb_names tools) tool_name (te_scope env) (te_now env)
                       (te_run env) in
      ([Execute internal_call_id outcome],
       match (if has_hook then te_result_action env else HA_Continue) with
       | HA_Terminate reason => Err (cancelled s reason)
       | HA_Continue =>
           Ok (fst (fst (truncate_text (model_facing_text outcome)
                           (tool_result_truncation_mode tool_name) default_limits)))
       end)
  end.

Definition final_item (usage : option Usage) (ss : StreamState) : result LoopFailure StreamState :=
  let aggregated := match usage with
                    | Some usage => add_usage_saturating (ss_usage ss) usage
                    | None => ss_usage ss
                    end in
  let with_charge exhausted failure budget :=
    mkStream (ss_acc ss) (ss_pending ss) (ss_text ss) (ss_saw_item ss) true exhausted failure
      aggregated budget in
  match ss_budget ss with
  | None => Ok (with_charge (ss_exhausted ss) (ss_usage_failure ss) None)
  | Some budget =>
      match budget_charge_reported usage budget with
      | (Err e, _) => Err (LF_Streaming e)
      | (Ok (charge, ledger), budget) =>
          Ok match charge with
             | Missing =>
                 with_charge (ss_exhausted ss)
                   (Some (budget_missing (lit "provider completed without a non-zero usage report") ledger))
                   (Some budget)
             | Within => with_charge (ss_exhausted ss) (ss_usage_failure ss) (Some budget)
             | Exhausted => with_charge true (ss_usage_failure ss) (Some budget)
             | Overrun =>
                 with_charge (ss_exhausted ss)
                   (Some (lit "aggregate_token_budget_overrun: limit=" ++ fmt_Z (limit ledger)
                          ++ lit ", observed_used=" ++ fmt_Z (used ledger)))
                   (Some budget)
             end
      end
  end.

Definition set_acc (f : AssistantTurnAccumulator → AssistantTurnAccumulator) (ss : StreamState)
    : StreamState :=
  mkStream (f (ss_acc ss)) (ss_pending ss) (ss_text ss) (ss_saw_item ss) (ss_saw_final ss)
    (ss_exhausted ss) (ss_usage_failure ss) (ss_usage ss) (ss_budget ss).
Definition append_turn_text (t : str) (ss : StreamState) : StreamState :=
  mkStream (ss_acc ss) (ss_pending ss) (ss_text ss ++ t) (ss_saw_item ss) (ss_saw_final ss)
    (ss_exhausted ss) (ss_usage_failure ss) (ss_usage ss) (ss_budget ss).
Definition push_pending (p : PendingResult) (ss : StreamState) : StreamState :=
  mkStream (ss_acc ss) (ss_pending ss ++ [p]) (ss_text ss) (ss_saw_item ss) (ss_saw_final ss)
    (ss_exhausted ss) (ss_usage_failure ss) (ss_usage ss) (ss_budget ss).
Definition see_item (ss : StreamState) : StreamState :=
  mkStream (ss_acc ss) (ss_pending ss) (ss_text ss) true (ss_saw_final ss)
    (ss_exhausted ss) (ss_usage_failure ss) (ss_usage ss) (ss_budget ss).

Definition on_item (s : LoopState) (item : StreamedAssistantContent) (ss : StreamState)
    : list Action * result LoopFailure StreamState :=
  match item with
  | SC_Text t => ([Yield (LI_Text t)], Ok (set_acc (push_text t) (append_turn_text t ss)))
  | SC_Reasoning r => ([Yield (LI_Reasoning r)], Ok (set_acc (push_reasoning r) ss))
  | SC_ReasoningDelta id reasoning =>
      ([Yield (LI_ReasoningDelta id reasoning)], Ok (set_acc (push_reasoning_delta id reasoning) ss))
  | SC_ToolCall call internal_call_id env =>
      let ss := set_acc (push_tool_call (from_rig_tool_call from_str call)) ss in
      let '(executed, result) := execute_call s call internal_call_id env in
      (Yield (LI_ToolCall call internal_call_id) :: executed,
       match result with
       | Err failure => Err failure
       | Ok bounded_result =>
           Ok (push_pending (from_rig_tool_call from_str call, internal_call_id, bounded_result) ss)
       end)
  | SC_ToolCallDelta => ([], Ok ss)
  | SC_Final usage => ([], final_item usage ss)
  end.

(** ** The stream of one attempt *)

(** How a stream ends: at its end, on a provider error, or by a failure of the
    loop itself. *)
Inductive StreamEnd : Type :=
| Eof (ss : StreamState)
| Broken (error : CompletionError) (ss : StreamState)
| Aborted (failure : LoopFailure).

Fixpoint consume_stream (s : LoopState) (turn_index attempt : Z) (armed : bool)
    (items : list (result CompletionError StreamedAssistantContent)) (ss : StreamState)
    : list Action * StreamEnd :=
  match items with
  | [] => ([], Eof ss)
  | Err error :: _ => ([], Broken error ss)
  | Ok item :: rest =>
      if negb (ss_saw_item ss) && armed then ([], Aborted (not_captured turn_index attempt))
      else
        match on_item s item (see_item ss) with
        | (actions, Err failure) => (actions, Aborted failure)
        | (actions, Ok ss') =>
            let '(later, ending) := consume_stream s turn_index attempt armed rest ss' in
            (actions ++ later, ending)
        end
  end.

(** ** Failures *)

Definition attempt_failed (t : TurnState) (classified : InferenceError) (will_retry : bool)
    (backoff : Z) : Action :=
  Yield (LI_AttemptFailed (ts_turn_index t) (ts_attempt t) classified will_retry backoff).

Definition pre_stream_failure (error : CompletionError) (now : Z) (t : TurnState) (s : LoopState)
    : list Action * LoopState * Next :=
  let streaming_error := SE_Completion error in
  let classified := classify_completion_error completion_display streaming_display streaming_error in
  let error_text := streaming_display streaming_error in
  match on_pre_stream_failure draw deadline_reason classified error_text now (lc_deadline config)
          (ls_retry s) with
  | (RetryAfter delay _, retry) =>
      ([attempt_failed t classified true delay], set_retry retry s,
       N_Attempt (ts_request t) (ts_build_path t))
  | (Repair, retry) =>
      let s := set_retry (mark_repair_used retry) s in
      ([attempt_failed t classified true 0],
       match repair_and_rebuild_request from_str tools config (ls_conv s) with
       | Err _ => s
       | Ok (_, conv) => set_oracle (set_conv conv s)
       end,
       match repair_and_rebuild_request from_str tools config (ls_conv s) with
       | Err failure => N_Fail failure
       | Ok (request, _) => N_Attempt request BP_Repair
       end)
  | (PreFail reason, retry) =>
      ([attempt_failed t classified false 0], set_retry retry s,
       N_Fail (provider_failure (terminal_pre_stream_retry_reason classified (ts_attempt t) reason)))
  end.

(** No tool effect happened: discard what was streamed and sample again. *)
Definition retract (now : Z) (t : TurnState) (s : LoopState) (failure : str → LoopFailure)
    : list Action * LoopState * Next :=
  match on_mid_stream_failure draw deadline_reason false now (lc_deadline config) (ls_retry s) with
  | (RetractAndResample delay, retry) =>
      ([Yield (LI_TurnRetracted (ts_turn_index t) (ts_attempt t) delay)], set_retry retry s,
       N_Attempt (ts_request t) (ts_build_path t))
  | (CloseAndContinue _, retry) => ([], set_retry retry s, N_Panic)
  | (MidFail reason, retry) => ([], set_retry retry s, N_Fail (failure reason))
  end.

(** Thread the turn and yield its results. *)
Definition close_turn (env : AttemptEnv) (ss : StreamState) (s : LoopState)
    : list Action * LoopState :=
  let '(new_messages, results) :=
    close_streaming_turn from_str to_string (cv_new_messages (ls_conv s)) (ss_acc ss)
      (ae_message_id env) (ss_pending ss) in
  ((λ '(r, internal_call_id), Yield (LI_ToolResult r internal_call_id)) <$> results,
   set_messages new_messages s).

(** The budget's snapshot in a failure text. *)
Definition with_snapshot (budget : AggregateTokenBudget) (k : AggregateTokenLedger → LoopFailure)
    : LoopFailure :=
  match budget_snapshot budget with Ok l => k l | Err e => LF_Streaming e end.

Definition broken_stream (env : AttemptEnv) (error : CompletionError) (t : TurnState)
    (ss : StreamState) (s : LoopState) : list Action * LoopState * Next :=
  let classified := classify_completion_error completion_display streaming_display
                      (SE_Completion error) in
  match ss_pending ss with
  | [] =>
      if negb (ss_saw_item ss) then pre_stream_failure error (ae_now env) t s
      else match ss_budget ss with
           | Some budget =>
               ([], s, N_Fail (with_snapshot budget (λ l, provider_failure (budget_missing
                  (lit "provider stream failed after emitting content without a final usage event") l))))
           | None =>
               retract (ae_now env) t s (λ reason, provider_failure
                 (terminal_pre_stream_retry_reason classified (ts_attempt t) reason))
           end
  | _ =>
      match ss_budget ss with
      | Some budget =>
          let '(results, s) := close_turn env ss s in
          (results, s, N_Fail (with_snapshot budget (λ l, provider_failure (budget_missing
             (lit "provider stream failed after tool effects without a final usage event") l))))
      | None =>
          match on_mid_stream_failure draw deadline_reason true (ae_now env) (lc_deadline config)
                  (ls_retry s) with
          | (CloseAndContinue delay, retry) =>
              let '(results, s) := close_turn env ss (set_retry retry s) in
              (results ++ [attempt_failed t classified true delay], s, N_Turn)
          | (RetractAndResample _, retry) => ([], set_retry retry s, N_Panic)
          | (MidFail reason, retry) =>
              ([], set_retry retry s, N_Fail (provider_failure
                (terminal_pre_stream_retry_reason classified (ts_attempt t) reason)))
          end
      end
  end.

(** ** The end of a stream *)

Definition structured_output_error (ss : StreamState) : option str :=
  match ss_pending ss, lc_structured_output config with
  | [], Some output => match so_validate output (ss_text ss) with Err e => Some e | Ok _ => None end
  | _, _ => None
  end.
Definition close_and_fail (env : AttemptEnv) (ss : StreamState) (s : LoopState)
    (failure : LoopFailure) : list Action * LoopState * Next :=
  let '(results, s) := close_turn env ss s in (results, s, N_Fail failure).

Definition exhausted_after_call (structured_error : option str) (l : AggregateTokenLedger)
    : LoopFailure :=
  provider_failure (AGGREGATE_TOKEN_BUDGET_EXHAUSTED_PREFIX ++ lit "limit=" ++ fmt_Z (limit l)
    ++ lit ", used=" ++ fmt_Z (used l) ++ lit " after provider call"
    ++ match structured_error with
       | Some error => lit "; terminal output did not satisfy the structured contract: " ++ error
       | None => []
       end).

(** The gate, and the final answer. *)
Definition propose_final (env : AttemptEnv) (ss : StreamState) (s : LoopState)
    : list Action * LoopState * Next :=
  let final := ([Yield (LI_Final (ss_text ss) (ss_usage ss))], s, N_Done) in
  match lc_output_obligation_gate config with
  | None => final
  | Some (request_doc_id, obligations) =>
      match unmet as_u64 from_str_args request_doc_id obligations (ae_writes env) with
      | Err error => ([], s, N_Fail (provider_failure
          (lit "checking output obligations failed: " ++ display_obligation_error error)))
      | Ok [] => final
      | Ok unmet =>
          let reminder := message_user (continuation_message unmet) in
          ([Yield (LI_OutputObligationPending reminder)],
           set_messages (push_assistant (cv_new_messages (ls_conv s)) (ss_acc ss)
                           (ae_message_id env) ++ [reminder]) s,
           N_Turn)
      end
  end.

Definition ended_stream (env : AttemptEnv) (t : TurnState) (ss : StreamState) (s : LoopState)
    : list Action * LoopState * Next :=
  if negb (ss_saw_item ss) && ae_armed env
  then ([], s, N_Fail (not_captured (ts_turn_index t) (ts_attempt t)))
  else
  match (match ss_budget ss with
         | Some budget =>
             if ss_saw_final ss then Ok (ss_usage_failure ss)
             else match budget_snapshot budget with
                  | Err e => Err (LF_Streaming e)
                  | Ok l => Ok (Some (budget_missing
                      (lit "provider stream ended without a final usage event") l))
                  end
         | None => Ok (ss_usage_failure ss)
         end) with
  | Err failure => ([], s, N_Fail failure)
  | Ok (Some reason) => close_and_fail env ss s (provider_failure reason)
  | Ok None =>
  if provider_eof_is_failure (ss_saw_final ss)
  then close_and_fail env ss s (provider_failure
         (lit "provider stream ended without an explicit terminal response"))
  else
  let structured_error := structured_output_error ss in
  let no_effects := match ss_pending ss with [] => true | _ => false end in
  let blank := is_empty (trim (ss_text ss)) in
  let terminal_valid := no_effects && negb blank && negb (bool_decide (is_Some structured_error)) in
  if ss_exhausted ss && (match aggregate_post_charge_action Exhausted terminal_valid with
                         | Fail => true | _ => false end)
  then
    match ss_budget ss with
    | None => ([], s, N_Panic)
    | Some budget => close_and_fail env ss s (with_snapshot budget (exhausted_after_call structured_error))
    end
  else if no_effects && blank
  then retract (ae_now env) t s (λ reason, provider_failure
         (lit "completion produced no visible output: " ++ reason
          ++ lit "; raw_output_preview=" ++ [34; 34]
          ++ lit "; finish_metadata=unavailable_at_rig_streaming_boundary"))
  else match structured_error with
  | Some error => retract (ae_now env) t s (λ reason, provider_failure
         (lit "structured-output validation failed: " ++ error ++ lit "; " ++ reason))
  | None =>
      if no_effects then propose_final env ss s
      else let '(results, s) := close_turn env ss s in (results, s, N_Turn)
  end
  end.

(** ** One attempt *)

Definition assembly_trace (t : TurnState) (s : LoopState)
    (prepared : PreparedDispatch RequestBody ProviderInputProjection) : AssemblyTrace :=
  with_context_accounting
    (context_accounting_for_request prepared config (ts_turn_index t) (ts_attempt t)
       (tcd_reason (ts_decision t)) (tcd_pre_compaction_input_tokens (ts_decision t)))
    (with_reduction_keys (cv_active_keys (ls_conv s))
       ((if ls_oracle s then from_effective_messages else from_reconstructible_messages)
          (ts_build_path t) (effective_messages (ls_conv s)))).

Definition prepend (actions : list Action) (r : list Action * LoopState * Next)
    : list Action * LoopState * Next :=
  let '(later, s, next) := r in (actions ++ later, s, next).

Definition run_loop_attempt (env : AttemptEnv) (t : TurnState) (s : LoopState)
    : list Action * LoopState * Next :=
  match prepare_dispatch_attempt estimate_request project_request (ts_request t)
          (lc_context_window config) (ls_budget s) with
  | Err e => ([], s, N_Fail (LF_Streaming e))
  | Ok prepared =>
      let request := pd_request prepared in
      let captured :=
        if lc_on_rendered_request config
        then [Capture (ts_turn_index t) (ts_attempt t) request (assembly_trace t s prepared)] else [] in
      match (if lc_on_rendered_request config then ae_capture env else Ok tt) with
      | Err error => (captured, s, N_Fail (provider_failure
          (lit "capturing rendered completion request failed: " ++ error)))
      | Ok _ =>
          let sent := captured ++ [Send request] in
          match ae_response env with
          | Err error => prepend sent (pre_stream_failure error (ae_now env) t s)
          | Ok items =>
              let '(streamed, ending) := consume_stream s (ts_turn_index t) (ts_attempt t)
                                           (ae_armed env) items (initial_stream s) in
              prepend (sent ++ streamed)
                match ending with
                | Aborted failure => ([], s, N_Fail failure)
                | Broken error ss => broken_stream env error t ss (adopt_stream ss s)
                | Eof ss => ended_stream env t ss (adopt_stream ss s)
                end
          end
      end
  end.

(** ** Attempts and turns *)

Inductive LoopOutcome : Type :=
| LO_NextTurn
| LO_Done
| LO_Fail (failure : LoopFailure)
| LO_Panic
| LO_OutOfFuel.

Fixpoint run_attempts (fuel : nat) (envs : Z → AttemptEnv) (t : TurnState) (s : LoopState)
    : list Action * LoopState * LoopOutcome :=
  match fuel with
  | O => ([], s, LO_OutOfFuel)
  | S fuel =>
      let '(actions, s', next) := run_loop_attempt (envs (ts_attempt t)) t s in
      match next with
      | N_Attempt request build_path =>
          let '(later, s'', outcome) :=
            run_attempts fuel envs (mkTurn (ts_turn_index t) (ts_attempt t + 1) request build_path
                                      (ts_decision t)) s' in
          (actions ++ later, s'', outcome)
      | N_Turn => (actions, s', LO_NextTurn)
      | N_Done => (actions, s', LO_Done)
      | N_Fail failure => (actions, s', LO_Fail failure)
      | N_Panic => (actions, s', LO_Panic)
      end
  end.

Definition max_turns_failure (s : LoopState) : LoopOutcome :=
  match split_prompt (cv_new_messages (ls_conv s)) with
  | None => LO_Panic
  | Some (prior, prompt) =>
      LO_Fail (LF_MaxTurns (lc_max_turns config)
        (to_rig_messages from_str (error_chat_history (cv_history (ls_conv s)) prior))
        (to_rig_message from_str prompt))
  end.

(** The state a turn starts its attempts in. *)
Definition enter_turn (env : TurnEnv) (decision : TurnContextDecision) (conv : Conversation)
    (s : LoopState) : LoopState :=
  mkLoop conv (ls_usage s) (ev_charge env <$> ls_budget s) (ls_turn s + 1) (ls_retry s)
    (ls_oracle s || match tcd_reason decision with
                    | CR_Compacted | CR_ProviderViewRepaired => true | _ => false end).

Definition run_turn (fuel : nat) (env : TurnEnv) (s : LoopState)
    : list Action * LoopState * LoopOutcome :=
  if lc_max_turns config + 1 <? ls_turn s then ([], s, max_turns_failure s)
  else
    match build_budgeted_request from_str project_request (ev_compactor env) tools config (ls_turn s)
            (ls_conv s) with
    | None => ([], s, LO_Panic)
    | Some (Err failure, conv) => ([], set_conv conv s, LO_Fail failure)
    | Some (Ok (request, decision), conv) =>
        let turn_index := ls_turn s in
        let s := enter_turn env decision conv s in
        match (if has_hook then ev_on_completion env else HA_Continue) with
        | HA_Terminate reason => ([], s, LO_Fail (cancelled s reason))
        | HA_Continue =>
            run_attempts fuel (ev_attempts env) (mkTurn turn_index 0 request BP_Budgeted decision) s
        end
    end.

Fixpoint run_turns (fuel attempt_fuel : nat) (envs : Z → TurnEnv) (s : LoopState)
    : list Action * LoopState * LoopOutcome :=
  match fuel with
  | O => ([], s, LO_OutOfFuel)
  | S fuel =>
      let '(actions, s', outcome) := run_turn attempt_fuel (envs (ls_turn s)) s in
      match outcome with
      | LO_NextTurn =>
          let '(later, s'', outcome) := run_turns fuel attempt_fuel envs s' in
          (actions ++ later, s'', outcome)
      | _ => (actions, s', outcome)
      end
  end.

(** ** The entry *)

Definition usage_zero : Usage :=
  {| input_tokens := 0; output_tokens := 0; total_tokens := 0; cached_input_tokens := 0;
     cache_creation_input_tokens := 0 |}.
Definition entry_state (prompt : Message) (history : list Message) (budget : option AggregateTokenBudget)
    : option LoopState :=
  match split_prompt (sanitize_history_for_provider (history ++ [prompt])) with
  | None => None
  | Some (history, prompt) =>
      Some (mkLoop
        (mkConv (List.filter (λ m, negb (is_request_context_message m)) history)
           (assemble_new_messages (lc_context_message config) prompt)
           (lc_reduction_chain_keys config) (lc_active_reduction_keys config))
        usage_zero budget (lc_initial_turn_index config) (new_retry_state (lc_retry_policy config))
        (bool_decide (is_Some (lc_context_message config))
         || bool_decide (lc_active_reduction_keys config ≠ [])))
  end.

(** One more turn than the limit lets start, and one more attempt than retries. *)
Definition turn_fuel : nat := S (Z.to_nat (lc_max_turns config + 2 - lc_initial_turn_index config)).
Definition attempt_fuel : nat := S (retry_budget_left (new_retry_state (lc_retry_policy config))).

Definition run_loop_stream (envs : Z → TurnEnv) (prompt : Message) (history : list Message)
    (budget : option AggregateTokenBudget) : list Action * LoopOutcome :=
  match entry_state prompt history budget with
  | None => ([], LO_Fail (provider_failure
      (lit "provider-bound loop entry has no prompt after sanitization")))
  | Some s =>
      let '(actions, _, outcome) := run_turns turn_fuel attempt_fuel envs s in (actions, outcome)
  end.
End agent_loop.
