(* ===== verification/AgentLoopRuns.v ===== *)
(** * Runs of the agent loop end

    Rules for reasoning about the traces of [AgentLoop], and termination: the
    loop ends within its turn limit and its retry budget, and never reaches a
    state the source calls unreachable. *)

From S2P Require Import Prelude RustStr Float64 Errors TokenBudget RequestState Retry Truncation Messages History HistorySplit Compaction ToolArgs OutputObligation Denial ToolDispatch AgentTurn AgentLoop.
Open Scope Z_scope.

(** ** Retry decisions of the ledger *)

Lemma pre_stream_continues draw dr error text now deadline s d s' :
  on_pre_stream_failure draw dr error text now deadline s = (d, s') ->
  match d with
  | RetryAfter _ _ => retry_budget_left s = S (retry_budget_left s')
  | Repair => retry_budget_left s = S (retry_budget_left (mark_repair_used s'))
  | PreFail _ => s' = s
  end.
Proof.
  intros H. pose proof (react_consumes draw dr (PreStreamFailed error text now deadline) s) as Hr.
  cbn [react] in Hr. rewrite H in Hr. destruct d; [by apply Hr|by apply Hr|].
  unfold on_pre_stream_failure in H. repeat case_match; simplify_eq; done.
Qed.

Lemma mid_stream_continues draw dr effects now deadline s d s' :
  on_mid_stream_failure draw dr effects now deadline s = (d, s') ->
  match d with
  | RetractAndResample _ => effects = false ∧ retry_budget_left s = S (retry_budget_left s')
  | CloseAndContinue _ => effects = true ∧ retry_budget_left s = S (retry_budget_left s')
  | MidFail _ => s' = s
  end.
Proof.
  intros H. pose proof (react_consumes draw dr (MidStreamFailed effects now deadline) s) as Hr.
  cbn [react] in Hr. rewrite H in Hr. unfold on_mid_stream_failure in H.
  destruct (ladder_delay _ _); [|by simplify_eq]. destruct (exceeds_deadline _ _ _); [by simplify_eq|].
  destruct effects; simplify_eq; split; try done; by apply Hr.
Qed.

(** ** Rules for attempts and turns *)

Section rules.
Context (from_str : str → option Json) (to_string : Json → str).
Context (as_u64 : str → option Z) (from_str_args : str → result str Json).
Context (display_obligation_error : ObligationError → str).
Context (completion_display : CompletionError → str) (streaming_display : StreamingError → str).
Context (draw : Z → Z) (deadline_reason : Z → option Z → str).
Context (estimate_request : LoopRequest → result str Z).
Context (project_request : LoopRequest → result str ProviderInputProjection).
Context (config : LoopConfig) (tools : Toolbox) (has_hook : bool).

Local Abbreviation attempt := (run_loop_attempt from_str to_string as_u64 from_str_args
  display_obligation_error completion_display streaming_display draw deadline_reason
  estimate_request project_request config tools has_hook).
Local Abbreviation attempts := (run_attempts from_str to_string as_u64 from_str_args
  display_obligation_error completion_display streaming_display draw deadline_reason
  estimate_request project_request config tools has_hook).
Local Abbreviation turn := (run_turn from_str to_string as_u64 from_str_args
  display_obligation_error completion_display streaming_display draw deadline_reason
  estimate_request project_request config tools has_hook).
Local Abbreviation turns := (run_turns from_str to_string as_u64 from_str_args
  display_obligation_error completion_display streaming_display draw deadline_reason
  estimate_request project_request config tools has_hook).

(** [A] holds of what an attempt does before another one follows, [E] of a
    trace with its end; [J] relates the turn and the loop before an attempt. *)
Lemma run_attempts_rule (Q : AttemptEnv → Prop) (J : TurnState → LoopState → Prop)
    (A : list Action → Prop) (E : list Action → LoopState → LoopOutcome → Prop) :
  (∀ a b s o, A a -> E b s o -> E (a ++ b) s o) ->
  (∀ s, E [] s LO_OutOfFuel) ->
  (∀ env t s acts s' next, Q env -> J t s -> attempt env t s = (acts, s', next) ->
    match next with
    | N_Attempt r p => A acts ∧
        J (mkTurn (ts_turn_index t) (ts_attempt t + 1) r p (ts_decision t)) s'
    | N_Turn => E acts s' LO_NextTurn
    | N_Done => E acts s' LO_Done
    | N_Fail f => E acts s' (LO_Fail f)
    | N_Panic => E acts s' LO_Panic
    end) ->
  ∀ fuel envs t s acts s' o, (∀ n, Q (envs n)) -> J t s ->
  attempts fuel envs t s = (acts, s', o) -> E acts s' o.
Proof.
  intros Happ H0 Hstep fuel. induction fuel as [|fuel IH]; intros envs t s acts s' o HQ HJ.
  { intros [= <- <- <-]. apply H0. }
  cbn [run_attempts]. destruct (attempt _ t s) as [[acts1 s1] next] eqn:E1.
  specialize (Hstep _ _ _ _ _ _ (HQ _) HJ E1).
  destruct next as [r p| | |f|]; try (intros [= <- <- <-]; exact Hstep).
  destruct Hstep as [HA HJ'].
  destruct (attempts fuel envs _ s1) as [[acts2 s2] o2] eqn:E2. intros [= <- <- <-].
  apply Happ; [done|]. exact (IH envs _ s1 acts2 s2 o2 HQ HJ' E2).
Qed.

Lemma run_turns_rule (Q : TurnEnv → Prop) (I : LoopState → Prop)
    (A : list Action → Prop) (E : list Action → LoopState → LoopOutcome → Prop) attempt_fuel :
  (∀ a b s o, A a -> E b s o -> E (a ++ b) s o) ->
  (∀ s, E [] s LO_OutOfFuel) ->
  (∀ env s acts s' o, Q env -> I s -> turn attempt_fuel env s = (acts, s', o) ->
    match o with
    | LO_NextTurn => A acts ∧ I s'
    | o => E acts s' o
    end) ->
  ∀ fuel envs s acts s' o, (∀ n, Q (envs n)) -> I s ->
  turns fuel attempt_fuel envs s = (acts, s', o) -> E acts s' o.
Proof.
  intros Happ H0 Hstep fuel. induction fuel as [|fuel IH]; intros envs s acts s' o HQ HI.
  { intros [= <- <- <-]. apply H0. }
  cbn [run_turns]. destruct (turn attempt_fuel _ s) as [[acts1 s1] o1] eqn:E1.
  specialize (Hstep _ _ _ _ _ (HQ _) HI E1).
  destruct o1; try (intros [= <- <- <-]; exact Hstep).
  destruct Hstep as [HA HI'].
  destruct (turns fuel attempt_fuel envs s1) as [[acts2 s2] o2] eqn:E2. intros [= <- <- <-].
  apply Happ; [done|]. exact (IH envs s1 acts2 s2 o2 HQ HI' E2).
Qed.

(** ** What one attempt leaves *)

Local Abbreviation stream := (consume_stream from_str tools has_hook).
Local Abbreviation left_of := (λ s, retry_budget_left (ls_retry s)).

Definition sends (acts : list Action) : list LoopRequest :=
  omap (λ a, match a with Send r => Some r | _ => None end) acts.
Lemma sends_app a b : sends (a ++ b) = sends a ++ sends b.
Proof. apply omap_app. Qed.

(** The exhaustion flag is set by a budget only. *)
Definition stream_ok (ss : StreamState) : Prop := ss_exhausted ss = true -> ss_budget ss ≠ None.

Lemma final_item_ok usage ss ss' : stream_ok ss -> final_item usage ss = Ok ss' -> stream_ok ss'.
Proof.
  unfold final_item, stream_ok. intros Hs. destruct (ss_budget ss) as [b|]; [|by intros [= <-]].
  destruct (budget_charge_reported usage b) as [[[charge l]|e] b']; [|done].
  destruct charge; intros [= <-]; done.
Qed.

Lemma on_item_ok s item ss acts r : on_item from_str tools has_hook s item ss = (acts, r) ->
  sends acts = [] ∧ (stream_ok ss -> ∀ ss', r = Ok ss' -> stream_ok ss').
Proof.
  destruct item as [t|r0|id t|call iid env| |usage]; cbn [on_item];
    try (intros [= <- <-]; split; [done|]; intros Hs ss' [= <-]; exact Hs).
  - unfold execute_call. destruct (if has_hook then te_call_action env else TH_Continue);
      intros [= <- <-]; (split; [done|]); intros Hs ss' H; try discriminate H.
    + destruct (if has_hook then te_result_action env else HA_Continue); [|discriminate H].
      injection H as <-. exact Hs.
    + injection H as <-. exact Hs.
  - intros [= <- <-]. split; [done|]. intros Hs ss' H. by eapply final_item_ok.
Qed.

Lemma consume_stream_ok s ti at_ armed items : ∀ ss acts e,
  stream s ti at_ armed items ss = (acts, e) ->
  sends acts = [] ∧ (stream_ok ss ->
    match e with Eof ss' | Broken _ ss' => stream_ok ss' | Aborted _ => True end).
Proof.
  induction items as [|[item|error] rest IH]; intros ss acts e; cbn [consume_stream].
  - intros [= <- <-]. by split.
  - destruct (negb _ && armed); [by intros [= <- <-]|].
    destruct (on_item _ _ _ s item (see_item ss)) as [acts1 [ss1|f]] eqn:E1.
    + destruct (stream s ti at_ armed rest ss1) as [acts2 e2] eqn:E2. intros [= <- <-].
      destruct (on_item_ok _ _ _ _ _ E1) as [H1 H2]. destruct (IH _ _ _ E2) as [H3 H4].
      rewrite sends_app, H1, H3. split; [done|]. intros Hs. apply H4. by eapply H2.
    + intros [= <- <-]. destruct (on_item_ok _ _ _ _ _ E1) as [H1 _]. by split.
  - intros [= <- <-]. by split.
Qed.

Definition keeps_prompt (s s' : LoopState) : Prop :=
  cv_new_messages (ls_conv s) ≠ [] -> cv_new_messages (ls_conv s') ≠ [].
Definition tail_frame (s : LoopState) (r : list Action * LoopState * Next) : Prop :=
  let '(acts, s', next) := r in
  sends acts = [] ∧ ls_turn s' = ls_turn s ∧ keeps_prompt s s' ∧ next ≠ N_Panic ∧
  match next with
  | N_Attempt _ _ => left_of s = S (left_of s')
  | _ => (left_of s' <= left_of s)%nat
  end.

Ltac frame_solve :=
  repeat split; solve [done | exact (λ H, H) | cbn in *; lia | cbn in *; congruence].

Lemma repair_nonempty c req c' : repair_and_rebuild_request from_str tools config c = Ok (req, c') ->
  cv_new_messages c' ≠ [].
Proof.
  unfold repair_and_rebuild_request, repair_provider_input. destruct (rev _) as [|prompt prior]; [done|].
  cbn. by intros [= <- <-].
Qed.

Lemma pre_stream_frame error now t s :
  tail_frame s (pre_stream_failure from_str completion_display streaming_display draw deadline_reason
                  config tools error now t s).
Proof.
  unfold pre_stream_failure. destruct (on_pre_stream_failure _ _ _ _ _ _ _) as [d r] eqn:E.
  apply pre_stream_continues in E. destruct d as [delay k| |reason]; cbn [tail_frame].
  - frame_solve.
  - destruct (repair_and_rebuild_request _ _ _ _) as [[req c]|f] eqn:Er;
      (split; [done|]); (split; [done|]).
    + split; [intros _; by eapply repair_nonempty|]. by split.
    + frame_solve.
  - subst. frame_solve.
Qed.

Lemma retract_frame now t s f :
  tail_frame s (retract draw deadline_reason config now t s f).
Proof.
  unfold retract. destruct (on_mid_stream_failure _ _ _ _ _ _) as [d r] eqn:E.
  apply mid_stream_continues in E. destruct d; cbn [tail_frame].
  - destruct E as [_ E]. frame_solve.
  - by destruct E.
  - subst. frame_solve.
Qed.

Lemma push_assistant_nonempty l a id : l ≠ [] -> push_assistant l a id ≠ [].
Proof. unfold push_assistant. destruct (fst _); [|done]. intros _ H. by destruct (app_cons_not_nil l [] (set_message_id id m)). Qed.

Lemma close_turn_frame env ss s acts s' : close_turn from_str to_string env ss s = (acts, s') ->
  sends acts = [] ∧ ls_turn s' = ls_turn s ∧ keeps_prompt s s' ∧ ls_retry s' = ls_retry s.
Proof.
  unfold close_turn. cbn [close_streaming_turn]. intros [= <- <-]. split; [|split; [done|split; [|done]]].
  - induction (ss_pending ss); [done|]. done.
  - intros H. cbn. intros Hn. apply app_eq_nil in Hn as [Hn _]. by eapply push_assistant_nonempty.
Qed.

Lemma close_and_fail_frame env ss s f :
  tail_frame s (close_and_fail from_str to_string env ss s f).
Proof.
  unfold close_and_fail. destruct (close_turn _ _ env ss s) as [acts s'] eqn:E.
  apply close_turn_frame in E as (H1 & H2 & H3 & H4). cbn [tail_frame]. rewrite H4. frame_solve.
Qed.

Lemma broken_stream_frame env error t ss s :
  tail_frame s (broken_stream from_str to_string completion_display streaming_display draw
                  deadline_reason config tools env error t ss s).
Proof.
  unfold broken_stream. destruct (ss_pending ss) as [|p ps].
  - destruct (negb _); [apply pre_stream_frame|]. destruct (ss_budget ss); [|apply retract_frame].
    frame_solve.
  - destruct (ss_budget ss) as [b|].
    + destruct (close_turn _ _ env ss s) as [acts s'] eqn:E.
      apply close_turn_frame in E as (H1 & H2 & H3 & H4). cbn [tail_frame]. rewrite H4. frame_solve.
    + destruct (on_mid_stream_failure _ _ _ _ _ _) as [d r] eqn:Em.
      apply mid_stream_continues in Em. destruct d; [by destruct Em| |subst; frame_solve].
      destruct (close_turn _ _ env ss (set_retry r s)) as [acts s'] eqn:E.
      apply close_turn_frame in E as (H1 & H2 & H3 & H4). cbn [tail_frame].
      rewrite sends_app, H1, H4. destruct Em as [_ Em]. cbn in *. repeat split; [done|exact H3|done|lia].
Qed.

Lemma propose_final_frame env ss s :
  tail_frame s (propose_final as_u64 from_str_args display_obligation_error config env ss s).
Proof.
  unfold propose_final. destruct (lc_output_obligation_gate config) as [[doc obs]|]; [|frame_solve].
  destruct (unmet _ _ _ _ _) as [[|u us]|e]; [frame_solve| |frame_solve].
  repeat split; [|done|done]. intros _ H. by destruct (app_cons_not_nil (push_assistant
    (cv_new_messages (ls_conv s)) (ss_acc ss) (ae_message_id env)) [] (message_user (continuation_message (u :: us)))).
Qed.

Lemma ended_stream_frame env t ss s : stream_ok ss ->
  tail_frame s (ended_stream from_str to_string as_u64 from_str_args display_obligation_error
                  draw deadline_reason config env t ss s).
Proof.
  intros Hss. unfold ended_stream.
  destruct (negb _ && ae_armed env); [frame_solve|].
  destruct (match ss_budget ss with Some _ => _ | None => _ end) as [[reason|]|f];
    [apply close_and_fail_frame| |frame_solve].
  destruct (provider_eof_is_failure _); [apply close_and_fail_frame|].
  destruct (ss_exhausted ss && _) eqn:Ex.
  { apply andb_prop in Ex as [Ex _]. specialize (Hss Ex).
    destruct (ss_budget ss); [|done]. apply close_and_fail_frame. }
  destruct (_ && is_empty _); [apply retract_frame|].
  destruct (structured_output_error config ss); [apply retract_frame|].
  destruct (ss_pending ss); [apply propose_final_frame|].
  destruct (close_turn _ _ env ss s) as [acts s'] eqn:E.
  apply close_turn_frame in E as (H1 & H2 & H3 & H4). cbn [tail_frame]. rewrite H4. frame_solve.
Qed.

Lemma run_attempt_frame env t s acts s' next : attempt env t s = (acts, s', next) ->
  (length (sends acts) <= 1)%nat ∧ ls_turn s' = ls_turn s ∧ keeps_prompt s s' ∧ next ≠ N_Panic ∧
  match next with
  | N_Attempt _ _ => left_of s = S (left_of s')
  | _ => (left_of s' <= left_of s)%nat
  end.
Proof.
  unfold run_loop_attempt. destruct (prepare_dispatch_attempt _ _ _ _ _) as [prepared|e];
    [|intros [= <- <- <-]; frame_solve].
  set (captured := if lc_on_rendered_request config then _ else []).
  assert (Hc : sends captured = []) by (unfold captured; by destruct (lc_on_rendered_request config)).
  destruct (if lc_on_rendered_request config then ae_capture env else Ok tt) as [u|e];
    [|intros [= <- <- <-]; rewrite Hc; frame_solve].
  assert (Hgo : ∀ pre r, sends pre = [] -> tail_frame s r ->
    prepend ((captured ++ [Send (pd_request prepared)]) ++ pre) r = (acts, s', next) ->
    (length (sends acts) <= 1)%nat ∧ ls_turn s' = ls_turn s ∧ keeps_prompt s s' ∧ next ≠ N_Panic ∧
    match next with
    | N_Attempt _ _ => left_of s = S (left_of s')
    | _ => (left_of s' <= left_of s)%nat
    end).
  { intros pre [[a2 s2] n2] Hp (H1 & H2 & H3 & H4 & H5). cbn [prepend]. intros [= <- <- <-].
    rewrite !sends_app, Hc, Hp, H1. repeat split; [cbn; lia|done|done|done|done]. }
  destruct (ae_response env) as [items|error].
  - destruct (stream s _ _ _ items _) as [streamed ending] eqn:Es.
    apply consume_stream_ok in Es as [Hs1 Hs2]. specialize (Hs2 (λ H, False_ind _ (diff_false_true H))).
    destruct ending as [ss|error ss|f].
    + apply Hgo; [done|]. exact (ended_stream_frame env t ss (adopt_stream ss s) Hs2).
    + apply Hgo; [done|]. exact (broken_stream_frame env error t ss (adopt_stream ss s)).
    + apply Hgo; [done|]. frame_solve.
  - intros H. apply (Hgo [] _ eq_refl (pre_stream_frame error (ae_now env) t s)).
    by rewrite app_nil_r.
Qed.

(** ** Termination *)

Definition settled (o : LoopOutcome) : Prop := o = LO_Done ∨ ∃ f, o = LO_Fail f.

Lemma attempts_end fuel : ∀ envs t s acts s' o,
  (left_of s < fuel)%nat -> cv_new_messages (ls_conv s) ≠ [] ->
  attempts fuel envs t s = (acts, s', o) ->
  (o = LO_NextTurn ∨ settled o) ∧ ls_turn s' = ls_turn s ∧ cv_new_messages (ls_conv s') ≠ [] ∧
  (left_of s' <= left_of s)%nat ∧ (length (sends acts) <= 1 + (left_of s - left_of s'))%nat.
Proof.
  induction fuel as [|fuel IH]; intros envs t s acts s' o Hf Hn; [lia|]. cbn [run_attempts].
  destruct (attempt _ t s) as [[acts1 s1] next] eqn:E1.
  apply run_attempt_frame in E1 as (H1 & H2 & H3 & H4 & H5). specialize (H3 Hn).
  destruct next as [r p| | |f|]; [|intros [= <- <- <-]..|done].
  - destruct (attempts fuel envs _ s1) as [[acts2 s2] o2] eqn:E2. intros [= <- <- <-].
    apply IH in E2 as (I1 & I2 & I3 & I4 & I5); [|cbn in *; lia|done].
    rewrite sends_app, length_app. cbn in *.
    repeat split; [done|congruence|done|lia|lia].
  - cbn in *. repeat split; [by left|done|done|lia|lia].
  - cbn in *. repeat split; [by right; left|done|done|lia|lia].
  - cbn in *. repeat split; [by right; right; exists f|done|done|lia|lia].
Qed.

Lemma split_prompt_cons l : l ≠ [] -> ∃ prior prompt, split_prompt l = Some (prior, prompt).
Proof.
  unfold split_prompt. intros H. destruct (rev l) as [|x r] eqn:E; [|by eexists _, _].
  destruct H. by rewrite <-(rev_involutive l), E.
Qed.
Lemma split_prompt_Some l prior prompt : split_prompt l = Some (prior, prompt) -> l = prior ++ [prompt].
Proof.
  unfold split_prompt. destruct (rev l) as [|x r] eqn:E; [done|]. intros [= <- <-].
  by rewrite <-(rev_involutive l), E.
Qed.

Lemma build_budgeted_nonempty compactor ti c r c' :
  build_budgeted_request from_str project_request compactor tools config ti c = Some (r, c') ->
  cv_new_messages c ≠ [] -> cv_new_messages c' ≠ [].
Proof.
  unfold build_budgeted_request, adopt_compaction. intros H Hn.
  repeat case_match; simplify_eq; done.
Qed.

Lemma turn_ends fuel env s acts s' o : (left_of s < fuel)%nat -> cv_new_messages (ls_conv s) ≠ [] ->
  turn fuel env s = (acts, s', o) ->
  (o = LO_NextTurn ∨ settled o) ∧ (left_of s' <= left_of s)%nat ∧
  (length (sends acts) <= 1 + (left_of s - left_of s'))%nat ∧
  (lc_max_turns config + 1 < ls_turn s -> settled o ∧ sends acts = []) ∧
  (o = LO_NextTurn -> ls_turn s' = ls_turn s + 1 ∧ cv_new_messages (ls_conv s') ≠ []).
Proof.
  intros Hf Hn. unfold run_turn. destruct (Z.ltb_spec (lc_max_turns config + 1) (ls_turn s)) as [Hm|Hm].
  { unfold max_turns_failure. destruct (split_prompt_cons _ Hn) as (prior & prompt & ->).
    intros [= <- <- <-]. unfold settled. repeat split; try done; [right; right; by eexists|cbn; lia|right; by eexists]. }
  destruct (build_budgeted_request _ _ _ _ _ _ _) as [[[[req decision]|f] conv]|] eqn:Eb.
  2: { intros [= <- <- <-]. unfold settled. repeat split; try done; [right; right; by eexists|cbn; lia|lia]. }
  2: { exfalso. unfold build_budgeted_request in Eb.
       destruct (split_prompt_cons _ Hn) as (prior & prompt & Hs). by rewrite Hs in Eb. }
  apply build_budgeted_nonempty in Eb; [|done].
  destruct (if has_hook then ev_on_completion env else HA_Continue) as [|reason].
  2: { intros [= <- <- <-]. unfold settled. repeat split; try done; [right; right; by eexists|cbn; lia|lia]. }
  intros H. apply attempts_end in H as (H1 & H2 & H3 & H4 & H5); [|done|done].
  repeat split; [done|done|done|lia|lia|done|done].
Qed.

Lemma turns_end attempt_fuel fuel : ∀ envs s acts s' o,
  (Z.to_nat (lc_max_turns config + 2 - ls_turn s) < fuel)%nat -> (left_of s < attempt_fuel)%nat ->
  cv_new_messages (ls_conv s) ≠ [] ->
  turns fuel attempt_fuel envs s = (acts, s', o) ->
  settled o ∧
  (length (sends acts) <= Z.to_nat (lc_max_turns config + 2 - ls_turn s) + left_of s)%nat.
Proof.
  induction fuel as [|fuel IH]; intros envs s acts s' o Hf Ha Hn; [lia|]. cbn [run_turns].
  destruct (turn attempt_fuel _ s) as [[acts1 s1] o1] eqn:E1.
  apply turn_ends in E1 as (H1 & H2 & H3 & H4 & H5); [|done|done].
  destruct (Z_lt_le_dec (lc_max_turns config + 1) (ls_turn s)) as [Hm|Hm].
  { destruct (H4 Hm) as [[->|[f ->]] H6]; intros [= <- <- <-]; rewrite H6; cbn;
      (split; [|lia]); unfold settled; eauto. }
  assert (Hk : Z.to_nat (lc_max_turns config + 2 - ls_turn s) =
    S (Z.to_nat (lc_max_turns config + 2 - (ls_turn s + 1)))) by lia.
  destruct H1 as [->|Hs].
  - destruct (H5 eq_refl) as [H6 H7].
    destruct (turns fuel attempt_fuel envs s1) as [[acts2 s2] o2] eqn:E2. intros [= <- <- <-].
    apply IH in E2 as [I1 I2]; [|rewrite H6; lia|cbn in *; lia|done].
    rewrite sends_app, length_app. cbn in *. rewrite H6 in I2. split; [done|lia].
  - cbn in *. destruct Hs as [->|[f ->]]; intros [= <- <- <-];
      (split; [|lia]); unfold settled; eauto.
Qed.

Lemma entry_nonempty prompt history budget s :
  entry_state config prompt history budget = Some s -> cv_new_messages (ls_conv s) ≠ [].
Proof.
  unfold entry_state. destruct (split_prompt _) as [[h p]|]; [|done]. intros [= <-]. cbn.
  unfold assemble_new_messages. by destruct (lc_context_message config).
Qed.

(** C17. Whatever the provider, the tools, the hook, the compactor and the clock do, the
    loop ends with a final answer or a typed failure: it never reaches a state the
    source calls unreachable, and it sends at most one request per turn it may
    start plus one per retry its policy grants. *)
Theorem loop_terminates envs prompt history budget :
  let '(acts, o) := run_loop_stream from_str to_string as_u64 from_str_args
    display_obligation_error completion_display streaming_display draw deadline_reason
    estimate_request project_request config tools has_hook envs prompt history budget in
  settled o ∧
  (length (sends acts) <= Z.to_nat (lc_max_turns config + 2 - lc_initial_turn_index config)
     + (length (transport_backoff (lc_retry_policy config))
        + Z.to_nat (max_resample (lc_retry_policy config))
        + (if allow_repair (lc_retry_policy config) then 1 else 0)))%nat.
Proof.
  unfold run_loop_stream. destruct (entry_state config prompt history budget) as [s|] eqn:Es.
  2: { split; [right; by eexists|cbn; lia]. }
  pose proof (entry_nonempty _ _ _ _ Es) as Hn.
  destruct (turns _ _ envs s) as [[acts s'] o] eqn:Et.
  unfold entry_state in Es. destruct (split_prompt _) as [[h p]|]; [|done]. injection Es as <-.
  apply turns_end in Et as [H1 H2]; [|unfold turn_fuel; cbn [ls_turn]; lia|unfold attempt_fuel; cbn [ls_retry]; lia|done].
  split; [done|]. cbn [ls_turn ls_retry] in H2. revert H2.
  unfold retry_budget_left, new_retry_state. cbn [policy transport_used resample_used repair_used negb].
  rewrite andb_true_r. lia.
Qed.
End rules.

(** ** A run *)

(** Two turns: a call of [echo], then a visible answer. *)
Definition demo_projection : ProviderInputProjection := mkProjection (mkComponents 10 0 0 0 0) 10 [].
Definition demo_loop_config : LoopConfig :=
  mkConfig None None None (Some 100) None None None true false [] [] 0 1000 f64_10000
    no_retry None 4 None.
Definition demo_toolbox : Toolbox := mkToolbox [lit "echo"] (λ _, []).
Definition demo_call : ToolCall := ToolCall_new (lit "c1") (mkToolFunction (lit "echo") (JObject [])).
Definition demo_tool_env : ToolEnv :=
  mkToolEnv TH_Continue None 0 (mkRun [] (mkPoll 0 false) (Ok (lit "out"))) HA_Continue.
Definition demo_attempt (items : list (result CompletionError StreamedAssistantContent)) : AttemptEnv :=
  mkAttemptEnv (Ok tt) (Ok items) None false 0 (Ok []).
Definition demo_turn (turn : Z) : TurnEnv :=
  mkTurnEnv (λ _, Ok TCO_CannotFit) (λ b, b) HA_Continue
    (λ _, demo_attempt (if turn =? 0
                        then [Ok (SC_ToolCall demo_call (lit "i1") demo_tool_env); Ok (SC_Final None)]
                        else [Ok (SC_Text (lit "done")); Ok (SC_Final None)])).
Definition demo_run : list Action * LoopOutcome :=
  run_loop_stream (λ _, None) (λ _, []) (λ _, None) (λ _, Err []) (λ _, []) (λ _, []) (λ _, [])
    (λ _, 0) (λ _ _, []) (λ _, Ok 10) (λ _, Ok demo_projection) demo_loop_config demo_toolbox false
    demo_turn (message_user (lit "hi")) [] None.
Example demo_run_answers : snd demo_run = LO_Done ∧ length (sends (fst demo_run)) = 2%nat.
Proof. vm_compute. by split. Qed.
