(* ===== verification/AgentLoopTrace.v ===== *)
(** * Traces of the agent loop

    Safety of what [AgentLoop] does, read off its trace: tool calls and their
    results, what is captured before it is sent, and when a final answer is
    given. *)

From S2P Require Import Prelude RustStr Float64 Errors TokenBudget RequestState Retry Truncation Messages History HistorySplit Compaction ToolArgs OutputObligation Denial ToolDispatch AgentTurn AgentLoop AgentLoopRuns.
Open Scope Z_scope.

(** ** The monitor of tool calls *)

(** A call as the consumer knows it: its id, its call id and its internal id. *)
Definition Announced : Type := (str * option str * str)%type.
Definition announced_of (call : ToolCall) (internal_call_id : str) : Announced :=
  (tc_id call, tc_call_id call, internal_call_id).
Definition answered_by (r : ToolResult) (internal_call_id : str) : Announced :=
  (tr_id r, tr_call_id r, internal_call_id).

(** Follows the open calls through a trace: a tool runs only for the call just
    announced, a result answers the oldest open call, and a request, an answer, a
    retraction, a retry or a reminder comes only when no call is open. *)
Fixpoint monitor (open : list Announced) (acts : list Action) : option (list Announced) :=
  match acts with
  | [] => Some open
  | Yield (LI_ToolCall call iid) :: rest => monitor (open ++ [announced_of call iid]) rest
  | Execute iid _ :: rest =>
      match rev open with
      | (_, _, iid') :: _ => if str_eqb iid iid' then monitor open rest else None
      | [] => None
      end
  | Yield (LI_ToolResult r iid) :: rest =>
      match open with
      | call :: open => if bool_decide (call = answered_by r iid) then monitor open rest else None
      | [] => None
      end
  | (Send _ | Capture _ _ _ _ | Yield (LI_Final _ _) | Yield (LI_TurnRetracted _ _ _)
     | Yield (LI_AttemptFailed _ _ _ _ _) | Yield (LI_OutputObligationPending _)) :: rest =>
      match open with [] => monitor [] rest | _ => None end
  | Yield (LI_Text _ | LI_Reasoning _ | LI_ReasoningDelta _ _) :: rest => monitor open rest
  end.

Lemma monitor_app a : ∀ open b, monitor open (a ++ b) = monitor open a ≫= λ open', monitor open' b.
Proof.
  induction a as [|x a IH]; intros open b; [done|]. cbn [app monitor].
  destruct x as [[t|r|i t|c i|r i|t u|t n k|t n e w k|m]|t n r k|r|i o]; try apply IH;
    try (destruct open; [apply IH|done]).
  - destruct open as [|c open]; [done|]. destruct (bool_decide _); [apply IH|done].
  - destruct (rev open) as [|[[? ?] ?] ?]; [done|]. destruct (str_eqb _ _); [apply IH|done].
Qed.

Section traces.
Context (from_str : str → option Json) (to_string : Json → str).
Context (as_u64 : str → option Z) (from_str_args : str → result str Json).
Context (display_obligation_error : ObligationError → str).
Context (completion_display : CompletionError → str) (streaming_display : StreamingError → str).
Context (draw : Z → Z) (deadline_reason : Z → option Z → str).
Context (estimate_request : LoopRequest → result str Z).
Context (project_request : LoopRequest → result str ProviderInputProjection).
Context (config : LoopConfig) (tools : Toolbox) (has_hook : bool).

Local Abbreviation attempt := (run_loop_attempt from_str to_string as_u64 from_str_args
  display_obligation_error completion_display streaming_display draw deadline_reason
  estimate_request project_request config tools has_hook).
Local Abbreviation attempts := (run_attempts from_str to_string as_u64 from_str_args
  display_obligation_error completion_display streaming_display draw deadline_reason
  estimate_request project_request config tools has_hook).
Local Abbreviation turn := (run_turn from_str to_string as_u64 from_str_args
  display_obligation_error completion_display streaming_display draw deadline_reason
  estimate_request project_request config tools has_hook).
Local Abbreviation turns := (run_turns from_str to_string as_u64 from_str_args
  display_obligation_error completion_display streaming_display draw deadline_reason
  estimate_request project_request config tools has_hook).


Local Abbreviation stream := (consume_stream from_str tools has_hook).

(** The open calls of a stream are those whose results are pending. *)
Definition open_of (ss : StreamState) : list Announced :=
  (λ '(call, iid, _), announced_of call iid) <$> ss_pending ss.

Lemma on_item_monitor s item ss acts r : on_item from_str tools has_hook s item ss = (acts, r) ->
  match r with
  | Ok ss' => monitor (open_of ss) acts = Some (open_of ss')
  | Err _ => is_Some (monitor (open_of ss) acts)
  end.
Proof.
  destruct item as [t|r0|id t|call iid env| |usage]; cbn [on_item]; try (by intros [= <- <-]).
  - unfold execute_call. destruct (if has_hook then te_call_action env else TH_Continue) as [|reason|reason].
    + intros [= <- <-]. cbn [monitor]. rewrite rev_app_distr. cbn [rev app].
      change (announced_of call iid) with (tc_id call, tc_call_id call, iid). cbv beta iota.
      rewrite str_eqb_refl.
      destruct (if has_hook then te_result_action env else HA_Continue); [|eexists; reflexivity].
      unfold open_of, push_pending. cbn [ss_pending]. by rewrite fmap_app.
    + intros [= <- <-]. cbn [monitor]. unfold open_of, push_pending. cbn [ss_pending]. by rewrite fmap_app.
    + intros [= <- <-]. cbn [monitor]. by eexists.
  - intros [= <- <-]. cbn [monitor]. unfold final_item.
    destruct (ss_budget ss) as [b|]; [|done].
    destruct (budget_charge_reported usage b) as [[[charge l]|e] b']; [|eexists; reflexivity].
    by destruct charge.
Qed.

Lemma consume_stream_monitor s ti at_ armed items : ∀ ss acts e,
  stream s ti at_ armed items ss = (acts, e) ->
  match e with
  | Eof ss' | Broken _ ss' => monitor (open_of ss) acts = Some (open_of ss')
  | Aborted _ => is_Some (monitor (open_of ss) acts)
  end.
Proof.
  induction items as [|[item|error] rest IH]; intros ss acts e; cbn [consume_stream].
  - by intros [= <- <-].
  - destruct (negb _ && armed); [by intros [= <- <-]; eexists|].
    destruct (on_item _ _ _ s item (see_item ss)) as [acts1 [ss1|f]] eqn:E1;
      apply on_item_monitor in E1; change (open_of (see_item ss)) with (open_of ss) in E1.
    + destruct (stream s ti at_ armed rest ss1) as [acts2 e2] eqn:E2. intros [= <- <-].
      rewrite monitor_app, E1. cbn [mbind option_bind]. by apply IH.
    + by intros [= <- <-].
  - by intros [= <- <-].
Qed.

Definition monitored (open : list Announced) (r : list Action * LoopState * Next) : Prop :=
  let '(acts, _, next) := r in
  match next with
  | N_Fail _ | N_Panic => is_Some (monitor open acts)
  | _ => monitor open acts = Some []
  end.

Lemma pre_stream_monitored error now t s :
  monitored [] (pre_stream_failure from_str completion_display streaming_display draw deadline_reason
                  config tools error now t s).
Proof.
  unfold pre_stream_failure. destruct (on_pre_stream_failure _ _ _ _ _ _ _) as [[delay k| |reason] r];
    cbn [monitored]; [done| |by eexists].
  destruct (repair_and_rebuild_request _ _ _ _) as [[req c]|f]; [done|by eexists].
Qed.
Lemma retract_monitored now t s f : monitored [] (retract draw deadline_reason config now t s f).
Proof.
  unfold retract. destruct (on_mid_stream_failure _ _ _ _ _ _) as [[]]; cbn [monitored]; [done|by eexists..].
Qed.
Lemma close_turn_monitor env ss s acts s' : close_turn from_str to_string env ss s = (acts, s') ->
  monitor (open_of ss) acts = Some [].
Proof.
  unfold close_turn. cbn [close_streaming_turn]. intros [= <- _]. unfold open_of.
  induction (ss_pending ss) as [|[[call iid] bounded] l IH]; [done|].
  cbn [fmap list_fmap monitor fst snd]. rewrite bool_decide_true by reflexivity. exact IH.
Qed.
Lemma close_and_fail_monitored env ss s f :
  monitored (open_of ss) (close_and_fail from_str to_string env ss s f).
Proof.
  unfold close_and_fail. destruct (close_turn _ _ env ss s) as [acts s'] eqn:E.
  apply close_turn_monitor in E. cbn [monitored]. rewrite E. by eexists.
Qed.

Lemma broken_stream_monitored env error t ss s :
  monitored (open_of ss) (broken_stream from_str to_string completion_display streaming_display draw
                  deadline_reason config tools env error t ss s).
Proof.
  unfold broken_stream. destruct (ss_pending ss) as [|p ps] eqn:Ep.
  - assert (open_of ss = []) as -> by (unfold open_of; by rewrite Ep).
    destruct (negb _); [apply pre_stream_monitored|]. destruct (ss_budget ss); [|apply retract_monitored].
    cbn [monitored]. by eexists.
  - destruct (ss_budget ss) as [b|].
    + destruct (close_turn _ _ env ss s) as [acts s'] eqn:E. apply close_turn_monitor in E.
      cbn [monitored]. rewrite E. by eexists.
    + destruct (on_mid_stream_failure _ _ _ _ _ _) as [[] r]; [cbn [monitored]; by eexists| |
        cbn [monitored]; by eexists].
      destruct (close_turn _ _ env ss (set_retry r s)) as [acts s'] eqn:E. apply close_turn_monitor in E.
      cbn [monitored]. by rewrite monitor_app, E.
Qed.

Lemma propose_final_monitored env ss s :
  monitored [] (propose_final as_u64 from_str_args display_obligation_error config env ss s).
Proof.
  unfold propose_final. destruct (lc_output_obligation_gate config) as [[doc obs]|]; [|done].
  destruct (unmet _ _ _ _ _) as [[|u us]|e]; [done..|]. cbn [monitored]. by eexists.
Qed.

Lemma ended_stream_monitored env t ss s :
  monitored (open_of ss) (ended_stream from_str to_string as_u64 from_str_args
     display_obligation_error draw deadline_reason config env t ss s).
Proof.
  unfold ended_stream. destruct (negb _ && ae_armed env); [cbn [monitored]; by eexists|].
  destruct (match ss_budget ss with Some _ => _ | None => _ end) as [[reason|]|f];
    [apply close_and_fail_monitored| |cbn [monitored]; by eexists].
  destruct (provider_eof_is_failure _); [apply close_and_fail_monitored|].
  destruct (ss_exhausted ss && _).
  { destruct (ss_budget ss); [apply close_and_fail_monitored|cbn [monitored]; by eexists]. }
  unfold structured_output_error. destruct (ss_pending ss) as [|p ps] eqn:Ep.
  - assert (open_of ss = []) as -> by (unfold open_of; by rewrite Ep).
    destruct (true && _); [apply retract_monitored|].
    destruct (match lc_structured_output config with Some _ => _ | None => _ end);
      [apply retract_monitored|apply propose_final_monitored].
  - cbn [andb]. destruct (close_turn _ _ env ss s) as [acts s'] eqn:E. by apply close_turn_monitor in E.
Qed.

Lemma run_attempt_monitored env t s : monitored [] (attempt env t s).
Proof.
  unfold run_loop_attempt. destruct (prepare_dispatch_attempt _ _ _ _ _) as [prepared|e];
    [|cbn [monitored]; by eexists].
  set (captured := if lc_on_rendered_request config then _ else []).
  assert (Hc : monitor [] captured = Some []) by (unfold captured; by destruct (lc_on_rendered_request config)).
  destruct (if lc_on_rendered_request config then ae_capture env else Ok tt) as [u|e];
    [|cbn [monitored]; rewrite Hc; by eexists].
  assert (Hgo : ∀ pre open r, monitor [] pre = Some open -> monitored open r ->
    monitored [] (prepend ((captured ++ [Send (pd_request prepared)]) ++ pre) r)).
  { intros pre open [[a2 s2] n2] Hp Hr. cbn [prepend monitored] in *.
    rewrite !monitor_app, Hc. cbn [mbind option_bind monitor]. rewrite Hp. exact Hr. }
  destruct (ae_response env) as [items|error].
  - destruct (stream s _ _ _ items _) as [streamed ending] eqn:Es. apply consume_stream_monitor in Es.
    change (open_of (initial_stream s)) with (@nil Announced) in Es.
    destruct ending as [ss|error ss|f].
    + eapply Hgo; [exact Es|]. apply ended_stream_monitored.
    + eapply Hgo; [exact Es|]. apply broken_stream_monitored.
    + destruct Es as [o Es]. eapply Hgo; [exact Es|]. cbn [monitored]. by eexists.
  - rewrite <-(app_nil_r (captured ++ _)). eapply (Hgo [] []); [done|]. apply pre_stream_monitored.
Qed.

(** A trace with its end: every call answered when another turn or the answer
    follows. *)
Definition all_answered (acts : list Action) (_ : LoopState) (o : LoopOutcome) : Prop :=
  match o with
  | LO_NextTurn | LO_Done => monitor [] acts = Some []
  | _ => is_Some (monitor [] acts)
  end.
Lemma all_answered_app a b s o : monitor [] a = Some [] -> all_answered b s o -> all_answered (a ++ b) s o.
Proof. unfold all_answered. intros H Hb. rewrite monitor_app, H. exact Hb. Qed.

Lemma run_attempts_answered fuel envs t s acts s' o :
  attempts fuel envs t s = (acts, s', o) -> all_answered acts s' o.
Proof.
  eapply (run_attempts_rule _ _ _ _ _ _ _ _ _ _ _ _ _ _ (λ _, True) (λ _ _, True)
    (λ a, monitor [] a = Some []) all_answered); [apply all_answered_app|by eexists| |done|done].
  intros env t0 s0 acts0 s0' next _ _ H. pose proof (run_attempt_monitored env t0 s0) as Hm.
  rewrite H in Hm. by destruct next.
Qed.

Lemma run_turn_answered fuel env s acts s' o :
  turn fuel env s = (acts, s', o) -> all_answered acts s' o.
Proof.
  unfold run_turn. destruct (_ <? _).
  { intros [= <- <- <-]. unfold max_turns_failure. destruct (split_prompt _) as [[??]|]; by eexists. }
  destruct (build_budgeted_request _ _ _ _ _ _ _) as [[[[req d]|f] conv]|]; [|by intros [= <- <- <-]; eexists..].
  destruct (if has_hook then _ else _); [apply run_attempts_answered|by intros [= <- <- <-]; eexists].
Qed.

(** C18. Tool calls and results match up in every run: each tool runs for the call just
    announced, results come in the order of the calls with their ids, and no
    request is sent, no turn retracted or retried and no final answer given while
    a call is unanswered; when the loop answers, every call has its result. *)
Theorem calls_are_answered_in_order envs prompt history budget :
  let '(acts, o) := run_loop_stream from_str to_string as_u64 from_str_args
    display_obligation_error completion_display streaming_display draw deadline_reason
    estimate_request project_request config tools has_hook envs prompt history budget in
  is_Some (monitor [] acts) ∧ (o = LO_Done -> monitor [] acts = Some []).
Proof.
  unfold run_loop_stream. destruct (entry_state config prompt history budget) as [s|]; [|by split; [eexists|]].
  destruct (turns _ _ envs s) as [[acts s'] o] eqn:Et.
  assert (H : all_answered acts s' o).
  { revert Et. eapply (run_turns_rule _ _ _ _ _ _ _ _ _ _ _ _ _ _ (λ _, True) (λ _, True)
      (λ a, monitor [] a = Some []) all_answered); [apply all_answered_app|by eexists| |done|done].
    intros env s0 acts0 s0' o0 _ _ H. apply run_turn_answered in H. by destruct o0. }
  unfold all_answered in H. destruct o; try (rewrite H; by split; [eexists|]); by split.
Qed.

(** ** What is sent *)

(** A sent request fits the window with its estimated input. *)
Definition fits (r : LoopRequest) : Prop :=
  ∃ assembled input n, estimate_request assembled = Ok input ∧ rest assembled = rest r ∧
    max_tokens r = Some n ∧ 0 < n ∧ input + n <= lc_context_window config.
(** [prev] is the action before the trace. *)
Fixpoint well_dispatched (prev : option Action) (acts : list Action) : Prop :=
  match acts with
  | [] => True
  | Send r :: rest =>
      (lc_on_rendered_request config = true ->
       ∃ turn attempt trace, prev = Some (Capture turn attempt r trace)) ∧
      fits r ∧ well_dispatched (Some (Send r)) rest
  | a :: rest => well_dispatched (Some a) rest
  end.

Lemma no_sends_dispatched acts : sends acts = [] -> ∀ prev, well_dispatched prev acts.
Proof. induction acts as [|[] acts IH]; intros H prev; cbn in *; [done|auto..|done|auto]. Qed.
Lemma well_dispatched_app a b : (∀ prev, well_dispatched prev a) -> (∀ prev, well_dispatched prev b) ->
  ∀ prev, well_dispatched prev (a ++ b).
Proof.
  intros Ha Hb prev. specialize (Ha prev). revert prev Ha.
  induction a as [|x a IH]; intros prev Ha; [apply Hb|].
  destruct x; cbn [app well_dispatched] in *; try (by apply IH).
  destruct Ha as (H1 & H2 & H3). split; [done|]. split; [done|]. by apply IH.
Qed.

Hypothesis estimates : estimates_in_range estimate_request.
Hypothesis window : in_usize (lc_context_window config).
Hypothesis ceiling : ∀ m, lc_max_tokens config = Some m -> in_u64 m.

Lemma prepared_fits r budget d : max_tokens r = lc_max_tokens config ->
  prepare_dispatch_attempt estimate_request project_request r (lc_context_window config) budget = Ok d ->
  fits (pd_request d).
Proof.
  intros Hm H. apply (prepare_core estimate_request project_request) in H
    as (input & n & H1 & H2 & H3 & H4 & H5 & _); [|done|done|].
  - exists r, input, n. by repeat split.
  - intros m. rewrite Hm. apply ceiling.
Qed.

Definition built (t : TurnState) : Prop := max_tokens (ts_request t) = lc_max_tokens config.

Lemma pre_stream_built error now t s acts s' r p : built t ->
  pre_stream_failure from_str completion_display streaming_display draw deadline_reason config tools
    error now t s = (acts, s', N_Attempt r p) -> max_tokens r = lc_max_tokens config.
Proof.
  intros Ht. unfold pre_stream_failure.
  destruct (on_pre_stream_failure _ _ _ _ _ _ _) as [[delay k| |reason] re]; [intros [= _ _ <- _]; exact Ht| |done].
  unfold repair_and_rebuild_request. destruct (repair_provider_input _ _ _) as [[h n]|]; [|done].
  destruct (split_prompt n) as [[prior prompt]|]; [|done]. by intros [= _ _ <- _].
Qed.
Lemma retract_built now t s f acts s' r p : built t ->
  retract draw deadline_reason config now t s f = (acts, s', N_Attempt r p) ->
  max_tokens r = lc_max_tokens config.
Proof.
  intros Ht. unfold retract. destruct (on_mid_stream_failure _ _ _ _ _ _) as [[]]; [|done..].
  by intros [= _ _ <- _].
Qed.
Lemma close_and_fail_next env ss s f : ∃ acts s', close_and_fail from_str to_string env ss s f = (acts, s', N_Fail f).
Proof. unfold close_and_fail. destruct (close_turn _ _ env ss s). by eexists _, _. Qed.

Lemma broken_stream_built env error t ss s acts s' r p : built t ->
  broken_stream from_str to_string completion_display streaming_display draw deadline_reason config
    tools env error t ss s = (acts, s', N_Attempt r p) -> max_tokens r = lc_max_tokens config.
Proof.
  intros Ht. unfold broken_stream. destruct (ss_pending ss).
  - destruct (negb _); [by apply pre_stream_built|]. destruct (ss_budget ss); [done|by apply retract_built].
  - destruct (ss_budget ss); [by destruct (close_turn _ _ env ss s)|].
    destruct (on_mid_stream_failure _ _ _ _ _ _) as [[] re]; [done| |done].
    by destruct (close_turn _ _ env ss _).
Qed.
Lemma ended_stream_built env t ss s acts s' r p : built t ->
  ended_stream from_str to_string as_u64 from_str_args display_obligation_error draw deadline_reason
    config env t ss s = (acts, s', N_Attempt r p) -> max_tokens r = lc_max_tokens config.
Proof.
  intros Ht. unfold ended_stream. destruct (negb _ && _); [done|].
  destruct (match ss_budget ss with Some _ => _ | None => _ end) as [[reason|]|f]; [| |done].
  { destruct (close_and_fail_next env ss s (provider_failure reason)) as (? & ? & ->). done. }
  destruct (provider_eof_is_failure _).
  { destruct (close_and_fail_next env ss s (provider_failure
      (lit "provider stream ended without an explicit terminal response"))) as (? & ? & ->). done. }
  destruct (ss_exhausted ss && _).
  { destruct (ss_budget ss) as [b|]; [|done].
    destruct (close_and_fail_next env ss s (with_snapshot b (exhausted_after_call
      (structured_output_error config ss)))) as (? & ? & ->). done. }
  destruct (_ && is_empty _); [by apply retract_built|].
  destruct (structured_output_error config ss); [by apply retract_built|].
  destruct (ss_pending ss); [|by destruct (close_turn _ _ env ss s)].
  unfold propose_final. destruct (lc_output_obligation_gate config) as [[doc obs]|]; [|done].
  by destruct (unmet _ _ _ _ _) as [[|]|].
Qed.

Lemma run_attempt_dispatched env t s acts s' next : built t -> attempt env t s = (acts, s', next) ->
  (∀ prev, well_dispatched prev acts) ∧
  (∀ r p, next = N_Attempt r p -> max_tokens r = lc_max_tokens config).
Proof.
  intros Ht. unfold run_loop_attempt.
  destruct (prepare_dispatch_attempt _ _ _ _ _) as [prepared|e] eqn:Ep; [|by intros [= <- <- <-]].
  apply (prepared_fits _ _ _ Ht) in Ep.
  set (captured := if lc_on_rendered_request config then _ else []).
  assert (Hsent : ∀ prev, well_dispatched prev (captured ++ [Send (pd_request prepared)])).
  { intros prev. unfold captured. destruct (lc_on_rendered_request config) eqn:Ec;
      cbn [app well_dispatched]; (split; [|by split]); [by eexists _, _, _|by rewrite Ec]. }
  destruct (if lc_on_rendered_request config then ae_capture env else Ok tt) as [u|e].
  2: { intros [= <- <- <-]. split; [|done]. apply no_sends_dispatched. unfold captured.
       by destruct (lc_on_rendered_request config). }
  assert (Hgo : ∀ pre r0, sends pre = [] -> tail_frame s r0 ->
    prepend ((captured ++ [Send (pd_request prepared)]) ++ pre) r0 = (acts, s', next) ->
    ∀ prev, well_dispatched prev acts).
  { intros pre [[a2 s2] n2] Hp (H1 & _). cbn [prepend]. intros [= <- <- <-].
    apply well_dispatched_app; [apply well_dispatched_app; [exact Hsent|]|]; by apply no_sends_dispatched. }
  destruct (ae_response env) as [items|error].
  - destruct (stream s _ _ _ items _) as [streamed ending] eqn:Es.
    apply consume_stream_ok in Es as [Hs1 Hs2]. specialize (Hs2 (λ H, False_ind _ (diff_false_true H))).
    intros H. split.
    + revert H. apply Hgo; [done|]. destruct ending as [ss|error ss|f].
      * exact (ended_stream_frame from_str to_string as_u64 from_str_args display_obligation_error
          draw deadline_reason config env t ss (adopt_stream ss s) Hs2).
      * exact (broken_stream_frame from_str to_string completion_display streaming_display draw
          deadline_reason config tools env error t ss (adopt_stream ss s)).
      * repeat split; solve [done|exact (λ H, H)].
    + intros r p ->. destruct ending as [ss|error ss|f].
      * destruct (ended_stream _ _ _ _ _ _ _ _ env t ss _) as [[a2 s2] n2] eqn:E2.
        cbn [prepend] in H. simplify_eq. by eapply ended_stream_built.
      * destruct (broken_stream _ _ _ _ _ _ _ _ env error t ss _) as [[a2 s2] n2] eqn:E2.
        cbn [prepend] in H. simplify_eq. by eapply broken_stream_built.
      * done.
  - intros H. split.
    + apply (Hgo [] _ eq_refl (pre_stream_frame from_str completion_display streaming_display draw
        deadline_reason config tools error (ae_now env) t s)). by rewrite app_nil_r.
    + intros r p ->. destruct (pre_stream_failure _ _ _ _ _ _ _ error _ t s) as [[a2 s2] n2] eqn:E2.
      cbn [prepend] in H. simplify_eq. by eapply pre_stream_built.
Qed.

Lemma run_turn_dispatched fuel env s acts s' o :
  turn fuel env s = (acts, s', o) -> ∀ prev, well_dispatched prev acts.
Proof.
  unfold run_turn. destruct (_ <? _); [by intros [= <- <- <-]|].
  destruct (build_budgeted_request _ _ _ _ _ _ _) as [[[[req d]|f] conv]|] eqn:Eb; [|by intros [= <- <- <-]..].
  destruct (if has_hook then _ else _); [|by intros [= <- <- <-]].
  assert (Hb : max_tokens req = lc_max_tokens config).
  { unfold build_budgeted_request, rebuild_compacted in Eb.
    repeat case_match; simplify_eq; done. }
  eapply (run_attempts_rule _ _ _ _ _ _ _ _ _ _ _ _ _ _ (λ _, True) (λ t _, built t)
    (λ a, ∀ prev, well_dispatched prev a) (λ a _ _, ∀ prev, well_dispatched prev a));
    [| | |done|exact Hb].
  - intros a b _ _. apply well_dispatched_app.
  - done.
  - intros env0 t s0 acts0 s0' next _ Ht Ha. apply run_attempt_dispatched in Ha as [H1 H2]; [|done].
    destruct next as [r p| | | |]; [|done..]. split; [done|]. by eapply H2.
Qed.


(** ** The final answer *)

Definition finals (acts : list Action) : list str :=
  omap (λ a, match a with Yield (LI_Final t _) => Some t | _ => None end) acts.
Lemma finals_app a b : finals (a ++ b) = finals a ++ finals b.
Proof. apply omap_app. Qed.

Section final.
(** The attempts the run may meet. *)
Context (met_attempts : AttemptEnv → Prop).

(** Visible, valid under the structured contract, and every output obligation met by
    the writes the gate read. *)
Definition acceptable (answer : str) : Prop :=
  trim answer ≠ [] ∧
  (∀ output, lc_structured_output config = Some output -> ∃ u, so_validate output answer = Ok u) ∧
  (∀ doc obligations, lc_output_obligation_gate config = Some (doc, obligations) ->
    obligations = [] ∨ ∃ env rows, met_attempts env ∧ ae_writes env = Ok rows ∧
      Forall (met as_u64 from_str_args rows) obligations).

Definition final_tail (r : list Action * LoopState * Next) : Prop :=
  let '(acts, _, next) := r in
  match next with
  | N_Done => ∃ answer usage, acts = [Yield (LI_Final answer usage)] ∧ acceptable answer
  | _ => finals acts = []
  end.

Lemma on_item_finals s item ss acts r :
  on_item from_str tools has_hook s item ss = (acts, r) -> finals acts = [].
Proof.
  destruct item as [t|r0|id t|call iid env| |usage]; cbn [on_item]; try (by intros [= <- <-]).
  unfold execute_call. destruct (if has_hook then te_call_action env else TH_Continue); by intros [= <- <-].
Qed.
Lemma consume_stream_finals s ti at_ armed items : ∀ ss acts e,
  stream s ti at_ armed items ss = (acts, e) -> finals acts = [].
Proof.
  induction items as [|[item|error] rest IH]; intros ss acts e; cbn [consume_stream].
  - by intros [= <- <-].
  - destruct (negb _ && armed); [by intros [= <- <-]|].
    destruct (on_item _ _ _ s item (see_item ss)) as [acts1 [ss1|f]] eqn:E1; apply on_item_finals in E1.
    + destruct (stream s ti at_ armed rest ss1) as [acts2 e2] eqn:E2. intros [= <- <-].
      by rewrite finals_app, E1, (IH _ _ _ E2).
    + by intros [= <- <-].
  - by intros [= <- <-].
Qed.
Lemma close_turn_finals env ss s acts s' :
  close_turn from_str to_string env ss s = (acts, s') -> finals acts = [].
Proof.
  unfold close_turn. cbn [close_streaming_turn]. intros [= <- _].
  induction (ss_pending ss); [done|]. done.
Qed.
Lemma close_and_fail_final env ss s f : final_tail (close_and_fail from_str to_string env ss s f).
Proof.
  unfold close_and_fail. destruct (close_turn _ _ env ss s) eqn:E. by apply close_turn_finals in E.
Qed.
Lemma pre_stream_final error now t s :
  final_tail (pre_stream_failure from_str completion_display streaming_display draw deadline_reason
                config tools error now t s).
Proof.
  unfold pre_stream_failure. destruct (on_pre_stream_failure _ _ _ _ _ _ _) as [[] r]; [done| |done].
  by destruct (repair_and_rebuild_request _ _ _ _) as [[]|].
Qed.
Lemma retract_final now t s f : final_tail (retract draw deadline_reason config now t s f).
Proof. unfold retract. by destruct (on_mid_stream_failure _ _ _ _ _ _) as [[]]. Qed.
Lemma broken_stream_final env error t ss s :
  final_tail (broken_stream from_str to_string completion_display streaming_display draw
                deadline_reason config tools env error t ss s).
Proof.
  unfold broken_stream. destruct (ss_pending ss).
  - destruct (negb _); [apply pre_stream_final|]. destruct (ss_budget ss); [done|apply retract_final].
  - destruct (ss_budget ss).
    + destruct (close_turn _ _ env ss s) eqn:E. by apply close_turn_finals in E.
    + destruct (on_mid_stream_failure _ _ _ _ _ _) as [[] r]; [done| |done].
      destruct (close_turn _ _ env ss _) eqn:E. apply close_turn_finals in E.
      cbn [final_tail]. by rewrite finals_app, E.
Qed.

Lemma propose_final_final env ss s : met_attempts env -> trim (ss_text ss) ≠ [] ->
  (∀ output, lc_structured_output config = Some output -> ∃ u, so_validate output (ss_text ss) = Ok u) ->
  final_tail (propose_final as_u64 from_str_args display_obligation_error config env ss s).
Proof.
  intros Hq Ht Hv. unfold propose_final.
  destruct (lc_output_obligation_gate config) as [[doc obs]|] eqn:Eg.
  2: { exists (ss_text ss), (ss_usage ss). split; [done|]. repeat split; [done|done|]. intros doc obs H. by rewrite Eg in H. }
  destruct (unmet _ _ doc obs _) as [[|u us]|e] eqn:Eu; [|done..].
  exists (ss_text ss), (ss_usage ss). split; [done|]. repeat split; [done|done|].
  intros doc' obs' H. rewrite Eg in H. injection H as <- <-.
  apply unmet_nil in Eu as [->|(rows & Hr & Hm)]; [by left|]. right. by exists env, rows.
Qed.

Lemma ended_stream_final env t ss s : met_attempts env ->
  final_tail (ended_stream from_str to_string as_u64 from_str_args display_obligation_error draw
                deadline_reason config env t ss s).
Proof.
  intros Hq. unfold ended_stream. destruct (negb _ && _); [done|].
  destruct (match ss_budget ss with Some _ => _ | None => _ end) as [[reason|]|f];
    [apply close_and_fail_final| |done].
  destruct (provider_eof_is_failure _); [apply close_and_fail_final|].
  destruct (ss_exhausted ss && _); [destruct (ss_budget ss); [apply close_and_fail_final|done]|].
  unfold structured_output_error. destruct (ss_pending ss).
  - cbn [andb]. destruct (is_empty (trim (ss_text ss))) eqn:Et; [apply retract_final|].
    destruct (match lc_structured_output config with Some _ => _ | None => _ end) eqn:Ev;
      [apply retract_final|].
    apply propose_final_final; [done| |].
    + intros H. by rewrite H in Et.
    + intros output Ho. rewrite Ho in Ev. destruct (so_validate output (ss_text ss)) as [u|]; [by exists u|done].
  - cbn [andb]. destruct (close_turn _ _ env ss s) eqn:E. by apply close_turn_finals in E.
Qed.

(** A trace with its end. *)
Definition answers_last (acts : list Action) (o : LoopOutcome) : Prop :=
  match o with
  | LO_Done => ∃ before answer usage, acts = before ++ [Yield (LI_Final answer usage)] ∧
      finals before = [] ∧ acceptable answer
  | _ => finals acts = []
  end.
Lemma answers_last_app a b o : finals a = [] -> answers_last b o -> answers_last (a ++ b) o.
Proof.
  intros Ha. destruct o; cbn [answers_last]; try (by intros Hb; rewrite finals_app, Ha, Hb).
  intros (before & answer & usage & -> & Hf & Hok). exists (a ++ before), answer, usage.
  rewrite app_assoc, finals_app, Ha, Hf. done.
Qed.

Lemma run_attempt_final env t s acts s' next : met_attempts env -> attempt env t s = (acts, s', next) ->
  match next with
  | N_Done => answers_last acts LO_Done
  | _ => finals acts = []
  end.
Proof.
  intros Hq. unfold run_loop_attempt.
  destruct (prepare_dispatch_attempt _ _ _ _ _) as [prepared|e]; [|by intros [= <- <- <-]].
  set (captured := if lc_on_rendered_request config then _ else []).
  assert (Hc : finals captured = []) by (unfold captured; by destruct (lc_on_rendered_request config)).
  destruct (if lc_on_rendered_request config then ae_capture env else Ok tt); [|by intros [= <- <- <-]].
  assert (Hgo : ∀ pre r, finals pre = [] -> final_tail r ->
    prepend ((captured ++ [Send (pd_request prepared)]) ++ pre) r = (acts, s', next) ->
    match next with N_Done => answers_last acts LO_Done | _ => finals acts = [] end).
  { intros pre [[a2 s2] n2] Hp Hr. cbn [prepend]. intros [= <- <- <-].
    assert (Hpre : finals ((captured ++ [Send (pd_request prepared)]) ++ pre) = [])
      by by rewrite !finals_app, Hc, Hp.
    destruct n2; cbn [final_tail] in Hr; try (by rewrite finals_app, Hpre, Hr).
    destruct Hr as (answer & usage & -> & Hok).
    by exists ((captured ++ [Send (pd_request prepared)]) ++ pre), answer, usage. }
  destruct (ae_response env) as [items|error].
  - destruct (stream s _ _ _ items _) as [streamed ending] eqn:Es. apply consume_stream_finals in Es.
    apply Hgo; [done|]. destruct ending; [by apply ended_stream_final|apply broken_stream_final|done].
  - intros H. apply (Hgo [] _ eq_refl (pre_stream_final error (ae_now env) t s)). by rewrite app_nil_r.
Qed.

Lemma run_turn_final fuel env s acts s' o : (∀ n, met_attempts (ev_attempts env n)) ->
  turn fuel env s = (acts, s', o) -> answers_last acts o.
Proof.
  intros HQ. unfold run_turn. destruct (_ <? _).
  { intros [= <- <- <-]. unfold max_turns_failure. by destruct (split_prompt _) as [[]|]. }
  destruct (build_budgeted_request _ _ _ _ _ _ _) as [[[[req d]|f] conv]|]; [|by intros [= <- <- <-]..].
  destruct (if has_hook then _ else _); [|by intros [= <- <- <-]].
  eapply (run_attempts_rule _ _ _ _ _ _ _ _ _ _ _ _ _ _ met_attempts (λ _ _, True)
    (λ a, finals a = []) (λ a _ o, answers_last a o)); [| | |exact HQ|done].
  - intros a b _ o'. apply answers_last_app.
  - done.
  - intros env0 t s0 acts0 s0' next Hq _ Ha. apply run_attempt_final in Ha; [|done]. by destruct next.
Qed.
End final.

(** The loop gives at most one final answer, as the last thing it does, and only
    when it ends as done: the answer is visible text, passes the structured
    contract where there is one, and every output obligation of the request was met
    by the durable writes read in an attempt of this run. *)
Theorem final_answer_is_acceptable envs prompt history budget :
  let '(acts, o) := run_loop_stream from_str to_string as_u64 from_str_args
    display_obligation_error completion_display streaming_display draw deadline_reason
    estimate_request project_request config tools has_hook envs prompt history budget in
  answers_last (λ env, ∃ turn attempt, env = ev_attempts (envs turn) attempt) acts o.
Proof.
  unfold run_loop_stream. destruct (entry_state config prompt history budget) as [s|]; [|done].
  destruct (turns _ _ envs s) as [[acts s'] o] eqn:Et. revert Et.
  set (Q := λ env, ∃ turn attempt, env = ev_attempts (envs turn) attempt).
  eapply (run_turns_rule _ _ _ _ _ _ _ _ _ _ _ _ _ _ (λ te, ∀ n, Q (ev_attempts te n)) (λ _, True)
    (λ a, finals a = []) (λ a _ o, answers_last Q a o)); [| | |intros n m; by exists n, m|done].
  - intros a b _ o'. apply answers_last_app.
  - done.
  - intros env s0 acts0 s0' o0 Hq _ H. apply (run_turn_final Q) in H; [|done]. by destruct o0.
Qed.
End traces.

