(* ===== verification/AgentLoopHistory.v ===== *)
(** * What the agent loop tells the provider

    Every conversation [AgentLoop] sends is one a strict provider accepts: calls and
    results are paired through the entry, tool turns, failures with effects,
    reminders, compaction and repair. *)

From S2P Require Import Prelude RustStr Float64 Errors TokenBudget RequestState Retry Truncation Messages History HistorySplit Compaction ToolArgs OutputObligation Denial ToolDispatch AgentTurn AgentLoop AgentLoopRuns.
Open Scope Z_scope.

(** ** Pairing of joined conversations *)

Lemma well_paired_join a b : well_paired ∅ b = true -> ∀ p, well_paired p a = true ->
  well_paired p (a ++ b) = true.
Proof.
  intros Hb. induction a as [|[c|c|id c] a IH]; intros p; cbn [app well_paired].
  - intros H. apply bool_decide_eq_true in H as ->. exact Hb.
  - intros [H1 H2]%andb_prop. rewrite H1. by apply IH.
  - intros [H1 H2]%andb_prop. rewrite H1. destruct (consume p (result_keys c)) as [open|]; [|done].
    apply andb_prop in H2 as [H2 H3]. rewrite H2. by apply IH.
  - intros [H1 H2]%andb_prop. rewrite H1. by apply IH.
Qed.

Definition plain (content : list UserContent) : Prop := content ≠ [] ∧ result_keys content = [].
Lemma plain_has_plain c : plain c -> has_plain_content c = true.
Proof. intros [Hn Hr]. destruct c as [|[] c]; done. Qed.
Lemma plain_paired c : plain c -> well_paired ∅ [User c] = true.
Proof.
  intros Hp. cbn [well_paired]. destruct Hp as [Hn Hr]. rewrite Hr, (bool_decide_true _ Hn).
  cbn [consume]. rewrite (bool_decide_true (∅ = ∅)) by done. by rewrite orb_true_r.
Qed.

Lemma well_paired_before_plain a c : plain c -> ∀ p, well_paired p (a ++ [User c]) = true ->
  well_paired p a = true.
Proof.
  intros Hp. induction a as [|[d|d|id d] a IH]; intros p; cbn [app well_paired].
  - rewrite (plain_has_plain _ Hp). destruct Hp as [Hn ->]. cbn [consume negb orb].
    intros [_ H]%andb_prop. by apply andb_prop in H as [H _].
  - intros [H1 H2]%andb_prop. rewrite H1. by apply IH.
  - intros [H1 H2]%andb_prop. rewrite H1. destruct (consume p (result_keys d)) as [open|]; [|done].
    apply andb_prop in H2 as [H2 H3]. rewrite H2. by apply IH.
  - intros [H1 H2]%andb_prop. rewrite H1. by apply IH.
Qed.

(** Dropping request-context messages keeps the pairing of the rest. *)
Definition keep_entry : list Message → list Message :=
  List.filter (λ m, negb (is_request_context_message m)).
Lemma keep_entry_paired a b : ∀ p, well_paired p (a ++ b) = true -> well_paired p (keep_entry a ++ b) = true.
Proof.
  induction a as [|m a IH]; intros p; [done|]. cbn [keep_entry List.filter].
  destruct (is_request_context_message m) eqn:Em; cbn [negb].
  - destruct m as [|[|[t|r|i|au|v|d] [|]]|]; try discriminate Em.
    cbn [app well_paired result_keys omap list_omap consume has_plain_content existsb is_tool_result negb orb].
    intros [_ H]%andb_prop. apply andb_prop in H as [H1 H2]. apply bool_decide_eq_true in H1 as ->.
    by apply IH.
  - fold (keep_entry a). destruct m as [c|c|id c]; cbn [app well_paired].
    + intros [H1 H2]%andb_prop. rewrite H1. by apply IH.
    + intros [H1 H2]%andb_prop. rewrite H1. destruct (consume p (result_keys c)) as [open|]; [|done].
      apply andb_prop in H2 as [H2 H3]. rewrite H2. by apply IH.
    + intros [H1 H2]%andb_prop. rewrite H1. by apply IH.
Qed.

(** A plain prompt survives sanitization as the last message. *)
Lemma sanitize_plain_last l c : plain c ->
  ∃ h, sanitize_history_for_provider (l ++ [User c]) = h ++ [User c].
Proof.
  intros Hp. rewrite sanitize_eq, orphans_app.
  assert (Hk : ∀ p, keep_pending p c = (c, p)).
  { intros p. apply keep_pending_id. by destruct Hp as [_ ->]. }
  assert (Ho : ∀ p, orphans p [User c] = [User c]).
  { intros p. cbn [orphans]. rewrite Hk. destruct c; [by destruct Hp|done]. }
  rewrite Ho, unpaired_app.
  - cbn [unpaired keep_message]. rewrite fmap_app. by eexists.
  - cbn [turn_results]. rewrite (plain_has_plain _ Hp). destruct Hp as [_ ->]. set_solver.
Qed.

(** ** The provider's form *)

Section seam_proofs.
Context (from_str : str → option Json) (to_string : Json → str).

Lemma call_keys_to_rig c : call_keys (to_rig_assistant_content from_str <$> c) = call_keys c.
Proof.
  induction c as [|[t|call|r|i] c IH]; [done| |exact (f_equal (cons (tool_call_key call)) IH)|..]; exact IH.
Qed.
Lemma result_keys_to_rig c : result_keys (to_rig_user_content <$> c) = result_keys c.
Proof.
  induction c as [|[t|r|i|a|v|d] c IH]; [done| |exact (f_equal (cons (tool_result_key r)) IH)|..]; exact IH.
Qed.
Lemma has_plain_to_rig c : has_plain_content (to_rig_user_content <$> c) = has_plain_content c.
Proof. unfold has_plain_content. induction c as [|[] c IH]; cbn; [done|..|done]; rewrite ?IH; done. Qed.

Lemma to_rig_paired l : ∀ p, well_paired p l = true -> well_paired p (to_rig_messages from_str l) = true.
Proof.
  unfold to_rig_messages.
  induction l as [|[c|c|id c] l IH]; intros p; cbn [fmap list_fmap to_rig_message well_paired]; [done|..].
  - intros [H1 H2]%andb_prop. rewrite H1. by apply IH.
  - intros [H1 H2]%andb_prop. destruct c as [|x c]; [done|].
    change (match to_rig_user_content <$> x :: c with [] => [UText (mkText [])] | l0 => l0 end)
      with (to_rig_user_content <$> x :: c).
    rewrite result_keys_to_rig, has_plain_to_rig. destruct (consume p _) as [open|]; [|done].
    apply andb_prop in H2 as [H2 H3]. rewrite H2, (IH _ H3). done.
  - intros [[[H1 H2]%andb_prop H3]%andb_prop H4]%andb_prop. destruct c as [|x c]; [done|].
    change (match to_rig_assistant_content from_str <$> x :: c with
            | [] => [AText (mkText [])] | l0 => l0 end)
      with (to_rig_assistant_content from_str <$> x :: c).
    rewrite call_keys_to_rig, H1, H3, (IH _ H4). done.
Qed.

(** ** Closing a turn *)

Definition pending_calls (l : list PendingResult) : list ToolCall := (λ p, fst (fst p)) <$> l.
Definition keys_of (l : list ToolCall) : list str := tool_call_key <$> l.

Lemma result_content_key p : result_keys [result_content_of from_str to_string p] =
  [tool_call_key (fst (fst p))].
Proof.
  destruct p as [[call iid] b]. cbn [fst]. unfold result_content_of, tool_call_key.
  destruct (tc_call_id call); reflexivity.
Qed.
Lemma result_content_plain p : has_plain_content [result_content_of from_str to_string p] = false.
Proof. destruct p as [[call iid] b]. unfold result_content_of. by destruct (tc_call_id call). Qed.

Lemma results_paired l : NoDup (keys_of (pending_calls l)) ->
  well_paired (list_to_set (keys_of (pending_calls l)))
    ((λ p, User [result_content_of from_str to_string p]) <$> l) = true.
Proof.
  induction l as [|p l IH]; [done|].
  change (keys_of (pending_calls (p :: l))) with
    (tool_call_key (fst (fst p)) :: keys_of (pending_calls l)).
  generalize (tool_call_key (fst (fst p))) (result_content_key p). intros k Hr Hn.
  inversion_clear Hn as [|? ? Hk Hn']. cbn [fmap list_fmap well_paired].
  rewrite Hr, result_content_plain. cbn [consume list_to_set].
  rewrite (bool_decide_true ([_] ≠ [])) by done.
  rewrite (bool_decide_true (k ∈ _)) by set_solver. cbn [negb orb andb].
  replace (({[k]} ∪ list_to_set (keys_of (pending_calls l))) ∖ {[k]})
    with (list_to_set (keys_of (pending_calls l)) : gset str); [by apply IH|].
  apply set_eq. intros k'. rewrite elem_of_difference, elem_of_union, elem_of_singleton, !elem_of_list_to_set.
  split; [|tauto]. intros Hin. split; [by right|]. intros ->. by apply Hk.
Qed.

Lemma call_keys_tool_calls l : call_keys (AToolCall <$> l) = keys_of l.
Proof. induction l as [|c l IH]; [done|]. exact (f_equal (cons (tool_call_key c)) IH). Qed.
Lemma build_content_keys a : call_keys (build_content a) = keys_of (ac_tool_calls a).
Proof.
  unfold build_content. rewrite !call_keys_app, call_keys_tool_calls.
  assert (Hr : call_keys (AReasoning <$> assembled_reasoning a) = []).
  { induction (assembled_reasoning a) as [|r l IH]; [done|exact IH]. }
  rewrite Hr. by destruct (is_empty (ac_text a)).
Qed.

(** The assistant message of a turn, followed by what answers its calls. *)
Lemma assistant_paired new_messages a id tail :
  NoDup (keys_of (ac_tool_calls a)) ->
  well_paired (list_to_set (keys_of (ac_tool_calls a))) tail = true ->
  ∃ added, push_assistant new_messages a id = new_messages ++ added ∧ well_paired ∅ (added ++ tail) = true.
Proof.
  intros Hn Ht. unfold push_assistant, take_message, build_message. cbn [fst].
  pose proof (build_content_keys a) as Hk. destruct (build_content a) as [|x content].
  - exists []. split; [by rewrite app_nil_r|]. by rewrite <-Hk in Ht.
  - exists [Assistant id (x :: content)]. split; [done|]. cbn [app well_paired].
    rewrite Hk, (bool_decide_true _ Hn), Ht. by rewrite !bool_decide_true.
Qed.
End seam_proofs.

(** ** The loop *)

Definition request_messages (r : LoopRequest) : list Message :=
  rb_chat_history (rest r) ++ [rb_prompt (rest r)].

(** The keys of the calls a stream announces. *)
Definition announced_keys (items : list (result CompletionError StreamedAssistantContent)) : list str :=
  omap (λ item, match item with Ok (SC_ToolCall call _ _) => Some (tool_call_key call) | _ => None end) items.

Section loop_history.
Context (from_str : str → option Json) (to_string : Json → str).
Context (as_u64 : str → option Z) (from_str_args : str → result str Json).
Context (display_obligation_error : ObligationError → str).
Context (completion_display : CompletionError → str) (streaming_display : StreamingError → str).
Context (draw : Z → Z) (deadline_reason : Z → option Z → str).
Context (estimate_request : LoopRequest → result str Z).
Context (project_request : LoopRequest → result str ProviderInputProjection).
Context (config : LoopConfig) (tools : Toolbox) (has_hook : bool).

Local Abbreviation attempt := (run_loop_attempt from_str to_string as_u64 from_str_args
  display_obligation_error completion_display streaming_display draw deadline_reason
  estimate_request project_request config tools has_hook).
Local Abbreviation attempts := (run_attempts from_str to_string as_u64 from_str_args
  display_obligation_error completion_display streaming_display draw deadline_reason
  estimate_request project_request config tools has_hook).
Local Abbreviation turn := (run_turn from_str to_string as_u64 from_str_args
  display_obligation_error completion_display streaming_display draw deadline_reason
  estimate_request project_request config tools has_hook).
Local Abbreviation turns := (run_turns from_str to_string as_u64 from_str_args
  display_obligation_error completion_display streaming_display draw deadline_reason
  estimate_request project_request config tools has_hook).


Local Abbreviation stream := (consume_stream from_str tools has_hook).

Lemma build_request_paired prompt history prior : well_paired ∅ (history ++ prior ++ [prompt]) = true ->
  well_paired ∅ (request_messages (build_request from_str prompt history prior tools config)) = true.
Proof.
  intros H. apply (to_rig_paired from_str) in H. unfold to_rig_messages in H. rewrite !fmap_app in H.
  unfold request_messages, build_request. cbn [rest rb_chat_history rb_prompt].
  rewrite <-!app_assoc. destruct (lc_preamble config); exact H.
Qed.

(** What holds of the conversation between attempts. *)
Definition paired (s : LoopState) : Prop := well_paired ∅ (effective_messages (ls_conv s)) = true.

(** *** The stream *)

(** The accumulated calls are those with a pending result. *)
Definition in_step (ss : StreamState) : Prop := ac_tool_calls (ss_acc ss) = pending_calls (ss_pending ss).
Definition stream_keys (ss : StreamState) : list str := keys_of (pending_calls (ss_pending ss)).

Lemma on_item_keys s item ss acts ss' : in_step ss ->
  on_item from_str tools has_hook s item ss = (acts, Ok ss') ->
  in_step ss' ∧ stream_keys ss' = stream_keys ss ++ announced_keys [Ok item].
Proof.
  unfold in_step, stream_keys. intros Hs.
  destruct item as [t|r0|id t|call iid env| |usage]; cbn [on_item];
    try (intros [= <- <-]; split; [exact Hs|by rewrite app_nil_r]).
  - destruct (execute_call _ _ _ s call iid env) as [executed [bounded|f]]; [|done].
    intros [= <- <-]. cbn [ss_acc ss_pending push_pending set_acc ac_tool_calls push_tool_call].
    unfold pending_calls, keys_of in *. rewrite !fmap_app, Hs. by split.
  - intros [= <- H]. unfold final_item in H.
    assert (ss_acc ss' = ss_acc ss ∧ ss_pending ss' = ss_pending ss) as [-> ->].
    { destruct (ss_budget ss) as [b|]; [|by injection H as <-].
      destruct (budget_charge_reported usage b) as [[[charge l]|e] b']; [|done].
      by destruct charge; injection H as <-. }
    split; [exact Hs|by rewrite app_nil_r].
Qed.

Lemma announced_keys_cons x l : announced_keys (x :: l) = announced_keys [x] ++ announced_keys l.
Proof. apply (omap_app _ [x] l). Qed.

Lemma consume_stream_keys s ti at_ armed items : ∀ ss acts e, in_step ss ->
  stream s ti at_ armed items ss = (acts, e) ->
  match e with
  | Eof ss' | Broken _ ss' =>
      in_step ss' ∧ ∃ later, stream_keys ss ++ announced_keys items = stream_keys ss' ++ later
  | Aborted _ => True
  end.
Proof.
  induction items as [|[item|error] rest IH]; intros ss acts e Hs; cbn [consume_stream].
  - intros [= <- <-]. split; [done|]. by exists [].
  - destruct (negb _ && armed); [by intros [= <- <-]|].
    destruct (on_item _ _ _ s item (see_item ss)) as [acts1 [ss1|f]] eqn:E1; [|by intros [= <- <-]].
    apply on_item_keys in E1 as [H1 H2]; [|exact Hs].
    destruct (stream s ti at_ armed rest ss1) as [acts2 e2] eqn:E2. intros [= <- <-].
    specialize (IH _ _ _ H1 E2). change (stream_keys (see_item ss)) with (stream_keys ss) in H2.
    rewrite announced_keys_cons, app_assoc, <-H2. exact IH.
  - intros [= <- <-]. split; [done|]. by eexists.
Qed.

(** *** After the stream *)

Definition paired_tail (r : list Action * LoopState * Next) : Prop :=
  let '(_, s', next) := r in
  match next with
  | N_Attempt req _ => paired s' ∧ well_paired ∅ (request_messages req) = true
  | N_Turn => paired s'
  | _ => True
  end.
Definition requested (t : TurnState) : Prop := well_paired ∅ (request_messages (ts_request t)) = true.

Lemma pre_stream_paired error now t s : paired s -> requested t ->
  paired_tail (pre_stream_failure from_str completion_display streaming_display draw deadline_reason
                 config tools error now t s).
Proof.
  intros Hs Ht. unfold pre_stream_failure.
  destruct (on_pre_stream_failure _ _ _ _ _ _ _) as [[delay k| |reason] r]; [by split| |done].
  unfold repair_and_rebuild_request, repair_provider_input. cbn [set_retry ls_conv].
  pose proof (sanitize_well_paired (repair_messages from_str (cv_history (ls_conv s) ++ cv_new_messages (ls_conv s)))) as Hw.
  destruct (rev (sanitize_history_for_provider _)) as [|prompt prior] eqn:Er; [done|]. cbn.
  rewrite <-(rev_involutive (sanitize_history_for_provider _)), Er in Hw. cbn [rev] in Hw.
  split; [exact Hw|]. exact (build_request_paired prompt (rev prior) [] Hw).
Qed.
Lemma retract_paired now t s f : paired s -> requested t ->
  paired_tail (retract draw deadline_reason config now t s f).
Proof.
  intros Hs Ht. unfold retract. destruct (on_mid_stream_failure _ _ _ _ _ _) as [[]]; [by split|done..].
Qed.

Lemma close_turn_paired env ss s acts s' : paired s -> in_step ss -> NoDup (stream_keys ss) ->
  close_turn from_str to_string env ss s = (acts, s') -> paired s'.
Proof.
  intros Hs Hi Hn. unfold close_turn. cbn [close_streaming_turn]. intros [= _ <-].
  destruct (assistant_paired (cv_new_messages (ls_conv s)) (ss_acc ss) (ae_message_id env)
    ((λ p, User [result_content_of from_str to_string p]) <$> ss_pending ss)) as (added & Ha & Hw).
  - by rewrite Hi.
  - rewrite Hi. by apply results_paired.
  - unfold paired, effective_messages. cbn [set_messages set_conv ls_conv cv_history cv_new_messages].
    rewrite Ha, <-app_assoc, app_assoc. apply well_paired_join; [exact Hw|exact Hs].
Qed.

Lemma broken_stream_paired env error t ss s : paired s -> requested t -> in_step ss -> NoDup (stream_keys ss) ->
  paired_tail (broken_stream from_str to_string completion_display streaming_display draw
                 deadline_reason config tools env error t ss s).
Proof.
  intros Hs Ht Hi Hn. unfold broken_stream. destruct (ss_pending ss).
  - destruct (negb _); [by apply pre_stream_paired|]. destruct (ss_budget ss); [done|by apply retract_paired].
  - destruct (ss_budget ss); [by destruct (close_turn _ _ env ss s)|].
    destruct (on_mid_stream_failure _ _ _ _ _ _) as [[] r]; [done| |done].
    destruct (close_turn _ _ env ss _) eqn:E. by eapply close_turn_paired in E.
Qed.

Lemma propose_final_paired env ss s : paired s -> in_step ss -> ss_pending ss = [] ->
  paired_tail (propose_final as_u64 from_str_args display_obligation_error config env ss s).
Proof.
  intros Hs Hi Hp. unfold propose_final. destruct (lc_output_obligation_gate config) as [[doc obs]|]; [|done].
  destruct (unmet _ _ _ _ _) as [[|u us]|e]; [done| |done]. cbn [paired_tail].
  assert (Hc : keys_of (ac_tool_calls (ss_acc ss)) = []) by (rewrite Hi, Hp; done).
  destruct (assistant_paired (cv_new_messages (ls_conv s)) (ss_acc ss) (ae_message_id env)
    [message_user (continuation_message (u :: us))]) as (added & Ha & Hw).
  - rewrite Hc. constructor.
  - rewrite Hc. by apply plain_paired.
  - unfold paired, effective_messages. cbn [set_messages set_conv ls_conv cv_history cv_new_messages].
    rewrite Ha, <-app_assoc, app_assoc. apply well_paired_join; [exact Hw|exact Hs].
Qed.

Lemma ended_stream_paired env t ss s : paired s -> requested t -> in_step ss -> NoDup (stream_keys ss) ->
  paired_tail (ended_stream from_str to_string as_u64 from_str_args display_obligation_error draw
                 deadline_reason config env t ss s).
Proof.
  intros Hs Ht Hi Hn. unfold ended_stream, close_and_fail. destruct (negb _ && _); [done|].
  destruct (match ss_budget ss with Some _ => _ | None => _ end) as [[reason|]|f];
    [by destruct (close_turn _ _ env ss s)| |done].
  destruct (provider_eof_is_failure _); [by destruct (close_turn _ _ env ss s)|].
  destruct (ss_exhausted ss && _).
  { destruct (ss_budget ss); [by destruct (close_turn _ _ env ss s)|done]. }
  unfold structured_output_error. destruct (ss_pending ss) eqn:Ep.
  - cbn [andb]. destruct (is_empty _); [by apply retract_paired|].
    destruct (match lc_structured_output config with Some _ => _ | None => _ end);
      [by apply retract_paired|by apply propose_final_paired].
  - cbn [andb]. destruct (close_turn _ _ env ss s) eqn:E. by eapply close_turn_paired in E.
Qed.

(** *** Attempts and turns *)

Definition distinct_calls_of (env : AttemptEnv) : Prop :=
  ∀ items, ae_response env = Ok items -> NoDup (announced_keys items).
Definition paired_request (r : LoopRequest) : Prop := well_paired ∅ (request_messages r) = true.

Lemma prepare_rest r w budget d :
  prepare_dispatch_attempt estimate_request project_request r w budget = Ok d -> rest (pd_request d) = rest r.
Proof.
  unfold prepare_dispatch_attempt, clamp_request_aggregate_token_budget, ensure_context_can_dispatch,
    projection_failed, budget_snapshot. intros H. repeat case_match; simplify_eq; done.
Qed.

Lemma run_attempt_paired env t s acts s' next : distinct_calls_of env -> paired s -> requested t ->
  attempt env t s = (acts, s', next) ->
  Forall paired_request (sends acts) ∧ paired_tail (acts, s', next).
Proof.
  intros Hd Hs Ht. unfold run_loop_attempt.
  destruct (prepare_dispatch_attempt _ _ _ _ _) as [prepared|e] eqn:Ep; [|by intros [= <- <- <-]; split; [constructor|]].
  apply prepare_rest in Ep.
  set (captured := if lc_on_rendered_request config then _ else []).
  assert (Hc : sends captured = []) by (unfold captured; by destruct (lc_on_rendered_request config)).
  destruct (if lc_on_rendered_request config then ae_capture env else Ok tt);
    [|by intros [= <- <- <-]; rewrite Hc; split; [constructor|]].
  assert (Hgo : ∀ pre r, sends pre = [] -> tail_frame s r -> paired_tail r ->
    prepend ((captured ++ [Send (pd_request prepared)]) ++ pre) r = (acts, s', next) ->
    Forall paired_request (sends acts) ∧ paired_tail (acts, s', next)).
  { intros pre [[a2 s2] n2] Hp (H1 & _) Hr. cbn [prepend]. intros [= <- <- <-].
    rewrite !sends_app, Hc, Hp, H1. split; [|exact Hr].
    constructor; [|constructor]. unfold paired_request, request_messages. rewrite Ep. exact Ht. }
  destruct (ae_response env) as [items|error] eqn:Er.
  - destruct (stream s _ _ _ items _) as [streamed ending] eqn:Es.
    pose proof (consume_stream_ok _ _ _ _ _ _ _ _ _ _ _ Es) as [Hs1 Hs2].
    specialize (Hs2 (λ H, False_ind _ (diff_false_true H))).
    apply consume_stream_keys in Es; [|done].
    assert (Hn : ∀ later ss, stream_keys (initial_stream s) ++ announced_keys items = stream_keys ss ++ later ->
      NoDup (stream_keys ss)).
    { intros later ss H. specialize (Hd _ Er). cbn in H. rewrite H in Hd. by apply list.NoDup_app in Hd as [? _]. }
    destruct ending as [ss|error ss|f].
    + destruct Es as (Hi & later & Hl). apply Hgo; [done| |].
      * exact (ended_stream_frame from_str to_string as_u64 from_str_args display_obligation_error
          draw deadline_reason config env t ss (adopt_stream ss s) Hs2).
      * apply ended_stream_paired; [done|done|done|by eapply Hn].
    + destruct Es as (Hi & later & Hl). apply Hgo; [done| |].
      * exact (broken_stream_frame from_str to_string completion_display streaming_display draw
          deadline_reason config tools env error t ss (adopt_stream ss s)).
      * apply broken_stream_paired; [done|done|done|by eapply Hn].
    + apply Hgo; [done| |done]. repeat split; solve [done|exact (λ H, H)].
  - intros H. apply (Hgo [] _ eq_refl (pre_stream_frame from_str completion_display streaming_display draw
      deadline_reason config tools error (ae_now env) t s)); [by apply pre_stream_paired|by rewrite app_nil_r].
Qed.

(** The compactor answers with well-paired messages. *)
Definition compactor_pairs (env : TurnEnv) : Prop :=
  ∀ request outcome, ev_compactor env request = Ok outcome ->
    match outcome with
    | TCO_ProviderViewRepaired messages | TCO_Reduced messages _ => well_paired ∅ messages = true
    | TCO_CannotFit => True
    end.

Lemma build_budgeted_paired env ti c req d c' : compactor_pairs env -> well_paired ∅ (effective_messages c) = true ->
  build_budgeted_request from_str project_request (ev_compactor env) tools config ti c = Some (Ok (req, d), c') ->
  well_paired ∅ (effective_messages c') = true ∧ paired_request req.
Proof.
  intros Hc Hw. unfold build_budgeted_request.
  destruct (split_prompt (cv_new_messages c)) as [[prior prompt]|] eqn:Esp; [|done].
  apply split_prompt_Some in Esp.
  assert (Hreq : paired_request (build_request from_str prompt (cv_history c) prior tools config)).
  { apply build_request_paired. unfold effective_messages in Hw. by rewrite Esp in Hw. }
  destruct (lift_streaming _) as [projection|e]; [|done].
  destruct (negb _); [by intros [= <- <- <-]|].
  destruct (admission_for_input _ _ _) as [admission|]; [|by intros [= <- <- <-]].
  assert (Hadopt : ∀ messages key reason, well_paired ∅ messages = true ->
    match adopt_compaction c messages key with
    | None => (Err (provider_failure (lit "per-turn provider-input compaction returned no prompt")), c)
    | Some (c', prompt) => (rebuild_compacted from_str project_request tools config c' prompt reason
        (pp_estimated_input_tokens projection), c')
    end = (Ok (req, d), c') -> well_paired ∅ (effective_messages c') = true ∧ paired_request req).
  { intros messages key reason Hm. unfold adopt_compaction.
    destruct (split_prompt messages) as [[h p]|] eqn:Em; [|done]. apply split_prompt_Some in Em as ->.
    unfold rebuild_compacted. destruct (lift_streaming _); [|done].
    destruct (_ && _); [done|]. intros [= <- _ <-]. split; [exact Hm|].
    apply build_request_paired. cbn [cv_history]. exact Hm. }
  destruct (ev_compactor env _) as [[messages|messages key|]|e] eqn:Eo; [..|done].
  - intros [= H]. eapply Hadopt, H. exact (Hc _ _ Eo).
  - intros [= H]. eapply Hadopt, H. exact (Hc _ _ Eo).
  - done.
Qed.

Lemma run_turn_paired fuel env s acts s' o : compactor_pairs env -> (∀ n, distinct_calls_of (ev_attempts env n)) ->
  paired s -> turn fuel env s = (acts, s', o) ->
  Forall paired_request (sends acts) ∧ (o = LO_NextTurn -> paired s').
Proof.
  intros Hc HQ Hs. unfold run_turn. destruct (_ <? _).
  { intros [= <- <- <-]. unfold max_turns_failure. split; [constructor|]. by destruct (split_prompt _) as [[]|]. }
  destruct (build_budgeted_request _ _ _ _ _ _ _) as [[[[req d]|f] conv]|] eqn:Eb;
    [|by intros [= <- <- <-]; split; [constructor|]..].
  apply build_budgeted_paired in Eb as [Hw Hr]; [|done|done].
  destruct (if has_hook then _ else _); [|by intros [= <- <- <-]; split; [constructor|]].
  eapply (run_attempts_rule _ _ _ _ _ _ _ _ _ _ _ _ _ _ distinct_calls_of (λ t s, paired s ∧ requested t)
    (λ a, Forall paired_request (sends a)) (λ a s o, Forall paired_request (sends a) ∧ (o = LO_NextTurn -> paired s)));
    [| | |exact HQ|by split].
  - intros a b s1 o1 Ha [Hb Hn]. rewrite sends_app, Forall_app. done.
  - intros s1. by split; [constructor|].
  - intros env0 t s1 acts0 s1' next Hd [Hp Ht] Ha. apply run_attempt_paired in Ha as [H1 H2]; [|done..].
    destruct next as [r p| | | |]; cbn [paired_tail] in H2; [|by split..]. by destruct H2.
Qed.

(** The context message is plain, and comes with a plain prompt: a resumed request,
    whose prompt may be a tool result, has none. *)
Definition context_fits (prompt : Message) : Prop :=
  match lc_context_message config with
  | None => True
  | Some m => ∃ c, m = User c ∧ plain c ∧ ∃ c', prompt = User c' ∧ plain c'
  end.

Lemma entry_paired prompt history budget s : context_fits prompt ->
  entry_state config prompt history budget = Some s -> paired s.
Proof.
  unfold entry_state, context_fits. intros Hf.
  pose proof (sanitize_well_paired (history ++ [prompt])) as Hw.
  destruct (split_prompt (sanitize_history_for_provider _)) as [[h p]|] eqn:Es; [|done].
  apply split_prompt_Some in Es. intros [= <-].
  unfold paired, effective_messages, assemble_new_messages. cbn [ls_conv cv_history cv_new_messages].
  fold (keep_entry h). rewrite Es in Hw.
  destruct (lc_context_message config) as [m|]; [|by apply keep_entry_paired].
  destruct Hf as (c & -> & Hc & c' & -> & Hc').
  destruct (sanitize_plain_last history c' Hc') as [h' Hh]. rewrite Es in Hh.
  apply app_inj_tail in Hh as [<- ->]. apply keep_entry_paired.
  rewrite app_assoc. apply well_paired_join; [by apply plain_paired|].
  apply well_paired_join; [by apply plain_paired|]. by eapply well_paired_before_plain.
Qed.

End loop_history.

