(* ===== verification/AgentConsumer.v ===== *)
(** * Consumers of the agent loop

    What the runtime does with the items the loop yields: the stream processor of
    a request ([src/crates/gents/src/agent/stream_processor.rs]), which writes
    tokens, persists turns and advances the lease, and the one-shot consumer
    ([agent/loop_stream/one_shot.rs]).

    A consumer is a sequence of effects on the response stream, the session hook
    and the lifecycle.  [answer] says what the effect at a position returns; an
    effect that fails ends the item, unless the hook's failure policy lets
    persistence fail open. *)

From S2P Require Import Prelude RustStr Float64 Errors TokenBudget RequestState Retry Truncation Messages History HistorySplit Compaction ToolArgs OutputObligation Denial ToolDispatch AgentTurn AgentLoop AgentLoopRuns AgentLoopHistory.
Open Scope Z_scope.

(** ** Effects *)

Inductive FailurePolicy : Type := FailOpen | FailClosed.
Inductive Effect : Type :=
| FX_WriteTokens (t : str)
| FX_WriteReasoning (t : str)
| FX_FlushPending
| FX_ResetTail
| FX_RegisterCall (internal_call_id id : str) (call_id : option str)
| FX_PersistInflight (m : Message)
| FX_PersistMessage (m : Message)
| FX_PersistToolResult (r : ToolResult) (internal_call_id : str)
| FX_MarkMaterialized (sequence : Z)
| FX_Advance.
Inductive ConsumerError : Type :=
| CE_Failed (error : str)
| CE_Panic.

(** Effects performed so far, and the result of the computation. *)
Definition M (A : Type) : Type := list Effect → result ConsumerError A * list Effect.
Definition ret {A} (a : A) : M A := λ tr, (Ok a, tr).
Definition raise {A} (e : ConsumerError) : M A := λ tr, (Err e, tr).
Definition bind {A B} (c : M A) (k : A → M B) : M B :=
  λ tr, match c tr with (Ok a, tr') => k a tr' | (Err e, tr') => (Err e, tr') end.
Notation "'let*' x ':=' c 'in' k" :=
  (bind c (λ x, k)) (at level 10, x pattern, c at level 200, k at level 200).
(** [let _ = c.await;] keeps the outcome. *)
Definition attempt_effect {A} (c : M A) : M (result ConsumerError A) :=
  λ tr, let '(r, tr') := c tr in (Ok r, tr').

Section consumers.
Context (answer : nat → Effect → result str Z).
Context (failure_policy : FailurePolicy).
Context (from_str : str → option Json).

Definition perform (e : Effect) : M Z :=
  λ tr, (match answer (length tr) e with Ok n => Ok n | Err error => Err (CE_Failed error) end,
         tr ++ [e]).
Definition apply_persistence_policy {A} (result : result ConsumerError A) : M unit :=
  match result with
  | Ok _ => ret tt
  | Err e => match failure_policy with FailOpen => ret tt | FailClosed => raise e end
  end.
(** [apply_persistence_policy(persist(..).await.map(|_| ()), ..)?]. *)
Definition persist_under_policy (e : Effect) : M unit :=
  let* r := attempt_effect (perform e) in apply_persistence_policy r.

(** ** [StreamProcessor] *)

Record StreamProcessor : Type := mkProcessor {
  sp_turn : AssistantTurnAccumulator;
  sp_streamed_text : str;
  sp_committed_text_len : Z;
  sp_final_text : option str }.
Inductive StreamAction : Type := SA_Continue | SA_Done.

Definition set_turn (a : AssistantTurnAccumulator) (p : StreamProcessor) : StreamProcessor :=
  mkProcessor a (sp_streamed_text p) (sp_committed_text_len p) (sp_final_text p).
Definition set_streamed (t : str) (p : StreamProcessor) : StreamProcessor :=
  mkProcessor (sp_turn p) t (sp_committed_text_len p) (sp_final_text p).
Definition commit_text (p : StreamProcessor) : StreamProcessor :=
  mkProcessor (sp_turn p) (sp_streamed_text p) (str_len (sp_streamed_text p)) (sp_final_text p).
Definition set_final (t : str) (p : StreamProcessor) : StreamProcessor :=
  mkProcessor (sp_turn p) (sp_streamed_text p) (sp_committed_text_len p) (Some t).
(** [String::truncate]: nothing beyond the length, a panic inside a character. *)
Definition truncate_streamed (p : StreamProcessor) : M StreamProcessor :=
  if str_len (sp_streamed_text p) <=? sp_committed_text_len p then ret p
  else match slice_to (sp_streamed_text p) (sp_committed_text_len p) with
       | Some kept => ret (set_streamed kept p)
       | None => raise CE_Panic
       end.
Definition visible (t : str) : bool := negb (is_empty (trim t)).

(** Persist the accumulated message, if there is one. *)
Definition persist_turn (p : StreamProcessor) : M StreamProcessor :=
  let '(m, emptied) := take_message (sp_turn p) in
  let p := set_turn emptied p in
  match m with
  | Some m => let* _ := persist_under_policy (FX_PersistMessage m) in ret p
  | None => ret p
  end.

Definition process_text (t : str) (p : StreamProcessor) : M StreamProcessor :=
  let had_visible_text := visible (sp_streamed_text p) in
  let p := set_streamed (sp_streamed_text p ++ t) (set_turn (push_text t (sp_turn p)) p) in
  let* _ := perform (FX_WriteTokens t) in
  if negb had_visible_text && visible (sp_streamed_text p)
  then let* _ := perform FX_FlushPending in ret p
  else ret p.

Definition process_tool_call (call : ToolCall) (iid : str) (p : StreamProcessor) : M StreamProcessor :=
  let* _ := perform FX_FlushPending in
  let* _ := attempt_effect (perform (FX_RegisterCall iid (tc_id call) (tc_call_id call))) in
  let p := set_turn (push_tool_call (from_rig_tool_call from_str call) (sp_turn p)) p in
  match message_snapshot (sp_turn p) with
  | Some m =>
      let* persisted := attempt_effect (perform (FX_PersistInflight m)) in
      let* _ := apply_persistence_policy persisted in
      if is_ok persisted then let* _ := perform FX_Advance in ret p else ret p
  | None => ret p
  end.

Definition process_tool_result (r : ToolResult) (iid : str) (p : StreamProcessor) : M StreamProcessor :=
  let* _ := perform FX_FlushPending in
  let* p := persist_turn p in
  let p := commit_text p in
  let* persisted := attempt_effect (perform (FX_PersistToolResult r iid)) in
  let* _ := apply_persistence_policy persisted in
  let* _ := (match persisted with Ok 1 => perform FX_Advance | _ => ret 0 end) in
  let* _ := perform FX_ResetTail in
  ret p.

Definition process_final (response : str) (p : StreamProcessor) : M StreamProcessor :=
  let '(m, emptied) := take_message (reconcile_text response (sp_turn p)) in
  let p := set_turn emptied p in
  let* _ := perform FX_FlushPending in
  match m with
  | Some m =>
      let* sequence := perform (FX_PersistMessage m) in
      let* _ := perform FX_Advance in
      let* _ := persist_under_policy (FX_MarkMaterialized sequence) in
      let* _ := perform FX_ResetTail in
      ret (set_final response (commit_text p))
  | None => ret (set_final response p)
  end.

Definition process_obligation (reminder : Message) (p : StreamProcessor) : M StreamProcessor :=
  let* _ := perform FX_FlushPending in
  let* p := persist_turn p in
  let* _ := persist_under_policy (FX_PersistMessage reminder) in
  let* p := truncate_streamed p in
  let* _ := perform FX_ResetTail in
  ret p.

Definition process_item (item : LoopStreamItem) (p : StreamProcessor)
    : M (StreamAction * StreamProcessor) :=
  let continue c := let* p := c in ret (SA_Continue, p) in
  match item with
  | LI_Text t => continue (process_text t p)
  | LI_Reasoning r =>
      let rendered := render_reasoning_text r in
      let p := set_turn (push_reasoning r (sp_turn p)) p in
      continue (if is_empty rendered then ret p
                else let* _ := perform (FX_WriteReasoning rendered) in ret p)
  | LI_ReasoningDelta id reasoning =>
      let p := set_turn (push_reasoning_delta id reasoning (sp_turn p)) p in
      continue (if is_empty reasoning then ret p
                else let* _ := perform (FX_WriteReasoning reasoning) in ret p)
  | LI_ToolCall call iid => continue (process_tool_call call iid p)
  | LI_ToolResult r iid => continue (process_tool_result r iid p)
  | LI_Final response _ => let* p := process_final response p in ret (SA_Done, p)
  | LI_TurnRetracted _ _ _ =>
      continue (let* p := truncate_streamed (set_turn default_accumulator p) in
                let* _ := perform FX_ResetTail in ret p)
  | LI_OutputObligationPending reminder => continue (process_obligation reminder p)
  | LI_AttemptFailed _ _ _ _ _ => ret (SA_Continue, p)
  end.

(** The items of a stream, up to the final one. *)
Fixpoint process_items (items : list LoopStreamItem) (p : StreamProcessor) : M StreamProcessor :=
  match items with
  | [] => ret p
  | item :: rest =>
      let* r := process_item item p in
      match fst r with SA_Continue => process_items rest (snd r) | SA_Done => ret (snd r) end
  end.

Definition persist_partial_turn (p : StreamProcessor) : M (bool * StreamProcessor) :=
  let '(m, emptied) := take_message (sp_turn p) in
  let p := set_turn emptied p in
  match m with
  | None => ret (false, p)
  | Some m =>
      let* persisted := attempt_effect (perform (FX_PersistMessage m)) in
      let* _ := (match persisted with
               | Ok sequence => persist_under_policy (FX_MarkMaterialized sequence)
               | Err _ => apply_persistence_policy persisted
               end) in
      let* _ := perform FX_ResetTail in
      ret (true, p)
  end.

(** ** [run_loop_to_text] *)

Record OneShot : Type := mkOneShot {
  os_accumulator : AssistantTurnAccumulator;
  os_final_text : option str;
  os_last_attempt_error : option InferenceError }.
Context (has_hook : bool).

Definition os_set_acc (a : AssistantTurnAccumulator) (o : OneShot) : OneShot :=
  mkOneShot a (os_final_text o) (os_last_attempt_error o).
(** Under a hook the accumulated message is persisted and the accumulator emptied. *)
Definition os_persist_turn (o : OneShot) : M OneShot :=
  let '(m, emptied) := take_message (os_accumulator o) in
  match m with
  | Some m => let* _ := persist_under_policy (FX_PersistMessage m) in ret (os_set_acc emptied o)
  | None => ret (os_set_acc emptied o)
  end.
Definition one_shot_item (item : LoopStreamItem) (o : OneShot) : M OneShot :=
  let a := os_accumulator o in
  match item with
  | LI_TurnRetracted _ _ _ => ret (os_set_acc default_accumulator o)
  | LI_OutputObligationPending reminder =>
      let* o := (if has_hook
               then let* o := os_persist_turn o in
                    let* _ := persist_under_policy (FX_PersistMessage reminder) in ret o
               else ret o) in
      ret (os_set_acc default_accumulator o)
  | LI_AttemptFailed _ _ error _ _ => ret (mkOneShot a (os_final_text o) (Some error))
  | LI_Text t => ret (os_set_acc (push_text t a) o)
  | LI_Reasoning r => ret (os_set_acc (push_reasoning r a) o)
  | LI_ReasoningDelta id reasoning => ret (os_set_acc (push_reasoning_delta id reasoning a) o)
  | LI_ToolCall call iid =>
      let* _ := (if has_hook
               then attempt_effect (perform (FX_RegisterCall iid (tc_id call) (tc_call_id call)))
               else ret (Ok 0)) in
      ret (os_set_acc (push_tool_call (from_rig_tool_call from_str call) a) o)
  | LI_ToolResult r iid =>
      if has_hook
      then let* o := os_persist_turn o in
           let* _ := persist_under_policy (FX_PersistToolResult r iid) in ret o
      else ret o
  | LI_Final response _ =>
      let o := os_set_acc (reconcile_text response a) o in
      let* o := (if has_hook then os_persist_turn o else ret o) in
      ret (mkOneShot (os_accumulator o) (Some response) (os_last_attempt_error o))
  end.
Fixpoint one_shot_items (items : list LoopStreamItem) (o : OneShot) : M OneShot :=
  match items with
  | [] => ret o
  | item :: rest => let* o := one_shot_item item o in one_shot_items rest o
  end.

(** The failure of the loop, the error of the last failed attempt with it, or the
    end of the stream without a final response. *)
Inductive OneShotError : Type :=
| OS_Consumer (e : ConsumerError)
| OS_Loop (failure : LoopFailure) (after : option InferenceError)
| OS_NoFinal.
Definition run_loop_to_text (items : list LoopStreamItem) (failure : option LoopFailure)
    (tr : list Effect) : result OneShotError str * list Effect :=
  match one_shot_items items (mkOneShot default_accumulator None None) tr with
  | (Err e, tr) => (Err (OS_Consumer e), tr)
  | (Ok o, tr) =>
      (match failure with
       | Some f => Err (OS_Loop f (os_last_attempt_error o))
       | None => match os_final_text o with Some t => Ok t | None => Err OS_NoFinal end
       end, tr)
  end.
End consumers.

(** ** The processor persists what the loop threads *)

Definition yields (acts : list Action) : list LoopStreamItem :=
  omap (λ a, match a with Yield i => Some i | _ => None end) acts.
Lemma yields_app a b : yields (a ++ b) = yields a ++ yields b.
Proof. apply omap_app. Qed.
(** The messages of a sequence of effects. *)
Definition persisted (fx : list Effect) : list Message :=
  omap (λ e, match e with
             | FX_PersistMessage m => Some m
             | FX_PersistToolResult r _ => Some (User [UToolResult r])
             | _ => None
             end) fx.
Lemma persisted_app a b : persisted (a ++ b) = persisted a ++ persisted b.
Proof. apply omap_app. Qed.
(** The provider's message id is not persisted. *)
Definition erase_id (m : Message) : Message := set_message_id None m.

Section mirror.
Context (from_str : str → option Json) (to_string : Json → str).
Context (as_u64 : str → option Z) (from_str_args : str → result str Json).
Context (display_obligation_error : ObligationError → str).
Context (completion_display : CompletionError → str) (streaming_display : StreamingError → str).
Context (draw : Z → Z) (deadline_reason : Z → option Z → str).
Context (estimate_request : LoopRequest → result str Z).
Context (project_request : LoopRequest → result str ProviderInputProjection).
Context (config : LoopConfig) (tools : Toolbox) (has_hook : bool).

Local Abbreviation attempt := (run_loop_attempt from_str to_string as_u64 from_str_args
  display_obligation_error completion_display streaming_display draw deadline_reason
  estimate_request project_request config tools has_hook).

Local Abbreviation stream := (consume_stream from_str tools has_hook).
Context (answer : nat → Effect → result str Z) (failure_policy : FailurePolicy).
(** Every effect succeeds. *)
Hypothesis effects_succeed : ∀ n e, ∃ z, answer n e = Ok z.

(** The committed text is a prefix of the streamed one. *)
Definition text_ok (p : StreamProcessor) : Prop :=
  ∃ committed tail, sp_streamed_text p = committed ++ tail ∧ sp_committed_text_len p = str_len committed.

Definition succeeds {A} (c : M A) (a : A) (ms : list Message) : Prop :=
  ∀ tr, ∃ fx, c tr = (Ok a, tr ++ fx) ∧ persisted fx = ms.
Lemma succeeds_ret {A} (a : A) : succeeds (ret a) a [].
Proof. intros tr. exists []. by rewrite app_nil_r. Qed.
Lemma succeeds_bind {A B} (c : M A) (k : A → M B) a b m1 m2 :
  succeeds c a m1 -> succeeds (k a) b m2 -> succeeds (bind c k) b (m1 ++ m2).
Proof.
  intros Hc Hk tr. destruct (Hc tr) as (fx1 & H1 & <-). destruct (Hk (tr ++ fx1)) as (fx2 & H2 & <-).
  exists (fx1 ++ fx2). unfold bind. by rewrite H1, H2, app_assoc, persisted_app.
Qed.
(** An effect answers with some number, whatever came before it. *)
Lemma succeeds_effect {A} (e : Effect) (k : Z → M A) a m :
  (∀ z, succeeds (k z) a m) -> succeeds (bind (perform answer e) k) a (persisted [e] ++ m).
Proof.
  intros Hk tr. unfold bind, perform. destruct (effects_succeed (length tr) e) as [z ->].
  destruct (Hk z (tr ++ [e])) as (fx & H & <-). exists ([e] ++ fx).
  by rewrite H, app_assoc, persisted_app.
Qed.
Lemma succeeds_attempt {A} (e : Effect) (k : result ConsumerError Z → M A) a m :
  (∀ z, succeeds (k (Ok z)) a m) ->
  succeeds (bind (attempt_effect (perform answer e)) k) a (persisted [e] ++ m).
Proof.
  intros Hk tr. unfold bind, attempt_effect, perform. destruct (effects_succeed (length tr) e) as [z ->].
  destruct (Hk z (tr ++ [e])) as (fx & H & <-). exists ([e] ++ fx).
  by rewrite H, app_assoc, persisted_app.
Qed.
Lemma succeeds_persist e : succeeds (persist_under_policy answer failure_policy e) tt (persisted [e]).
Proof.
  unfold persist_under_policy. rewrite <-(app_nil_r (persisted [e])). apply succeeds_attempt.
  intros z. apply succeeds_ret.
Qed.

Local Abbreviation item_step := (process_item answer failure_policy from_str).
Local Abbreviation items_step := (process_items answer failure_policy from_str).

(** The accumulator after an item that neither closes nor retracts a turn. *)
Definition push_item (a : AssistantTurnAccumulator) (item : LoopStreamItem) : AssistantTurnAccumulator :=
  match item with
  | LI_Text t => push_text t a
  | LI_Reasoning r => push_reasoning r a
  | LI_ReasoningDelta id reasoning => push_reasoning_delta id reasoning a
  | LI_ToolCall call _ => push_tool_call (from_rig_tool_call from_str call) a
  | _ => a
  end.
Definition streamed_item (item : LoopStreamItem) : Prop :=
  match item with LI_Text _ | LI_Reasoning _ | LI_ReasoningDelta _ _ | LI_ToolCall _ _ => True | _ => False end.

Lemma text_ok_append t p : text_ok p -> text_ok (set_streamed (sp_streamed_text p ++ t) p).
Proof.
  intros (c & tail & H1 & H2). exists c, (tail ++ t). cbn. by rewrite H1, app_assoc.
Qed.

Lemma process_streamed_item item p : streamed_item item -> text_ok p ->
  ∃ p', succeeds (item_step item p) (SA_Continue, p') [] ∧ text_ok p' ∧ sp_turn p' = push_item (sp_turn p) item.
Proof.
  intros Hi Hp. destruct item as [t|r|id t|call iid| | | | |]; try done; cbn [process_item].
  - exists (set_streamed (sp_streamed_text p ++ t) (set_turn (push_text t (sp_turn p)) p)).
    split; [|split; [exact (text_ok_append t p Hp)|reflexivity]].
    apply (succeeds_bind _ _ (set_streamed (sp_streamed_text p ++ t) (set_turn (push_text t (sp_turn p)) p)) _ [] []);
      [|apply succeeds_ret].
    apply (succeeds_effect (FX_WriteTokens t) _ _ []). intros _.
    destruct (_ && _); [|apply succeeds_ret].
    apply (succeeds_effect FX_FlushPending _ _ []). intros _. apply succeeds_ret.
  - exists (set_turn (push_reasoning r (sp_turn p)) p). split; [|split; [exact Hp|reflexivity]].
    apply (succeeds_bind _ _ (set_turn (push_reasoning r (sp_turn p)) p) _ [] []); [|apply succeeds_ret].
    destruct (is_empty _); [apply succeeds_ret|].
    apply (succeeds_effect (FX_WriteReasoning _) _ _ []). intros _. apply succeeds_ret.
  - exists (set_turn (push_reasoning_delta id t (sp_turn p)) p). split; [|split; [exact Hp|reflexivity]].
    apply (succeeds_bind _ _ (set_turn (push_reasoning_delta id t (sp_turn p)) p) _ [] []); [|apply succeeds_ret].
    destruct (is_empty _); [apply succeeds_ret|].
    apply (succeeds_effect (FX_WriteReasoning _) _ _ []). intros _. apply succeeds_ret.
  - exists (set_turn (push_tool_call (from_rig_tool_call from_str call) (sp_turn p)) p). split; [|split; [exact Hp|reflexivity]].
    apply (succeeds_bind _ _ (set_turn (push_tool_call (from_rig_tool_call from_str call) (sp_turn p)) p) _ [] []); [|apply succeeds_ret].
    apply (succeeds_effect FX_FlushPending _ _ []). intros _.
    apply (succeeds_attempt (FX_RegisterCall _ _ _) _ _ []). intros _. cbv zeta.
    destruct (message_snapshot _); [|apply succeeds_ret].
    apply (succeeds_attempt (FX_PersistInflight _) _ _ []). intros z. cbn [apply_persistence_policy is_ok].
    apply (succeeds_bind _ _ tt _ [] []); [apply succeeds_ret|].
    apply (succeeds_effect FX_Advance _ _ []). intros _. apply succeeds_ret.
Qed.

Lemma process_items_cons item rest p p1 p2 m1 m2 :
  succeeds (item_step item p) (SA_Continue, p1) m1 -> succeeds (items_step rest p1) p2 m2 ->
  succeeds (items_step (item :: rest) p) p2 (m1 ++ m2).
Proof. intros H1 H2. cbn [process_items]. eapply succeeds_bind; [exact H1|exact H2]. Qed.

Lemma process_streamed items : Forall streamed_item items -> ∀ p rest, text_ok p ->
  ∃ p', text_ok p' ∧ sp_turn p' = foldl push_item (sp_turn p) items ∧
    ∀ p2 ms, succeeds (items_step rest p') p2 ms -> succeeds (items_step (items ++ rest) p) p2 ms.
Proof.
  induction 1 as [|item items Hi _ IH]; intros p rest Hp.
  - exists p. by split.
  - destruct (process_streamed_item item p Hi Hp) as (p1 & H1 & H2 & H3).
    destruct (IH p1 rest H2) as (p' & I1 & I2 & I3). exists p'. split; [done|].
    split; [cbn [foldl]; by rewrite <-H3|]. intros p2 ms H.
    apply (process_items_cons _ _ _ p1 _ [] ms); [done|]. by apply I3.
Qed.

(** *** Tool results *)

(** The message of the turn, if there is one. *)
Definition turn_message (a : AssistantTurnAccumulator) : list Message :=
  match fst (take_message a) with Some m => [m] | None => [] end.

Lemma persist_turn_succeeds p : succeeds (persist_turn answer failure_policy p)
  (set_turn default_accumulator p) (turn_message (sp_turn p)).
Proof.
  unfold persist_turn, turn_message, take_message, build_message. cbn [fst].
  destruct (build_content (sp_turn p)) as [|x c]; [apply succeeds_ret|].
  rewrite <-(app_nil_r [Assistant None (x :: c)]).
  eapply (succeeds_bind _ _ tt); [apply (succeeds_persist (FX_PersistMessage _))|apply succeeds_ret].
Qed.

Lemma process_tool_result_step r iid p : text_ok p ->
  ∃ p', succeeds (item_step (LI_ToolResult r iid) p) (SA_Continue, p')
    (turn_message (sp_turn p) ++ [User [UToolResult r]]) ∧
    text_ok p' ∧ sp_turn p' = default_accumulator.
Proof.
  intros Hp. exists (commit_text (set_turn default_accumulator p)). split; [|split].
  - cbn [process_item]. rewrite <-(app_nil_r (turn_message _ ++ _)). eapply succeeds_bind; [|apply succeeds_ret].
    unfold process_tool_result. apply (succeeds_effect FX_FlushPending _ _ (turn_message _ ++ _)). intros _.
    eapply succeeds_bind; [apply persist_turn_succeeds|]. cbv zeta.
    apply (succeeds_attempt (FX_PersistToolResult r iid) _ _ []). intros z.
    cbn [apply_persistence_policy]. apply (succeeds_bind _ _ tt _ [] []); [apply succeeds_ret|].
    assert (Hz : ∃ z', succeeds (match (Ok z : result ConsumerError Z) with
        | Ok 1 => perform answer FX_Advance | _ => ret 0 end) z' [] ∨
        ∀ (k : Z → M StreamProcessor) a m, (∀ y, succeeds (k y) a m) ->
          succeeds (bind (match (Ok z : result ConsumerError Z) with
            | Ok 1 => perform answer FX_Advance | _ => ret 0 end) k) a m).
    { destruct z as [|[q|q|]|q]; exists 0; try (left; apply succeeds_ret).
      right. intros k a m Hk. apply (succeeds_effect FX_Advance k a m Hk). }
    assert (Hreset : succeeds (bind (perform answer FX_ResetTail)
      (λ _, ret (commit_text (set_turn default_accumulator p)))) (commit_text (set_turn default_accumulator p)) []).
    { apply (succeeds_effect FX_ResetTail _ _ []). intros _. apply succeeds_ret. }
    destruct Hz as [z' [Hz|Hz]]; [by apply (succeeds_bind _ _ z' _ [] [])|by apply Hz].
  - exists (sp_streamed_text p), []. by rewrite app_nil_r.
  - done.
Qed.

Lemma process_results l : ∀ p rest, text_ok p -> sp_turn p = default_accumulator ->
  ∃ p', text_ok p' ∧ sp_turn p' = default_accumulator ∧
    ∀ p2 ms, succeeds (items_step rest p') p2 ms ->
    succeeds (items_step (((λ '(r, iid), LI_ToolResult r iid) <$> l) ++ rest) p) p2
      (((λ '(r, _), User [UToolResult r]) <$> l) ++ ms).
Proof.
  induction l as [|[r iid] l IH]; intros p rest Hp Ht; [by exists p|].
  destruct (process_tool_result_step r iid p Hp) as (p1 & H1 & H2 & H3). rewrite Ht in H1.
  destruct (IH p1 rest H2 H3) as (p' & I1 & I2 & I3). exists p'. split; [done|]. split; [done|].
  intros p2 ms H. cbn [fmap list_fmap app]. eapply (process_items_cons _ _ _ p1 _ [_]); [exact H1|by apply I3].
Qed.

(** *** Reminders *)

Lemma slice_to_prefix a b : slice_to (a ++ b) (str_len a) = Some a.
Proof.
  induction a as [|c a IH]; [by destruct b|]. cbn [app str_len slice_to].
  pose proof (utf8_width_bounds c). pose proof (str_len_nonneg a).
  destruct (Z.eqb_spec (utf8_width c + str_len a) 0); [lia|].
  destruct (Z.leb_spec (utf8_width c) (utf8_width c + str_len a)); [|lia].
  replace (utf8_width c + str_len a - utf8_width c) with (str_len a) by lia. by rewrite IH.
Qed.

Lemma truncate_streamed_succeeds p : text_ok p ->
  ∃ p', succeeds (truncate_streamed p) p' [] ∧ text_ok p' ∧ sp_turn p' = sp_turn p.
Proof.
  intros (c & tail & H1 & H2). unfold truncate_streamed. rewrite H1, H2.
  destruct (str_len (c ++ tail) <=? str_len c).
  - exists p. split; [apply succeeds_ret|]. split; [by exists c, tail|done].
  - rewrite slice_to_prefix. exists (set_streamed c p). split; [apply succeeds_ret|].
    split; [|done]. exists c, []. by rewrite app_nil_r.
Qed.

Lemma process_obligation_step reminder p : text_ok p ->
  ∃ p', succeeds (item_step (LI_OutputObligationPending reminder) p) (SA_Continue, p')
    (turn_message (sp_turn p) ++ [reminder]) ∧ text_ok p' ∧ sp_turn p' = default_accumulator.
Proof.
  intros Hp.
  destruct (truncate_streamed_succeeds (set_turn default_accumulator p) Hp) as (p' & H1 & H2 & H3).
  exists p'. split; [|by split].
  cbn [process_item]. rewrite <-(app_nil_r (turn_message _ ++ _)). eapply succeeds_bind; [|apply succeeds_ret].
  unfold process_obligation. apply (succeeds_effect FX_FlushPending _ _ (turn_message _ ++ _)). intros _.
  eapply succeeds_bind; [apply persist_turn_succeeds|].
  rewrite <-(app_nil_r [reminder]). eapply (succeeds_bind _ _ tt); [apply (succeeds_persist (FX_PersistMessage _))|].
  apply (succeeds_bind _ _ p' _ [] []); [done|].
  apply (succeeds_effect FX_ResetTail _ _ []). intros _. apply succeeds_ret.
Qed.

(** *** A turn of the loop *)

Lemma on_item_yields s item ss acts ss' : on_item from_str tools has_hook s item ss = (acts, Ok ss') ->
  Forall streamed_item (yields acts) ∧ ss_acc ss' = foldl push_item (ss_acc ss) (yields acts).
Proof.
  destruct item as [t|r0|id t|call iid env| |usage]; cbn [on_item];
    try (intros [= <- <-]; by split; [repeat constructor|]).
  - unfold execute_call. destruct (if has_hook then te_call_action env else TH_Continue) as [|reason|reason].
    + destruct (if has_hook then te_result_action env else HA_Continue); [|done].
      intros [= <- <-]. by split; [repeat constructor|].
    + intros [= <- <-]. by split; [repeat constructor|].
    + done.
  - intros [= <- H]. split; [constructor|]. unfold final_item in H.
    destruct (ss_budget ss) as [b|]; [|by injection H as <-].
    destruct (budget_charge_reported usage b) as [[[charge l]|e] b']; [|done].
    by destruct charge; injection H as <-.
Qed.
Lemma consume_stream_yields s ti at_ armed items : ∀ ss acts e,
  stream s ti at_ armed items ss = (acts, e) ->
  match e with
  | Eof ss' | Broken _ ss' =>
      Forall streamed_item (yields acts) ∧ ss_acc ss' = foldl push_item (ss_acc ss) (yields acts)
  | Aborted _ => True
  end.
Proof.
  induction items as [|[item|error] rest IH]; intros ss acts e; cbn [consume_stream].
  - intros [= <- <-]. by split; [constructor|].
  - destruct (negb _ && armed); [by intros [= <- <-]|].
    destruct (on_item _ _ _ s item (see_item ss)) as [acts1 [ss1|f]] eqn:E1; [|by intros [= <- <-]].
    apply on_item_yields in E1 as [H1 H2].
    destruct (stream s ti at_ armed rest ss1) as [acts2 e2] eqn:E2. intros [= <- <-].
    specialize (IH _ _ _ E2). change (ss_acc (see_item ss)) with (ss_acc ss) in H2.
    destruct e2 as [ss'|? ss'|]; [..|done]; destruct IH as [I1 I2];
      rewrite yields_app, foldl_app, Forall_app, <-H2; by split.
  - intros [= <- <-]. by split; [constructor|].
Qed.

(** What a turn adds to the messages and yields when it is closed or reminded. *)
Inductive turn_closes (new_messages : list Message) (a : AssistantTurnAccumulator)
    : list LoopStreamItem → list Message → Prop :=
| closes_with_results id pending quiet :
    pending ≠ [] -> Forall (λ i, match i with LI_AttemptFailed _ _ _ _ _ => True | _ => False end) quiet ->
    turn_closes new_messages a
      (((λ p, LI_ToolResult (to_rig_tool_result (result_of from_str to_string p)) (snd (fst p))) <$> pending)
         ++ quiet)
      (push_assistant new_messages a id
         ++ ((λ p, User [result_content_of from_str to_string p]) <$> pending))
| closes_with_reminder id reminder :
    erase_id reminder = reminder ->
    turn_closes new_messages a [LI_OutputObligationPending reminder]
      (push_assistant new_messages a id ++ [reminder]).

Lemma close_turn_closes env ss s acts s' quiet : close_turn from_str to_string env ss s = (acts, s') ->
  ss_pending ss ≠ [] ->
  Forall (λ i, match i with LI_AttemptFailed _ _ _ _ _ => True | _ => False end) quiet ->
  turn_closes (cv_new_messages (ls_conv s)) (ss_acc ss) (yields acts ++ quiet) (cv_new_messages (ls_conv s')).
Proof.
  unfold close_turn. cbn [close_streaming_turn]. intros [= <- <-] Hp Hq.
  cbn [set_messages set_conv ls_conv cv_new_messages].
  replace (yields _) with ((λ p, LI_ToolResult (to_rig_tool_result (result_of from_str to_string p))
    (snd (fst p))) <$> ss_pending ss); [by apply closes_with_results|].
  clear. induction (ss_pending ss) as [|p l IH]; [done|]. exact (f_equal (cons _) IH).
Qed.

Lemma run_attempt_turn env t s acts s' : attempt env t s = (acts, s', N_Turn) ->
  ∃ streamed closing, yields acts = streamed ++ closing ∧ Forall streamed_item streamed ∧
    turn_closes (cv_new_messages (ls_conv s)) (foldl push_item default_accumulator streamed) closing
      (cv_new_messages (ls_conv s')).
Proof.
  unfold run_loop_attempt. destruct (prepare_dispatch_attempt _ _ _ _ _) as [prepared|e]; [|done].
  set (captured := if lc_on_rendered_request config then _ else []).
  assert (Hc : yields captured = []) by (unfold captured; by destruct (lc_on_rendered_request config)).
  destruct (if lc_on_rendered_request config then ae_capture env else Ok tt); [|done].
  destruct (ae_response env) as [items|error].
  2: { unfold pre_stream_failure. destruct (on_pre_stream_failure _ _ _ _ _ _ _) as [[] r]; [done| |done].
       by destruct (repair_and_rebuild_request _ _ _ _) as [[]|]. }
  destruct (stream s _ _ _ items _) as [streamed ending] eqn:Es. apply consume_stream_yields in Es.
  assert (Hgo : ∀ ss r, Forall streamed_item (yields streamed) ->
    ss_acc ss = foldl push_item default_accumulator (yields streamed) ->
    (∀ a2 s2, r = (a2, s2, N_Turn) -> turn_closes (cv_new_messages (ls_conv s)) (ss_acc ss) (yields a2)
       (cv_new_messages (ls_conv s2))) ->
    prepend ((captured ++ [Send (pd_request prepared)]) ++ streamed) r = (acts, s', N_Turn) ->
    ∃ streamed closing, yields acts = streamed ++ closing ∧ Forall streamed_item streamed ∧
      turn_closes (cv_new_messages (ls_conv s)) (foldl push_item default_accumulator streamed) closing
        (cv_new_messages (ls_conv s'))).
  { intros ss [[a2 s2] n2] H1 H2 H3. cbn [prepend]. intros [= <- <- ->].
    exists (yields streamed), (yields a2). rewrite !yields_app, Hc. split; [done|]. split; [done|].
    rewrite <-H2. by apply H3. }
  destruct ending as [ss|error ss|f]; [| |done]; destruct Es as [E1 E2];
    apply (Hgo ss _ E1 E2); clear Hgo; intros a2 s2.
  - unfold ended_stream, close_and_fail. destruct (negb _ && _); [done|].
    destruct (match ss_budget ss with Some _ => _ | None => _ end) as [[reason|]|f];
      [by destruct (close_turn _ _ env ss _)| |done].
    destruct (provider_eof_is_failure _); [by destruct (close_turn _ _ env ss _)|].
    destruct (ss_exhausted ss && _).
    { destruct (ss_budget ss); [by destruct (close_turn _ _ env ss _)|done]. }
    assert (Hr : ∀ f, retract draw deadline_reason config (ae_now env) t (adopt_stream ss s) f ≠ (a2, s2, N_Turn)).
    { intros f. unfold retract. by destruct (on_mid_stream_failure _ _ _ _ _ _) as [[]]. }
    destruct (_ && is_empty _); [by intros H%Hr|].
    destruct (structured_output_error config ss); [by intros H%Hr|].
    destruct (ss_pending ss) eqn:Ep.
    + unfold propose_final. destruct (lc_output_obligation_gate config) as [[doc obs]|]; [|done].
      destruct (unmet _ _ _ _ _) as [[|u us]|e]; [done| |done]. intros [= <- <-].
      by apply closes_with_reminder.
    + destruct (close_turn _ _ env ss _) eqn:Ec. intros [= <- <-]. rewrite <-(app_nil_r (yields _)).
      eapply (close_turn_closes env ss (adopt_stream ss s)); [exact Ec|by rewrite Ep|constructor].
  - unfold broken_stream. destruct (ss_pending ss) eqn:Ep.
    + destruct (negb _).
      { unfold pre_stream_failure. destruct (on_pre_stream_failure _ _ _ _ _ _ _) as [[] r]; [done| |done].
        by destruct (repair_and_rebuild_request _ _ _ _) as [[]|]. }
      destruct (ss_budget ss); [done|]. unfold retract.
      by destruct (on_mid_stream_failure _ _ _ _ _ _) as [[]].
    + destruct (ss_budget ss); [by destruct (close_turn _ _ env ss _)|].
      destruct (on_mid_stream_failure _ _ _ _ _ _) as [[] r]; [done| |done].
      destruct (close_turn _ _ env ss _) eqn:Ec. intros [= <- <-]. rewrite yields_app.
      eapply (close_turn_closes env ss (set_retry r (adopt_stream ss s))); [exact Ec|by rewrite Ep|by repeat constructor].
Qed.

Lemma push_assistant_erased new_messages a id :
  ∃ added, push_assistant new_messages a id = new_messages ++ added ∧ erase_id <$> added = turn_message a.
Proof.
  unfold push_assistant, turn_message, take_message, build_message. cbn [fst].
  destruct (build_content a) as [|x c]; [exists []; by rewrite app_nil_r|].
  by exists [Assistant id (x :: c)].
Qed.
Lemma result_user_message p : User [result_content_of from_str to_string p] =
  User [UToolResult (to_rig_tool_result (result_of from_str to_string p))].
Proof.
  destruct p as [[call iid] b]. unfold result_content_of, result_of, to_rig_tool_result. cbn.
  pose proof (from_tool_output_nonempty from_str to_string b). destruct (from_tool_output _ _ b); [done|].
  by destruct (tc_call_id call).
Qed.

Lemma turn_closes_processed new_messages a closing new_messages' p : text_ok p -> sp_turn p = a ->
  turn_closes new_messages a closing new_messages' ->
  ∃ p' added, text_ok p' ∧ sp_turn p' = default_accumulator ∧ new_messages' = new_messages ++ added ∧
    succeeds (items_step closing p) p' (erase_id <$> added).
Proof.
  intros Hp <- Hc. destruct Hc as [id pending quiet Hne Hq|id reminder Hrem].
  - destruct (push_assistant_erased new_messages (sp_turn p) id) as (added & -> & Ha).
    destruct pending as [|x pending]; [done|].
    set (R := λ p0 : PendingResult, (to_rig_tool_result (result_of from_str to_string p0), snd (fst p0))).
    destruct (process_tool_result_step (fst (R x)) (snd (R x)) p Hp) as (p1 & H1 & H2 & H3).
    destruct (process_results (R <$> pending) p1 quiet H2 H3) as (p' & I1 & I2 & I3).
    exists p', (added ++ ((λ p0, User [result_content_of from_str to_string p0]) <$> x :: pending)).
    split; [done|]. split; [done|]. split; [by rewrite app_assoc|].
    assert (Hquiet : succeeds (items_step quiet p') p' []).
    { clear -Hq. induction Hq as [|i quiet Hi _ IH]; [apply succeeds_ret|].
      by destruct i. }
    specialize (I3 _ _ Hquiet). rewrite fmap_app, Ha. cbn [fmap list_fmap app].
    pose proof (process_items_cons _ _ _ _ _ _ _ H1 I3) as Hall.
    rewrite app_nil_r, <-!list_fmap_compose in Hall. rewrite <-list_fmap_compose.
    rewrite <-(app_assoc (turn_message _)) in Hall.
    rewrite (result_user_message x).
    erewrite (list_fmap_ext (erase_id ∘ _)); [exact Hall|]. intros i y _. cbn. by rewrite result_user_message.
  - destruct (push_assistant_erased new_messages (sp_turn p) id) as (added & -> & Ha).
    destruct (process_obligation_step reminder p Hp) as (p' & H1 & H2 & H3).
    exists p', (added ++ [reminder]). split; [done|]. split; [done|]. split; [by rewrite app_assoc|].
    rewrite fmap_app, Ha. change (erase_id <$> [reminder]) with [erase_id reminder]. rewrite Hrem.
    rewrite <-(app_nil_r (_ ++ _)). eapply process_items_cons; [exact H1|apply succeeds_ret].
Qed.

End mirror.

Definition demo_conversation : Conversation := mkConv [] [message_user (lit "hi")] [] [].
Definition demo_state : LoopState :=
  mkLoop demo_conversation usage_zero None 1 (new_retry_state no_retry) false.
Definition demo_turn_state : TurnState :=
  mkTurn 0 0 (build_request (λ _, None) (message_user (lit "hi")) [] [] demo_toolbox demo_loop_config)
    BP_Budgeted (mkDecision CR_CompactorUnavailable None).
Definition demo_first_attempt : list Action * LoopState * Next :=
  run_loop_attempt (λ _, None) (λ _, []) (λ _, None) (λ _, Err []) (λ _, []) (λ _, []) (λ _, [])
    (λ _, 0) (λ _ _, []) (λ _, Ok 10) (λ _, Ok demo_projection) demo_loop_config demo_toolbox false
    (ev_attempts (demo_turn 0) 0) demo_turn_state demo_state.
Definition fresh_processor : StreamProcessor := mkProcessor default_accumulator [] 0 None.

