(* ===== verification/Utf8.v ===== *)
(** * UTF-8

    [str::as_bytes] and [String::from_utf8] of the Rust standard library, which the
    file tools use to read, edit and write files: a string is a list of Unicode
    scalar values, its bytes are their UTF-8 encoding, and the strict decoder follows
    the validation table of the library, reporting the offset of the first invalid
    byte ([Utf8Error::valid_up_to]).  The two are inverse to each other, so a text
    that was decoded and encoded again is the file it was read from. *)

From S2P Require Import Prelude RustStr.
Open Scope Z_scope.

Definition encode_char (c : char) : list Z :=
  if c <? 128 then [c]
  else if c <? 2048 then [192 + c / 64; 128 + c mod 64]
  else if c <? 65536 then [224 + c / 4096; 128 + (c / 64) mod 64; 128 + c mod 64]
  else [240 + c / 262144; 128 + (c / 4096) mod 64; 128 + (c / 64) mod 64; 128 + c mod 64].
Definition as_bytes (s : str) : list Z := s ≫= encode_char.

Definition between (lo hi b : Z) : bool := (lo <=? b) && (b <=? hi).
Definition is_cont (b : Z) : bool := between 128 191 b.
(** The second byte after a leading byte of a three- or four-byte sequence: no
    overlong form, no surrogate, nothing beyond U+10FFFF. *)
Definition second3 (b0 b1 : Z) : bool :=
  between (if b0 =? 224 then 160 else 128) (if b0 =? 237 then 159 else 191) b1.
Definition second4 (b0 b1 : Z) : bool :=
  between (if b0 =? 240 then 144 else 128) (if b0 =? 244 then 143 else 191) b1.

Definition push_front (c : char) (r : result Z str) : result Z str :=
  match r with Ok s => Ok (c :: s) | Err e => Err e end.
(** The text, or the offset up to which the bytes are valid. *)
Fixpoint from_utf8_at (offset : Z) (bytes : list Z) : result Z str :=
  match bytes with
  | [] => Ok []
  | b0 :: rest =>
      if between 0 127 b0 then push_front b0 (from_utf8_at (offset + 1) rest)
      else match rest with
      | [] => Err offset
      | b1 :: rest =>
          if between 194 223 b0 && is_cont b1
          then push_front ((b0 - 192) * 64 + (b1 - 128)) (from_utf8_at (offset + 2) rest)
          else match rest with
          | [] => Err offset
          | b2 :: rest =>
              if between 224 239 b0 && second3 b0 b1 && is_cont b2
              then push_front ((b0 - 224) * 4096 + (b1 - 128) * 64 + (b2 - 128))
                     (from_utf8_at (offset + 3) rest)
              else match rest with
              | [] => Err offset
              | b3 :: rest =>
                  if between 240 244 b0 && second4 b0 b1 && is_cont b2 && is_cont b3
                  then push_front ((b0 - 240) * 262144 + (b1 - 128) * 4096 + (b2 - 128) * 64 + (b3 - 128))
                         (from_utf8_at (offset + 4) rest)
                  else Err offset
              end
          end
      end
  end.
Definition from_utf8 (bytes : list Z) : result Z str := from_utf8_at 0 bytes.

(** ** Round trips *)

Definition is_scalar (c : char) : Prop := 0 <= c <= 1114111 ∧ ~ (55296 <= c <= 57343).

Lemma between_true lo hi b : between lo hi b = true <-> lo <= b <= hi.
Proof. unfold between. rewrite andb_true_iff, !Z.leb_le. done. Qed.
Lemma between_false lo hi b : b < lo ∨ hi < b -> between lo hi b = false.
Proof. unfold between. intros [H|H]; apply andb_false_iff; [left|right]; by apply Z.leb_gt. Qed.
Lemma second3_true b0 b1 :
  second3 b0 b1 = true <-> 128 <= b1 <= 191 ∧ (b0 = 224 -> 160 <= b1) ∧ (b0 = 237 -> b1 <= 159).
Proof.
  unfold second3. rewrite between_true. destruct (Z.eqb_spec b0 224), (Z.eqb_spec b0 237); lia.
Qed.
Lemma second4_true b0 b1 :
  second4 b0 b1 = true <-> 128 <= b1 <= 191 ∧ (b0 = 240 -> 144 <= b1) ∧ (b0 = 244 -> b1 <= 143).
Proof.
  unfold second4. rewrite between_true. destruct (Z.eqb_spec b0 240), (Z.eqb_spec b0 244); lia.
Qed.

Ltac euclid := Z.to_euclidean_division_equations; lia.

(** Decoding one encoded character. *)
Lemma from_utf8_encode_char c rest offset : is_scalar c ->
  from_utf8_at offset (encode_char c ++ rest)
  = push_front c (from_utf8_at (offset + utf8_width c) rest).
Proof.
  intros [Hc Hs]. unfold encode_char, utf8_width.
  destruct (Z.ltb_spec c 128) as [H1|H1]; [|destruct (Z.ltb_spec c 2048) as [H2|H2];
    [|destruct (Z.ltb_spec c 65536) as [H3|H3]]]; cbn [app from_utf8_at].
  - by rewrite (proj2 (between_true 0 127 c)) by lia.
  - rewrite between_false by euclid.
    rewrite (proj2 (between_true 194 223 _)), (proj2 (between_true 128 191 _)) by euclid.
    cbn [andb]. f_equal. euclid.
  - rewrite !(between_false _ _ (224 + c / 4096)) by euclid. cbn [andb].
    rewrite (proj2 (between_true 224 239 _)), (proj2 (second3_true _ _)),
      (proj2 (between_true 128 191 _)) by euclid.
    cbn [andb]. f_equal. euclid.
  - rewrite !(between_false _ _ (240 + c / 262144)) by euclid. cbn [andb].
    rewrite (proj2 (between_true 240 244 _)), (proj2 (second4_true _ _)) by euclid.
    unfold is_cont. rewrite !(proj2 (between_true 128 191 _)) by euclid.
    cbn [andb]. f_equal. euclid.
Qed.

Lemma from_utf8_as_bytes s : Forall is_scalar s -> ∀ offset, from_utf8_at offset (as_bytes s) = Ok s.
Proof.
  unfold as_bytes. induction 1 as [|c s Hc Hs IH]; intros offset; [done|].
  cbn [mbind list_bind]. rewrite from_utf8_encode_char by done. by rewrite IH.
Qed.

Lemma push_front_Ok c r s : push_front c r = Ok s -> ∃ s', r = Ok s' ∧ s = c :: s'.
Proof. destruct r; cbn; intros [= <-]. by eexists. Qed.

(** One decoded character: its bytes are its encoding. *)
Lemma encode2 b0 b1 : 194 <= b0 <= 223 -> 128 <= b1 <= 191 ->
  is_scalar ((b0 - 192) * 64 + (b1 - 128)) ∧ encode_char ((b0 - 192) * 64 + (b1 - 128)) = [b0; b1].
Proof.
  intros. split; [unfold is_scalar; lia|]. unfold encode_char.
  rewrite (proj2 (Z.ltb_ge _ 128)), (proj2 (Z.ltb_lt _ 2048)) by lia. repeat f_equal; euclid.
Qed.
Lemma encode3 b0 b1 b2 :
  224 <= b0 <= 239 -> 128 <= b1 <= 191 ∧ (b0 = 224 -> 160 <= b1) ∧ (b0 = 237 -> b1 <= 159) ->
  128 <= b2 <= 191 ->
  is_scalar ((b0 - 224) * 4096 + (b1 - 128) * 64 + (b2 - 128))
  ∧ encode_char ((b0 - 224) * 4096 + (b1 - 128) * 64 + (b2 - 128)) = [b0; b1; b2].
Proof.
  intros ? (? & ? & ?) ?. split; [unfold is_scalar; lia|]. unfold encode_char.
  rewrite (proj2 (Z.ltb_ge _ 128)), (proj2 (Z.ltb_ge _ 2048)), (proj2 (Z.ltb_lt _ 65536)) by lia.
  repeat f_equal; euclid.
Qed.
Lemma encode4 b0 b1 b2 b3 :
  240 <= b0 <= 244 -> 128 <= b1 <= 191 ∧ (b0 = 240 -> 144 <= b1) ∧ (b0 = 244 -> b1 <= 143) ->
  128 <= b2 <= 191 -> 128 <= b3 <= 191 ->
  is_scalar ((b0 - 240) * 262144 + (b1 - 128) * 4096 + (b2 - 128) * 64 + (b3 - 128))
  ∧ encode_char ((b0 - 240) * 262144 + (b1 - 128) * 4096 + (b2 - 128) * 64 + (b3 - 128)) = [b0; b1; b2; b3].
Proof.
  intros ? (? & ? & ?) ? ?. split; [unfold is_scalar; lia|]. unfold encode_char.
  rewrite (proj2 (Z.ltb_ge _ 128)), (proj2 (Z.ltb_ge _ 2048)), (proj2 (Z.ltb_ge _ 65536)) by lia.
  repeat f_equal; euclid.
Qed.

(** What the decoder accepts is the encoding of what it returns. *)
Lemma from_utf8_at_Ok n : ∀ bytes offset s, (length bytes <= n)%nat ->
  from_utf8_at offset bytes = Ok s -> as_bytes s = bytes ∧ Forall is_scalar s.
Proof.
  unfold as_bytes. induction n as [|n IH]; intros bytes offset s Hl.
  { destruct bytes; [|cbn in Hl; lia]. by intros [= <-]. }
  assert (Hstep : ∀ c used rest o s, (length rest <= n)%nat -> is_scalar c -> encode_char c = used ->
    push_front c (from_utf8_at o rest) = Ok s -> s ≫= encode_char = used ++ rest ∧ Forall is_scalar s).
  { intros c used rest o s0 Hr Hc <- (s' & Hs & ->)%push_front_Ok.
    destruct (IH _ _ _ Hr Hs) as [<- ?]. split; [done|by constructor]. }
  destruct bytes as [|b0 rest]; [by intros [= <-]|]. cbn [from_utf8_at length] in *.
  destruct (between 0 127 b0) eqn:H0.
  { apply between_true in H0. apply (Hstep _ [b0]); [lia|unfold is_scalar; lia|].
    unfold encode_char. by rewrite (proj2 (Z.ltb_lt _ 128)) by lia. }
  destruct rest as [|b1 rest]; [done|]. cbn [length] in Hl. destruct (between 194 223 b0 && _) eqn:H1.
  { apply andb_true_iff in H1 as [? ?]. rewrite ?between_true in *. unfold is_cont in *. rewrite between_true in *.
    destruct (encode2 b0 b1); [done..|]. apply (Hstep _ [b0; b1]); [lia|done..]. }
  destruct rest as [|b2 rest]; [done|]. cbn [length] in Hl. destruct (between 224 239 b0 && _ && _) eqn:H2.
  { unfold is_cont in H2. rewrite !andb_true_iff, !between_true, second3_true in H2. destruct H2 as [[? ?] ?].
    destruct (encode3 b0 b1 b2); [done..|]. apply (Hstep _ [b0; b1; b2]); [lia|done..]. }
  destruct rest as [|b3 rest]; [done|]. cbn [length] in Hl. destruct (between 240 244 b0 && _ && _ && _) eqn:H3; [|done].
  unfold is_cont in H3. rewrite !andb_true_iff, !between_true, second4_true in H3. destruct H3 as [[[? ?] ?] ?].
  destruct (encode4 b0 b1 b2 b3); [done..|]. apply (Hstep _ [b0; b1; b2; b3]); [lia|done..].
Qed.

Lemma from_utf8_Ok bytes s : from_utf8 bytes = Ok s -> as_bytes s = bytes ∧ Forall is_scalar s.
Proof. by apply (from_utf8_at_Ok (length bytes)). Qed.
Lemma from_utf8_of_str s : Forall is_scalar s -> from_utf8 (as_bytes s) = Ok s.
Proof. intros Hs. by apply from_utf8_as_bytes. Qed.

Lemma length_as_bytes s : Z.of_nat (length (as_bytes s)) = str_len s.
Proof.
  unfold as_bytes. induction s as [|c s IH]; [done|]. cbn [mbind list_bind str_len].
  rewrite length_app, Nat2Z.inj_add, IH. f_equal. unfold encode_char, utf8_width.
  by repeat destruct (_ <? _).
Qed.
