(* ===== verification/CommandPolicy.v ===== *)
(** * Command execution policy

    Which commands an agent may run
    ([src/crates/gents/src/toolset/shared/command.rs]): the policy and the
    workspace authority that narrows it, the validation of an argument vector
    against prefixes, network mode, the read-only allowlist and the Git rules,
    the environment a command gets and the quoting of its command line.

    Parameters: whether the build targets macOS and whether [sandbox-exec] is
    there, and [serde_json::from_str::<Vec<String>>] for prefixes in JSON. *)

From S2P Require Import Prelude RustStr Messages ToolCall Denial Truncation.
Open Scope Z_scope.

(** ** Errors of a tool *)

Inductive ToolsetError : Type :=
| TS_Other (error : str)
| TS_PolicyDenial (denial : CommandPolicyDenial)
| TS_ReportedFailure (class : FailureClass) (text : str).

(** ** Policies *)

Record CommandExecutionPolicy : Type := mkPolicy {
  cp_mode : CommandExecutionMode;
  cp_allowed_argv_prefixes : list (list str);
  cp_forbidden_argv_prefixes : list (list str);
  cp_network_mode : CommandNetworkMode;
  cp_read_only_allowlist : list str;
  cp_deny_all_argv : bool;
  cp_deny_git_metadata_writes : bool }.

Definition read_only (allowlist : list str) : CommandExecutionPolicy :=
  mkPolicy ReadOnly [] [] Inherit allowlist false false.
Definition write_capable (macos : bool) : CommandExecutionPolicy :=
  mkPolicy (if macos then WorkspaceWrite else Unrestricted) [] [] Inherit [] false false.

Definition with_mode (mode : CommandExecutionMode) (p : CommandExecutionPolicy) :=
  mkPolicy mode (cp_allowed_argv_prefixes p) (cp_forbidden_argv_prefixes p) (cp_network_mode p)
    (cp_read_only_allowlist p) (cp_deny_all_argv p) (cp_deny_git_metadata_writes p).
Definition with_allowed_argv_prefixes (prefixes : list (list str)) (p : CommandExecutionPolicy) :=
  mkPolicy (cp_mode p) prefixes (cp_forbidden_argv_prefixes p) (cp_network_mode p)
    (cp_read_only_allowlist p) (cp_deny_all_argv p) (cp_deny_git_metadata_writes p).
Definition with_forbidden_argv_prefixes (prefixes : list (list str)) (p : CommandExecutionPolicy) :=
  mkPolicy (cp_mode p) (cp_allowed_argv_prefixes p) prefixes (cp_network_mode p)
    (cp_read_only_allowlist p) (cp_deny_all_argv p) (cp_deny_git_metadata_writes p).
Definition with_read_only_allowlist (allowlist : list str) (p : CommandExecutionPolicy) :=
  mkPolicy (cp_mode p) (cp_allowed_argv_prefixes p) (cp_forbidden_argv_prefixes p)
    (cp_network_mode p) allowlist (cp_deny_all_argv p) (cp_deny_git_metadata_writes p).
Definition with_deny_all_argv (deny : bool) (p : CommandExecutionPolicy) :=
  mkPolicy (cp_mode p) (cp_allowed_argv_prefixes p) (cp_forbidden_argv_prefixes p)
    (cp_network_mode p) (cp_read_only_allowlist p) deny (cp_deny_git_metadata_writes p).
Definition with_network_mode (network_mode : CommandNetworkMode) (p : CommandExecutionPolicy) :=
  mkPolicy (cp_mode p) (cp_allowed_argv_prefixes p) (cp_forbidden_argv_prefixes p) network_mode
    (cp_read_only_allowlist p) (cp_deny_all_argv p) (cp_deny_git_metadata_writes p).
Definition with_deny_git_metadata_writes (deny : bool) (p : CommandExecutionPolicy) :=
  mkPolicy (cp_mode p) (cp_allowed_argv_prefixes p) (cp_forbidden_argv_prefixes p)
    (cp_network_mode p) (cp_read_only_allowlist p) (cp_deny_all_argv p) deny.
Definition with_git_worktree_diff (p : CommandExecutionPolicy) : CommandExecutionPolicy :=
  with_deny_git_metadata_writes true p.

Definition default_read_only_commands : list str :=
  lit <$> ["pwd"; "ls"; "find"; "cat"; "head"; "tail"; "sed"; "grep"; "rg"; "wc"; "stat"; "file";
           "git"; "date"; "hostname"; "uptime"; "df"; "vm_stat"; "ps"; "lsof"; "curl"; "launchctl";
           "tailscale"; "sudo"]%string.
Definition default_read_only_command_policy : CommandExecutionPolicy :=
  read_only default_read_only_commands.

(** ** Workspace authority *)

Inductive WorkspaceAuthority : Type := WA_ReadOnly | WA_ReadWrite | WA_Integrate.
#[global] Instance WorkspaceAuthority_eq_dec : EqDecision WorkspaceAuthority.
Proof. solve_decision. Defined.

Definition authority_parse (value : str) : option WorkspaceAuthority :=
  let value := trim value in
  if is_one_of value ["readOnly"; "ReadOnly"; "read_only"]%string then Some WA_ReadOnly
  else if is_one_of value ["readWrite"; "ReadWrite"; "read_write"]%string then Some WA_ReadWrite
  else if is_one_of value ["integrate"; "Integrate"]%string then Some WA_Integrate
  else None.
Definition authority_as_str (a : WorkspaceAuthority) : str :=
  match a with
  | WA_ReadOnly => lit "readOnly"
  | WA_ReadWrite => lit "readWrite"
  | WA_Integrate => lit "integrate"
  end.
Definition authority_command_mode (a : WorkspaceAuthority) : CommandExecutionMode :=
  match a with WA_ReadOnly | WA_Integrate => ReadOnly | WA_ReadWrite => WorkspaceWrite end.
Definition allows_file_writes (a : WorkspaceAuthority) : bool :=
  match a with WA_ReadWrite => true | _ => false end.
Definition authority_rank (a : WorkspaceAuthority) : Z :=
  match a with WA_ReadOnly => 0 | WA_Integrate => 1 | WA_ReadWrite => 2 end.
Definition infimum (self other : WorkspaceAuthority) : WorkspaceAuthority :=
  if authority_rank self <=? authority_rank other then self else other.

Inductive WorkspaceLifecycle : Type :=
| WL_provisioning | WL_ready | WL_provisionFailed | WL_sealed | WL_cleaning | WL_cleaned.
Definition normalize_workspace_lifecycle_state (value : str) : option WorkspaceLifecycle :=
  let value := trim value in
  if is_one_of value ["provisioning"; "Provisioning"]%string then Some WL_provisioning
  else if is_one_of value ["ready"; "Ready"]%string then Some WL_ready
  else if is_one_of value ["provisionFailed"; "provision_failed"; "ProvisionFailed"]%string
  then Some WL_provisionFailed
  else if is_one_of value ["sealed"; "Sealed"]%string then Some WL_sealed
  else if is_one_of value ["cleaning"; "Cleaning"]%string then Some WL_cleaning
  else if is_one_of value ["cleaned"; "Cleaned"]%string then Some WL_cleaned
  else None.
Definition bindable_lifecycle_state (a : WorkspaceAuthority) (state : str) : bool :=
  match a, normalize_workspace_lifecycle_state state with
  | WA_ReadWrite, Some WL_ready => true
  | WA_ReadOnly, Some (WL_ready | WL_sealed) => true
  | WA_Integrate, Some WL_sealed => true
  | _, _ => false
  end.

Definition is_mode (m : CommandExecutionMode) (p : CommandExecutionPolicy) : bool :=
  bool_decide (cp_mode p = m).

Definition apply_workspace_authority (policy : CommandExecutionPolicy) (authority : WorkspaceAuthority)
    : CommandExecutionPolicy :=
  let met := with_mode (execution_mode_meet (cp_mode policy) (authority_command_mode authority)) policy in
  let met := match authority with WA_ReadWrite => with_git_worktree_diff met | _ => met end in
  if is_mode ReadOnly met && is_nil (cp_read_only_allowlist met)
  then with_read_only_allowlist (cp_read_only_allowlist default_read_only_command_policy) met
  else met.
(** [authority] is the one of the running request's tool scope, if any. *)
Definition effective_command_policy (authority : option WorkspaceAuthority)
    (policy : CommandExecutionPolicy) : CommandExecutionPolicy :=
  match authority with
  | Some authority => apply_workspace_authority policy authority
  | None => policy
  end.

(** ** Spawn constraints and sandboxes *)

Section platform.
(** [cfg!(target_os = "macos")], and whether [SANDBOX_EXEC] exists there. *)
Context (macos sandbox_exec_exists : bool).

Definition workspace_write_sandbox_enforced : bool := macos && sandbox_exec_exists.
Definition default_lsp_network_mode : CommandNetworkMode :=
  if workspace_write_sandbox_enforced then Disabled else Inherit.
Definition lsp_sandbox_for_effective (mode : CommandExecutionMode) : CommandExecutionMode :=
  match mode with
  | WorkspaceWrite => WorkspaceWrite
  | Unrestricted => Unrestricted
  | ReadOnly => if workspace_write_sandbox_enforced then WorkspaceWrite else Unrestricted
  end.

Record CommandConstraints : Type := mkConstraints {
  cc_allowed_argv_prefixes : list (list str);
  cc_forbidden_argv_prefixes : list (list str);
  cc_network_mode : CommandNetworkMode;
  cc_execution_mode : CommandExecutionMode;
  cc_sandbox : CommandExecutionMode;
  cc_deny_all_argv : bool;
  cc_deny_git_metadata_writes : bool }.
Definition to_spawn_policy (c : CommandConstraints) : CommandExecutionPolicy :=
  mkPolicy (cc_sandbox c) (cc_allowed_argv_prefixes c) (cc_forbidden_argv_prefixes c)
    (cc_network_mode c) [] (cc_deny_all_argv c) (cc_deny_git_metadata_writes c).

Definition policy_denial (policy : CommandExecutionPolicy) (reason : DenialReason) : ToolsetError :=
  TS_PolicyDenial (CommandPolicyDenial_new reason (cp_mode policy) (cp_network_mode policy)).

Definition select_sandbox_for_execution (policy : CommandExecutionPolicy) : result ToolsetError str :=
  match cp_mode policy with
  | ReadOnly => Ok (lit "policy_read_only")
  | Unrestricted => Ok (lit "unsandboxed_unrestricted")
  | WorkspaceWrite =>
      if workspace_write_sandbox_enforced then Ok (lit "macos_seatbelt")
      else Err (policy_denial policy WorkspaceWriteSandboxUnavailable)
  end.

Definition SANDBOX_EXEC : str := lit "/usr/bin/sandbox-exec".
Definition DQUOTE : char := 34.
Definition quoted (s : string) : str := [DQUOTE] ++ lit s ++ [DQUOTE].
Definition macos_workspace_write_policy (network_mode : CommandNetworkMode) : str :=
  let network_policy :=
    if allows_network network_mode
    then lit "(allow network-outbound)" ++ [NL] ++ lit "(allow network-inbound)" ++ [NL] else [] in
  join [NL] [lit "(version 1)"; lit "(deny default)"; lit "(allow process-exec)";
    lit "(allow process-fork)"; lit "(allow signal (target same-sandbox))";
    lit "(allow process-info* (target same-sandbox))"; lit "(allow sysctl-read)";
    lit "(allow mach-lookup)"; lit "(allow ipc-posix-sem)"; lit "(allow ipc-posix-shm-read*)";
    lit "(allow ipc-posix-shm-write*)"; lit "(allow file-read*)";
    lit "(allow file-write-data (literal " ++ quoted "/dev/null" ++ lit "))";
    lit "(allow file-write* (subpath (param " ++ quoted "WRITABLE_ROOT" ++ lit ")))";
    network_policy].
Definition sandboxed_workspace_write_command (root command_name : str) (args : list str)
    (network_mode : CommandNetworkMode) (sandbox : str) : result str (str * list str * str) :=
  if macos
  then Ok (SANDBOX_EXEC,
           [lit "-p"; macos_workspace_write_policy network_mode; lit "-DWRITABLE_ROOT=" ++ root;
            lit "--"; command_name] ++ args,
           sandbox)
  else Err (lit "workspace_write bash requires macOS seatbelt sandbox enforcement on this build").
Definition sandboxed_command_for_policy (root command_name : str) (args : list str)
    (policy : CommandExecutionPolicy) : result ToolsetError (str * list str * str) :=
  let? sandbox := select_sandbox_for_execution policy in
  match cp_mode policy with
  | ReadOnly => Ok (command_name, args, sandbox)
  | Unrestricted => Ok (command_name, args, sandbox)
  | WorkspaceWrite =>
      match sandboxed_workspace_write_command root command_name args (cp_network_mode policy) sandbox with
      | Ok r => Ok r
      | Err error => Err (TS_Other error)
      end
  end.
End platform.

(** ** Argument vectors *)

(** [Path::new(raw).file_name()] on Unix: empty and [.] components vanish, and a
    path that ends in [..] has no file name. *)
Definition path_components (raw : str) : list str :=
  filter (λ c, c ≠ [] ∧ c ≠ lit ".") (split_on 47 raw).
Definition file_name (raw : str) : option str :=
  match rev (path_components raw) with
  | c :: _ => if str_eqb c (lit "..") then None else Some c
  | [] => None
  end.
Definition executable_name_lookup_key (raw : str) : option str := file_name raw.
Definition command_key (command : str) : str := default command (executable_name_lookup_key command).

(** [argv.iter().zip(prefix).all(==)] once the lengths are compared. *)
Fixpoint zip_all_eq (argv prefix : list str) : bool :=
  match argv, prefix with
  | a :: argv, b :: prefix => str_eqb a b && zip_all_eq argv prefix
  | _, _ => true
  end.
Definition matches_prefix (argv prefix : list str) : bool :=
  Nat.leb (length prefix) (length argv) && zip_all_eq argv prefix.
Definition first_matching_prefix (argv : list str) (prefixes : list (list str)) : option (list str) :=
  List.find (matches_prefix argv) prefixes.

Definition is_ascii_whitespace (c : char) : bool :=
  (c =? 32) || (c =? 9) || (c =? 10) || (c =? 12) || (c =? 13).
(** [split_ascii_whitespace]: maximal runs of other characters. *)
Fixpoint split_ascii_aux (cur s : str) : list str :=
  let flush := match cur with [] => [] | _ => [rev cur] end in
  match s with
  | [] => flush
  | c :: s' =>
      if is_ascii_whitespace c then flush ++ split_ascii_aux [] s' else split_ascii_aux (c :: cur) s'
  end.
Definition split_ascii_whitespace (s : str) : list str := split_ascii_aux [] s.

Section prefixes.
(** [serde_json::from_str::<Vec<String>>]. *)
Context (from_str_vec : str → result str (list str)).

Definition parse_argv_prefix (value : str) : result str (list str) :=
  let trimmed := trim value in
  if is_nil trimmed then Err (lit "argv prefix cannot be empty")
  else if starts_with [91] trimmed
  then match from_str_vec trimmed with
       | Err e => Err (lit "parsing argv prefix JSON " ++ trimmed ++ lit ": " ++ e)
       | Ok prefix =>
           if is_nil prefix || existsb (λ token, is_nil (trim token)) prefix
           then Err (lit "argv prefix must contain non-empty tokens") else Ok prefix
       end
  else let prefix := split_ascii_whitespace trimmed in
       if is_nil prefix then Err (lit "argv prefix cannot be empty") else Ok prefix.
Fixpoint parse_argv_prefixes (values : list str) : result str (list (list str)) :=
  match values with
  | [] => Ok []
  | value :: values =>
      let? prefix := parse_argv_prefix value in
      let? prefixes := parse_argv_prefixes values in
      Ok (prefix :: prefixes)
  end.
End prefixes.

(** ** Validation *)

Definition verdict : Type := result ToolsetError unit.
Definition read_only_argument_denial (policy : CommandExecutionPolicy) (command argument : str)
    : ToolsetError := policy_denial policy (ReadOnlyArgumentNotAllowed command argument).

(** Deny the first argument that satisfies the test, as [args.iter().find]. *)
Definition deny_first (bad : str → bool) (denial : str → ToolsetError) (args : list str) : verdict :=
  match List.find bad args with Some argument => Err (denial argument) | None => Ok tt end.

Section validation.
Context (policy : CommandExecutionPolicy).

Definition sed_writes (arg : str) : bool :=
  is_one_of arg ["-i"; "--in-place"]%string || starts_with_any arg ["-i"; "--in-place="]%string.
Definition find_writes (arg : str) : bool :=
  is_one_of arg ["-delete"; "-exec"; "-execdir"; "-ok"; "-okdir"; "-fprint"; "-fprint0"; "-fprintf";
                 "-fls"]%string.

Definition validate_subcommand (command : string) (allowed : list string) (args : list str) : verdict :=
  match args with
  | [] => Err (policy_denial policy (ReadOnlySubcommandRequired (lit command)))
  | subcommand :: _ =>
      if is_one_of subcommand allowed then Ok tt
      else Err (policy_denial policy (ReadOnlySubcommandNotAllowlisted (lit command) subcommand))
  end.
Definition validate_launchctl_args : list str → verdict :=
  validate_subcommand "launchctl" ["list"; "print"; "print-disabled"; "blame"]%string.
Definition validate_tailscale_args : list str → verdict :=
  validate_subcommand "tailscale" ["status"; "ip"; "netcheck"; "version"; "ping"]%string.

Definition curl_mutates (arg : str) : bool :=
  is_one_of arg ["-d"; "--data"; "--data-raw"; "--data-binary"; "--data-urlencode"; "-F"; "--form";
    "-T"; "--upload-file"; "-X"; "--request"; "-o"; "--output"; "-O"; "--remote-name";
    "--remote-header-name"; "-K"; "--config"; "--next"]%string
  || starts_with_any arg ["-d"; "--data="; "-F"; "--form="; "-T"; "--upload-file="; "-X"; "--request=";
    "-o"; "--output="; "-O"; "-K"; "--config="]%string.
(** The scan of [args], with whether a URL was seen. *)
Fixpoint validate_curl_loop (has_http_url : bool) (args : list str) : verdict :=
  match args with
  | [] => if has_http_url then Ok tt
          else Err (policy_denial policy (ReadOnlyUrlRequired (lit "curl")))
  | arg :: args =>
      let has_http_url := starts_with_any arg ["http://"; "https://"]%string || has_http_url in
      if curl_mutates arg then Err (read_only_argument_denial policy (lit "curl") arg)
      else validate_curl_loop has_http_url args
  end.
Definition validate_curl_args (args : list str) : verdict := validate_curl_loop false args.

Definition validate_sudo_args (args : list str) : verdict :=
  match args with
  | [] => Err (policy_denial policy (ReadOnlySubcommandRequired (lit "sudo")))
  | command :: rest =>
      let command_name := default command (file_name command) in
      if str_eqb command_name (lit "launchctl")
      then if str_eqb command (lit "/bin/launchctl") then validate_launchctl_args rest
           else Err (read_only_argument_denial policy (lit "sudo") command)
      else Err (policy_denial policy (ReadOnlySubcommandNotAllowlisted (lit "sudo") command_name))
  end.

Definition rg_unsafe (arg : str) : bool :=
  is_one_of arg ["--search-zip"; "-z"]%string
  || is_one_of arg ["--pre"; "--hostname-bin"]%string
  || starts_with_any arg ["--pre="; "--hostname-bin="]%string.
Definition validate_ripgrep_args : list str → verdict :=
  deny_first rg_unsafe (read_only_argument_denial policy (lit "rg")).

(** *** Git *)

Definition git_global_options : list string :=
  ["-C"; "-c"; "--config-env"; "--exec-path"; "--git-dir"; "--namespace"; "--super-prefix";
   "--work-tree"]%string.
Definition git_global_option_requires_denial (arg : str) : bool :=
  is_one_of arg git_global_options
  || (starts_with_any arg ["-C"; "-c"]%string && (2 <? str_len arg))
  || starts_with_any arg ["--config-env="; "--exec-path="; "--git-dir="; "--namespace=";
       "--super-prefix="; "--work-tree="]%string.
(** The first word that is no option nor an option's value, with its position. *)
Fixpoint find_git_subcommand_from (idx : nat) (skip_next : bool) (args : list str) : option (nat * str) :=
  match args with
  | [] => None
  | arg :: args =>
      if skip_next then find_git_subcommand_from (S idx) false args
      else if is_one_of arg git_global_options then find_git_subcommand_from (S idx) true args
      else if str_eqb arg (lit "--") || starts_with (lit "-") arg
      then find_git_subcommand_from (S idx) false args
      else Some (idx, arg)
  end.
Definition find_git_subcommand : list str → option (nat * str) := find_git_subcommand_from 0 false.

Definition git_flag_unsafe (arg : str) : bool :=
  is_one_of arg ["--output"; "--ext-diff"; "--textconv"; "--exec"; "--paginate"]%string
  || starts_with_any arg ["--output="; "--exec="]%string.
Definition validate_git_read_only_flags : list str → verdict :=
  deny_first git_flag_unsafe (read_only_argument_denial policy (lit "git")).
Definition git_branch_reads (arg : str) : bool :=
  is_one_of arg ["--list"; "-l"; "--show-current"; "-a"; "--all"; "-r"; "--remotes"; "-v"; "-vv";
                 "--verbose"]%string
  || starts_with (lit "--format=") arg.
Definition validate_git_branch_args : list str → verdict :=
  deny_first (λ arg, negb (git_branch_reads arg)) (read_only_argument_denial policy (lit "git")).

Definition validate_git_args (args : list str) : verdict :=
  let? _ := deny_first git_global_option_requires_denial
              (read_only_argument_denial policy (lit "git")) args in
  match find_git_subcommand args with
  | None => Err (policy_denial policy (ReadOnlySubcommandRequired (lit "git")))
  | Some (idx, subcommand) =>
      let subcommand_args := drop (idx + 1) args in
      let? _ := validate_git_read_only_flags subcommand_args in
      if is_one_of subcommand ["status"; "diff"; "show"; "log"; "ls-files"; "grep"; "rev-parse"]%string
      then Ok tt
      else if str_eqb subcommand (lit "branch") then validate_git_branch_args subcommand_args
      else Err (policy_denial policy (ReadOnlySubcommandNotAllowlisted (lit "git") subcommand))
  end.

Definition git_metadata_write_denial (subcommand : str) : ToolsetError :=
  policy_denial policy (GitMetadataWriteDenied (lit "git") subcommand).
Definition git_read_subcommand_allowed_under_worktree_diff (subcommand : str) : bool :=
  is_one_of subcommand ["status"; "diff"; "show"; "log"; "ls-files"; "grep"; "rev-parse"; "branch"]%string.
Definition deny_git_metadata_write_args (args : list str) : verdict :=
  let? _ := deny_first git_global_option_requires_denial git_metadata_write_denial args in
  match find_git_subcommand args with
  | None => Err (policy_denial policy (ReadOnlySubcommandRequired (lit "git")))
  | Some (idx, subcommand) =>
      let subcommand_args := drop (idx + 1) args in
      let? _ := validate_git_read_only_flags subcommand_args in
      if git_read_subcommand_allowed_under_worktree_diff subcommand
      then if str_eqb subcommand (lit "branch") then validate_git_branch_args subcommand_args else Ok tt
      else Err (git_metadata_write_denial subcommand)
  end.

(** The locals of the scan: whether the next word is the script, and the last
    word seen otherwise. *)
Fixpoint find_script (expect_script : bool) (script : option str) (args : list str) : option str :=
  match args with
  | [] => if expect_script then script else None
  | arg :: args =>
      if expect_script then Some arg
      else if is_one_of arg ["-c"; "-lc"; "-cl"]%string then find_script true script args
      else find_script (starts_with (lit "-") arg && negb (starts_with (lit "--") arg)
                        && contains (lit "c") arg) (Some arg) args
  end.
Definition shell_command_script (command : str) (args : list str) : option str :=
  match executable_name_lookup_key command with
  | None => None
  | Some name =>
      if is_one_of name ["sh"; "bash"; "zsh"; "dash"; "ksh"]%string then find_script false None args
      else None
  end.
Fixpoint split_segments (s : str) : list str :=
  match s with
  | [] => [[]]
  | c :: s' =>
      if (c =? 59) || (c =? NL) || (c =? 124) || (c =? 38) then [] :: split_segments s'
      else match split_segments s' with
           | l :: ls => (c :: l) :: ls
           | [] => [[c]]
           end
  end.
Definition is_git_word (word : str) : bool :=
  is_some_and (λ name, str_eqb name (lit "git")) (executable_name_lookup_key word).
Fixpoint after_git (words : list str) : option (list str) :=
  match words with
  | [] => None
  | word :: words => if is_git_word word then Some words else after_git words
  end.
Definition git_invocations_in_script (script : str) : list (list str) :=
  omap (λ segment, after_git (split_whitespace segment)) (split_segments script).
Fixpoint deny_each (invocations : list (list str)) : verdict :=
  match invocations with
  | [] => Ok tt
  | git_args :: invocations =>
      let? _ := deny_git_metadata_write_args git_args in deny_each invocations
  end.
Definition validate_git_worktree_diff_policy (command : str) (args : list str) : verdict :=
  if str_eqb (command_key command) (lit "git") then deny_git_metadata_write_args args
  else match shell_command_script command args with
       | Some script => deny_each (git_invocations_in_script script)
       | None => Ok tt
       end.

(** *** Network, read-only, and the whole policy *)

Definition validate_read_only_network_disabled (command : str) (args : list str) : verdict :=
  let key := command_key command in
  if str_eqb key (lit "curl")
  then Err (policy_denial policy (DisabledNetworkCommand (lit "curl")))
  else if str_eqb key (lit "tailscale")
  then match args with
       | sub :: _ =>
           if is_one_of sub ["ping"; "netcheck"]%string
           then Err (policy_denial policy (DisabledNetworkCommand (lit "tailscale"))) else Ok tt
       | [] => Ok tt
       end
  else Ok tt.
Definition validate_network_mode (command : str) (args : list str) : verdict :=
  match cp_network_mode policy with
  | Disabled =>
      match cp_mode policy with
      | WorkspaceWrite => Ok tt
      | Unrestricted => Err (policy_denial policy DisabledNetworkUnenforceable)
      | ReadOnly => validate_read_only_network_disabled command args
      end
  | _ => Ok tt
  end.

Definition built_in_allowlisted (command : str) (allowlist : list str) : bool :=
  existsb (λ allowed, str_eqb allowed command
                      || is_some_and (λ key, str_eqb key (command_key command))
                           (executable_name_lookup_key allowed)) allowlist.
Definition validate_read_only_arguments (key : str) (args : list str) : verdict :=
  if str_eqb key (lit "sed") then deny_first sed_writes (read_only_argument_denial policy (lit "sed")) args
  else if str_eqb key (lit "find")
  then deny_first find_writes (read_only_argument_denial policy (lit "find")) args
  else if str_eqb key (lit "git") then validate_git_args args
  else if str_eqb key (lit "rg") then validate_ripgrep_args args
  else if str_eqb key (lit "launchctl") then validate_launchctl_args args
  else if str_eqb key (lit "tailscale") then validate_tailscale_args args
  else if str_eqb key (lit "curl") then validate_curl_args args
  else if str_eqb key (lit "sudo") then validate_sudo_args args
  else Ok tt.
Definition validate_read_only_command_inner (command : str) (args : list str) (allowlist : list str)
    (allowed_prefix_matched : bool) : verdict :=
  if negb (built_in_allowlisted command allowlist) && negb allowed_prefix_matched
  then Err (policy_denial policy (ReadOnlyCommandNotAllowlisted (command_key command)))
  else validate_read_only_arguments (command_key command) args.

Definition or_else {A} (a b : option A) : option A := match a with Some _ => a | None => b end.
Definition validate_command_policy_inner (command : str) (args : list str)
    (resolved_command : option str) : verdict :=
  let argv := command :: args in
  let resolved_argv := (λ resolved, resolved :: args) <$> resolved_command in
  match or_else (first_matching_prefix argv (cp_forbidden_argv_prefixes policy))
          (resolved_argv ≫= λ argv, first_matching_prefix argv (cp_forbidden_argv_prefixes policy)) with
  | Some prefix => Err (policy_denial policy (ForbiddenPrefix prefix))
  | None =>
      if cp_deny_all_argv policy then Err (policy_denial policy (AllowedPrefixRequired argv))
      else
        let allowed_prefix_matched :=
          bool_decide (is_Some (first_matching_prefix argv (cp_allowed_argv_prefixes policy)))
          || is_some_and (λ argv, bool_decide (is_Some (first_matching_prefix argv
                                    (cp_allowed_argv_prefixes policy)))) resolved_argv in
        if negb (is_nil (cp_allowed_argv_prefixes policy)) && negb allowed_prefix_matched
        then Err (policy_denial policy (AllowedPrefixRequired argv))
        else
          let? _ := validate_network_mode command args in
          if is_mode ReadOnly policy
          then validate_read_only_command_inner command args (cp_read_only_allowlist policy)
                 allowed_prefix_matched
          else if cp_deny_git_metadata_writes policy
          then validate_git_worktree_diff_policy command args
          else Ok tt
  end.
Definition validate_command_policy (command : str) (args : list str) : verdict :=
  validate_command_policy_inner command args None.
Definition validate_command_policy_with_resolved_executable (command : str) (args : list str)
    (resolved_command : str) : verdict :=
  validate_command_policy_inner command args (Some resolved_command).
End validation.

(** ** Environment *)

Definition CORE_ENV_VARS : list str :=
  lit <$> ["PATH"; "SHELL"; "TMPDIR"; "TEMP"; "TMP"; "HOME"; "LANG"; "LC_ALL"; "LC_CTYPE"; "LOGNAME";
           "USER"; "RUSTUP_HOME"; "CARGO_HOME"; "RUSTUP_TOOLCHAIN"; "SDKROOT"; "DEVELOPER_DIR"]%string.
Definition FALLBACK_PATH : str := lit "/usr/bin:/bin:/usr/sbin:/sbin".
Definition is_secret_env_name (key : str) : bool :=
  let key := to_ascii_uppercase key in
  contains (lit "KEY") key || contains (lit "SECRET") key || contains (lit "TOKEN") key
  || contains (lit "PASSWORD") key.
Definition eq_ignore_ascii_case (a b : str) : bool :=
  str_eqb (to_ascii_lowercase a) (to_ascii_lowercase b).
Definition is_core_env_var (key : str) : bool :=
  existsb (λ allowed, eq_ignore_ascii_case allowed key) CORE_ENV_VARS.
(** [collect] into a [HashMap]: a later value of a name replaces an earlier one. *)
Definition collect_env (vars : list (str * str)) : gmap str str :=
  foldl (λ env kv, <[kv.1 := kv.2]> env) ∅ vars.
Definition build_shell_env_from_vars (vars : list (str * str)) : gmap str str :=
  let env := collect_env (List.filter (λ kv, is_core_env_var kv.1 && negb (is_secret_env_name kv.1)) vars) in
  let env := match env !! lit "PATH" with
             | Some _ => env
             | None => <[lit "PATH" := FALLBACK_PATH]> env
             end in
  <[lit "TERM" := lit "dumb"]> (<[lit "CLICOLOR" := lit "0"]> (<[lit "NO_COLOR" := lit "1"]>
    (<[lit "GIT_PAGER" := lit "cat"]> (<[lit "PAGER" := lit "cat"]> env)))).

(** ** Command lines *)

Definition is_ascii_alphanumeric (c : char) : bool :=
  is_digit c || ((65 <=? c) && (c <=? 90)) || ((97 <=? c) && (c <=? 122)).
Definition SQUOTE : char := 39.
Definition shell_safe_char (c : char) : bool :=
  is_ascii_alphanumeric c || bool_decide (c ∈ lit "/._-:=").
Definition shell_quote (arg : str) : str :=
  if negb (is_nil arg) && forallb shell_safe_char arg then arg
  else [SQUOTE] ++ replace_all_in [SQUOTE] [SQUOTE; DQUOTE; SQUOTE; DQUOTE; SQUOTE] arg ++ [SQUOTE].
Definition shell_join (argv : list str) : str := join [32] (shell_quote <$> argv).

Record StreamTruncationMetadata : Type := mkStreamTruncation {
  st_returned_bytes : Z; st_total_bytes : Z; st_max_bytes : Z; st_truncated : bool }.
Definition truncate_stream (text : str) (max_bytes : Z) : str * StreamTruncationMetadata :=
  let limits := {| max_lines := usize_max; Truncation.max_bytes := max_bytes |} in
  let result := truncate text Head limits in
  (tt_text result,
   mkStreamTruncation (tt_returned_bytes result) (tt_original_bytes result) max_bytes
     (tt_truncated result)).

(** ** What the validation decides *)

Lemma is_nil_true {A} (l : list A) : is_nil l = true <-> l = [].
Proof. by destruct l. Qed.

Lemma zip_all_eq_prefix prefix argv :
  matches_prefix argv prefix = true <-> prefix `prefix_of` argv.
Proof.
  unfold matches_prefix. revert argv. induction prefix as [|b prefix IH]; intros argv.
  { split; [intros _; apply prefix_nil|by destruct argv]. }
  destruct argv as [|a argv].
  { split; [done|]. intros H. by apply prefix_nil_inv in H. }
  specialize (IH argv). cbn [length Nat.leb zip_all_eq]. split.
  - intros H. bool_prop. apply str_eqb_true in H0 as ->.
    apply prefix_cons, IH. by bool_prop.
  - intros H. pose proof (prefix_cons_inv_1 _ _ _ _ H) as ->.
    apply prefix_cons_inv_2, IH in H. bool_prop; try done. by apply str_eqb_refl.
Qed.

Lemma first_matching_prefix_None argv prefixes :
  first_matching_prefix argv prefixes = None <-> ∀ p, p ∈ prefixes -> ¬ p `prefix_of` argv.
Proof.
  unfold first_matching_prefix. split.
  - intros H p Hp Hpre. apply list_elem_of_In in Hp.
    pose proof (List.find_none _ _ H p Hp) as Hm. apply zip_all_eq_prefix in Hpre. congruence.
  - intros H. destruct (List.find _ _) as [p|] eqn:E; [|done].
    apply List.find_some in E as [Hin Hm]. apply list_elem_of_In in Hin.
    apply zip_all_eq_prefix in Hm. by destruct (H p Hin).
Qed.
Lemma first_matching_prefix_Some argv prefixes p :
  first_matching_prefix argv prefixes = Some p -> p ∈ prefixes ∧ p `prefix_of` argv.
Proof.
  intros [Hin Hm]%List.find_some. split; [by apply list_elem_of_In|by apply zip_all_eq_prefix].
Qed.
Lemma first_matching_prefix_is_Some argv prefixes :
  is_Some (first_matching_prefix argv prefixes) <-> ∃ p, p ∈ prefixes ∧ p `prefix_of` argv.
Proof.
  split.
  - intros [p H%first_matching_prefix_Some]. by exists p.
  - intros (p & Hin & Hp). destruct (first_matching_prefix argv prefixes) as [q|] eqn:E; [done|].
    by destruct (proj1 (first_matching_prefix_None argv prefixes) E p Hin).
Qed.

Lemma deny_first_Ok bad denial args :
  deny_first bad denial args = Ok tt <-> Forall (λ a, bad a = false) args.
Proof.
  unfold deny_first. rewrite Forall_forall. split.
  - destruct (List.find bad args) eqn:E; [done|]. intros _ a Ha. exact (List.find_none _ _ E a Ha).
  - intros H. destruct (List.find bad args) as [a|] eqn:E; [|done].
    apply List.find_some in E as [Hin Hb]. rewrite (H a Hin) in Hb. done.
Qed.

(** *** Git invocations that only read *)

Definition is_option (arg : str) : Prop := starts_with (lit "-") arg = true.
Definition git_read_subcommand (sub : str) (post : list str) : Prop :=
  is_one_of sub ["status"; "diff"; "show"; "log"; "ls-files"; "grep"; "rev-parse"]%string = true
  ∨ (sub = lit "branch" ∧ Forall (λ a, git_branch_reads a = true) post).
(** The invocation is options, a reading subcommand and safe arguments, and no
    word of it redirects where Git looks for configuration or helpers. *)
Definition git_reads (args : list str) : Prop :=
  Forall (λ a, git_global_option_requires_denial a = false) args
  ∧ ∃ pre sub post, args = pre ++ sub :: post ∧ Forall is_option pre ∧ ¬ is_option sub
      ∧ Forall (λ a, git_flag_unsafe a = false) post ∧ git_read_subcommand sub post.

Lemma find_git_subcommand_spec args i :
  Forall (λ a, git_global_option_requires_denial a = false) args ->
  match find_git_subcommand_from i false args with
  | Some (j, sub) => ∃ pre post, args = pre ++ sub :: post ∧ j = (i + length pre)%nat
                       ∧ Forall is_option pre ∧ ¬ is_option sub
  | None => Forall is_option args
  end.
Proof.
  intros H. revert i. induction H as [|a args Ha _ IH]; intros i; [by constructor|].
  cbn [find_git_subcommand_from].
  replace (is_one_of a git_global_options) with false.
  2: { symmetry. unfold git_global_option_requires_denial in Ha. by bool_prop. }
  destruct (str_eqb a (lit "--") || starts_with (lit "-") a) eqn:Hd.
  - assert (Ho : is_option a).
    { bool_prop. destruct Hd as [Hd%str_eqb_true|Hd]; [subst a; reflexivity|exact Hd]. }
    specialize (IH (S i)). destruct (find_git_subcommand_from (S i) false args) as [[j sub]|].
    + destruct IH as (pre & post & -> & -> & Hpre & Hsub). exists (a :: pre), post.
      split_and!; [done|cbn [length]; lia|by constructor|done].
    + by constructor.
  - bool_prop. exists [], args. split_and!; [done|cbn; lia|constructor|].
    unfold is_option. congruence.
Qed.

Lemma option_split_unique (pre1 pre2 post1 post2 : list str) s1 s2 :
  pre1 ++ s1 :: post1 = pre2 ++ s2 :: post2 ->
  Forall is_option pre1 -> ¬ is_option s1 -> Forall is_option pre2 -> ¬ is_option s2 ->
  pre1 = pre2 ∧ s1 = s2 ∧ post1 = post2.
Proof.
  revert pre2. induction pre1 as [|a pre1 IH]; intros pre2 Heq H1 Hs1 H2 Hs2.
  - destruct pre2 as [|b pre2]; cbn in Heq; [naive_solver|].
    injection Heq as -> _. inversion H2; subst. done.
  - destruct pre2 as [|b pre2]; cbn in Heq.
    + injection Heq as -> _. inversion H1; subst. done.
    + injection Heq as -> Heq. inversion H1; inversion H2; subst.
      destruct (IH pre2) as (-> & -> & ->); done.
Qed.

(** What both Git validators check after the global options. *)
Lemma git_subcommand_reads args :
  Forall (λ a, git_global_option_requires_denial a = false) args ->
  git_reads args <->
  match find_git_subcommand args with
  | Some (idx, sub) =>
      Forall (λ a, git_flag_unsafe a = false) (drop (idx + 1) args)
      ∧ git_read_subcommand sub (drop (idx + 1) args)
  | None => False
  end.
Proof.
  intros Hg. pose proof (find_git_subcommand_spec args 0 Hg) as Hs. unfold find_git_subcommand.
  destruct (find_git_subcommand_from 0 false args) as [[idx sub]|].
  - destruct Hs as (pre & post & -> & -> & Hpre & Hsub).
    replace (drop (0 + length pre + 1) (pre ++ sub :: post)) with post.
    2: { rewrite drop_app_ge by lia.
         by replace (0 + length pre + 1 - length pre)%nat with 1%nat by lia. }
    split.
    + intros (_ & pre' & sub' & post' & Heq & Hpre' & Hsub' & Hf & Hr).
      destruct (option_split_unique _ _ _ _ _ _ Heq Hpre Hsub Hpre' Hsub') as (-> & -> & ->). done.
    + intros [Hf Hr]. split; [done|]. by exists pre, sub, post.
  - split; [|done]. intros (_ & pre & sub & post & -> & _ & Hsub & _).
    apply Forall_app in Hs as [_ Hs]. inversion Hs; subst. done.
Qed.

Lemma validate_git_branch_args_Ok policy post :
  validate_git_branch_args policy post = Ok tt <-> Forall (λ a, git_branch_reads a = true) post.
Proof.
  unfold validate_git_branch_args. rewrite deny_first_Ok.
  by apply Forall_iff; intros a; rewrite negb_false_iff.
Qed.

(** The common part of both Git validators, around their last check. *)
Lemma git_gate policy denial e args (last_check : str → list str → verdict) :
  (∀ sub post, last_check sub post = Ok tt <-> git_read_subcommand sub post) ->
  (let? _ := deny_first git_global_option_requires_denial denial args in
   match find_git_subcommand args with
   | None => Err e
   | Some (idx, sub) =>
       let? _ := validate_git_read_only_flags policy (drop (idx + 1) args) in
       last_check sub (drop (idx + 1) args)
   end) = Ok tt <-> git_reads args.
Proof.
  intros Hlast.
  destruct (deny_first git_global_option_requires_denial _ args) as [[]|e'] eqn:Hd.
  2: { split; [done|]. intros [Hg _]. apply (proj2 (deny_first_Ok _ denial _)) in Hg. congruence. }
  apply deny_first_Ok in Hd. rewrite git_subcommand_reads by done.
  destruct (find_git_subcommand args) as [[idx sub]|]; [|done].
  destruct (validate_git_read_only_flags policy (drop (idx + 1) args)) as [[]|e'] eqn:Hf.
  - apply deny_first_Ok in Hf. rewrite Hlast. naive_solver.
  - split; [done|]. intros [H _]. unfold validate_git_read_only_flags in Hf.
    apply (proj2 (deny_first_Ok _ (read_only_argument_denial policy (lit "git")) _)) in H. congruence.
Qed.

Lemma validate_git_args_Ok policy args : validate_git_args policy args = Ok tt <-> git_reads args.
Proof.
  apply (git_gate policy _ _ args (λ sub post,
    if is_one_of sub ["status"; "diff"; "show"; "log"; "ls-files"; "grep"; "rev-parse"]%string
    then Ok tt
    else if str_eqb sub (lit "branch") then validate_git_branch_args policy post
    else Err (policy_denial policy (ReadOnlySubcommandNotAllowlisted (lit "git") sub)))).
  intros sub post. unfold git_read_subcommand. destruct (is_one_of sub _) eqn:Hr; [naive_solver|].
  destruct (str_eqb sub (lit "branch")) eqn:Hb.
  - apply str_eqb_true in Hb as ->. rewrite validate_git_branch_args_Ok. naive_solver.
  - split; [done|]. intros [?|[-> _]]; done.
Qed.

Lemma deny_git_metadata_write_args_Ok policy args :
  deny_git_metadata_write_args policy args = Ok tt <-> git_reads args.
Proof.
  apply (git_gate policy _ _ args (λ sub post,
    if git_read_subcommand_allowed_under_worktree_diff sub
    then if str_eqb sub (lit "branch") then validate_git_branch_args policy post else Ok tt
    else Err (git_metadata_write_denial policy sub))).
  intros sub post. unfold git_read_subcommand, git_read_subcommand_allowed_under_worktree_diff.
  destruct (str_eqb sub (lit "branch")) eqn:Hb.
  - apply str_eqb_true in Hb as ->. etransitivity; [exact (validate_git_branch_args_Ok policy post)|].
    split; [naive_solver|]. intros [H|[_ H]]; [discriminate H|exact H].
  - assert (Hne : sub ≠ lit "branch") by (intros ->; done).
    unfold is_one_of. cbn [existsb]. rewrite Hb, !orb_false_r.
    destruct (_ || _); [naive_solver|]. split; [done|]. by intros [?|[? _]].
Qed.

(** *** The decision, declaratively *)

Definition launchctl_reads (args : list str) : Prop :=
  ∃ sub rest, args = sub :: rest
    ∧ is_one_of sub ["list"; "print"; "print-disabled"; "blame"]%string = true.
Definition is_http_url (arg : str) : bool := starts_with_any arg ["http://"; "https://"]%string.

(** Arguments with which the program named [key] only reads. *)
Record reading_arguments (key : str) (args : list str) : Prop := {
  ra_sed : key = lit "sed" -> Forall (λ a, sed_writes a = false) args;
  ra_find : key = lit "find" -> Forall (λ a, find_writes a = false) args;
  ra_git : key = lit "git" -> git_reads args;
  ra_rg : key = lit "rg" -> Forall (λ a, rg_unsafe a = false) args;
  ra_launchctl : key = lit "launchctl" -> launchctl_reads args;
  ra_tailscale : key = lit "tailscale" -> ∃ sub rest, args = sub :: rest
    ∧ is_one_of sub ["status"; "ip"; "netcheck"; "version"; "ping"]%string = true;
  ra_curl : key = lit "curl" ->
    Forall (λ a, curl_mutates a = false) args ∧ Exists (λ a, is_http_url a = true) args;
  ra_sudo : key = lit "sudo" -> ∃ rest, args = lit "/bin/launchctl" :: rest ∧ launchctl_reads rest }.

Lemma validate_subcommand_Ok policy command allowed args :
  validate_subcommand policy command allowed args = Ok tt <->
  ∃ sub rest, args = sub :: rest ∧ is_one_of sub allowed = true.
Proof.
  unfold validate_subcommand. destruct args as [|sub rest].
  { split; [done|]. by intros (? & ? & ? & _). }
  destruct (is_one_of sub allowed) eqn:E; split.
  - by exists sub, rest.
  - done.
  - done.
  - intros (? & ? & [= <- <-] & H). congruence.
Qed.

Lemma validate_curl_loop_Ok policy args : ∀ seen,
  validate_curl_loop policy seen args = Ok tt <->
  Forall (λ a, curl_mutates a = false) args
  ∧ (seen = true ∨ Exists (λ a, is_http_url a = true) args).
Proof.
  induction args as [|a args IH]; intros seen; cbn [validate_curl_loop].
  { rewrite Exists_nil. destruct seen; naive_solver. }
  rewrite Forall_cons_iff, Exists_cons. destruct (curl_mutates a); [naive_solver|].
  rewrite IH. fold (is_http_url a). destruct (is_http_url a), seen; naive_solver.
Qed.

Lemma file_name_launchctl : file_name (lit "/bin/launchctl") = Some (lit "launchctl").
Proof. reflexivity. Qed.

Lemma validate_sudo_args_Ok policy args :
  validate_sudo_args policy args = Ok tt <->
  ∃ rest, args = lit "/bin/launchctl" :: rest ∧ launchctl_reads rest.
Proof.
  unfold validate_sudo_args. destruct args as [|command rest]; [naive_solver|].
  destruct (str_eqb (default command (file_name command)) (lit "launchctl")) eqn:Hn.
  - destruct (str_eqb command (lit "/bin/launchctl")) eqn:Hc.
    + apply str_eqb_true in Hc as ->. unfold validate_launchctl_args.
      rewrite validate_subcommand_Ok. fold (launchctl_reads rest). naive_solver.
    + split; [done|]. intros (r & [= -> ->] & _). done.
  - split; [done|]. intros (r & [= -> ->] & _). rewrite file_name_launchctl in Hn. done.
Qed.

(** The clause of another program holds vacuously. *)
Ltac other_program := by (intros Hother; exfalso; revert Hother; vm_compute).
Ltac only_clause lem clause := split;
  [intros Hv; apply lem in Hv; constructor; first [other_program | intros _; exact Hv]
  |intros Hr; apply lem; exact (clause _ _ Hr eq_refl)].

(** The dispatch on the program's name reaches exactly one validator. *)
Lemma validate_read_only_arguments_Ok policy key args :
  validate_read_only_arguments policy key args = Ok tt <-> reading_arguments key args.
Proof.
  unfold validate_read_only_arguments.
  destruct (str_eqb key (lit "sed")) eqn:H1.
  { apply str_eqb_true in H1 as ->. only_clause deny_first_Ok ra_sed. }
  destruct (str_eqb key (lit "find")) eqn:H2.
  { apply str_eqb_true in H2 as ->. only_clause deny_first_Ok ra_find. }
  destruct (str_eqb key (lit "git")) eqn:H3.
  { apply str_eqb_true in H3 as ->. only_clause validate_git_args_Ok ra_git. }
  destruct (str_eqb key (lit "rg")) eqn:H4.
  { apply str_eqb_true in H4 as ->. only_clause deny_first_Ok ra_rg. }
  destruct (str_eqb key (lit "launchctl")) eqn:H5.
  { apply str_eqb_true in H5 as ->. only_clause validate_subcommand_Ok ra_launchctl. }
  destruct (str_eqb key (lit "tailscale")) eqn:H6.
  { apply str_eqb_true in H6 as ->. only_clause validate_subcommand_Ok ra_tailscale. }
  destruct (str_eqb key (lit "curl")) eqn:H7.
  { apply str_eqb_true in H7 as ->. unfold validate_curl_args. rewrite validate_curl_loop_Ok.
    split; [intros [Hm [?|Hu]]; [done|]; constructor; first [other_program|done]|].
    intros Hr. destruct (ra_curl _ _ Hr eq_refl) as [Hm Hu]. auto. }
  destruct (str_eqb key (lit "sudo")) eqn:H8.
  { apply str_eqb_true in H8 as ->. only_clause validate_sudo_args_Ok ra_sudo. }
  split; [|done]. intros _. constructor; intros ->; done.
Qed.

(** The argument vectors a command is known under. *)
Definition known_argvs (command : str) (args : list str) (resolved : option str) : list (list str) :=
  (command :: args) :: from_option (λ r, [r :: args]) [] resolved.
Definition some_prefix (prefixes argvs : list (list str)) : Prop :=
  ∃ p v, p ∈ prefixes ∧ v ∈ argvs ∧ p `prefix_of` v.

Record permitted (policy : CommandExecutionPolicy) (command : str) (args : list str)
    (resolved : option str) : Prop := {
  pm_not_forbidden :
    ¬ some_prefix (cp_forbidden_argv_prefixes policy) (known_argvs command args resolved);
  pm_not_denied : cp_deny_all_argv policy = false;
  pm_allowed : cp_allowed_argv_prefixes policy = []
    ∨ some_prefix (cp_allowed_argv_prefixes policy) (known_argvs command args resolved);
  pm_network : cp_network_mode policy = Disabled -> cp_mode policy ≠ Unrestricted
    ∧ (cp_mode policy = ReadOnly -> command_key command ≠ lit "curl"
       ∧ (command_key command = lit "tailscale" -> ∀ sub rest, args = sub :: rest ->
            is_one_of sub ["ping"; "netcheck"]%string = false));
  pm_read_only : cp_mode policy = ReadOnly ->
    (Exists (λ a, a = command ∨ executable_name_lookup_key a = Some (command_key command))
       (cp_read_only_allowlist policy)
     ∨ some_prefix (cp_allowed_argv_prefixes policy) (known_argvs command args resolved))
    ∧ reading_arguments (command_key command) args;
  pm_git : cp_mode policy ≠ ReadOnly -> cp_deny_git_metadata_writes policy = true ->
    (command_key command = lit "git" -> git_reads args)
    ∧ (command_key command ≠ lit "git" -> ∀ script, shell_command_script command args = Some script ->
         Forall git_reads (git_invocations_in_script script)) }.

Lemma some_prefix_cases prefixes command args resolved :
  some_prefix prefixes (known_argvs command args resolved) <->
  (∃ p, p ∈ prefixes ∧ p `prefix_of` command :: args)
  ∨ (∃ r p, resolved = Some r ∧ p ∈ prefixes ∧ p `prefix_of` r :: args).
Proof.
  unfold some_prefix, known_argvs. setoid_rewrite elem_of_cons. split.
  - intros (p & v & Hp & [->|Hv] & Hpre); [left; eauto|]. destruct resolved as [r|]; cbn in Hv.
    + apply list_elem_of_singleton in Hv as ->. right. eauto 6.
    + by apply not_elem_of_nil in Hv.
  - intros [(p & Hp & Hpre)|(r & p & -> & Hp & Hpre)]; [eauto 8|].
    exists p, (r :: args). split_and!; [done|right; cbn; set_solver|done].
Qed.

Lemma forbidden_None prefixes command args (resolved : option str) :
  or_else (first_matching_prefix (command :: args) prefixes)
    (((λ r, r :: args) <$> resolved) ≫= λ argv, first_matching_prefix argv prefixes) = None
  <-> ¬ some_prefix prefixes (known_argvs command args resolved).
Proof.
  rewrite some_prefix_cases. unfold or_else.
  destruct (first_matching_prefix (command :: args) prefixes) as [p|] eqn:E.
  - apply first_matching_prefix_Some in E as [? ?]. split; [done|]. intros []. left; eauto.
  - pose proof (proj1 (first_matching_prefix_None _ _) E) as Hn.
    destruct resolved as [r|]; cbn.
    + rewrite first_matching_prefix_None. naive_solver.
    + naive_solver.
Qed.

Lemma allowed_matched prefixes command args (resolved : option str) :
  bool_decide (is_Some (first_matching_prefix (command :: args) prefixes))
  || is_some_and (λ argv, bool_decide (is_Some (first_matching_prefix argv prefixes)))
       ((λ r, r :: args) <$> resolved) = true
  <-> some_prefix prefixes (known_argvs command args resolved).
Proof.
  rewrite some_prefix_cases, orb_true_iff, bool_decide_eq_true, first_matching_prefix_is_Some.
  destruct resolved as [r|]; cbn.
  - rewrite bool_decide_eq_true, first_matching_prefix_is_Some. naive_solver.
  - naive_solver.
Qed.

Lemma validate_network_mode_Ok policy command args :
  validate_network_mode policy command args = Ok tt <->
  (cp_network_mode policy = Disabled -> cp_mode policy ≠ Unrestricted
    ∧ (cp_mode policy = ReadOnly -> command_key command ≠ lit "curl"
       ∧ (command_key command = lit "tailscale" -> ∀ sub rest, args = sub :: rest ->
            is_one_of sub ["ping"; "netcheck"]%string = false))).
Proof.
  unfold validate_network_mode. destruct (cp_network_mode policy); [naive_solver| |naive_solver].
  destruct (cp_mode policy); [|naive_solver|].
  2: { split; [done|]. intros H. by destruct (H eq_refl). }
  unfold validate_read_only_network_disabled.
  destruct (str_eqb (command_key command) (lit "curl")) eqn:Hc.
  { apply str_eqb_true in Hc. split; [done|]. intros H.
    destruct (H eq_refl) as [_ H']. by destruct (H' eq_refl). }
  assert (Hnc : command_key command ≠ lit "curl").
  { intros E. rewrite E, str_eqb_refl in Hc. done. }
  destruct (str_eqb (command_key command) (lit "tailscale")) eqn:Ht.
  - apply str_eqb_true in Ht. destruct args as [|sub rest]; [split; [|done]; intros _ _; by split_and!|].
    destruct (is_one_of sub _) eqn:Hp.
    + split; [done|]. intros H. destruct (H eq_refl) as [_ H'].
      destruct (H' eq_refl) as [_ H'']. rewrite (H'' Ht sub rest eq_refl) in Hp. done.
    + split; [|done]. intros _ _. split_and!; [done|]. intros _. split; [done|].
      intros _ ? ? [= <- <-]. exact Hp.
  - split; [|done]. intros _ _. split_and!; [done|]. intros _. split; [done|].
    intros E. rewrite E, str_eqb_refl in Ht. done.
Qed.

Lemma deny_each_Ok policy invocations :
  deny_each policy invocations = Ok tt <-> Forall git_reads invocations.
Proof.
  induction invocations as [|git_args rest IH]; [done|]. rewrite Forall_cons_iff. cbn [deny_each].
  rewrite <- (deny_git_metadata_write_args_Ok policy git_args).
  destruct (deny_git_metadata_write_args policy git_args) as [[]|e]; naive_solver.
Qed.

Lemma validate_git_worktree_diff_policy_Ok policy command args :
  validate_git_worktree_diff_policy policy command args = Ok tt <->
  (command_key command = lit "git" -> git_reads args)
  ∧ (command_key command ≠ lit "git" -> ∀ script, shell_command_script command args = Some script ->
       Forall git_reads (git_invocations_in_script script)).
Proof.
  unfold validate_git_worktree_diff_policy.
  destruct (str_eqb (command_key command) (lit "git")) eqn:Hg.
  { apply str_eqb_true in Hg. rewrite deny_git_metadata_write_args_Ok. naive_solver. }
  assert (Hng : command_key command ≠ lit "git").
  { intros E. rewrite E, str_eqb_refl in Hg. done. }
  destruct (shell_command_script command args) as [script|].
  - rewrite deny_each_Ok. split; [|naive_solver]. intros H. split; [done|]. by intros _ ? [= <-].
  - naive_solver.
Qed.

Lemma built_in_allowlisted_true command allowlist :
  built_in_allowlisted command allowlist = true <->
  Exists (λ a, a = command ∨ executable_name_lookup_key a = Some (command_key command)) allowlist.
Proof.
  unfold built_in_allowlisted. rewrite existsb_exists, Exists_exists.
  apply exist_proper; intros a. apply and_iff_compat_l.
  rewrite orb_true_iff, str_eqb_true. apply or_iff_compat_l.
  destruct (executable_name_lookup_key a) as [k|]; cbn; [rewrite str_eqb_true|]; naive_solver.
Qed.

Lemma validate_read_only_command_inner_Ok policy command args allowlist matched :
  validate_read_only_command_inner policy command args allowlist matched = Ok tt <->
  (Exists (λ a, a = command ∨ executable_name_lookup_key a = Some (command_key command)) allowlist
   ∨ matched = true) ∧ reading_arguments (command_key command) args.
Proof.
  rewrite <- built_in_allowlisted_true, <- (validate_read_only_arguments_Ok policy).
  unfold validate_read_only_command_inner.
  destruct (built_in_allowlisted command allowlist), matched; cbn; naive_solver.
Qed.

Lemma decision_iff policy command args resolved :
  validate_command_policy_inner policy command args resolved = Ok tt <->
  permitted policy command args resolved.
Proof.
  unfold validate_command_policy_inner.
  destruct (or_else _ _) as [p|] eqn:Hf.
  { split; [done|]. intros [Hn _ _ _ _ _]. apply forbidden_None in Hn. congruence. }
  apply forbidden_None in Hf.
  destruct (cp_deny_all_argv policy) eqn:Hd; [split; [done|]; by intros [_ ? _ _ _ _]; congruence|].
  set (matched := bool_decide _ || _).
  assert (Hm : matched = true <-> some_prefix (cp_allowed_argv_prefixes policy)
                                    (known_argvs command args resolved)) by apply allowed_matched.
  destruct (negb (is_nil (cp_allowed_argv_prefixes policy)) && negb matched) eqn:Ha.
  { bool_prop. split; [done|]. intros [_ _ [Hnil|Hs] _ _ _]; [by rewrite Hnil in *|].
    apply Hm in Hs. congruence. }
  assert (Hallowed : cp_allowed_argv_prefixes policy = []
    ∨ some_prefix (cp_allowed_argv_prefixes policy) (known_argvs command args resolved)).
  { bool_prop. destruct Ha as [Ha|Ha]; bool_prop; [left; by apply is_nil_true|right; by apply Hm]. }
  destruct (validate_network_mode policy command args) as [[]|e] eqn:Hnet.
  2: { split; [done|]. intros [_ _ _ Hok _ _]. rewrite (proj2 (validate_network_mode_Ok _ _ _) Hok) in Hnet. done. }
  pose proof (proj1 (validate_network_mode_Ok _ _ _) Hnet) as Hnet'. unfold is_mode.
  case_bool_decide as Hmode.
  - rewrite validate_read_only_command_inner_Ok, Hm. split.
    + intros H. by constructor.
    + intros H. by apply pm_read_only.
  - destruct (cp_deny_git_metadata_writes policy) eqn:Hgit.
    + rewrite validate_git_worktree_diff_policy_Ok. split; [by constructor|].
      intros H. exact (pm_git _ _ _ _ H Hmode Hgit).
    + split; [|done]. intros _. constructor; try done. congruence.
Qed.


(** ** Workspace authority narrows *)

Lemma apply_authority_fields policy authority :
  let met := apply_workspace_authority policy authority in
  cp_mode met = execution_mode_meet (cp_mode policy) (authority_command_mode authority)
  ∧ cp_allowed_argv_prefixes met = cp_allowed_argv_prefixes policy
  ∧ cp_forbidden_argv_prefixes met = cp_forbidden_argv_prefixes policy
  ∧ cp_network_mode met = cp_network_mode policy
  ∧ cp_deny_all_argv met = cp_deny_all_argv policy
  ∧ cp_deny_git_metadata_writes met
    = cp_deny_git_metadata_writes policy || bool_decide (authority = WA_ReadWrite)
  ∧ (cp_read_only_allowlist policy ≠ [] -> cp_read_only_allowlist met = cp_read_only_allowlist policy).
Proof.
  unfold apply_workspace_authority.
  destruct policy as [[] allowed forbidden net [|a l] da []], authority; split_and!; reflexivity || done.
Qed.

Lemma meet_mode_cases m authority :
  let met := execution_mode_meet m (authority_command_mode authority) in
  met ≠ Unrestricted ∧ (authority ≠ WA_ReadWrite -> met = ReadOnly) ∧ (m = ReadOnly -> met = ReadOnly).
Proof. by destruct m, authority. Qed.

(** Binding a request to a workspace never lets it run more: a command
    accepted under the narrowed policy was accepted under the configured one (when
    the configured one has a read-only allowlist, can enforce its network mode, and
    the command is no shell script under the worktree rule).  Whatever was
    configured, a read-only or integrating request runs only arguments that read,
    and a read-write one is never unrestricted and may use Git only to read. *)
Theorem authority_narrows policy authority command args resolved :
  validate_command_policy_inner (apply_workspace_authority policy authority) command args resolved = Ok tt ->
  ((cp_mode policy = ReadOnly -> cp_read_only_allowlist policy ≠ []) ->
   (cp_network_mode policy = Disabled -> cp_mode policy ≠ Unrestricted) ->
   (cp_deny_git_metadata_writes policy = true -> cp_mode policy ≠ ReadOnly ->
      shell_command_script command args = None) ->
   validate_command_policy_inner policy command args resolved = Ok tt)
  ∧ (authority ≠ WA_ReadWrite -> reading_arguments (command_key command) args)
  ∧ (command_key command = lit "git" -> git_reads args)
  ∧ cp_mode (apply_workspace_authority policy authority) ≠ Unrestricted.
Proof.
  destruct (apply_authority_fields policy authority) as (Hmode & Hal & Hfo & Hne & Hda & Hgi & Hli).
  pose proof (meet_mode_cases (cp_mode policy) authority) as (Hnu & Hro & Hkeep).
  rewrite <- Hmode in Hnu, Hro, Hkeep. intros [F D A N R G]%decision_iff.
  rewrite ?Hal, ?Hfo, ?Hne, ?Hda in *.
  assert (Hgit : command_key command = lit "git" -> git_reads args).
  { intros Hk. destruct (decide (cp_mode (apply_workspace_authority policy authority) = ReadOnly)) as [E|E].
    - by apply (ra_git _ _ (proj2 (R E))).
    - apply (proj1 (G E ltac:(rewrite Hgi; destruct (decide (authority = WA_ReadWrite)) as [->|Hn];
        [apply orb_true_r|by destruct (E (Hro Hn))]))), Hk. }
  split_and!; [|by intros Ha; apply R, Hro|done|done].
  intros Hlist Hnet Hshell. apply decision_iff. constructor; [done|done|done| | |].
  - intros Hd. split; [by apply Hnet|]. intros Hm. by apply N, Hkeep.
  - intros Hm. destruct (R (Hkeep Hm)) as [HR Hargs]. split; [|done].
    rewrite (Hli (Hlist Hm)) in HR. exact HR.
  - intros Hm Hg. split; [done|]. intros _ script Hs. rewrite (Hshell Hg Hm) in Hs. done.
Qed.

Definition demo_policy : CommandExecutionPolicy :=
  mkPolicy Unrestricted [] [[lit "rm"]] Inherit [] false false.
Lemma authority_narrows_witness :
  validate_command_policy_inner demo_policy (lit "/usr/bin/git") [lit "log"; lit "-p"] None = Ok tt
  ∧ git_reads [lit "log"; lit "-p"].
Proof.
  destruct (authority_narrows demo_policy WA_ReadWrite (lit "/usr/bin/git") [lit "log"; lit "-p"] None
              ltac:(by vm_compute)) as (H & _ & Hg & _).
  split; [apply H; done|apply Hg; reflexivity].
Defined.

(** The narrowing replaces an empty read-only allowlist by the default one, so
    a policy that lets no command run lets the default commands run once a
    workspace is bound. *)
Theorem authority_restores_default_allowlist authority args :
  let policy := read_only [] in
  validate_command_policy policy (lit "cat") args
  = Err (policy_denial policy (ReadOnlyCommandNotAllowlisted (lit "cat")))
  ∧ validate_command_policy (apply_workspace_authority policy authority) (lit "cat") args = Ok tt.
Proof. split; [reflexivity|]. by destruct authority. Qed.

(** ** What the flag checks miss *)

(** Short options bundled behind another letter escape the flag checks of the
    default read-only policy: an in-place [sed], and a [curl] that posts or writes a
    file; and [--paginate] is refused after the subcommand only, where Git takes it
    for an argument of the subcommand, but not before it. *)
Theorem bundled_flags_pass :
  let ok command args :=
    validate_command_policy default_read_only_command_policy (lit command) (lit <$> args) = Ok tt in
  ok "sed"%string ["-ni"; "s/a/b/"; "notes.txt"]%string
  ∧ ok "curl"%string ["-so"; "out.html"; "https://example.org"]%string
  ∧ ok "curl"%string ["-sd"; "k=v"; "https://example.org"]%string
  ∧ ok "git"%string ["--paginate"; "log"]%string
  ∧ ¬ ok "git"%string ["log"; "--paginate"]%string.
Proof. vm_compute. split_and!; done. Qed.

(** The worktree rule looks at the first Git word of each command segment only:
    a write behind [env] as the program, or inside a command substitution of a
    segment that reads, is not seen. *)
Theorem worktree_rule_misses_wrapped_git :
  let policy := with_git_worktree_diff (with_mode WorkspaceWrite default_read_only_command_policy) in
  let ok command args := validate_command_policy policy (lit command) (lit <$> args) = Ok tt in
  ¬ ok "git"%string ["commit"; "-m"; "x"]%string
  ∧ ¬ ok "sh"%string ["-c"; "git commit -m x"]%string
  ∧ ok "env"%string ["git"; "commit"; "-m"; "x"]%string
  ∧ ok "sh"%string ["-c"; "git log $(git commit -m x)"]%string.
Proof. vm_compute. split_and!; done. Qed.

(** ** Parsed prefixes *)

Lemma split_ascii_aux_nonempty s : ∀ cur, Forall (λ t, t ≠ []) (split_ascii_aux cur s).
Proof.
  assert (Hflush : ∀ cur : str, Forall (λ t, t ≠ []) match cur with [] => [] | _ => [rev cur] end).
  { intros [|c cur]; [constructor|]. repeat constructor. cbn. intros H.
    by apply app_eq_nil in H as [_ ?]. }
  induction s as [|c s IH]; intros cur; cbn [split_ascii_aux]; [apply Hflush|].
  destruct (is_ascii_whitespace c); [|apply IH]. apply Forall_app; split; [apply Hflush|apply IH].
Qed.

(** Every prefix the configuration yields is a non-empty list of non-empty
    words, so it constrains the program: it matches no argument vector whose first
    word differs from its own. *)
Theorem parsed_prefixes_constrain from_str_vec values prefixes :
  parse_argv_prefixes from_str_vec values = Ok prefixes ->
  Forall2 (λ value prefix, parse_argv_prefix from_str_vec value = Ok prefix) values prefixes
  ∧ ∀ prefix, prefix ∈ prefixes ->
      Forall (λ t, t ≠ []) prefix
      ∧ ∃ program rest, prefix = program :: rest
          ∧ ∀ argv, matches_prefix argv prefix = true -> hd_error argv = Some program.
Proof.
  revert prefixes. induction values as [|value values IH]; intros prefixes; cbn [parse_argv_prefixes].
  { intros [= <-]. split; [constructor|]. intros p Hp. by apply not_elem_of_nil in Hp. }
  destruct (parse_argv_prefix from_str_vec value) as [prefix|e] eqn:Hp; [|done].
  destruct (parse_argv_prefixes from_str_vec values) as [rest|e] eqn:Hr; [|done].
  intros [= <-]. destruct (IH rest eq_refl) as [Hall Hprop]. split; [by constructor|].
  intros p [->|Hin]%elem_of_cons; [|by apply Hprop].
  assert (Hgood : prefix ≠ [] ∧ Forall (λ t, t ≠ []) prefix).
  { unfold parse_argv_prefix in Hp. destruct (is_nil (trim value)); [done|].
    destruct (starts_with [91] (trim value)).
    - destruct (from_str_vec (trim value)) as [l|e]; [|done].
      destruct (is_nil l || existsb _ l) eqn:Hb; [done|]. injection Hp as <-. bool_prop. split.
      + intros ->. done.
      + apply Forall_forall. intros t Ht ->. pose proof (proj2 (existsb_exists _ _)
          (ex_intro (λ x, In x l ∧ _) [] (conj Ht (eq_refl : is_nil (trim []) = true)))). congruence.
    - destruct (is_nil (split_ascii_whitespace (trim value))) eqn:Hn; [done|].
      injection Hp as <-. split; [intros E; by rewrite E in Hn|apply split_ascii_aux_nonempty]. }
  destruct Hgood as [Hne Hwords]. split; [done|]. destruct prefix as [|program tail]; [done|].
  exists program, tail. split; [done|]. intros argv [k ->]%zip_all_eq_prefix. done.
Qed.

Lemma parsed_prefixes_constrain_witness :
  let prefixes := [[lit "git"; lit "push"]; [lit "rm"]] in
  parse_argv_prefixes (λ _, Err []) [lit " git  push"; lit "rm"] = Ok prefixes
  ∧ ∀ prefix, prefix ∈ prefixes -> Forall (λ t, t ≠ []) prefix.
Proof.
  split; [reflexivity|]. intros prefix Hin.
  exact (proj1 (proj2 (parsed_prefixes_constrain (λ _, Err []) [lit " git  push"; lit "rm"] _ eq_refl)
                  prefix Hin)).
Defined.

(** ** The environment of a command *)

Lemma collect_env_lookup (vars : list (str * str)) : ∀ (env : gmap str str) k v,
  foldl (λ env kv, <[kv.1 := kv.2]> env) env vars !! k = Some v ->
  env !! k = Some v ∨ (k, v) ∈ vars.
Proof.
  induction vars as [|[k' v'] vars IH]; intros env k v H; cbn [foldl] in H; [by left|].
  apply IH in H as [H|H]; [|right; by apply list_elem_of_further].
  cbn in H. destruct (decide (k' = k)) as [->|Hne].
  - rewrite lookup_insert in H. rewrite decide_True in H by done. injection H as ->.
    right. apply list_elem_of_here.
  - rewrite lookup_insert_ne in H by done. by left.
Qed.

Definition fixed_env : list (str * str) :=
  [(lit "TERM", lit "dumb"); (lit "CLICOLOR", lit "0"); (lit "NO_COLOR", lit "1");
   (lit "GIT_PAGER", lit "cat"); (lit "PAGER", lit "cat")].

Lemma environment_is_clean vars :
  let env := build_shell_env_from_vars vars in
  is_Some (env !! lit "PATH")
  ∧ ∀ k v, env !! k = Some v ->
      is_secret_env_name k = false
      ∧ ((k, v) ∈ fixed_env ∨ (k, v) = (lit "PATH", FALLBACK_PATH)
         ∨ ((k, v) ∈ vars ∧ is_core_env_var k = true)).
Proof.
  cbn zeta. unfold build_shell_env_from_vars. set (kept := List.filter _ vars).
  set (base := match collect_env kept !! lit "PATH" with Some _ => _ | None => _ end).
  assert (Hbase : is_Some (base !! lit "PATH")).
  { unfold base. destruct (collect_env kept !! lit "PATH") eqn:E; [by rewrite E|].
    rewrite lookup_insert. by rewrite decide_True. }
  assert (Hkept : ∀ k v, base !! k = Some v -> is_secret_env_name k = false
    ∧ ((k, v) = (lit "PATH", FALLBACK_PATH) ∨ ((k, v) ∈ vars ∧ is_core_env_var k = true))).
  { assert (Hcol : ∀ k v, collect_env kept !! k = Some v -> is_secret_env_name k = false
      ∧ (k, v) ∈ vars ∧ is_core_env_var k = true).
    { intros k v [H|H]%collect_env_lookup; [by rewrite lookup_empty in H|].
      apply list_elem_of_In, filter_In in H as [Hin Hb]. cbn [fst] in Hb. bool_prop.
      split_and!; [done|by apply list_elem_of_In|done]. }
    intros k v H. unfold base in H. destruct (collect_env kept !! lit "PATH").
    - apply Hcol in H. naive_solver.
    - destruct (decide (lit "PATH" = k)) as [<-|Hne].
      + rewrite lookup_insert, decide_True in H by done. injection H as <-. split; [reflexivity|by left].
      + rewrite lookup_insert_ne in H by done. apply Hcol in H. naive_solver. }
  split.
  - by rewrite !lookup_insert_ne by done.
  - intros k v H.
    assert (Hfix : (k, v) ∈ fixed_env ∧ is_secret_env_name k = false ∨ base !! k = Some v).
    { unfold fixed_env. rewrite !elem_of_cons.
      repeat match type of H with
      | <[?x := _]> _ !! k = _ =>
          destruct (decide (x = k)) as [<-|?];
          [left; rewrite lookup_insert, decide_True in H by done; injection H as <-;
           split; [tauto|reflexivity]
          |rewrite lookup_insert_ne in H by done]
      end. by right. }
    destruct Hfix as [[Hf Hs]|Hf]; [tauto|]. apply Hkept in Hf. tauto.
Qed.

(** A command's environment has a [PATH] and no name that looks like a
    credential; every variable in it is one of the fixed pager and terminal
    settings, the fallback path, or a core variable of the agent's own environment
    with its value there. *)
Theorem command_environment_is_clean vars :
  let env := build_shell_env_from_vars vars in
  is_Some (env !! lit "PATH")
  ∧ ∀ k v, env !! k = Some v ->
      is_secret_env_name k = false
      ∧ ((k, v) ∈ fixed_env ∨ (k, v) = (lit "PATH", FALLBACK_PATH)
         ∨ ((k, v) ∈ vars ∧ is_core_env_var k = true)).
Proof. apply environment_is_clean. Qed.

(** ** Command lines read back *)

(** How a POSIX shell reads a line of words: outside quotes a space ends a word,
    inside single quotes every character stands for itself, and inside double quotes
    so does every character but those that start an expansion.  A character with
    any other meaning makes the line something else than a list of words. *)
Inductive quoting : Type := Unquoted | SingleQuoted | DoubleQuoted.
Fixpoint shell_words_from (q : quoting) (started : bool) (cur : str) (s : str) : option (list str) :=
  match s with
  | [] => match q with
          | Unquoted => Some (if started then [rev cur] else [])
          | _ => None
          end
  | c :: s' =>
      match q with
      | Unquoted =>
          if c =? 32
          then (λ ws, if started then rev cur :: ws else ws) <$> shell_words_from Unquoted false [] s'
          else if c =? SQUOTE then shell_words_from SingleQuoted true cur s'
          else if c =? DQUOTE then shell_words_from DoubleQuoted true cur s'
          else if shell_safe_char c then shell_words_from Unquoted true (c :: cur) s'
          else None
      | SingleQuoted =>
          if c =? SQUOTE then shell_words_from Unquoted true cur s'
          else shell_words_from SingleQuoted true (c :: cur) s'
      | DoubleQuoted =>
          if c =? DQUOTE then shell_words_from Unquoted true cur s'
          else if bool_decide (c ∈ [36; 96; 92]) then None
          else shell_words_from DoubleQuoted true (c :: cur) s'
      end
  end.
Definition shell_words (s : str) : option (list str) := shell_words_from Unquoted false [] s.

Lemma find_split_char_split_on c s :
  match find_split [c] s with
  | Some (a, b) => split_on c s = a :: split_on c b ∧ (length b < length s)%nat
  | None => split_on c s = [s]
  end.
Proof.
  induction s as [|d s IH]; [done|]. cbn [find_split strip_prefix split_on].
  rewrite (Z.eqb_sym c d). destruct (d =? c); [cbn [length]; split; [done|lia]|].
  destruct (find_split [c] s) as [[a b]|].
  - destruct IH as [-> ?]. cbn [length]. split; [done|lia].
  - by rewrite IH.
Qed.
Lemma pieces_char_split_on c s : pieces [c] s = split_on c s.
Proof.
  unfold pieces. generalize (le_n (length s)). generalize (length s) at 2 3 as fuel.
  intros fuel. revert s. induction fuel as [|fuel IH]; intros s Hl.
  - by destruct s; [|cbn in Hl; lia].
  - cbn [match_pieces]. pose proof (find_split_char_split_on c s) as Hf.
    destruct (find_split [c] s) as [[a b]|]; [|done]. destruct Hf as [-> Hlt].
    f_equal. apply IH. lia.
Qed.

Lemma split_on_no_sep sep s : Forall (λ l, sep ∉ l) (split_on sep s).
Proof.
  induction s as [|c s IH]; cbn [split_on]; [repeat constructor; apply not_elem_of_nil|].
  destruct (Z.eqb_spec c sep) as [->|Hne]; [by constructor; [apply not_elem_of_nil|]|].
  destruct (split_on sep s) as [|l ls]; [by constructor; [set_solver|]|].
  inversion IH; subst. constructor; [set_solver|done].
Qed.

Lemma read_single_quoted piece : ∀ cur rest, SQUOTE ∉ piece ->
  shell_words_from SingleQuoted true cur (piece ++ SQUOTE :: rest)
  = shell_words_from Unquoted true (rev piece ++ cur) rest.
Proof.
  induction piece as [|c piece IH]; intros cur rest Hn; [done|].
  cbn [app shell_words_from]. destruct (Z.eqb_spec c SQUOTE) as [->|]; [set_solver|].
  etransitivity; [apply IH; set_solver|]. cbn [rev]. by rewrite <- app_assoc.
Qed.

Lemma rev_around (x y cur : list Z) c : rev y ++ c :: rev x ++ cur = rev (x ++ [c] ++ y) ++ cur.
Proof. by rewrite !rev_app_distr, <- !app_assoc. Qed.

(** A quoted argument read inside single quotes gives the argument back. *)
Lemma read_escaped_pieces ps : ∀ cur rest, ps ≠ [] -> Forall (λ l : str, SQUOTE ∉ l) ps ->
  shell_words_from SingleQuoted true cur
    (join [SQUOTE; DQUOTE; SQUOTE; DQUOTE; SQUOTE] ps ++ SQUOTE :: rest)
  = shell_words_from Unquoted true (rev (join [SQUOTE] ps) ++ cur) rest.
Proof.
  induction ps as [|p ps IH]; intros cur rest Hne Hall; [done|].
  inversion Hall as [|? ? Hp Hps]; subst. destruct ps as [|p2 ps].
  { cbn [join]. by apply read_single_quoted. }
  rewrite !join_cons by done. rewrite <- !app_assoc.
  change ([SQUOTE; DQUOTE; SQUOTE; DQUOTE; SQUOTE]
    ++ join [SQUOTE; DQUOTE; SQUOTE; DQUOTE; SQUOTE] (p2 :: ps) ++ SQUOTE :: rest)
    with (SQUOTE :: [DQUOTE; SQUOTE; DQUOTE; SQUOTE]
      ++ join [SQUOTE; DQUOTE; SQUOTE; DQUOTE; SQUOTE] (p2 :: ps) ++ SQUOTE :: rest).
  etransitivity; [by apply read_single_quoted|].
  etransitivity; [exact (IH (SQUOTE :: rev p ++ cur) rest ltac:(done) Hps)|].
  f_equal. exact (rev_around p (join [SQUOTE] (p2 :: ps)) cur SQUOTE).
Qed.

Lemma read_safe s : ∀ started cur rest, forallb shell_safe_char s = true -> s ≠ [] ->
  shell_words_from Unquoted started cur (s ++ rest)
  = shell_words_from Unquoted true (rev s ++ cur) rest.
Proof.
  induction s as [|c s IH]; intros started cur rest Hs Hne; [done|].
  cbn [forallb] in Hs. apply andb_true_iff in Hs as [Hc Hs]. cbn [app shell_words_from].
  assert (c ≠ 32 ∧ c ≠ SQUOTE ∧ c ≠ DQUOTE) as (H1 & H2 & H3) by (split_and!; intros ->; by vm_compute in Hc).
  rewrite (proj2 (Z.eqb_neq c 32)), (proj2 (Z.eqb_neq c SQUOTE)), (proj2 (Z.eqb_neq c DQUOTE)), Hc by done.
  destruct s as [|c2 s]; [done|].
  etransitivity; [by apply IH|]. cbn [rev]. by rewrite <- !app_assoc.
Qed.

Lemma read_quoted arg rest :
  shell_words_from Unquoted false [] (shell_quote arg ++ rest)
  = shell_words_from Unquoted true (rev arg) rest.
Proof.
  unfold shell_quote. destruct (negb (is_nil arg) && forallb shell_safe_char arg) eqn:Hs.
  - bool_prop. rewrite read_safe; [by rewrite app_nil_r|done|]. intros ->. done.
  - unfold replace_all_in. rewrite pieces_char_split_on.
    rewrite <- !app_assoc. cbn [app].
    change (shell_words_from Unquoted false []
      (SQUOTE :: join [SQUOTE; DQUOTE; SQUOTE; DQUOTE; SQUOTE] (split_on SQUOTE arg) ++ SQUOTE :: rest))
      with (shell_words_from SingleQuoted true []
        (join [SQUOTE; DQUOTE; SQUOTE; DQUOTE; SQUOTE] (split_on SQUOTE arg) ++ SQUOTE :: rest)).
    rewrite read_escaped_pieces by (apply split_on_nonempty || apply split_on_no_sep).
    by rewrite join_split_on, app_nil_r.
Qed.

