(* ===== verification/ToolSurface.v ===== *)
(** * Tool surface policy

    What a behavior's tools may do: the meet of the behavior's selection, the
    operator's ceiling and the runtime's availability
    ([src/crates/gents/src/tool_surface/policy.rs]), the modes of file and shell
    tools ([tool_surface/modes.rs]) and the executable command policy cut down to
    that meet ([tool_surface/build.rs], [tool_surface/selection.rs]).

    Parameters: [cfg!(target_os = "macos")], and the resolved Ethereum calls, of
    which a surface reads the tool name only. *)

From stdpp Require Import sorting.
From S2P Require Import Prelude RustStr Messages ToolCall OutputObligation Denial CommandPolicy.
Open Scope Z_scope.

(** ** Meets *)

(** The laws a meet of policies keeps to; [x] is [below] [y] when meeting with [y]
    takes nothing more from it. *)
Class MeetLaws (A : Type) `{Meet A} : Prop := {
  meet_comm :: Comm (=@{A}) (⊓);
  meet_assoc :: Assoc (=@{A}) (⊓);
  meet_idemp :: IdemP (=@{A}) (⊓) }.
Definition below {A} `{Meet A} (x y : A) : Prop := x ⊓ y = x.

Section meets.
Context `{MeetLaws A}.
Implicit Types x y z : A.

Lemma meet_below_l x y : below (x ⊓ y) x.
Proof. unfold below. by rewrite (comm (⊓)), (base.assoc (⊓)), (idemp (⊓)). Qed.
Lemma meet_below_r x y : below (x ⊓ y) y.
Proof. unfold below. by rewrite <- (base.assoc (⊓)), (idemp (⊓)). Qed.
Lemma below_trans x y z : below x y -> below y z -> below x z.
Proof. unfold below. intros Hxy Hyz. rewrite <- Hxy at 1. by rewrite <- (base.assoc (⊓)), Hyz. Qed.
Lemma below_meet x y z : below z x -> below z y -> below z (x ⊓ y).
Proof. unfold below. intros Hx Hy. by rewrite (base.assoc (⊓)), Hx, Hy. Qed.
End meets.

(** ** Modes *)

Inductive FileToolMode : Type := FT_Off | FT_ReadOnly | FT_ReadWrite.
Inductive BashMode : Type := BM_Off | BM_ReadOnly | BM_Unrestricted.
#[global] Instance FileToolMode_eq_dec : EqDecision FileToolMode.
Proof. solve_decision. Defined.
#[global] Instance BashMode_eq_dec : EqDecision BashMode.
Proof. solve_decision. Defined.

Definition file_mode_parse (value : str) : option FileToolMode :=
  let value := trim value in
  if is_nil value || is_one_of value ["Off"]%string then Some FT_Off
  else if is_one_of value ["ReadOnly"]%string then Some FT_ReadOnly
  else if is_one_of value ["ReadWrite"]%string then Some FT_ReadWrite
  else None.
Definition bash_mode_parse (value : str) : option BashMode :=
  let value := trim value in
  if is_nil value || is_one_of value ["Off"]%string then Some BM_Off
  else if is_one_of value ["ReadOnly"]%string then Some BM_ReadOnly
  else if is_one_of value ["Unrestricted"]%string then Some BM_Unrestricted
  else None.
Definition file_mode_rank (m : FileToolMode) : Z :=
  match m with FT_Off => 0 | FT_ReadOnly => 1 | FT_ReadWrite => 2 end.
Definition bash_mode_rank (m : BashMode) : Z :=
  match m with BM_Off => 0 | BM_ReadOnly => 1 | BM_Unrestricted => 2 end.
Definition meet_file_mode (left right : FileToolMode) : FileToolMode :=
  if file_mode_rank left <=? file_mode_rank right then left else right.
Definition meet_bash_mode (left right : BashMode) : BashMode :=
  if bash_mode_rank left <=? bash_mode_rank right then left else right.
Definition meet_execution_mode (left right : CommandExecutionMode) : CommandExecutionMode :=
  execution_mode_meet left right.
Definition meet_network_mode (left right : CommandNetworkMode) : CommandNetworkMode :=
  if network_mode_rank left <=? network_mode_rank right then left else right.
Definition downgrade_file_tools (requested ceiling : FileToolMode) : FileToolMode :=
  if file_mode_rank requested <=? file_mode_rank ceiling then requested else ceiling.
Definition downgrade_bash (requested ceiling : BashMode) : BashMode :=
  if bash_mode_rank requested <=? bash_mode_rank ceiling then requested else ceiling.

#[global] Instance file_mode_Meet : Meet FileToolMode := meet_file_mode.
#[global] Instance bash_mode_Meet : Meet BashMode := meet_bash_mode.
#[global] Instance execution_mode_Meet : Meet CommandExecutionMode := meet_execution_mode.
#[global] Instance network_mode_Meet : Meet CommandNetworkMode := meet_network_mode.
#[global] Instance bool_Meet : Meet bool := andb.
#[global] Instance unit_Meet : Meet unit := λ _ _, tt.
#[global] Instance gset_Meet `{Countable K} : Meet (gset K) := λ left right, left ∩ right.

(** ** Endpoint scopes *)

Inductive EndpointScope (K V : Type) `{Countable K} : Type :=
| ScopeNone
| ScopeOnly (entries : gmap K V)
| ScopeAll.
Arguments ScopeNone {K V _ _}.
Arguments ScopeOnly {K V _ _} entries.
Arguments ScopeAll {K V _ _}.

(** The order of the keys of a [BTreeMap]. *)
Class KeyOrd (K : Type) := key_leb : K → K → bool.
Definition key_le `{KeyOrd K} (a b : K) : Prop := key_leb a b = true.
#[global] Instance key_le_dec `{KeyOrd K} : RelDecision (@key_le K _).
Proof. intros a b. unfold key_le. apply _. Defined.
Fixpoint lex_leb {A} `{EqDecision A} (leb : A → A → bool) (xs ys : list A) : bool :=
  match xs, ys with
  | [], _ => true
  | _, [] => false
  | x :: xs, y :: ys => if bool_decide (x = y) then lex_leb leb xs ys else leb x y
  end.
#[global] Instance str_KeyOrd : KeyOrd str := lex_leb Z.leb.
#[global] Instance strs_KeyOrd : KeyOrd (list str) := lex_leb str_KeyOrd.

Section scope.
Context {K V : Type} `{Countable K}.
Implicit Types s : EndpointScope K V.

Definition only_units (keys : list K) : EndpointScope K unit :=
  ScopeOnly (list_to_map ((λ key, (key, tt)) <$> keys)).
Definition is_deny_all s : bool :=
  match s with
  | ScopeNone => true
  | ScopeOnly entries => bool_decide (entries = ∅)
  | ScopeAll => false
  end.
Definition scope_kind s : str :=
  match s with ScopeNone => lit "none" | ScopeOnly _ => lit "only" | ScopeAll => lit "all" end.
Definition scope_keys `{KeyOrd K} s : list K :=
  match s with
  | ScopeOnly entries => merge_sort key_le (map_to_list entries).*1
  | ScopeNone | ScopeAll => []
  end.
Definition permits s (key : K) : bool :=
  match s with
  | ScopeNone => false
  | ScopeOnly entries => bool_decide (is_Some (entries !! key))
  | ScopeAll => true
  end.
Definition scope_lookup s (key : K) : option V :=
  match s with ScopeOnly entries => entries !! key | ScopeNone | ScopeAll => None end.
Definition meet_with (self other : EndpointScope K V) (meet_value : V → V → V) : EndpointScope K V :=
  match self, other with
  | ScopeNone, _ | _, ScopeNone => ScopeNone
  | ScopeAll, other => other
  | self, ScopeAll => self
  | ScopeOnly mine, ScopeOnly theirs => ScopeOnly (map_zip_with meet_value mine theirs)
  end.
End scope.
#[global] Instance scope_Meet `{Countable K} `{Meet V} : Meet (EndpointScope K V) :=
  λ self other, meet_with self other (⊓).

(** ** Surfaces *)

Record ToolPolicyBash : Type := mkBash {
  pb_tool : BashMode;
  pb_execution_mode : CommandExecutionMode;
  pb_network_mode : CommandNetworkMode;
  pb_sandbox : bool;
  pb_allowed_argv_prefixes : EndpointScope (list str) unit;
  pb_forbidden_argv_prefixes : gset (list str);
  pb_read_only_allowlist : EndpointScope str unit;
  pb_deny_git_metadata_writes : bool }.
Definition bash_off : ToolPolicyBash :=
  mkBash BM_Off ReadOnly Inherit true ScopeAll ∅ ScopeAll false.
Definition bash_unrestricted : ToolPolicyBash :=
  mkBash BM_Unrestricted Unrestricted Enabled true ScopeAll ∅ ScopeAll false.
Definition bash_meet (self other : ToolPolicyBash) : ToolPolicyBash :=
  mkBash (meet_bash_mode (pb_tool self) (pb_tool other))
    (meet_execution_mode (pb_execution_mode self) (pb_execution_mode other))
    (meet_network_mode (pb_network_mode self) (pb_network_mode other))
    (pb_sandbox self && pb_sandbox other)
    (meet_with (pb_allowed_argv_prefixes self) (pb_allowed_argv_prefixes other) (λ _ _, tt))
    (pb_forbidden_argv_prefixes self ∪ pb_forbidden_argv_prefixes other)
    (meet_with (pb_read_only_allowlist self) (pb_read_only_allowlist other) (λ _ _, tt))
    (pb_deny_git_metadata_writes self || pb_deny_git_metadata_writes other).
#[global] Instance bash_Meet : Meet ToolPolicyBash := bash_meet.

Record ToolPolicySurface : Type := mkSurface {
  ps_file : FileToolMode;
  ps_bash : ToolPolicyBash;
  ps_meta : bool;
  ps_goal_tools : bool;
  ps_goal_create : bool;
  ps_defra_query : bool;
  ps_self_config : bool;
  ps_memory : bool;
  ps_session_history : bool;
  ps_context_budget : bool;
  ps_spawn : bool;
  ps_steering : bool;
  ps_background : bool;
  ps_cross_deployment : bool;
  ps_skills : bool;
  ps_lsp : bool;
  ps_cli_tools : EndpointScope str (gset str);
  ps_mcp_services : EndpointScope str unit;
  ps_defra_collections : EndpointScope str unit;
  ps_self_config_categories : EndpointScope str unit;
  ps_subagent_targets : EndpointScope (str * str) unit;
  ps_background_tools : EndpointScope str unit;
  ps_write_tools : EndpointScope (str * str) (gset str);
  ps_query_tools : EndpointScope (str * str) (gset str);
  ps_eth_query_methods : EndpointScope str unit;
  ps_eth_call_tools : EndpointScope str unit }.

Definition secure_minimal : ToolPolicySurface :=
  mkSurface FT_Off bash_off false false false false false false false false false false false false
    false false ScopeNone ScopeNone ScopeNone ScopeNone ScopeNone ScopeNone ScopeNone ScopeNone
    ScopeNone ScopeNone.
Definition runtime_all : ToolPolicySurface :=
  mkSurface FT_ReadWrite bash_unrestricted true true true true true true true true true true true true
    true true ScopeAll ScopeAll ScopeAll ScopeAll ScopeAll ScopeAll ScopeAll ScopeAll ScopeAll ScopeAll.

Definition mode_of_bash (bash : BashMode) : CommandExecutionMode :=
  match bash with BM_Off | BM_ReadOnly => ReadOnly | BM_Unrestricted => Unrestricted end.
Definition ceiling_with_host_modes (file : FileToolMode) (bash : BashMode) : ToolPolicySurface :=
  mkSurface file
    (mkBash bash (mode_of_bash bash) Enabled true ScopeAll ∅ ScopeAll false)
    true true true true true true true true true true true true true true
    (ScopeOnly ∅) ScopeAll ScopeAll ScopeAll ScopeAll ScopeAll ScopeAll ScopeAll ScopeAll ScopeAll.

Definition unit_meet {K} `{Countable K} (a b : EndpointScope K unit) : EndpointScope K unit :=
  meet_with a b (λ _ _, tt).
Definition fields_meet {K} `{Countable K} (a b : EndpointScope K (gset str)) : EndpointScope K (gset str) :=
  meet_with a b (λ left right, left ∩ right).
Definition surface_meet (self other : ToolPolicySurface) : ToolPolicySurface :=
  mkSurface (meet_file_mode (ps_file self) (ps_file other)) (bash_meet (ps_bash self) (ps_bash other))
    (ps_meta self && ps_meta other) (ps_goal_tools self && ps_goal_tools other)
    (ps_goal_create self && ps_goal_create other) (ps_defra_query self && ps_defra_query other)
    (ps_self_config self && ps_self_config other) (ps_memory self && ps_memory other)
    (ps_session_history self && ps_session_history other)
    (ps_context_budget self && ps_context_budget other) (ps_spawn self && ps_spawn other)
    (ps_steering self && ps_steering other) (ps_background self && ps_background other)
    (ps_cross_deployment self && ps_cross_deployment other) (ps_skills self && ps_skills other)
    (ps_lsp self && ps_lsp other)
    (fields_meet (ps_cli_tools self) (ps_cli_tools other))
    (unit_meet (ps_mcp_services self) (ps_mcp_services other))
    (unit_meet (ps_defra_collections self) (ps_defra_collections other))
    (unit_meet (ps_self_config_categories self) (ps_self_config_categories other))
    (unit_meet (ps_subagent_targets self) (ps_subagent_targets other))
    (unit_meet (ps_background_tools self) (ps_background_tools other))
    (fields_meet (ps_write_tools self) (ps_write_tools other))
    (fields_meet (ps_query_tools self) (ps_query_tools other))
    (unit_meet (ps_eth_query_methods self) (ps_eth_query_methods other))
    (unit_meet (ps_eth_call_tools self) (ps_eth_call_tools other)).
#[global] Instance surface_Meet : Meet ToolPolicySurface := surface_meet.
Definition effective (behavior ceiling runtime : ToolPolicySurface) : ToolPolicySurface :=
  surface_meet (surface_meet behavior ceiling) runtime.

Definition include_meta_tools (p : ToolPolicySurface) : bool :=
  ps_meta p && negb (is_deny_all (ps_mcp_services p)).
Definition include_goal_tools (p : ToolPolicySurface) : bool := ps_goal_tools p.
Definition include_goal_creation (p : ToolPolicySurface) : bool := ps_goal_tools p && ps_goal_create p.
Definition include_defra_query (p : ToolPolicySurface) : bool :=
  ps_defra_query p && negb (is_deny_all (ps_defra_collections p)).
Definition include_self_config (p : ToolPolicySurface) : bool :=
  ps_self_config p && negb (is_deny_all (ps_self_config_categories p)).

Inductive CollectionScope : Type := CS_None | CS_Only (allowed : gset str) | CS_All.
Definition collection_allowed (s : CollectionScope) (collection : str) : bool :=
  match s with
  | CS_All => true
  | CS_Only allowed => bool_decide (collection ∈ allowed)
  | CS_None => false
  end.
Definition defra_query_collection_scope (p : ToolPolicySurface) : CollectionScope :=
  match ps_defra_collections p with
  | ScopeAll => CS_All
  | ScopeNone => CS_None
  | ScopeOnly keys => if bool_decide (keys = ∅) then CS_None
                      else CS_Only (list_to_set (scope_keys (ps_defra_collections p)))
  end.
Definition mcp_service_ids_for_runtime (p : ToolPolicySurface) : list str :=
  scope_keys (ps_mcp_services p).
Definition defra_query_collections_for_runtime (p : ToolPolicySurface) : list str :=
  scope_keys (ps_defra_collections p).
Definition SELF_CONFIG_CATEGORIES : list str :=
  lit <$> ["automation"; "backend"; "behavior"; "mcp_service"; "persona"; "profile"; "tools"]%string.
Definition DEFAULT_SELF_CONFIG_CATEGORIES : list str := lit <$> ["behavior"; "profile"; "tools"]%string.
Definition self_config_category_set (p : ToolPolicySurface) : gset str :=
  match ps_self_config_categories p with
  | ScopeAll => list_to_set SELF_CONFIG_CATEGORIES
  | ScopeNone => ∅
  | ScopeOnly _ => list_to_set (scope_keys (ps_self_config_categories p))
  end.
Definition filter_unit_scope {K} `{Countable K} (names : list K) (scope : EndpointScope K unit) : list K :=
  match scope with
  | ScopeNone => []
  | ScopeAll => names
  | ScopeOnly keys => List.filter (λ name, bool_decide (is_Some (keys !! name))) names
  end.
Definition filter_background_tools (p : ToolPolicySurface) (names : list str) : list str :=
  filter_unit_scope names (ps_background_tools p).
Definition filter_cli_names (p : ToolPolicySurface) (names : list str) : list str :=
  match ps_cli_tools p with
  | ScopeNone => []
  | ScopeAll => names
  | ScopeOnly tools => List.filter (λ name, bool_decide (is_Some (tools !! trim name))) names
  end.

(** ** Declared tools *)

Inductive WriteToolFieldFill : Type := Fill_Correlation | Fill_SourceField (field : str).
Record WriteToolField : Type := mkField {
  wf_name : str; wf_required : bool; wf_fill : option WriteToolFieldFill }.
Record WriteToolDecl : Type := mkWriteDecl {
  wd_tool_name : str;
  wd_collection : str;
  wd_description : str;
  wd_fields : list WriteToolField;
  wd_output_obligation : option WriteToolOutputObligation }.
Record QueryToolDecl : Type := mkQueryDecl {
  qd_tool_name : str;
  qd_collection : str;
  qd_description : str;
  qd_fields : list str;
  qd_filter_fields : list WriteToolField }.
Definition query_decl_is_well_formed (d : QueryToolDecl) : bool :=
  negb (is_nil (trim (qd_tool_name d))) && negb (is_nil (trim (qd_collection d)))
  && negb (is_nil (qd_fields d)).
Definition with_query_fields (fields : list str) (filter_fields : list WriteToolField) (d : QueryToolDecl)
    : QueryToolDecl :=
  mkQueryDecl (qd_tool_name d) (qd_collection d) (qd_description d) fields filter_fields.
Definition with_write_fields (fields : list WriteToolField) (d : WriteToolDecl) : WriteToolDecl :=
  mkWriteDecl (wd_tool_name d) (wd_collection d) (wd_description d) fields (wd_output_obligation d).

Definition granted (fields : gset str) (name : str) : bool := bool_decide (trim name ∈ fields).
Definition narrow_write_decl (p : ToolPolicySurface) (decl : WriteToolDecl) : option WriteToolDecl :=
  let key := (trim (wd_tool_name decl), trim (wd_collection decl)) in
  match ps_write_tools p with
  | ScopeNone => None
  | ScopeAll => Some decl
  | ScopeOnly grants =>
      fields ← grants !! key;
      Some (with_write_fields (List.filter (λ f, granted fields (wf_name f)) (wd_fields decl)) decl)
  end.
Definition write_decls_for_runtime (p : ToolPolicySurface) (decls : list WriteToolDecl)
    : list WriteToolDecl := omap (narrow_write_decl p) decls.
Definition narrow_query_decl (p : ToolPolicySurface) (decl : QueryToolDecl) : option QueryToolDecl :=
  let key := (trim (qd_tool_name decl), trim (qd_collection decl)) in
  match ps_query_tools p with
  | ScopeNone => None
  | ScopeAll => Some decl
  | ScopeOnly grants =>
      fields ← grants !! key;
      if existsb (λ f, bool_decide (is_Some (wf_fill f)) && negb (granted fields (wf_name f)))
           (qd_filter_fields decl)
      then None
      else Some (with_query_fields (List.filter (granted fields) (qd_fields decl))
                   (List.filter (λ f, granted fields (wf_name f)) (qd_filter_fields decl)) decl)
  end.
Definition query_decls_for_runtime (p : ToolPolicySurface) (decls : list QueryToolDecl)
    : list QueryToolDecl :=
  List.filter query_decl_is_well_formed (omap (narrow_query_decl p) decls).

Definition nonempty_set (names : list str) : gset str :=
  list_to_set (List.filter (λ f, negb (is_nil f)) names).
Definition write_grant (decl : WriteToolDecl) : (str * str) * gset str :=
  ((trim (wd_tool_name decl), trim (wd_collection decl)),
   nonempty_set (trim ∘ wf_name <$> wd_fields decl)).
Definition query_grant (decl : QueryToolDecl) : (str * str) * gset str :=
  ((trim (qd_tool_name decl), trim (qd_collection decl)),
   nonempty_set (trim <$> qd_fields decl) ∪ nonempty_set (trim ∘ wf_name <$> qd_filter_fields decl)).
(** Declarations are inserted in order: a later one of the same key wins. *)
Definition insert_grants (grants : list ((str * str) * gset str)) : EndpointScope (str * str) (gset str) :=
  ScopeOnly (foldl (λ m g, <[g.1 := g.2]> m) ∅ grants).
Definition write_scope_from_decls (decls : list WriteToolDecl) := insert_grants (write_grant <$> decls).
Definition query_scope_from_decls (decls : list QueryToolDecl) := insert_grants (query_grant <$> decls).

Record ResolvedEthQuery : Type := mkEthQuery {
  eq_tool_id : str; eq_chain_id : Z; eq_rpc_url : str; eq_methods : list str }.
Definition eth_query_scope_from_resolved (queries : list ResolvedEthQuery) : EndpointScope str unit :=
  let methods := mjoin (eq_methods <$> queries) in
  if is_nil methods then ScopeNone else only_units methods.

Record SubagentTarget : Type := mkTarget {
  sa_name : str; sa_agent_did : str; sa_behavior_id : str; sa_description : option str }.
Definition is_structurally_valid (t : SubagentTarget) : bool :=
  negb (is_nil (trim (sa_name t))) && negb (is_nil (trim (sa_agent_did t)))
  && negb (is_nil (trim (sa_behavior_id t))).
Definition subagent_target_key (t : SubagentTarget) : str * str :=
  (trim (sa_agent_did t), trim (sa_behavior_id t)).
Record SubagentToolConfig : Type := mkSubagentConfig {
  sc_targets : list SubagentTarget;
  sc_spawn_enabled : bool;
  sc_steering_enabled : bool;
  sc_background_enabled : bool;
  sc_default_await_mode : AwaitMode;
  sc_allow_cross_deployment : bool }.
Definition subagent_tools_enabled (c : SubagentToolConfig) : bool :=
  sc_spawn_enabled c && negb (is_nil (sc_targets c)).
Definition background_inspection_tools_enabled (c : SubagentToolConfig) : bool :=
  subagent_tools_enabled c && sc_background_enabled c.
Definition steer_subagent_enabled (c : SubagentToolConfig) : bool :=
  background_inspection_tools_enabled c && sc_steering_enabled c.

Definition AGENT_CONFIG_QUERY_COLLECTIONS : list str :=
  lit <$> ["AgentPrincipal"; "AgentBehavior"; "ToolSelection"; "Skill"; "DatastoreToolSurface";
    "InferenceBackend"; "InferenceProfile"; "ToolServiceRegistry"; "ToolServiceHealthState"; "Task";
    "Schedule"; "EventTrigger"; "AgentRuntime"; "AgentNetwork"; "PeerEndpoint"; "PeerRegistry";
    "PeerPairingDesired"; "PeerPairingApplied"; "DataPlanePairingDesired"]%string.
Fixpoint expand_collection_scope_aliases (collections : list str) : list str :=
  match collections with
  | [] => []
  | entry :: collections =>
      let entry := trim entry in
      (if str_eqb entry (lit "agent-config") then AGENT_CONFIG_QUERY_COLLECTIONS
       else if is_nil entry then [] else [entry])
      ++ expand_collection_scope_aliases collections
  end.

(** ** The behavior's selection *)

Section selection.
(** [ResolvedEthCall] and its tool name. *)
Context {EthCall : Type} (eth_call_tool_name : EthCall → str).
(** [cfg!(target_os = "macos")]. *)
Context (macos : bool).

Record ToolSelection : Type := mkSelection {
  ts_file_tools : FileToolMode;
  ts_file_tool_root : option str;
  ts_bash : BashMode;
  ts_command_policy : option CommandExecutionPolicy;
  ts_cli_tool_names : list str;
  ts_enable_meta_tools : bool;
  ts_enable_goal_tools : bool;
  ts_enable_goal_creation : bool;
  ts_allowed_mcp_service_ids : list str;
  ts_required_mcp_service_ids : list str;
  ts_backgroundable_tool_names : list str;
  ts_approval_required_tools : list str;
  ts_enable_memory : bool;
  ts_enable_session_history_tool : bool;
  ts_enable_context_budget : bool;
  ts_enable_defra_query : bool;
  ts_defra_query_collections : list str;
  ts_write_tools : list WriteToolDecl;
  ts_query_tools : list QueryToolDecl;
  ts_enable_self_config : bool;
  ts_self_config_categories : option (list str);
  ts_self_config_no_lockout : bool;
  ts_self_config_dry_run : bool;
  ts_enable_lsp : bool;
  ts_lsp_config : option str;
  ts_eth_queries : list ResolvedEthQuery;
  ts_eth_calls : list EthCall }.

Definition eth_call_scope_from_resolved (calls : list EthCall) : EndpointScope str unit :=
  if is_nil calls then ScopeNone else only_units (eth_call_tool_name <$> calls).

Definition selection_bash_policy (selection : ToolSelection) : ToolPolicyBash :=
  let command_policy := ts_command_policy selection in
  let allowed := from_option cp_allowed_argv_prefixes [] command_policy in
  let forbidden := from_option cp_forbidden_argv_prefixes [] command_policy in
  let read_only := from_option cp_read_only_allowlist [] command_policy in
  mkBash (ts_bash selection)
    (from_option cp_mode (mode_of_bash (ts_bash selection)) command_policy)
    (from_option cp_network_mode Inherit command_policy)
    true
    (if is_nil allowed then ScopeAll else only_units allowed)
    (list_to_set forbidden)
    (if is_nil read_only then ScopeAll else only_units (trim <$> read_only))
    (from_option cp_deny_git_metadata_writes false command_policy).

Definition policy_from_selection (selection : ToolSelection) (subagent_tools : SubagentToolConfig)
    : ToolPolicySurface :=
  mkSurface (ts_file_tools selection) (selection_bash_policy selection)
    (ts_enable_meta_tools selection) (ts_enable_goal_tools selection)
    (ts_enable_goal_creation selection) (ts_enable_defra_query selection)
    (ts_enable_self_config selection) (ts_enable_memory selection)
    (ts_enable_session_history_tool selection) (ts_enable_context_budget selection)
    (sc_spawn_enabled subagent_tools) (sc_steering_enabled subagent_tools)
    (sc_background_enabled subagent_tools) (sc_allow_cross_deployment subagent_tools)
    true
    (ts_enable_lsp selection && negb (bool_decide (ts_file_tools selection = FT_Off)))
    (ScopeOnly (list_to_map ((λ name, (trim name, ∅)) <$> ts_cli_tool_names selection)))
    (if negb (ts_enable_meta_tools selection) then ScopeNone
     else if is_nil (ts_allowed_mcp_service_ids selection) then ScopeNone
     else only_units (trim <$> ts_allowed_mcp_service_ids selection))
    (if negb (ts_enable_defra_query selection) then ScopeNone
     else if is_nil (ts_defra_query_collections selection) then ScopeAll
     else only_units (expand_collection_scope_aliases (ts_defra_query_collections selection)))
    (if negb (ts_enable_self_config selection) then ScopeNone
     else match ts_self_config_categories selection with
          | None => only_units DEFAULT_SELF_CONFIG_CATEGORIES
          | Some categories => only_units (trim <$> categories)
          end)
    (only_units (subagent_target_key <$> sc_targets subagent_tools))
    (only_units (trim <$> ts_backgroundable_tool_names selection))
    (write_scope_from_decls (ts_write_tools selection))
    (query_scope_from_decls (ts_query_tools selection))
    (eth_query_scope_from_resolved (ts_eth_queries selection))
    (eth_call_scope_from_resolved (ts_eth_calls selection)).

(** ** The command policy of the shell tool *)

Definition project_allowed_prefixes (scope : EndpointScope (list str) unit)
    : option (list (list str)) * bool :=
  match scope with
  | ScopeAll => (None, false)
  | ScopeNone => (None, true)
  | ScopeOnly keys => if bool_decide (keys = ∅) then (None, true) else (Some (scope_keys scope), false)
  end.
Definition project_read_only_allowlist (scope : EndpointScope str unit) : option (list str) :=
  match scope with
  | ScopeAll => None
  | ScopeNone => Some []
  | ScopeOnly keys => if bool_decide (keys = ∅) then Some [] else Some (scope_keys scope)
  end.
Definition apply_effective_bash (policy : CommandExecutionPolicy) (effective_bash : ToolPolicyBash)
    (allowed_override : option (list (list str))) (deny_all : bool) (forbidden : list (list str))
    (read_only_override : option (list str)) : CommandExecutionPolicy :=
  let policy :=
    if deny_all then with_deny_all_argv true (with_allowed_argv_prefixes [] policy)
    else match allowed_override with
         | Some allowed => with_allowed_argv_prefixes allowed policy
         | None => policy
         end in
  let policy := if is_nil forbidden then policy else with_forbidden_argv_prefixes forbidden policy in
  let policy := match read_only_override with
                | Some read_only => with_read_only_allowlist read_only policy
                | None => policy
                end in
  let policy := with_mode (meet_execution_mode (cp_mode policy) (pb_execution_mode effective_bash)) policy in
  let policy :=
    with_network_mode (meet_network_mode (cp_network_mode policy) (pb_network_mode effective_bash)) policy in
  if pb_deny_git_metadata_writes effective_bash then with_git_worktree_diff policy else policy.

Definition is_only {K V} `{Countable K} (s : EndpointScope K V) : bool :=
  match s with ScopeOnly _ => true | _ => false end.
(** The iteration order of a [BTreeSet]. *)
Definition sorted_prefixes (s : gset (list str)) : list (list str) :=
  merge_sort key_le (elements s).
Definition base_command_policy (command_policy : option CommandExecutionPolicy) (bash : BashMode)
    : option CommandExecutionPolicy :=
  match command_policy, bash with
  | None, _ => None
  | Some policy, BM_ReadOnly =>
      if is_mode ReadOnly policy then Some policy
      else Some (with_network_mode (cp_network_mode policy)
                   (with_forbidden_argv_prefixes (cp_forbidden_argv_prefixes policy)
                      (with_allowed_argv_prefixes (cp_allowed_argv_prefixes policy)
                         default_read_only_command_policy)))
  | Some policy, _ => Some policy
  end.
Definition constrain_command_policy_to_effective_bash (command_policy : option CommandExecutionPolicy)
    (effective_bash : ToolPolicyBash) (bash : BashMode) : option CommandExecutionPolicy :=
  match bash with
  | BM_Off => None
  | _ =>
      let base := base_command_policy command_policy bash in
      let '(allowed_override, deny_all) :=
        project_allowed_prefixes (pb_allowed_argv_prefixes effective_bash) in
      let forbidden := sorted_prefixes (pb_forbidden_argv_prefixes effective_bash) in
      let read_only_override := project_read_only_allowlist (pb_read_only_allowlist effective_bash) in
      let imposes_constraint :=
        deny_all || is_only (pb_allowed_argv_prefixes effective_bash) || negb (is_nil forbidden)
        || bool_decide (is_Some read_only_override) in
      let base :=
        match base with
        | Some policy => Some policy
        | None =>
            if imposes_constraint
            then Some (match bash with
                       | BM_ReadOnly => default_read_only_command_policy
                       | _ => write_capable macos
                       end)
            else None
        end in
      (λ policy, apply_effective_bash policy effective_bash allowed_override deny_all forbidden
                   read_only_override) <$> base
  end.
(** The policy the shell tool of the behavior is built with, if it is built: one
    without a policy of its own gets the tool's default. *)
Definition shell_tool_policy (command_policy : option CommandExecutionPolicy)
    (effective_bash : ToolPolicyBash) (bash : BashMode) : option CommandExecutionPolicy :=
  let policy := constrain_command_policy_to_effective_bash command_policy effective_bash bash in
  match bash with
  | BM_Off => None
  | BM_ReadOnly => Some (default default_read_only_command_policy policy)
  | BM_Unrestricted => Some (default (write_capable macos) policy)
  end.
(** From a selection and a ceiling to that policy. *)
Definition behavior_shell_policy (selection : ToolSelection) (subagent_tools : SubagentToolConfig)
    (ceiling : ToolPolicySurface) : option CommandExecutionPolicy :=
  let static_policy := effective (policy_from_selection selection subagent_tools) ceiling runtime_all in
  let bash := downgrade_bash (ts_bash selection) (pb_tool (ps_bash static_policy)) in
  shell_tool_policy (ts_command_policy selection) (ps_bash static_policy) bash.
End selection.
Arguments ToolSelection : clear implicits.

(** ** The meet laws hold *)

#[global] Instance file_mode_laws : MeetLaws FileToolMode.
Proof. split; by repeat intros []. Qed.
#[global] Instance bash_mode_laws : MeetLaws BashMode.
Proof. split; by repeat intros []. Qed.
#[global] Instance execution_mode_laws : MeetLaws CommandExecutionMode.
Proof. split; by repeat intros []. Qed.
#[global] Instance network_mode_laws : MeetLaws CommandNetworkMode.
Proof. split; by repeat intros []. Qed.
#[global] Instance bool_laws : MeetLaws bool.
Proof. split; by repeat intros []. Qed.
#[global] Instance unit_laws : MeetLaws unit.
Proof. split; by repeat intros []. Qed.
#[global] Instance gset_laws `{Countable K} : MeetLaws (gset K).
Proof. split; unfold meet, gset_Meet; repeat intros ?; set_solver. Qed.

Lemma map_zip_with_lookup {V} `{Countable K} (f : V → V → V) (a b : gmap K V) k :
  map_zip_with f a b !! k = (x ← a !! k; y ← b !! k; Some (f x y)).
Proof. rewrite map_lookup_zip_with. by destruct (a !! k), (b !! k). Qed.

#[global] Instance scope_laws `{Countable K} `{MeetLaws V} : MeetLaws (EndpointScope K V).
Proof.
  split.
  - intros [|a|] [|b|]; try done. unfold meet, scope_Meet. cbn. f_equal. apply map_eq; intros k.
    rewrite !map_zip_with_lookup. destruct (a !! k), (b !! k); try done. cbn. by rewrite (comm (⊓)).
  - intros [|a|] [|b|] [|c|]; try done. unfold meet, scope_Meet. cbn. f_equal. apply map_eq; intros k.
    rewrite !map_zip_with_lookup. destruct (a !! k), (b !! k), (c !! k); try done.
    cbn. by rewrite (base.assoc (⊓)).
  - intros [|a|]; try done. unfold meet, scope_Meet. cbn. f_equal. apply map_eq; intros k.
    rewrite !map_zip_with_lookup. destruct (a !! k); try done. cbn. by rewrite (idemp (⊓)).
Qed.

(** The componentwise meets of the source are the instances' meets. *)
Lemma bash_meet_fields a b : a ⊓ b =
  mkBash (pb_tool a ⊓ pb_tool b) (pb_execution_mode a ⊓ pb_execution_mode b)
    (pb_network_mode a ⊓ pb_network_mode b) (pb_sandbox a ⊓ pb_sandbox b)
    (pb_allowed_argv_prefixes a ⊓ pb_allowed_argv_prefixes b)
    (pb_forbidden_argv_prefixes a ∪ pb_forbidden_argv_prefixes b)
    (pb_read_only_allowlist a ⊓ pb_read_only_allowlist b)
    (pb_deny_git_metadata_writes a || pb_deny_git_metadata_writes b).
Proof. reflexivity. Qed.

#[global] Instance bash_laws : MeetLaws ToolPolicyBash.
Proof.
  split.
  - intros a b. rewrite !bash_meet_fields. f_equal; try apply (comm (⊓)); [set_solver|apply orb_comm].
  - intros a b c. rewrite !bash_meet_fields. cbn.
    f_equal; try apply (base.assoc (⊓)); [set_solver|apply orb_assoc].
  - intros a. rewrite !bash_meet_fields. destruct a. cbn.
    f_equal; try apply (idemp (⊓)); [set_solver|apply orb_diag].
Qed.

Lemma surface_meet_fields a b : a ⊓ b =
  mkSurface (ps_file a ⊓ ps_file b) (ps_bash a ⊓ ps_bash b) (ps_meta a ⊓ ps_meta b)
    (ps_goal_tools a ⊓ ps_goal_tools b) (ps_goal_create a ⊓ ps_goal_create b)
    (ps_defra_query a ⊓ ps_defra_query b) (ps_self_config a ⊓ ps_self_config b)
    (ps_memory a ⊓ ps_memory b) (ps_session_history a ⊓ ps_session_history b)
    (ps_context_budget a ⊓ ps_context_budget b) (ps_spawn a ⊓ ps_spawn b)
    (ps_steering a ⊓ ps_steering b) (ps_background a ⊓ ps_background b)
    (ps_cross_deployment a ⊓ ps_cross_deployment b) (ps_skills a ⊓ ps_skills b)
    (ps_lsp a ⊓ ps_lsp b) (ps_cli_tools a ⊓ ps_cli_tools b) (ps_mcp_services a ⊓ ps_mcp_services b)
    (ps_defra_collections a ⊓ ps_defra_collections b)
    (ps_self_config_categories a ⊓ ps_self_config_categories b)
    (ps_subagent_targets a ⊓ ps_subagent_targets b) (ps_background_tools a ⊓ ps_background_tools b)
    (ps_write_tools a ⊓ ps_write_tools b) (ps_query_tools a ⊓ ps_query_tools b)
    (ps_eth_query_methods a ⊓ ps_eth_query_methods b) (ps_eth_call_tools a ⊓ ps_eth_call_tools b).
Proof. reflexivity. Qed.

#[global] Instance surface_laws : MeetLaws ToolPolicySurface.
Proof.
  split.
  - intros a b. rewrite !surface_meet_fields. f_equal; apply (comm (⊓)).
  - intros a b c. rewrite !surface_meet_fields. cbn [ps_file ps_bash ps_meta ps_goal_tools
      ps_goal_create ps_defra_query ps_self_config ps_memory ps_session_history ps_context_budget
      ps_spawn ps_steering ps_background ps_cross_deployment ps_skills ps_lsp ps_cli_tools
      ps_mcp_services ps_defra_collections ps_self_config_categories ps_subagent_targets
      ps_background_tools ps_write_tools ps_query_tools ps_eth_query_methods ps_eth_call_tools].
    f_equal; apply (base.assoc (⊓)).
  - intros a. rewrite !surface_meet_fields. destruct a. cbn [ps_file ps_bash ps_meta ps_goal_tools
      ps_goal_create ps_defra_query ps_self_config ps_memory ps_session_history ps_context_budget
      ps_spawn ps_steering ps_background ps_cross_deployment ps_skills ps_lsp ps_cli_tools
      ps_mcp_services ps_defra_collections ps_self_config_categories ps_subagent_targets
      ps_background_tools ps_write_tools ps_query_tools ps_eth_query_methods ps_eth_call_tools].
    f_equal; apply (idemp (⊓)).
Qed.

(** ** What a scope permits *)

Section permits.
Context {K V : Type} `{Countable K}.
Implicit Types s t : EndpointScope K V.

Lemma meet_with_permits f s t k : permits (meet_with s t f) k = permits s k && permits t k.
Proof.
  destruct s as [|a|], t as [|b|]; cbn [meet_with permits]; try done;
    rewrite ?andb_false_r, ?andb_true_r; try done.
  rewrite map_zip_with_lookup. destruct (a !! k), (b !! k); done.
Qed.
Lemma meet_with_lookup f s t k v : permits s k = true -> permits t k = true ->
  scope_lookup (meet_with s t f) k = Some v ->
  (∃ x y, scope_lookup s k = Some x ∧ scope_lookup t k = Some y ∧ v = f x y)
  ∨ (s = ScopeAll ∧ scope_lookup t k = Some v) ∨ (t = ScopeAll ∧ scope_lookup s k = Some v).
Proof.
  destruct s as [|a|], t as [|b|]; cbn [meet_with permits scope_lookup]; try done; intros _ _ Hv.
  - rewrite map_zip_with_lookup in Hv. left.
    destruct (a !! k) as [x|], (b !! k) as [y|]; try done. injection Hv as <-. by exists x, y.
  - right; right. done.
  - right; left. done.
Qed.
Lemma scope_keys_elem `{KeyOrd K} (m : gmap K V) k :
  k ∈ scope_keys (ScopeOnly m) <-> permits (ScopeOnly m) k = true.
Proof.
  cbn [scope_keys permits]. rewrite merge_sort_Permutation, list_elem_of_fmap, bool_decide_eq_true.
  split.
  - intros ([k' v] & -> & Hin%elem_of_map_to_list). by exists v.
  - intros [v Hv]. exists (k, v). split; [done|]. by apply elem_of_map_to_list.
Qed.
Lemma only_units_permits (keys : list K) k : permits (only_units keys) k = bool_decide (k ∈ keys).
Proof.
  cbn [permits only_units]. apply bool_decide_ext.
  induction keys as [|k' keys IH].
  { cbn. rewrite lookup_empty, elem_of_nil. split; [by intros []|done]. }
  rewrite fmap_cons, list_to_map_cons, elem_of_cons.
  destruct (decide (k = k')) as [->|Hne].
  - rewrite lookup_insert, decide_True by done. naive_solver.
  - rewrite lookup_insert_ne by done. naive_solver.
Qed.
End permits.

Lemma effective_mcp a b c : ps_mcp_services (effective a b c)
  = meet_with (meet_with (ps_mcp_services a) (ps_mcp_services b) (λ _ _, tt)) (ps_mcp_services c)
      (λ _ _, tt).
Proof. reflexivity. Qed.
Lemma effective_allowed a b c : pb_allowed_argv_prefixes (ps_bash (effective a b c))
  = meet_with (meet_with (pb_allowed_argv_prefixes (ps_bash a)) (pb_allowed_argv_prefixes (ps_bash b))
      (λ _ _, tt)) (pb_allowed_argv_prefixes (ps_bash c)) (λ _ _, tt).
Proof. reflexivity. Qed.
Lemma effective_read_only a b c : pb_read_only_allowlist (ps_bash (effective a b c))
  = meet_with (meet_with (pb_read_only_allowlist (ps_bash a)) (pb_read_only_allowlist (ps_bash b))
      (λ _ _, tt)) (pb_read_only_allowlist (ps_bash c)) (λ _ _, tt).
Proof. reflexivity. Qed.

(** The effective surface is the greatest one below the behavior's selection,
    the operator's ceiling and the runtime's availability: in every mode, switch and
    scope it grants no more than any of the three, everything that each of them
    grants it grants, and the order in which they are met does not matter. *)
Theorem effective_is_the_greatest_common_surface behavior ceiling runtime :
  let e := effective behavior ceiling runtime in
  below e behavior ∧ below e ceiling ∧ below e runtime
  ∧ (∀ z, below z behavior -> below z ceiling -> below z runtime -> below z e)
  ∧ e = effective ceiling runtime behavior
  ∧ (∀ service, permits (ps_mcp_services e) service
       = permits (ps_mcp_services behavior) service && permits (ps_mcp_services ceiling) service
         && permits (ps_mcp_services runtime) service)
  ∧ (∀ prefix, permits (pb_allowed_argv_prefixes (ps_bash e)) prefix
       = permits (pb_allowed_argv_prefixes (ps_bash behavior)) prefix
         && permits (pb_allowed_argv_prefixes (ps_bash ceiling)) prefix
         && permits (pb_allowed_argv_prefixes (ps_bash runtime)) prefix).
Proof.
  cbn zeta. split_and!.
  - eapply (below_trans _ (behavior ⊓ ceiling)); apply meet_below_l.
  - eapply (below_trans _ (behavior ⊓ ceiling)); [apply meet_below_l|apply meet_below_r].
  - apply (meet_below_r (behavior ⊓ ceiling)).
  - intros z H1 H2 H3. apply (below_meet (behavior ⊓ ceiling)); [by apply below_meet|done].
  - change (behavior ⊓ ceiling ⊓ runtime = ceiling ⊓ runtime ⊓ behavior).
    rewrite <- (base.assoc (⊓)). apply (comm (⊓)).
  - intros service. rewrite effective_mcp. by rewrite !meet_with_permits.
  - intros prefix. rewrite !effective_allowed. by rewrite !meet_with_permits.
Qed.

(** ** No party is overruled *)

Lemma apply_effective_bash_fields policy eb ao (da : bool) fb ro :
  let p := apply_effective_bash policy eb ao da fb ro in
  cp_mode p = meet_execution_mode (cp_mode policy) (pb_execution_mode eb)
  ∧ cp_network_mode p = meet_network_mode (cp_network_mode policy) (pb_network_mode eb)
  ∧ cp_deny_git_metadata_writes p = (pb_deny_git_metadata_writes eb || cp_deny_git_metadata_writes policy)
  ∧ cp_deny_all_argv p = (da || cp_deny_all_argv policy)
  ∧ cp_allowed_argv_prefixes p = (if da then [] else default (cp_allowed_argv_prefixes policy) ao)
  ∧ cp_forbidden_argv_prefixes p = (if is_nil fb then cp_forbidden_argv_prefixes policy else fb)
  ∧ cp_read_only_allowlist p = default (cp_read_only_allowlist policy) ro.
Proof.
  unfold apply_effective_bash.
  destruct da, ao, fb, ro, (pb_deny_git_metadata_writes eb); split_and!; reflexivity.
Qed.

Lemma sorted_prefixes_elem s x : x ∈ sorted_prefixes s <-> x ∈ s.
Proof. unfold sorted_prefixes. rewrite merge_sort_Permutation. apply elem_of_elements. Qed.

(** What a shell tool's policy keeps of the effective policy it is built under. *)
Record keeps_effective (b : ToolPolicyBash) (configured : Prop) (p : CommandExecutionPolicy) : Prop := {
  ke_forbidden : ∀ x, x ∈ pb_forbidden_argv_prefixes b -> x ∈ cp_forbidden_argv_prefixes p;
  ke_unconstrained : cp_deny_all_argv p = false -> cp_allowed_argv_prefixes p = [] ->
    pb_allowed_argv_prefixes b = ScopeAll;
  ke_allowed : ∀ x, x ∈ cp_allowed_argv_prefixes p -> permits (pb_allowed_argv_prefixes b) x = true;
  ke_read_only : ∀ a, a ∈ cp_read_only_allowlist p -> permits (pb_read_only_allowlist b) a = true;
  ke_modes : configured ->
    execution_mode_rank (cp_mode p) <= execution_mode_rank (pb_execution_mode b)
    ∧ network_mode_rank (cp_network_mode p) <= network_mode_rank (pb_network_mode b)
    ∧ (pb_deny_git_metadata_writes b = true -> cp_deny_git_metadata_writes p = true) }.

Lemma meet_execution_mode_le x y :
  execution_mode_rank (meet_execution_mode x y) <= execution_mode_rank x
  ∧ execution_mode_rank (meet_execution_mode x y) <= execution_mode_rank y.
Proof. destruct x, y; done. Qed.
Lemma meet_network_mode_le x y :
  network_mode_rank (meet_network_mode x y) <= network_mode_rank x
  ∧ network_mode_rank (meet_network_mode x y) <= network_mode_rank y.
Proof. destruct x, y; done. Qed.

Lemma project_allowed_spec scope :
  match project_allowed_prefixes scope with
  | (Some keys, deny_all) => deny_all = false ∧ keys ≠ []
      ∧ ∀ x, x ∈ keys -> permits scope x = true
  | (None, deny_all) => deny_all = false -> scope = ScopeAll
  end.
Proof.
  destruct scope as [|m|]; cbn [project_allowed_prefixes]; [done| |done].
  case_bool_decide as Hm; [done|]. split_and!; [done| |by intros x; rewrite scope_keys_elem].
  destruct (map_choose _ Hm) as (k & v & Hk). intros Hnil.
  assert (Hin : k ∈ scope_keys (ScopeOnly m)).
  { apply scope_keys_elem. cbn. apply bool_decide_eq_true. eauto. }
  rewrite Hnil in Hin. by apply not_elem_of_nil in Hin.
Qed.
Lemma project_read_only_spec scope :
  match project_read_only_allowlist scope with
  | Some keys => ∀ x, x ∈ keys -> permits scope x = true
  | None => scope = ScopeAll
  end.
Proof.
  destruct scope as [|m|]; cbn [project_read_only_allowlist]; [by intros x Hx%not_elem_of_nil| |done].
  case_bool_decide; [by intros x Hx%not_elem_of_nil|]. intros x. by rewrite scope_keys_elem.
Qed.

(** A policy cut down to the effective one. *)
Definition projected (b : ToolPolicyBash) (policy : CommandExecutionPolicy) : CommandExecutionPolicy :=
  apply_effective_bash policy b (project_allowed_prefixes (pb_allowed_argv_prefixes b)).1
    (project_allowed_prefixes (pb_allowed_argv_prefixes b)).2
    (sorted_prefixes (pb_forbidden_argv_prefixes b))
    (project_read_only_allowlist (pb_read_only_allowlist b)).

Lemma projected_keeps_effective b policy : keeps_effective b True (projected b policy).
Proof.
  unfold projected. pose proof (project_allowed_spec (pb_allowed_argv_prefixes b)) as Hal.
  destruct (project_allowed_prefixes (pb_allowed_argv_prefixes b)) as [ao da]. cbn [fst snd].
  pose proof (project_read_only_spec (pb_read_only_allowlist b)) as Hro.
  destruct (apply_effective_bash_fields policy b ao da (sorted_prefixes (pb_forbidden_argv_prefixes b))
    (project_read_only_allowlist (pb_read_only_allowlist b)))
    as (Em & En & Eg & Ed & Ea & Ef & Er). constructor.
  - intros x Hx%sorted_prefixes_elem. rewrite Ef.
    destruct (sorted_prefixes _); [by apply not_elem_of_nil in Hx|exact Hx].
  - rewrite Ed, Ea. intros [-> _]%orb_false_iff Hnil. destruct ao as [keys|]; [|by apply Hal].
    destruct Hal as (_ & Hne & _). by destruct (Hne Hnil).
  - intros x. rewrite Ea. destruct ao as [keys|].
    + destruct Hal as (-> & _ & Hk). apply Hk.
    + destruct da; [by intros ?%not_elem_of_nil|]. by rewrite (Hal eq_refl).
  - intros a. rewrite Er. destruct (project_read_only_allowlist _); [apply Hro|by rewrite Hro].
  - intros _. rewrite Em, En, Eg.
    split_and!; [apply meet_execution_mode_le|apply meet_network_mode_le|by intros ->].
Qed.

Lemma base_command_policy_None cp bash : base_command_policy cp bash = None -> cp = None.
Proof. by destruct cp as [policy|], bash; cbn; try destruct (is_mode ReadOnly policy). Qed.

Definition imposes_constraint (b : ToolPolicyBash) : bool :=
  (project_allowed_prefixes (pb_allowed_argv_prefixes b)).2 || is_only (pb_allowed_argv_prefixes b)
  || negb (is_nil (sorted_prefixes (pb_forbidden_argv_prefixes b)))
  || bool_decide (is_Some (project_read_only_allowlist (pb_read_only_allowlist b))).
Lemma constrain_projects macos cp b bash : bash ≠ BM_Off ->
  constrain_command_policy_to_effective_bash macos cp b bash
  = projected b <$>
    match base_command_policy cp bash with
    | Some policy => Some policy
    | None => if imposes_constraint b
              then Some (match bash with
                         | BM_ReadOnly => default_read_only_command_policy
                         | _ => write_capable macos
                         end)
              else None
    end.
Proof.
  intros Hb. unfold constrain_command_policy_to_effective_bash, projected, imposes_constraint.
  destruct bash; [done| |]; by destruct (project_allowed_prefixes (pb_allowed_argv_prefixes b)).
Qed.
Lemma imposes_constraint_false b : imposes_constraint b = false ->
  pb_allowed_argv_prefixes b = ScopeAll ∧ pb_forbidden_argv_prefixes b = ∅
  ∧ pb_read_only_allowlist b = ScopeAll.
Proof.
  unfold imposes_constraint. intros Hi. bool_prop. split_and!.
  - by destruct (pb_allowed_argv_prefixes b).
  - apply is_nil_true in H1. apply leibniz_equiv, set_equiv. intros x.
    rewrite <- sorted_prefixes_elem, H1. set_solver.
  - pose proof (project_read_only_spec (pb_read_only_allowlist b)) as Hro.
    destruct (project_read_only_allowlist _); [done|exact Hro].
Qed.

(** A shell tool has a projected policy, or the tool's default when neither the
    selection nor a prefix or allowlist of the effective policy constrains it. *)
Lemma shell_tool_policy_cases macos cp b bash p : shell_tool_policy macos cp b bash = Some p ->
  (∃ policy, p = projected b policy)
  ∨ (cp = None ∧ imposes_constraint b = false ∧ cp_allowed_argv_prefixes p = []).
Proof.
  unfold shell_tool_policy. destruct (decide (bash = BM_Off)) as [->|Hb]; [done|].
  rewrite constrain_projects by done. intros H.
  destruct (base_command_policy cp bash) as [policy|] eqn:Hbase.
  { left. exists policy. destruct bash; [done|by injection H|by injection H]. }
  apply base_command_policy_None in Hbase as ->. destruct (imposes_constraint b) eqn:Hi.
  - left. destruct bash; [done| |]; injection H as <-; eauto.
  - right. destruct bash; [done| |]; by injection H as <-.
Qed.

Lemma shell_tool_policy_keeps_effective macos cp b bash p :
  shell_tool_policy macos cp b bash = Some p -> keeps_effective b (is_Some cp) p.
Proof.
  intros [[policy ->]|(-> & (Ha & Hf & Hr)%imposes_constraint_false & Hp)]%shell_tool_policy_cases.
  - destruct (projected_keeps_effective b policy) as [? ? ? ? Hm]. constructor; auto.
  - constructor; [rewrite Hf; set_solver|done|rewrite Hp; by intros x ?%not_elem_of_nil
      |by rewrite Hr|by intros []].
Qed.

Lemma below_permits_ceiling {K V} `{Countable K} f (s t : EndpointScope K V) k :
  permits (meet_with (meet_with s t f) ScopeAll f) k = true -> permits s k = true ∧ permits t k = true.
Proof. rewrite !meet_with_permits. intros Hk. by bool_prop. Qed.

Lemma meet_all_inv {K V} `{Countable K} f (s t : EndpointScope K V) :
  meet_with (meet_with s t f) ScopeAll f = ScopeAll -> s = ScopeAll ∧ t = ScopeAll.
Proof. by destruct s, t. Qed.

Section parties.
Context {EthCall : Type} (eth_call_tool_name : EthCall → str) (macos : bool).
Implicit Types sel : ToolSelection EthCall.

Lemma selection_allowed sel : pb_allowed_argv_prefixes (selection_bash_policy sel)
  = if is_nil (from_option cp_allowed_argv_prefixes [] (ts_command_policy sel)) then ScopeAll
    else only_units (from_option cp_allowed_argv_prefixes [] (ts_command_policy sel)).
Proof. reflexivity. Qed.

End parties.

Definition demo_selection : ToolSelection unit :=
  mkSelection FT_ReadOnly None BM_ReadOnly (Some (with_forbidden_argv_prefixes [[lit "git"; lit "show"]]
      default_read_only_command_policy)) [] true true false [] [] [] [] false false true false [] [] [] false
    None false false false None [] [].
Definition demo_subagents : SubagentToolConfig := mkSubagentConfig [] false false false Foreground false.
Definition demo_ceiling : ToolPolicySurface :=
  surface_meet (ceiling_with_host_modes FT_ReadOnly BM_ReadOnly)
    (mkSurface FT_ReadWrite
      (mkBash BM_Unrestricted Unrestricted Disabled true ScopeAll {[ [lit "curl"] ]}
         (only_units (lit <$> ["git"; "cat"]%string)) true)
      true true true true true true true true true true true true true true
      ScopeAll ScopeAll ScopeAll ScopeAll ScopeAll ScopeAll ScopeAll ScopeAll ScopeAll ScopeAll).
Definition demo_shell : CommandExecutionPolicy :=
  default default_read_only_command_policy
    (behavior_shell_policy (λ _, []) false demo_selection demo_subagents demo_ceiling).

(** A ceiling that constrains a read-only behavior by its network mode only is
    not applied when the selection has no command policy: the shell tool is built
    with the default policy, which runs [curl]. *)
Theorem ceiling_network_mode_is_lost :
  let selection := mkSelection FT_ReadOnly None BM_ReadOnly None [] true true false [] [] [] [] false
    false true false [] [] [] false None false false false None [] [] in
  let ceiling := surface_meet runtime_all
    (mkSurface FT_ReadWrite (mkBash BM_Unrestricted Unrestricted Disabled true ScopeAll ∅ ScopeAll false)
      true true true true true true true true true true true true true true
      ScopeAll ScopeAll ScopeAll ScopeAll ScopeAll ScopeAll ScopeAll ScopeAll ScopeAll ScopeAll) in
  pb_network_mode (ps_bash ceiling) = Disabled
  ∧ behavior_shell_policy (λ _ : unit, []) false selection demo_subagents ceiling
    = Some default_read_only_command_policy
  ∧ validate_command_policy default_read_only_command_policy (lit "curl") [lit "https://example.org"]
    = Ok tt
  ∧ validate_command_policy (with_network_mode Disabled default_read_only_command_policy) (lit "curl")
      [lit "https://example.org"] ≠ Ok tt.
Proof. vm_compute. split_and!; done. Qed.

(** ** Narrowed declarations *)

Lemma filter_granted_In {A} (name : A → str) fields l x :
  In x (List.filter (λ f, granted fields (name f)) l) -> In x l ∧ trim (name x) ∈ fields.
Proof. intros [Hin Hg]%filter_In. split; [done|]. by apply bool_decide_eq_true in Hg. Qed.

(** A query tool that reaches the runtime returns and filters by granted fields
    only, and keeps every filter the runtime fills in: a grant that would drop such a
    filter drops the whole tool, so a narrowed read is never wider than declared. *)
Theorem query_isolation_survives p decls d :
  d ∈ query_decls_for_runtime p decls ->
  ∃ decl, decl ∈ decls ∧ qd_tool_name d = qd_tool_name decl ∧ qd_collection d = qd_collection decl
    ∧ (∀ f, f ∈ qd_filter_fields decl -> is_Some (wf_fill f) -> f ∈ qd_filter_fields d)
    ∧ (∀ f, f ∈ qd_fields d -> f ∈ qd_fields decl)
    ∧ (∀ fields, scope_lookup (ps_query_tools p) (trim (qd_tool_name decl), trim (qd_collection decl))
                 = Some fields ->
         (∀ f, f ∈ qd_fields d -> trim f ∈ fields)
         ∧ (∀ f, f ∈ qd_filter_fields d -> trim (wf_name f) ∈ fields)).
Proof.
  unfold query_decls_for_runtime. intros [Hin _]%list_elem_of_In%filter_In.
  apply list_elem_of_In, list_elem_of_omap in Hin as (decl & Hdecl & Hn).
  exists decl. split; [done|]. unfold narrow_query_decl in Hn.
  destruct (ps_query_tools p) as [|grants|]; [done| |injection Hn as <-; by split_and!].
  cbn [scope_lookup]. destruct (grants !! _) as [fields|]; [|done]. cbn [mbind option_bind] in Hn.
  destruct (existsb _ _) eqn:He; [done|]. injection Hn as <-. cbn.
  split_and!; [done|done| | |].
  - intros f Hf Hfill. apply list_elem_of_In, filter_In. apply list_elem_of_In in Hf. split; [done|].
    destruct (granted fields (wf_name f)) eqn:Hg; [done|].
    assert (existsb (λ f, bool_decide (is_Some (wf_fill f)) && negb (granted fields (wf_name f)))
              (qd_filter_fields decl) = true); [|congruence].
    apply existsb_exists. exists f. split; [done|]. rewrite Hg. by rewrite bool_decide_eq_true_2.
  - intros f [Hf _]%list_elem_of_In%(filter_granted_In id). by apply list_elem_of_In.
  - intros ? [= <-]. split; intros f Hf%list_elem_of_In.
    + by apply (filter_granted_In id) in Hf as [_ ?].
    + by apply (filter_granted_In wf_name) in Hf as [_ ?].
Qed.

Definition demo_tenant : WriteToolField := mkField (lit "tenant") true (Some Fill_Correlation).
Definition demo_query : QueryToolDecl :=
  mkQueryDecl (lit "orders") (lit "Order") [] [lit "id"; lit "total"] [demo_tenant].
Definition demo_grants : ToolPolicySurface :=
  mkSurface FT_Off bash_off true true true true true true true true true true true true true true
    ScopeAll ScopeAll ScopeAll ScopeAll ScopeAll ScopeAll ScopeAll
    (ScopeOnly {[ (lit "orders", lit "Order") := {[ lit "id"; lit "tenant" ]} ]}) ScopeAll ScopeAll.
Lemma query_isolation_survives_witness :
  query_decls_for_runtime demo_grants [demo_query]
  = [mkQueryDecl (lit "orders") (lit "Order") [] [lit "id"] [demo_tenant]]
  ∧ demo_tenant ∈ [demo_tenant].
Proof.
  assert (Hq : query_decls_for_runtime demo_grants [demo_query]
    = [mkQueryDecl (lit "orders") (lit "Order") [] [lit "id"] [demo_tenant]]) by (vm_compute; reflexivity).
  split; [exact Hq|].
  destruct (query_isolation_survives demo_grants [demo_query]
    (mkQueryDecl (lit "orders") (lit "Order") [] [lit "id"] [demo_tenant])
    ltac:(rewrite Hq; apply list_elem_of_here)) as (decl & Hdecl & _ & _ & Hfilled & _).
  apply list_elem_of_singleton in Hdecl. subst decl.
  apply Hfilled; [apply list_elem_of_here|by eexists].
Defined.
