(* ===== verification/ToolPaths.v ===== *)
(** * Confinement of tool paths

    How file and shell tools turn a model's path into a location under the tool
    root ([src/crates/gents/src/toolset/shared/context.rs]) and how a configured
    root is resolved against the operator's
    ([src/crates/gents/src/tool_surface/build.rs]).

    A path is absolute or relative and a list of components, as
    [std::path::Path::components] yields them on Unix (a leading [.] has no effect
    in any use here and is dropped).  The file system is an interface: the entry at
    a physical location, and [realpath]; its laws are a class, with an instance for
    a tree of directories, files and symbolic links.  The file system does not
    change during a call. *)

From S2P Require Import Prelude RustStr Messages ToolCall Denial CommandPolicy.
Open Scope Z_scope.

(** ** Paths *)

Inductive Component : Type := ParentDir | Normal (name : str).
#[global] Instance Component_eq_dec : EqDecision Component.
Proof. solve_decision. Defined.
Definition component_of (s : str) : Component :=
  if str_eqb s (lit "..") then ParentDir else Normal s.
Definition components (raw : str) : list Component := component_of <$> path_components raw.
Definition is_absolute (raw : str) : bool := starts_with [47] raw.
(** A location: the names from the root of the file system. *)
Definition location : Type := list str.
Definition at_location (p : location) : list Component := Normal <$> p.
(** [base.join(candidate)] for an absolute [base]. *)
Definition join_path (base : location) (raw : str) : list Component :=
  if is_absolute raw then components raw else at_location base ++ components raw.

(** ** The file system *)

Inductive EntryKind : Type := KDir | KFile | KLink.
#[global] Instance EntryKind_eq_dec : EqDecision EntryKind.
Proof. solve_decision. Defined.

Record FileSystem : Type := mkFs {
  entry : location → option EntryKind;
  canonicalize : list Component → option location }.

(** What the code relies on: only directories have entries, [realpath] gives the
    location of an existing entry that is no link, resolves a path through its
    parent by looking the name up there, and leaves such locations alone. *)
Class FsLaws (fs : FileSystem) : Prop := {
  fs_root : entry fs [] = Some KDir;
  fs_parent p n : is_Some (entry fs (p ++ [n])) -> entry fs p = Some KDir;
  fs_canonical p c : canonicalize fs p = Some c -> entry fs c = Some KDir ∨ entry fs c = Some KFile;
  fs_step p c n : canonicalize fs p = Some c -> entry fs c = Some KDir ->
    (entry fs (c ++ [n]) = Some KDir ∨ entry fs (c ++ [n]) = Some KFile) ->
    canonicalize fs (p ++ [Normal n]) = Some (c ++ [n]);
  fs_prefix p c n : canonicalize fs (p ++ [Normal n]) = Some c ->
    ∃ d, canonicalize fs p = Some d ∧ entry fs d = Some KDir ∧ is_Some (entry fs (d ++ [n]));
  fs_fixed c : entry fs c = Some KDir ∨ entry fs c = Some KFile ->
    canonicalize fs (at_location c) = Some c }.

Section ops.
Context (fs : FileSystem).

Fixpoint split_last (p : location) : option (location * str) :=
  match p with
  | [] => None
  | [n] => Some ([], n)
  | n :: p => match split_last p with Some (q, m) => Some (n :: q, m) | None => None end
  end.
(** [symlink_metadata]: every component but the last is followed. *)
Definition symlink_metadata (p : location) : option EntryKind :=
  match split_last p with
  | None => entry fs []
  | Some (q, n) =>
      c ← canonicalize fs (at_location q);
      if bool_decide (entry fs c = Some KDir) then entry fs (c ++ [n]) else None
  end.
Definition path_exists (p : list Component) : bool := bool_decide (is_Some (canonicalize fs p)).
Definition is_dir (p : location) : bool :=
  bool_decide (canonicalize fs (at_location p) ≫= entry fs = Some KDir).
Definition is_file (p : location) : bool :=
  bool_decide (canonicalize fs (at_location p) ≫= entry fs = Some KFile).

Inductive PathError : Type :=
| PE_Resolving (path : list Component)
| PE_CanonicalizingAncestor (ancestor : location)
| PE_NoExistingAncestor (path : list Component)
| PE_OutsideRoot (root path : location)
| PE_NotADirectory (path : location)
| PE_NotAFile (path : location)
| PE_Escapes (selection ceiling : location).

(** *** Creation *)

(** The lexical normalization: [..] drops a name, and stays at the root. *)
Fixpoint normalize_onto (normalized : location) (path : list Component) : location :=
  match path with
  | [] => normalized
  | ParentDir :: path => normalize_onto (from_option fst [] (split_last normalized)) path
  | Normal name :: path => normalize_onto (normalized ++ [name]) path
  end.
(** The climb to the nearest entry, with the names that are missing below it;
    [fuel] is the number of names. *)
Fixpoint nearest_entry (fuel : nat) (ancestor : location) (suffix : list str)
    : option (location * list str) :=
  match symlink_metadata ancestor with
  | Some _ => Some (ancestor, suffix)
  | None =>
      match fuel, split_last ancestor with
      | S fuel, Some (parent, name) => nearest_entry fuel parent (name :: suffix)
      | _, _ => None
      end
  end.
Definition normalize_for_creation (path : list Component) : result PathError location :=
  let normalized := normalize_onto [] path in
  match nearest_entry (length normalized) normalized [] with
  | None => Err (PE_NoExistingAncestor path)
  | Some (ancestor, suffix) =>
      match canonicalize fs (at_location ancestor) with
      | None => Err (PE_CanonicalizingAncestor ancestor)
      | Some resolved => Ok (resolved ++ suffix)
      end
  end.

(** *** The tool context *)

Definition under (root p : location) : bool := bool_decide (root `prefix_of` p).
Definition resolve_base_dir (root : location) (base : option (list Component)) : location :=
  match base with
  | None => root
  | Some base =>
      match canonicalize fs base with
      | None => root
      | Some canonical => if is_dir canonical && under root canonical then canonical else root
      end
  end.

Record ToolContext : Type := mkContext { tc_root : location; tc_base : location }.
(** What the running request's scope overrides. *)
Record WorkspaceScope : Type := mkScope {
  ws_root : option location; ws_cwd : option (list Component) }.

Section context.
Context (scope : WorkspaceScope) (self : ToolContext).

Definition effective_root : location := default (tc_root self) (ws_root scope).
Definition effective_base : location :=
  match ws_cwd scope with
  | Some base => resolve_base_dir effective_root (Some base)
  | None => resolve_base_dir effective_root (Some (at_location (tc_base self)))
  end.
Definition ensure_allowed (path : location) : result PathError location :=
  if under effective_root path then Ok path else Err (PE_OutsideRoot effective_root path).
Definition resolve_path_allow_create (raw : str) : result PathError location :=
  let? resolved := normalize_for_creation (join_path effective_base raw) in
  ensure_allowed resolved.
Definition resolve_path (raw : str) : result PathError location :=
  let path := join_path effective_base raw in
  match canonicalize fs path with
  | None => Err (PE_Resolving path)
  | Some resolved => ensure_allowed resolved
  end.
Definition resolve_existing_dir (raw : option str) : result PathError location :=
  let? resolved := match raw with
                   | Some path => if is_nil (trim path) then Ok effective_base else resolve_path path
                   | None => Ok effective_base
                   end in
  if is_dir resolved then Ok resolved else Err (PE_NotADirectory resolved).
Definition resolve_existing_file (raw : str) : result PathError location :=
  let? resolved := resolve_path raw in
  if is_file resolved then Ok resolved else Err (PE_NotAFile resolved).

(** [Path::display]. *)
Definition display_location (p : location) : str := [47] ++ join [47] p.
Definition display_relative (p : location) : str :=
  let display := (λ c, if c =? 92 then 47 else c) <$> join [47] p in
  if is_nil display then lit "." else display.
Fixpoint strip_location (base p : location) : option location :=
  match base, p with
  | [], _ => Some p
  | b :: base, n :: p => if str_eqb b n then strip_location base p else None
  | _, [] => None
  end.
Definition display_path (path : location) : str :=
  match strip_location effective_base path with
  | Some relative => display_relative relative
  | None =>
      match strip_location effective_root path with
      | Some relative => display_relative relative
      | None => display_location path
      end
  end.
End context.

(** *** Configured roots *)

(** The components still to come, what was resolved, and whether a missing name
    was met. *)
Fixpoint canonical_prefix_from (resolved : location) (missing_tail : bool) (path : list Component)
    : result PathError location :=
  match path with
  | [] => Ok resolved
  | ParentDir :: path =>
      canonical_prefix_from (from_option fst [] (split_last resolved)) missing_tail path
  | Normal name :: path =>
      let candidate := at_location (resolved ++ [name]) in
      if negb missing_tail && path_exists candidate
      then match canonicalize fs candidate with
           | Some resolved => canonical_prefix_from resolved missing_tail path
           | None => Err (PE_Resolving candidate)
           end
      else canonical_prefix_from (resolved ++ [name]) true path
  end.
Definition resolve_path_with_canonical_prefix (path : list Component) : result PathError location :=
  canonical_prefix_from [] false path.
(** [current_dir] is where a relative root is taken from. *)
Definition resolve_configured_tool_root (current_dir : location) (raw : str) : result PathError location :=
  resolve_path_with_canonical_prefix (join_path current_dir raw).
Definition resolve_effective_tool_root (current_dir : location) (selection_root ceiling_root : option str)
    : result PathError (option location) :=
  let resolve root := match root with
                      | None => Ok None
                      | Some raw => let? r := resolve_configured_tool_root current_dir raw in Ok (Some r)
                      end in
  let? selection_root := resolve selection_root in
  let? ceiling_root := resolve ceiling_root in
  match selection_root, ceiling_root with
  | Some selection_root, Some ceiling_root =>
      if under ceiling_root selection_root then Ok (Some selection_root)
      else Err (PE_Escapes selection_root ceiling_root)
  | Some selection_root, None => Ok (Some selection_root)
  | None, ceiling_root => Ok ceiling_root
  end.
End ops.

(** ** A tree of directories, files and links *)

Inductive TreeEntry : Type :=
| TDir
| TFile
| TLink (absolute : bool) (target : list Component).
Definition tree : Type := gmap location TreeEntry.
Definition tree_at (t : tree) (p : location) : option TreeEntry :=
  match p with [] => Some TDir | _ => t !! p end.
Definition kind_of (e : TreeEntry) : EntryKind :=
  match e with TDir => KDir | TFile => KFile | TLink _ _ => KLink end.
Definition parent (p : location) : location := from_option fst [] (split_last p).

(** Path resolution, with the number of links that may still be followed. *)
Fixpoint walk (t : tree) (links : nat) {struct links} : location → list Component → option location :=
  fix go (cur : location) (rest : list Component) {struct rest} : option location :=
    match rest with
    | [] => Some cur
    | ParentDir :: rest => go (parent cur) rest
    | Normal n :: rest =>
        match tree_at t (cur ++ [n]) with
        | None => None
        | Some TDir => go (cur ++ [n]) rest
        | Some TFile => match rest with [] => Some (cur ++ [n]) | _ => None end
        | Some (TLink absolute target) =>
            match links with
            | O => None
            | S links => walk t links (if absolute then [] else cur) (target ++ rest)
            end
        end
    end.
Definition MAX_LINKS : nat := 40.
Definition tree_fs (t : tree) : FileSystem :=
  mkFs (λ p, kind_of <$> tree_at t p) (walk t MAX_LINKS []).

(** Every entry lies in a directory. *)
Definition in_directory (t : tree) (p : location) : bool :=
  match split_last p with
  | Some (q, _) => bool_decide (kind_of <$> tree_at t q = Some KDir)
  | None => false
  end.
Definition tree_wf (t : tree) : Prop := map_Forall (λ p _, in_directory t p = true) t.

(** *** Lists of names *)

Lemma split_last_Some p q n : split_last p = Some (q, n) <-> p = q ++ [n].
Proof.
  revert q. induction p as [|m p IH]; intros q; [by destruct q|].
  cbn [split_last]. destruct p as [|m2 p].
  - split; [by intros [= <- <-]|]. destruct q as [|? q]; [by intros [= ->]|]. by destruct q.
  - destruct (split_last (m2 :: p)) as [[q' k]|] eqn:E.
    + pose proof (proj1 (IH q')) as Hq. split.
      * intros [= <- <-]. by rewrite (Hq eq_refl).
      * destruct q as [|? q]; [done|]. intros [= -> Hp]. apply IH in Hp. by injection Hp as -> ->.
    + split; [done|]. destruct q as [|? q]; [done|]. intros [= _ Hp]. by apply IH in Hp.
Qed.
Lemma split_last_None p : split_last p = None <-> p = [].
Proof.
  split; [|by intros ->]. destruct p as [|n p] using rev_ind; [done|].
  by rewrite (proj2 (split_last_Some _ p n) eq_refl).
Qed.
Lemma split_last_snoc p n : split_last (p ++ [n]) = Some (p, n).
Proof. by apply split_last_Some. Qed.
Lemma parent_snoc p n : parent (p ++ [n]) = p.
Proof. unfold parent. by rewrite split_last_snoc. Qed.
Lemma at_location_snoc p n : at_location (p ++ [n]) = at_location p ++ [Normal n].
Proof. unfold at_location. by rewrite fmap_app. Qed.

(** *** The laws *)

Section tree.
Context (t : tree) (Hwf : tree_wf t).
Local Abbreviation kind p := (kind_of <$> tree_at t p).

Lemma tree_parent p n : is_Some (kind (p ++ [n])) -> kind p = Some KDir.
Proof.
  intros [k Hk]. destruct (tree_at t (p ++ [n])) as [e|] eqn:E; [|done].
  assert (Ht : t !! (p ++ [n]) = Some e) by (by destruct p).
  specialize (Hwf _ _ Ht). unfold in_directory in Hwf. rewrite split_last_snoc in Hwf.
  by apply bool_decide_eq_true in Hwf.
Qed.
Lemma tree_parent_dir p : kind p = Some KDir -> kind (parent p) = Some KDir.
Proof.
  destruct p as [|n p] using rev_ind; [done|]. rewrite parent_snoc. intros H.
  apply (tree_parent p n). by rewrite H.
Qed.

Lemma walk_canonical links : ∀ rest cur c, kind cur = Some KDir -> walk t links cur rest = Some c ->
  kind c = Some KDir ∨ kind c = Some KFile.
Proof.
  induction links as [|links IHl]; intros rest; induction rest as [|[|n] rest IH]; intros cur c Hc H;
    cbn [walk] in H; try (injection H as <-; by left); try (by apply (IH (parent cur)); [apply tree_parent_dir|]).
  all: destruct (tree_at t (cur ++ [n])) as [[| |absolute target]|] eqn:E; try done.
  all: try (by apply (IH (cur ++ [n])); [rewrite E|]).
  all: try (destruct rest; [|done]; injection H as <-; right; by rewrite E).
  apply IHl in H; [done|]. by destruct absolute.
Qed.

(** A walk that ended at a directory goes on from there. *)
Lemma walk_app links : ∀ rest cur c, kind c = Some KDir -> walk t links cur rest = Some c ->
  ∃ left, ∀ more, walk t links cur (rest ++ more) = walk t left c more.
Proof.
  induction links as [|links IHl]; intros rest; induction rest as [|[|n] rest IH]; intros cur c Hc H;
    cbn [walk] in H; try (injection H as <-; by eexists); try (by apply (IH (parent cur))).
  all: destruct (tree_at t (cur ++ [n])) as [[| |absolute target]|] eqn:E; try done.
  all: try (destruct (IH _ _ Hc H) as [k Hk]; exists k; intros more; cbn [app walk]; by rewrite E).
  all: try (destruct rest; [|done]; injection H as <-; by rewrite E in Hc).
  destruct (IHl _ _ _ Hc H) as [k Hk]. exists k. intros more. cbn [app walk]. rewrite E.
  rewrite app_assoc. apply Hk.
Qed.

Lemma walk_snoc_inv links n : ∀ rest cur c, walk t links cur (rest ++ [Normal n]) = Some c ->
  ∃ d, walk t links cur rest = Some d ∧ kind d = Some KDir ∧ is_Some (kind (d ++ [n])).
Proof.
  assert (Hbase : ∀ links cur c, walk t links cur [Normal n] = Some c ->
    kind cur = Some KDir ∧ is_Some (kind (cur ++ [n]))).
  { intros l cur c H. assert (Hs : is_Some (kind (cur ++ [n]))).
    { destruct l; cbn [walk] in H; by destruct (tree_at t (cur ++ [n])). }
    split; [by apply (tree_parent cur n)|done]. }
  induction links as [|links IHl]; intros rest; induction rest as [|[|m] rest IH]; intros cur c H.
  1,4: exists cur; split; [done|]; exact (Hbase _ _ _ H).
  1,3: by apply (IH (parent cur) c).
  all: cbn [app walk] in H |- *.
  all: destruct (tree_at t (cur ++ [m])) as [[| |absolute target]|] eqn:E; try done.
  all: try (by apply (IH (cur ++ [m]) c)); try (by destruct rest).
  rewrite app_assoc in H. by apply (IHl _ _ c).
Qed.

Lemma walk_fixed links : ∀ q cur, (kind (cur ++ q) = Some KDir ∨ kind (cur ++ q) = Some KFile) ->
  walk t links cur (at_location q) = Some (cur ++ q).
Proof.
  assert (Hpre : ∀ q p, is_Some (kind (p ++ q)) -> q ≠ [] -> kind p = Some KDir).
  { induction q as [|n q IH] using rev_ind; intros p Hs Hne; [done|].
    rewrite app_assoc in Hs. apply tree_parent in Hs.
    destruct q as [|m q]; [by rewrite app_nil_r in Hs|]. apply IH; [by rewrite Hs|done]. }
  intros q. induction q as [|n q IH]; intros cur Hk; [by destruct links; rewrite app_nil_r|].
  assert (Hk' : kind ((cur ++ [n]) ++ q) = Some KDir ∨ kind ((cur ++ [n]) ++ q) = Some KFile)
    by (by rewrite <- app_assoc).
  assert (Hwalk := IH (cur ++ [n]) Hk'). rewrite <- app_assoc in Hwalk.
  destruct q as [|m q].
  - destruct links; cbn [at_location fmap list_fmap walk]; destruct (tree_at t (cur ++ [n])) as [[]|];
      cbn in Hk; naive_solver.
  - assert (Hd : kind (cur ++ [n]) = Some KDir).
    { apply (Hpre (m :: q)); [|done]. by destruct Hk' as [-> | ->]. }
    destruct (tree_at t (cur ++ [n])) as [[]|] eqn:E; try done.
    destruct links; cbn [at_location fmap list_fmap walk]; rewrite E; exact Hwalk.
Qed.

#[global] Instance tree_fs_laws : FsLaws (tree_fs t).
Proof.
  split; cbn [entry canonicalize tree_fs].
  - done.
  - apply tree_parent.
  - intros p c. by apply walk_canonical.
  - intros p c n Hp Hc Hn. destruct (walk_app _ _ _ _ Hc Hp) as [k Hk]. rewrite Hk.
    apply (walk_fixed k [n] c Hn).
  - intros p c n. apply walk_snoc_inv.
  - intros c Hc. by apply (walk_fixed MAX_LINKS c []).
Qed.
End tree.

(** ** Confinement *)

Section confinement.
Context (fs : FileSystem) `{!FsLaws fs}.

(** No name on the way to the location is a link: what is opened there is there. *)
Definition physical (p : location) : Prop := ∀ q, q `prefix_of` p -> entry fs q ≠ Some KLink.

Lemma entry_prefix_dir q : ∀ p, is_Some (entry fs (p ++ q)) -> q ≠ [] -> entry fs p = Some KDir.
Proof.
  induction q as [|n q IH] using rev_ind; intros p Hs Hne; [done|].
  rewrite app_assoc in Hs. apply fs_parent in Hs.
  destruct q as [|m q]; [by rewrite app_nil_r in Hs|]. apply IH; [by rewrite Hs|done].
Qed.
Lemma existing_physical c : entry fs c = Some KDir ∨ entry fs c = Some KFile -> physical c.
Proof.
  intros Hc q [[|n r] ->]; [rewrite app_nil_r in Hc; naive_solver|].
  rewrite (entry_prefix_dir (n :: r) q); [done| |done]. by destruct Hc as [-> | ->].
Qed.
Lemma canonical_physical p c : canonicalize fs p = Some c -> physical c.
Proof. intros H. by eapply existing_physical, fs_canonical. Qed.

Lemma symlink_metadata_snoc q n c : canonicalize fs (at_location q) = Some c ->
  symlink_metadata fs (q ++ [n]) = entry fs (c ++ [n]).
Proof.
  intros Hc. unfold symlink_metadata. rewrite split_last_snoc, Hc. cbn [mbind option_bind].
  case_bool_decide as Hd; [done|]. destruct (entry fs (c ++ [n])) eqn:E; [|done].
  destruct Hd. apply (fs_parent c n). by rewrite E.
Qed.

(** The climb stops at an entry and the names below it are missing. *)
Lemma nearest_entry_Some fuel : ∀ p suffix ancestor rest,
  nearest_entry fs fuel p suffix = Some (ancestor, rest) ->
  is_Some (symlink_metadata fs ancestor)
  ∧ ∃ mid, p = ancestor ++ mid ∧ rest = mid ++ suffix
      ∧ ∀ n tl, mid = n :: tl -> symlink_metadata fs (ancestor ++ [n]) = None.
Proof.
  induction fuel as [|fuel IH]; intros p suffix ancestor rest H; cbn [nearest_entry] in H.
  all: destruct (symlink_metadata fs p) as [k|] eqn:Hp;
    [injection H as <- <-; split; [by rewrite Hp|]; exists []; by rewrite app_nil_r|].
  - done.
  - destruct (split_last p) as [[q n]|] eqn:Hs; [|done]. apply split_last_Some in Hs as ->.
    apply IH in H as (Ha & mid & -> & -> & Hmid). split; [done|].
    exists (mid ++ [n]). rewrite <- !app_assoc. split_and!; [done|done|].
    intros m tl Heq. destruct mid as [|m' mid].
    + injection Heq as <- <-. by rewrite app_nil_r in Hp.
    + injection Heq as <- _. by apply (Hmid m' mid).
Qed.
Lemma nearest_entry_total fuel : ∀ p suffix, (length p <= fuel)%nat ->
  is_Some (nearest_entry fs fuel p suffix).
Proof.
  induction fuel as [|fuel IH]; intros p suffix Hl; cbn [nearest_entry];
    destruct (symlink_metadata fs p) eqn:Hp; try done.
  - destruct p; [|cbn in Hl; lia]. unfold symlink_metadata in Hp. cbn in Hp. by rewrite fs_root in Hp.
  - destruct (split_last p) as [[q n]|] eqn:Hs.
    + apply split_last_Some in Hs as ->. apply IH. rewrite length_app in Hl. cbn in Hl. lia.
    + apply split_last_None in Hs as ->. unfold symlink_metadata in Hp. cbn in Hp.
      by rewrite fs_root in Hp.
Qed.

Lemma created_physical path p : normalize_for_creation fs path = Ok p -> physical p.
Proof.
  unfold normalize_for_creation.
  destruct (nearest_entry fs _ _ []) as [[ancestor rest]|] eqn:Hn; [|done].
  destruct (canonicalize fs (at_location ancestor)) as [c|] eqn:Hc; [|done]. intros [= <-].
  apply nearest_entry_Some in Hn as (_ & mid & _ & -> & Hmid). rewrite app_nil_r.
  intros q Hq. destruct (decide (q `prefix_of` c)) as [Hqc|Hqc].
  { exact (canonical_physical _ _ Hc q Hqc). }
  destruct (prefix_weak_total q c (c ++ mid) Hq (prefix_app_r _ _ _ (reflexivity _))) as [?|[r ->]]; [done|].
  apply prefix_app_inv in Hq as Hr.
  destruct r as [|n r]; [destruct Hqc; by rewrite app_nil_r|].
  destruct Hr as [tl Htl]. specialize (Hmid n (r ++ tl) Htl).
  rewrite (symlink_metadata_snoc ancestor n c Hc) in Hmid.
  destruct (entry fs (c ++ n :: r)) eqn:E; [|done]. exfalso.
  destruct r as [|m r]; [congruence|].
  assert (Hd : entry fs (c ++ [n]) = Some KDir); [|congruence].
  apply (entry_prefix_dir (m :: r)); [|done]. rewrite <- app_assoc. cbn. by rewrite E.
Qed.

(** Along names that are no links, resolution changes nothing. *)
Lemma physical_resolves p c : physical p -> canonicalize fs (at_location p) = Some c -> c = p.
Proof.
  revert c. induction p as [|n p IH] using rev_ind; intros c Hp Hc.
  { rewrite (fs_fixed []) in Hc by (left; apply fs_root). by injection Hc as <-. }
  rewrite at_location_snoc in Hc. destruct (fs_prefix _ _ _ Hc) as (d & Hd & Hdir & [k Hk]).
  assert (d = p) as ->.
  { apply IH; [|done]. intros q Hq. apply Hp. by apply prefix_app_r. }
  rewrite (fs_step _ _ n Hd Hdir) in Hc; [by injection Hc as <-|].
  pose proof (Hp (p ++ [n]) (reflexivity _)) as Hl. rewrite Hk in Hl |- *. destruct k; naive_solver.
Qed.
Lemma physical_created path : physical (normalize_onto [] path) ->
  normalize_for_creation fs path = Ok (normalize_onto [] path).
Proof.
  intros Hp. unfold normalize_for_creation. set (p := normalize_onto [] path) in *.
  destruct (nearest_entry_total (length p) p [] (le_n _)) as [[ancestor rest] Hn]. rewrite Hn.
  apply nearest_entry_Some in Hn as ([k Hk] & mid & Heq & -> & _). rewrite app_nil_r.
  assert (Ha : physical ancestor).
  { intros q Hq. apply Hp. rewrite Heq. by apply prefix_app_r. }
  assert (Hc : canonicalize fs (at_location ancestor) = Some ancestor).
  { apply fs_fixed. pose proof (Ha ancestor (reflexivity _)) as Hl.
    destruct ancestor as [|n a] using rev_ind; [left; apply fs_root|]. clear IHa.
    unfold symlink_metadata in Hk. rewrite split_last_snoc in Hk.
    destruct (canonicalize fs (at_location a)) as [c|] eqn:Hca; [|done]. cbn [mbind option_bind] in Hk.
    assert (c = a) as ->.
    { apply physical_resolves; [|done]. intros q Hq. apply Ha. by apply prefix_app_r. }
    case_bool_decide; [|done]. rewrite Hk in Hl |- *. destruct k; naive_solver. }
  by rewrite Hc, Heq.
Qed.

Lemma under_true root p : under root p = true <-> root `prefix_of` p.
Proof. unfold under. by rewrite bool_decide_eq_true. Qed.
Lemma ensure_allowed_Ok scope self p q :
  ensure_allowed scope self p = Ok q -> q = p ∧ effective_root scope self `prefix_of` p.
Proof.
  unfold ensure_allowed. destruct (under _ p) eqn:Hu; [|done]. intros [= <-].
  by apply under_true in Hu.
Qed.

(** A path admitted for creation lies under the effective root, and no name on
    the way to it is a link, so a file written there is written there; the climb to
    an existing ancestor always ends; and a path without links under the root is
    admitted as its lexical normal form. *)
Theorem created_paths_stay_inside scope self raw :
  (∀ p, resolve_path_allow_create fs scope self raw = Ok p ->
     effective_root scope self `prefix_of` p ∧ physical p)
  ∧ (∀ path, resolve_path_allow_create fs scope self raw ≠ Err (PE_NoExistingAncestor path))
  ∧ let p := normalize_onto [] (join_path (effective_base fs scope self) raw) in
    physical p -> effective_root scope self `prefix_of` p ->
    resolve_path_allow_create fs scope self raw = Ok p.
Proof.
  unfold resolve_path_allow_create. split_and!.
  - intros p. destruct (normalize_for_creation fs _) as [q|e] eqn:Hn; [|done].
    intros [-> Hr]%ensure_allowed_Ok. split; [done|]. by eapply created_physical.
  - intros path. destruct (normalize_for_creation fs _) as [q|e] eqn:Hn.
    { unfold ensure_allowed. by destruct (under _ q). }
    intros [= ->]. unfold normalize_for_creation in Hn.
    destruct (nearest_entry_total _ (normalize_onto [] (join_path (effective_base fs scope self) raw)) []
                (le_n _)) as [[a r] Ha]. rewrite Ha in Hn.
    by destruct (canonicalize fs (at_location a)).
  - cbn zeta. intros Hp Hr. rewrite physical_created by done. unfold ensure_allowed.
    by rewrite (proj2 (under_true _ _) Hr).
Qed.

Lemma resolve_base_dir_inside root base : entry fs root = Some KDir ->
  root `prefix_of` resolve_base_dir fs root base ∧ entry fs (resolve_base_dir fs root base) = Some KDir.
Proof.
  intros Hroot. unfold resolve_base_dir. destruct base as [base|]; [|done].
  destruct (canonicalize fs base) as [c|] eqn:Hc; [|done].
  destruct (is_dir fs c && under root c) eqn:Hb; [|done]. bool_prop.
  split; [by apply under_true|]. unfold is_dir in *.
  rewrite (fs_fixed c) in H by (by eapply fs_canonical). by apply bool_decide_eq_true in H.
Qed.

Lemma resolved_inside scope self :
  entry fs (effective_root scope self) = Some KDir ->
  let inside p := effective_root scope self `prefix_of` p ∧ physical p in
  (∀ raw p, resolve_existing_file fs scope self raw = Ok p -> inside p ∧ entry fs p = Some KFile)
  ∧ (∀ raw p, resolve_existing_dir fs scope self raw = Ok p -> inside p ∧ entry fs p = Some KDir)
  ∧ (∀ raw, is_nil (trim raw) = true ->
       resolve_existing_dir fs scope self (Some raw) = Ok (effective_base fs scope self)).
Proof.
  intros Hroot. cbn zeta.
  assert (Hpath : ∀ raw p, resolve_path fs scope self raw = Ok p ->
    effective_root scope self `prefix_of` p ∧ (entry fs p = Some KDir ∨ entry fs p = Some KFile)).
  { intros raw p. unfold resolve_path. destruct (canonicalize fs _) as [c|] eqn:Hc; [|done].
    intros [-> Hr]%ensure_allowed_Ok. split; [done|]. by eapply fs_canonical. }
  assert (Hbase : effective_root scope self `prefix_of` effective_base fs scope self
    ∧ entry fs (effective_base fs scope self) = Some KDir).
  { unfold effective_base. destruct (ws_cwd scope); by apply resolve_base_dir_inside. }
  assert (Hkind : ∀ p, entry fs p = Some KDir ∨ entry fs p = Some KFile ->
    canonicalize fs (at_location p) ≫= entry fs = entry fs p).
  { intros p Hp. by rewrite (fs_fixed p Hp). }
  split_and!.
  - intros raw p. unfold resolve_existing_file.
    destruct (resolve_path fs scope self raw) as [q|e] eqn:Hq; [|done].
    apply Hpath in Hq as [Hr Hk]. unfold is_file. rewrite (Hkind q Hk).
    case_bool_decide as Hf; [|done]. intros [= <-].
    split_and!; [done|by apply existing_physical|done].
  - intros raw p. unfold resolve_existing_dir.
    assert (Hcase : ∀ q, match raw with
        | Some path => if is_nil (trim path) then Ok (effective_base fs scope self)
                       else resolve_path fs scope self path
        | None => Ok (effective_base fs scope self)
        end = Ok q -> effective_root scope self `prefix_of` q
                      ∧ (entry fs q = Some KDir ∨ entry fs q = Some KFile)).
    { intros q. destruct raw as [path|]; [destruct (is_nil (trim path))|].
      - intros [= <-]. naive_solver.
      - apply Hpath.
      - intros [= <-]. naive_solver. }
    destruct (match raw with Some _ => _ | None => _ end) as [q|e]; [|done].
    destruct (Hcase q eq_refl) as [Hr Hk]. unfold is_dir. rewrite (Hkind q Hk).
    case_bool_decide as Hf; [|done]. intros [= <-].
    split_and!; [done|by apply existing_physical|done].
  - intros raw Hraw. unfold resolve_existing_dir. rewrite Hraw. unfold is_dir.
    rewrite Hkind by (left; apply Hbase). by rewrite bool_decide_eq_true_2 by apply Hbase.
Qed.

(** A path resolved for reading, and the directory a command runs in, are
    existing entries under the effective root, reached without links; the directory
    defaults to the request's working directory when that lies under the root. *)
Theorem resolved_paths_stay_inside scope self :
  entry fs (effective_root scope self) = Some KDir ->
  let inside p := effective_root scope self `prefix_of` p ∧ physical p in
  (∀ raw p, resolve_existing_file fs scope self raw = Ok p -> inside p ∧ entry fs p = Some KFile)
  ∧ (∀ raw p, resolve_existing_dir fs scope self raw = Ok p -> inside p ∧ entry fs p = Some KDir)
  ∧ (∀ raw, is_nil (trim raw) = true ->
       resolve_existing_dir fs scope self (Some raw) = Ok (effective_base fs scope self)).
Proof. apply resolved_inside. Qed.

Lemma resolved_dirs_inside scope self : entry fs (effective_root scope self) = Some KDir ->
  ∀ raw p, resolve_existing_dir fs scope self raw = Ok p ->
  (effective_root scope self `prefix_of` p ∧ physical p) ∧ entry fs p = Some KDir.
Proof. intros Hroot. apply (resolved_inside scope self Hroot). Qed.

(** *** Configured roots *)

Lemma unresolvable_below p q : canonicalize fs (at_location p) = None ->
  canonicalize fs (at_location (p ++ q)) = None.
Proof.
  intros Hp. induction q as [|n q IH] using rev_ind; [by rewrite app_nil_r|].
  rewrite app_assoc, at_location_snoc.
  destruct (canonicalize fs (at_location (p ++ q) ++ [Normal n])) as [c|] eqn:E; [|done].
  destruct (fs_prefix _ _ _ E) as (d & Hd & _). congruence.
Qed.

Lemma canonical_prefix_stable path : Forall (λ c, c ≠ ParentDir) path ->
  ∀ resolved missing p c,
  (if missing : bool then canonicalize fs (at_location resolved) = None
   else canonicalize fs (at_location resolved) = Some resolved) ->
  canonical_prefix_from fs resolved missing path = Ok p ->
  canonicalize fs (at_location p) = Some c -> c = p.
Proof.
  induction 1 as [|[|n] path Hn _ IH]; intros resolved missing p c Hinv H Hc; cbn in H.
  - injection H as <-. destruct missing; congruence.
  - done.
  - destruct (negb missing && path_exists fs (at_location (resolved ++ [n]))) eqn:Hb.
    + destruct (canonicalize fs (at_location (resolved ++ [n]))) as [d|] eqn:Hd; [|done].
      bool_prop. subst missing. eapply (IH d false); [|done|done].
      apply fs_fixed. by eapply fs_canonical.
    + eapply (IH (resolved ++ [n]) true); [|done|done]. destruct missing; cbn in Hb.
      * by apply unresolvable_below.
      * apply bool_decide_eq_false in Hb. by apply eq_None_not_Some.
Qed.

(** A selection root without [..] that passes the comparison with the ceiling
    still lies under it when the tools resolve it: what was compared is what is
    used. *)
Theorem tool_root_stays_below_ceiling current_dir selection ceiling p c :
  Forall (λ x, x ≠ ParentDir) (join_path current_dir selection) ->
  resolve_effective_tool_root fs current_dir (Some selection) (Some ceiling) = Ok (Some p) ->
  canonicalize fs (at_location p) = Some c ->
  ∃ ceiling_root, resolve_configured_tool_root fs current_dir ceiling = Ok ceiling_root
    ∧ ceiling_root `prefix_of` c.
Proof.
  intros Hpar. unfold resolve_effective_tool_root.
  destruct (resolve_configured_tool_root fs current_dir selection) as [s|e] eqn:Hs; [|done].
  destruct (resolve_configured_tool_root fs current_dir ceiling) as [r|e]; [|done].
  destruct (under r s) eqn:Hu; [|done]. intros [= <-] Hc.
  exists r. split; [done|]. apply under_true in Hu. unfold resolve_configured_tool_root in Hs.
  rewrite (canonical_prefix_stable _ Hpar [] false s c (fs_fixed [] (or_introl fs_root)) Hs Hc).
  exact Hu.
Qed.
End confinement.

(** ** A file tree with a link out of the root *)

Definition demo_tree : tree :=
  {[ [lit "work"] := TDir;
     [lit "work"; lit "src"] := TDir;
     [lit "work"; lit "src"; lit "main.rs"] := TFile;
     [lit "work"; lit "out"] := TLink true [Normal (lit "etc")];
     [lit "work"; lit "here"] := TLink false [Normal (lit "src")];
     [lit "etc"] := TDir;
     [lit "etc"; lit "passwd"] := TFile ]}.
Definition demo_fs : FileSystem := tree_fs demo_tree.
Definition demo_context : ToolContext := mkContext [lit "work"] [lit "work"; lit "src"].
Definition no_scope : WorkspaceScope := mkScope None None.

Lemma demo_tree_wf : tree_wf demo_tree.
Proof. unfold tree_wf. apply (bool_decide_unpack _). vm_compute. exact I. Qed.

(** Reads through a link inside the root, refuses one that leads outside, and
    creates below a link only where the link leads. *)
Example demo_paths :
  resolve_existing_file demo_fs no_scope demo_context (lit "../here/main.rs")
    = Ok (lit <$> ["work"; "src"; "main.rs"]%string)
  ∧ resolve_existing_file demo_fs no_scope demo_context (lit "/work/out/passwd")
    = Err (PE_OutsideRoot [lit "work"] (lit <$> ["etc"; "passwd"]%string))
  ∧ resolve_path_allow_create demo_fs no_scope demo_context (lit "/work/here/new/lib.rs")
    = Ok (lit <$> ["work"; "src"; "new"; "lib.rs"]%string)
  ∧ resolve_path_allow_create demo_fs no_scope demo_context (lit "/work/out/new.conf")
    = Err (PE_OutsideRoot [lit "work"] (lit <$> ["etc"; "new.conf"]%string)).
Proof. vm_compute. split_and!; reflexivity. Qed.

Lemma created_paths_stay_inside_witness :
  resolve_path_allow_create demo_fs no_scope demo_context (lit "/work/here/new/lib.rs")
    = Ok (lit <$> ["work"; "src"; "new"; "lib.rs"]%string)
  ∧ physical demo_fs (lit <$> ["work"; "src"; "new"; "lib.rs"]%string).
Proof.
  assert (H : resolve_path_allow_create demo_fs no_scope demo_context (lit "/work/here/new/lib.rs")
    = Ok (lit <$> ["work"; "src"; "new"; "lib.rs"]%string)) by (vm_compute; reflexivity).
  split; [exact H|].
  exact (proj2 (proj1 (@created_paths_stay_inside demo_fs (tree_fs_laws demo_tree demo_tree_wf)
    no_scope demo_context (lit "/work/here/new/lib.rs")) _ H)).
Defined.

Lemma resolved_paths_stay_inside_witness :
  effective_root no_scope demo_context
    `prefix_of` (lit <$> ["work"; "src"; "main.rs"]%string).
Proof.
  assert (Hr : entry demo_fs (effective_root no_scope demo_context) = Some KDir) by (vm_compute; reflexivity).
  assert (H : resolve_existing_file demo_fs no_scope demo_context (lit "../here/main.rs")
    = Ok (lit <$> ["work"; "src"; "main.rs"]%string)) by (vm_compute; reflexivity).
  exact (proj1 (proj1 (proj1 (@resolved_paths_stay_inside demo_fs (tree_fs_laws demo_tree demo_tree_wf)
    no_scope demo_context Hr) _ _ H))).
Defined.

Lemma tool_root_stays_below_ceiling_witness :
  ∃ r, resolve_configured_tool_root demo_fs [] (lit "/work") = Ok r
    ∧ r `prefix_of` (lit <$> ["work"; "src"]%string).
Proof.
  apply (@tool_root_stays_below_ceiling demo_fs (tree_fs_laws demo_tree demo_tree_wf) []
    (lit "/work/here") (lit "/work") (lit <$> ["work"; "src"]%string)).
  - repeat constructor; discriminate.
  - vm_compute. reflexivity.
  - vm_compute. reflexivity.
Defined.

(** With [..] after a missing name the check is bypassed: the missing name turns
    canonicalization off for good, so a later link is compared by its own name and
    passes, while the tools resolve it and get a root outside the ceiling. *)
Theorem parent_after_missing_escapes_ceiling :
  let root := lit <$> ["work"; "out"]%string in
  resolve_effective_tool_root demo_fs [] (Some (lit "/work/missing/../out")) (Some (lit "/work"))
    = Ok (Some root)
  ∧ canonicalize demo_fs (at_location root) = Some [lit "etc"]
  ∧ under [lit "work"] [lit "etc"] = false
  ∧ resolve_effective_tool_root demo_fs [] (Some (lit "/work/out")) (Some (lit "/work"))
    = Err (PE_Escapes [lit "etc"] [lit "work"]).
Proof. vm_compute. split_and!; reflexivity. Qed.
