(* ===== verification/BashTool.v ===== *)
(** * Shell tools

    The two shell tools ([src/crates/gents/src/toolset/bash_tools.rs]) and the run
    of their commands ([run_command] of [toolset/shared/command.rs]): the policy in
    force, the working directory, the sandbox, the environment, the deadline, and
    the text the model gets back.

    Instants and durations are in nanoseconds, within the range of [chrono].
    Parameters: the platform, the file system, the daemon's environment, the
    process that runs (what [run_managed_exec] answers to a request),
    [from_utf8_lossy] and [serde_json]'s printing of the output, and the
    cancellation token and live-output writer, which are only handed on. *)

From S2P Require Import Prelude RustStr Messages ToolCall Denial ToolDispatch Truncation CommandPolicy ToolPaths.
Open Scope Z_scope.

Definition SECOND : Z := 1000000000.
Definition DAY : Z := 86400 * SECOND.

(** ** Timeouts *)

Definition BACKGROUND_COMMAND_TIMEOUT_SECS : Z := 36000.
Definition DEFAULT_MAX_COMMAND_CHARS : Z := 16000.
Definition resolve_command_timeout (requested_secs : option Z) (foreground_default foreground_max : Z)
    (background : bool) : Z :=
  if background then
    let budget := BACKGROUND_COMMAND_TIMEOUT_SECS * SECOND in
    match requested_secs with
    | Some secs => Z.min (Z.max secs 1 * SECOND) budget
    | None => budget
    end
  else
    let ceiling := Z.max foreground_max foreground_default in
    match requested_secs with
    | Some secs => Z.min (Z.max secs 1 * SECOND) ceiling
    | None => foreground_default
    end.

Record BashArgs : Type := mkBashArgs {
  ba_command : str;
  ba_args : list str;
  ba_cwd : option str;
  ba_timeout_secs : option Z;
  ba_raw_json : bool }.

(** ** Outcomes of a process *)

Definition bytes : Type := list Z.
Record KillReport : Type := mkKill {
  kr_pid : option Z; kr_term_signal_sent : bool; kr_kill_signal_sent : bool; kr_reaped : bool }.
Inductive ManagedExecOutcome : Type :=
| ME_Exited (code : option Z) (stdout stderr : bytes) (stdout_truncated stderr_truncated : bool)
| ME_TimedOut (stdout stderr : bytes) (stdout_truncated stderr_truncated : bool) (kill : KillReport)
| ME_Cancelled (stdout stderr : bytes) (stdout_truncated stderr_truncated : bool) (kill : KillReport)
| ME_SpawnFailed (error : str).

Record CommandMetadata : Type := mkMetadata {
  cm_ok : bool;
  cm_status : str;
  cm_command : str;
  cm_argv : list str;
  cm_cwd : str;
  cm_exit_code : option Z;
  cm_timed_out : bool;
  cm_duration_ms : Z;
  cm_timeout_ms : Z;
  cm_execution_mode : CommandExecutionMode;
  cm_network_mode : CommandNetworkMode;
  cm_sandbox : str;
  cm_stdout_capture_incomplete : bool;
  cm_stderr_capture_incomplete : bool;
  cm_stdout_truncation : StreamTruncationMetadata;
  cm_stderr_truncation : StreamTruncationMetadata }.
Record CommandOutput : Type := mkOutput {
  co_metadata : CommandMetadata; co_stdout : str; co_stderr : str }.

(** [x.as_millis().min(u64::MAX) as u64]. *)
Definition millis (duration : Z) : Z := Z.min (duration / 1000000) u64_max.

Definition OUTPUT_META_PREFIX : str := lit "gents_exec: ".
Definition or_empty (s : str) : str := if is_nil s then lit "(empty)" else s.

Section shell.
Context {Token Live : Type}.

Record CurrentToolRuntimeContext : Type := mkRuntime {
  rt_deadline_at : option Z;
  rt_cancellation_token : Token;
  rt_workspace_cwd : option (list Component);
  rt_workspace_root : option location;
  rt_workspace_authority : option WorkspaceAuthority;
  rt_session_id : option str;
  rt_live_output : option Live;
  rt_background : bool;
  rt_correlation : option str;
  rt_source_fields : gmap str str;
  rt_requester_did : option str;
  rt_agent_did : option str;
  rt_behavior_id : option str;
  rt_request_id : option str }.

Record ManagedExecRequest : Type := mkExecRequest {
  er_argv : list str;
  er_cwd : location;
  er_deadline_at : option Z;
  er_cancellation_token : Token;
  er_max_output_bytes : Z;
  er_stdin : bytes;
  er_environment : option (gmap str str);
  er_tool_name : option str;
  er_live_output : option Live }.

Record ToolExecutionBounds : Type := mkBounds {
  tb_deadline_at : option Z;
  tb_cancellation_token : Token;
  tb_live_output : option Live;
  tb_request_deadline_at : option Z }.

(** [chrono::Duration::from_std]: at most [i64::MAX] milliseconds. *)
Definition duration_from_std (d : Z) : option Z :=
  if d / 1000000 <=? i64_max then Some d else None.
(** [fresh] is [CancellationToken::default()]. *)
Definition tool_execution_bounds (runtime : option CurrentToolRuntimeContext) (fresh : Token) (now : Z)
    (command_timeout : Z) : ToolExecutionBounds :=
  let request_deadline := runtime ≫= rt_deadline_at in
  let command_deadline := now + default (36500 * DAY) (duration_from_std command_timeout) in
  mkBounds (Some (from_option (λ deadline, Z.min deadline command_deadline) command_deadline request_deadline))
    (from_option rt_cancellation_token fresh runtime)
    (runtime ≫= rt_live_output)
    request_deadline.

Definition scope_of (runtime : option CurrentToolRuntimeContext) : WorkspaceScope :=
  mkScope (runtime ≫= rt_workspace_root) (runtime ≫= rt_workspace_cwd).
Definition resolve_command_timeout_in_scope (runtime : option CurrentToolRuntimeContext)
    (requested_secs : option Z) (foreground_default foreground_max : Z) : Z :=
  resolve_command_timeout requested_secs foreground_default foreground_max
    (is_some_and rt_background runtime).

(** ** Running a command *)

Context (macos sandbox_exec_exists : bool) (fs : FileSystem).
(** [std::env::vars()] of the daemon. *)
Context (daemon_env : list (str * str)).
(** The display of an error of path resolution. *)
Context (path_error : PathError → str).
Context (from_utf8_lossy : bytes → str).
(** [serde_json::to_string] of an output, and of its metadata. *)
Context (print_output : CommandOutput → str) (print_metadata : CommandMetadata → str).

Definition render_command_output (output : CommandOutput) (raw_json : bool) : str :=
  if raw_json then print_output output
  else OUTPUT_META_PREFIX ++ print_metadata (co_metadata output)
       ++ [NL] ++ lit "stdout:" ++ [NL] ++ or_empty (co_stdout output)
       ++ [NL] ++ lit "stderr:" ++ [NL] ++ or_empty (co_stderr output).

Definition build_shell_env : gmap str str := build_shell_env_from_vars daemon_env.

(** What is handed to the process, with the policy and sandbox it runs under. *)
Record PreparedCommand : Type := mkPrepared {
  pc_request : ManagedExecRequest;
  pc_policy : CommandExecutionPolicy;
  pc_sandbox : str;
  pc_cwd : location;
  pc_request_deadline : option Z }.
Definition prepare_command (runtime : option CurrentToolRuntimeContext) (fresh : Token) (now : Z)
    (context : ToolContext) (tool_name command_name : str) (args : list str) (cwd : option str)
    (timeout : Z) (policy : CommandExecutionPolicy) : result ToolsetError PreparedCommand :=
  let policy := effective_command_policy (runtime ≫= rt_workspace_authority) policy in
  match resolve_existing_dir fs (scope_of runtime) context cwd with
  | Err error => Err (TS_Other (path_error error))
  | Ok cwd =>
      let root := effective_root (scope_of runtime) context in
      let? (program, command_args, sandbox) :=
        sandboxed_command_for_policy macos sandbox_exec_exists (display_location root) command_name args policy in
      let bounds := tool_execution_bounds runtime fresh now timeout in
      Ok (mkPrepared
            (mkExecRequest (program :: command_args) cwd (tb_deadline_at bounds)
               (tb_cancellation_token bounds) usize_max [] (Some build_shell_env) (Some tool_name)
               (tb_live_output bounds))
            policy sandbox cwd (tb_request_deadline_at bounds))
  end.

Definition command_output (runtime : option CurrentToolRuntimeContext) (context : ToolContext)
    (command_name : str) (args : list str) (timeout duration_ms : Z) (prepared : PreparedCommand)
    (exit_code : option Z) (timed_out : bool) (stdout stderr : bytes)
    (stdout_incomplete stderr_incomplete : bool) : CommandOutput :=
  let argv := command_name :: args in
  let '(stdout_text, stdout_truncation) := truncate_stream (from_utf8_lossy stdout) DEFAULT_MAX_COMMAND_CHARS in
  let '(stderr_text, stderr_truncation) := truncate_stream (from_utf8_lossy stderr) DEFAULT_MAX_COMMAND_CHARS in
  let success := bool_decide (exit_code = Some 0) in
  let status := if timed_out then lit "timeout" else if success then lit "success"
                else lit "exit_nonzero" in
  mkOutput
    (mkMetadata (negb timed_out && success) status (shell_join argv) argv (display_path fs (scope_of runtime) context (pc_cwd prepared))
       exit_code timed_out duration_ms (millis timeout) (cp_mode (pc_policy prepared))
       (cp_network_mode (pc_policy prepared)) (pc_sandbox prepared) stdout_incomplete stderr_incomplete
       stdout_truncation stderr_truncation)
    stdout_text stderr_text.

(** [elapsed_ms] is what the clock measured around the process, and [after] the
    instant its outcome is looked at. *)
Definition finish_command (runtime : option CurrentToolRuntimeContext) (context : ToolContext)
    (command_name : str) (args : list str) (timeout : Z) (raw_json : bool) (elapsed_ms after : Z)
    (prepared : PreparedCommand) (outcome : ManagedExecOutcome) : result ToolsetError str :=
  let finish exit_code timed_out stdout stderr so se :=
    let output := command_output runtime context command_name args timeout elapsed_ms prepared
                    exit_code timed_out stdout stderr so se in
    let rendered := render_command_output output raw_json in
    if cm_ok (co_metadata output) then Ok rendered
    else Err (TS_ReportedFailure (if timed_out then External else ToolReturnedError) rendered) in
  match outcome with
  | ME_Exited code stdout stderr so se => finish code false stdout stderr so se
  | ME_TimedOut stdout stderr so se _ =>
      if is_some_and (λ deadline, deadline <=? after) (pc_request_deadline prepared)
      then Ok (lit "command was stopped at the request deadline")
      else finish None true stdout stderr so se
  | ME_Cancelled _ _ _ _ _ => Ok (lit "command was cancelled")
  | ME_SpawnFailed error => Err (TS_Other (lit "spawning managed command failed: " ++ error))
  end.

(** [run_managed_exec], as what happens to a request: its outcome, the time it
    took, and the instant after it. *)
Context (run_managed_exec : ManagedExecRequest → ManagedExecOutcome * Z * Z).

Definition run_command (runtime : option CurrentToolRuntimeContext) (fresh : Token) (now : Z)
    (context : ToolContext) (tool_name command_name : str) (args : list str) (cwd : option str)
    (timeout : Z) (policy : CommandExecutionPolicy) (raw_json : bool) : result ToolsetError str :=
  let? prepared := prepare_command runtime fresh now context tool_name command_name args cwd timeout policy in
  let '(outcome, elapsed_ms, after) := run_managed_exec (pc_request prepared) in
  finish_command runtime context command_name args timeout raw_json elapsed_ms after prepared outcome.

(** ** The tools *)

Record BashTool : Type := mkBashTool {
  bt_context : ToolContext;
  bt_default_timeout : Z;
  bt_max_timeout : Z;
  bt_policy : CommandExecutionPolicy }.
(** [with_policy] of either tool. *)
Definition bash_tool_with_policy (context : ToolContext) (default_timeout max_timeout : Z)
    (policy : CommandExecutionPolicy) : BashTool :=
  mkBashTool context default_timeout (Z.max max_timeout default_timeout) policy.

Definition read_only_bash_call (runtime : option CurrentToolRuntimeContext) (fresh : Token) (now : Z)
    (self : BashTool) (args : BashArgs) : result ToolsetError str :=
  let policy := effective_command_policy (runtime ≫= rt_workspace_authority) (bt_policy self) in
  let? _ := validate_command_policy policy (ba_command args) (ba_args args) in
  run_command runtime fresh now (bt_context self) (lit "bash") (ba_command args) (ba_args args)
    (ba_cwd args)
    (resolve_command_timeout_in_scope runtime (ba_timeout_secs args) (bt_default_timeout self)
       (bt_max_timeout self))
    policy (ba_raw_json args).

(** A command without arguments is a script for the shell. *)
Definition unrestricted_argv (args : BashArgs) : str * list str :=
  if is_nil (ba_args args) then (lit "/bin/sh", [lit "-lc"; ba_command args])
  else (ba_command args, ba_args args).
Definition unrestricted_bash_call (runtime : option CurrentToolRuntimeContext) (fresh : Token) (now : Z)
    (self : BashTool) (args : BashArgs) : result ToolsetError str :=
  let '(command, command_args) := unrestricted_argv args in
  let policy := effective_command_policy (runtime ≫= rt_workspace_authority) (bt_policy self) in
  let? _ := validate_command_policy policy command command_args in
  run_command runtime fresh now (bt_context self) (lit "bash_unrestricted") command command_args
    (ba_cwd args)
    (resolve_command_timeout_in_scope runtime (ba_timeout_secs args) (bt_default_timeout self)
       (bt_max_timeout self))
    policy (ba_raw_json args).
(** [into_dispatch_error]. *)
Definition into_dispatch_error (to_string : Json → str) (error : ToolsetError) : ToolError :=
  match error with
  | TS_PolicyDenial denial => TE_ReportedFailure PolicyDenied (tool_error_payload macos to_string denial)
  | TS_ReportedFailure class text => TE_ReportedFailure class text
  | TS_Other error => TE_ToolCallError error
  end.
End shell.
Arguments CurrentToolRuntimeContext : clear implicits.
Arguments ManagedExecRequest : clear implicits.
Arguments PreparedCommand : clear implicits.

(** ** What is spawned *)

Lemma effective_policy_idemp authority policy :
  effective_command_policy authority (effective_command_policy authority policy)
  = effective_command_policy authority policy.
Proof.
  destruct authority as [authority|]; [|done]. cbn [effective_command_policy].
  unfold apply_workspace_authority.
  destruct policy as [[] allowed forbidden net [|a l] da []], authority; reflexivity.
Qed.

Lemma resolve_command_timeout_bounds requested d m background :
  SECOND <= d -> SECOND <= m ->
  SECOND <= resolve_command_timeout requested d m background
  ∧ resolve_command_timeout requested d m background
    <= (if background then BACKGROUND_COMMAND_TIMEOUT_SECS * SECOND else Z.max m d).
Proof.
  unfold resolve_command_timeout, BACKGROUND_COMMAND_TIMEOUT_SECS, SECOND.
  destruct background, requested; lia.
Qed.

Definition earlier (request : option Z) (command : Z) : Z :=
  from_option (λ deadline, Z.min deadline command) command request.
Lemma earlier_le request command : earlier request command <= command.
Proof. destruct request; cbn [earlier from_option]; unfold earlier; cbn; lia. Qed.

Lemma execution_deadline {Token Live} (runtime : option (CurrentToolRuntimeContext Token Live)) fresh now
    timeout :
  timeout / 1000000 <= i64_max ->
  tb_deadline_at (tool_execution_bounds runtime fresh now timeout)
  = Some (earlier (runtime ≫= rt_deadline_at) (now + timeout)).
Proof.
  intros Ht. unfold tool_execution_bounds, duration_from_std.
  by rewrite (proj2 (Z.leb_le _ _) Ht).
Qed.

Section spawned.
Context {Token Live : Type} (macos sandbox_exec_exists : bool) (fs : FileSystem) `{!FsLaws fs}.
Context (daemon_env : list (str * str)) (path_error : PathError → str) (from_utf8_lossy : bytes → str).
Context (print_output : CommandOutput → str) (print_metadata : CommandMetadata → str).
Context (run_managed_exec : ManagedExecRequest Token Live → ManagedExecOutcome * Z * Z).
Implicit Types runtime : option (CurrentToolRuntimeContext Token Live).

Local Abbreviation prepare_command := (prepare_command macos sandbox_exec_exists fs daemon_env path_error).
Local Abbreviation run_command := (run_command macos sandbox_exec_exists fs daemon_env path_error
  from_utf8_lossy print_output print_metadata run_managed_exec).
Local Abbreviation read_only_bash_call := (read_only_bash_call macos sandbox_exec_exists fs daemon_env
  path_error from_utf8_lossy print_output print_metadata run_managed_exec).
Local Abbreviation unrestricted_bash_call := (unrestricted_bash_call macos sandbox_exec_exists fs
  daemon_env path_error from_utf8_lossy print_output print_metadata run_managed_exec).

(** A shell tool's call up to the point where the process starts. *)
Definition shell_spawn runtime fresh now self (tool_name command : str) (command_args : list str)
    (args : BashArgs) : result ToolsetError (PreparedCommand Token Live) :=
  let policy := effective_command_policy (runtime ≫= rt_workspace_authority) (bt_policy self) in
  let? _ := validate_command_policy policy command command_args in
  prepare_command runtime fresh now (bt_context self) tool_name command command_args (ba_cwd args)
    (resolve_command_timeout_in_scope runtime (ba_timeout_secs args) (bt_default_timeout self)
       (bt_max_timeout self)) policy.
(** The rest of the call, from what the process did. *)
Definition shell_finish runtime self (command : str) (command_args : list str) (args : BashArgs)
    (prepared : PreparedCommand Token Live) : result ToolsetError str :=
  let '(outcome, elapsed_ms, after) := run_managed_exec (pc_request prepared) in
  finish_command fs from_utf8_lossy print_output print_metadata runtime (bt_context self) command
    command_args
    (resolve_command_timeout_in_scope runtime (ba_timeout_secs args) (bt_default_timeout self)
       (bt_max_timeout self)) (ba_raw_json args) elapsed_ms after prepared outcome.

Lemma call_spawns runtime fresh now self args :
  read_only_bash_call runtime fresh now self args
  = (let? prepared := shell_spawn runtime fresh now self (lit "bash") (ba_command args) (ba_args args) args in
     shell_finish runtime self (ba_command args) (ba_args args) args prepared)
  ∧ unrestricted_bash_call runtime fresh now self args
  = (let '(command, command_args) := unrestricted_argv args in
     let? prepared := shell_spawn runtime fresh now self (lit "bash_unrestricted") command command_args args in
     shell_finish runtime self command command_args args prepared).
Proof.
  split.
  - unfold BashTool.read_only_bash_call, shell_spawn, BashTool.run_command.
    destruct (validate_command_policy _ _ _); [|done]. by destruct (prepare_command _ _ _ _ _ _ _ _ _ _).
  - unfold BashTool.unrestricted_bash_call, shell_spawn, BashTool.run_command.
    destruct (unrestricted_argv args) as [command command_args].
    destruct (validate_command_policy _ _ _); [|done]. by destruct (prepare_command _ _ _ _ _ _ _ _ _ _).
Qed.

(** The argument vector of the process: the command itself, or the sandbox that
    confines its writes to the root. *)
Definition spawned_argv (policy : CommandExecutionPolicy) (root : location) (command : str)
    (command_args : list str) : list str :=
  match cp_mode policy with
  | WorkspaceWrite =>
      [SANDBOX_EXEC; lit "-p"; macos_workspace_write_policy (cp_network_mode policy);
       lit "-DWRITABLE_ROOT=" ++ display_location root; lit "--"; command] ++ command_args
  | _ => command :: command_args
  end.

Lemma sandboxed_command_Ok root command args policy program command_args sandbox :
  sandboxed_command_for_policy macos sandbox_exec_exists (display_location root) command args policy
  = Ok (program, command_args, sandbox) ->
  program :: command_args = spawned_argv policy root command args
  ∧ (cp_mode policy = WorkspaceWrite -> macos = true ∧ sandbox_exec_exists = true).
Proof.
  unfold sandboxed_command_for_policy, select_sandbox_for_execution, spawned_argv.
  destruct (cp_mode policy) eqn:Hm.
  - intros [= <- <- <-]. done.
  - unfold workspace_write_sandbox_enforced, sandboxed_workspace_write_command.
    destruct macos, sandbox_exec_exists; cbn [andb]; try done. intros [= <- <- <-]. done.
  - intros [= <- <- <-]. done.
Qed.

Lemma spawned_deadline runtime fresh now self tool_name command command_args args prepared :
  shell_spawn runtime fresh now self tool_name command command_args args = Ok prepared ->
  er_deadline_at (pc_request prepared)
  = tb_deadline_at (tool_execution_bounds runtime fresh now
      (resolve_command_timeout_in_scope runtime (ba_timeout_secs args) (bt_default_timeout self)
         (bt_max_timeout self))).
Proof.
  unfold shell_spawn, BashTool.prepare_command. cbn zeta.
  destruct (validate_command_policy _ _ _) as [[]|]; [|done].
  destruct (resolve_existing_dir _ _ _ _); [|done].
  destruct (sandboxed_command_for_policy _ _ _ _ _ _) as [[[program cargs] sandbox]|]; [|done].
  by intros [= <-].
Qed.


(** The process of a shell call always has a deadline: at most the operator's
    foreground ceiling away (ten hours for a call that was sent to the background),
    whatever timeout the model asked for, and at least a second away unless the
    request itself ends sooner. *)
Theorem command_lifetime_is_bounded runtime fresh now self tool_name command command_args args prepared :
  SECOND <= bt_default_timeout self -> SECOND <= bt_max_timeout self ->
  Z.max (bt_max_timeout self) (bt_default_timeout self) / 1000000 <= i64_max ->
  shell_spawn runtime fresh now self tool_name command command_args args = Ok prepared ->
  let limit := if is_some_and rt_background runtime then BACKGROUND_COMMAND_TIMEOUT_SECS * SECOND
               else Z.max (bt_max_timeout self) (bt_default_timeout self) in
  ∃ deadline, er_deadline_at (pc_request prepared) = Some deadline
    ∧ deadline <= now + limit
    ∧ (now + SECOND <= deadline ∨ runtime ≫= rt_deadline_at = Some deadline).
Proof.
  intros Hd Hm Hl Hs. cbn zeta.
  destruct (resolve_command_timeout_bounds (ba_timeout_secs args) _ _ (is_some_and rt_background runtime)
    Hd Hm) as [Hlow Hhigh].
  assert (Ht : resolve_command_timeout_in_scope runtime (ba_timeout_secs args) (bt_default_timeout self)
    (bt_max_timeout self) / 1000000 <= i64_max).
  { etrans; [apply Z.div_le_mono; [lia|exact Hhigh]|]. destruct (is_some_and _ _); [|done].
    by vm_compute. }
  rewrite (spawned_deadline _ _ _ _ _ _ _ _ _ Hs), execution_deadline by done. eexists.
  split; [reflexivity|]. unfold resolve_command_timeout_in_scope in *.
  split; [etrans; [apply earlier_le|lia]|]. destruct (runtime ≫= rt_deadline_at) as [d|]; unfold earlier; cbn [from_option].
  - destruct (Z.le_ge_cases d (now + resolve_command_timeout (ba_timeout_secs args)
      (bt_default_timeout self) (bt_max_timeout self) (is_some_and rt_background runtime))) as [H|H].
    + right. f_equal. lia.
    + left. lia.
  - left. lia.
Qed.
End spawned.

(** ** What the model is told *)

Section reported.
Context {Token Live : Type} (macos sandbox_exec_exists : bool) (fs : FileSystem).
Context (daemon_env : list (str * str)) (path_error : PathError → str) (from_utf8_lossy : bytes → str).
Context (print_output : CommandOutput → str) (print_metadata : CommandMetadata → str).
Context (run_managed_exec : ManagedExecRequest Token Live → ManagedExecOutcome * Z * Z).
Implicit Types runtime : option (CurrentToolRuntimeContext Token Live).

Local Abbreviation finish_command := (finish_command fs from_utf8_lossy print_output print_metadata).
Local Abbreviation read_only_bash_call := (read_only_bash_call macos sandbox_exec_exists fs daemon_env
  path_error from_utf8_lossy print_output print_metadata run_managed_exec).

(** A shell call succeeds only for a process that exited with code 0, except when
    the whole call was cancelled or stopped at the request's deadline; a command that
    overran its own timeout is an external failure, and every other exit a failure of
    the tool, both with the rendered output. *)
Theorem only_exit_zero_succeeds runtime context command args timeout raw elapsed after
    (prepared : PreparedCommand Token Live) outcome :
  match finish_command runtime context command args timeout raw elapsed after prepared outcome with
  | Ok text =>
      (∃ stdout stderr so se, outcome = ME_Exited (Some 0) stdout stderr so se
         ∧ ∃ output, text = render_command_output print_output print_metadata output raw
             ∧ cm_ok (co_metadata output) = true ∧ cm_status (co_metadata output) = lit "success")
      ∨ (∃ a b c d k, outcome = ME_Cancelled a b c d k)
      ∨ (∃ a b c d k deadline, outcome = ME_TimedOut a b c d k
           ∧ pc_request_deadline prepared = Some deadline ∧ deadline <= after)
  | Err (TS_ReportedFailure class text) =>
      (class = External ∧ (∃ a b c d k, outcome = ME_TimedOut a b c d k)
       ∨ class = ToolReturnedError
         ∧ (∃ code a b c d, outcome = ME_Exited code a b c d ∧ code ≠ Some 0))
      ∧ ∃ output, text = render_command_output print_output print_metadata output raw
          ∧ cm_ok (co_metadata output) = false ∧ cm_status (co_metadata output) ≠ lit "success"
  | Err (TS_Other _) => ∃ error, outcome = ME_SpawnFailed error
  | Err (TS_PolicyDenial _) => False
  end.
Proof.
  unfold finish_command, BashTool.finish_command. destruct outcome as [code so se a b|so se a b k|so se a b k|error].
  - unfold command_output. destruct (truncate_stream _ _) as [t1 m1], (truncate_stream _ _) as [t2 m2].
    cbn [co_metadata cm_ok negb andb]. case_bool_decide as Hz.
    + subst code. left. exists so, se, a, b. split; [done|]. eexists. split; [reflexivity|]. done.
    + split; [right; split; [done|]; by exists code, so, se, a, b|].
      eexists. split; [reflexivity|]. done.
  - destruct (pc_request_deadline prepared) as [deadline|] eqn:Hd; cbn [is_some_and].
    + destruct (deadline <=? after) eqn:Hl.
      { right; right. exists so, se, a, b, k, deadline. apply Z.leb_le in Hl. done. }
      unfold command_output. destruct (truncate_stream _ _) as [t1 m1], (truncate_stream _ _) as [t2 m2].
      cbn [co_metadata cm_ok negb andb]. split; [left; split; [done|]; by exists so, se, a, b, k|].
      eexists. split; [reflexivity|]. done.
    + unfold command_output. destruct (truncate_stream _ _) as [t1 m1], (truncate_stream _ _) as [t2 m2].
      cbn [co_metadata cm_ok negb andb]. split; [left; split; [done|]; by exists so, se, a, b, k|].
      eexists. split; [reflexivity|]. done.
  - right; left. by exists so, se, a, b, k.
  - by exists error.
Qed.

(** A command the policy denies is reported with the right class and payload text
    but without the structured denial: the tool hands the payload on as a reported
    failure, and the dispatcher reads denials back from call errors only. *)
Theorem shell_denials_lose_their_structure from_str to_string runtime fresh now self args denial :
  let policy := effective_command_policy (runtime ≫= rt_workspace_authority) (bt_policy self) in
  validate_command_policy policy (ba_command args) (ba_args args) = Err (TS_PolicyDenial denial) ->
  let call := match read_only_bash_call runtime fresh now self args with
              | Ok text => Ok text
              | Err error => Err (into_dispatch_error macos to_string error)
              end in
  from_dispatch from_str (lit "bash") call
  = TO_Failed PolicyDenied None (tool_error_payload macos to_string denial).
Proof. cbn zeta. intros H. unfold BashTool.read_only_bash_call. by rewrite H. Qed.
End reported.

(** ** Runs *)

Definition demo_tool : BashTool :=
  bash_tool_with_policy demo_context (120 * SECOND) (120 * SECOND) default_read_only_command_policy.
Definition demo_args : BashArgs := mkBashArgs (lit "cat") [lit "main.rs"] (Some (lit "/work/here")) None false.
Definition demo_daemon_env : list (str * str) :=
  [(lit "PATH", lit "/bin"); (lit "OPENAI_API_KEY", lit "sk")].


Lemma command_lifetime_is_bounded_witness :
  ∃ prepared deadline,
  shell_spawn (Token := unit) (Live := unit) false false demo_fs [] (λ _, []) None tt 0 demo_tool
    (lit "bash") (lit "cat") [lit "main.rs"] demo_args = Ok prepared
  ∧ er_deadline_at (pc_request prepared) = Some deadline ∧ deadline <= 120 * SECOND.
Proof.
  eexists.
  destruct (command_lifetime_is_bounded (Token := unit) (Live := unit) false false demo_fs [] (λ _, []) None tt 0
    demo_tool (lit "bash") (lit "cat") [lit "main.rs"] demo_args
    ltac:(match eval vm_compute in (shell_spawn (Token := unit) (Live := unit) false false demo_fs [] (λ _, [])
            None tt 0 demo_tool (lit "bash") (lit "cat") [lit "main.rs"] demo_args)
          with Ok ?p => exact p end)
    ltac:(vm_compute; discriminate) ltac:(vm_compute; discriminate) ltac:(vm_compute; discriminate)
    ltac:(vm_compute; reflexivity)) as (deadline & Hd & Hb & _).
  exists deadline. split; [vm_compute; reflexivity|]. split; [exact Hd|exact Hb].
Defined.

Lemma shell_denials_lose_their_structure_witness :
  let args := mkBashArgs (lit "rm") [lit "-rf"; lit "/"] None None false in
  ∃ text, from_dispatch (λ _, None) (lit "bash")
    (match read_only_bash_call (Token := unit) (Live := unit) false false demo_fs [] (λ _, []) (λ _, [])
             (λ _, []) (λ _, []) (λ _, (ME_SpawnFailed [], 0, 0)) None tt 0 demo_tool args with
     | Ok text => Ok text
     | Err error => Err (into_dispatch_error false (λ _, []) error)
     end) = TO_Failed PolicyDenied None text.
Proof.
  eexists.
  exact (shell_denials_lose_their_structure false false demo_fs [] (λ _, []) (λ _, []) (λ _, []) (λ _, [])
    (λ _, (ME_SpawnFailed [], 0, 0)) (λ _, None) (λ _, []) None tt 0 demo_tool
    (mkBashArgs (lit "rm") [lit "-rf"; lit "/"] None None false)
    (CommandPolicyDenial_new (ReadOnlyCommandNotAllowlisted (lit "rm")) ReadOnly Inherit)
    ltac:(vm_compute; reflexivity)).
Defined.
