(* ===== verification/EditMatch.v ===== *)
(** * The edit matcher

    The pure decision of the [edit_file] tool (toolset/edit_match.rs): line endings
    and byte-order mark are normalised away and restored, an edit is located by a
    ladder of matchers (the exact text, then windows of lines compared without
    trailing whitespace, without surrounding whitespace, and after folding Unicode
    punctuation), more than one site is refused unless every site is meant, and the
    result comes with a diff.  Regular expressions are those of the [regex] crate and
    enter as a parameter.

    The theorems describe every outcome of the ladder by what it means for the text,
    show that drift in whitespace does not change what an edit does, that
    normalisation loses nothing exactly for files with one kind of line ending, and
    that the distance behind the hint for a missing text is the edit distance. *)

From S2P Require Import Prelude RustStr Float64 HistorySplit Compaction CommandPolicy.
Open Scope Z_scope.

Inductive Strategy : Type := Exact | TrailingWs | Trim | Unicode | Regex.
#[global] Instance Strategy_eq_dec : EqDecision Strategy.
Proof. solve_decision. Defined.
Definition edit_strategy_as_str (s : Strategy) : str :=
  match s with
  | Exact => lit "exact"
  | TrailingWs => lit "trailing_whitespace"
  | Trim => lit "trim"
  | Unicode => lit "unicode"
  | Regex => lit "regex"
  end.
Inductive Operation : Type := Op_Replace | Op_InsertAfter | Op_InsertBefore | Op_Delete.
Inductive MatchMode : Type := MM_Ladder | MM_Regex.
Record EditRequest : Type := mkEdit {
  ed_old_text : str;
  ed_new_text : str;
  ed_replace_all : bool;
  ed_operation : Operation;
  ed_match_mode : MatchMode }.
Record ClosestMatch : Type := mkClosest {
  cl_line : Z; cl_similarity_pct : Z; cl_first_diff : option (str * str) }.
Record OccurrencePreview : Type := mkPreview { op_line : Z; op_text : str }.
Inductive EditOutcome : Type :=
  | Applied (result : str) (strategy : Strategy) (replacements first_changed_line : Z) (diff : str)
  | NotFound (closest : option ClosestMatch)
  | Ambiguous (strategy : Strategy) (count : Z) (previews : list OccurrencePreview)
  | Noop (strategy : Strategy)
  | InvalidRegex (error : str).
Inductive LineEnding : Type := Lf | CrLf.
Record NormalizedContent : Type := mkNormalized {
  nc_text : str; nc_ending : LineEnding; nc_had_bom : bool }.

(** [lines[i]], and [first().unwrap_or_default()]. *)
Definition line_at (lines : list str) (i : nat) : str := match lines !! i with Some l => l | None => [] end.
Definition first_line (lines : list str) : str := match lines with l :: _ => l | [] => [] end.

(** ** Line endings *)

Definition BOM : char := 65279.
Definition CRLF : str := [CR; NL].
Definition count_matches (needle s : str) : nat := length (match_prefixes needle s).
Definition split_bom (raw : str) : bool * str :=
  match strip_prefix [BOM] raw with Some rest => (true, rest) | None => (false, raw) end.
Definition normalize_content (raw : str) : NormalizedContent :=
  let '(had_bom, rest) := split_bom raw in
  let crlf := count_matches CRLF rest in
  let lf_total := count_matches [NL] rest in
  let ending := if (0 <? crlf)%nat && (lf_total <=? crlf * 2)%nat then CrLf else Lf in
  mkNormalized (replace_all_in CRLF [NL] rest) ending had_bom.
Definition restore_content (text : str) (ending : LineEnding) (had_bom : bool) : str :=
  let body := match ending with Lf => text | CrLf => replace_all_in [NL] CRLF text end in
  if had_bom then BOM :: body else body.

(** ** Diffs *)

Definition DIFF_CONTEXT : nat := 2.
Fixpoint common_prefix (old new : list str) : nat :=
  match old, new with
  | a :: old, b :: new => if str_eqb a b then S (common_prefix old new) else 0
  | _, _ => 0
  end.
(** [{:>5}]: padded on the left to five characters. *)
Definition pad5 (n : Z) : str :=
  let text := fmt_Z n in repeat 32 (5 - length text) ++ text.
Definition diff_line (mark : char) (idx : nat) (line : str) : str :=
  [mark] ++ pad5 (Z.of_nat idx + 1) ++ lit " | " ++ line ++ [NL].
(** The lines with their index, from [lo] up to [hi]. *)
Definition diff_lines (mark : char) (lines : list str) (lo hi : nat) : str :=
  mjoin (imap (λ k line, diff_line mark (lo + k) line) (drop lo (take hi lines))).
Definition render_diff (original result : str) : str :=
  let old := split_on NL original in
  let new := split_on NL result in
  let prefix_len := common_prefix old new in
  let suffix_len := common_prefix (rev (drop prefix_len old)) (rev (drop prefix_len new)) in
  let ctx_start := (prefix_len - DIFF_CONTEXT)%nat in
  let ctx_end := ((length old - suffix_len + DIFF_CONTEXT) `min` length old)%nat in
  trim_end (lit "@@ line " ++ fmt_Z (Z.of_nat ctx_start + 1) ++ [NL]
    ++ diff_lines 32 old ctx_start prefix_len
    ++ diff_lines 45 old prefix_len (length old - suffix_len)
    ++ diff_lines 43 new prefix_len (length new - suffix_len)
    ++ diff_lines 32 old (length old - suffix_len) ctx_end).

Fixpoint first_difference (old new : list str) : option nat :=
  match old, new with
  | a :: old, b :: new => if str_eqb a b then S <$> first_difference old new else Some 0%nat
  | _, _ => None
  end.
Definition finish_edit (original result : str) (strategy : Strategy) (replacements : Z) : EditOutcome :=
  if str_eqb result original then Noop strategy
  else
    let old := split_on NL original in
    let new := split_on NL result in
    let first_changed_line :=
      match first_difference old new with
      | Some i => Z.of_nat i + 1
      | None => Z.of_nat (length old `min` length new)
      end in
    Applied result strategy replacements first_changed_line (render_diff original result).

(** ** Hints for a text that is not there *)

(** One row of the table: [prev] holds the distances of the characters read so far,
    from [prev[j]] on, and [left] the entry just computed. *)
Fixpoint lev_cells (ca : char) (prev : list Z) (left : Z) (b : str) : list Z :=
  match prev, b with
  | diag :: ((up :: _) as prev), cb :: b =>
      let cost := if ca =? cb then 0 else 1 in
      let cell := Z.min (Z.min (diag + cost) (up + 1)) (left + 1) in
      cell :: lev_cells ca prev cell b
  | _, _ => []
  end.
Fixpoint lev_rows (i : Z) (a b : str) (prev : list Z) : list Z :=
  match a with
  | [] => prev
  | ca :: a => lev_rows (i + 1) a b ((i + 1) :: lev_cells ca prev (i + 1) b)
  end.
Definition levenshtein (a b : str) : Z :=
  if is_nil a then Z.of_nat (length b)
  else default 0 (list.last (lev_rows 0 a b (Z.of_nat <$> seq 0 (S (length b))))).
Definition similarity (a b : str) : f64 :=
  let max := Z.max (Z.of_nat (length a)) (Z.of_nat (length b)) in
  if max =? 0 then f64_of_Z 1
  else f64_sub (f64_of_Z 1) (f64_div (f64_of_Z (levenshtein a b)) (f64_of_Z max)).

Definition MAX_CLOSEST_WINDOWS : nat := N.to_nat 20000.
Definition window_score (content_lines pattern_lines : list str) (i : nat) : f64 :=
  f64_div (foldl f64_add (f64_of_Z 0)
             (imap (λ k p, similarity (trim (line_at content_lines (i + k))) (trim p))
                pattern_lines))
          (f64_of_Z (Z.of_nat (length pattern_lines))).
Definition better (score : nat → f64) (best : option (nat * f64)) (i : nat) : option (nat * f64) :=
  match best with
  | Some (_, b) => if f64_gt (score i) b then Some (i, score i) else best
  | None => Some (i, score i)
  end.
Fixpoint first_differing (content_lines pattern_lines : list str) : option (str * str) :=
  match content_lines, pattern_lines with
  | file_line :: content_lines, p :: pattern_lines =>
      if negb (str_eqb (trim file_line) (trim p)) then Some (p, file_line)
      else first_differing content_lines pattern_lines
  | _, _ => None
  end.
Definition closest_match (content_lines pattern_lines : list str) : option ClosestMatch :=
  if is_nil pattern_lines || (length content_lines <? length pattern_lines)%nat then None
  else
    let windows := ((length content_lines - length pattern_lines + 1) `min` MAX_CLOSEST_WINDOWS)%nat in
    '(i, score) ← foldl (better (window_score content_lines pattern_lines)) None (seq 0 windows);
    Some (mkClosest (Z.of_nat i + 1)
            (f64_as_unsigned 255 (f64_clamp (f64_of_Z 0) (f64_of_Z 100) (f64_round (f64_mul score (f64_of_Z 100)))))
            (first_differing (drop i content_lines) pattern_lines)).

(** ** The ladder *)

Definition normalize_unicode (line : str) : str :=
  (λ c, let within lo hi := (lo <=? c) && (c <=? hi) in
        if within 8208 8213 || (c =? 8722) then 45
        else if within 8216 8219 then 39
        else if within 8220 8223 then 34
        else if (c =? 160) || within 8194 8202 || (c =? 8239) || (c =? 8287) || (c =? 12288) then 32
        else c) <$> line.
Definition line_matches (strategy : Strategy) (file_line pattern_line : str) : bool :=
  match strategy with
  | Exact | Regex => str_eqb file_line pattern_line
  | TrailingWs => str_eqb (trim_end file_line) (trim_end pattern_line)
  | Trim => str_eqb (trim file_line) (trim pattern_line)
  | Unicode => str_eqb (normalize_unicode (trim file_line)) (normalize_unicode (trim pattern_line))
  end.

(** Do the lines from here on start with a window of the pattern? *)
Fixpoint window_matches (strategy : Strategy) (lines pattern_lines : list str) {struct pattern_lines} : bool :=
  match pattern_lines, lines with
  | [], _ => true
  | p :: pattern_lines, l :: lines => line_matches strategy l p && window_matches strategy lines pattern_lines
  | _ :: _, [] => false
  end.
(** The loop over [fuel] positions from [i], where [next_free] is the first line
    after the last window taken. *)
Fixpoint occurrences_from (strategy : Strategy) (content_lines pattern_lines : list str)
    (i next_free fuel : nat) : list nat :=
  match fuel with
  | O => []
  | S fuel =>
      if (i <? next_free)%nat
      then occurrences_from strategy content_lines pattern_lines (S i) next_free fuel
      else if window_matches strategy (drop i content_lines) pattern_lines
      then i :: occurrences_from strategy content_lines pattern_lines (S i) (i + length pattern_lines) fuel
      else occurrences_from strategy content_lines pattern_lines (S i) next_free fuel
  end.
Definition window_occurrences (content_lines pattern_lines : list str) (strategy : Strategy) : list nat :=
  if is_nil pattern_lines || (length content_lines <? length pattern_lines)%nat then []
  else occurrences_from strategy content_lines pattern_lines 0 0
         (length content_lines - length pattern_lines + 1).

Definition leading_whitespace (line : str) : str :=
  take (length line - length (trim_start line)) line.
Definition reindent_replacement (replacement_lines : list str) (strategy : Strategy)
    (matched_first pattern_first : str) : list str :=
  match strategy with
  | Trim | Unicode =>
      let matched_lead := leading_whitespace matched_first in
      let pattern_lead := leading_whitespace pattern_first in
      (λ l, match strip_prefix pattern_lead l with
            | Some rest => matched_lead ++ rest
            | None => l
            end) <$> replacement_lines
  | _ => replacement_lines
  end.
(** [last_mut().push_str(following)]. *)
Fixpoint push_to_last (lines : list str) (following : str) : list str :=
  match lines with
  | [] => []
  | [l] => [l ++ following]
  | l :: lines => l :: push_to_last lines following
  end.
(** One step of the loop of [splice_windows]. *)
Definition splice_window (content_lines pattern_lines replacement_lines : list str) (strategy : Strategy)
    (merge_tail : bool) (i : nat) (lines : list str) : list str :=
  let repl_lines := reindent_replacement replacement_lines strategy (line_at content_lines i)
                      (first_line pattern_lines) in
  let stop := (i + length pattern_lines)%nat in
  match lines !! stop with
  | Some following =>
      if merge_tail && negb (is_nil repl_lines)
      then take i lines ++ push_to_last repl_lines following ++ drop (stop + 1) lines
      else take i lines ++ repl_lines ++ drop stop lines
  | None => take i lines ++ repl_lines ++ drop stop lines
  end.
(** The windows are spliced from the last one back. *)
Definition splice_windows (content_lines pattern_lines replacement_lines : list str) (strategy : Strategy)
    (occ : list nat) (merge_tail : bool) : str :=
  join [NL] (foldr (splice_window content_lines pattern_lines replacement_lines strategy merge_tail)
               content_lines occ).

(** The pattern and replacement as lines, and whether the last line of the
    replacement runs into the line after the window. *)
Definition ladder_lines (pattern replacement : str) : list str * list str * bool :=
  let pattern_lines := split_on NL pattern in
  let replacement_lines := split_on NL replacement in
  if (1 <? length pattern_lines)%nat && bool_decide (list.last pattern_lines = Some []) then
    if bool_decide (list.last replacement_lines = Some [])
    then (removelast pattern_lines, removelast replacement_lines, false)
    else (removelast pattern_lines, replacement_lines, true)
  else (pattern_lines, replacement_lines, false).

Definition line_at_offset (before after : str) : str :=
  (match rsplit_once NL before with Some (_, l) => l | None => before end)
  ++ (match split_once NL after with Some (l, _) => l | None => after end).
Definition exact_preview (content before : str) : OccurrencePreview :=
  mkPreview (1 + count_char NL before) (line_at_offset before (drop (length before) content)).
Definition window_preview (content_lines : list str) (i : nat) : OccurrencePreview :=
  mkPreview (Z.of_nat i + 1) (line_at content_lines i).

(** The line passes, in the order given. *)
Fixpoint decide_passes (content : str) (content_lines pattern_lines replacement_lines : list str)
    (merge_tail replace_all : bool) (passes : list Strategy) : EditOutcome :=
  match passes with
  | [] => NotFound (closest_match content_lines pattern_lines)
  | strategy :: passes =>
      let occ := window_occurrences content_lines pattern_lines strategy in
      if is_nil occ
      then decide_passes content content_lines pattern_lines replacement_lines merge_tail replace_all passes
      else if (1 <? length occ)%nat && negb replace_all
      then Ambiguous strategy (Z.of_nat (length occ)) (window_preview content_lines <$> take 5 occ)
      else finish_edit content
             (splice_windows content_lines pattern_lines replacement_lines strategy occ merge_tail)
             strategy (Z.of_nat (length occ))
  end.
Definition decide_ladder (content pattern replacement : str) (replace_all : bool) : EditOutcome :=
  let exact := match_prefixes pattern content in
  if negb (is_nil exact) then
    if (1 <? length exact)%nat && negb replace_all
    then Ambiguous Exact (Z.of_nat (length exact)) (exact_preview content <$> take 5 exact)
    else
      let result := if replace_all then replace_all_in pattern replacement content
                    else replace_first pattern replacement content in
      finish_edit content result Exact (Z.of_nat (length exact))
  else
    let '(pattern_lines, replacement_lines, merge_tail) := ladder_lines pattern replacement in
    decide_passes content (split_on NL content) pattern_lines replacement_lines merge_tail replace_all
      [TrailingWs; Trim; Unicode].

Definition desugar (req : EditRequest) : str * str :=
  match ed_operation req with
  | Op_Replace => (ed_old_text req, ed_new_text req)
  | Op_InsertAfter => (ed_old_text req, ed_old_text req ++ ed_new_text req)
  | Op_InsertBefore => (ed_old_text req, ed_new_text req ++ ed_old_text req)
  | Op_Delete => (ed_old_text req, [])
  end.

(** ** Regular expressions *)

(** One match: the text since the previous match, the text matched, and the captures
    a template is expanded with. *)
Record RegexMatch (Captures : Type) : Type := mkMatch {
  rm_gap : str; rm_text : str; rm_captures : Captures }.
Arguments mkMatch {_} _ _ _.
Arguments rm_gap {_} _.
Arguments rm_text {_} _.
Arguments rm_captures {_} _.

Section regex.
Context {Captures : Type}.
(** The matches of a pattern in a text with the text after the last one
    ([find_iter], [captures_iter]), or why the pattern does not compile. *)
Context (regex_matches : str → str → result str (list (RegexMatch Captures) * str)).
(** [Captures::expand]. *)
Context (expand : Captures → str → str).

Definition render_match (operation : Operation) (new_text : str) (m : RegexMatch Captures) : str :=
  let expanded := expand (rm_captures m) new_text in
  match operation with
  | Op_Replace => expanded
  | Op_InsertAfter => rm_text m ++ expanded
  | Op_InsertBefore => expanded ++ rm_text m
  | Op_Delete => []
  end.
(** [replacen]: the first [limit] matches are replaced, all of them for none. *)
Definition replace_matches (limit : option nat) (render : RegexMatch Captures → str)
    (matches : list (RegexMatch Captures)) (tail : str) : str :=
  let replaced := match limit with Some n => take n matches | None => matches end in
  let kept := match limit with Some n => drop n matches | None => [] end in
  mjoin ((λ m, rm_gap m ++ render m) <$> replaced) ++ mjoin ((λ m, rm_gap m ++ rm_text m) <$> kept) ++ tail.
(** The text before each match. *)
Fixpoint match_starts (before : str) (matches : list (RegexMatch Captures)) : list (str * RegexMatch Captures) :=
  match matches with
  | [] => []
  | m :: matches => (before ++ rm_gap m, m) :: match_starts (before ++ rm_gap m ++ rm_text m) matches
  end.
(** At most 120 bytes of the match, cut between characters. *)
Definition regex_preview (start : str * RegexMatch Captures) : OccurrencePreview :=
  mkPreview (1 + count_char NL (fst start)) (floor_prefix (rm_text (snd start)) 120).
Definition decide_regex (content pattern new_text : str) (replace_all : bool) (operation : Operation)
    : EditOutcome :=
  match regex_matches pattern content with
  | Err error => InvalidRegex error
  | Ok (matches, tail) =>
      let count := length matches in
      if (count =? 0)%nat then NotFound None
      else if (1 <? count)%nat && negb replace_all
      then Ambiguous Regex (Z.of_nat count) (regex_preview <$> take 5 (match_starts [] matches))
      else
        let limit := if replace_all then None else Some 1%nat in
        finish_edit content (replace_matches limit (render_match operation new_text) matches tail) Regex
          (Z.of_nat (count `max` 1))
  end.

Definition decide_edit (content : str) (req : EditRequest) : EditOutcome :=
  if is_nil (ed_old_text req) then NotFound None
  else match ed_match_mode req with
  | MM_Regex => decide_regex content (ed_old_text req) (ed_new_text req) (ed_replace_all req) (ed_operation req)
  | MM_Ladder =>
      let '(pattern, replacement) := desugar req in
      decide_ladder content pattern replacement (ed_replace_all req)
  end.
End regex.

(** ** Exact sites *)

Lemma contains_false needle s : contains needle s = false <-> ∀ a b, s ≠ a ++ needle ++ b.
Proof.
  unfold contains. rewrite <- find_split_None. by destruct (find_split needle s).
Qed.

(** [find] returns the first occurrence. *)
Lemma find_split_first needle s a b :
  find_split needle s = Some (a, b) -> ∀ x y, a ++ needle ≠ x ++ needle ++ y ∨ y = [].
Proof.
  revert a b. induction s as [|c s IH]; intros a b H x y; cbn [find_split] in H.
  - destruct (strip_prefix needle []) eqn:E; [|done]. injection H as <- <-.
    destruct y as [|y0 y]; [by right|left]. intros Heq. apply (f_equal length) in Heq.
    rewrite !length_app in Heq. cbn in Heq. lia.
  - destruct (strip_prefix needle (c :: s)) eqn:E.
    + injection H as <- <-. destruct y as [|y0 y]; [by right|left]. intros Heq. apply (f_equal length) in Heq.
      rewrite !length_app in Heq. cbn in Heq. lia.
    + destruct (find_split needle s) as [[a' b']|] eqn:Hf; [|done]. injection H as <- <-.
      destruct x as [|x0 x].
      * left. intros Heq. apply find_split_Some in Hf. subst s.
        assert (Hs : strip_prefix needle (c :: a' ++ needle ++ b') = Some (y ++ b')).
        { apply strip_prefix_Some. change (c :: a' ++ needle ++ b') with ((c :: a') ++ needle ++ b').
          rewrite (app_assoc (c :: a')), Heq. cbn [app]. by rewrite <- app_assoc. }
        congruence.
      * destruct (IH a' b' eq_refl x y) as [Hne| ->]; [left|by right]. cbn [app]. congruence.
Qed.
Lemma find_split_before needle s a b :
  needle ≠ [] -> find_split needle s = Some (a, b) -> contains needle a = false.
Proof.
  intros Hn H. apply contains_false. intros x y ->.
  destruct (find_split_first _ _ _ _ H x (y ++ needle)) as [Hne|He].
  - apply Hne. by rewrite <- !app_assoc.
  - apply app_eq_nil in He as [_ ?]. done.
Qed.

Lemma match_pieces_nonempty fuel needle s : match_pieces fuel needle s ≠ [].
Proof. destruct fuel; cbn; [done|]. by destruct (find_split needle s) as [[]|]. Qed.
Lemma join_match_pieces needle fuel : ∀ s, join needle (match_pieces fuel needle s) = s.
Proof.
  induction fuel as [|fuel IH]; intros s; [done|]. cbn [match_pieces].
  destruct (find_split needle s) as [[a b]|] eqn:H; [|done].
  rewrite join_cons by apply match_pieces_nonempty. rewrite IH. by apply find_split_Some in H.
Qed.
Lemma match_pieces_free needle fuel : needle ≠ [] -> ∀ s, (length s <= fuel)%nat ->
  Forall (λ p, contains needle p = false) (match_pieces fuel needle s).
Proof.
  intros Hn. induction fuel as [|fuel IH]; intros s Hl; cbn [match_pieces].
  - destruct s; [|cbn in Hl; lia]. repeat constructor. apply contains_false. intros a b H.
    symmetry in H. apply app_nil in H as [_ [? _]%app_nil]. done.
  - destruct (find_split needle s) as [[a b]|] eqn:H.
    + constructor; [by eapply find_split_before|]. apply IH. apply find_split_Some in H. subst s.
      rewrite !length_app in Hl. destruct needle; [done|]. cbn in Hl. lia.
    + repeat constructor. unfold contains. by rewrite H.
Qed.
Lemma join_pieces needle s : join needle (pieces needle s) = s.
Proof. apply join_match_pieces. Qed.
Lemma pieces_free needle s : needle ≠ [] -> Forall (λ p, contains needle p = false) (pieces needle s).
Proof. intros Hn. by apply match_pieces_free. Qed.
Lemma length_prefixes_from needle ps : ∀ acc, length (prefixes_from acc needle ps) = (length ps - 1)%nat.
Proof.
  induction ps as [|p [|q ps] IH]; intros acc; [done|done|]. cbn [prefixes_from].
  change (S (length (prefixes_from (acc ++ p ++ needle) needle (q :: ps))) = (length (p :: q :: ps) - 1)%nat).
  rewrite IH. cbn [length]. lia.
Qed.
Lemma length_pieces needle s : length (pieces needle s) = S (length (match_prefixes needle s)).
Proof.
  unfold match_prefixes. rewrite length_prefixes_from. pose proof (match_pieces_nonempty (length s) needle s).
  unfold pieces. destruct (match_pieces _ _ _); [done|]. cbn [length]. lia.
Qed.
(** With one occurrence, replacing the first replaces all. *)
Lemma replace_first_one needle by_ s :
  length (match_prefixes needle s) = 1%nat -> replace_first needle by_ s = replace_all_in needle by_ s.
Proof.
  intros H. pose proof (length_pieces needle s) as Hp. rewrite H in Hp. clear H.
  unfold replace_first, replace_all_in, pieces in *. destruct (length s) as [|fuel]; [done|].
  cbn [match_pieces] in *. destruct (find_split needle s) as [[a b]|]; [|done].
  injection Hp as Hp. pose proof (join_match_pieces needle fuel b) as Hj.
  destruct (match_pieces fuel needle b) as [|x []]; [done| |done]. cbn in Hj. by subst x.
Qed.

(** ** Line windows *)

Definition window (strategy : Strategy) (w pattern_lines : list str) : Prop :=
  Forall2 (λ l p, line_matches strategy l p = true) w pattern_lines.
(** The last line of a replacement runs into the line that follows the window. *)
Definition merge_into (merge_tail : bool) (repl_lines rest : list str) : list str :=
  match rest with
  | following :: rest' =>
      if merge_tail && negb (is_nil repl_lines) then push_to_last repl_lines following ++ rest'
      else repl_lines ++ rest
  | [] => repl_lines
  end.

(** [rewritten n lines lines']: some [n] disjoint windows of [lines] match the pattern
    and are replaced in [lines'], everything else is kept. *)
Section rewritten.
Context (strategy : Strategy) (pattern_lines replacement_lines : list str) (merge_tail : bool).
Inductive rewritten : nat → list str → list str → Prop :=
  | rw_nil : rewritten 0 [] []
  | rw_keep n l lines lines' : rewritten n lines lines' -> rewritten n (l :: lines) (l :: lines')
  | rw_window n w lines lines' :
      window strategy w pattern_lines -> rewritten n lines lines' ->
      rewritten (S n) (w ++ lines)
        (merge_into merge_tail
           (reindent_replacement replacement_lines strategy (first_line w) (first_line pattern_lines))
           lines').

Lemma rewritten_refl lines : rewritten 0 lines lines.
Proof. induction lines; by constructor. Qed.
Lemma rewritten_keep_all pre n lines lines' :
  rewritten n lines lines' -> rewritten n (pre ++ lines) (pre ++ lines').
Proof. intros H. induction pre; [done|by constructor]. Qed.
Lemma rewritten_zero lines lines' : rewritten 0 lines lines' -> lines' = lines.
Proof.
  intros H. remember 0%nat as n eqn:Hn. induction H; [done| |done]. f_equal. by apply IHrewritten.
Qed.
(** One window: the lines before and after it are untouched. *)
Lemma rewritten_one lines lines' : rewritten 1 lines lines' ->
  ∃ pre w post, lines = pre ++ w ++ post ∧ window strategy w pattern_lines
    ∧ lines' = pre ++ merge_into merge_tail (reindent_replacement replacement_lines strategy
                        (first_line w) (first_line pattern_lines)) post.
Proof.
  intros H. remember 1%nat as n eqn:Hn. induction H as [|n l lines lines' H IH|n w lines lines' Hw H IH]; [done| |].
  - destruct (IH Hn) as (pre & w & post & -> & Hw & ->). by exists (l :: pre), w, post.
  - injection Hn as ->. apply rewritten_zero in H as ->. by exists [], w, lines.
Qed.

Lemma window_matches_true lines :
  window_matches strategy lines pattern_lines = true
  <-> ∃ w rest, lines = w ++ rest ∧ window strategy w pattern_lines.
Proof.
  clear. unfold window. revert lines. induction pattern_lines as [|p ps IH]; intros lines; cbn [window_matches].
  - split; intros _; [|reflexivity]. exists [], lines. split; [done|constructor].
  - destruct lines as [|l lines].
    + split; [intros [=]|]. intros (w & rest & Hl & Hw). inversion Hw; by subst.
    + rewrite andb_true_iff, IH. split.
      * intros (Hl & w & rest & -> & Hw). exists (l :: w), rest. split; [done|by constructor].
      * intros (w & rest & Hl & Hw). inversion Hw as [|l0 p0 w0 ps0 Hlp Hws]; subst. injection Hl as -> ->.
        split; [done|]. by exists w0, rest.
Qed.

Context (content_lines : list str) (pattern_nonempty : pattern_lines ≠ []).
Context (fits : (length pattern_lines <= length content_lines)%nat).
Local Abbreviation occ := (occurrences_from strategy content_lines pattern_lines).
Local Abbreviation splice := (splice_window content_lines pattern_lines replacement_lines strategy merge_tail).

Lemma splice_window_app i w rest rest' :
  drop i content_lines = w ++ rest -> length w = length pattern_lines -> (i <= length content_lines)%nat ->
  splice i (take (i + length pattern_lines) content_lines ++ rest')
  = take i content_lines ++ merge_into merge_tail (reindent_replacement replacement_lines strategy
      (first_line w) (first_line pattern_lines)) rest'.
Proof.
  intros Hd Hw Hi.
  assert (Hlen : length (take (i + length pattern_lines) content_lines) = (i + length pattern_lines)%nat).
  { rewrite length_take. apply (f_equal length) in Hd. rewrite length_drop, length_app in Hd. lia. }
  assert (Hhead : line_at content_lines i = first_line w).
  { unfold line_at. rewrite <- (Nat.add_0_r i), <- lookup_drop, Hd.
    destruct w; [destruct pattern_lines; [done|discriminate Hw]|done]. }
  unfold splice_window. rewrite Hhead.
  rewrite take_app_le by lia. rewrite take_take, Nat.min_l by lia.
  rewrite lookup_app_r by lia. rewrite Hlen, Nat.sub_diag.
  rewrite !drop_app, !Hlen, (drop_ge (take _ _)), (drop_ge (take _ _)) by lia.
  rewrite Nat.sub_diag. replace (i + length pattern_lines + 1 - (i + length pattern_lines))%nat with 1%nat by lia.
  destruct rest' as [|following rest']; cbn [lookup list_lookup merge_into drop app].
  - by rewrite app_nil_r.
  - by destruct (merge_tail && _).
Qed.

Lemma occurrences_rewrite fuel : ∀ i next_free,
  (i + fuel = length content_lines - length pattern_lines + 1)%nat -> (next_free <= length content_lines)%nat ->
  ∃ lines', foldr splice content_lines (occ i next_free fuel)
            = take (i `max` next_free) content_lines ++ lines'
    ∧ rewritten (length (occ i next_free fuel)) (drop (i `max` next_free) content_lines) lines'.
Proof.
  assert (0 < length pattern_lines)%nat by (destruct pattern_lines; cbn; [done|lia]).
  induction fuel as [|fuel IH]; intros i next_free Hi Hnf; cbn [occurrences_from].
  - eexists. cbn [foldr length]. split; [by rewrite take_drop|apply rewritten_refl].
  - destruct (Nat.ltb_spec i next_free) as [Hlt|Hge].
    { destruct (IH (S i) next_free) as (lines' & Hf & Hr); [lia|done|]. exists lines'.
      by replace (i `max` next_free)%nat with (S i `max` next_free)%nat by lia. }
    rewrite (Nat.max_l i next_free) by lia.
    destruct (window_matches strategy (drop i content_lines) pattern_lines) eqn:Hm.
    + apply window_matches_true in Hm as (w & rest & Hd & Hw). pose proof (Forall2_length Hw) as Hwl.
      pose proof (f_equal length Hd) as Hdl. rewrite length_drop, length_app in Hdl.
      destruct (IH (S i) (i + length pattern_lines)%nat) as (lines' & Hf & Hr); [lia|lia|].
      rewrite Nat.max_r in Hf, Hr by lia. cbn [foldr length]. rewrite Hf.
      rewrite (splice_window_app i w rest lines' Hd Hwl) by lia.
      eexists. split; [reflexivity|]. rewrite Hd. constructor; [done|].
      replace rest with (drop (i + length pattern_lines) content_lines); [done|].
      rewrite <- drop_drop, Hd, <- Hwl. by rewrite drop_app_length.
    + destruct (IH (S i) next_free) as (lines' & Hf & Hr); [lia|done|].
      rewrite Nat.max_l in Hf, Hr by lia. destruct (lookup_lt_is_Some_2 content_lines i) as [x Hx]; [lia|].
      exists (x :: lines'). rewrite Hf, (take_S_r _ _ _ Hx), <- app_assoc. split; [done|].
      rewrite (drop_S _ _ _ Hx). by constructor.
Qed.

Lemma occurrences_none fuel : ∀ i next_free, (next_free <= i)%nat ->
  occ i next_free fuel = [] -> ∀ k, (i <= k < i + fuel)%nat ->
  window_matches strategy (drop k content_lines) pattern_lines = false.
Proof using Type.
  clear fits.
  induction fuel as [|fuel IH]; intros i next_free Hnf Ho k Hk; [lia|]. cbn [occurrences_from] in Ho.
  rewrite (proj2 (Nat.ltb_ge _ _)) in Ho by lia.
  destruct (window_matches strategy (drop i content_lines) pattern_lines) eqn:Hm; [done|].
  destruct (decide (k = i)) as [->|]; [done|]. apply (IH (S i) next_free); [lia|done|lia].
Qed.
End rewritten.

Lemma window_occurrences_none strategy content_lines pattern_lines :
  pattern_lines ≠ [] -> window_occurrences content_lines pattern_lines strategy = [] ->
  ∀ pre w post, content_lines = pre ++ w ++ post -> ~ window strategy w pattern_lines.
Proof.
  intros Hp Ho pre w post -> Hw. pose proof (Forall2_length Hw) as Hl. unfold window_occurrences in Ho.
  destruct pattern_lines as [|p ps]; [done|]. cbn [is_nil orb] in Ho.
  rewrite !length_app in Ho. rewrite (proj2 (Nat.ltb_ge _ _)) in Ho by lia.
  assert (Hm : window_matches strategy (drop (length pre) (pre ++ w ++ post)) (p :: ps) = true).
  { apply window_matches_true. exists w, post. by rewrite drop_app_length. }
  assert (Hf : window_matches strategy (drop (length pre) (pre ++ w ++ post)) (p :: ps) = false); [|congruence].
  eapply occurrences_none with (next_free := 0%nat); [..|exact Ho|]; lia.
Qed.

Lemma window_occurrences_spliced strategy content_lines pattern_lines replacement_lines merge_tail :
  pattern_lines ≠ [] ->
  let occ := window_occurrences content_lines pattern_lines strategy in
  occ ≠ [] ->
  ∃ lines', splice_windows content_lines pattern_lines replacement_lines strategy occ merge_tail = join [NL] lines'
    ∧ rewritten strategy pattern_lines replacement_lines merge_tail (length occ) content_lines lines'.
Proof.
  intros Hp. cbn zeta. unfold window_occurrences. destruct (is_nil pattern_lines || _) eqn:E; [done|]. intros _.
  apply orb_false_iff in E as [_ Hl%Nat.ltb_ge].
  destruct (occurrences_rewrite strategy pattern_lines replacement_lines merge_tail content_lines Hp Hl
    (length content_lines - length pattern_lines + 1)%nat 0%nat 0%nat) as (lines' & Hf & Hr); [lia|lia|].
  exists lines'. unfold splice_windows. by rewrite Hf.
Qed.

Lemma rewritten_window strategy pattern_lines replacement_lines merge_tail n lines lines' :
  rewritten strategy pattern_lines replacement_lines merge_tail (S n) lines lines' ->
  ∃ pre w post, lines = pre ++ w ++ post ∧ window strategy w pattern_lines.
Proof.
  intros H. remember (S n) as k eqn:Hk. induction H as [|k l lines lines' H IH|k w lines lines' Hw H IH]; [done| |].
  - destruct (IH Hk) as (pre & w & post & -> & Hw). by exists (l :: pre), w, post.
  - by exists [], w, lines.
Qed.

(** ** What an outcome means *)

(** The lines a pattern is compared as: without the empty one after a final newline. *)
Definition pattern_window (pattern : str) : list str :=
  let lines := split_on NL pattern in
  if (1 <? length lines)%nat && bool_decide (list.last lines = Some []) then removelast lines else lines.
Definition matches_at (pattern content : str) (strategy : Strategy) : Prop :=
  match strategy with
  | Exact => ∃ a b, content = a ++ pattern ++ b
  | Regex => False
  | _ => ∃ pre w post, split_on NL content = pre ++ w ++ post ∧ window strategy w (pattern_window pattern)
  end.
(** [n] disjoint sites of [content] are replaced in [result], the rest is kept. *)
Definition rewrites (pattern replacement : str) (strategy : Strategy) (n : nat) (content result : str) : Prop :=
  match strategy with
  | Exact => ∃ ps, length ps = S n ∧ Forall (λ p, contains pattern p = false) ps
               ∧ content = join pattern ps ∧ result = join replacement ps
  | Regex => False
  | _ => let '(pattern_lines, replacement_lines, merge_tail) := ladder_lines pattern replacement in
         ∃ lines', rewritten strategy pattern_lines replacement_lines merge_tail n (split_on NL content) lines'
           ∧ result = join [NL] lines'
  end.
Definition LADDER : list Strategy := [Exact; TrailingWs; Trim; Unicode].
Definition first_rung (pattern content : str) (strategy : Strategy) : Prop :=
  ∃ before after, LADDER = before ++ strategy :: after ∧ matches_at pattern content strategy
    ∧ Forall (λ s, ~ matches_at pattern content s) before.

Lemma removelast_nonempty {A} (l : list A) : (1 < length l)%nat -> removelast l ≠ [].
Proof. destruct l as [|a [|b l]]; cbn; [lia|lia|done]. Qed.
Lemma pattern_window_nonempty pattern : pattern_window pattern ≠ [].
Proof.
  unfold pattern_window. destruct (_ && _) eqn:E; [|apply split_on_nonempty].
  apply andb_true_iff in E as [Hl%Nat.ltb_lt _]. by apply removelast_nonempty.
Qed.
Lemma ladder_lines_pattern pattern replacement : (ladder_lines pattern replacement).1.1 = pattern_window pattern.
Proof. unfold ladder_lines, pattern_window. by repeat case_match. Qed.

Lemma finish_spec original result strategy n :
  match finish_edit original result strategy n with
  | Applied result' strategy' n' line _ =>
      result' = result ∧ strategy' = strategy ∧ n' = n ∧ result ≠ original ∧ 1 <= line
      ∧ take (Z.to_nat (line - 1)) (split_on NL result) = take (Z.to_nat (line - 1)) (split_on NL original)
  | Noop strategy' => strategy' = strategy ∧ result = original
  | _ => False
  end.
Proof.
  unfold finish_edit. destruct (str_eqb result original) eqn:E; [by apply str_eqb_true in E|].
  assert (Hne : result ≠ original) by (intros ->; by rewrite str_eqb_refl in E).
  pose proof (split_on_nonempty NL original) as H1. pose proof (split_on_nonempty NL result) as H2.
  assert (Hfd : ∀ old new, match first_difference old new with
    | Some i => take i old = take i new
    | None => take (length old `min` length new) old = take (length old `min` length new) new end).
  { induction old as [|a old IH]; intros [|b new]; cbn [first_difference]; [done..|].
    destruct (str_eqb a b) eqn:Eab; [|done]. apply str_eqb_true in Eab. subst b. specialize (IH new).
    destruct (first_difference old new); cbn [fmap option_fmap option_map take length Nat.min]; by rewrite IH. }
  specialize (Hfd (split_on NL original) (split_on NL result)). split_and!; try done.
  - destruct (first_difference _ _); [lia|]. destruct (split_on NL original), (split_on NL result); cbn; done || lia.
  - destruct (first_difference _ _) as [i|].
    + rewrite Z.add_simpl_r, Nat2Z.id. done.
    + set (m := (length _ `min` length _)%nat) in *. symmetry.
      replace (Z.to_nat (Z.of_nat m - 1)) with ((m - 1) `min` m)%nat by lia. rewrite <- !take_take. by rewrite Hfd.
Qed.

Lemma exact_sites pattern content : pattern ≠ [] ->
  (match_prefixes pattern content = [] <-> ~ matches_at pattern content Exact).
Proof.
  intros Hp. cbn [matches_at]. pose proof (length_pieces pattern content) as Hl.
  pose proof (join_pieces pattern content) as Hj. pose proof (pieces_free pattern content Hp) as Hf.
  destruct (pieces pattern content) as [|x [|y ps]]; [done| |].
  - cbn in Hj. subst x. rewrite Forall_singleton, contains_false in Hf.
    destruct (match_prefixes pattern content); [|done]. split; [|done]. intros _ (a & b & ->). by apply (Hf a b).
  - split; intros H; [by rewrite H in Hl|]. exfalso. apply H. rewrite join_cons in Hj by done.
    by exists x, (join pattern (y :: ps)).
Qed.

(** The outcome of the ladder, in terms of the text. *)
Definition outcome_ok (content pattern replacement : str) (replace_all : bool) (outcome : EditOutcome) : Prop :=
  match outcome with
  | Applied result strategy n line _ =>
      first_rung pattern content strategy
      ∧ rewrites pattern replacement strategy (Z.to_nat n) content result
      ∧ result ≠ content ∧ 1 <= n ∧ (replace_all = false -> n = 1) ∧ 1 <= line
      ∧ take (Z.to_nat (line - 1)) (split_on NL result) = take (Z.to_nat (line - 1)) (split_on NL content)
  | Noop strategy =>
      first_rung pattern content strategy
      ∧ ∃ n, (1 <= n)%nat ∧ rewrites pattern replacement strategy n content content
  | Ambiguous strategy n previews =>
      first_rung pattern content strategy ∧ replace_all = false ∧ 2 <= n
      ∧ length previews = (5 `min` Z.to_nat n)%nat
      ∧ ∃ result, rewrites pattern replacement strategy (Z.to_nat n) content result
  | NotFound _ => ∀ strategy, ~ matches_at pattern content strategy
  | InvalidRegex _ => False
  end.

(** A rung with [n] sites, once the rungs before it have none. *)
Lemma finish_outcome content pattern replacement replace_all result strategy n :
  first_rung pattern content strategy -> (1 <= n)%nat -> (replace_all = false -> n = 1%nat) ->
  rewrites pattern replacement strategy n content result ->
  outcome_ok content pattern replacement replace_all (finish_edit content result strategy (Z.of_nat n)).
Proof.
  intros Hr Hn Hone Hrw. pose proof (finish_spec content result strategy (Z.of_nat n)) as Hf.
  destruct (finish_edit content result strategy (Z.of_nat n)); cbn [outcome_ok]; try done.
  - destruct Hf as (-> & -> & -> & Hne & Hl & Ht). rewrite Nat2Z.id. split_and!; try done; [lia|].
    intros H. specialize (Hone H). lia.
  - destruct Hf as (-> & ->). split; [done|]. by exists n.
Qed.

Lemma passes_outcome content pattern replacement replace_all passes : ∀ before,
  LADDER = Exact :: before ++ passes -> Forall (λ s, ~ matches_at pattern content s) (Exact :: before) ->
  let '(pattern_lines, replacement_lines, merge_tail) := ladder_lines pattern replacement in
  outcome_ok content pattern replacement replace_all
    (decide_passes content (split_on NL content) pattern_lines replacement_lines merge_tail replace_all passes).
Proof.
  pose proof (ladder_lines_pattern pattern replacement) as Hpl.
  pose proof (pattern_window_nonempty pattern) as Hpne.
  destruct (ladder_lines pattern replacement) as [[pl rl] mt] eqn:Hll. cbn in Hpl. subst pl.
  induction passes as [|s passes IH]; intros before Hladder Hbefore; cbn [decide_passes].
  { rewrite app_nil_r in Hladder. rewrite <- Hladder in Hbefore. intros [] Hm; [..|done].
    all: rewrite Forall_forall in Hbefore; eapply Hbefore; [|exact Hm]; unfold LADDER; apply list_elem_of_In; set_solver. }
  assert (Hs : s ∈ [TrailingWs; Trim; Unicode]).
  { unfold LADDER in Hladder. injection Hladder as ->. set_solver. }
  assert (Hat : matches_at pattern content s = ∃ pre w post, split_on NL content = pre ++ w ++ post
                  ∧ window s w (pattern_window pattern)).
  { rewrite !elem_of_cons in Hs. by destruct Hs as [->|[->|[->|Hs%elem_of_nil]]]. }
  assert (Hrw : ∀ n result, rewrites pattern replacement s n content result
    = ∃ lines', rewritten s (pattern_window pattern) rl mt n (split_on NL content) lines' ∧ result = join [NL] lines').
  { intros n result. rewrite !elem_of_cons in Hs. unfold rewrites. rewrite Hll.
    by destruct Hs as [->|[->|[->|Hs%elem_of_nil]]]. }
  destruct (window_occurrences (split_on NL content) (pattern_window pattern) s) as [|o occ] eqn:Hocc;
    cbn [is_nil negb].
  { apply (IH (before ++ [s])); [by rewrite <- app_assoc|]. rewrite app_comm_cons, Forall_app. split; [done|].
    apply Forall_singleton. rewrite Hat. intros (pre & w & post & Hl & Hw).
    by eapply window_occurrences_none. }
  destruct (window_occurrences_spliced s (split_on NL content) (pattern_window pattern) rl mt Hpne) as
    (lines' & Hsp & Hr); [by rewrite Hocc|]. rewrite Hocc in Hsp, Hr.
  assert (Hfirst : first_rung pattern content s).
  { exists (Exact :: before), passes. split; [done|]. split; [|done]. rewrite Hat.
    apply (rewritten_window _ _ _ _ _ _ _ Hr). }
  destruct ((1 <? length (o :: occ))%nat && negb replace_all) eqn:Hamb.
  - apply andb_true_iff in Hamb as [Hc%Nat.ltb_lt Ha%negb_true_iff]. cbn [outcome_ok]. rewrite Nat2Z.id.
    split_and!; [done|done|lia| |].
    + by rewrite length_fmap, length_take.
    + exists (join [NL] lines'). rewrite Hrw. by exists lines'.
  - apply finish_outcome; [done|cbn; lia| |].
    + intros ->. rewrite andb_true_r in Hamb. apply Nat.ltb_ge in Hamb. cbn in *. lia.
    + rewrite Hrw. exists lines'. by rewrite Hsp.
Qed.

Lemma decide_ladder_ok content pattern replacement replace_all :
  pattern ≠ [] ->
  outcome_ok content pattern replacement replace_all (decide_ladder content pattern replacement replace_all).
Proof.
  intros Hp. unfold decide_ladder. pose proof (exact_sites pattern content Hp) as Hex.
  pose proof (length_pieces pattern content) as Hl.
  assert (Hrw : ∀ n, n = length (match_prefixes pattern content) ->
    rewrites pattern replacement Exact n content (replace_all_in pattern replacement content)).
  { intros n ->. exists (pieces pattern content). split_and!; [done|by apply pieces_free| |done].
    by rewrite join_pieces. }
  destruct (match_prefixes pattern content) as [|e exact] eqn:He; cbn [is_nil negb].
  { pose proof (passes_outcome content pattern replacement replace_all [TrailingWs; Trim; Unicode] [] eq_refl) as H.
    destruct (ladder_lines pattern replacement) as [[pl rl] mt]. apply H. apply Forall_singleton. by apply Hex. }
  assert (Hfirst : first_rung pattern content Exact).
  { exists [], [TrailingWs; Trim; Unicode]. split; [done|]. split; [|done].
    pose proof (join_pieces pattern content) as Hj.
    destruct (pieces pattern content) as [|x [|y ps]]; [done..|]. rewrite join_cons in Hj by done.
    by exists x, (join pattern (y :: ps)). }
  destruct (_ && negb replace_all) eqn:Hamb.
  - apply andb_true_iff in Hamb as [Hc%Nat.ltb_lt Ha%negb_true_iff]. cbn [outcome_ok]. rewrite Nat2Z.id.
    split_and!; [done|done|lia|by rewrite length_fmap, length_take|]. eexists. by apply Hrw.
  - apply finish_outcome; [done|cbn; lia| |].
    + intros ->. rewrite andb_true_r in Hamb. apply Nat.ltb_ge in Hamb. cbn in *. lia.
    + destruct replace_all; [by apply Hrw|]. rewrite andb_true_r in Hamb. apply Nat.ltb_ge in Hamb.
      rewrite replace_first_one; [by apply Hrw|]. rewrite He. cbn in *. lia.
Qed.

(** Every outcome of the ladder means what it says: an edit is applied at sites of
    the first rung that matches at all, at exactly one unless all are meant, and
    changes nothing else; it is refused as ambiguous only when two or more disjoint
    sites match, reported as missing only when no rung matches anywhere, and as
    without effect only when the result is the text itself. *)
Theorem ladder_outcomes content pattern replacement replace_all :
  pattern ≠ [] ->
  outcome_ok content pattern replacement replace_all (decide_ladder content pattern replacement replace_all).
Proof. apply decide_ladder_ok. Qed.

(** ** Drift *)

Definition terminated (lines : list str) : str := mjoin ((λ l, l ++ [NL]) <$> lines).
Lemma join_terminated lines rest : rest ≠ [] -> join [NL] (lines ++ rest) = terminated lines ++ join [NL] rest.
Proof.
  intros Hr. induction lines as [|l lines IH]; [done|]. rewrite <- app_comm_cons, join_cons, IH.
  - unfold terminated. cbn [fmap list_fmap mjoin list_join]. by rewrite <- !app_assoc.
  - by destruct lines.
Qed.
Lemma join_lines_app a b : a ≠ [] -> b ≠ [] -> join [NL] (a ++ b) = join [NL] a ++ [NL] ++ join [NL] b.
Proof.
  intros Ha Hb. induction a as [|x [|y a] IH]; [done| |].
  - rewrite <- app_comm_cons, join_cons by done. done.
  - change (join [NL] (x :: ((y :: a) ++ b)) = join [NL] (x :: y :: a) ++ [NL] ++ join [NL] b).
    rewrite !join_cons by done. rewrite IH by done. by rewrite !app_assoc.
Qed.
Lemma terminated_app a b : terminated (a ++ b) = terminated a ++ terminated b.
Proof.
  induction a as [|l a IH]; [done|].
  change ((l ++ [NL]) ++ terminated (a ++ b) = ((l ++ [NL]) ++ terminated a) ++ terminated b).
  by rewrite IH, app_assoc.
Qed.
Lemma last_Some_removelast {A} (l : list A) x : list.last l = Some x -> l = removelast l ++ [x].
Proof.
  induction l as [|a [|b l] IH]; [done| |]; intros H; [by injection H as ->|].
  change (a :: b :: l = a :: (removelast (b :: l) ++ [x])). f_equal. by apply IH.
Qed.
Lemma terminated_text s : list.last (split_on NL s) = Some [] -> s = terminated (removelast (split_on NL s)).
Proof.
  intros H. apply last_Some_removelast in H. rewrite <- (join_split_on NL s) at 1. rewrite H at 1.
  rewrite join_terminated by done. cbn [join]. by rewrite app_nil_r.
Qed.
Lemma join_push_to_last lines following rest : lines ≠ [] ->
  join [NL] (push_to_last lines following ++ rest) = join [NL] lines ++ join [NL] (following :: rest).
Proof.
  intros Hl. induction lines as [|l [|l' lines] IH]; [done| |].
  - cbn [push_to_last]. destruct rest as [|r rest]; [done|]. rewrite <- app_comm_cons, !join_cons by done.
    cbn [join app]. by rewrite <- !app_assoc.
  - change (join [NL] (l :: (push_to_last (l' :: lines) following ++ rest))
            = join [NL] (l :: l' :: lines) ++ join [NL] (following :: rest)).
    rewrite (join_cons _ l) by (by destruct lines). rewrite IH by done.
    rewrite (join_cons _ l (l' :: lines)) by done. by rewrite <- !app_assoc.
Qed.
Lemma split_on_lines sep s : Forall (λ l, sep ∉ l) (split_on sep s).
Proof.
  induction s as [|c s IH]; cbn [split_on]; [repeat constructor; set_solver|].
  destruct (Z.eqb_spec c sep) as [->|Hne]; [constructor; [set_solver|done]|].
  destruct (split_on sep s) as [|l ls]; [repeat constructor; set_solver|].
  apply Forall_cons_iff in IH as [Hl Hls]. constructor; [set_solver|done].
Qed.
Lemma split_join_sub content pre w post : split_on NL content = pre ++ w ++ post -> w ≠ [] ->
  split_on NL (join [NL] w) = w.
Proof.
  intros H Hw. apply split_on_join; [done|]. pose proof (split_on_lines NL content) as Hl. rewrite H in Hl.
  by apply Forall_app in Hl as [_ [Hl _]%Forall_app].
Qed.
Lemma window_trailing w p :
  window TrailingWs w p <-> Forall2 (λ l p, trim_end l = trim_end p) w p.
Proof. unfold window. split; apply Forall2_impl; intros ??; apply str_eqb_true. Qed.

(** Trailing whitespace does not change what an edit does: a text found up to
    trailing whitespace is replaced as the exact text would have been, newline at its
    end included; only a pattern that ends in a newline and matches the last lines of
    the file has no such text. *)
Theorem drift_keeps_the_edit content pattern replacement result n line diff :
  pattern ≠ [] -> decide_ladder content pattern replacement false = Applied result TrailingWs n line diff ->
  (∃ before found after, content = before ++ found ++ after ∧ result = before ++ replacement ++ after
     ∧ Forall2 (λ l p, trim_end l = trim_end p) (split_on NL found) (split_on NL pattern))
  ∨ (∃ before found, content = before ++ found ∧ list.last (split_on NL pattern) = Some []
     ∧ Forall2 (λ l p, trim_end l = trim_end p) (split_on NL found) (pattern_window pattern)).
Proof.
  intros Hp Hd. pose proof (decide_ladder_ok content pattern replacement false Hp) as Hok. rewrite Hd in Hok.
  destruct Hok as (_ & Hrw & _ & _ & Hn & _). rewrite (Hn eq_refl) in Hrw. cbn [rewrites Z.to_nat Pos.to_nat] in Hrw.
  pose proof (ladder_lines_pattern pattern replacement) as Hpl.
  pose proof (pattern_window_nonempty pattern) as Hpne.
  destruct (ladder_lines pattern replacement) as [[pl rl] mt] eqn:Hll. cbn in Hpl. subst pl.
  destruct Hrw as (lines' & Hrw & ->). apply rewritten_one in Hrw as (pre & w & post & Hc & Hw & ->).
  cbn [reindent_replacement]. apply window_trailing in Hw. pose proof (Forall2_length Hw) as Hwl.
  assert (Hwne : w ≠ []) by (destruct w, (pattern_window pattern); done).
  pose proof (split_join_sub _ _ _ _ Hc Hwne) as Hsw.
  rewrite <- (join_split_on NL content), Hc. rewrite join_terminated by (by destruct w).
  pose proof Hw as Hw0. unfold ladder_lines in Hll. unfold pattern_window in Hw. destruct (_ && _) eqn:Hend.
  - apply andb_true_iff in Hend as [_ Hlast%bool_decide_eq_true].
    destruct post as [|f post].
    + right. exists (terminated pre), (join [NL] w). rewrite app_nil_r, Hsw. done.
    + left. rewrite join_lines_app by done. exists (terminated pre), (join [NL] w ++ [NL]), (join [NL] (f :: post)).
      split; [by rewrite <- !app_assoc|].
      assert (Hsp : split_on NL (join [NL] w ++ [NL]) = w ++ [[]]).
      { assert (Hj : join [NL] (w ++ [[]]) = join [NL] w ++ [NL]) by (rewrite join_lines_app by done; done).
        rewrite <- Hj. apply split_on_join; [by destruct w|]. apply Forall_app. split; [|repeat constructor; set_solver].
        rewrite <- Hsw. apply split_on_lines. }
      rewrite Hsp, (last_Some_removelast _ _ Hlast). split.
      * destruct (bool_decide (list.last (split_on NL replacement) = Some [])) eqn:Hr; injection Hll as Hpw <- <-.
        -- apply bool_decide_eq_true in Hr. cbn [merge_into andb].
           rewrite app_assoc, join_terminated by done.
           rewrite terminated_app, <- (terminated_text replacement Hr). by rewrite <- app_assoc.
        -- cbn [merge_into]. pose proof (split_on_nonempty NL replacement) as Hne.
           destruct (split_on NL replacement) as [|r0 rs] eqn:Hrs; [done|]. cbn [andb negb is_nil].
           rewrite join_terminated; [|by destruct rs]. f_equal. rewrite join_push_to_last by done.
           by rewrite <- Hrs, join_split_on.
      * apply Forall2_app; [done|repeat constructor].
  - left. injection Hll as Hpw <- <-. destruct post as [|f post].
    + exists (terminated pre), (join [NL] w), []. rewrite !app_nil_r, Hsw. cbn [merge_into].
      rewrite join_terminated by apply split_on_nonempty. by rewrite join_split_on.
    + rewrite join_lines_app by done. exists (terminated pre), (join [NL] w), ([NL] ++ join [NL] (f :: post)).
      rewrite Hsw. split; [done|]. split; [|done]. cbn [merge_into andb].
      rewrite join_terminated by (pose proof (split_on_nonempty NL replacement); by destruct (split_on NL replacement)).
      rewrite join_lines_app by (done || apply split_on_nonempty). by rewrite join_split_on.
Qed.

(** ** Line endings *)

Fixpoint newlines (s : str) : nat :=
  match s with [] => 0 | c :: s => (if c =? NL then 1 else 0) + newlines s end.
Lemma newlines_app a b : newlines (a ++ b) = (newlines a + newlines b)%nat.
Proof. induction a as [|c a IH]; [done|]. cbn [app newlines]. rewrite IH. lia. Qed.
Lemma newlines_zero s : newlines s = 0%nat <-> NL ∉ s.
Proof.
  induction s as [|c s IH]; [split; [intros _; set_solver|done]|]. cbn [newlines].
  destruct (Z.eqb_spec c NL) as [->|Hc]; [split; [done|]; set_solver|]. cbn [Nat.add]. rewrite IH. set_solver.
Qed.

(** A measure that adds up over concatenation adds up over the pieces of a text. *)
Section measure.
Context (measure : str → nat) (measure_app : ∀ a b, measure (a ++ b) = (measure a + measure b)%nat).
Lemma measure_join sep ps : ps ≠ [] ->
  measure (join sep ps) = (sum_list_with measure ps + (length ps - 1) * measure sep)%nat.
Proof.
  intros Hp. induction ps as [|p [|q ps] IH]; [done|cbn; lia|].
  rewrite join_cons, !measure_app, IH by done. cbn [sum_list_with length]. nia.
Qed.
Lemma measure_pieces needle s :
  measure s = (sum_list_with measure (pieces needle s) + count_matches needle s * measure needle)%nat.
Proof.
  rewrite <- (join_pieces needle s) at 1. rewrite measure_join by apply match_pieces_nonempty.
  unfold count_matches. rewrite length_pieces. nia.
Qed.
Lemma measure_replace needle by_ s :
  (measure (replace_all_in needle by_ s) + count_matches needle s * measure needle
   = measure s + count_matches needle s * measure by_)%nat.
Proof.
  unfold replace_all_in. rewrite measure_join by apply match_pieces_nonempty.
  rewrite (measure_pieces needle s). unfold count_matches. rewrite length_pieces. nia.
Qed.
End measure.

Lemma count_newlines s : count_matches [NL] s = newlines s.
Proof.
  pose proof (measure_pieces newlines newlines_app [NL] s) as H.
  assert (Hz : sum_list_with newlines (pieces [NL] s) = 0%nat).
  { rewrite pieces_char_split_on. pose proof (split_on_lines NL s) as Hl.
    induction Hl as [|l ls Hl _ IH]; [done|]. cbn [sum_list_with]. rewrite IH. by rewrite (proj2 (newlines_zero l)). }
  rewrite Hz in H. change (newlines [NL]) with 1%nat in H. lia.
Qed.

(** The text has one kind of line ending. *)
Definition uniform (s : str) : Prop :=
  contains CRLF s = false ∨ ∃ lines, lines ≠ [] ∧ Forall (λ l, NL ∉ l) lines ∧ s = join CRLF lines.

Lemma find_crlf l rest : NL ∉ l -> find_split CRLF (l ++ CRLF ++ rest) = Some (l, rest).
Proof.
  induction l as [|c l IH]; intros Hl; [done|]. cbn [find_split app].
  assert (Hs : strip_prefix CRLF (c :: l ++ CRLF ++ rest) = None).
  { unfold CRLF. cbn [strip_prefix]. destruct (Z.eqb_spec CR c) as [<-|]; [|done].
    destruct l as [|d l]; [done|]. cbn [app strip_prefix].
    destruct (Z.eqb_spec NL d) as [<-|]; [|done]. set_solver. }
  rewrite Hs. change (find_split CRLF (l ++ CRLF ++ rest)) with (find_split CRLF (l ++ CRLF ++ rest)).
  rewrite IH by set_solver. done.
Qed.
Lemma find_crlf_none l : NL ∉ l -> find_split CRLF l = None.
Proof. intros Hl. apply find_split_None. intros a b ->. apply Hl. set_solver. Qed.
Lemma pieces_crlf lines fuel : lines ≠ [] -> Forall (λ l, NL ∉ l) lines ->
  (length (join CRLF lines) <= fuel)%nat -> match_pieces fuel CRLF (join CRLF lines) = lines.
Proof.
  intros Hne Hl. revert fuel. induction Hl as [|l lines Hl Hls IH]; intros fuel Hf; [done|].
  destruct lines as [|l' lines].
  - destruct fuel as [|fuel]; [done|]. cbn [match_pieces]. by rewrite find_crlf_none.
  - rewrite join_cons in * by done. rewrite !length_app in Hf. cbn [CRLF length] in Hf.
    destruct fuel as [|fuel]; [lia|]. cbn [match_pieces]. rewrite find_crlf by done.
    f_equal. apply IH; [done|lia].
Qed.

Lemma normalization_keeps_uniform raw :
  let n := normalize_content raw in
  restore_content (nc_text n) (nc_ending n) (nc_had_bom n) = raw <-> uniform (split_bom raw).2.
Proof.
  assert (Hraw : raw = if (split_bom raw).1 then BOM :: (split_bom raw).2 else (split_bom raw).2).
  { unfold split_bom. destruct (strip_prefix [BOM] raw) eqn:E; [|done]. by apply strip_prefix_Some in E. }
  cbn zeta. unfold normalize_content. destruct (split_bom raw) as [bom rest]. cbn [fst snd] in *. subst raw.
  cbn [nc_text nc_ending nc_had_bom]. unfold restore_content.
  assert (Hbom : ∀ body : str, (if bom then BOM :: body else body) = (if bom then BOM :: rest else rest)
                         <-> body = rest) by (destruct bom; naive_solver).
  rewrite Hbom. rewrite count_newlines. set (k := count_matches CRLF rest).
  assert (Hk : k = 0%nat <-> contains CRLF rest = false).
  { unfold k, count_matches. rewrite length_zero_iff_nil, exact_sites by done. cbn [matches_at].
    rewrite contains_false. naive_solver. }
  pose proof (measure_replace length (@length_app Z) CRLF [NL] rest) as Hlen.
  pose proof (measure_replace newlines newlines_app CRLF [NL] rest) as Hnl.
  change (newlines CRLF) with 1%nat in Hnl. change (newlines [NL]) with 1%nat in Hnl.
  cbn [CRLF length] in Hlen. fold k in Hlen, Hnl. set (text := replace_all_in CRLF [NL] rest) in *.
  pose proof (measure_pieces newlines newlines_app CRLF rest) as Hp. fold k in Hp.
  change (newlines CRLF) with 1%nat in Hp.
  split.
  - destruct ((0 <? k)%nat && (newlines rest <=? k * 2)%nat).
    + intros H. pose proof (measure_replace length (@length_app Z) [NL] CRLF text) as Hlen2.
      rewrite H, count_newlines in Hlen2. cbn [CRLF length] in Hlen2.
      right. exists (pieces CRLF rest). split; [apply match_pieces_nonempty|]. rewrite join_pieces. split; [|done].
      assert (Hz : sum_list_with newlines (pieces CRLF rest) = 0%nat) by lia. clear -Hz.
      induction (pieces CRLF rest) as [|p ps IH]; [done|]. cbn [sum_list_with] in Hz.
      constructor; [apply newlines_zero; lia|apply IH; lia].
    + intros H. left. apply Hk. rewrite H in Hlen. lia.
  - intros [Hc|(lines & Hne & Hl & Hrest)].
    + apply Hk in Hc. rewrite Hc. cbn [Nat.ltb Nat.leb andb]. unfold text, replace_all_in.
      pose proof (length_pieces CRLF rest) as Hlp. unfold k, count_matches in Hc. rewrite Hc in Hlp.
      pose proof (join_pieces CRLF rest) as Hj. by destruct (pieces CRLF rest) as [|p []].
    + assert (Hpc : pieces CRLF rest = lines) by (rewrite Hrest; by apply pieces_crlf).
      assert (Htext : text = join [NL] lines) by (unfold text, replace_all_in; by rewrite Hpc).
      assert (Hback : replace_all_in [NL] CRLF text = rest).
      { unfold replace_all_in. rewrite Htext, pieces_char_split_on, split_on_join by done. done. }
      assert (Hz : sum_list_with newlines (pieces CRLF rest) = 0%nat).
      { rewrite Hpc. clear -Hl. induction Hl as [|l ls Hl _ IH]; [done|]. cbn [sum_list_with].
        rewrite IH. by rewrite (proj2 (newlines_zero l)). }
      rewrite Hz in Hp. destruct (Nat.ltb_spec 0 k) as [Hpos|H0].
      * rewrite (proj2 (Nat.leb_le _ _)) by lia. done.
      * cbn [andb]. assert (Hlp : length lines = 1%nat).
        { rewrite <- Hpc, length_pieces. fold (count_matches CRLF rest). fold k. lia. }
        rewrite Htext, Hrest. by destruct lines as [|l []].
Qed.

(** Normalising a file and restoring it gives the file back exactly when it has
    one kind of line ending: mixed endings are unified by any edit, everything else
    survives. *)
Theorem normalization_keeps_uniform_files raw :
  let n := normalize_content raw in
  restore_content (nc_text n) (nc_ending n) (nc_had_bom n) = raw <-> uniform (split_bom raw).2.
Proof. apply normalization_keeps_uniform. Qed.

(** ** The edit distance *)

(** [edits n a b]: [n] insertions, deletions and substitutions turn [a] into [b]. *)
Inductive edits : Z → str → str → Prop :=
  | ed_nil : edits 0 [] []
  | ed_keep c n a b : edits n a b -> edits n (c :: a) (c :: b)
  | ed_substitute c d n a b : edits n a b -> edits (n + 1) (c :: a) (d :: b)
  | ed_insert d n a b : edits n a b -> edits (n + 1) a (d :: b)
  | ed_delete c n a b : edits n a b -> edits (n + 1) (c :: a) b.

Lemma edits_app n a b m c d : edits n a b -> edits m c d -> edits (n + m) (a ++ c) (b ++ d).
Proof.
  intros H Hm. induction H; cbn [app]; [done|by constructor|..].
  all: replace (n + 1 + m) with (n + m + 1) by lia; by constructor.
Qed.
Lemma edits_rev n a b : edits n a b -> edits n (rev a) (rev b).
Proof.
  assert (Hnil : ∀ n, n = 1 -> ∀ c, edits n [c] [] ∧ edits n [] [c] ∧ ∀ d, edits n [c] [d]).
  { intros m -> c. split_and!; [|..|intros d]; change 1 with (0 + 1); constructor; constructor. }
  induction 1 as [|c n a b H IH|c d n a b H IH|d n a b H IH|c n a b H IH]; cbn [rev]; [constructor|..].
  - replace n with (n + 0) by lia. apply edits_app; [done|]. constructor. constructor.
  - apply edits_app; [done|]. by apply Hnil.
  - rewrite <- (app_nil_r (rev a)). apply edits_app; [done|]. by apply Hnil.
  - rewrite <- (app_nil_r (rev b)). apply edits_app; [done|]. by apply Hnil.
Qed.

Definition cost (c d : char) : Z := if c =? d then 0 else 1.
(** The recursive definition of the distance. *)
Fixpoint dist (a : str) : str → Z :=
  match a with
  | [] => λ b, Z.of_nat (length b)
  | c :: a' =>
      fix inner b :=
        match b with
        | [] => Z.of_nat (length a)
        | d :: b' => Z.min (Z.min (dist a' b' + cost c d) (dist a' b + 1)) (inner b' + 1)
        end
  end.
Lemma dist_cons c a d b :
  dist (c :: a) (d :: b)
  = Z.min (Z.min (dist a b + cost c d) (dist a (d :: b) + 1)) (dist (c :: a) b + 1).
Proof. done. Qed.
Lemma dist_nil_r a : dist a [] = Z.of_nat (length a).
Proof. by destruct a. Qed.

Lemma dist_least n a b : edits n a b -> dist a b <= n.
Proof.
  induction 1 as [|c n a b H IH|c d n a b H IH|d n a b H IH|c n a b H IH]; [done|..].
  - rewrite dist_cons. unfold cost. rewrite Z.eqb_refl. lia.
  - rewrite dist_cons. unfold cost. destruct (c =? d); lia.
  - destruct a as [|c a]; [cbn [dist length] in *; lia|]. rewrite dist_cons. lia.
  - destruct b as [|d b]; [rewrite dist_nil_r in *; cbn [length] in *; lia|]. rewrite dist_cons. lia.
Qed.
Lemma dist_edits a : ∀ b, edits (dist a b) a b.
Proof.
  induction a as [|c a IHa]; intros b.
  - cbn [dist]. induction b as [|d b IH]; [constructor|]. cbn [length].
    replace (Z.of_nat (S (length b))) with (Z.of_nat (length b) + 1) by lia. by constructor.
  - induction b as [|d b IHb].
    + specialize (IHa []). rewrite dist_nil_r in *. cbn [length].
      replace (Z.of_nat (S (length a))) with (Z.of_nat (length a) + 1) by lia. by constructor.
    + rewrite dist_cons. unfold cost.
      destruct (Z.min_spec (Z.min (dist a b + (if c =? d then 0 else 1)) (dist a (d :: b) + 1)) (dist (c :: a) b + 1))
        as [[_ ->]|[_ ->]]; [|by constructor].
      destruct (Z.min_spec (dist a b + (if c =? d then 0 else 1)) (dist a (d :: b) + 1)) as [[_ ->]|[_ ->]];
        [|by constructor].
      destruct (Z.eqb_spec c d) as [->|]; [|by constructor]. rewrite Z.add_0_r. by constructor.
Qed.

(** A row of the table: the distances from [x] to the prefixes of [b], reversed. *)
Fixpoint dists (x y b : str) : list Z :=
  dist x y :: match b with [] => [] | d :: b => dists x (d :: y) b end.
Lemma lev_cells_step ca diag row up rest left cb b : row = up :: rest ->
  lev_cells ca (diag :: row) left (cb :: b)
  = Z.min (Z.min (diag + (if ca =? cb then 0 else 1)) (up + 1)) (left + 1)
    :: lev_cells ca row (Z.min (Z.min (diag + (if ca =? cb then 0 else 1)) (up + 1)) (left + 1)) b.
Proof. by intros ->. Qed.
Lemma lev_cells_dists ca x b : ∀ y,
  dist (ca :: x) y :: lev_cells ca (dists x y b) (dist (ca :: x) y) b = dists (ca :: x) y b.
Proof.
  induction b as [|d b IH]; intros y; [done|]. cbn [dists].
  rewrite (lev_cells_step _ _ _ (dist x (d :: y)) (match b with [] => [] | e :: b => dists x (e :: d :: y) b end))
    by (by destruct b).
  change (if ca =? d then 0 else 1) with (cost ca d). rewrite <- dist_cons. by rewrite IH.
Qed.
Lemma lev_rows_dists a b : ∀ x i, i = Z.of_nat (length x) -> lev_rows i a b (dists x [] b) = dists (rev a ++ x) [] b.
Proof.
  induction a as [|ca a IH]; intros x i ->; [done|]. cbn [lev_rows rev]. rewrite <- app_assoc. cbn [app].
  rewrite <- (IH (ca :: x) (Z.of_nat (length x) + 1)) by (cbn [length]; lia). f_equal.
  rewrite <- lev_cells_dists, dist_nil_r. cbn [length].
  by replace (Z.of_nat (S (length x))) with (Z.of_nat (length x) + 1) by lia.
Qed.
Lemma dists_first b : ∀ y, dists [] y b = Z.of_nat <$> seq (length y) (S (length b)).
Proof.
  induction b as [|d b IH]; intros y; [done|]. cbn [dists]. rewrite IH. done.
Qed.
Lemma dists_last x b : ∀ y, list.last (dists x y b) = Some (dist x (rev b ++ y)).
Proof.
  induction b as [|d b IH]; intros y; [done|]. cbn [dists rev]. rewrite <- app_assoc. cbn [app].
  rewrite <- IH. by destruct b.
Qed.

(** The distance behind the hint for a missing text, computed row by row in two
    buffers, is the least number of insertions, deletions and substitutions that turn
    one line into the other. *)
Theorem levenshtein_is_the_edit_distance a b :
  edits (levenshtein a b) a b ∧ ∀ n, edits n a b -> levenshtein a b <= n.
Proof.
  assert (Hl : levenshtein a b = dist (rev a) (rev b)).
  { unfold levenshtein. destruct a as [|c a]; cbn [is_nil]; [by cbn; rewrite length_rev|].
    pose proof (dists_first b []) as Hf. cbn [length] in Hf. rewrite <- Hf, lev_rows_dists by done.
    rewrite app_nil_r, dists_last. cbn [default from_option]. by rewrite app_nil_r. }
  rewrite Hl. split.
  - pose proof (edits_rev _ _ _ (dist_edits (rev a) (rev b))) as H. by rewrite !rev_involutive in H.
  - intros n H. by apply dist_least, edits_rev.
Qed.

(** ** Regular expressions *)

Class RegexLaws {Captures} (regex_matches : str → str → result str (list (RegexMatch Captures) * str)) : Prop := {
  matches_cover : ∀ pattern content matches tail, regex_matches pattern content = Ok (matches, tail) ->
    content = mjoin ((λ m, rm_gap m ++ rm_text m) <$> matches) ++ tail }.

(** An applied regular-expression edit renders every match and keeps the text between. *)
Lemma regex_applied {Captures} (regex_matches : str → str → result str (list (RegexMatch Captures) * str))
    `{!RegexLaws regex_matches} expand content pattern new_text replace_all operation result s n line diff :
  decide_regex regex_matches expand content pattern new_text replace_all operation
  = Applied result s n line diff ->
  ∃ matches tail, regex_matches pattern content = Ok (matches, tail)
    ∧ content = mjoin ((λ m, rm_gap m ++ rm_text m) <$> matches) ++ tail
    ∧ result = mjoin ((λ m, rm_gap m ++ render_match expand operation new_text m) <$> matches) ++ tail
    ∧ n = Z.of_nat (length matches) ∧ 1 <= n ∧ (replace_all = false -> n = 1).
Proof.
  unfold decide_regex. destruct (regex_matches pattern content) as [[matches tail]|] eqn:Hm; [|done].
  destruct (Nat.eqb_spec (length matches) 0) as [|Hne]; [done|].
  destruct (_ && negb replace_all) eqn:Hamb; [done|]. intros Hf.
  match type of Hf with finish_edit ?o ?r ?st ?k = _ => pose proof (finish_spec o r st k) as Hs end.
  rewrite Hf in Hs. destruct Hs as (-> & _ & -> & _). exists matches, tail.
  split; [done|]. split; [by apply matches_cover in Hm|].
  assert (Hone : replace_all = false -> length matches = 1%nat).
  { intros ->. rewrite andb_true_r in Hamb. apply Nat.ltb_ge in Hamb. lia. }
  split_and!; [|lia|lia|intros Ha; specialize (Hone Ha); lia].
  unfold replace_matches. destruct replace_all; [done|]. specialize (Hone eq_refl).
  destruct matches as [|m []]; done.
Qed.

(** ** Where the contract is looser than it reads *)

(** Sites are counted without overlap: a text that matches at two overlapping places
    is edited at the first of them without being refused as ambiguous. *)
Theorem overlapping_sites_are_not_ambiguous :
  let pattern := lit "a" ++ [NL] ++ lit "a" in
  let content := pattern ++ [NL] ++ lit "a" in
  content = (lit "a" ++ [NL]) ++ pattern
  ∧ ∃ line diff, decide_ladder content pattern (lit "b") false
                 = Applied (lit "b" ++ [NL] ++ lit "a") Exact 1 line diff.
Proof. split; [reflexivity|]. eexists _, _. vm_compute. reflexivity. Qed.

(** An insertion is desugared to a replacement by the text asked for, so at a drifted
    site it rewrites the text it is meant to keep: typographic quotes are lost. *)
Theorem insertion_rewrites_drifted_text {Captures} (regex_matches : str → str → result str (list (RegexMatch Captures) * str)) expand :
  let content := lit "say " ++ [8220] ++ lit "hi" ++ [8221] in
  let asked := lit "say " ++ [34] ++ lit "hi" ++ [34] in
  ∃ result line diff,
    decide_edit regex_matches expand content (mkEdit asked (lit " now") false Op_InsertAfter MM_Ladder)
    = Applied result Unicode 1 line diff
    ∧ contains content result = false ∧ contains asked result = true.
Proof. eexists _, _, _. split_and!; vm_compute; reflexivity. Qed.

(** ** Runs *)

Definition demo_content : str := lit "foo" ++ [NL] ++ lit "next" ++ [NL].
Definition demo_pattern : str := lit "foo   " ++ [NL].

Lemma ladder_outcomes_witness :
  outcome_ok demo_content demo_pattern (lit "bar") false (decide_ladder demo_content demo_pattern (lit "bar") false)
  ∧ ∃ line diff, decide_ladder demo_content demo_pattern (lit "bar") false
                 = Applied (lit "barnext" ++ [NL]) TrailingWs 1 line diff.
Proof.
  split; [apply ladder_outcomes; vm_compute; discriminate|]. eexists _, _. vm_compute. reflexivity.
Defined.

Lemma drift_keeps_the_edit_witness :
  ∃ line diff, decide_ladder demo_content demo_pattern (lit "bar") false
               = Applied (lit "barnext" ++ [NL]) TrailingWs 1 line diff
  ∧ ((∃ before found after, demo_content = before ++ found ++ after
        ∧ lit "barnext" ++ [NL] = before ++ lit "bar" ++ after
        ∧ Forall2 (λ l p, trim_end l = trim_end p) (split_on NL found) (split_on NL demo_pattern))
     ∨ (∃ before found, demo_content = before ++ found ∧ list.last (split_on NL demo_pattern) = Some []
        ∧ Forall2 (λ l p, trim_end l = trim_end p) (split_on NL found) (pattern_window demo_pattern))).
Proof.
  eexists _, _. split; [vm_compute; reflexivity|].
  eapply drift_keeps_the_edit; [vm_compute; discriminate|vm_compute; reflexivity].
Defined.
