(* ===== verification/FileTools.v ===== *)
(** * The file tools

    Reading, writing and editing of files by the model (toolset/file_tools.rs and
    toolset/shared/filesystem.rs).  A call resolves its path inside the tool root
    ([ToolPaths]), takes the in-process lock of the file, and works on its bytes: a
    read numbers the lines of a range and reports the hash of the content; an edit
    checks an expected hash, decodes strictly ([Utf8]), decides the edit
    ([EditMatch]), writes the restored text and reads it back.

    The disk maps locations to bytes.  Every system call can fail, a failed write can
    leave any bytes behind, and the disk can be changed by others between the write
    and the read back.  The language server a mutation is handed to, the hash and the
    JSON printer are parameters.

    The theorems: a successful edit wrote exactly the decided text over the bytes it
    validated and a failed one nothing, a preview tells what the edit would do, two
    spellings of a file share one lock, and under the lock no interleaving of calls
    loses an update. *)

From S2P Require Import Prelude RustStr Messages ToolCall Denial ToolDispatch Truncation CommandPolicy ToolPaths Utf8 BashTool EditMatch.
Open Scope Z_scope.

Local Abbreviation disk := (gmap location bytes).

(** ** Reading *)

Record RenderedFileContents : Type := mkRendered {
  rf_content : str; rf_total_lines : Z; rf_returned_lines : Z; rf_start_line : Z; rf_end_line : Z }.
Definition numbered (line_number : Z) (line : str) : str := lit "L" ++ fmt_Z line_number ++ lit ": " ++ line.
(** The loop over the lines, from [line_number] on. *)
Fixpoint render_range (start_line end_line line_number : Z) (lines : list str) : list str :=
  match lines with
  | [] => []
  | line :: lines =>
      let rest := render_range start_line end_line (line_number + 1) lines in
      if (line_number <? start_line) || (end_line <? line_number) then rest
      else numbered line_number line :: rest
  end.
Definition render_file_contents (text : str) (start_line end_line : option Z) : RenderedFileContents :=
  let total_lines := Z.of_nat (length (str_lines text)) in
  let start_line := Z.max (default 1 start_line) 1 in
  let end_line := Z.max (default (Z.max total_lines start_line) end_line) start_line in
  let rendered := render_range start_line end_line 1 (str_lines text) in
  let content :=
    if is_nil rendered && is_nil text then lit "(empty file)"
    else if is_nil rendered then lit "(no lines in requested range)"
    else join [NL] rendered in
  mkRendered content total_lines (Z.of_nat (length rendered)) start_line end_line.
Definition cap_output (text : str) (max_bytes : Z) : str * bool :=
  let result := truncate text Head {| max_lines := usize_max; max_bytes := max_bytes |} in
  (tt_text result, tt_truncated result).

(** ** Arguments and outputs *)

Record ReadFileArgs : Type := mkReadArgs {
  ra_path : str; ra_start_line : option Z; ra_end_line : option Z; ra_max_chars : Z; ra_raw_json : bool }.
Record WriteFileArgs : Type := mkWriteArgs { wa_path : str; wa_content : str; wa_raw_json : bool }.
Record EditFileArgs : Type := mkEditArgs {
  ea_path : str;
  ea_old_text : str;
  ea_new_text : str;
  ea_replace_all : bool;
  ea_raw_json : bool;
  ea_dry_run : bool;
  ea_match_mode : option str;
  ea_operation : option str;
  ea_expected_content_hash : option str }.

Record ReadFileMetadata : Type := mkReadMeta {
  rm_ok : bool; rm_status : str; rm_tool : str; rm_path : str; rm_returned_count : Z;
  rm_total_count : option Z; rm_truncated : bool; rm_start_line : Z; rm_end_line : Z;
  rm_content_hash : str }.
Record ReadFileOutput : Type := mkReadOutput { ro_metadata : ReadFileMetadata; ro_content : str }.
Record WriteFileMetadata : Type := mkWriteMeta {
  wm_ok : bool; wm_status : str; wm_tool : str; wm_path : str; wm_returned_count : Z;
  wm_total_count : option Z; wm_truncated : bool; wm_bytes_written : Z; wm_created : bool;
  wm_content_hash : str }.
Record EditFileMetadata : Type := mkEditMeta {
  em_ok : bool; em_status : str; em_tool : str; em_path : str; em_returned_count : Z;
  em_total_count : option Z; em_truncated : bool; em_replacements_applied : Z; em_replace_all : bool;
  em_dry_run : bool; em_match_strategy : str; em_first_changed_line : Z; em_pre_edit_hash : str;
  em_post_edit_hash : str; em_bytes_written : Z }.
Record EditFileOutput : Type := mkEditOutput { eo_metadata : EditFileMetadata; eo_diff : str }.

Definition FS_OUTPUT_META_PREFIX : str := lit "gents_fs: ".
Definition render_tool_output (metadata_json body raw_value_json : str) (raw_json : bool) : str :=
  if raw_json then raw_value_json
  else FS_OUTPUT_META_PREFIX ++ metadata_json ++ (if is_nil body then [] else [NL] ++ body).
Definition merge_optional_notes (left right : option str) : option str :=
  match left, right with
  | None, None => None
  | Some a, None => Some a
  | None, Some b => Some b
  | Some a, Some b => Some (a ++ [NL] ++ b)
  end.
(** The body with a note that is not empty. *)
Definition with_note (body : str) (note : option str) : str :=
  match note with
  | Some note => if is_nil note then body else body ++ [NL] ++ note
  | None => body
  end.

(** ** Locks *)

(** The climb to the nearest directory that resolves, [suffix] being the names below
    it. *)
Fixpoint lock_key_from (fs : FileSystem) (fuel : nat) (current : location) (suffix : list str)
    : option location :=
  match fuel, split_last current with
  | S fuel, Some (parent, name) =>
      match canonicalize fs (at_location parent) with
      | Some canonical => Some (canonical ++ name :: suffix)
      | None => lock_key_from fs fuel parent (name :: suffix)
      end
  | _, _ => None
  end.
Definition canonical_lock_key (fs : FileSystem) (path : location) : location :=
  match canonicalize fs (at_location path) with
  | Some canonical => canonical
  | None => default path (lock_key_from fs (length path) path [])
  end.

Inductive MutationKind : Type := MK_Write | MK_Edit.
(** What the language server does with a mutation: under the lock it may rewrite the
    file, after it it reports diagnostics. *)
Record Writethrough : Type := mkWritethrough {
  wt_after_mutation_under_lock : MutationKind → location → disk → option str * disk;
  wt_diagnostics_after_unlock : MutationKind → location → disk → option str }.

(** The system calls of one call: the error of a read, of the directory creation, of
    a write with what it left, what others did to the disk before the read back, and
    the error of that read. *)
Record FileIo : Type := mkIo {
  io_read : option str;
  io_create_dir : option str;
  io_write : option (str * option bytes);
  io_others : disk → disk;
  io_verify : option str }.
Definition quiet : FileIo := mkIo None None None id None.

Section tools.
Context {Token Live Captures : Type} (fs : FileSystem).
Context (path_error : PathError → str) (not_found : str).
Context (from_utf8_lossy : bytes → str).
(** The lower-case hexadecimal digest of SHA-256. *)
Context (sha256 : bytes → str).
(** [{:?}] of a string. *)
Context (debug_str : str → str).
Context (regex_matches : str → str → result str (list (RegexMatch Captures) * str)) (expand : Captures → str → str).
(** [serde_json::to_string]. *)
Context (print_read_metadata : ReadFileMetadata → str) (print_read_output : ReadFileOutput → str).
Context (print_write_metadata : WriteFileMetadata → str).
Context (print_edit_metadata : EditFileMetadata → str) (print_edit_output : EditFileOutput → str).
Implicit Types runtime : option (CurrentToolRuntimeContext Token Live).

Definition content_hash (b : bytes) : str := lit "sha256:" ++ sha256 b.
Definition deny_workspace_file_writes runtime : result ToolsetError unit :=
  if is_some_and (λ authority, negb (allows_file_writes authority)) (runtime ≫= rt_workspace_authority)
  then Err (TS_ReportedFailure PolicyDenied (lit "workspace authority does not allow file writes"))
  else Ok tt.
Definition read_disk (fault : option str) (d : disk) (path : location) : result ToolsetError bytes :=
  match fault with
  | Some error => Err (TS_Other error)
  | None => match d !! path with Some b => Ok b | None => Err (TS_Other not_found) end
  end.
(** [tokio::fs::write]: the disk it leaves, and whether it succeeded. *)
Definition write_disk (fault : option (str * option bytes)) (d : disk) (path : location) (b : bytes)
    : result ToolsetError unit * disk :=
  match fault with
  | None => (Ok tt, <[path := b]> d)
  | Some (error, residue) => (Err (TS_Other error), match residue with Some b => <[path := b]> d | None => d end)
  end.

Definition read_file_call runtime (io : FileIo) (context : ToolContext) (default_max_chars : Z)
    (args : ReadFileArgs) (d : disk) : result ToolsetError str :=
  match resolve_existing_file fs (scope_of runtime) context (ra_path args) with
  | Err error => Err (TS_Other (path_error error))
  | Ok path =>
      let? b := read_disk (io_read io) d path in
      let text := from_utf8_lossy b in
      let rendered := render_file_contents text (ra_start_line args) (ra_end_line args) in
      let max_chars := Z.max (Z.min (ra_max_chars args) default_max_chars) 1 in
      let '(content, truncated) := cap_output (rf_content rendered) max_chars in
      let output := mkReadOutput
        (mkReadMeta true (lit "success") (lit "read_file") (display_path fs (scope_of runtime) context path)
           (rf_returned_lines rendered) (Some (rf_total_lines rendered)) truncated (rf_start_line rendered)
           (rf_end_line rendered) (content_hash b)) content in
      Ok (render_tool_output (print_read_metadata (ro_metadata output))
            (lit "content:" ++ [NL] ++ content) (print_read_output output) (ra_raw_json args))
  end.

Definition write_file_call runtime (io : FileIo) (writethrough : option Writethrough) (context : ToolContext)
    (args : WriteFileArgs) (d : disk) : result ToolsetError str * disk :=
  match deny_workspace_file_writes runtime with
  | Err error => (Err error, d)
  | Ok _ =>
  match resolve_path_allow_create fs (scope_of runtime) context (wa_path args) with
  | Err error => (Err (TS_Other (path_error error)), d)
  | Ok path =>
      let created := negb (path_exists fs (at_location path)) in
      match io_create_dir io with
      | Some error => (Err (TS_Other error), d)
      | None =>
      let content := as_bytes (wa_content args) in
      match write_disk (io_write io) d path content with
      | (Err error, d) => (Err error, d)
      | (Ok _, d) =>
          let '(note, d) := match writethrough with
                            | Some w => wt_after_mutation_under_lock w MK_Write path d
                            | None => (None, d)
                            end in
          let written := match writethrough with
                         | Some _ => match read_disk (io_verify io) d path with Ok b => b | Err _ => content end
                         | None => content
                         end in
          let note := match writethrough with
                      | Some w => merge_optional_notes note (wt_diagnostics_after_unlock w MK_Write path d)
                      | None => note
                      end in
          let display := display_path fs (scope_of runtime) context path in
          let metadata := mkWriteMeta true (lit "success") (lit "write_file") display 0 (Some 0) false
                            (Z.of_nat (length written)) created (content_hash written) in
          let body := lit "write_file: wrote " ++ fmt_Z (wm_bytes_written metadata) ++ lit " bytes to " ++ display in
          (Ok (render_tool_output (print_write_metadata metadata) (with_note body note)
                 (print_write_metadata metadata) (wa_raw_json args)), d)
      end
      end
  end
  end.

(** *** Editing *)

Definition parse_operation (operation : option str) : result ToolsetError Operation :=
  match operation with
  | None => Ok Op_Replace
  | Some other =>
      if str_eqb other (lit "replace") then Ok Op_Replace
      else if str_eqb other (lit "insert_after") then Ok Op_InsertAfter
      else if str_eqb other (lit "insert_before") then Ok Op_InsertBefore
      else if str_eqb other (lit "delete") then Ok Op_Delete
      else Err (TS_Other (lit "unknown operation " ++ debug_str other
             ++ lit "; valid: replace, insert_after, insert_before, delete"))
  end.
Definition parse_match_mode (match_mode : option str) : result ToolsetError MatchMode :=
  match match_mode with
  | None => Ok MM_Ladder
  | Some other =>
      if str_eqb other (lit "ladder") then Ok MM_Ladder
      else if str_eqb other (lit "regex") then Ok MM_Regex
      else Err (TS_Other (lit "unknown match_mode " ++ debug_str other ++ lit "; valid: ladder, regex"))
  end.
Definition not_found_message (display : str) (closest : option ClosestMatch) : str :=
  lit "old_text was not found in " ++ display ++ lit "."
  ++ match closest with
     | Some c =>
         [NL] ++ lit "Closest match (" ++ fmt_Z (cl_similarity_pct c) ++ lit "% similar) at line "
         ++ fmt_Z (cl_line c) ++ lit ":"
         ++ match cl_first_diff c with
            | Some (pattern_line, file_line) =>
                [NL] ++ lit "  your text: " ++ pattern_line ++ [NL] ++ lit "  file has:  " ++ file_line
            | None => []
            end
     | None => []
     end
  ++ [NL] ++ lit "Re-read the file and build old_text from its CURRENT content; do not retry the same call.".
Definition ambiguous_message (display : str) (strategy : Strategy) (count : Z)
    (previews : list OccurrencePreview) : str :=
  lit "old_text matches " ++ fmt_Z count ++ lit " locations in " ++ display ++ lit " (strategy "
  ++ edit_strategy_as_str strategy ++ lit "):"
  ++ mjoin ((λ p, [NL] ++ lit "  line " ++ fmt_Z (op_line p) ++ lit ": " ++ op_text p) <$> previews)
  ++ [NL] ++ lit "Add surrounding context to make it unique, or set replace_all=true.".

(** What the bytes of the file decide: the text to write with what the outcome
    reports, or the error. *)
Record EditPlan : Type := mkPlan {
  pl_post_text : str; pl_strategy : Strategy; pl_replacements : Z; pl_first_changed_line : Z; pl_diff : str }.
Definition check_expected_hash (display : str) (expected : option str) (pre_edit_hash : str)
    : result ToolsetError unit :=
  match expected with
  | Some expected =>
      if str_eqb expected pre_edit_hash then Ok tt
      else Err (TS_Other (display ++ lit " has changed since it was read: expected " ++ expected
             ++ lit ", but the current content hashes to " ++ pre_edit_hash
             ++ lit ". Re-read the file and rebuild the edit from current content."))
  | None => Ok tt
  end.
Definition plan_edit (display : str) (args : EditFileArgs) (raw : bytes) : result ToolsetError EditPlan :=
  let? _ := check_expected_hash display (ea_expected_content_hash args) (content_hash raw) in
  let? operation := parse_operation (ea_operation args) in
  let? match_mode := parse_match_mode (ea_match_mode args) in
  match from_utf8 raw with
  | Err valid_up_to =>
      Err (TS_Other (display ++ lit " is not valid UTF-8 (first invalid byte at offset " ++ fmt_Z valid_up_to
             ++ lit "); edit_file only edits UTF-8 text files"))
  | Ok raw_text =>
      let normalized := normalize_content raw_text in
      let old_text := replace_all_in CRLF [NL] (ea_old_text args) in
      let new_text := replace_all_in CRLF [NL] (ea_new_text args) in
      match decide_edit regex_matches expand (nc_text normalized)
              (mkEdit old_text new_text (ea_replace_all args) operation match_mode) with
      | Applied result strategy replacements first_changed_line diff =>
          Ok (mkPlan (restore_content result (nc_ending normalized) (nc_had_bom normalized)) strategy
                replacements first_changed_line diff)
      | NotFound closest => Err (TS_Other (not_found_message display closest))
      | Ambiguous strategy count previews => Err (TS_Other (ambiguous_message display strategy count previews))
      | Noop _ =>
          Err (TS_Other (lit "the edit would produce identical content in " ++ display
                 ++ lit "; nothing was written. old_text and new_text are equivalent at the matched site."))
      | InvalidRegex error =>
          Err (TS_Other (lit "match_mode=" ++ [34] ++ lit "regex" ++ [34] ++ lit ": pattern failed to parse: " ++ error))
      end
  end.

Definition edit_metadata (display : str) (args : EditFileArgs) (raw : bytes) (plan : EditPlan)
    : EditFileMetadata :=
  mkEditMeta true (lit "success") (lit "edit_file") display (pl_replacements plan) (Some (pl_replacements plan))
    false (pl_replacements plan) (ea_replace_all args) (ea_dry_run args) (edit_strategy_as_str (pl_strategy plan))
    (pl_first_changed_line plan) (content_hash raw) (content_hash (as_bytes (pl_post_text plan)))
    (if ea_dry_run args then 0 else str_len (pl_post_text plan)).
Definition report_edit (display : str) (args : EditFileArgs) (raw : bytes) (plan : EditPlan) (note : option str)
    : str :=
  let output := mkEditOutput (edit_metadata display args raw plan) (pl_diff plan) in
  let verb := if ea_dry_run args then lit "dry-run preview for" else lit "edited" in
  let body := lit "edit_file: " ++ verb ++ lit " " ++ display ++ lit " (" ++ fmt_Z (pl_replacements plan)
    ++ lit " replacement" ++ (if pl_replacements plan =? 1 then [] else lit "s") ++ lit ", strategy "
    ++ edit_strategy_as_str (pl_strategy plan) ++ lit ")" ++ [NL] ++ pl_diff plan in
  render_tool_output (print_edit_metadata (eo_metadata output)) (with_note body note)
    (print_edit_output output) (ea_raw_json args).
(** The write and the read back. *)
Definition commit_edit (io : FileIo) (writethrough : option Writethrough) (display : str) (path : location)
    (post : bytes) (d : disk) : result ToolsetError (option str) * disk :=
  match write_disk (io_write io) d path post with
  | (Err error, d) => (Err error, d)
  | (Ok _, d) =>
      let d := io_others io d in
      match read_disk (io_verify io) d path with
      | Err error => (Err error, d)
      | Ok verify =>
          if bool_decide (verify = post) then
            match writethrough with
            | Some w =>
                let '(note, d) := wt_after_mutation_under_lock w MK_Edit path d in
                (Ok (merge_optional_notes note (wt_diagnostics_after_unlock w MK_Edit path d)), d)
            | None => (Ok None, d)
            end
          else (Err (TS_Other (lit "post-write verification failed for " ++ display
                       ++ lit ": the bytes on disk do not match the edited content")), d)
      end
  end.
Definition edit_file_call runtime (io : FileIo) (writethrough : option Writethrough) (context : ToolContext)
    (args : EditFileArgs) (d : disk) : result ToolsetError str * disk :=
  match (if ea_dry_run args then Ok tt else deny_workspace_file_writes runtime) with
  | Err error => (Err error, d)
  | Ok _ =>
  match resolve_existing_file fs (scope_of runtime) context (ea_path args) with
  | Err error => (Err (TS_Other (path_error error)), d)
  | Ok path =>
      let display := display_path fs (scope_of runtime) context path in
      match read_disk (io_read io) d path with
      | Err error => (Err error, d)
      | Ok raw =>
          match plan_edit display args raw with
          | Err error => (Err error, d)
          | Ok plan =>
              if ea_dry_run args then (Ok (report_edit display args raw plan None), d)
              else match commit_edit io writethrough display path (as_bytes (pl_post_text plan)) d with
                   | (Err error, d) => (Err error, d)
                   | (Ok note, d) => (Ok (report_edit display args raw plan note), d)
                   end
          end
      end
  end
  end.
End tools.

(** ** What a call does to the disk *)

Section calls.
Context {Token Live Captures : Type} (fs : FileSystem).
Context (path_error : PathError → str) (not_found : str) (sha256 : bytes → str) (debug_str : str → str).
Context (regex_matches : str → str → result str (list (RegexMatch Captures) * str)) (expand : Captures → str → str).
Context (print_edit_metadata : EditFileMetadata → str) (print_edit_output : EditFileOutput → str).
Implicit Types runtime : option (CurrentToolRuntimeContext Token Live).
Local Abbreviation plan_edit := (plan_edit sha256 debug_str regex_matches expand).
Local Abbreviation edit_file_call := (edit_file_call fs path_error not_found sha256 debug_str regex_matches expand
  print_edit_metadata print_edit_output).

Lemma read_back d path b : read_disk not_found None (<[path := b]> d) path = Ok b.
Proof.
  unfold read_disk. assert (Hl : (<[path := b]> d : disk) !! path = Some b) by apply lookup_insert_eq.
  by rewrite Hl.
Qed.
Lemma plan_edit_hash display args raw plan : plan_edit display args raw = Ok plan ->
  ∀ h, ea_expected_content_hash args = Some h -> h = content_hash sha256 raw.
Proof.
  unfold FileTools.plan_edit, check_expected_hash. intros H h He. rewrite He in H.
  destruct (str_eqb h _) eqn:E; [by apply str_eqb_true|done].
Qed.

(** A successful edit found the bytes it was told to expect, decided the edit from
    them, and left exactly the decided text in the file and every other file alone; a
    preview leaves the disk alone.  A failed edit leaves the disk as it was, unless a
    system call failed after the decision or the read back differed. *)
Theorem edits_write_what_they_decided runtime io context args d :
  io_others io = id ->
  match edit_file_call runtime io None context args d with
  | (Ok text, d') =>
      ∃ path raw plan, resolve_existing_file fs (scope_of runtime) context (ea_path args) = Ok path
        ∧ d !! path = Some raw ∧ plan_edit (display_path fs (scope_of runtime) context path) args raw = Ok plan
        ∧ (∀ h, ea_expected_content_hash args = Some h -> h = content_hash sha256 raw)
        ∧ d' = (if ea_dry_run args then d else <[path := as_bytes (pl_post_text plan)]> d)
        ∧ (ea_dry_run args = false -> ∀ a, runtime ≫= rt_workspace_authority = Some a -> allows_file_writes a = true)
  | (Err _, d') => d' = d ∨ is_Some (io_write io) ∨ is_Some (io_verify io)
  end.
Proof.
  intros Hid. unfold FileTools.edit_file_call.
  destruct (if ea_dry_run args then Ok tt else deny_workspace_file_writes runtime) as [[]|e] eqn:Hw; [|by left].
  destruct (resolve_existing_file _ _ _ _) as [path|e] eqn:Hp; [|by left].
  unfold read_disk at 1. destruct (io_read io); [by left|]. destruct (d !! path) as [raw|] eqn:Hr; [|by left].
  cbn zeta. destruct (FileTools.plan_edit _ _ _ _ _ args raw) as [plan|e] eqn:Hpl; [|by left].
  assert (Hauth : ea_dry_run args = false -> ∀ a, runtime ≫= rt_workspace_authority = Some a -> allows_file_writes a = true).
  { intros Hd a Ha. rewrite Hd in Hw. unfold deny_workspace_file_writes in Hw. rewrite Ha in Hw. cbn [is_some_and] in Hw.
    by destruct (allows_file_writes a). }
  pose proof (plan_edit_hash _ _ _ _ Hpl) as Hh.
  destruct (ea_dry_run args) eqn:Hd; [by exists path, raw, plan|].
  unfold commit_edit, write_disk. destruct (io_write io) as [[error residue]|] eqn:Hio; [right; left; by eexists|].
  rewrite Hid. unfold id. destruct (io_verify io) eqn:Hv; [right; right; by eexists|].
  rewrite read_back, bool_decide_eq_true_2 by done. by exists path, raw, plan.
Qed.

(** A preview is the edit it previews: with the same arguments and no faults, the
    preview succeeds exactly when the edit does (given the right to write), fails with
    the same error, and reports the same replacements, diff and content hash. *)
Theorem preview_is_faithful runtime context args d :
  (∀ a, runtime ≫= rt_workspace_authority = Some a -> allows_file_writes a = true) ->
  let preview := mkEditArgs (ea_path args) (ea_old_text args) (ea_new_text args) (ea_replace_all args)
    (ea_raw_json args) true (ea_match_mode args) (ea_operation args) (ea_expected_content_hash args) in
  match edit_file_call runtime quiet None context preview d with
  | (Err error, d') => d' = d ∧ edit_file_call runtime quiet None context args d = (Err error, d)
  | (Ok _, d') => d' = d ∧ ∃ path raw plan,
      edit_file_call runtime quiet None context preview d
      = (Ok (report_edit sha256 print_edit_metadata print_edit_output
               (display_path fs (scope_of runtime) context path) preview raw plan None), d)
      ∧ edit_file_call runtime quiet None context args d
        = (Ok (report_edit sha256 print_edit_metadata print_edit_output
                 (display_path fs (scope_of runtime) context path) args raw plan None),
           if ea_dry_run args then d else <[path := as_bytes (pl_post_text plan)]> d)
  end.
Proof.
  intros Hauth. cbn zeta.
  assert (Hw : (if ea_dry_run args then Ok tt else deny_workspace_file_writes runtime) = Ok tt).
  { destruct (ea_dry_run args); [done|]. unfold deny_workspace_file_writes.
    destruct (runtime ≫= rt_workspace_authority) as [a|] eqn:Ha; [|done]. cbn [is_some_and].
    by rewrite (Hauth a eq_refl). }
  unfold FileTools.edit_file_call. cbn [ea_path ea_dry_run]. rewrite Hw.
  destruct (resolve_existing_file _ _ _ _) as [path|e] eqn:Hp; [|done].
  destruct (read_disk not_found (io_read quiet) d path) as [raw|e] eqn:Hr; [|done].
  set (preview := mkEditArgs _ _ _ _ _ _ _ _ _).
  change (FileTools.plan_edit sha256 debug_str regex_matches expand (display_path fs (scope_of runtime) context path) preview raw)
    with (FileTools.plan_edit sha256 debug_str regex_matches expand (display_path fs (scope_of runtime) context path) args raw).
  destruct (FileTools.plan_edit _ _ _ _ _ args raw) as [plan|e] eqn:Hpl; [|done].
  split; [done|]. exists path, raw, plan. split; [done|].
  destruct (ea_dry_run args); [done|].
  unfold commit_edit, write_disk. cbn [io_write io_others io_verify quiet]. unfold id.
  by rewrite read_back, bool_decide_eq_true_2.
Qed.
End calls.

(** ** The bytes of an exact edit *)

(** A text with the line ending of the file. *)
Definition spelled (ending : LineEnding) (text : str) : str := restore_content text ending false.

Lemma split_on_app_cons sep a b : ∃ pre l l' post,
  split_on sep a = pre ++ [l] ∧ split_on sep b = l' :: post ∧ split_on sep (a ++ b) = pre ++ (l ++ l') :: post.
Proof.
  induction a as [|c a (pre & l & l' & post & Ha & Hb & Hab)].
  - pose proof (split_on_nonempty sep b) as Hne. destruct (split_on sep b) as [|l' post] eqn:E; [done|].
    exists [], [], l', post. cbn [split_on app]. by rewrite E.
  - cbn [split_on app]. destruct (c =? sep).
    + exists ([] :: pre), l, l', post. by rewrite Ha, Hb, Hab.
    + destruct pre as [|p pre].
      * exists [], (c :: l), l', post. rewrite Ha, Hb, Hab. done.
      * exists ((c :: p) :: pre), l, l', post. rewrite Ha, Hb, Hab. done.
Qed.
Lemma join_merge by_ pre l l' post :
  join by_ (pre ++ (l ++ l') :: post) = join by_ (pre ++ [l]) ++ join by_ (l' :: post).
Proof.
  induction pre as [|p pre IH].
  - cbn [app]. destruct post as [|q post]; [done|]. rewrite !join_cons by done. cbn [join]. by rewrite <- app_assoc.
  - rewrite <- !app_comm_cons, !join_cons by (by destruct pre). rewrite IH. by rewrite <- !app_assoc.
Qed.
Lemma spelled_app ending a b : spelled ending (a ++ b) = spelled ending a ++ spelled ending b.
Proof.
  unfold spelled, restore_content. destruct ending; [done|]. unfold replace_all_in. rewrite !pieces_char_split_on.
  destruct (split_on_app_cons NL a b) as (pre & l & l' & post & -> & -> & ->). apply join_merge.
Qed.

Section bytes.
Context {Token Live Captures : Type} (fs : FileSystem).
Context (path_error : PathError → str) (not_found : str) (sha256 : bytes → str) (debug_str : str → str).
Context (regex_matches : str → str → result str (list (RegexMatch Captures) * str)) (expand : Captures → str → str).
Local Abbreviation plan_edit := (plan_edit sha256 debug_str regex_matches expand).

(** In a file with one kind of line ending, an edit whose text is found as it
    stands changes the bytes of that one place and no others: the byte-order mark and
    everything before and after are kept, and the new text takes the line ending of
    the file. *)
Theorem exact_edits_touch_one_place display args raw plan raw_text :
  from_utf8 raw = Ok raw_text -> uniform (split_bom raw_text).2 ->
  ea_match_mode args = None -> ea_operation args = None -> ea_replace_all args = false ->
  plan_edit display args raw = Ok plan -> pl_strategy plan = Exact ->
  ∃ ending before after,
    let old := spelled ending (replace_all_in CRLF [NL] (ea_old_text args)) in
    let new := spelled ending (replace_all_in CRLF [NL] (ea_new_text args)) in
    raw = as_bytes (before ++ old ++ after) ∧ as_bytes (pl_post_text plan) = as_bytes (before ++ new ++ after).
Proof.
  intros Hdec Huni Hmode Hop Hall Hplan Hs. unfold FileTools.plan_edit in Hplan.
  destruct (check_expected_hash _ _ _) as [[]|]; [|done]. cbn beta iota in Hplan.
  rewrite Hop, Hmode in Hplan. cbn [parse_operation parse_match_mode] in Hplan. rewrite Hdec in Hplan.
  destruct (from_utf8_Ok _ _ Hdec) as [Hraw _]. rewrite Hall in Hplan.
  apply normalization_keeps_uniform in Huni. cbn zeta in Huni. set (n := normalize_content raw_text) in *.
  unfold decide_edit in Hplan. cbn [ed_old_text ed_match_mode desugar ed_operation ed_new_text ed_replace_all] in Hplan.
  set (old := replace_all_in CRLF [NL] (ea_old_text args)) in *. set (new := replace_all_in CRLF [NL] (ea_new_text args)) in *.
  destruct (is_nil old) eqn:Hold; [done|].
  assert (Hne : old ≠ []) by (intros H; by rewrite H in Hold).
  pose proof (decide_ladder_ok (nc_text n) old new false Hne) as Hok.
  destruct (decide_ladder (nc_text n) old new false) as [result strategy k line diff|?|???|?|?]; try done.
  injection Hplan as <-. cbn [pl_strategy pl_post_text] in *. subst strategy.
  destruct Hok as (_ & (ps & Hl & _ & Hc & Hres) & _ & _ & Hk & _). rewrite (Hk eq_refl) in Hl.
  destruct ps as [|a [|b []]]; try done. cbn [join] in Hc, Hres. subst result.
  assert (Hbody : ∀ text, restore_content text (nc_ending n) (nc_had_bom n)
    = (if nc_had_bom n then [BOM] else []) ++ spelled (nc_ending n) text) by (intros; by destruct (nc_had_bom n)).
  exists (nc_ending n), ((if nc_had_bom n then [BOM] else []) ++ spelled (nc_ending n) a), (spelled (nc_ending n) b).
  cbn zeta. rewrite <- !app_assoc, <- !spelled_app, <- !Hbody. rewrite <- Hc. by rewrite Huni.
Qed.
End bytes.

(** ** One lock per file *)

Section locks.
Context (fs : FileSystem) `{!FsLaws fs}.

Lemma lock_key_from_physical fuel : ∀ current suffix, (length current <= fuel)%nat -> current ≠ [] ->
  physical fs current -> lock_key_from fs fuel current suffix = Some (current ++ suffix).
Proof.
  induction fuel as [|fuel IH]; intros current suffix Hl Hne Hp; [destruct current; [done|cbn in Hl; lia]|]. cbn [lock_key_from].
  destruct (split_last current) as [[parent name]|] eqn:Hs; [|by apply split_last_None in Hs].
  apply split_last_Some in Hs as ->. rewrite length_app in Hl. cbn in Hl.
  assert (Hpp : physical fs parent) by (intros q Hq; apply Hp; by apply prefix_app_r).
  rewrite <- app_assoc. cbn [app]. destruct (canonicalize fs (at_location parent)) as [c|] eqn:Hc.
  - by rewrite (physical_resolves fs parent c Hpp Hc).
  - apply IH; [lia| |done]. intros ->. rewrite (fs_fixed []) in Hc; [done|]. left. apply fs_root.
Qed.
Lemma lock_key_physical p : physical fs p -> canonical_lock_key fs p = p.
Proof.
  intros Hp. unfold canonical_lock_key. destruct (canonicalize fs (at_location p)) as [c|] eqn:Hc.
  - by apply (physical_resolves fs).
  - destruct p as [|n p]; [done|]. rewrite lock_key_from_physical by done. cbn [default from_option].
    by rewrite app_nil_r.
Qed.

(** The lock of a mutation is the location itself, whatever spelling or links the
    path was given by: an edit and a write, existing file or new, of one file take
    one lock, and of two files two. *)
Theorem mutations_of_a_file_share_its_lock scope context raw p :
  resolve_existing_file fs scope context raw = Ok p ∨ resolve_path_allow_create fs scope context raw = Ok p ->
  canonical_lock_key fs p = p.
Proof.
  intros Hres. apply lock_key_physical. destruct Hres as [Hres|Hres].
  - unfold resolve_existing_file, resolve_path in Hres.
    destruct (canonicalize fs (join_path _ _)) as [c|] eqn:Hc; [|done]. cbn beta iota in Hres.
    destruct (ensure_allowed _ _ _) as [q|] eqn:Ha; [|done]. apply ensure_allowed_Ok in Ha as [-> _].
    cbn beta iota in Hres. destruct (is_file fs c); [|done]. injection Hres as <-. by eapply canonical_physical.
  - unfold resolve_path_allow_create in Hres. destruct (normalize_for_creation _ _) as [q|] eqn:Hn; [|done].
    cbn beta iota in Hres. apply ensure_allowed_Ok in Hres as [-> _]. by eapply created_physical.
Qed.
End locks.

(** ** Interleaved mutations *)

(** What a call does to its file under the lock: an edit decides from the bytes it
    reads whether and what to write, a write overwrites. *)
Inductive Mutation : Type := Mu_Edit (plan : bytes → option bytes) | Mu_Write (content : bytes).
Record Mutator : Type := mkMutator { mu_path : location; mu_mutation : Mutation }.
(** The call on its own. *)
Definition apply_mutation (d : disk) (m : Mutator) : disk :=
  match mu_mutation m with
  | Mu_Edit plan => match d !! mu_path m ≫= plan with Some post => <[mu_path m := post]> d | None => d end
  | Mu_Write content => <[mu_path m := content]> d
  end.

Inductive MutatorPc : Type :=
  | Waiting
  | Holding
  | Validated (raw post : bytes)
  | Written
  | Finished.
(** The history lists the calls in the order of their effect. *)
Record World : Type := mkWorld {
  w_disk : disk; w_locks : gmap location nat; w_pcs : list MutatorPc; w_history : list nat }.

Section interleaving.
Context (key : location → location) (calls : list Mutator).
Definition initial (d : disk) : World := mkWorld d ∅ (replicate (length calls) Waiting) [].

(** One step of call [i]: [lock.lock().await], [fs::read] with the checks and the
    match, [fs::write], and the drop of the guard. *)
Inductive mutator_step : World → World → Prop :=
  | ms_lock i m d locks pcs history :
      calls !! i = Some m -> pcs !! i = Some Waiting -> locks !! key (mu_path m) = None ->
      mutator_step (mkWorld d locks pcs history)
        (mkWorld d (<[key (mu_path m) := i]> locks) (<[i := Holding]> pcs) history)
  | ms_validate i m plan raw post d locks pcs history :
      calls !! i = Some m -> pcs !! i = Some Holding -> mu_mutation m = Mu_Edit plan ->
      d !! mu_path m = Some raw -> plan raw = Some post ->
      mutator_step (mkWorld d locks pcs history) (mkWorld d locks (<[i := Validated raw post]> pcs) history)
  | ms_refuse i m plan d locks pcs history :
      calls !! i = Some m -> pcs !! i = Some Holding -> mu_mutation m = Mu_Edit plan ->
      d !! mu_path m ≫= plan = None ->
      mutator_step (mkWorld d locks pcs history) (mkWorld d locks (<[i := Written]> pcs) (history ++ [i]))
  | ms_edit i m raw post d locks pcs history :
      calls !! i = Some m -> pcs !! i = Some (Validated raw post) ->
      mutator_step (mkWorld d locks pcs history)
        (mkWorld (<[mu_path m := post]> d) locks (<[i := Written]> pcs) (history ++ [i]))
  | ms_write i m content d locks pcs history :
      calls !! i = Some m -> pcs !! i = Some Holding -> mu_mutation m = Mu_Write content ->
      mutator_step (mkWorld d locks pcs history)
        (mkWorld (<[mu_path m := content]> d) locks (<[i := Written]> pcs) (history ++ [i]))
  | ms_unlock i m d locks pcs history :
      calls !! i = Some m -> pcs !! i = Some Written ->
      mutator_step (mkWorld d locks pcs history)
        (mkWorld d (delete (key (mu_path m)) locks) (<[i := Finished]> pcs) history).

Definition holds (pc : MutatorPc) : Prop :=
  match pc with Holding | Validated _ _ | Written => True | _ => False end.
Definition effective_pc (pc : MutatorPc) : Prop := match pc with Written | Finished => True | _ => False end.

Record world_ok (d0 : disk) (w : World) : Prop := {
  wo_locked i m pc : calls !! i = Some m -> w_pcs w !! i = Some pc -> holds pc ->
    w_locks w !! key (mu_path m) = Some i;
  wo_current i m raw post : calls !! i = Some m -> w_pcs w !! i = Some (Validated raw post) ->
    w_disk w !! mu_path m = Some raw
    ∧ ∃ plan, mu_mutation m = Mu_Edit plan ∧ plan raw = Some post;
  wo_serial : w_disk w = foldl apply_mutation d0 (omap (calls !!.) (w_history w));
  wo_history i : i ∈ w_history w <-> ∃ pc, w_pcs w !! i = Some pc ∧ effective_pc pc;
  wo_once : NoDup (w_history w) }.

Lemma initial_ok d : world_ok d (initial d).
Proof.
  split; cbn [initial w_pcs w_disk w_history w_locks].
  - intros i m pc _ [-> _]%lookup_replicate. done.
  - intros i m raw post _ [? _]%lookup_replicate. done.
  - done.
  - intros i. split; [by intros ?%elem_of_nil|]. by intros (pc & [-> _]%lookup_replicate & ?).
  - constructor.
Qed.

(** Two calls that hold a lock on one path are one call. *)
Lemma holder_unique d0 w i j m m' pc pc' : world_ok d0 w ->
  calls !! i = Some m -> calls !! j = Some m' -> w_pcs w !! i = Some pc -> w_pcs w !! j = Some pc' ->
  holds pc -> holds pc' -> mu_path m = mu_path m' -> i = j.
Proof.
  intros Hw Hi Hj Hpi Hpj Hh Hh' Hp. pose proof (wo_locked _ _ Hw i m pc Hi Hpi Hh) as H1.
  pose proof (wo_locked _ _ Hw j m' pc' Hj Hpj Hh') as H2. rewrite Hp in H1. congruence.
Qed.
Lemma serial_snoc history i m : calls !! i = Some m ->
  omap (calls !!.) (history ++ [i]) = omap (calls !!.) history ++ [m].
Proof. intros Hi. rewrite omap_app. cbn [omap list_omap]. by rewrite Hi. Qed.

(** A call that moves from one locked point to another without an effect. *)
Lemma move_ok d0 d locks pcs history i m pc pc' :
  calls !! i = Some m -> pcs !! i = Some pc -> ~ effective_pc pc -> ~ effective_pc pc' -> holds pc ->
  (∀ raw post, pc' = Validated raw post ->
     d !! mu_path m = Some raw ∧ ∃ plan, mu_mutation m = Mu_Edit plan ∧ plan raw = Some post) ->
  world_ok d0 (mkWorld d locks pcs history) -> world_ok d0 (mkWorld d locks (<[i := pc']> pcs) history).
Proof.
  intros Hi Hp He He' Hh Hv Hw. pose proof (lookup_lt_Some _ _ _ Hp) as Hlt.
  destruct Hw as [Hl Hc Hs Hhist Ho]. cbn [w_disk w_locks w_pcs w_history] in *.
  split; cbn [w_disk w_locks w_pcs w_history]; [..|done].
  - intros j m' pc0 Hj Hpj Hh'. apply list_lookup_insert_Some in Hpj as [(<- & _ & _)|[_ Hpj]]; [|by eapply Hl].
    assert (m' = m) as -> by congruence. by eapply Hl.
  - intros j m' raw post Hj Hpj.
    apply list_lookup_insert_Some in Hpj as [(<- & -> & _)|[_ Hpj]]; [|by eapply Hc].
    assert (m' = m) as -> by congruence. by apply Hv.
  - done.
  - intros j. rewrite Hhist. split; intros (pc0 & Hpj & Hep).
    + exists pc0. split; [|done]. rewrite list_lookup_insert_ne; [done|]. intros <-. congruence.
    + apply list_lookup_insert_Some in Hpj as [(<- & -> & _)|[_ Hpj]]; [done|]. by exists pc0.
Qed.

(** A call takes effect: the disk changes at its path only, as the call alone would
    change it. *)
Lemma effect_ok d0 d locks pcs history i m pc :
  calls !! i = Some m -> pcs !! i = Some pc -> ~ effective_pc pc -> holds pc ->
  world_ok d0 (mkWorld d locks pcs history) ->
  world_ok d0 (mkWorld (apply_mutation d m) locks (<[i := Written]> pcs) (history ++ [i])).
Proof.
  intros Hi Hp He Hh Hw. pose proof (lookup_lt_Some _ _ _ Hp) as Hlt.
  assert (Hsame : ∀ q, q ≠ mu_path m -> apply_mutation d m !! q = d !! q).
  { intros q Hq. unfold apply_mutation. repeat case_match; try done; by rewrite lookup_insert_ne. }
  pose proof Hw as [Hl Hc Hs Hhist Ho]. cbn [w_disk w_locks w_pcs w_history] in *.
  split; cbn [w_disk w_locks w_pcs w_history].
  - intros j m' pc0 Hj Hpj Hh'. apply list_lookup_insert_Some in Hpj as [(<- & _ & _)|[_ Hpj]]; [|by eapply Hl].
    assert (m' = m) as -> by congruence. by eapply Hl.
  - intros j m' raw post Hj Hpj. apply list_lookup_insert_Some in Hpj as [(_ & [=] & _)|[Hne Hpj]].
    destruct (Hc j m' raw post Hj Hpj) as [Hd Hplan]. split; [|done]. rewrite Hsame; [done|]. intros Heq.
    apply Hne. exact (holder_unique d0 _ i j m m' pc (Validated raw post) Hw Hi Hj Hp Hpj Hh I (eq_sym Heq)).
  - rewrite (serial_snoc _ _ _ Hi), foldl_app, <- Hs. done.
  - intros j. rewrite elem_of_app, list_elem_of_singleton, Hhist. split.
    + intros [(pc0 & Hpj & Hep)| ->].
      * exists pc0. split; [|done]. rewrite list_lookup_insert_ne; [done|]. intros <-. congruence.
      * exists Written. by rewrite list_lookup_insert_eq.
    + intros (pc0 & Hpj & Hep). apply list_lookup_insert_Some in Hpj as [(<- & _ & _)|[_ Hpj]]; [by right|].
      left. by exists pc0.
  - apply list.NoDup_app. split_and!; [done| |apply NoDup_singleton].
    intros j Hj ->%list_elem_of_singleton. apply Hhist in Hj as (pc0 & Hpj & Hep). congruence.
Qed.

Lemma mutator_step_ok d0 w w' : mutator_step w w' -> world_ok d0 w -> world_ok d0 w'.
Proof.
  intros Hstep Hw. destruct Hstep as [i m d locks pcs history Hi Hp Hfree
    |i m plan raw post d locks pcs history Hi Hp Hm Hd Hplan|i m plan d locks pcs history Hi Hp Hm Hd
    |i m raw post d locks pcs history Hi Hp|i m content d locks pcs history Hi Hp Hm
    |i m d locks pcs history Hi Hp].
  - pose proof (lookup_lt_Some _ _ _ Hp) as Hlt. destruct Hw as [Hl Hc Hs Hhist Ho].
    cbn [w_disk w_locks w_pcs w_history] in *. split; cbn [w_disk w_locks w_pcs w_history]; [..|done].
    + intros j m' pc0 Hj Hpj Hh. apply list_lookup_insert_Some in Hpj as [(<- & _ & _)|[_ Hpj]].
      * assert (m' = m) as -> by congruence. by rewrite lookup_insert_eq.
      * rewrite lookup_insert_ne; [by eapply Hl|]. intros Heq. pose proof (Hl j m' pc0 Hj Hpj Hh). congruence.
    + intros j m' raw post Hj Hpj. apply list_lookup_insert_Some in Hpj as [(_ & [=] & _)|[_ Hpj]]. by eapply Hc.
    + done.
    + intros j. rewrite Hhist. split; intros (pc0 & Hpj & Hep).
      * exists pc0. split; [|done]. rewrite list_lookup_insert_ne; [done|]. intros <-.
        rewrite Hp in Hpj. by injection Hpj as <-.
      * apply list_lookup_insert_Some in Hpj as [(<- & <- & _)|[_ Hpj]]; [done|]. by exists pc0.
  - eapply move_ok; [done|done|by intros []|by intros []|done| |done].
    intros raw' post' [= <- <-]. split; [done|]. by exists plan.
  - pose proof (effect_ok d0 d locks pcs history i m Holding Hi Hp (λ H, H) I Hw) as H.
    unfold apply_mutation in H. by rewrite Hm, Hd in H.
  - destruct (wo_current _ _ Hw i m raw post Hi Hp) as [Hd (plan & Hm & Hplan)]. cbn [w_disk] in Hd.
    pose proof (effect_ok d0 d locks pcs history i m (Validated raw post) Hi Hp (λ H, H) I Hw) as H.
    unfold apply_mutation in H. rewrite Hm, Hd in H. cbn [mbind option_bind] in H. by rewrite Hplan in H.
  - pose proof (effect_ok d0 d locks pcs history i m Holding Hi Hp (λ H, H) I Hw) as H.
    unfold apply_mutation in H. by rewrite Hm in H.
  - pose proof (lookup_lt_Some _ _ _ Hp) as Hlt. pose proof Hw as [Hl Hc Hs Hhist Ho].
    cbn [w_disk w_locks w_pcs w_history] in *. split; cbn [w_disk w_locks w_pcs w_history]; [..|done].
    + intros j m' pc0 Hj Hpj Hh. apply list_lookup_insert_Some in Hpj as [(_ & <- & _)|[Hne Hpj]]; [done|].
      pose proof (Hl j m' pc0 Hj Hpj Hh) as H1. pose proof (Hl i m Written Hi Hp I) as H2.
      rewrite lookup_delete_ne; [done|]. intros Heq. rewrite Heq in H2. congruence.
    + intros j m' raw post Hj Hpj. apply list_lookup_insert_Some in Hpj as [(_ & [=] & _)|[_ Hpj]]. by eapply Hc.
    + done.
    + intros j. rewrite Hhist. split; intros (pc0 & Hpj & Hep).
      * destruct (decide (j = i)) as [->|Hne]; [exists Finished; by rewrite list_lookup_insert_eq|].
        exists pc0. by rewrite list_lookup_insert_ne.
      * apply list_lookup_insert_Some in Hpj as [(<- & _ & _)|[_ Hpj]]; [by exists Written|by exists pc0].
Qed.

End interleaving.

(** The calls of the tools are such mutations. *)
Section as_mutations.
Context {Token Live Captures : Type} (fs : FileSystem).
Context (path_error : PathError → str) (not_found : str) (sha256 : bytes → str) (debug_str : str → str).
Context (regex_matches : str → str → result str (list (RegexMatch Captures) * str)) (expand : Captures → str → str).
Context (print_write_metadata : WriteFileMetadata → str).
Context (print_edit_metadata : EditFileMetadata → str) (print_edit_output : EditFileOutput → str).
Implicit Types runtime : option (CurrentToolRuntimeContext Token Live).

Definition edit_mutation (display : str) (args : EditFileArgs) : Mutation :=
  Mu_Edit (λ raw, match plan_edit sha256 debug_str regex_matches expand display args raw with
                  | Ok plan => Some (as_bytes (pl_post_text plan))
                  | Err _ => None
                  end).

Lemma edit_call_is_its_mutation runtime context args path d :
  deny_workspace_file_writes runtime = Ok tt -> ea_dry_run args = false ->
  resolve_existing_file fs (scope_of runtime) context (ea_path args) = Ok path ->
  (edit_file_call fs path_error not_found sha256 debug_str regex_matches expand print_edit_metadata
     print_edit_output runtime quiet None context args d).2
  = apply_mutation d (mkMutator path (edit_mutation (display_path fs (scope_of runtime) context path) args)).
Proof.
  intros Hw Hdry Hp. unfold edit_file_call. rewrite Hdry, Hw, Hp. unfold read_disk at 1. cbn [io_read quiet].
  unfold apply_mutation, edit_mutation. cbn [mu_path mu_mutation].
  destruct (d !! path) as [raw|]; [|done]. cbn [mbind option_bind].
  destruct (plan_edit _ _ _ _ _ args raw) as [plan|]; [|done]. unfold commit_edit, write_disk.
  cbn [io_write io_others io_verify quiet]. unfold id. rewrite read_back. by rewrite bool_decide_eq_true_2.
Qed.
Lemma write_call_is_its_mutation runtime context args path d :
  deny_workspace_file_writes runtime = Ok tt ->
  resolve_path_allow_create fs (scope_of runtime) context (wa_path args) = Ok path ->
  (write_file_call fs path_error not_found sha256 print_write_metadata runtime quiet None context args d).2
  = apply_mutation d (mkMutator path (Mu_Write (as_bytes (wa_content args)))).
Proof. intros Hw Hp. unfold write_file_call. by rewrite Hw, Hp. Qed.
End as_mutations.

(** ** Ranges of lines *)

Lemma render_range_spec first last lines : ∀ k,
  render_range first last k lines
  = imap (λ i line, numbered (Z.max first k + Z.of_nat i) line)
      (take (Z.to_nat (last + 1 - Z.max first k)) (drop (Z.to_nat (first - k)) lines)).
Proof.
  induction lines as [|line lines IH]; intros k; cbn [render_range]; [by rewrite drop_nil, take_nil|].
  rewrite IH. destruct (Z.ltb_spec k first) as [Hlt|Hge]; cbn [orb].
  - replace (Z.to_nat (first - k)) with (S (Z.to_nat (first - (k + 1)))) by lia. cbn [drop].
    by replace (Z.max first (k + 1)) with (Z.max first k) by lia.
  - replace (Z.to_nat (first - k)) with 0%nat by lia. replace (Z.to_nat (first - (k + 1))) with 0%nat by lia.
    rewrite !drop_0. replace (Z.max first k) with k by lia. replace (Z.max first (k + 1)) with (k + 1) by lia.
    destruct (Z.ltb_spec last k) as [Hl|Hl].
    + by replace (Z.to_nat (last + 1 - (k + 1))) with 0%nat by lia; replace (Z.to_nat (last + 1 - k)) with 0%nat by lia.
    + replace (Z.to_nat (last + 1 - k)) with (S (Z.to_nat (last + 1 - (k + 1)))) by lia. cbn [take imap].
      rewrite Z.add_0_r. f_equal. apply imap_ext. intros i x _. unfold compose.
      by replace (k + Z.of_nat (S i)) with (k + 1 + Z.of_nat i) by lia.
Qed.

(** A read shows the lines of the range asked for, each with its own number in the
    file, the first line being 1: a start below 1 is 1, an end below the start is the
    start, and no end is the end of the file. *)
Theorem read_shows_the_requested_lines text first last :
  let r := render_file_contents text first last in
  let lines := drop (Z.to_nat (rf_start_line r - 1))
                 (take (Z.to_nat (rf_end_line r)) (str_lines text)) in
  1 <= rf_start_line r <= rf_end_line r
  ∧ (∀ s, first = Some s -> 1 <= s -> rf_start_line r = s)
  ∧ (∀ e, last = Some e -> rf_start_line r <= e -> rf_end_line r = e)
  ∧ rf_total_lines r = Z.of_nat (length (str_lines text))
  ∧ rf_returned_lines r = Z.of_nat (length lines)
  ∧ (lines ≠ [] -> rf_content r = join [NL] (imap (λ i line, numbered (rf_start_line r + Z.of_nat i) line) lines)).
Proof.
  cbn zeta. unfold render_file_contents. cbn [rf_start_line rf_end_line rf_total_lines rf_returned_lines rf_content].
  set (s := Z.max (default 1 first) 1). set (total := Z.of_nat (length (str_lines text))).
  set (e := Z.max (default (Z.max total s) last) s). rewrite render_range_spec.
  assert (Hlines : take (Z.to_nat (e + 1 - Z.max s 1)) (drop (Z.to_nat (s - 1)) (str_lines text))
                   = drop (Z.to_nat (s - 1)) (take (Z.to_nat e) (str_lines text))).
  { rewrite take_drop_commute. f_equal. f_equal. lia. }
  rewrite Hlines. replace (Z.max s 1) with s by lia. set (lines := drop _ _). split_and!.
  - lia.
  - lia.
  - intros x -> Hx. unfold s. cbn. lia.
  - intros x -> Hx. unfold e. cbn. lia.
  - done.
  - by rewrite length_imap.
  - intros Hne. destruct lines as [|l lines']; [done|]. done.
Qed.

(** ** Runs *)

Definition demo_path : location := lit <$> ["work"; "src"; "main.rs"]%string.
Definition demo_disk : gmap location bytes := {[ demo_path := as_bytes (lit "one" ++ CRLF ++ lit "two" ++ CRLF) ]}.
Definition demo_edit : EditFileArgs :=
  mkEditArgs (lit "/work/here/main.rs") (lit "two") (lit "deux" ++ [NL] ++ lit "trois") false false false None None None.
Definition demo_regex (pattern content : str) : result str (list (RegexMatch unit) * str) := Ok ([], content).
Definition demo_post : str := lit "one" ++ CRLF ++ lit "deux" ++ CRLF ++ lit "trois" ++ CRLF.
Local Abbreviation demo_call := (edit_file_call (Token := unit) (Live := unit) demo_fs (λ _, []) [] (λ _, lit "h") (λ s, s)
  demo_regex (λ _ t, t) (λ _, []) (λ _, [])).

Lemma edits_write_what_they_decided_witness :
  ∃ text, demo_call None quiet None demo_context demo_edit demo_disk
          = (Ok text, <[demo_path := as_bytes demo_post]> demo_disk)
  ∧ ∃ path raw plan, resolve_existing_file demo_fs no_scope demo_context (ea_path demo_edit) = Ok path
      ∧ demo_disk !! path = Some raw
      ∧ <[demo_path := as_bytes demo_post]> demo_disk = <[path := as_bytes (pl_post_text plan)]> demo_disk.
Proof.
  eexists. split; [vm_compute; reflexivity|].
  pose proof (edits_write_what_they_decided (Token := unit) (Live := unit) demo_fs (λ _, []) [] (λ _, lit "h") (λ s, s)
    demo_regex (λ _ t, t) (λ _, []) (λ _, []) None quiet demo_context demo_edit demo_disk eq_refl) as H.
  match type of H with match ?call with _ => _ end =>
    assert (Hc : ∃ text, call = (Ok text, <[demo_path := as_bytes demo_post]> demo_disk))
      by (eexists; vm_compute; reflexivity); destruct Hc as [text Hc]; rewrite Hc in H end.
  destruct H as (path & raw & plan & Hp & Hr & _ & _ & Hd & _). exists path, raw, plan. split; [exact Hp|].
  split; [exact Hr|]. exact Hd.
Defined.

Lemma preview_is_faithful_witness :
  ∃ path raw plan, demo_call None quiet None demo_context demo_edit demo_disk
    = (Ok (report_edit (λ _, lit "h") (λ _, []) (λ _, []) (display_path demo_fs no_scope demo_context path)
             demo_edit raw plan None), <[path := as_bytes (pl_post_text plan)]> demo_disk).
Proof.
  pose proof (preview_is_faithful (Token := unit) (Live := unit) demo_fs (λ _, []) [] (λ _, lit "h") (λ s, s)
    demo_regex (λ _ t, t) (λ _, []) (λ _, []) None demo_context demo_edit demo_disk
    ltac:(intros a; discriminate)) as H. cbn zeta in H.
  match type of H with match ?call with _ => _ end =>
    assert (Hc : ∃ text, call = (Ok text, demo_disk)) by (eexists; vm_compute; reflexivity);
    destruct Hc as [text Hc]; rewrite Hc in H end.
  destruct H as (_ & path & raw & plan & _ & H). exists path, raw, plan. exact H.
Defined.

Lemma exact_edits_touch_one_place_witness :
  ∃ plan, plan_edit (λ _, lit "h") (λ s, s) demo_regex (λ _ t, t) [] demo_edit (demo_disk !!! demo_path) = Ok plan
  ∧ ∃ ending before after,
      demo_disk !!! demo_path = as_bytes (before ++ spelled ending (lit "two") ++ after)
      ∧ as_bytes (pl_post_text plan)
        = as_bytes (before ++ spelled ending (lit "deux" ++ [NL] ++ lit "trois") ++ after).
Proof.
  destruct (plan_edit (λ _, lit "h") (λ s, s) demo_regex (λ _ t, t) [] demo_edit (demo_disk !!! demo_path))
    as [plan|e] eqn:Hp; [|vm_compute in Hp; discriminate].
  exists plan. split; [reflexivity|].
  refine (exact_edits_touch_one_place (λ _, lit "h") (λ s, s) demo_regex (λ _ t, t) [] demo_edit
    (demo_disk !!! demo_path) plan (lit "one" ++ CRLF ++ lit "two" ++ CRLF) _ _ eq_refl eq_refl eq_refl Hp _).
  - vm_compute. reflexivity.
  - right. exists [lit "one"; lit "two"; []]. split; [discriminate|]. split; [|vm_compute; reflexivity].
    repeat constructor; apply (bool_decide_eq_true_1 _); vm_compute; reflexivity.
  - vm_compute in Hp. injection Hp as <-. reflexivity.
Defined.

Lemma mutations_of_a_file_share_its_lock_witness :
  resolve_existing_file demo_fs no_scope demo_context (lit "/work/here/main.rs") = Ok demo_path
  ∧ resolve_path_allow_create demo_fs no_scope demo_context (lit "main.rs") = Ok demo_path
  ∧ canonical_lock_key demo_fs demo_path = demo_path.
Proof.
  split; [vm_compute; reflexivity|]. split; [vm_compute; reflexivity|].
  apply (@mutations_of_a_file_share_its_lock demo_fs (tree_fs_laws demo_tree demo_tree_wf) no_scope demo_context
    (lit "main.rs")).
  right. vm_compute. reflexivity.
Defined.

Definition demo_mutators : list Mutator :=
  [mkMutator demo_path (Mu_Edit (λ raw, Some (raw ++ [33]))); mkMutator demo_path (Mu_Write [7])].
Definition demo_world : World :=
  mkWorld demo_disk {[ demo_path := 0%nat ]}
    [Validated (demo_disk !!! demo_path) (demo_disk !!! demo_path ++ [33]); Waiting] [].
