(* ===== verification/ScheduleCron.v ===== *)
(** * Cron schedules

    [schedule_cron.rs]: five-field cron expressions, their fields as sets of values,
    and the search for the next run in a time zone.  Instants are nanoseconds since
    the epoch; the IANA time zones of [chrono_tz] enter as parameters ([parse_tz] and
    the wall clock [with_timezone] of an instant).

    The theorems: a parsed field holds exactly the values its list of ranges and steps
    names, all within the bounds of the field, and the next run is the first minute
    after the given instant whose wall clock matches, or there is none in five
    years. *)

From S2P Require Import Prelude RustStr CommandPolicy.
Open Scope Z_scope.

Inductive FieldKind : Type := FK_Minute | FK_Hour | FK_DayOfMonth | FK_Month | FK_DayOfWeek.
Inductive CronError : Type :=
  | CE_FieldCount
  | CE_EmptyField (kind : FieldKind)
  | CE_EmptyListItem (kind : FieldKind)
  | CE_InvalidStep (kind : FieldKind) (step : str)
  | CE_ZeroStep (kind : FieldKind)
  | CE_EmptyValue (kind : FieldKind)
  | CE_InvalidValue (kind : FieldKind) (raw : str)
  | CE_OutOfRange (kind : FieldKind) (value : Z)
  | CE_BackwardRange (kind : FieldKind) (first last : Z)
  | CE_InvalidTimezone (timezone : str)
  | CE_MissedRunPolicy (other : str)
  | CE_NoRun (expression timezone : str).

Definition field_label (k : FieldKind) : str :=
  match k with
  | FK_Minute => lit "minute"
  | FK_Hour => lit "hour"
  | FK_DayOfMonth => lit "day-of-month"
  | FK_Month => lit "month"
  | FK_DayOfWeek => lit "day-of-week"
  end.
Definition field_min (k : FieldKind) : Z :=
  match k with FK_Minute | FK_Hour | FK_DayOfWeek => 0 | FK_DayOfMonth | FK_Month => 1 end.
Definition field_max (k : FieldKind) : Z :=
  match k with FK_Minute => 59 | FK_Hour => 23 | FK_DayOfMonth => 31 | FK_Month => 12 | FK_DayOfWeek => 7 end.
Fixpoint position (name : str) (names : list string) (from : Z) : option Z :=
  match names with
  | [] => None
  | n :: names => if str_eqb name (lit n) then Some from else position name names (from + 1)
  end.
Definition named_value (k : FieldKind) (raw : str) : option Z :=
  let upper := to_ascii_uppercase raw in
  match k with
  | FK_Month => position upper ["JAN"; "FEB"; "MAR"; "APR"; "MAY"; "JUN"; "JUL"; "AUG"; "SEP"; "OCT"; "NOV"; "DEC"]%string 1
  | FK_DayOfWeek => position upper ["SUN"; "MON"; "TUE"; "WED"; "THU"; "FRI"; "SAT"]%string 0
  | _ => None
  end.
Definition parse_value (k : FieldKind) (raw : str) : result CronError Z :=
  let raw := trim raw in
  if is_nil raw then Err (CE_EmptyValue k)
  else
    let? value := match named_value k raw with
                  | Some value => Ok value
                  | None => match parse_unsigned u32_max raw with
                            | Some value => Ok value
                            | None => Err (CE_InvalidValue k raw)
                            end
                  end in
    if (value <? field_min k) || (field_max k <? value) then Err (CE_OutOfRange k value) else Ok value.
Definition normalize_value (k : FieldKind) (value : Z) : Z :=
  match k with FK_DayOfWeek => if value =? 7 then 0 else value | _ => value end.

(** The loop over the values of a range; at most [fuel] of them are left. *)
Fixpoint step_values (k : FieldKind) (fuel : nat) (value step last : Z) (values : gset Z) : gset Z :=
  match fuel with
  | O => values
  | S fuel =>
      if value <=? last then
        let values := {[ normalize_value k value ]} ∪ values in
        match checked_add u32_max value step with
        | Some next => step_values k fuel next step last values
        | None => values
        end
      else values
  end.
(** The range and step of one item of a field's list. *)
Definition part_range (part : str) (k : FieldKind) : result CronError (Z * Z * Z) :=
  let? (base, step, has_step) :=
    match split_once 47 part with
    | Some (base, step) =>
        match parse_unsigned u32_max step with
        | None => Err (CE_InvalidStep k step)
        | Some step => if step =? 0 then Err (CE_ZeroStep k) else Ok (base, step, true)
        end
    | None => Ok (part, 1, false)
    end in
  let? (first, last) :=
    (if str_eqb base (lit "*") then Ok (field_min k, field_max k)
     else match split_once 45 base with
          | Some (first, last) =>
              let? first := parse_value k first in
              let? last := parse_value k last in
              Ok (first, last)
          | None =>
              let? value := parse_value k base in
              Ok (value, if has_step then field_max k else value)
          end) in
  if last <? first then Err (CE_BackwardRange k first last) else Ok (first, last, step).
Definition extend_part_values (part : str) (k : FieldKind) (values : gset Z) : result CronError (gset Z) :=
  let? (first, last, step) := part_range part k in
  Ok (step_values k (Z.to_nat (last - first + 1)) first step last values).

Record CronField : Type := mkCronField { cf_values : gset Z; cf_wildcard : bool }.
Fixpoint parse_parts (k : FieldKind) (parts : list str) (field : CronField) : result CronError CronField :=
  match parts with
  | [] => Ok field
  | part :: parts =>
      let part := trim part in
      if is_nil part then Err (CE_EmptyListItem k)
      else
        let wildcard := cf_wildcard field || starts_with [42] part in
        let? values := extend_part_values part k (cf_values field) in
        parse_parts k parts (mkCronField values wildcard)
  end.
Definition parse_field (raw : str) (k : FieldKind) : result CronError CronField :=
  let raw := trim raw in
  if is_nil raw then Err (CE_EmptyField k) else parse_parts k (split_on 44 raw) (mkCronField ∅ false).
Definition field_contains (f : CronField) (value : Z) : bool := bool_decide (value ∈ cf_values f).

Record CronSpec : Type := mkSpec {
  cs_minutes : CronField; cs_hours : CronField; cs_days_of_month : CronField; cs_months : CronField;
  cs_days_of_week : CronField }.
Definition parse_spec (expression : str) : result CronError CronSpec :=
  match split_whitespace expression with
  | [f0; f1; f2; f3; f4] =>
      let? minutes := parse_field f0 FK_Minute in
      let? hours := parse_field f1 FK_Hour in
      let? days_of_month := parse_field f2 FK_DayOfMonth in
      let? months := parse_field f3 FK_Month in
      let? days_of_week := parse_field f4 FK_DayOfWeek in
      Ok (mkSpec minutes hours days_of_month months days_of_week)
  | _ => Err CE_FieldCount
  end.

(** The wall clock of an instant, the week counted from Sunday. *)
Record LocalTime : Type := mkLocal {
  lt_minute : Z; lt_hour : Z; lt_day : Z; lt_month : Z; lt_weekday : Z }.
Definition spec_matches (s : CronSpec) (local : LocalTime) : bool :=
  if negb (field_contains (cs_minutes s) (lt_minute local)) then false
  else if negb (field_contains (cs_hours s) (lt_hour local)) then false
  else if negb (field_contains (cs_months s) (lt_month local)) then false
  else
    let dom_matches := field_contains (cs_days_of_month s) (lt_day local) in
    let dow_matches := field_contains (cs_days_of_week s) (lt_weekday local) in
    if negb (cf_wildcard (cs_days_of_month s)) && negb (cf_wildcard (cs_days_of_week s))
    then dom_matches || dow_matches
    else dom_matches && dow_matches.

Definition DEFAULT_CRON_MISSED_RUN_POLICY : str := lit "latest_only".
Inductive CronMissedRunPolicy : Type := LatestOnly.
Definition parse_missed_run_policy (value : option str) : result CronError CronMissedRunPolicy :=
  let value := match trim <$> value with
               | Some v => if is_nil v then DEFAULT_CRON_MISSED_RUN_POLICY else v
               | None => DEFAULT_CRON_MISSED_RUN_POLICY
               end in
  if str_eqb value DEFAULT_CRON_MISSED_RUN_POLICY then Ok LatestOnly else Err (CE_MissedRunPolicy value).

Definition MINUTE : Z := 60 * 1000000000.
Definition MAX_CRON_LOOKAHEAD_MINUTES : Z := 366 * 24 * 60 * 5.
Definition truncate_to_next_minute (after_utc : Z) : Z := (after_utc + MINUTE) / MINUTE * MINUTE.

(** ** The values of a field *)

Lemma parse_value_range k raw v : parse_value k raw = Ok v -> field_min k <= v <= field_max k.
Proof.
  unfold parse_value. case_match; [done|]. destruct (named_value k _) as [u|].
  - case_match eqn:Hr; [done|]. intros [= <-]. lia.
  - destruct (parse_unsigned u32_max _) as [u|]; [|done].
    case_match eqn:Hr; [done|]. intros [= <-]. lia.
Qed.
Lemma field_bounds k : 0 <= field_min k <= field_max k ∧ field_max k <= 59.
Proof. destruct k; cbn; lia. Qed.
Lemma part_range_bounds part k first last step : part_range part k = Ok (first, last, step) ->
  field_min k <= first <= last ∧ last <= field_max k ∧ 1 <= step.
Proof.
  unfold part_range.
  set (S := match split_once 47 part with Some _ => _ | None => _ end).
  assert (HS : match S with Ok (_, st, _) => 1 <= st | Err _ => True end).
  { subst S. destruct (split_once 47 part) as [[base st]|]; [|lia].
    destruct (parse_unsigned u32_max st) as [n|] eqn:Hn; [|done]. apply parse_unsigned_range in Hn; [|unfold u32_max; lia].
    destruct (Z.eqb_spec n 0); [done|]. lia. }
  destruct S as [[[base st] has]|]; [|done].
  set (B := if str_eqb base (lit "*") then _ else _).
  assert (HB : match B with Ok (f, l) => field_min k <= f ∧ l <= field_max k | Err _ => True end).
  { subst B. destruct (str_eqb base _); [pose proof (field_bounds k); lia|]. destruct (split_once 45 base) as [[a b]|].
    - destruct (parse_value k a) as [va|] eqn:Ha; [|done].
      destruct (parse_value k b) as [vb|] eqn:Hb; [|done].
      apply parse_value_range in Ha, Hb. lia.
    - destruct (parse_value k base) as [va|] eqn:Ha; [|done].
      apply parse_value_range in Ha. destruct has; lia. }
  destruct B as [[f l]|]; [|done]. case_match eqn:Hlt; [done|]. intros [= <- <- <-]. lia.
Qed.

(** The value [first + i * step] of an item, as the field stores it. *)
Definition names_value (k : FieldKind) (part : str) (v : Z) : Prop :=
  ∃ first last step i, part_range part k = Ok (first, last, step)
    ∧ 0 <= i ∧ first + i * step <= last ∧ v = normalize_value k (first + i * step).

Lemma step_values_spec k step last fuel : 1 <= step -> last <= 59 -> ∀ value values,
  0 <= value -> last < value + Z.of_nat fuel ->
  ∀ v, v ∈ step_values k fuel value step last values
    <-> v ∈ values ∨ ∃ i, 0 <= i ∧ value + i * step <= last ∧ v = normalize_value k (value + i * step).
Proof.
  intros Hstep Hlast. induction fuel as [|fuel IH]; intros value values Hv Hfuel v; cbn [step_values].
  { split; [by left|]. intros [?|(i & ? & ? & _)]; [done|]. exfalso. nia. }
  destruct (Z.leb_spec value last) as [Hle|Hgt].
  2:{ split; [by left|]. intros [?|(i & ? & ? & _)]; [done|]. exfalso. nia. }
  assert (Hrec : ∀ w : gset Z,
    (∃ i, 0 <= i ∧ value + i * step <= last ∧ v = normalize_value k (value + i * step))
    <-> v = normalize_value k value
        ∨ ∃ i, 0 <= i ∧ value + step + i * step <= last ∧ v = normalize_value k (value + step + i * step)).
  { intros _. split.
    - intros (i & Hi & Hb & ->). destruct (Z.eq_dec i 0) as [->|Hn]; [left; f_equal; lia|].
      right. exists (i - 1). split_and!; [lia|nia|f_equal; lia].
    - intros [->|(i & Hi & Hb & ->)]; [exists 0|exists (i + 1)]; (split_and!; [lia|nia|f_equal; lia]). }
  unfold checked_add. case_match eqn:Ho.
  - case_match; [|done]. injection Ho as <-. rewrite IH by lia. rewrite Hrec by exact ∅. set_solver.
  - case_match eqn:Hc; [done|]. apply Z.leb_gt in Hc. rewrite Hrec by exact ∅.
    split; [set_solver|]. intros [?|[?|(i & ? & ? & _)]]; [set_solver|set_solver|].
    exfalso. assert (last < u32_max) by (unfold u32_max; lia). nia.
Qed.

Lemma extend_part_values_spec part k values values' : extend_part_values part k values = Ok values' ->
  (∀ v, v ∈ values' <-> v ∈ values ∨ names_value k part v) ∧ ∃ v, names_value k part v.
Proof.
  unfold extend_part_values. destruct (part_range part k) as [[[first last] step]|] eqn:Hr; [|done].
  intros [= <-]. pose proof (part_range_bounds _ _ _ _ _ Hr) as (H1 & H2 & H3).
  pose proof (field_bounds k). split.
  - intros v. rewrite step_values_spec by lia. f_equiv. unfold names_value. rewrite Hr. split.
    + intros (i & ? & ? & ?). by exists first, last, step, i.
    + intros (f & l & s & i & [= <- <- <-] & ? & ? & ?). by exists i.
  - exists (normalize_value k (first + 0 * step)), first, last, step, 0. split_and!; [done|lia|lia|done].
Qed.

Lemma parse_parts_spec k parts : ∀ field field', parse_parts k parts field = Ok field' ->
  (∀ v, v ∈ cf_values field' <-> v ∈ cf_values field ∨ ∃ part, part ∈ parts ∧ names_value k (trim part) v)
  ∧ (cf_wildcard field' = true <-> cf_wildcard field = true ∨ ∃ part, part ∈ parts ∧ starts_with [42] (trim part) = true)
  ∧ ∀ part, part ∈ parts -> ∃ v, names_value k (trim part) v.
Proof.
  induction parts as [|part parts IH]; intros field field'; cbn [parse_parts].
  { intros [= <-]. set_solver. }
  case_match; [done|]. destruct (extend_part_values _ _ _) as [values|] eqn:He; [|done].
  intros Hp. apply extend_part_values_spec in He as [He Hn]. apply IH in Hp as (Hv & Hw & Hall).
  cbn [cf_values cf_wildcard] in *. split_and!.
  - intros v. rewrite Hv, He. set_solver.
  - rewrite Hw, orb_true_iff. set_solver.
  - intros p [->|Hin]%elem_of_cons; [done|]. by apply Hall.
Qed.

(** A field that parses holds exactly the values its list names - every value
    [first + i * step] of a range that does not pass its last value, Sunday written as
    7 stored as 0 -, each item names one at least, and every stored value lies in the
    range of the field, on the week's side below 7: what the wall clock can show.  The
    field counts as a wildcard when an item starts with a star. *)
Theorem field_holds_the_named_values raw k field : parse_field raw k = Ok field ->
  (∀ v, v ∈ cf_values field <-> ∃ part, part ∈ split_on 44 (trim raw) ∧ names_value k (trim part) v)
  ∧ (∀ part, part ∈ split_on 44 (trim raw) -> ∃ v, names_value k (trim part) v)
  ∧ (∀ v, v ∈ cf_values field -> field_min k <= v <= field_max k ∧ (k = FK_DayOfWeek -> v <= 6))
  ∧ (cf_wildcard field = true <-> ∃ part, part ∈ split_on 44 (trim raw) ∧ starts_with [42] (trim part) = true).
Proof.
  unfold parse_field. case_match; [done|]. intros (Hv & Hw & Hall)%parse_parts_spec.
  cbn [cf_values cf_wildcard] in *. split_and!; [intros v; rewrite Hv; set_solver|done| |rewrite Hw; naive_solver].
  intros v [Hin|(part & _ & first & last & step & i & Hr & Hi & Hle & ->)]%Hv; [set_solver|].
  apply part_range_bounds in Hr as (H1 & H2 & H3).
  assert (Hge : first <= first + i * step) by nia. clear Hv Hw Hall.
  destruct k; cbn in *; try (split; [lia|done]). case_match; split; intros; lia.
Qed.

Section zones.
Context {Tz : Type} (parse_tz : str → option Tz) (with_timezone : Tz → Z → LocalTime).

Definition parse_timezone (timezone : str) : result CronError Tz :=
  match parse_tz (trim timezone) with Some tz => Ok tz | None => Err (CE_InvalidTimezone timezone) end.
Definition validate_cron_schedule (expression timezone : str) (missed_run_policy : option str)
    : result CronError unit :=
  let? _ := parse_spec expression in
  let? _ := parse_timezone timezone in
  let? _ := parse_missed_run_policy missed_run_policy in
  Ok tt.
(** The loop over candidates, [fuel] of them left. *)
Fixpoint search_run (spec : CronSpec) (tz : Tz) (fuel : nat) (candidate : Z) : option Z :=
  match fuel with
  | O => None
  | S fuel => if spec_matches spec (with_timezone tz candidate) then Some candidate
              else search_run spec tz fuel (candidate + MINUTE)
  end.
Definition next_cron_run_after (expression timezone : str) (after_utc : Z) : result CronError Z :=
  let? spec := parse_spec expression in
  let? tz := parse_timezone timezone in
  match search_run spec tz (Z.to_nat MAX_CRON_LOOKAHEAD_MINUTES) (truncate_to_next_minute after_utc) with
  | Some run => Ok run
  | None => Err (CE_NoRun expression timezone)
  end.

(** ** The next run *)

Lemma search_run_spec spec tz fuel : ∀ candidate,
  let hit k := spec_matches spec (with_timezone tz (candidate + Z.of_nat k * MINUTE)) in
  match search_run spec tz fuel candidate with
  | Some t => ∃ k, (k < fuel)%nat ∧ t = candidate + Z.of_nat k * MINUTE ∧ hit k = true
                ∧ ∀ j, (j < k)%nat -> hit j = false
  | None => ∀ j, (j < fuel)%nat -> hit j = false
  end.
Proof.
  induction fuel as [|fuel IH]; intros candidate; cbn zeta; cbn [search_run]; [lia|].
  destruct (spec_matches spec (with_timezone tz candidate)) eqn:Hm.
  - exists 0%nat. rewrite Z.mul_0_l, Z.add_0_r. split_and!; [lia|done|done|lia].
  - specialize (IH (candidate + MINUTE)). cbn zeta in IH.
    assert (Hs : ∀ j, candidate + Z.of_nat (S j) * MINUTE = candidate + MINUTE + Z.of_nat j * MINUTE) by lia.
    assert (H0 : ∀ P : nat → Prop, P 0%nat -> (∀ j, P (S j)) -> ∀ j, P j) by (intros P H0 H1 []; auto).
    destruct (search_run spec tz fuel (candidate + MINUTE)) as [t|].
    + destruct IH as (k & Hk & -> & Hhit & Hbefore). exists (S k). rewrite Hs. split_and!; [lia|done|done|].
      intros [|j] Hj; [by rewrite Z.mul_0_l, Z.add_0_r|]. rewrite Hs. apply Hbefore. lia.
    + intros [|j] Hj; [by rewrite Z.mul_0_l, Z.add_0_r|]. rewrite Hs. apply IH. lia.
Qed.

Lemma search_run_enough spec tz fuel : ∀ more candidate t, (fuel <= more)%nat ->
  search_run spec tz fuel candidate = Some t -> search_run spec tz more candidate = Some t.
Proof.
  induction fuel as [|fuel IH]; intros [|more] candidate t Hle; try done; [lia|]. cbn [search_run].
  case_match; [done|]. apply IH. lia.
Qed.
Lemma next_run_at fuel expression timezone after_utc spec tz t :
  Z.of_nat fuel <= MAX_CRON_LOOKAHEAD_MINUTES ->
  parse_spec expression = Ok spec -> parse_timezone timezone = Ok tz ->
  search_run spec tz fuel (truncate_to_next_minute after_utc) = Some t ->
  next_cron_run_after expression timezone after_utc = Ok t.
Proof.
  intros Hf Hs Ht Hr. unfold next_cron_run_after. rewrite Hs, Ht.
  by rewrite (search_run_enough spec tz fuel (Z.to_nat MAX_CRON_LOOKAHEAD_MINUTES) _ t ltac:(lia) Hr).
Qed.

Lemma truncate_spec after_utc : let t := truncate_to_next_minute after_utc in
  after_utc < t <= after_utc + MINUTE ∧ t mod MINUTE = 0.
Proof.
  cbn zeta. unfold truncate_to_next_minute. assert (0 < MINUTE) by (unfold MINUTE; lia).
  rewrite Z_mod_mult. pose proof (Z.div_mod (after_utc + MINUTE) MINUTE) as Hd.
  pose proof (Z.mod_pos_bound (after_utc + MINUTE) MINUTE). nia.
Qed.

Lemma next_run_on_minute expression timezone after_utc next : next_cron_run_after expression timezone after_utc = Ok next ->
  after_utc < next ∧ next mod MINUTE = 0.
Proof.
  unfold next_cron_run_after. destruct (parse_spec expression) as [spec|]; [|done]. destruct (parse_timezone timezone) as [tz|]; [|done].
  destruct (truncate_spec after_utc) as [Hb Hm]. set (c := truncate_to_next_minute after_utc) in *.
  pose proof (search_run_spec spec tz (Z.to_nat MAX_CRON_LOOKAHEAD_MINUTES) c) as Hs. cbn zeta in Hs.
  destruct (search_run spec tz _ c) as [t|]; [|done]. intros [= <-]. destruct Hs as (k & _ & -> & _).
  assert (0 < MINUTE) by (unfold MINUTE; lia). split; [nia|by rewrite Z_mod_plus_full].
Qed.

(** C30. The next run is the first full minute after the given instant whose wall clock
    in the schedule's zone matches the expression; without a run there is none among
    the minutes of the next five years, and the search never fails otherwise once
    expression and zone are valid. *)
Theorem next_run_is_the_first expression timezone after_utc spec tz :
  parse_spec expression = Ok spec -> parse_timezone timezone = Ok tz ->
  match next_cron_run_after expression timezone after_utc with
  | Ok t => after_utc < t ∧ t mod MINUTE = 0 ∧ spec_matches spec (with_timezone tz t) = true
      ∧ ∀ u, after_utc < u < t -> u mod MINUTE = 0 -> spec_matches spec (with_timezone tz u) = false
  | Err error => error = CE_NoRun expression timezone
      ∧ ∀ u, after_utc < u <= after_utc + MAX_CRON_LOOKAHEAD_MINUTES * MINUTE -> u mod MINUTE = 0 ->
          spec_matches spec (with_timezone tz u) = false
  end.
Proof.
  intros Hs Ht. unfold next_cron_run_after. rewrite Hs, Ht. destruct (truncate_spec after_utc) as [Hb Hm].
  set (c := truncate_to_next_minute after_utc) in *. assert (Hpos : 0 < MINUTE) by (unfold MINUTE; lia).
  assert (Hgrid : ∀ u, after_utc < u -> u mod MINUTE = 0 -> ∃ k : nat, u = c + Z.of_nat k * MINUTE).
  { intros u Hu Hmu. exists (Z.to_nat ((u - c) / MINUTE)).
    assert (Hdiv : (u - c) mod MINUTE = 0) by (by rewrite Zminus_mod, Hmu, Hm).
    pose proof (Z.div_mod (u - c) MINUTE ltac:(lia)) as Hd. rewrite Hdiv in Hd.
    assert (0 <= (u - c) / MINUTE) by nia. rewrite Z2Nat.id by lia. lia. }
  pose proof (search_run_spec spec tz (Z.to_nat MAX_CRON_LOOKAHEAD_MINUTES) c) as Hsearch. cbn zeta in Hsearch.
  destruct (search_run spec tz _ c) as [t|].
  - destruct Hsearch as (k & _ & -> & Hhit & Hbefore). split_and!; [nia| |done|].
    + by rewrite Z_mod_plus_full.
    + intros u [Hu Hlt] Hmu. destruct (Hgrid u Hu Hmu) as [j ->]. apply Hbefore. nia.
  - split; [done|]. intros u [Hu Hle] Hmu. destruct (Hgrid u Hu Hmu) as [j ->]. apply Hsearch. nia.
Qed.
End zones.

(** ** Instances *)

(** The wall clock of UTC: the proleptic Gregorian calendar, days counted from the
    first of March of year 0. *)
Definition utc_clock (instant : Z) : LocalTime :=
  let minutes := instant / MINUTE in
  let days := minutes / 1440 in
  let z := days + 719468 in
  let doe := z mod 146097 in
  let yoe := (doe - doe / 1460 + doe / 36524 - doe / 146096) / 365 in
  let doy := doe - (365 * yoe + yoe / 4 - yoe / 100) in
  let mp := (5 * doy + 2) / 153 in
  {| lt_minute := minutes mod 60; lt_hour := minutes / 60 mod 24; lt_day := doy - (153 * mp + 2) / 5 + 1;
     lt_month := if mp <? 10 then mp + 3 else mp - 9; lt_weekday := (days + 4) mod 7 |}.
Definition utc_tz (name : str) : option unit := if str_eqb name (lit "UTC") then Some tt else None.
(** Los Angeles around the end of daylight saving time in 2024. *)
Definition la_clock (instant : Z) : LocalTime :=
  utc_clock (instant - (if instant <? 1730624400 * 1000000000 then 420 else 480) * MINUTE).
Definition seconds (s : Z) : Z := s * 1000000000.

Lemma next_run_is_the_first_witness : ∃ spec,
  parse_spec (lit "30 9 1,15 * MON") = Ok spec ∧
  match next_cron_run_after utc_tz (λ _, utc_clock) (lit "30 9 1,15 * MON") (lit " UTC ") (seconds 1767225900) with
  | Ok t => seconds 1767225900 < t ∧ t mod MINUTE = 0 ∧ spec_matches spec (utc_clock t) = true
      ∧ ∀ u, seconds 1767225900 < u < t -> u mod MINUTE = 0 -> spec_matches spec (utc_clock u) = false
  | Err error => error = CE_NoRun (lit "30 9 1,15 * MON") (lit " UTC ")
      ∧ ∀ u, seconds 1767225900 < u <= seconds 1767225900 + MAX_CRON_LOOKAHEAD_MINUTES * MINUTE ->
          u mod MINUTE = 0 -> spec_matches spec (utc_clock u) = false
  end.
Proof.
  eexists. split; [vm_compute; reflexivity|].
  apply (next_run_is_the_first utc_tz (λ _, utc_clock) (lit "30 9 1,15 * MON") (lit " UTC ") (seconds 1767225900) _ tt);
    vm_compute; reflexivity.
Defined.

Lemma field_holds_the_named_values_witness : ∃ field,
  parse_field (lit "MON-FRI/2, 7") FK_DayOfWeek = Ok field
  ∧ ∀ v, v ∈ cf_values field <-> ∃ part, part ∈ split_on 44 (trim (lit "MON-FRI/2, 7")) ∧ names_value FK_DayOfWeek (trim part) v.
Proof.
  eexists. split; [vm_compute; reflexivity|].
  apply (field_holds_the_named_values (lit "MON-FRI/2, 7") FK_DayOfWeek). vm_compute. reflexivity.
Defined.

Example cron_single_value_steps :
  next_cron_run_after utc_tz (λ _, utc_clock) (lit "5/10 * * * *") (lit "UTC") (seconds 1767225900) = Ok (seconds 1767226500).
Proof.
  eapply (next_run_at _ _ 10); [unfold MAX_CRON_LOOKAHEAD_MINUTES; lia| | |];
    try (vm_compute; reflexivity).
Qed.
(** A wall-clock time that occurs twice runs twice. *)
Example cron_repeated_local_time :
  next_cron_run_after utc_tz (λ _, la_clock) (lit "30 1 * * *") (lit "UTC") (seconds 1730620800) = Ok (seconds 1730622600)
  ∧ next_cron_run_after utc_tz (λ _, la_clock) (lit "30 1 * * *") (lit "UTC") (seconds 1730622600) = Ok (seconds 1730626200).
Proof.
  split; (eapply (next_run_at _ _ 60); [unfold MAX_CRON_LOOKAHEAD_MINUTES; lia| | |]; try (vm_compute; reflexivity)).
Qed.
(** An expression whose day never comes is valid. *)
Example cron_day_that_never_comes :
  validate_cron_schedule utc_tz (lit "0 0 30 2 *") (lit "UTC") None = Ok tt.
Proof. vm_compute. reflexivity. Qed.
