(* ===== verification/TriggerEngine.v ===== *)
(** * Trigger engine

    [trigger_engine/mod.rs]: fires of schedules, events and manual runs, the gate that
    keeps serial and latest-only triggers to one live request, the lock table behind
    it, and the call of the materializer that creates the request.  The prompt
    templates of [template/mod.rs] are rendered by the [minijinja] crate, a parameter.

    The materializer is an interface, as in the source: [MaterializerHandle] holds its
    operations and [MaterializerLaws] what the engine relies on; the theorems below
    are proved against the interface and TriggerMaterializer.v discharges it.

    A dispatch is cut at its suspension points into steps that interleave with other
    dispatches, with the executors and with aborted tasks; the lock table counts the
    handles of a lock as the source does ([Arc::strong_count]).

    The theorems: the durable keys of different fires differ; a trigger whose fires
    are serial or latest-only never has two live requests; a group of documents
    materialises at most one request; a dispatch that returns has reported its result
    exactly once. *)

From S2P Require Import Prelude RustStr Messages.
Open Scope Z_scope.

(** ** Keys *)

Definition counted (component : str) : str := fmt_Z (Z.of_nat (length component)) ++ [58] ++ component.
Definition durable_fire_key (namespace : str) (components : list str) : str :=
  counted namespace ++ concat ((λ component, [58] ++ counted component) <$> components).

Record TaskGoalFireIdentity : Type := mkIdentity {
  tg_session_id : str; tg_request_id : str; tg_retry_key : str }.
Definition task_goal_fire_identity (agent_did task_id fire_key : str) : TaskGoalFireIdentity :=
  let scope := counted agent_did ++ [58] ++ counted task_id ++ [58] ++ counted fire_key in
  {| tg_session_id := lit "task-goal-session:" ++ scope;
     tg_request_id := lit "task-goal-request:" ++ scope;
     tg_retry_key := lit "task-goal-retry:" ++ scope |}.

(** ** Tasks, intents and results *)

Inductive TriggerKind : Type := TK_Schedule | TK_Event | TK_Manual.
#[global] Instance TriggerKind_eq_dec : EqDecision TriggerKind.
Proof. solve_decision. Defined.
#[global] Instance TriggerKind_countable : Countable TriggerKind.
Proof.
  refine (inj_countable' (λ k, match k with TK_Schedule => 0 | TK_Event => 1 | TK_Manual => 2 end)
            (λ n, if n =? 0 then TK_Schedule else if n =? 1 then TK_Event else TK_Manual) _).
  by intros [].
Defined.
Definition trigger_kind_as_str (k : TriggerKind) : str :=
  match k with TK_Schedule => lit "schedule" | TK_Event => lit "event" | TK_Manual => lit "manual" end.

Inductive ConcurrencyMode : Type := CM_Parallel | CM_Serial | CM_LatestOnly.
#[global] Instance ConcurrencyMode_eq_dec : EqDecision ConcurrencyMode.
Proof. solve_decision. Defined.
Definition parse_concurrency_mode (s : str) : option ConcurrencyMode :=
  if str_eqb s (lit "parallel") then Some CM_Parallel
  else if str_eqb s (lit "serial") then Some CM_Serial
  else if str_eqb s (lit "latest_only") then Some CM_LatestOnly
  else None.

Record ResolvedTask : Type := mkTask {
  rt_task_id : str; rt_name : option str; rt_behavior_id : str; rt_prompt_template : str;
  rt_goal_objective_template : option str; rt_goal_token_budget : option Z;
  rt_output_schema_ref : option str }.
Definition display_label (t : ResolvedTask) : str :=
  match trim <$> rt_name t with
  | Some name => if is_nil name then rt_task_id t else name
  | None => rt_task_id t
  end.

(** [on_result] is the report of the step relation below. *)
Record FireIntent : Type := mkIntent {
  fi_trigger_id : option str; fi_trigger_kind : TriggerKind; fi_task : ResolvedTask;
  fi_concurrency : ConcurrencyMode; fi_event_vars : Json; fi_doc_vars : option Json;
  fi_correlation : option str; fi_group_vars : option Json; fi_trigger_context : option str;
  fi_args_vars : option Json; fi_durable_fire_key : str; fi_pre_materialized_request_id : option str }.
Definition well_formed_error (i : FireIntent) : option str :=
  if is_nil (trim (fi_durable_fire_key i)) then Some (lit "Trigger fire intent must carry a durable fire key")
  else match fi_trigger_kind i, fi_trigger_id i with
       | TK_Manual, Some _ => Some (lit "Manual trigger intent must not carry trigger_id")
       | _, _ => None
       end.

Inductive FireResult : Type :=
  | Fired (request_id : str)
  | Skipped (reason : str)
  | Errored (error : str).
#[global] Instance FireResult_eq_dec : EqDecision FireResult.
Proof. solve_decision. Defined.

(** An [anyhow] error of the materializer, the typed skip told apart. *)
Inductive MaterializeError : Type := MaterializeSkip (reason : str) | MaterializeFailure (error : str).
Definition fire_result_from_materialize (r : result MaterializeError str) : FireResult :=
  match r with
  | Ok request_id => Fired request_id
  | Err (MaterializeSkip reason) => Skipped reason
  | Err (MaterializeFailure error) => Errored (lit "materialize: " ++ error)
  end.

Definition validate_task_goal_declaration (objective : option str) (token_budget : option Z) : result str unit :=
  match objective with
  | None => if bool_decide (is_Some token_budget) then Err (lit "goal token budget requires a goal objective template") else Ok tt
  | Some objective =>
      if is_nil (trim objective) then Err (lit "goal objective must be non-empty")
      else match token_budget with
           | Some budget => if 0 <? budget then Ok tt else Err (lit "goal token budget must be positive")
           | None => Ok tt
           end
  end.

(** ** Templates *)

Record TemplateScope : Type := mkScope {
  sc_event : Json; sc_doc : option Json; sc_args : option Json; sc_group : option Json; sc_node : Json; sc_ctx : Json }.
Inductive TemplateError : Type := TE_Parse (message : str) | TE_Render (message : str) | TE_SizeCap (bytes : Z).
Definition template_error_display (e : TemplateError) : str :=
  match e with
  | TE_Parse m => lit "template parse error: " ++ m
  | TE_Render m => lit "template render error: " ++ m
  | TE_SizeCap n => lit "rendered output exceeds size cap (" ++ fmt_Z n ++ lit " bytes)"
  end.
Definition MAX_TEMPLATE_BYTES : Z := 64 * 1024.
Definition MAX_RENDERED_BYTES : Z := 1024 * 1024.
Definition scope_context (s : TemplateScope) : Json :=
  let field name (v : option Json) := match v with Some v => [(lit name, v)] | None => [] end in
  JObject (field "event"%string (Some (sc_event s)) ++ field "doc"%string (sc_doc s) ++ field "args"%string (sc_args s)
           ++ field "group"%string (sc_group s) ++ field "node"%string (Some (sc_node s)) ++ field "ctx"%string (Some (sc_ctx s))).
(** The engine with strict undefined behaviour and no escaping. *)
Record Minijinja : Type := mkJinja {
  template_from_str : str → result str unit;
  jinja_render : str → Json → result str str }.
Definition render_template (env : Minijinja) (template : str) (scope : TemplateScope) : result TemplateError str :=
  if MAX_TEMPLATE_BYTES <? str_len template
  then Err (TE_Parse (lit "template exceeds " ++ fmt_Z MAX_TEMPLATE_BYTES ++ lit " bytes"))
  else match template_from_str env template with
       | Err e => Err (TE_Parse e)
       | Ok _ =>
           match jinja_render env template (scope_context scope) with
           | Err e => Err (TE_Render e)
           | Ok rendered =>
               if MAX_RENDERED_BYTES <? str_len rendered then Err (TE_SizeCap (str_len rendered)) else Ok rendered
           end
       end.
Definition task_node_ctx (node_did behavior_id now : str) : Json * Json :=
  (JObject [(lit "node_did", JString node_did); (lit "behavior_id", JString behavior_id)],
   JObject [(lit "now", JString now)]).

(** ** The runtime snapshot, as far as a dispatch reads it

    A behavior by its agent, an unavailable one by its public message, an active
    trigger by its document. *)
Record FireSnapshot : Type := mkSnapshot {
  sn_local_did : str; sn_behaviors : gmap str str; sn_unavailable : gmap str str;
  sn_active_schedules : gmap str str; sn_active_event_triggers : gmap str str }.
Definition unavailable_public_message (s : FireSnapshot) (behavior_id : str) : option str := sn_unavailable s !! behavior_id.
Definition concurrency_agent_did (s : FireSnapshot) (task : ResolvedTask) : result str str :=
  match sn_behaviors s !! rt_behavior_id task with
  | Some agent_did => Ok agent_did
  | None => Err (match unavailable_public_message s (rt_behavior_id task) with
                 | Some message => message
                 | None => lit "behavior " ++ rt_behavior_id task ++ lit " is not loaded"
                 end)
  end.
Definition resolve_trigger_doc (s : FireSnapshot) (i : FireIntent) : result FireResult (option str) :=
  let active (what : string) (triggers : gmap str str) :=
    match fi_trigger_id i with
    | None => Err (Errored (lit what ++ lit " trigger missing trigger_id"))
    | Some trigger_id => match triggers !! trigger_id with
                         | None => Err (Skipped (lit "trigger disabled"))
                         | Some doc => Ok (Some doc)
                         end
    end in
  match fi_trigger_kind i with
  | TK_Schedule => active "Schedule"%string (sn_active_schedules s)
  | TK_Event => active "Event"%string (sn_active_event_triggers s)
  | TK_Manual => Ok None
  end.
Definition render_intent (env : Minijinja) (s : FireSnapshot) (now : str) (i : FireIntent)
    : result FireResult (str * option str) :=
  let task := fi_task i in
  let '(node_scope, ctx_scope) := task_node_ctx (sn_local_did s) (rt_behavior_id task) now in
  let scope := {| sc_event := fi_event_vars i; sc_doc := fi_doc_vars i; sc_args := fi_args_vars i;
                  sc_group := fi_group_vars i; sc_node := node_scope; sc_ctx := ctx_scope |} in
  match render_template env (rt_prompt_template task) scope with
  | Err e => Err (Errored (lit "template: " ++ template_error_display e))
  | Ok rendered =>
      let? objective :=
        match rt_goal_objective_template task with
        | Some template => match render_template env template scope with
                           | Ok objective => Ok (Some objective)
                           | Err e => Err (Errored (lit "goal template: " ++ template_error_display e))
                           end
        | None => if bool_decide (is_Some (rt_goal_token_budget task))
                  then Err (Errored (lit "goal token budget requires a goal objective template")) else Ok None
        end in
      match validate_task_goal_declaration objective (rt_goal_token_budget task) with
      | Err e => Err (Errored (lit "goal declaration: " ++ e))
      | Ok _ => Ok (rendered, objective)
      end
  end.

(** ** The materializer *)

Record MaterializeArgs : Type := mkArgs {
  ma_task : ResolvedTask; ma_trigger_id : option str; ma_trigger_kind : TriggerKind; ma_trigger_doc_id : option str;
  ma_source_doc_id : option str; ma_correlation : option str; ma_trigger_context : option str;
  ma_rendered_prompt : str; ma_rendered_goal_objective : option str; ma_durable_fire_key : str }.
Definition TriggerLockKey : Type := (str * str * TriggerKind * option str)%type.
#[global] Instance TriggerLockKey_eq_dec : EqDecision TriggerLockKey := _.
#[global] Instance TriggerLockKey_countable : Countable TriggerLockKey := _.

(** The operations of the materializer on a world [W]; [O] is what a call meets on the
    way: faults, the clock, fresh identifiers and the moves of others. *)
Class MaterializerHandle (W O : Type) : Type := {
  materialize : O → MaterializeArgs → W → result MaterializeError str * W;
  has_active_runtime_request_for_trigger : O → TriggerLockKey → option str → W → result str bool * W;
  supersede_active_runtime_requests_for_trigger : O → TriggerLockKey → option str → W → result str Z * W;
  recover_goal_task_fire : O → ResolvedTask → str → W → result str (option str) * W;
  has_materialized_group_request : O → str → str → TriggerKind → str → W → result str bool * W }.

(** ** Dispatch *)

Record Prepared : Type := mkPrepared {
  pp_intent : FireIntent; pp_trigger_doc_id : option str; pp_rendered : str; pp_objective : option str;
  pp_goal_request_id : option str }.
Inductive Preparation : Type :=
  | PR_Done (r : FireResult)
  | PR_Free (p : Prepared)
  | PR_Locked (p : Prepared) (key : TriggerLockKey).

Section dispatch.
Context {W O : Type} `{MaterializerHandle W O} (env : Minijinja).

(** Everything before the lock, past the recovery. *)
Definition plan_dispatch (s : FireSnapshot) (now : str) (i : FireIntent) : result FireResult Preparation :=
  let? trigger_doc_id := resolve_trigger_doc s i in
  let? (rendered, objective) := render_intent env s now i in
  let? goal_request_id :=
    match objective with
    | None => Ok None
    | Some _ => match concurrency_agent_did s (fi_task i) with
                | Ok agent_did => Ok (Some (tg_request_id (task_goal_fire_identity agent_did (rt_task_id (fi_task i)) (fi_durable_fire_key i))))
                | Err reason => Err (Errored (lit "goal identity: " ++ reason))
                end
    end in
  let p := mkPrepared i trigger_doc_id rendered objective goal_request_id in
  match fi_trigger_id i with
  | None => Ok (PR_Free p)
  | Some trigger_id =>
      if bool_decide (fi_concurrency i = CM_Parallel) && negb (bool_decide (is_Some (fi_group_vars i)))
      then Ok (PR_Free p)
      else match concurrency_agent_did s (fi_task i) with
           | Err reason => Err (Errored (lit "concurrency gate: " ++ reason))
           | Ok agent_did =>
               let concurrency_correlation := match fi_group_vars i with Some _ => fi_correlation i | None => None end in
               Ok (PR_Locked p (agent_did, trigger_id, fi_trigger_kind i, concurrency_correlation))
           end
  end.
Definition prepare_dispatch (s : FireSnapshot) (now : str) (o : O) (i : FireIntent) (w : W) : Preparation * W :=
  match well_formed_error i with
  | Some error => (PR_Done (Errored error), w)
  | None =>
      match fi_pre_materialized_request_id i with
      | Some request_id => (PR_Done (Fired request_id), w)
      | None =>
          match recover_goal_task_fire o (fi_task i) (fi_durable_fire_key i) w with
          | (Ok (Some request_id), w') => (PR_Done (Fired request_id), w')
          | (Err error, w') => (PR_Done (Errored (lit "recover durable goal Task fire: " ++ error)), w')
          | (Ok None, w') =>
              (match plan_dispatch s now i with Ok plan => plan | Err r => PR_Done r end, w')
          end
      end
  end.

Definition source_doc_id (i : FireIntent) : option str :=
  match fi_trigger_kind i with
  | TK_Event => match trim <$> (json_get (lit "source_doc_id") (fi_event_vars i) ≫= as_str) with
                | Some v => if is_nil v then None else Some v
                | None => None
                end
  | _ => None
  end.
Definition materialize_args (p : Prepared) : MaterializeArgs :=
  let i := pp_intent p in
  {| ma_task := fi_task i; ma_trigger_id := fi_trigger_id i; ma_trigger_kind := fi_trigger_kind i;
     ma_trigger_doc_id := pp_trigger_doc_id p; ma_source_doc_id := source_doc_id i; ma_correlation := fi_correlation i;
     ma_trigger_context := fi_trigger_context i; ma_rendered_prompt := pp_rendered p;
     ma_rendered_goal_objective := pp_objective p; ma_durable_fire_key := fi_durable_fire_key i |}.
Definition materialize_after_lock (o o' : O) (p : Prepared) (w : W) : FireResult * W :=
  match materialize o (materialize_args p) w with
  | (Ok request_id, w') => (Fired request_id, w')
  | (Err e, w') =>
      match pp_objective p with
      | None => (fire_result_from_materialize (Err e), w')
      | Some _ =>
          match recover_goal_task_fire o' (fi_task (pp_intent p)) (fi_durable_fire_key (pp_intent p)) w' with
          | (Ok (Some request_id), w'') => (Fired request_id, w'')
          | (_, w'') => (fire_result_from_materialize (Err e), w'')
          end
      end
  end.

(** The checks under the lock; a result ends the dispatch. *)
Definition group_check (o : O) (p : Prepared) (key : TriggerLockKey) (w : W) : option FireResult * W :=
  let i := pp_intent p in
  let '(agent_did, trigger_id, kind, _) := key in
  match fi_group_vars i with
  | None => (None, w)
  | Some _ =>
      match trim <$> fi_correlation i with
      | None => (Some (Errored (lit "per_group intent requires a non-empty correlation")), w)
      | Some correlation =>
          if is_nil correlation then (Some (Errored (lit "per_group intent requires a non-empty correlation")), w)
          else match has_materialized_group_request o agent_did trigger_id kind correlation w with
               | (Ok true, w') => (Some (Skipped (lit "per_group: request already materialized")), w')
               | (Ok false, w') => (None, w')
               | (Err error, w') => (Some (Errored (lit "group marker query: " ++ error)), w')
               end
      end
  end.
Definition concurrency_gate (o : O) (p : Prepared) (key : TriggerLockKey) (w : W) : option FireResult * W :=
  match fi_concurrency (pp_intent p) with
  | CM_Parallel => (None, w)
  | CM_Serial =>
      match has_active_runtime_request_for_trigger o key (pp_goal_request_id p) w with
      | (Ok true, w') => (Some (Skipped (lit "serial: prior fire still in-flight")), w')
      | (Ok false, w') => (None, w')
      | (Err error, w') => (Some (Errored (lit "in-flight query: " ++ error)), w')
      end
  | CM_LatestOnly =>
      match supersede_active_runtime_requests_for_trigger o key (pp_goal_request_id p) w with
      | (Ok _, w') => (None, w')
      | (Err error, w') => (Some (Errored (lit "supersede: " ++ error)), w')
      end
  end.
(** The whole handler, with nobody else at work. *)
Definition dispatch (s : FireSnapshot) (now : str) (os : nat → O) (i : FireIntent) (w : W) : FireResult * W :=
  match prepare_dispatch s now (os 0%nat) i w with
  | (PR_Done r, w) => (r, w)
  | (PR_Free p, w) => materialize_after_lock (os 1%nat) (os 2%nat) p w
  | (PR_Locked p key, w) =>
      match group_check (os 1%nat) p key w with
      | (Some r, w) => (r, w)
      | (None, w) =>
          match concurrency_gate (os 2%nat) p key w with
          | (Some r, w) => (r, w)
          | (None, w) => materialize_after_lock (os 3%nat) (os 4%nat) p w
          end
      end
  end.
End dispatch.

(** ** Keys of different fires differ *)

Lemma counted_app a b x y : counted a ++ x = counted b ++ y -> a = b ∧ x = y.
Proof.
  unfold counted. rewrite <-!app_assoc. intros Heq.
  assert (Hd : ∀ n m (u v : str), 0 <= n -> 0 <= m -> fmt_Z n ++ [58] ++ u = fmt_Z m ++ [58] ++ v -> n = m ∧ u = v).
  { intros n m u v Hn Hm Hnm. pose proof (fmt_Z_digits n Hn) as Fn. pose proof (fmt_Z_digits m Hm) as Fm.
    assert (Hstr : fmt_Z n = fmt_Z m ∧ u = v).
    { revert Hnm Fn Fm. generalize (fmt_Z n) as l, (fmt_Z m) as l0. induction l as [|c l IH]; intros [|c' l'] Hll Fl Fl'.
      - by injection Hll.
      - injection Hll as <- _. by apply Forall_inv in Fl'.
      - injection Hll as -> _. by apply Forall_inv in Fl.
      - injection Hll as -> Ht. apply Forall_inv_tail in Fl, Fl'. by destruct (IH l' Ht Fl Fl') as [-> ->]. }
    destruct Hstr as [Hs ->]. split; [|done].
    pose proof (parse_fmt_Z (Z.max n m) n ltac:(lia)) as P1. pose proof (parse_fmt_Z (Z.max n m) m ltac:(lia)) as P2.
    rewrite Hs in P1. congruence. }
  apply Hd in Heq as [Hlen Happ]; [|lia..]. apply app_inj_1 in Happ as [-> ->]; [done|lia].
Qed.
Lemma counted_list_inj cs : ∀ ds, concat ((λ c, [58] ++ counted c) <$> cs) = concat ((λ c, [58] ++ counted c) <$> ds) -> cs = ds.
Proof.
  induction cs as [|c cs IH]; intros [|d ds]; cbn [fmap list_fmap concat]; try done.
  rewrite <-!app_assoc. cbn. intros [= Heq]. apply counted_app in Heq as [-> Heq]. f_equal. by apply IH.
Qed.
Lemma durable_fire_key_inj ns cs ns' cs' : durable_fire_key ns cs = durable_fire_key ns' cs' -> ns = ns' ∧ cs = cs'.
Proof. unfold durable_fire_key. intros [-> Heq]%counted_app. split; [done|]. by apply counted_list_inj. Qed.
Lemma fire_request_id_inj a t k a' t' k' :
  tg_request_id (task_goal_fire_identity a t k) = tg_request_id (task_goal_fire_identity a' t' k') -> a = a' ∧ t = t' ∧ k = k'.
Proof.
  cbn [task_goal_fire_identity tg_request_id]. intros Heq%app_inj_1; [|done]. destruct Heq as [_ Heq].
  apply counted_app in Heq as [-> Heq]. injection Heq as Heq. apply counted_app in Heq as [-> Heq]. injection Heq as Heq.
  rewrite <-(app_nil_r (counted k)), <-(app_nil_r (counted k')) in Heq. by apply counted_app in Heq as [-> _].
Qed.

(** A fire of a goal-backed task is identified by the agent, the task and the
    delivery: two fires with the same request, session or retry key are the same agent,
    task, source namespace and source components, whatever characters these contain. *)
Theorem fire_identities_differ a t ns cs a' t' ns' cs' :
  let I := task_goal_fire_identity a t (durable_fire_key ns cs) in
  let I' := task_goal_fire_identity a' t' (durable_fire_key ns' cs') in
  tg_request_id I = tg_request_id I' ∨ tg_session_id I = tg_session_id I' ∨ tg_retry_key I = tg_retry_key I' ->
  a = a' ∧ t = t' ∧ ns = ns' ∧ cs = cs'.
Proof.
  cbn zeta. intros Hor.
  assert (Hid : tg_request_id (task_goal_fire_identity a t (durable_fire_key ns cs))
                = tg_request_id (task_goal_fire_identity a' t' (durable_fire_key ns' cs'))).
  { cbn [task_goal_fire_identity tg_request_id tg_session_id tg_retry_key] in *.
    destruct Hor as [->|[Heq|Heq]]; [done| |]; by apply app_inv_head in Heq as ->. }
  apply fire_request_id_inj in Hid as (-> & -> & Hk). by apply durable_fire_key_inj in Hk as [-> ->].
Qed.

Lemma fire_identities_differ_witness :
  let I key := task_goal_fire_identity (lit "did:a") (lit "t") (durable_fire_key (lit "schedule") key) in
  (tg_retry_key (I [lit "s:1"; lit "2"]) = lit "task-goal-retry:5:did:a:1:t:20:8:schedule:3:s:1:1:2"
   ∧ [lit "s:1"; lit "2"] = [lit "s:1"; lit "2"])
  ∧ tg_request_id (I [lit "s:1"; lit "2"]) <> tg_request_id (I [lit "s"; lit "1:2"]).
Proof.
  cbn zeta. split; [split; [vm_compute; reflexivity|]|].
  - apply (fire_identities_differ (lit "did:a") (lit "t") (lit "schedule") [lit "s:1"; lit "2"]
      (lit "did:a") (lit "t") (lit "schedule") [lit "s:1"; lit "2"]). right. right. reflexivity.
  - intros Heq. destruct (fire_identities_differ _ _ _ _ _ _ _ _ (or_introl Heq)) as (_ & _ & _ & Hcs). vm_compute in Hcs. discriminate Hcs.
Defined.

(** ** What the engine relies on

    [live w key] are the requests of the key's trigger (and correlation) that gate a
    serial fire, [bound w key] all its requests, [agent_of] the agent the materializer
    resolves for a task, [moves] what executors and other agents do to the store (they
    create no request of a local trigger) and [world_ok] what the store keeps true. *)
Definition covers (key : TriggerLockKey) (agent : option str) (a : MaterializeArgs) : Prop :=
  let '(did, trigger_id, kind, correlation) := key in
  agent = Some did ∧ ma_trigger_id a = Some trigger_id ∧ ma_trigger_kind a = kind
  ∧ (correlation = None ∨ ma_correlation a = correlation).
Definition only (o : option str) : gset str := match o with Some x => {[ x ]} | None => ∅ end.

Class MaterializerView (W : Type) : Type := {
  live : W → TriggerLockKey → gset str;
  bound : W → TriggerLockKey → gset str;
  agent_of : ResolvedTask → option str;
  moves : W → W → Prop;
  world_ok : W → Prop }.
Definition shrinks {W} `{MaterializerView W} (w w' : W) : Prop :=
  (world_ok w -> world_ok w') ∧ ∀ key, live w' key ⊆ live w key ∧ bound w' key ⊆ bound w key.
Class MaterializerLaws (W O : Type) `{MaterializerHandle W O} `{MaterializerView W} : Prop := {
  moves_shrink w w' : moves w w' -> shrinks w w';
  has_active_law o key ex w r w' : has_active_runtime_request_for_trigger o key ex w = (r, w') ->
    shrinks w w' ∧ (r = Ok false -> live w' key ⊆ only ex);
  supersede_law o key ex w r w' : supersede_active_runtime_requests_for_trigger o key ex w = (r, w') ->
    shrinks w w' ∧ (is_ok r = true -> live w' key ⊆ only ex);
  recover_law o task fire_key w r w' : recover_goal_task_fire o task fire_key w = (r, w') -> shrinks w w';
  group_law o did trigger_id kind correlation w r w' :
    has_materialized_group_request o did trigger_id kind correlation w = (r, w') ->
    shrinks w w' ∧ (r = Ok false -> bound w' (did, trigger_id, kind, Some correlation) = ∅);
  materialize_law o a w r w' : materialize o a w = (r, w') -> world_ok w -> world_ok w' ∧ ∃ id,
    (∀ did, agent_of (ma_task a) = Some did -> is_Some (ma_rendered_goal_objective a) ->
       trim (ma_durable_fire_key a) = ma_durable_fire_key a ->
       id = tg_request_id (task_goal_fire_identity did (rt_task_id (ma_task a)) (ma_durable_fire_key a)))
    ∧ ∀ key, (live w' key ⊆ live w key ∧ bound w' key ⊆ bound w key)
        ∨ (covers key (agent_of (ma_task a)) a ∧ live w' key ⊆ live w key ∪ {[ id ]} ∧ bound w' key ⊆ bound w key ∪ {[ id ]}) }.

(** ** Interleaved dispatches *)

(** Where a dispatch stands; [l] is its handle on the lock. *)
Inductive DispatchPc : Type :=
  | P_Start (i : FireIntent)
  | P_Free (p : Prepared)
  | P_Lookup (p : Prepared) (key : TriggerLockKey)
  | P_Wait (p : Prepared) (key : TriggerLockKey) (l : nat)
  | P_Group (p : Prepared) (key : TriggerLockKey) (l : nat)
  | P_Gate (p : Prepared) (key : TriggerLockKey) (l : nat)
  | P_Make (p : Prepared) (key : TriggerLockKey) (l : nat)
  | P_Release (key : TriggerLockKey) (l : nat) (r : FireResult) (reported : bool)
  | P_Prune (key : TriggerLockKey) (l : nat) (r : FireResult) (reported : bool)
  | P_Return (l : option nat) (r : FireResult) (reported : bool)
  | P_Done (r : FireResult).
(** The handle a dispatch holds, the mutex it holds, and the key whose lock it still
    uses. *)
Definition pc_arc (pc : DispatchPc) : option nat :=
  match pc with
  | P_Wait _ _ l | P_Group _ _ l | P_Gate _ _ l | P_Make _ _ l | P_Release _ l _ _ | P_Prune _ l _ _ => Some l
  | P_Return l _ _ => l
  | _ => None
  end.
Definition pc_guard (pc : DispatchPc) : option nat :=
  match pc with P_Group _ _ l | P_Gate _ _ l | P_Make _ _ l | P_Release _ l _ _ => Some l | _ => None end.
Definition pc_key (pc : DispatchPc) : option TriggerLockKey :=
  match pc with
  | P_Wait _ k _ | P_Group _ k _ | P_Gate _ k _ | P_Make _ k _ | P_Release k _ _ _ | P_Prune k _ _ _ => Some k
  | _ => None
  end.

Record EngineState (W : Type) : Type := mkEngine {
  es_world : W; es_locks : gmap TriggerLockKey nat; es_next : nat; es_held : gmap nat nat;
  es_threads : gmap nat DispatchPc; es_reports : list (nat * FireResult) }.
Arguments mkEngine {W} _ _ _ _ _ _.
Arguments es_world {W} _.
Arguments es_locks {W} _.
Arguments es_next {W} _.
Arguments es_held {W} _.
Arguments es_threads {W} _.
Arguments es_reports {W} _.

(** [Arc::strong_count]: the entry of the table and the handles of the dispatches. *)
Definition strong_count {W} (s : EngineState W) (l : nat) : nat :=
  (size (filter (λ kl, kl.2 = l) (es_locks s)) + size (filter (λ tp, pc_arc tp.2 = Some l) (es_threads s)))%nat.
Definition prune_trigger_lock {W} (s : EngineState W) (key : TriggerLockKey) (l : nat) : gmap TriggerLockKey nat :=
  if Nat.eqb (strong_count s l) 2 && opt_eqb Nat.eqb (es_locks s !! key) (Some l)
  then delete key (es_locks s) else es_locks s.

Section interleaving.
Context {W O : Type} {mh : MaterializerHandle W O} {mv : MaterializerView W} (env : Minijinja).

(** Every snapshot in use gives a behavior the agent the materializer resolves. *)
Definition snapshot_ok (s : FireSnapshot) : Prop :=
  ∀ task did, concurrency_agent_did s task = Ok did -> agent_of task = Some did.
Definition after_check (key : TriggerLockKey) (l : nat) (r : option FireResult) (next : DispatchPc) : DispatchPc :=
  match r with Some r => P_Release key l r false | None => next end.

Inductive engine_step (intents : FireIntent → Prop) : EngineState W → EngineState W → Prop :=
  | S_Spawn w L n H T R t i : T !! t = None -> t ∉ R.*1 -> intents i ->
      engine_step intents (mkEngine w L n H T R) (mkEngine w L n H (<[t := P_Start i]> T) R)
  | S_Move w w' L n H T R : moves w w' -> engine_step intents (mkEngine w L n H T R) (mkEngine w' L n H T R)
  | S_Prepare w L n H T R t i s now o prep w' : T !! t = Some (P_Start i) -> snapshot_ok s ->
      prepare_dispatch env s now o i w = (prep, w') ->
      engine_step intents (mkEngine w L n H T R)
        (mkEngine w' L n H (<[t := match prep with
                                   | PR_Done r => P_Return None r false
                                   | PR_Free p => P_Free p
                                   | PR_Locked p key => P_Lookup p key
                                   end]> T) R)
  | S_Free w L n H T R t p o o' r w' : T !! t = Some (P_Free p) -> materialize_after_lock o o' p w = (r, w') ->
      engine_step intents (mkEngine w L n H T R) (mkEngine w' L n H (<[t := P_Return None r true]> T) (R ++ [(t, r)]))
  | S_Lookup w L n H T R t p key : T !! t = Some (P_Lookup p key) ->
      engine_step intents (mkEngine w L n H T R)
        match L !! key with
        | Some l => mkEngine w L n H (<[t := P_Wait p key l]> T) R
        | None => mkEngine w (<[key := n]> L) (S n) H (<[t := P_Wait p key n]> T) R
        end
  | S_Lock w L n H T R t p key l : T !! t = Some (P_Wait p key l) -> H !! l = None ->
      engine_step intents (mkEngine w L n H T R) (mkEngine w L n (<[l := t]> H) (<[t := P_Group p key l]> T) R)
  | S_Group w L n H T R t p key l o r w' : T !! t = Some (P_Group p key l) -> group_check o p key w = (r, w') ->
      engine_step intents (mkEngine w L n H T R) (mkEngine w' L n H (<[t := after_check key l r (P_Gate p key l)]> T) R)
  | S_Gate w L n H T R t p key l o r w' : T !! t = Some (P_Gate p key l) -> concurrency_gate o p key w = (r, w') ->
      engine_step intents (mkEngine w L n H T R) (mkEngine w' L n H (<[t := after_check key l r (P_Make p key l)]> T) R)
  | S_Make w L n H T R t p key l o o' r w' : T !! t = Some (P_Make p key l) -> materialize_after_lock o o' p w = (r, w') ->
      engine_step intents (mkEngine w L n H T R)
        (mkEngine w' L n H (<[t := P_Release key l r true]> T) (R ++ [(t, r)]))
  | S_Release w L n H T R t key l r b : T !! t = Some (P_Release key l r b) ->
      engine_step intents (mkEngine w L n H T R) (mkEngine w L n (delete l H) (<[t := P_Prune key l r b]> T) R)
  | S_Prune w L n H T R t key l r b : T !! t = Some (P_Prune key l r b) ->
      engine_step intents (mkEngine w L n H T R)
        (mkEngine w (prune_trigger_lock (mkEngine w L n H T R) key l) n H (<[t := P_Return (Some l) r b]> T) R)
  | S_Return w L n H T R t l r b : T !! t = Some (P_Return l r b) ->
      engine_step intents (mkEngine w L n H T R)
        (mkEngine w L n H (<[t := P_Done r]> T) (if b then R else R ++ [(t, r)]))
  | S_Abort w L n H T R t pc : T !! t = Some pc -> (∀ r, pc <> P_Done r) ->
      engine_step intents (mkEngine w L n H T R)
        (mkEngine w L n (match pc_guard pc with Some l => delete l H | None => H end) (delete t T) R).
Definition engine_start (w : W) : EngineState W := mkEngine w ∅ 0%nat ∅ ∅ [].
Definition engine_reaches (intents : FireIntent → Prop) (w : W) : EngineState W → Prop :=
  rtc (engine_step intents) (engine_start w).
End interleaving.

(** ** The lock of a key *)

Record lock_inv {W} (s : EngineState W) : Prop := mkLockInv {
  li_key t pc key l : es_threads s !! t = Some pc -> pc_key pc = Some key -> pc_arc pc = Some l ->
    es_locks s !! key = Some l;
  li_held l t : es_held s !! l = Some t <-> ∃ pc, es_threads s !! t = Some pc ∧ pc_guard pc = Some l;
  li_fresh key l : es_locks s !! key = Some l -> (l < es_next s)%nat;
  li_inj key key' l : es_locks s !! key = Some l -> es_locks s !! key' = Some l -> key = key' }.

Lemma pc_guard_arc pc l : pc_guard pc = Some l -> pc_arc pc = Some l ∧ is_Some (pc_key pc).
Proof. destruct pc; cbn; naive_solver. Qed.

Lemma lock_inv_move {W} (w w' : W) L n H T R R' t pc pc' : lock_inv (mkEngine w L n H T R) ->
  T !! t = Some pc -> (pc_key pc' = None ∨ pc_key pc' = pc_key pc ∧ pc_arc pc' = pc_arc pc) ->
  pc_guard pc' = pc_guard pc -> lock_inv (mkEngine w' L n H (<[t := pc']> T) R').
Proof.
  intros [Hkey Hheld Hfresh Hinj] Ht Hsame Hg. split; cbn in *; [| |done|done].
  - intros u qc key l [[<- <-]|[Hne Hu]]%lookup_insert_Some Hk Ha; [|by eapply Hkey].
    destruct Hsame as [?|[Hk' Ha']]; [congruence|]. eapply Hkey; [exact Ht| |]; congruence.
  - intros l u. rewrite Hheld. split; intros (qc & Hu & Hq).
    + destruct (decide (u = t)) as [->|Hne]; [exists pc'|exists qc]; simplify_map_eq; [|done]. split; [done|congruence].
    + apply lookup_insert_Some in Hu as [[<- <-]|[Hne Hu]]; [|by exists qc]. exists pc. split; [done|congruence].
Qed.

(** The handles of two dispatches and the table's entry make a count of three. *)
Lemma strong_count_alone {W} (s : EngineState W) key l t pc : es_locks s !! key = Some l ->
  es_threads s !! t = Some pc -> pc_arc pc = Some l -> strong_count s l = 2%nat ->
  ∀ u qc, es_threads s !! u = Some qc -> pc_arc qc = Some l -> u = t.
Proof.
  unfold strong_count. intros Hk Ht Ha Hc u qc Hu Hq. destruct (decide (u = t)) as [|Hne]; [done|exfalso].
  assert (H1 : (1 <= size (filter (λ kl : TriggerLockKey * nat, kl.2 = l) (es_locks s)))%nat).
  { rewrite <-(map_size_singleton key l). apply map_subseteq_size, map_singleton_subseteq_l.
    by apply map_lookup_filter_Some. }
  assert (H2 : (2 <= size (filter (λ tp : nat * DispatchPc, pc_arc tp.2 = Some l) (es_threads s)))%nat).
  { assert (Hsz : size (<[t := pc]> {[ u := qc ]} : gmap nat DispatchPc) = 2%nat).
    { rewrite map_size_insert_None, map_size_singleton; [done|]. by apply lookup_singleton_None. }
    rewrite <-Hsz. apply map_subseteq_size, map_subseteq_spec. intros v rc.
    intros [[<- <-]|[_ [<- <-]%lookup_singleton_Some]]%lookup_insert_Some; by apply map_lookup_filter_Some. }
  lia.
Qed.

Section lock_proofs.
Context {W O : Type} {mh : MaterializerHandle W O} {mv : MaterializerView W} (env : Minijinja).

Lemma lock_inv_lookup (w : W) L n H T R t p key : lock_inv (mkEngine w L n H T R) -> T !! t = Some (P_Lookup p key) ->
  L !! key = None -> lock_inv (mkEngine w (<[key := n]> L) (S n) H (<[t := P_Wait p key n]> T) R).
Proof.
  intros [Hkey Hheld Hfresh Hinj] Ht Hnone. split; cbn in *.
  - intros u qc k l [[<- <-]|[Hne Hu]]%lookup_insert_Some; [cbn; intros [= <-] [= <-]; by simplify_map_eq|].
    intros Hk Ha. pose proof (Hkey _ _ _ _ Hu Hk Ha). rewrite lookup_insert_ne; [done|congruence].
  - intros l u. rewrite Hheld. split; intros (qc & Hu & Hq).
    + exists qc. split; [|done]. rewrite lookup_insert_ne; [done|]. intros <-. by simplify_eq.
    + apply lookup_insert_Some in Hu as [[<- <-]|[Hne Hu]]; [done|by exists qc].
  - intros k l [[<- <-]|[Hne Hl]]%lookup_insert_Some; [lia|]. specialize (Hfresh _ _ Hl). lia.
  - intros k k' l [[<- <-]|[Hne Hl]]%lookup_insert_Some [[<- Hl']|[Hne' Hl']]%lookup_insert_Some; try done.
    + apply Hfresh in Hl'. lia.
    + subst. apply Hfresh in Hl. lia.
    + by eapply Hinj.
Qed.
Lemma lock_inv_lock (w : W) L n H T R t p key l : lock_inv (mkEngine w L n H T R) -> T !! t = Some (P_Wait p key l) ->
  H !! l = None -> lock_inv (mkEngine w L n (<[l := t]> H) (<[t := P_Group p key l]> T) R).
Proof.
  intros [Hkey Hheld Hfresh Hinj] Ht Hfree. split; cbn in *; [| |done|done].
  - intros u qc k l' [[<- <-]|[Hne Hu]]%lookup_insert_Some; [cbn; intros [= <-] [= <-]; by eapply Hkey|by eapply Hkey].
  - intros l' u. rewrite lookup_insert_Some. split.
    + intros [[<- <-]|[Hne Hl]]; [exists (P_Group p key l); by simplify_map_eq|].
      apply Hheld in Hl as (qc & Hu & Hq). exists qc. split; [|done]. rewrite lookup_insert_ne; [done|]. intros <-. by simplify_eq.
    + intros (qc & [[<- <-]|[Hne Hu]]%lookup_insert_Some & Hq); [cbn in Hq; left; by simplify_eq|]. right.
      assert (Hl' : H !! l' = Some u) by (apply Hheld; by exists qc). split; [congruence|done].
Qed.
Lemma lock_inv_unlock (w : W) L n H T R t pc l T' : lock_inv (mkEngine w L n H T R) -> T !! t = Some pc -> pc_guard pc = Some l ->
  (∀ u, u <> t -> T' !! u = T !! u) -> (∀ pc', T' !! t = Some pc' -> pc_guard pc' = None ∧ pc_key pc' = pc_key pc ∧ pc_arc pc' = pc_arc pc) ->
  lock_inv (mkEngine w L n (delete l H) T' R).
Proof.
  intros [Hkey Hheld Hfresh Hinj] Ht Hg Hother Hself. split; cbn in *; [| |done|done].
  - intros u qc k l' Hu Hk Ha. destruct (decide (u = t)) as [->|Hne].
    + destruct (Hself _ Hu) as (_ & Hk' & Ha'). eapply Hkey; [exact Ht| |]; congruence.
    + rewrite Hother in Hu by done. by eapply Hkey.
  - assert (Hl : H !! l = Some t) by (apply Hheld; by exists pc).
    intros l' u. rewrite lookup_delete_Some, Hheld. split.
    + intros [Hne (qc & Hu & Hq)]. exists qc. split; [|done]. rewrite Hother; [done|]. intros ->. simplify_eq.
    + intros (qc & Hu & Hq). destruct (decide (u = t)) as [->|Hne]; [destruct (Hself _ Hu) as [? _]; congruence|].
      rewrite Hother in Hu by done. split; [|by exists qc]. intros <-.
      assert (H !! l = Some u) by (apply Hheld; by exists qc). congruence.
Qed.
Lemma lock_inv_prune (w : W) L n H T R t key l r b : lock_inv (mkEngine w L n H T R) -> T !! t = Some (P_Prune key l r b) ->
  lock_inv (mkEngine w (prune_trigger_lock (mkEngine w L n H T R) key l) n H (<[t := P_Return (Some l) r b]> T) R).
Proof.
  intros Hinv Ht. pose proof Hinv as [Hkey Hheld Hfresh Hinj]. cbn in *.
  assert (Hsub : ∀ k l', prune_trigger_lock (mkEngine w L n H T R) key l !! k = Some l' -> L !! k = Some l').
  { intros k l'. unfold prune_trigger_lock. case_match; [|done]. by intros [_ ?]%lookup_delete_Some. }
  split; cbn; [|by eapply (lock_inv_move w w _ _ _ _ R R t); [exact Hinv|exact Ht|left|]|eauto|eauto].
  intros u qc k l' [[<- <-]|[Hne Hu]]%lookup_insert_Some Hk Ha; [done|]. pose proof (Hkey _ _ _ _ Hu Hk Ha) as HL.
  unfold prune_trigger_lock. case_match eqn:Hc; [|done]. apply andb_true_iff in Hc as [Hcount%Nat.eqb_eq _].
  cbn. rewrite lookup_delete_ne; [done|]. intros <-.
  pose proof (Hkey _ _ _ _ Ht eq_refl eq_refl) as Hl. rewrite HL in Hl. injection Hl as ->.
  apply Hne. symmetry. by eapply (strong_count_alone (mkEngine w L n H T R) key l t).
Qed.

Lemma lock_inv_step intents s s' : engine_step env intents s s' -> lock_inv s -> lock_inv s'.
Proof.
  intros Hs Hinv. destruct Hs; try (eapply lock_inv_move; [exact Hinv|eassumption| |done]; first [by left|by right]).
  - destruct Hinv as [Hkey Hheld Hfresh Hinj]. split; cbn in *; [| |done|done].
    + intros u qc k l [[<- <-]|[Hne Hu]]%lookup_insert_Some; [done|by eapply Hkey].
    + intros l u. rewrite Hheld. split; intros (qc & Hu & Hq).
      * exists qc. split; [|done]. rewrite lookup_insert_ne; [done|congruence].
      * apply lookup_insert_Some in Hu as [[<- <-]|[Hne Hu]]; [done|by exists qc].
  - by destruct Hinv.
  - eapply lock_inv_move; [exact Hinv|eassumption|left|]; by destruct prep.
  - destruct (L !! key) as [l|] eqn:HL; [|by eapply lock_inv_lookup].
    destruct Hinv as [Hkey Hheld Hfresh Hinj]. split; cbn in *; [| |done|done].
    + intros u qc k l' [[<- <-]|[Hne Hu]]%lookup_insert_Some; [cbn; congruence|by eapply Hkey].
    + intros l' u. rewrite Hheld. split; intros (qc & Hu & Hq).
      * exists qc. split; [|done]. rewrite lookup_insert_ne; [done|]. intros <-. by simplify_eq.
      * apply lookup_insert_Some in Hu as [[<- <-]|[Hne Hu]]; [done|by exists qc].
  - by eapply lock_inv_lock.
  - eapply lock_inv_move; [exact Hinv|eassumption|right|]; by destruct r.
  - eapply lock_inv_move; [exact Hinv|eassumption|right|]; by destruct r.
  - eapply lock_inv_unlock; [exact Hinv|eassumption|done| |]; intros; by simplify_map_eq.
  - by eapply lock_inv_prune.
  - destruct (pc_guard pc) as [l|] eqn:Hg.
    + eapply lock_inv_unlock; [exact Hinv|eassumption|done| |]; intros; by simplify_map_eq.
    + destruct Hinv as [Hkey Hheld Hfresh Hinj]. split; cbn in *; [| |done|done].
      * intros u qc k l [_ Hu]%lookup_delete_Some. by eapply Hkey.
      * intros l u. rewrite Hheld. split; intros (qc & Hu & Hq).
        -- exists qc. split; [|done]. rewrite lookup_delete_ne; [done|]. congruence.
        -- apply lookup_delete_Some in Hu as [_ Hu]. by exists qc.
Qed.
Lemma lock_inv_start (w : W) : lock_inv (engine_start w).
Proof. split; cbn; try done. intros l t. split; [done|]. by intros (pc & ? & _). Qed.
Lemma lock_inv_reaches intents w s : engine_reaches env intents w s -> lock_inv s.
Proof.
  unfold engine_reaches. intros Hr. assert (Hi : lock_inv (engine_start w)) by apply lock_inv_start.
  induction Hr as [|x y z Hxy _ IH]; [done|]. eapply IH, lock_inv_step; eauto.
Qed.

(** Two dispatches with the lock of one key are one. *)
Lemma one_holder (s : EngineState W) t u pc qc key : lock_inv s -> es_threads s !! t = Some pc -> es_threads s !! u = Some qc ->
  pc_key pc = Some key -> pc_key qc = Some key -> is_Some (pc_guard pc) -> is_Some (pc_guard qc) -> t = u.
Proof.
  intros [Hkey Hheld _ _] Ht Hu Hk Hk' [l Hl] [l' Hl'].
  pose proof (Hkey _ _ _ _ Ht Hk (proj1 (pc_guard_arc _ _ Hl))) as H1.
  pose proof (Hkey _ _ _ _ Hu Hk' (proj1 (pc_guard_arc _ _ Hl'))) as H2.
  rewrite H1 in H2. injection H2 as <-. assert (es_held s !! l = Some t) by (apply Hheld; by exists pc).
  assert (es_held s !! l = Some u) by (apply Hheld; by exists qc). congruence.
Qed.
End lock_proofs.

(** ** The plan of a dispatch *)

Definition concurrency_correlation (i : FireIntent) : option str :=
  match fi_group_vars i with Some _ => fi_correlation i | None => None end.

Section gate_proofs.
Context {W O : Type} {mh : MaterializerHandle W O} {mv : MaterializerView W} {laws : MaterializerLaws W O} (env : Minijinja).

Definition unlocked (i : FireIntent) : Prop :=
  fi_trigger_id i = None ∨ fi_concurrency i = CM_Parallel ∧ fi_group_vars i = None.
Definition planned (p : Prepared) (key : TriggerLockKey) : Prop :=
  let i := pp_intent p in
  ∃ did trigger_id, key = (did, trigger_id, fi_trigger_kind i, concurrency_correlation i)
    ∧ agent_of (fi_task i) = Some did ∧ fi_trigger_id i = Some trigger_id
    ∧ pp_goal_request_id p = match pp_objective p with
        | Some _ => Some (tg_request_id (task_goal_fire_identity did (rt_task_id (fi_task i)) (fi_durable_fire_key i)))
        | None => None
        end.

Lemma plan_dispatch_spec s now i plan : snapshot_ok s -> plan_dispatch env s now i = Ok plan ->
  match plan with
  | PR_Done _ => False
  | PR_Free p => pp_intent p = i ∧ unlocked i
  | PR_Locked p key => pp_intent p = i ∧ planned p key
  end.
Proof.
  intros Hs. unfold plan_dispatch. destruct (resolve_trigger_doc s i) as [doc|]; [|done].
  destruct (render_intent env s now i) as [[rendered objective]|]; [|done].
  set (G := match objective with None => _ | Some _ => _ end).
  assert (HG : ∀ g, G = Ok g -> ∀ did, concurrency_agent_did s (fi_task i) = Ok did ->
    g = match objective with
        | Some _ => Some (tg_request_id (task_goal_fire_identity did (rt_task_id (fi_task i)) (fi_durable_fire_key i)))
        | None => None
        end).
  { subst G. intros g Hg did Hd. destruct objective; [|congruence]. rewrite Hd in Hg. congruence. }
  destruct G as [g|]; [|done]. destruct (fi_trigger_id i) as [trigger_id|] eqn:Htid.
  2:{ intros [= <-]. split; [done|by left]. }
  destruct (bool_decide (fi_concurrency i = CM_Parallel) && _) eqn:Hfree.
  - intros [= <-]. split; [done|right]. apply andb_true_iff in Hfree as [H1%bool_decide_eq_true H2].
    split; [done|]. by destruct (fi_group_vars i).
  - destruct (concurrency_agent_did s (fi_task i)) as [did|] eqn:Hd; [|done]. intros [= <-]. split; [done|].
    exists did, trigger_id. cbn [pp_intent pp_goal_request_id pp_objective]. split_and!; [done|by apply Hs|done|by apply HG].
Qed.
Lemma prepare_dispatch_spec s now o i w prep w' : snapshot_ok s -> prepare_dispatch env s now o i w = (prep, w') ->
  shrinks w w' ∧ match prep with
                 | PR_Done _ => True
                 | PR_Free p => pp_intent p = i ∧ unlocked i
                 | PR_Locked p key => pp_intent p = i ∧ planned p key
                 end.
Proof.
  intros Hs. assert (Hrefl : ∀ v : W, shrinks v v) by (intros v; split; [done|intros key; set_solver]).
  unfold prepare_dispatch. destruct (well_formed_error i); [by intros [= <- <-]|].
  destruct (fi_pre_materialized_request_id i); [by intros [= <- <-]|].
  destruct (recover_goal_task_fire o _ _ w) as [[[id|]|] w1] eqn:Hr; apply recover_law in Hr; intros [= <- <-]; split; try done.
  destruct (plan_dispatch env s now i) as [plan|] eqn:Hp; [|done]. apply plan_dispatch_spec in Hp; [|done]. by destruct plan.
Qed.

(** ** The stages under the lock *)

Lemma shrinks_refl (w : W) : shrinks w w.
Proof. split; [done|]. intros key. set_solver. Qed.
Lemma shrinks_trans (w1 w2 w3 : W) : shrinks w1 w2 -> shrinks w2 w3 -> shrinks w1 w3.
Proof. intros [Ho1 H1] [Ho2 H2]. split; [auto|]. intros key. specialize (H1 key). specialize (H2 key). set_solver. Qed.

Lemma group_check_spec o p key w r w' : planned p key -> group_check o p key w = (r, w') ->
  shrinks w w' ∧ (r = None -> ∀ did tid kind c, key = (did, tid, kind, Some c) -> trim c = c -> bound w' key = ∅).
Proof.
  intros (did & tid & -> & _ & _ & _). unfold group_check, concurrency_correlation. cbn.
  destruct (fi_group_vars (pp_intent p)); [|intros [= <- <-]; split; [apply shrinks_refl|]; naive_solver].
  destruct (fi_correlation (pp_intent p)) as [c|]; cbn [fmap option_fmap option_map]; [|intros [= <- <-]; split; [apply shrinks_refl|done]].
  case_match; [intros [= <- <-]; split; [apply shrinks_refl|done]|].
  destruct (has_materialized_group_request o did tid _ (trim c) w) as [[[]|e] w1] eqn:Hg;
    apply group_law in Hg as [Hs Hf]; intros [= <- <-]; (split; [done|]); try done.
  intros _ did' tid' kind' c' [= -> -> <- ->] Ht. rewrite <-Ht. by apply Hf.
Qed.
Lemma concurrency_gate_spec o p key w r w' : concurrency_gate o p key w = (r, w') ->
  shrinks w w' ∧ (r = None -> fi_concurrency (pp_intent p) <> CM_Parallel -> live w' key ⊆ only (pp_goal_request_id p)).
Proof.
  unfold concurrency_gate. destruct (fi_concurrency (pp_intent p)).
  - intros [= <- <-]. split; [apply shrinks_refl|done].
  - destruct (has_active_runtime_request_for_trigger o key _ w) as [[[]|e] w1] eqn:Hg; apply has_active_law in Hg as [Hs Hf];
      intros [= <- <-]; (split; [done|]); try done. intros _ _. by apply Hf.
  - destruct (supersede_active_runtime_requests_for_trigger o key _ w) as [[n|e] w1] eqn:Hg; apply supersede_law in Hg as [Hs Hf];
      intros [= <- <-]; (split; [done|]); try done. intros _ _. by apply Hf.
Qed.
(** One request at most is added, and only to the keys that cover the fire. *)
Definition adds (a : MaterializeArgs) (w w' : W) : Prop := world_ok w -> world_ok w' ∧ ∃ id,
  (∀ did, agent_of (ma_task a) = Some did -> is_Some (ma_rendered_goal_objective a) ->
     trim (ma_durable_fire_key a) = ma_durable_fire_key a ->
     id = tg_request_id (task_goal_fire_identity did (rt_task_id (ma_task a)) (ma_durable_fire_key a)))
  ∧ ∀ key, (live w' key ⊆ live w key ∧ bound w' key ⊆ bound w key)
      ∨ (covers key (agent_of (ma_task a)) a ∧ live w' key ⊆ live w key ∪ {[ id ]} ∧ bound w' key ⊆ bound w key ∪ {[ id ]}).
Lemma materialize_after_lock_spec o o' p w r w' : materialize_after_lock o o' p w = (r, w') -> adds (materialize_args p) w w'.
Proof.
  unfold materialize_after_lock. destruct (materialize o _ w) as [m w1] eqn:Hm0. pose proof (materialize_law _ _ _ _ _ Hm0) as Hm.
  assert (Hadd : ∀ w2, shrinks w1 w2 -> adds (materialize_args p) w w2).
  { intros w2 [Hok2 Hs] Hok. destruct (Hm Hok) as (Hok1 & id & Hid & Hkeys). split; [auto|]. exists id. split; [done|].
    intros key. specialize (Hs key).
    destruct (Hkeys key) as [?|(Hc & ? & ?)]; [left; set_solver|right; split; [done|set_solver]]. }
  pose proof (shrinks_refl w1) as Hrefl. destruct m as [id|e]; [intros [= <- <-]; by apply Hadd|].
  destruct (pp_objective p); [|intros [= <- <-]; by apply Hadd].
  destruct (recover_goal_task_fire o' _ _ w1) as [[[id|]|] w2] eqn:Hr; apply recover_law in Hr; intros [= <- <-]; by apply Hadd.
Qed.
End gate_proofs.

(** ** At most one request *)

Section one_request.
Context {W O : Type} {mh : MaterializerHandle W O} {mv : MaterializerView W} {laws : MaterializerLaws W O} (env : Minijinja).

(** Every dispatch keeps to the intents it was started with. *)
Definition pc_ok (intents : FireIntent → Prop) (pc : DispatchPc) : Prop :=
  match pc with
  | P_Start i => intents i
  | P_Free p => intents (pp_intent p) ∧ unlocked (pp_intent p)
  | P_Lookup p key | P_Wait p key _ | P_Group p key _ | P_Gate p key _ | P_Make p key _ =>
      intents (pp_intent p) ∧ planned p key
  | _ => True
  end.
Definition threads_ok (intents : FireIntent → Prop) (s : EngineState W) : Prop :=
  ∀ t pc, es_threads s !! t = Some pc -> pc_ok intents pc.
Lemma threads_ok_insert intents (T : gmap nat DispatchPc) t pc :
  (∀ u qc, T !! u = Some qc -> pc_ok intents qc) -> pc_ok intents pc ->
  ∀ u qc, <[t := pc]> T !! u = Some qc -> pc_ok intents qc.
Proof. intros HT Hpc u qc [[<- <-]|[_ Hu]]%lookup_insert_Some; [done|by eapply HT]. Qed.
Lemma threads_ok_step intents s s' : engine_step env intents s s' -> threads_ok intents s -> threads_ok intents s'.
Proof.
  unfold threads_ok. intros Hs Hok. destruct Hs; cbn in *; try (apply threads_ok_insert; [done|]; by apply (Hok _ _ ltac:(eassumption))).
  all: try (apply threads_ok_insert; done).
  - done.
  - apply threads_ok_insert; [done|]. pose proof (Hok _ _ ltac:(eassumption)) as Hi.
    match goal with Hp : prepare_dispatch _ _ _ _ _ _ = _ |- _ => apply prepare_dispatch_spec in Hp as [_ Hp]; [|done] end.
    destruct prep; cbn in *; [done| |]; naive_solver.
  - pose proof (Hok _ _ ltac:(eassumption)) as Hi. case_match; by apply threads_ok_insert.
  - apply threads_ok_insert; [done|]. pose proof (Hok _ _ ltac:(eassumption)) as Hi. by destruct r.
  - apply threads_ok_insert; [done|]. pose proof (Hok _ _ ltac:(eassumption)) as Hi. by destruct r.
  - intros u qc [_ Hu]%lookup_delete_Some. by eapply Hok.
Qed.

(** What is counted for a key: its live requests, when every fire of its trigger is
    serial or latest-only, or all its requests, when every fire is a group fire. *)
Inductive Count : Type := C_Live | C_Bound.
Definition counted_set (c : Count) (key : TriggerLockKey) (w : W) : gset str :=
  match c with C_Live => live w key | C_Bound => bound w key end.
Definition disciplined (c : Count) (key : TriggerLockKey) (i : FireIntent) : Prop :=
  let '(_, trigger_id, kind, correlation) := key in
  fi_trigger_id i = Some trigger_id -> fi_trigger_kind i = kind ->
  (is_Some correlation <-> is_Some (fi_group_vars i))
  ∧ match c with
    | C_Live => fi_concurrency i <> CM_Parallel ∧ trim (fi_durable_fire_key i) = fi_durable_fire_key i
    | C_Bound => ∃ x, correlation = Some x ∧ trim x = x
    end.
(** Past its check a dispatch has found the key empty, its own durable request
    excepted. *)
Definition checked (c : Count) (key : TriggerLockKey) (pc : DispatchPc) : option (gset str) :=
  match c, pc with
  | C_Live, P_Make p k _ => if decide (k = key) then Some (only (pp_goal_request_id p)) else None
  | C_Bound, (P_Gate _ k _ | P_Make _ k _) => if decide (k = key) then Some ∅ else None
  | _, _ => None
  end.
Record count_inv (c : Count) (key : TriggerLockKey) (s : EngineState W) : Prop := mkCountInv {
  ci_ok : world_ok (es_world s);
  ci_size : (size (counted_set c key (es_world s)) <= 1)%nat;
  ci_checked t pc S : es_threads s !! t = Some pc -> checked c key pc = Some S -> counted_set c key (es_world s) ⊆ S }.

Lemma shrinks_counted c key (w w' : W) : shrinks w w' -> counted_set c key w' ⊆ counted_set c key w.
Proof. intros [_ Hs]. destruct (Hs key). by destruct c. Qed.
Lemma checked_guard c key pc S : checked c key pc = Some S -> pc_key pc = Some key ∧ is_Some (pc_guard pc).
Proof. destruct c, pc; cbn; try done; case_decide; naive_solver. Qed.

(** A step that shrinks the world and leaves one dispatch unchecked, or checked with
    what it found. *)
Lemma count_inv_shrink c key (w w' : W) L n H T R L' n' H' T' R' t pc : count_inv c key (mkEngine w L n H T R) ->
  shrinks w w' -> (∀ u qc, T' !! u = Some qc -> T !! u = Some qc ∨ u = t ∧ qc = pc) ->
  (∀ S, checked c key pc = Some S -> counted_set c key w' ⊆ S) -> count_inv c key (mkEngine w' L' n' H' T' R').
Proof.
  intros [Hwok Hsz Hch] Hs Hsub Hnew. cbn in *. pose proof (shrinks_counted c key _ _ Hs) as Hc. split; cbn.
  - by apply Hs.
  - apply subseteq_size in Hc. lia.
  - intros u qc S Hu Hq. destruct (Hsub _ _ Hu) as [Hold|[-> ->]]; [|by apply Hnew].
    specialize (Hch _ _ _ Hold Hq). set_solver.
Qed.
Lemma insert_sub (T : gmap nat DispatchPc) t pc : ∀ u qc, <[t := pc]> T !! u = Some qc -> T !! u = Some qc ∨ u = t ∧ qc = pc.
Proof. intros u qc [[<- <-]|[_ ?]]%lookup_insert_Some; auto. Qed.

(** A fire that creates a request for the key holds its lock, past the check. *)
Lemma covered_is_checked c key p k : planned (mv:=mv) p k -> disciplined c key (pp_intent p) ->
  covers key (agent_of (fi_task (pp_intent p))) (materialize_args p) -> k = key.
Proof.
  intros (did & tid & -> & Ha & Ht & _) Hd Hc. destruct key as [[[did' tid'] kind] corr]. cbn in *.
  destruct Hc as (Hdid & Htid & Hk & Hcorr). rewrite Ha in Hdid. injection Hdid as ->. rewrite Ht in Htid.
  injection Htid as ->. subst kind. destruct (Hd Ht eq_refl) as [Hg _]. f_equal. unfold concurrency_correlation.
  destruct (fi_group_vars (pp_intent p)).
  - destruct Hcorr as [-> | ->]; [|done]. destruct Hg as [_ Hg]. by destruct Hg; [eexists|].
  - destruct corr; [|done]. destruct Hg as [Hg _]. by destruct Hg; [eexists|].
Qed.
Lemma unlocked_not_covered c key p : unlocked (pp_intent p) -> disciplined c key (pp_intent p) ->
  ~ covers key (agent_of (fi_task (pp_intent p))) (materialize_args p).
Proof.
  destruct key as [[[did' tid'] kind] corr]. cbn. intros Hu Hd (_ & Htid & Hk & _).
  destruct (Hd Htid Hk) as [Hg Hc]. destruct Hu as [?|[Hpar Hnone]]; [congruence|].
  destruct c; [by destruct Hc|]. destruct Hc as (x & -> & _). destruct Hg as [Hg _].
  rewrite Hnone in Hg. destruct Hg as [? ?]; [by eexists|done].
Qed.
Lemma goal_set_small p : (size (only (pp_goal_request_id p)) <= 1)%nat.
Proof. destruct (pp_goal_request_id p); cbn; [by rewrite size_singleton|rewrite size_empty; lia]. Qed.

(** The step that creates a request. *)
Lemma count_inv_make c key intents (w w' : W) L n H T R t pc p pc' R' : (∀ i, intents i -> disciplined c key i) ->
  lock_inv (mkEngine w L n H T R) -> threads_ok intents (mkEngine w L n H T R) -> count_inv c key (mkEngine w L n H T R) ->
  T !! t = Some pc -> (pc = P_Free p ∨ ∃ k l, pc = P_Make p k l) -> checked c key pc' = None ->
  adds (materialize_args p) w w' -> count_inv c key (mkEngine w' L n H (<[t := pc']> T) R').
Proof.
  intros Hdisc Hlock Hok [Hwok Hsz Hch] Ht Hpc Hnew Hadds. cbn in *. destruct (Hadds Hwok) as (Hwok' & id & Hid & Hkeys).
  destruct (Hkeys key) as [[Hl Hb]|(Hcov & Hl & Hb)].
  { split; cbn; [done|assert (Hss : counted_set c key w' ⊆ counted_set c key w) by (by destruct c);
      apply subseteq_size in Hss; lia|].
    intros u qc S [Hu|[-> ->]]%insert_sub Hq; [|congruence]. specialize (Hch _ _ _ Hu Hq). destruct c; cbn in *; set_solver. }
  pose proof (Hok _ _ Ht) as Hpcok. destruct Hpc as [->|(k & l & ->)]; cbn in Hpcok; destruct Hpcok as [Hi Hplan].
  { by destruct (unlocked_not_covered c key p Hplan (Hdisc _ Hi)). }
  pose proof (covered_is_checked c key p k Hplan (Hdisc _ Hi) Hcov) as ->.
  assert (Hself : ∃ S, checked c key (P_Make p key l) = Some S ∧ (size (S ∪ {[ id ]}) <= 1)%nat).
  { destruct c; cbn; rewrite decide_True by done; eexists; (split; [done|]).
    - pose proof (Hdisc _ Hi) as Hd. destruct Hplan as (did & tid & Hkey & Ha & Htid & ->).
      destruct (pp_objective p) eqn:Ho; cbn.
      + assert (Htrim : trim (fi_durable_fire_key (pp_intent p)) = fi_durable_fire_key (pp_intent p)).
        { rewrite Hkey in Hd. by destruct (Hd Htid eq_refl) as (_ & _ & ?). }
        rewrite (Hid did Ha) by first [exact Htrim|cbn [materialize_args ma_rendered_goal_objective]; by eexists]. rewrite (union_idemp_L _), size_singleton. lia.
      + rewrite (left_id_L _ _), size_singleton. lia.
    - rewrite (left_id_L _ _), size_singleton. lia. }
  destruct Hself as (S & HS & Hsize). pose proof (Hch _ _ _ Ht HS) as Hempty. split; cbn; [done| |].
  - assert (Hss : counted_set c key w' ⊆ S ∪ {[ id ]}) by (destruct c; cbn in *; set_solver).
    apply subseteq_size in Hss. lia.
  - intros u qc S' [[<- <-]|[Hne Hu]]%lookup_insert_Some Hq; [congruence|]. exfalso. apply Hne.
    destruct (checked_guard _ _ _ _ HS) as [Hk Hg]. destruct (checked_guard _ _ _ _ Hq) as [Hk' Hg'].
    by eapply (one_holder (mkEngine w L n H T R) t u).
Qed.

Lemma count_inv_step c key intents s s' : (∀ i, intents i -> disciplined c key i) -> engine_step env intents s s' ->
  lock_inv s -> threads_ok intents s -> count_inv c key s -> count_inv c key s'.
Proof.
  intros Hdisc Hs Hlock Hok Hinv. pose proof (shrinks_refl (mv:=mv)) as Hrefl. destruct Hs as
    [w L n Hh T R t i|w w' L n Hh T R Hm|w L n Hh T R t i sn now o prep w' Ht Hsn Hp|w L n Hh T R t p o o' r w' Ht Hm
    |w L n Hh T R t p k Ht|w L n Hh T R t p k l Ht Hfree|w L n Hh T R t p k l o r w' Ht Hg|w L n Hh T R t p k l o r w' Ht Hg
    |w L n Hh T R t p k l o o' r w' Ht Hm|w L n Hh T R t k l r b Ht|w L n Hh T R t k l r b Ht|w L n Hh T R t l r b Ht|w L n Hh T R t pc Ht Hnd].
  - eapply count_inv_shrink; [exact Hinv|done|apply insert_sub|]. by destruct c.
  - apply (count_inv_shrink c key w w' L n Hh T R L n Hh T R 0%nat (P_Done (Fired [])) Hinv); [by apply moves_shrink|auto|by destruct c].
  - apply prepare_dispatch_spec in Hp as [Hp _]; [|done].
    eapply count_inv_shrink; [exact Hinv|done|apply insert_sub|]. by destruct c, prep.
  - apply materialize_after_lock_spec in Hm. eapply count_inv_make; try eassumption; [by left|by destruct c].
  - case_match; (eapply count_inv_shrink; [exact Hinv|done|apply insert_sub|]; by destruct c).
  - eapply count_inv_shrink; [exact Hinv|done|apply insert_sub|]. by destruct c.
  - destruct (Hok _ _ Ht) as [Hi Hplan]. apply group_check_spec in Hg as [Hsh Hf]; [|done].
    eapply count_inv_shrink; [exact Hinv|done|apply insert_sub|].
    destruct r; [by destruct c|]. destruct c; cbn; [done|]. intros S. case_decide as Hk; [|done]. intros [= <-]. subst k.
    pose proof (Hdisc _ Hi) as Hd. destruct Hplan as (did & tid & -> & _ & Htid & _).
    destruct (Hd Htid eq_refl) as (_ & x & Hx & Htrim). rewrite Hx in *. by rewrite (Hf eq_refl _ _ _ _ eq_refl Htrim).
  - destruct (Hok _ _ Ht) as [Hi Hplan]. apply concurrency_gate_spec in Hg as [Hsh Hf].
    eapply count_inv_shrink; [exact Hinv|done|apply insert_sub|].
    destruct r; [by destruct c|]. intros S HS. destruct c; cbn in HS; case_decide as Hk; try done; injection HS as <-; subst k.
    + apply Hf; [done|]. pose proof (Hdisc _ Hi) as Hd. destruct Hplan as (did & tid & -> & _ & Htid & _).
      by destruct (Hd Htid eq_refl) as (_ & ? & _).
    + pose proof (ci_checked _ _ _ Hinv t _ ∅ Ht) as Hc. cbn in Hc. rewrite decide_True in Hc by done.
      specialize (Hc eq_refl). destruct (proj2 Hsh key) as [_ Hb]. cbn. set_solver.
  - apply materialize_after_lock_spec in Hm. eapply count_inv_make; try eassumption; [right; by eauto|by destruct c].
  - eapply count_inv_shrink; [exact Hinv|done|apply insert_sub|]. by destruct c.
  - eapply count_inv_shrink; [exact Hinv|done|apply insert_sub|]. by destruct c.
  - eapply count_inv_shrink; [exact Hinv|done|apply insert_sub|]. by destruct c.
  - apply (count_inv_shrink c key w w L n Hh T R _ _ _ _ _ 0%nat (P_Done (Fired [])) Hinv); [done| |by destruct c].
    intros u qc [_ Hu]%lookup_delete_Some. by left.
Qed.
Lemma count_inv_reaches c key intents w s : (∀ i, intents i -> disciplined c key i) ->
  world_ok w -> (size (counted_set c key w) <= 1)%nat -> engine_reaches env intents w s -> count_inv c key s.
Proof.
  intros Hdisc Hwok Hw Hr.
  assert (H0 : lock_inv (engine_start w) ∧ threads_ok intents (engine_start w) ∧ count_inv c key (engine_start w)).
  { split_and!; [apply lock_inv_start|by intros t pc|split; [done|done|by intros t pc S]]. }
  cut (lock_inv s ∧ threads_ok intents s ∧ count_inv c key s); [by intros (_ & _ & ?)|].
  unfold engine_reaches in Hr. induction Hr as [|x y z Hxy _ IH]; [done|]. destruct H0 as (Hl & Ht & Hc). apply IH. split_and!.
  - by eapply lock_inv_step.
  - by eapply threads_ok_step.
  - by eapply count_inv_step.
Qed.

(** A trigger all of whose fires are serial or latest-only has one live request. *)
Lemma serial_one_live key intents w s :
  (∀ i, intents i -> disciplined C_Live key i) -> world_ok w -> (size (live w key) <= 1)%nat ->
  engine_reaches env intents w s -> (size (live (es_world s) key) <= 1)%nat.
Proof. intros Hd Hok Hw Hr. exact (ci_size _ _ _ (count_inv_reaches C_Live key intents w s Hd Hok Hw Hr)). Qed.
(** A group has one request. *)
Lemma group_one_bound key intents w s :
  (∀ i, intents i -> disciplined C_Bound key i) -> world_ok w -> (size (bound w key) <= 1)%nat ->
  engine_reaches env intents w s -> (size (bound (es_world s) key) <= 1)%nat.
Proof. intros Hd Hok Hw Hr. exact (ci_size _ _ _ (count_inv_reaches C_Bound key intents w s Hd Hok Hw Hr)). Qed.
End one_request.

(** ** Reports *)

Definition reports_of (t : nat) (R : list (nat * FireResult)) : list FireResult :=
  (filter (λ tr, tr.1 = t) R).*2.
Definition pc_report (pc : DispatchPc) : list FireResult :=
  match pc with
  | P_Release _ _ r true | P_Prune _ _ r true | P_Return _ r true | P_Done r => [r]
  | _ => []
  end.

Section reports.
Context {W O : Type} {mh : MaterializerHandle W O} {mv : MaterializerView W} (env : Minijinja).

Lemma reports_snoc_other t u r R : t <> u -> reports_of t (R ++ [(u, r)]) = reports_of t R.
Proof. intros Hne. unfold reports_of. rewrite list.filter_app, filter_cons_False by (cbn; congruence). by rewrite filter_nil, app_nil_r. Qed.
Lemma reports_snoc_self t r R : reports_of t (R ++ [(t, r)]) = reports_of t R ++ [r].
Proof. unfold reports_of. rewrite list.filter_app, filter_cons_True by done. rewrite filter_nil. by rewrite fmap_app. Qed.
Lemma reports_fresh t R : t ∉ R.*1 -> reports_of t R = [].
Proof.
  intros Hn. unfold reports_of. induction R as [|[u r] R IH]; [done|]. rewrite filter_cons_False; [apply IH; set_solver|].
  cbn. intros ->. apply Hn. cbn. set_solver.
Qed.
Definition report_inv (s : EngineState W) : Prop :=
  ∀ t pc, es_threads s !! t = Some pc -> reports_of t (es_reports s) = pc_report pc.
Lemma report_inv_step intents s s' : engine_step env intents s s' -> report_inv s -> report_inv s'.
Proof.
  unfold report_inv. intros Hs Hinv. destruct Hs; cbn [es_threads es_reports] in *;
    try (intros u qc [[<- <-]|[Hne Hu]]%lookup_insert_Some;
         [rewrite ?reports_snoc_self; erewrite ?Hinv by eassumption; done
         |rewrite ?reports_snoc_other by done; by apply Hinv]).
  - intros u qc [[<- <-]|[Hne Hu]]%lookup_insert_Some; [by apply reports_fresh|by apply Hinv].
  - done.
  - intros u qc [[<- <-]|[Hne Hu]]%lookup_insert_Some; [|by apply Hinv]. erewrite Hinv by eassumption. by destruct prep.
  - case_match; cbn [es_threads es_reports]; (intros u qc [[<- <-]|[Hne Hu]]%lookup_insert_Some; [by erewrite Hinv by eassumption|by apply Hinv]).
  - intros u qc [[<- <-]|[Hne Hu]]%lookup_insert_Some; [|by apply Hinv]. erewrite Hinv by eassumption. by destruct r.
  - intros u qc [[<- <-]|[Hne Hu]]%lookup_insert_Some; [|by apply Hinv]. erewrite Hinv by eassumption. by destruct r.
  - intros u qc [[<- <-]|[Hne Hu]]%lookup_insert_Some; destruct b; rewrite ?reports_snoc_self, ?reports_snoc_other by done;
      try (by apply Hinv); by erewrite Hinv by eassumption.
  - intros u qc [_ Hu]%lookup_delete_Some. by apply Hinv.
Qed.

(** A dispatch that has returned has called back exactly once, with its result. *)
Lemma dispatch_reports_once intents w s t r : engine_reaches env intents w s ->
  es_threads s !! t = Some (P_Done r) -> reports_of t (es_reports s) = [r].
Proof.
  intros Hr Ht. cut (report_inv s); [intros Hi; by rewrite (Hi _ _ Ht)|].
  assert (H0 : report_inv (engine_start w)) by (by intros u pc).
  unfold engine_reaches in Hr. induction Hr as [|x y z Hxy _ IH]; [done|]. apply IH; [done|]. by eapply report_inv_step.
Qed.
End reports.

(** ** Runs *)

(** The steps as actions, for runs that evaluate. *)
Inductive EngineAction (O : Type) : Type :=
  | A_Spawn (t : nat) (i : FireIntent)
  | A_Prepare (t : nat) (s : FireSnapshot) (now : str) (o : O)
  | A_Free (t : nat) (o o' : O)
  | A_Lookup (t : nat)
  | A_Lock (t : nat)
  | A_Group (t : nat) (o : O)
  | A_Gate (t : nat) (o : O)
  | A_Make (t : nat) (o o' : O)
  | A_Release (t : nat)
  | A_Prune (t : nat)
  | A_Return (t : nat)
  | A_Abort (t : nat).
Arguments A_Spawn {O} _ _.
Arguments A_Prepare {O} _ _ _ _.
Arguments A_Free {O} _ _ _.
Arguments A_Lookup {O} _.
Arguments A_Lock {O} _.
Arguments A_Group {O} _ _.
Arguments A_Gate {O} _ _.
Arguments A_Make {O} _ _ _.
Arguments A_Release {O} _.
Arguments A_Prune {O} _.
Arguments A_Return {O} _.
Arguments A_Abort {O} _.

Section runs.
Context {W O : Type} {mh : MaterializerHandle W O} {mv : MaterializerView W} (env : Minijinja).

Definition engine_act (x : EngineAction O) (e : EngineState W) : option (EngineState W) :=
  let '(mkEngine w L n H T R) := e in
  match x with
  | A_Spawn t i => if decide (T !! t = None ∧ t ∉ R.*1) then Some (mkEngine w L n H (<[t := P_Start i]> T) R) else None
  | A_Prepare t s now o =>
      match T !! t with
      | Some (P_Start i) =>
          let '(prep, w') := prepare_dispatch env s now o i w in
          Some (mkEngine w' L n H (<[t := match prep with
                                          | PR_Done r => P_Return None r false
                                          | PR_Free p => P_Free p
                                          | PR_Locked p key => P_Lookup p key
                                          end]> T) R)
      | _ => None
      end
  | A_Free t o o' =>
      match T !! t with
      | Some (P_Free p) => let '(r, w') := materialize_after_lock o o' p w in
                           Some (mkEngine w' L n H (<[t := P_Return None r true]> T) (R ++ [(t, r)]))
      | _ => None
      end
  | A_Lookup t =>
      match T !! t with
      | Some (P_Lookup p key) =>
          Some match L !! key with
               | Some l => mkEngine w L n H (<[t := P_Wait p key l]> T) R
               | None => mkEngine w (<[key := n]> L) (S n) H (<[t := P_Wait p key n]> T) R
               end
      | _ => None
      end
  | A_Lock t =>
      match T !! t with
      | Some (P_Wait p key l) =>
          match H !! l with None => Some (mkEngine w L n (<[l := t]> H) (<[t := P_Group p key l]> T) R) | Some _ => None end
      | _ => None
      end
  | A_Group t o =>
      match T !! t with
      | Some (P_Group p key l) => let '(r, w') := group_check o p key w in
                                  Some (mkEngine w' L n H (<[t := after_check key l r (P_Gate p key l)]> T) R)
      | _ => None
      end
  | A_Gate t o =>
      match T !! t with
      | Some (P_Gate p key l) => let '(r, w') := concurrency_gate o p key w in
                                 Some (mkEngine w' L n H (<[t := after_check key l r (P_Make p key l)]> T) R)
      | _ => None
      end
  | A_Make t o o' =>
      match T !! t with
      | Some (P_Make p key l) => let '(r, w') := materialize_after_lock o o' p w in
                                 Some (mkEngine w' L n H (<[t := P_Release key l r true]> T) (R ++ [(t, r)]))
      | _ => None
      end
  | A_Release t =>
      match T !! t with
      | Some (P_Release key l r b) => Some (mkEngine w L n (delete l H) (<[t := P_Prune key l r b]> T) R)
      | _ => None
      end
  | A_Prune t =>
      match T !! t with
      | Some (P_Prune key l r b) =>
          Some (mkEngine w (prune_trigger_lock e key l) n H (<[t := P_Return (Some l) r b]> T) R)
      | _ => None
      end
  | A_Return t =>
      match T !! t with
      | Some (P_Return l r b) => Some (mkEngine w L n H (<[t := P_Done r]> T) (if b then R else R ++ [(t, r)]))
      | _ => None
      end
  | A_Abort t =>
      match T !! t with
      | Some (P_Done _) | None => None
      | Some pc => Some (mkEngine w L n (match pc_guard pc with Some l => delete l H | None => H end) (delete t T) R)
      end
  end.
Fixpoint engine_run (xs : list (EngineAction O)) (e : EngineState W) : option (EngineState W) :=
  match xs with [] => Some e | x :: xs => engine_act x e ≫= engine_run xs end.
Definition action_ok (intents : FireIntent → Prop) (x : EngineAction O) : Prop :=
  match x with A_Spawn _ i => intents i | A_Prepare _ s _ _ => snapshot_ok s | _ => True end.

Lemma engine_act_step intents x e e' : action_ok intents x -> engine_act x e = Some e' -> engine_step env intents e e'.
Proof.
  destruct e as [w L n H T R]. destruct x; cbn [engine_act action_ok]; intros Hok Hx.
  1: { case_decide as Hd; [|done]. injection Hx as <-. destruct Hd. by constructor. }
  all: destruct (T !! t) as [[]|] eqn:Ht; try done.
  all: try (match type of Hx with context [let '(_, _) := ?f in _] => destruct f as [? ?] eqn:? end).
  all: try (injection Hx as <-; by econstructor).
  all: try (destruct (H !! l) eqn:Hl; [done|]; injection Hx as <-; by econstructor).
  all: injection Hx as <-; by eapply (S_Abort env intents w L n H T R t _ Ht).
Qed.
Lemma engine_run_reaches intents w xs e : Forall (action_ok intents) xs -> engine_run xs (engine_start w) = Some e ->
  engine_reaches env intents w e.
Proof.
  unfold engine_reaches. generalize (engine_start w). induction xs as [|x xs IH]; intros e0 Hall Hrun; cbn [engine_run] in Hrun.
  - by injection Hrun as ->.
  - apply list.Forall_cons in Hall as [Hx Hxs]. destruct (engine_act x e0) as [e1|] eqn:Ha; [|done]. cbn in Hrun.
    eapply rtc_l; [by eapply engine_act_step|by apply IH].
Qed.
End runs.
