(* ===== verification/TriggerMaterializer.v ===== *)
(** * The production materializer

    [trigger_engine/production_materializer.rs] over the document store: the queries
    behind the concurrency gate, the supersession of live requests, the recovery of a
    goal-backed fire and the creation of a request ([lifecycle/materialize.rs],
    [lifecycle/task_title.rs], and the submission of a goal with its first request of
    [goal.rs]).

    A call meets other writers between its statements, storage faults, commits that
    are refused or reported as failed although they took effect, the clock and fresh
    identifiers: [Call] collects them.  Other writers move requests along their
    lifecycle and create requests of no local trigger ([db_moves]).  The workspace
    runtime, the signature and the documents of a goal are outcomes of the call.

    The instance at the end discharges the interface of the trigger engine, so its
    theorems hold of this materializer. *)

From S2P Require Import Prelude RustStr Messages RequestState Store ExecutionLease Lifecycle TriggerEngine.
Open Scope Z_scope.

(** ** Titles of task conversations *)

Definition TASK_TITLE_LABEL_MAX_LEN : nat := 56.
Definition is_ascii_alphanumeric_char (c : Z) : bool :=
  ((48 <=? c) && (c <=? 57)) || ((65 <=? c) && (c <=? 90)) || ((97 <=? c) && (c <=? 122)).
Fixpoint slug_chars (chars : str) (slug : str) (previous_was_dash : bool) : str :=
  match chars with
  | [] => slug
  | ch :: chars =>
      if is_ascii_alphanumeric_char ch then slug_chars chars (slug ++ [ch]) false
      else if negb (is_nil slug) && negb previous_was_dash then slug_chars chars (slug ++ [45]) true
      else slug_chars chars slug previous_was_dash
  end.
Fixpoint trim_start_dashes (s : str) : str :=
  match s with c :: s' => if c =? 45 then trim_start_dashes s' else s | [] => [] end.
Definition trim_dashes (s : str) : str := rev (trim_start_dashes (rev (trim_start_dashes s))).
Definition slugify_task_label (char_to_lowercase : Z → str) (task_label : str) : str :=
  let slug := trim_dashes (slug_chars (concat (char_to_lowercase <$> task_label)) [] false) in
  let slug := if is_nil slug then lit "task" else slug in
  let slug := if (TASK_TITLE_LABEL_MAX_LEN <? length slug)%nat
              then trim_dashes (take TASK_TITLE_LABEL_MAX_LEN slug) else slug in
  if is_nil slug then lit "task" else slug.

(** ** Workspace and trigger lineage *)

Record TriggerLineage : Type := mkLineage {
  tl_trigger_id : option str; tl_trigger_kind : option str; tl_source_doc_id : option str;
  tl_correlation : option str; tl_trigger_context : option str }.
Record WorkspaceLineage : Type := mkWorkspace {
  wl_workspace_id : option str; wl_authority : option str; wl_owner_deployment_id : option str; wl_seal_hash : option str }.
Definition nonempty_trim (o : option str) : option str := opt_filter (λ v, negb (is_nil v)) (trim <$> o).
Definition workspace_is_bound (l : WorkspaceLineage) : bool :=
  bool_decide (is_Some (nonempty_trim (wl_workspace_id l))) || bool_decide (is_Some (nonempty_trim (wl_owner_deployment_id l))).
Definition owner_deployment_id (l : WorkspaceLineage) : option str := nonempty_trim (wl_owner_deployment_id l).
Definition require_authority_if_workspace_id (l : WorkspaceLineage) : result Error unit :=
  if bool_decide (is_Some (nonempty_trim (wl_workspace_id l))) && negb (bool_decide (is_Some (nonempty_trim (wl_authority l))))
  then Err (Msg (lit "workspace-bound request requires workspace_authority")) else Ok tt.
Definition workspace_bound_request_claimable (local_deployment_id workspace_id workspace_owner : option str) : bool :=
  match nonempty_trim workspace_id, nonempty_trim workspace_owner with
  | None, None => true
  | _, Some owner => match nonempty_trim local_deployment_id with Some l => str_eqb owner l | None => false end
  | _, None => false
  end.
Definition MAX_TRIGGER_CONTEXT_BYTES : Z := 16 * 1024.
(** [serde_json] reads the version and the source fields. *)
Definition parse_trigger_context (from_str : str → result Error (Z * gmap str str)) (value : option str)
    : result Error (gmap str str) :=
  match nonempty_trim value with
  | None => Ok ∅
  | Some value =>
      if MAX_TRIGGER_CONTEXT_BYTES <? str_len value
      then Err (Msg (lit "trigger execution context exceeds " ++ fmt_Z MAX_TRIGGER_CONTEXT_BYTES ++ lit " bytes"))
      else let? (version, fields) := from_str value in
           if version =? 1 then Ok fields
           else Err (Msg (lit "unsupported trigger execution context version " ++ fmt_Z version))
  end.
Definition from_trigger_context (fields : gmap str str) : WorkspaceLineage :=
  let field name := nonempty_trim (fields !! lit name) in
  let or_else (a b : option str) := match a with Some v => Some v | None => b end in
  {| wl_workspace_id := field "workspace_id"%string; wl_authority := field "workspace_authority"%string;
     wl_owner_deployment_id := or_else (field "workspace_owner_deployment_id"%string) (field "owner_deployment_id"%string);
     wl_seal_hash := or_else (field "workspace_seal_hash"%string) (field "seal_hash"%string) |}.
Definition validate_trigger_provenance (l : TriggerLineage) : result Error unit :=
  let is_event := opt_eqb str_eqb (nonempty_trim (tl_trigger_kind l)) (Some (lit "event")) in
  match trim <$> tl_source_doc_id l with
  | Some value =>
      if is_event then if is_nil value then Err (Msg (lit "Event trigger lineage requires source_doc_id")) else Ok tt
      else Err (Msg (lit "Only Event trigger lineage may carry source_doc_id"))
  | None => if is_event then Err (Msg (lit "Event trigger lineage requires source_doc_id")) else Ok tt
  end.
Definition validate_trigger_lineage (l : TriggerLineage) (trigger_doc_id : option str) : result Error unit :=
  let? _ := validate_trigger_provenance l in
  let automated := match nonempty_trim (tl_trigger_kind l) with
                   | Some k => str_eqb k (lit "event") || str_eqb k (lit "schedule")
                   | None => false
                   end in
  match trim <$> trigger_doc_id with
  | Some value =>
      if automated then if is_nil value then Err (Msg (lit "Automated trigger lineage requires trigger_doc_id")) else Ok tt
      else Err (Msg (lit "Only automated trigger lineage may carry trigger_doc_id"))
  | None => if automated then Err (Msg (lit "Automated trigger lineage requires trigger_doc_id")) else Ok tt
  end.

(** ** The rows of a key *)

Definition EXPIRED_CLAIM_GRACE_SECS : Z := 60.
Definition is_running (s : option RequestLifecycleState) : bool :=
  match s with Some Claimed | Some Processing => true | _ => false end.
Definition active_row (r : RequestRow) : bool := is_some_and is_active_runtime (r_state r).
Definition row_gates_serial_fire `{Chrono} (row : RequestRow) (now : Z) : bool :=
  if negb (is_running (r_state row)) then true
  else match nonempty_trim (r_deadline row) with
       | None => true
       | Some deadline => match parse_from_rfc3339 deadline with
                          | Ok deadline => now <=? deadline + RequestState.seconds EXPIRED_CLAIM_GRACE_SECS
                          | Err _ => true
                          end
       end.
(** The filter of the trigger's requests: agent, trigger, kind, the correlation when
    the key has one, and not the excluded request. *)
Definition row_of_key (key : TriggerLockKey) (r : RequestRow) : bool :=
  let '(did, trigger_id, kind, correlation) := key in
  let i := r_ident r in
  opt_eqb str_eqb (ri_agent_did i) (Some did) && opt_eqb str_eqb (ri_trigger_id i) (Some trigger_id)
  && opt_eqb str_eqb (ri_trigger_kind i) (Some (trigger_kind_as_str kind))
  && match correlation with Some _ => opt_eqb str_eqb (ri_correlation i) correlation | None => true end.
Definition not_excluded (excluded : option str) (r : RequestRow) : bool :=
  match excluded with Some id => negb (str_eqb (ri_request_id (r_ident r)) id) | None => true end.

(** ** What other writers do *)

Section other_writers.
Context (local_dids : gset str).

(** A request of no trigger, or of an agent of another runtime. *)
Definition foreign_row (r : RequestRow) : Prop :=
  ri_trigger_id (r_ident r) = None ∨ ∀ did, ri_agent_did (r_ident r) = Some did -> did ∉ local_dids.
(** A request is claimed once with a deadline, runs with it, and ends. *)
Definition executor_move (r r' : RequestRow) : Prop :=
  r_ident r' = r_ident r
  ∧ (active_row r' = true -> r_state r = Some Pending
     ∨ is_running (r_state r) = true ∧ is_running (r_state r') = true ∧ r_deadline r' = r_deadline r).
Definition doc_ids (c : Collections) : list str := (λ r, ri_doc_id (r_ident r)) <$> requests c.
Definition db_moves (c c' : Collections) : Prop :=
  (NoDup (doc_ids c) -> NoDup (doc_ids c'))
  ∧ ∀ r', r' ∈ requests c' -> (∃ r, r ∈ requests c ∧ executor_move r r') ∨ foreign_row r'.
End other_writers.

Record Interference {DB} `{DocStore DB} (local_dids : gset str) : Type := mkInterference {
  itf_run : DB → DB; itf_moves db : db_moves local_dids (view db) (view (itf_run db)) }.
Record SafeEnv {DB} `{DocStore DB} (local_dids : gset str) : Type := mkSafeEnv {
  se_env : nat → AttemptEnv DB;
  se_moves n db : db_moves local_dids (view db) (view (ae_interference (se_env n) db)) }.
Arguments itf_run {DB _ local_dids} _ _.
Arguments itf_moves {DB _ local_dids} _ _.
Arguments se_env {DB _ local_dids} _ _.
Arguments se_moves {DB _ local_dids} _ _ _.

Record GraphRun : Type := mkRun { gr_revision_digest : option str; gr_status : option str; gr_cancel_requested_at : option str }.
Record RevokeRound {DB} `{DocStore DB} (local_dids : gset str) : Type := mkRound {
  rr_before : Interference (DB:=DB) local_dids; rr_fault : option Error; rr_fresh : nat → str; rr_env : nat → SafeEnv (DB:=DB) local_dids }.
Arguments rr_before {DB _ local_dids} _.
Arguments rr_fault {DB _ local_dids} _.
Arguments rr_fresh {DB _ local_dids} _ _.
Arguments rr_env {DB _ local_dids} _ _.

(** What one call of the materializer meets. *)
Record Call {DB} `{DocStore DB} (local_dids : gset str) : Type := mkCall {
  cl_before : Interference (DB:=DB) local_dids; cl_fault : option Error; cl_delay : N;
  cl_pending : SafeEnv (DB:=DB) local_dids; cl_rounds : nat → RevokeRound (DB:=DB) local_dids;
  cl_request_uuid : str; cl_session_uuid : str; cl_now : str; cl_title_time : str;
  cl_runs : result Error (list GraphRun); cl_stamp : WorkspaceLineage → result Error WorkspaceLineage; cl_sign : option Error;
  cl_create : nat → CommitResult; cl_echo : bool; cl_lookup : option Error;
  cl_begin : option Error; cl_goal : result Error bool; cl_goal_query : option Error; cl_goal_create : option Error;
  cl_commit : CommitResult; cl_load : option Error; cl_goal_check : result Error unit;
  cl_mid : Interference (DB:=DB) local_dids; cl_bind : result Error unit; cl_activate : nat → CommitResult; cl_reread : option Error }.
Arguments cl_before {DB _ local_dids} _.
Arguments cl_fault {DB _ local_dids} _.
Arguments cl_delay {DB _ local_dids} _.
Arguments cl_pending {DB _ local_dids} _.
Arguments cl_rounds {DB _ local_dids} _ _.
Arguments cl_request_uuid {DB _ local_dids} _.
Arguments cl_session_uuid {DB _ local_dids} _.
Arguments cl_now {DB _ local_dids} _.
Arguments cl_title_time {DB _ local_dids} _.
Arguments cl_runs {DB _ local_dids} _.
Arguments cl_stamp {DB _ local_dids} _ _.
Arguments cl_sign {DB _ local_dids} _.
Arguments cl_create {DB _ local_dids} _ _.
Arguments cl_echo {DB _ local_dids} _.
Arguments cl_lookup {DB _ local_dids} _.
Arguments cl_begin {DB _ local_dids} _.
Arguments cl_goal {DB _ local_dids} _.
Arguments cl_goal_query {DB _ local_dids} _.
Arguments cl_goal_create {DB _ local_dids} _.
Arguments cl_commit {DB _ local_dids} _.
Arguments cl_load {DB _ local_dids} _.
Arguments cl_goal_check {DB _ local_dids} _.
Arguments cl_mid {DB _ local_dids} _.
Arguments cl_bind {DB _ local_dids} _.
Arguments cl_activate {DB _ local_dids} _ _.
Arguments cl_reread {DB _ local_dids} _.

Record TriggerWorld (DB : Type) : Type := mkWorld { tw_db : DB; tw_clock : Z }.
Arguments mkWorld {DB} _ _.
Arguments tw_db {DB} _.
Arguments tw_clock {DB} _.

(** What the process is configured with: the behaviors of the snapshot with their
    agents and backends, the deployment, and the libraries the code calls. *)
Record ResolvedBehavior : Type := mkBehavior { rb_behavior_id : str; rb_agent_did : str; rb_backend_id : option str }.
Record MaterializerEnv : Type := mkMatEnv {
  me_behaviors : gmap str ResolvedBehavior; me_unavailable : gmap str str; me_local_deployment_id : option str;
  me_context_from_str : str → result Error (Z * gmap str str);
  me_graph_artifact_revision_digest : str → option str;
  me_prompt_slash_skill_selection : str → str * list str;
  me_to_string : Json → str; me_char_to_lowercase : Z → str; me_sha256_hex : str → str }.

(** ** Operations *)

Section production.
Context {DB : Type} `{DocStore DB} `{Chrono} (local_dids : gset str) (me : MaterializerEnv).
Implicit Types (c : Call (DB:=DB) local_dids) (w : TriggerWorld DB).

Definition resolve_behavior (task : ResolvedTask) : result Error ResolvedBehavior :=
  match me_behaviors me !! rt_behavior_id task with
  | None =>
      let reason := match me_unavailable me !! rt_behavior_id task with
                    | Some message => message
                    | None => lit "behavior " ++ rt_behavior_id task ++ lit " is not loaded"
                    end in
      Err (Msg (lit "resolving behavior for task " ++ rt_task_id task ++ lit ": " ++ reason))
  | Some behavior =>
      match rb_backend_id behavior with
      | None => Err (Msg (lit "behavior " ++ rb_behavior_id behavior
                          ++ lit " has no backend binding; scheduled fires require a backend"))
      | Some _ => Ok behavior
      end
  end.

Definition has_active c (key : TriggerLockKey) (excluded : option str) w : result Error bool * TriggerWorld DB :=
  let db := itf_run (cl_before c) (tw_db w) in
  match cl_fault c with
  | Some e => (Err e, mkWorld db (tw_clock w))
  | None =>
      let rows := List.filter (λ r, row_of_key key r && not_excluded excluded r && active_row r) (requests (view db)) in
      let now := tw_clock w + Z.of_N (cl_delay c) in
      (Ok (existsb (λ r, row_gates_serial_fire r now) rows), mkWorld db now)
  end.

(** The rows the loop revokes, one after the other; the first error ends it. *)
Fixpoint revoke_rows (rd : RevokeRound (DB:=DB) local_dids) (rows : list RequestRow) (n : nat) (count : Z) (db : DB)
    : result Error Z * DB :=
  match rows with
  | [] => (Ok count, db)
  | row :: rows =>
      match revoke_execution_generation row O_Superseded (lit "superseded by a newer trigger fire")
              (rr_fresh rd n) (se_env (rr_env rd n)) db with
      | (Err e, db') => (Err e, db')
      | (Ok r, db') => revoke_rows rd rows (S n) (if is_won r then count + 1 else count) db'
      end
  end.
Fixpoint revoke_rounds (rounds : nat → RevokeRound (DB:=DB) local_dids) (key : TriggerLockKey) (excluded : option str)
    (fuel n : nat) (count : Z) (db : DB) : result Error Z * DB :=
  match fuel with
  | O => (Err (Msg (lit "execution progress raced LatestOnly revocation; retry trigger dispatch")), db)
  | S fuel =>
      let rd := rounds n in
      let db := itf_run (rr_before rd) db in
      match rr_fault rd with
      | Some e => (Err e, db)
      | None =>
          match List.filter (λ r, row_of_key key r && not_excluded excluded r && is_running (r_state r)) (requests (view db)) with
          | [] => (Ok count, db)
          | rows => match revoke_rows rd rows 0 count db with
                    | (Ok count, db') => revoke_rounds rounds key excluded fuel (S n) count db'
                    | (Err e, db') => (Err e, db')
                    end
          end
      end
  end.
Definition supersede_input (terminalized_at : str) (r : RequestRow) : RequestRow :=
  set_r_redrive (Some 0) (set_r_terminalized_at (Some terminalized_at) (set_r_state (Some Superseded) r)).
Definition pending_of_key (key : TriggerLockKey) (excluded : option str) (r : RequestRow) : bool :=
  row_of_key key r && not_excluded excluded r && is_pending r.
Definition supersede_active c (key : TriggerLockKey) (excluded : option str) w : result Error Z * TriggerWorld DB :=
  let db := itf_run (cl_before c) (tw_db w) in
  match persist (λ _, true) (λ now, mutate_request (pending_of_key key excluded) (supersede_input (to_rfc3339 now)))
          (se_env (cl_pending c)) db with
  | (Err e, db) => (Err e, mkWorld db (tw_clock w))
  | (Ok rows, db) =>
      let '(r, db) := revoke_rounds (cl_rounds c) key excluded (S DEFRA_DB_CONFLICT_MAX_RETRIES) 0 (Z.of_nat (length rows)) db in
      (r, mkWorld db (tw_clock w))
  end.

Record TaskGoalRequestBinding : Type := mkBinding {
  tb_agent_did : str; tb_behavior_id : str; tb_session_id : str; tb_request_id : str; tb_retry_key : str }.
#[global] Instance TaskGoalRequestBinding_eq_dec : EqDecision TaskGoalRequestBinding.
Proof. solve_decision. Defined.
Inductive TaskGoalFireRecoveryDisposition : Type := RD_Absent | RD_Recovered | RD_Conflict.
Record TaskGoalFireRecoveryDecision : Type := mkDecision {
  rd_disposition : TaskGoalFireRecoveryDisposition; rd_recovered_request_id : option str; rd_checkpointable : bool }.
Definition decide_task_goal_fire_recovery (expected : TaskGoalRequestBinding) (observed : option TaskGoalRequestBinding)
    : TaskGoalFireRecoveryDecision :=
  match observed with
  | None => mkDecision RD_Absent None false
  | Some observed => if bool_decide (observed = expected) then mkDecision RD_Recovered (Some (tb_request_id observed)) true
                     else mkDecision RD_Conflict None false
  end.
Definition binding_of_row (r : RequestRow) : TaskGoalRequestBinding :=
  let text (o : option str) := match o with Some v => v | None => [] end in
  {| tb_agent_did := text (ri_agent_did (r_ident r)); tb_behavior_id := text (ri_behavior_id (r_ident r));
     tb_session_id := text (ri_session_id (r_ident r)); tb_request_id := ri_request_id (r_ident r);
     tb_retry_key := text (ri_retry_key (r_ident r)) |}.
Definition recover_fire c (task : ResolvedTask) (durable_fire_key : str) w : result Error (option str) * TriggerWorld DB :=
  let db := itf_run (cl_before c) (tw_db w) in
  let w := mkWorld db (tw_clock w) in
  match resolve_behavior task with
  | Err e => (Err e, w)
  | Ok behavior =>
      let identity := task_goal_fire_identity (rb_agent_did behavior) (rt_task_id task) durable_fire_key in
      let expected := {| tb_agent_did := rb_agent_did behavior; tb_behavior_id := rb_behavior_id behavior;
                         tb_session_id := tg_session_id identity; tb_request_id := tg_request_id identity;
                         tb_retry_key := tg_retry_key identity |} in
      match cl_fault c with
      | Some e => (Err e, w)
      | None =>
          match take 2 (List.filter (λ r, str_eqb (ri_request_id (r_ident r)) (tb_request_id expected)) (requests (view db))) with
          | _ :: _ :: _ => (Err (Msg (lit "deterministic goal Task request id is not unique")), w)
          | rows =>
              let decision := decide_task_goal_fire_recovery expected (binding_of_row <$> head rows) in
              match rd_disposition decision with
              | RD_Absent => (Ok None, w)
              | RD_Recovered => (Ok (rd_recovered_request_id decision), w)
              | RD_Conflict => (Err (Msg (lit "deterministic goal Task request identity conflicts with another binding")), w)
              end
          end
      end
  end.

Definition has_group c (did trigger_id : str) (kind : TriggerKind) (correlation : str) w : result Error bool * TriggerWorld DB :=
  let db := itf_run (cl_before c) (tw_db w) in
  let w := mkWorld db (tw_clock w) in
  match cl_fault c with
  | Some e => (Err e, w)
  | None => (Ok (negb (is_nil (take 1 (List.filter (row_of_key (did, trigger_id, kind, Some correlation)) (requests (view db)))))), w)
  end.

(** *** Creating a request *)

Definition graph_materialization_denial (trigger_id : str) (correlation : option str)
    (runs : result Error (list GraphRun)) : result Error (option str) :=
  match me_graph_artifact_revision_digest me trigger_id with
  | None => Ok None
  | Some trigger_digest =>
      match nonempty_trim correlation with
      | None => Ok (Some (lit "graph trigger materialization is missing controller-authored correlation"))
      | Some _ =>
          let? runs := runs in
          match runs with
          | [run] =>
              if negb (opt_eqb str_eqb (gr_revision_digest run) (Some trigger_digest))
              then Ok (Some (lit "graph trigger revision does not match the pinned run revision"))
              else if negb (opt_eqb str_eqb (gr_status run) (Some (lit "running"))) then Ok (Some (lit "graph run is terminal"))
              else if bool_decide (is_Some (gr_cancel_requested_at run)) then Ok (Some (lit "graph run cancellation is requested"))
              else Ok None
          | _ => Ok (Some (lit "graph trigger correlation does not resolve to exactly one durable run"))
          end
      end
  end.
Definition task_run_conversation_title c (task_label : str) : str :=
  slugify_task_label (me_char_to_lowercase me) task_label ++ [45] ++ cl_title_time c.
Definition task_goal_conversation_title (task_label retry_key : str) : str :=
  slugify_task_label (me_char_to_lowercase me) task_label ++ lit "-goal-" ++ take 16 (me_sha256_hex me retry_key).

(** The pending request, as the columns of the model hold it. *)
Definition build_pending_request c (agent_did behavior_id content : str) (lineage : TriggerLineage) (title : str)
    (workspace : option WorkspaceLineage) (request_id session_id : str) (retry_key trigger_doc_id : option str)
    : result Error RequestRow :=
  let? _ := validate_trigger_lineage lineage trigger_doc_id in
  if opt_eqb str_eqb (tl_trigger_kind lineage) (Some (lit "manual")) && bool_decide (is_Some (tl_trigger_id lineage))
  then Err (Msg (lit "Manual trigger enqueue must not carry trigger_id"))
  else
  let? _ := match workspace with Some l => require_authority_if_workspace_id l | None => Ok tt end in
  let request_id := trim request_id in
  let session_id := trim session_id in
  if is_nil request_id then Err (Msg (lit "request_id must be non-empty"))
  else if is_nil session_id then Err (Msg (lit "session_id must be non-empty"))
  else if is_some_and is_nil (trim <$> retry_key) then Err (Msg (lit "retry_key must be non-empty when supplied"))
  else
  let '(content, skills) := me_prompt_slash_skill_selection me content in
  let title := trim title in
  let metadata := (if is_nil title then [] else [(lit "conversation_title", JString title)])
                  ++ (if is_nil skills then [] else [(lit "selected_skill_ids", JArray (JString <$> skills))]) in
  let? _ := match tl_trigger_kind lineage with
            | None => Ok tt
            | Some kind =>
                if str_eqb kind (lit "manual") then Ok tt
                else if str_eqb kind (lit "event") || str_eqb kind (lit "schedule") then
                  if bool_decide (is_Some (tl_trigger_id lineage)) then Ok tt
                  else Err (Msg (lit "runtime trigger request requires a durable trigger id"))
                else Err (Msg (lit "unsupported runtime request trigger kind " ++ kind))
            end in
  match cl_sign c with
  | Some e => Err e
  | None =>
      Ok {| r_ident := {| ri_doc_id := []; ri_request_id := request_id; ri_agent_did := Some agent_did;
                          ri_requester_did := Some agent_did; ri_behavior_id := Some behavior_id;
                          ri_session_id := Some session_id; ri_created_at := Some (cl_now c);
                          ri_metadata := if is_nil metadata then None else Some (me_to_string me (JObject metadata));
                          ri_content := content; ri_trigger_id := tl_trigger_id lineage;
                          ri_trigger_kind := tl_trigger_kind lineage; ri_correlation := tl_correlation lineage;
                          ri_retry_key := trim <$> retry_key; ri_workspace_id := workspace ≫= wl_workspace_id;
                          ri_parent_request_id := None; ri_trigger_context := tl_trigger_context lineage |};
            r_state := Some (if is_some_and workspace_is_bound workspace then WorkspaceBindingPending else Pending);
            r_generation := None; r_expiry := None; r_progress := None; r_interrupt := None; r_valid_until := None;
            r_deadline := None; r_backend := None; r_claimed_at := None; r_failure := None; r_terminalized_at := None;
            r_redrive := None; r_bg_seq := None; r_bg_keys := None |}
  end.

(** A mutation repeated while the store reports a transaction conflict. *)
Fixpoint mutate_with_retry {A} (step : DB → A * DB) (outcome : nat → CommitResult) (budget n : nat) (db : DB)
    : result Error A * DB :=
  let again e db' :=
    match budget with
    | O => (Err e, db')
    | S budget => if is_defradb_transaction_conflict_text (error_to_string e)
                  then mutate_with_retry step outcome budget (S n) db' else (Err e, db')
    end in
  match outcome n with
  | Committed => let '(a, db') := step db in (Ok a, db')
  | Refused e => again e db
  | Ambiguous e => again e (snd (step db))
  end.
Definition write_pending_request c (row : RequestRow) (db : DB) : result Error str * DB :=
  match mutate_with_retry (λ db, let '(db', id) := create_request row db in (id, db'))
          (cl_create c) DEFRA_DB_CONFLICT_MAX_RETRIES 0 db with
  | (Err e, db) => (Err e, db)
  | (Ok id, db) =>
      if cl_echo c then (Ok id, db)
      else match cl_lookup c with
           | Some e => (Err e, db)
           | None =>
               match take 2 (List.filter (λ r, str_eqb (ri_request_id (r_ident r)) (ri_request_id (r_ident row))) (requests (view db))) with
               | [r] => (Ok (ri_doc_id (r_ident r)), db)
               | _ => (Err (Msg (lit "pending AgentRequest create returned no _docID")), db)
               end
           end
  end.

(** *** A goal with its first request *)

Record GoalSubmissionState : Type := mkSubmission {
  gs_durable_goal : bool; gs_runnable_request : bool; gs_staged_goal : bool; gs_staged_request : bool }.
Inductive GoalSubmissionAction : Type := GA_StageGoal | GA_StageRequest | GA_Commit | GA_Abort | GA_Crash.
Definition goal_submission_step (s : GoalSubmissionState) (a : GoalSubmissionAction) : GoalSubmissionState :=
  match a with
  | GA_StageGoal => mkSubmission (gs_durable_goal s) (gs_runnable_request s) true (gs_staged_request s)
  | GA_StageRequest => if gs_staged_goal s || gs_durable_goal s
                       then mkSubmission (gs_durable_goal s) (gs_runnable_request s) (gs_staged_goal s) true else s
  | GA_Commit => if gs_staged_goal s && gs_staged_request s then mkSubmission true true false false else s
  | GA_Abort | GA_Crash => mkSubmission (gs_durable_goal s) (gs_runnable_request s) false false
  end.
Definition authorize_goal_submission_commit (s : GoalSubmissionState) : result Error unit :=
  let committed := goal_submission_step s GA_Commit in
  if gs_durable_goal committed && gs_runnable_request committed && negb (gs_staged_goal committed) && negb (gs_staged_request committed)
  then Ok tt else Err (Msg (lit "goal-backed request transaction is not ready to commit")).
(** The immutable columns of a request that the model holds. *)
Definition same_fingerprint (r r' : RequestRow) : bool :=
  let i := r_ident r in let j := r_ident r' in
  let eq := opt_eqb str_eqb in
  str_eqb (ri_request_id i) (ri_request_id j) && eq (ri_agent_did i) (ri_agent_did j) && eq (ri_requester_did i) (ri_requester_did j)
  && eq (ri_behavior_id i) (ri_behavior_id j) && eq (ri_session_id i) (ri_session_id j) && eq (ri_retry_key i) (ri_retry_key j)
  && str_eqb (ri_content i) (ri_content j) && eq (ri_metadata i) (ri_metadata j) && eq (ri_trigger_id i) (ri_trigger_id j)
  && eq (ri_trigger_kind i) (ri_trigger_kind j) && eq (ri_correlation i) (ri_correlation j) && eq (ri_workspace_id i) (ri_workspace_id j)
  && eq (ri_parent_request_id i) (ri_parent_request_id j) && eq (ri_trigger_context i) (ri_trigger_context j).
Definition decode_agent_request_by_retry_key (rows : list RequestRow) (expected : RequestRow) : result Error (option str) :=
  match rows with
  | [] => Ok None
  | [row] => if same_fingerprint row expected then Ok (Some (ri_doc_id (r_ident row)))
             else Err (Msg (lit "AgentRequest retry key conflicts with a different immutable request"))
  | _ => Err (Msg (lit "AgentRequest retry key is not unique"))
  end.
Definition retry_key_rows (row : RequestRow) (db : DB) : list RequestRow :=
  List.filter (λ r, opt_eqb str_eqb (ri_retry_key (r_ident r)) (ri_retry_key (r_ident row))) (requests (view db)).
Definition load_goal_backed_request c (row : RequestRow) (db : DB) : result Error (option str) :=
  match cl_load c with
  | Some e => Err e
  | None =>
      let? doc_id := decode_agent_request_by_retry_key (take 2 (retry_key_rows row db)) row in
      match doc_id with
      | None => Ok None
      | Some doc_id => let? _ := cl_goal_check c in Ok (Some doc_id)
      end
  end.
(** The body of the transaction; [cl_goal] is the goal staged with its claim, and
    whether it is active. *)
Definition stage_goal_backed_request c (agent_did session_id objective : str) (token_budget : option Z) (row : RequestRow) (db : DB)
    : result Error (GoalSubmissionState * DB) :=
  if is_nil (trim objective) then Err (Msg (lit "goal objective must be non-empty"))
  else if is_some_and (λ b, b <=? 0) token_budget then Err (Msg (lit "goal token budget must be positive"))
  else if negb (opt_eqb str_eqb (ri_agent_did (r_ident row)) (Some agent_did)) then Err (Msg (lit "goal/request DID mismatch"))
  else if negb (opt_eqb str_eqb (ri_session_id (r_ident row)) (Some session_id)) then Err (Msg (lit "goal/request session mismatch"))
  else match ri_retry_key (r_ident row) with
  | None => Err (Msg (lit "goal-backed request requires a stable retry_key"))
  | Some _ =>
      let? active := cl_goal c in
      let s := goal_submission_step (mkSubmission false false false false) GA_StageGoal in
      match cl_goal_query c with
      | Some e => Err e
      | None =>
          let staged := goal_submission_step s GA_StageRequest in
          match retry_key_rows row db with
          | [] =>
              if negb active then Err (Msg (lit "the session already has a non-active goal"))
              else match cl_goal_create c with
                   | Some e => Err e
                   | None => Ok (staged, fst (create_request row db))
                   end
          | [existing] =>
              if same_fingerprint existing row then Ok (staged, db)
              else Err (Msg (lit "goal request retry key conflicts with different immutable request fields"))
          | _ => Err (Msg (lit "goal request retry key is not unique"))
          end
      end
  end.
Definition submit_goal_backed_request c (agent_did session_id objective : str) (token_budget : option Z) (row : RequestRow) (db : DB)
    : result Error str * DB :=
  let recovered db error := match load_goal_backed_request c row db with
                            | Ok (Some doc_id) => Ok doc_id
                            | Ok None => Err error
                            | Err e => Err e
                            end in
  match cl_begin c with
  | Some e => (Err e, db)
  | None =>
      match (let? (s, db') := stage_goal_backed_request c agent_did session_id objective token_budget row db in
             let? _ := authorize_goal_submission_commit s in Ok db') with
      | Err e => (recovered db e, db)
      | Ok db' =>
          match cl_commit c with
          | Committed => (recovered db' (Msg (lit "committed goal-backed request was not found by retry key")), db')
          | Refused e => (recovered db e, db)
          | Ambiguous e => (recovered db' e, db')
          end
      end
  end.

(** *** The activation of a workspace-bound request *)

Definition staged_doc (doc_id : str) (r : RequestRow) : bool :=
  str_eqb (ri_doc_id (r_ident r)) doc_id && opt_eqb state_eqb (r_state r) (Some WorkspaceBindingPending).
Definition activate_workspace_bound_request c (doc_id : str) (db : DB) : result Error unit * DB :=
  let step db := (List.filter (staged_doc doc_id) (requests (view db)),
                  update_request (staged_doc doc_id) (set_r_state (Some Pending)) db) in
  match mutate_with_retry step (cl_activate c) DEFRA_DB_CONFLICT_MAX_RETRIES 0 db with
  | (Err e, db) => (Err e, db)
  | (Ok rows, db) =>
      match single_mutation_document rows with
      | Err e => (Err e, db)
      | Ok (Some _) => (Ok tt, db)
      | Ok None =>
          match cl_reread c with
          | Some e => (Err e, db)
          | None =>
              let visible := match List.find (λ r, str_eqb (ri_doc_id (r_ident r)) doc_id) (requests (view db)) with
                             | Some r => bool_decide (is_Some (nonempty_trim (ri_workspace_id (r_ident r))))
                                         && negb (opt_eqb state_eqb (r_state r) (Some WorkspaceBindingPending))
                             | None => false
                             end in
              if visible then (Ok tt, db)
              else (Err (Msg (lit "workspace-bound AgentRequest " ++ doc_id ++ lit " was not staged for activation")), db)
          end
      end
  end.

(** *** Materialization *)

Definition NOT_CLAIMABLE : str := lit "workspace-bound request is owned by another deployment; not claimable here".
Definition failure {A} (e : Error) : result MaterializeError A := Err (MaterializeFailure (error_to_string e)).
Definition lift_error {A} (r : result Error A) : result MaterializeError A :=
  match r with Ok a => Ok a | Err e => failure e end.
(** Everything before the request is written. *)
Definition materialize_checks c (a : MaterializeArgs) : result MaterializeError (ResolvedBehavior * WorkspaceLineage) :=
  if bool_decide (ma_trigger_kind a = TK_Manual)
     && (bool_decide (is_Some (ma_trigger_id a)) || bool_decide (is_Some (ma_trigger_doc_id a)))
  then Err (MaterializeFailure (lit "Manual trigger materialization must not carry trigger_id"))
  else
  let? behavior := lift_error (resolve_behavior (ma_task a)) in
  let? fields := lift_error (parse_trigger_context (me_context_from_str me) (ma_trigger_context a)) in
  let? denial := match ma_trigger_id a with
                 | None => Ok None
                 | Some trigger_id => lift_error (graph_materialization_denial trigger_id (ma_correlation a) (cl_runs c))
                 end in
  match denial with
  | Some reason => Err (MaterializeSkip reason)
  | None =>
      let workspace := from_trigger_context fields in
      let? _ := lift_error (require_authority_if_workspace_id workspace) in
      let claimable l := workspace_bound_request_claimable (me_local_deployment_id me) (wl_workspace_id l) (wl_owner_deployment_id l) in
      if bool_decide (is_Some (owner_deployment_id workspace)) && negb (claimable workspace)
      then Err (MaterializeSkip NOT_CLAIMABLE)
      else
      let? workspace := lift_error (cl_stamp c workspace) in
      if workspace_is_bound workspace && negb (claimable workspace) then Err (MaterializeSkip NOT_CLAIMABLE)
      else Ok (behavior, workspace)
  end.
Definition enqueue_request c (a : MaterializeArgs) (behavior : ResolvedBehavior) (workspace : option WorkspaceLineage) (db : DB)
    : result Error (str * str) * DB :=
  let task := ma_task a in
  let lineage := {| tl_trigger_id := ma_trigger_id a; tl_trigger_kind := Some (trigger_kind_as_str (ma_trigger_kind a));
                    tl_source_doc_id := ma_source_doc_id a; tl_correlation := ma_correlation a;
                    tl_trigger_context := ma_trigger_context a |} in
  match ma_rendered_goal_objective a with
  | Some objective =>
      let identity := task_goal_fire_identity (rb_agent_did behavior) (rt_task_id task) (ma_durable_fire_key a) in
      match build_pending_request c (rb_agent_did behavior) (rb_behavior_id behavior) (ma_rendered_prompt a) lineage
              (task_goal_conversation_title (display_label task) (tg_retry_key identity)) workspace
              (tg_request_id identity) (tg_session_id identity) (Some (tg_retry_key identity)) (ma_trigger_doc_id a) with
      | Err e => (Err e, db)
      | Ok row => match submit_goal_backed_request c (rb_agent_did behavior) (tg_session_id identity) objective (rt_goal_token_budget task) row db with
                  | (Ok doc_id, db) => (Ok (doc_id, ri_request_id (r_ident row)), db)
                  | (Err e, db) => (Err e, db)
                  end
      end
  | None =>
      if bool_decide (is_Some (rt_goal_token_budget task))
      then (Err (Msg (lit "goal token budget requires a goal objective template")), db)
      else match build_pending_request c (rb_agent_did behavior) (rb_behavior_id behavior) (ma_rendered_prompt a) lineage
                   (task_run_conversation_title c (display_label task)) workspace
                   (cl_request_uuid c) (cl_session_uuid c) None (ma_trigger_doc_id a) with
           | Err e => (Err e, db)
           | Ok row => match write_pending_request c row db with
                       | (Ok doc_id, db) => (Ok (doc_id, ri_request_id (r_ident row)), db)
                       | (Err e, db) => (Err e, db)
                       end
           end
  end.
Definition materialize_production c (a : MaterializeArgs) w : result MaterializeError str * TriggerWorld DB :=
  let db := itf_run (cl_before c) (tw_db w) in
  let back db := mkWorld db (tw_clock w) in
  match materialize_checks c a with
  | Err e => (Err e, back db)
  | Ok (behavior, workspace) =>
      let bound := if workspace_is_bound workspace then Some workspace else None in
      match enqueue_request c a behavior bound db with
      | (Err e, db) => (failure e, back db)
      | (Ok (doc_id, request_id), db) =>
          match bound with
          | None => (Ok request_id, back db)
          | Some _ =>
              let db := itf_run (cl_mid c) db in
              match cl_bind c with
              | Err e => (failure e, back db)
              | Ok _ => match activate_workspace_bound_request c doc_id db with
                        | (Ok _, db) => (Ok request_id, back db)
                        | (Err e, db) => (failure e, back db)
                        end
              end
          end
      end
  end.

Definition text_error {A} (r : result Error A * TriggerWorld DB) : result str A * TriggerWorld DB :=
  (match r.1 with Ok x => Ok x | Err e => Err (error_to_string e) end, r.2).
#[local] Instance production_handle : MaterializerHandle (TriggerWorld DB) (Call (DB:=DB) local_dids) := {
  materialize := materialize_production;
  has_active_runtime_request_for_trigger c key ex w := text_error (has_active c key ex w);
  supersede_active_runtime_requests_for_trigger c key ex w := text_error (supersede_active c key ex w);
  recover_goal_task_fire c task fire_key w := text_error (recover_fire c task fire_key w);
  has_materialized_group_request c did trigger_id kind correlation w := text_error (has_group c did trigger_id kind correlation w) }.
End production.

(** ** The view of the store *)

Lemma opt_eqb_str (a b : option str) : opt_eqb str_eqb a b = true <-> a = b.
Proof. destruct a, b; cbn; rewrite ?str_eqb_true; naive_solver. Qed.
Lemma kind_str_inj k k' : trigger_kind_as_str k = trigger_kind_as_str k' -> k = k'.
Proof. by destruct k, k'. Qed.
Lemma row_of_key_true did tid kind corr r : row_of_key (did, tid, kind, corr) r = true <->
  ri_agent_did (r_ident r) = Some did ∧ ri_trigger_id (r_ident r) = Some tid
  ∧ ri_trigger_kind (r_ident r) = Some (trigger_kind_as_str kind) ∧ (corr = None ∨ ri_correlation (r_ident r) = corr).
Proof. cbn. rewrite !andb_true_iff, !opt_eqb_str. destruct corr; rewrite ?opt_eqb_str; naive_solver. Qed.
Lemma row_of_key_ident key r r' : r_ident r' = r_ident r -> row_of_key key r' = row_of_key key r.
Proof. destruct key as [[[did tid] kind] corr]. cbn. by intros ->. Qed.
Lemma gates_later `{Chrono} r now now' : now <= now' -> row_gates_serial_fire r now' = true -> row_gates_serial_fire r now = true.
Proof.
  unfold row_gates_serial_fire. intros Hle. case_match; [done|]. destruct (nonempty_trim _); [|done].
  destruct (parse_from_rfc3339 _); [|done]. rewrite !Z.leb_le. lia.
Qed.
Lemma gates_move `{Chrono} r r' now : executor_move r r' -> active_row r' = true -> row_gates_serial_fire r' now = true ->
  active_row r = true ∧ row_gates_serial_fire r now = true.
Proof.
  intros [_ Hm] Ha Hg. destruct (Hm Ha) as [Hp|(H1 & H2 & Hd)]; unfold row_gates_serial_fire, active_row in *.
  - by rewrite Hp.
  - rewrite H1. rewrite H2, Hd in Hg. split; [|done]. by destruct (r_state r) as [[]|].
Qed.

Section view.
Context {DB : Type} `{DocStore DB} `{Chrono} (local_dids : gset str) (me : MaterializerEnv).

Definition key_is_local (key : TriggerLockKey) : bool := let '(did, _, _, _) := key in bool_decide (did ∈ local_dids).
Definition ids_of (p : RequestRow → bool) (db : DB) : gset str :=
  list_to_set ((λ r, ri_request_id (r_ident r)) <$> List.filter p (requests (view db))).
Lemma elem_of_ids_of p db id : id ∈ ids_of p db <-> ∃ r, r ∈ requests (view db) ∧ p r = true ∧ ri_request_id (r_ident r) = id.
Proof.
  unfold ids_of. rewrite elem_of_list_to_set, list_elem_of_fmap. split.
  - intros (r & -> & Hr). apply list_elem_of_In, List.filter_In in Hr as [Hin Hp]. exists r. by rewrite list_elem_of_In.
  - intros (r & Hin & Hp & <-). exists r. split; [done|]. apply list_elem_of_In, List.filter_In. by rewrite <-list_elem_of_In.
Qed.
Definition live_ids (w : TriggerWorld DB) (key : TriggerLockKey) : gset str :=
  if key_is_local key then ids_of (λ r, row_of_key key r && active_row r && row_gates_serial_fire r (tw_clock w)) (tw_db w) else ∅.
Definition bound_ids (w : TriggerWorld DB) (key : TriggerLockKey) : gset str :=
  if key_is_local key then ids_of (row_of_key key) (tw_db w) else ∅.
Definition production_agent (task : ResolvedTask) : option str := rb_agent_did <$> me_behaviors me !! rt_behavior_id task.
Definition world_moves (w w' : TriggerWorld DB) : Prop :=
  tw_clock w <= tw_clock w' ∧ db_moves local_dids (view (tw_db w)) (view (tw_db w')).
#[local] Instance production_view : MaterializerView (TriggerWorld DB) := {
  live := live_ids; bound := bound_ids; agent_of := production_agent; moves := world_moves;
  world_ok w := NoDup (doc_ids (view (tw_db w))) }.

(** ** Moves *)

Lemma executor_move_refl r : executor_move r r.
Proof.
  split; [done|]. unfold active_row. destruct (r_state r) as [[]|] eqn:E; try done; auto; intros _; right; by rewrite ?E.
Qed.
Lemma executor_move_trans r1 r2 r3 : executor_move r1 r2 -> executor_move r2 r3 -> executor_move r1 r3.
Proof.
  intros [I1 M1] [I2 M2]. split; [congruence|]. intros Ha.
  assert (Hrun : ∀ r, is_running (r_state r) = true -> active_row r = true)
    by (intros r; unfold active_row; by destruct (r_state r) as [[]|]).
  destruct (M2 Ha) as [Hp|(R2 & R3 & Hd)].
  - left. destruct (M1 ltac:(unfold active_row; by rewrite Hp)) as [?|(_ & R2 & _)]; [done|]. by rewrite Hp in R2.
  - destruct (M1 (Hrun _ R2)) as [?|(R1 & _ & Hd1)]; [by left|]. right. split_and!; [done|done|congruence].
Qed.
Lemma foreign_ident r r' : r_ident r' = r_ident r -> foreign_row local_dids r -> foreign_row local_dids r'.
Proof. unfold foreign_row. by intros ->. Qed.
Lemma db_moves_refl (c : Collections) : db_moves local_dids c c.
Proof. split; [done|]. intros r Hr. left. exists r. split; [done|apply executor_move_refl]. Qed.
Lemma db_moves_trans (c1 c2 c3 : Collections) : db_moves local_dids c1 c2 -> db_moves local_dids c2 c3 -> db_moves local_dids c1 c3.
Proof.
  intros [N1 M1] [N2 M2]. split; [auto|]. intros r3 H3. destruct (M2 _ H3) as [(r2 & H2 & M)|]; [|by right].
  destruct (M1 _ H2) as [(r1 & H1 & M')|Hf].
  - left. exists r1. split; [done|by eapply executor_move_trans].
  - right. destruct M. by eapply foreign_ident.
Qed.
(** An update that ends the requests it touches. *)
Lemma update_ends_moves p f (c c' : Collections) : requests c' = update_where p f (requests c) ->
  (∀ r, r_ident (f r) = r_ident r) -> (∀ r, p r = true -> active_row (f r) = false) -> db_moves local_dids c c'.
Proof.
  intros Hc Hid Hact. split.
  - unfold doc_ids. rewrite Hc. unfold update_where. rewrite <-list_fmap_compose.
    erewrite (list_fmap_ext (_ ∘ _)); [done|]. intros i r _. cbn. case_match; by rewrite ?Hid.
  - intros r'. rewrite Hc. unfold update_where. intros (r & -> & Hr)%list_elem_of_fmap. left. exists r. split; [done|].
    case_match eqn:Hp; [|apply executor_move_refl]. split; [apply Hid|]. by rewrite Hact.
Qed.

Lemma not_foreign_of_key key r : key_is_local key = true -> row_of_key key r = true -> ~ foreign_row local_dids r.
Proof.
  destruct key as [[[did tid] kind] corr]. cbn [key_is_local]. intros Hl%bool_decide_eq_true (Ha & Ht & _)%row_of_key_true [Hf|Hf];
    [congruence|by apply (Hf did)].
Qed.
Lemma moves_view (w w' : TriggerWorld DB) key : world_moves w w' ->
  live_ids w' key ⊆ live_ids w key ∧ bound_ids w' key ⊆ bound_ids w key.
Proof.
  intros [Hclock [_ Hm]]. unfold live_ids, bound_ids. destruct (key_is_local key) eqn:Hl; [|done].
  split; intros id (r' & Hr & Hp & Hid)%elem_of_ids_of; apply elem_of_ids_of.
  - apply andb_true_iff in Hp as [[Hk Ha]%andb_true_iff Hg].
    destruct (Hm _ Hr) as [(r & Hin & Hmove)|Hf]; [|by destruct (not_foreign_of_key _ _ Hl Hk)].
    destruct (gates_move _ _ _ Hmove Ha Hg) as [Ha' Hg']. destruct Hmove as [Hident _].
    exists r. split_and!; [done| |congruence]. rewrite Ha', (gates_later _ _ _ Hclock Hg').
    by rewrite <-(row_of_key_ident key r r' Hident), Hk.
  - destruct (Hm _ Hr) as [(r & Hin & Hident & _)|Hf]; [|by destruct (not_foreign_of_key _ _ Hl Hp)].
    exists r. split_and!; [done| |congruence]. by rewrite <-(row_of_key_ident key r r' Hident).
Qed.
Lemma moves_shrinks (w w' : TriggerWorld DB) : world_moves w w' -> shrinks w w'.
Proof. intros Hm. split; [apply Hm|]. intros key. by apply moves_view. Qed.
End view.

(** ** The queries and the supersession keep their promises *)

Section gate_laws.
Context {DB : Type} `{DocStore DB} `{!DocStoreLaws DB} `{Chrono} (local_dids : gset str) (me : MaterializerEnv).
#[local] Existing Instance production_view.
Local Abbreviation moves_of := (λ x y : DB, db_moves local_dids (view x) (view y)).
Local Abbreviation view_instance := (production_view local_dids me).

Lemma interference_moves (c : Call (DB:=DB) local_dids) w delay :
  world_moves local_dids w (mkWorld (itf_run (cl_before c) (tw_db w)) (tw_clock w + Z.of_N delay)).
Proof. split; cbn; [lia|apply itf_moves]. Qed.
Lemma interference_moves0 (c : Call (DB:=DB) local_dids) w :
  world_moves local_dids w (mkWorld (itf_run (cl_before c) (tw_db w)) (tw_clock w)).
Proof. split; cbn; [lia|apply itf_moves]. Qed.

(** The live requests of a key are among the excluded one when no other row of it
    gates. *)
Lemma live_only (w : TriggerWorld DB) key ex :
  (∀ r, r ∈ requests (view (tw_db w)) -> row_of_key key r = true -> not_excluded ex r = true -> active_row r = true ->
     row_gates_serial_fire r (tw_clock w) = false) ->
  live_ids local_dids w key ⊆ only ex.
Proof.
  intros Hno. unfold live_ids. case_match; [|set_solver]. intros id (r & Hin & Hp & <-)%elem_of_ids_of.
  apply andb_true_iff in Hp as [[Hk Ha]%andb_true_iff Hg]. destruct (not_excluded ex r) eqn:He.
  - rewrite (Hno r) in Hg; done.
  - destruct ex as [x|]; [|done]. cbn in He. apply negb_false_iff, str_eqb_true in He. rewrite He. set_solver.
Qed.

Lemma has_active_promise c key ex w r w' : has_active local_dids c key ex w = (r, w') ->
  @shrinks _ view_instance w w' ∧ (r = Ok false -> live_ids local_dids w' key ⊆ only ex).
Proof.
  unfold has_active. destruct (cl_fault c).
  { intros [= <- <-]. split; [|done]. apply moves_shrinks, interference_moves0. }
  intros [= <- <-]. split; [apply moves_shrinks, interference_moves|]. intros [= Hf]. apply live_only. cbn.
  intros r0 Hin Hk He Ha. apply not_true_iff_false. intros Hg. apply not_true_iff_false in Hf. apply Hf.
  apply existsb_exists. exists r0. split; [|done]. apply List.filter_In. rewrite <-list_elem_of_In, Hk, He, Ha. done.
Qed.
Lemma recover_promise c task key w r w' : recover_fire local_dids me c task key w = (r, w') -> @shrinks _ view_instance w w'.
Proof.
  unfold recover_fire. pose proof (moves_shrinks local_dids me _ _ (interference_moves0 c w)) as Hs.
  destruct (resolve_behavior me task); [|by intros [= <- <-]]. destruct (cl_fault c); [by intros [= <- <-]|].
  destruct (take 2 _) as [|x [|y l]]; cbn [head]; try (by intros [= <- <-]);
    (destruct (rd_disposition _); by intros [= <- <-]).
Qed.
Lemma group_promise c did tid kind corr w r w' : has_group local_dids c did tid kind corr w = (r, w') ->
  @shrinks _ view_instance w w' ∧ (r = Ok false -> bound_ids local_dids w' (did, tid, kind, Some corr) = ∅).
Proof.
  unfold has_group. pose proof (moves_shrinks local_dids me _ _ (interference_moves0 c w)) as Hs.
  destruct (cl_fault c); [by intros [= <- <-]|]. intros [= <- <-]. split; [done|]. intros [= Hf%negb_false_iff].
  unfold bound_ids. destruct (key_is_local _ _); [|done]. unfold ids_of. cbn [tw_db].
  destruct (List.filter _ _) as [|x l]; [done|]. done.
Qed.

(** *** Supersession *)

Lemma pending_moves key ex (e : SafeEnv (DB:=DB) local_dids) db :
  moves_of db (snd (persist (λ _, true) (λ now, mutate_request (pending_of_key key ex) (supersede_input (to_rfc3339 now))) (se_env e) db)).
Proof.
  apply (persist_rel moves_of).
  - intros x. apply db_moves_refl.
  - intros x y z. apply db_moves_trans.
  - intros n x. apply se_moves.
  - intros now fs x a x' fs' [_ Hb]%mutate_request_Ok _. cbn [fst] in Hb.
    eapply (update_ends_moves _ (pending_of_key key ex)); [by rewrite Hb|done|done].
Qed.
Lemma pending_gone key ex (e : SafeEnv (DB:=DB) local_dids) db rows db' :
  persist (λ _, true) (λ now, mutate_request (pending_of_key key ex) (supersede_input (to_rfc3339 now))) (se_env e) db = (Ok rows, db') ->
  ∀ r, r ∈ requests (view db') -> pending_of_key key ex r = false.
Proof.
  intros Hp. destruct (persist_spec (λ _, true) (λ now, mutate_request (pending_of_key key ex) (supersede_input (to_rfc3339 now))) (se_env e) db)
    as (n & _ & Hrun & _). cbn zeta in Hrun. rewrite Hrun in Hp. unfold run_attempt in Hp.
  destruct (ae_begin _); [done|]. destruct (mutate_request _ _ _) as [[a|err] [x' fs']] eqn:Hb; [|done].
  destruct (ae_commit _); simplify_eq. apply mutate_request_Ok in Hb as [_ Hb]. cbn [fst] in Hb. rewrite Hb. cbn [requests set_requests].
  intros r (r0 & -> & _)%list_elem_of_fmap. case_match eqn:Hq; [|done]. unfold pending_of_key, is_pending. by rewrite !andb_false_r.
Qed.
Lemma terminalize_moves d a out reason fresh (e : SafeEnv (DB:=DB) local_dids) db :
  moves_of db (snd (terminalize_execution d a out reason fresh (se_env e) db)).
Proof.
  unfold terminalize_execution. apply (persist_rel moves_of).
  - intros x. apply db_moves_refl.
  - intros x y z. apply db_moves_trans.
  - intros n x. apply se_moves.
  - intros now fs x r x' fs' Hw Hwon. destruct r; try done.
    apply terminalize_Won in Hw as (row & st & g & ex & seq & dl & agent & session & m & ids & l' & _ & _ & _ & _ & _ & _ & _ & _ & _ & Hv).
    eapply update_ends_moves; [by rewrite Hv|by intros; apply finish_request_ident|].
    intros r _. unfold active_row, finish_request. cbn. by destruct (effective_outcome out row).
Qed.
Lemma revoke_rows_moves rd rows : ∀ n count db, moves_of db (snd (revoke_rows local_dids rd rows n count db)).
Proof.
  induction rows as [|row rows IH]; intros n count db; cbn [revoke_rows]; [apply db_moves_refl|].
  assert (Hm : moves_of db (snd (revoke_execution_generation row O_Superseded (lit "superseded by a newer trigger fire")
                 (rr_fresh rd n) (se_env (rr_env rd n)) db))).
  { unfold revoke_execution_generation. case_match; [apply terminalize_moves|apply db_moves_refl]. }
  destruct (revoke_execution_generation _ _ _ _ _ _) as [[r|err] db']; [|done]. eapply db_moves_trans; [exact Hm|apply IH].
Qed.
Lemma revoke_rounds_moves rounds key ex fuel : ∀ n count db, moves_of db (snd (revoke_rounds local_dids rounds key ex fuel n count db)).
Proof.
  induction fuel as [|fuel IH]; intros n count db; cbn [revoke_rounds]; [apply db_moves_refl|].
  pose proof (itf_moves (rr_before (rounds n)) db) as Hi. destruct (rr_fault _); [done|].
  destruct (List.filter _ _) as [|x l]; [done|]. pose proof (revoke_rows_moves (rounds n) (x :: l) 0 count (itf_run (rr_before (rounds n)) db)) as Hr.
  destruct (revoke_rows _ _ _ _ _ _) as [[count'|err] db'].
  - eapply db_moves_trans; [exact Hi|]. eapply db_moves_trans; [exact Hr|apply IH].
  - eapply db_moves_trans; [exact Hi|exact Hr].
Qed.
Lemma revoke_rounds_Ok rounds key ex fuel : ∀ n count db k db', revoke_rounds local_dids rounds key ex fuel n count db = (Ok k, db') ->
  ∀ r, r ∈ requests (view db') -> row_of_key key r = true -> not_excluded ex r = true -> is_running (r_state r) = false.
Proof.
  induction fuel as [|fuel IH]; intros n count db k db'; cbn [revoke_rounds]; [done|]. destruct (rr_fault _); [done|].
  destruct (List.filter _ _) as [|x l] eqn:Hf.
  - intros [= <- <-] r Hr Hk He. apply not_true_iff_false. intros Hrun. apply (elem_of_nil r). rewrite <-Hf.
    apply list_elem_of_In, List.filter_In. by rewrite <-list_elem_of_In, Hk, He, Hrun.
  - destruct (revoke_rows _ _ _ _ _ _) as [[count'|err] db1]; [apply IH|done].
Qed.
Lemma supersede_promise c key ex w r w' : supersede_active local_dids c key ex w = (r, w') ->
  @shrinks _ view_instance w w' ∧ (is_ok r = true -> live_ids local_dids w' key ⊆ only ex).
Proof.
  unfold supersede_active. set (db0 := itf_run (cl_before c) (tw_db w)). pose proof (itf_moves (cl_before c) (tw_db w)) as M0.
  pose proof (pending_moves key ex (cl_pending c) db0) as M1. pose proof (pending_gone key ex (cl_pending c) db0) as Hgone.
  destruct (persist _ _ _ db0) as [[rows|err] db1]; cbn [snd] in M1.
  2:{ intros [= <- <-]. split; [|done]. apply moves_shrinks. split; cbn; [lia|by eapply db_moves_trans]. }
  pose proof (revoke_rounds_moves (cl_rounds c) key ex (S DEFRA_DB_CONFLICT_MAX_RETRIES) 0 (Z.of_nat (length rows)) db1) as M2.
  pose proof (revoke_rounds_Ok (cl_rounds c) key ex (S DEFRA_DB_CONFLICT_MAX_RETRIES) 0 (Z.of_nat (length rows)) db1) as Hrun.
  destruct (revoke_rounds _ _ _ _ _ _ _ db1) as [q db2]; cbn [snd] in M2. intros [= <- <-]. split.
  { apply moves_shrinks. split; cbn; [lia|]. eapply db_moves_trans; [exact M0|]. by eapply db_moves_trans. }
  intros Hq. destruct q as [k|]; [|done]. specialize (Hrun k db2 eq_refl). specialize (Hgone rows db1 eq_refl).
  unfold live_ids. destruct (key_is_local local_dids key) eqn:Hl; [|set_solver]. intros id (r0 & Hin & Hp & <-)%elem_of_ids_of. cbn in Hin, Hp.
  apply andb_true_iff in Hp as [[Hk Ha]%andb_true_iff _]. destruct (not_excluded ex r0) eqn:He.
  - exfalso. specialize (Hrun r0 Hin Hk He). destruct M2 as [_ M2].
    destruct (M2 _ Hin) as [(r1 & Hin1 & Hid & Hm)|Hf]; [|by destruct (not_foreign_of_key local_dids key r0)].
    destruct (Hm Ha) as [Hpend|(_ & Hr & _)]; [|congruence]. specialize (Hgone r1 Hin1). unfold pending_of_key in Hgone.
    rewrite <-(row_of_key_ident key r1 r0 Hid), Hk in Hgone. assert (Hex : not_excluded ex r1 = not_excluded ex r0).
    { unfold not_excluded. by rewrite Hid. }
    rewrite Hex, He in Hgone. cbn in Hgone. apply not_true_iff_false in Hgone. apply Hgone. by apply is_pending_true.
  - destruct ex as [x|]; [|done]. cbn in He. apply negb_false_iff, str_eqb_true in He. rewrite He. set_solver.
Qed.
End gate_laws.

(** ** Materialization adds one request at most *)

Lemma drop_leading_shorter p (s : str) : drop_leading p s = s ∨ (length (drop_leading p s) < length s)%nat.
Proof.
  induction s as [|c s IH]; [by left|]. cbn [drop_leading]. destruct (p c); [|by left]. right. destruct IH as [->|?]; cbn; lia.
Qed.
Lemma drop_leading_app p (a b : str) : a <> [] -> drop_leading p a = a -> drop_leading p (a ++ b) = a ++ b.
Proof.
  destruct a as [|c a]; [done|]. intros _. cbn [drop_leading app]. destruct (p c); [|done]. intros Heq. exfalso.
  destruct (drop_leading_shorter p a) as [Ha|Ha]; rewrite Heq in Ha; cbn in Ha; [|lia].
  apply (f_equal length) in Ha. cbn in Ha. lia.
Qed.
Lemma trim_end_of_trim s : trim s = s -> trim_end s = s.
Proof.
  unfold trim, trim_end, trim_start. intros Ht. destruct (drop_leading_shorter is_whitespace s) as [Hs|Hs]; [by rewrite Hs in Ht|].
  exfalso. apply (f_equal length) in Ht. rewrite length_rev in Ht.
  destruct (drop_leading_shorter is_whitespace (rev (drop_leading is_whitespace s))) as [He|He];
    rewrite ?He, ?length_rev in *; lia.
Qed.
Lemma trim_end_app a b : b <> [] -> trim_end b = b -> trim_end (a ++ b) = a ++ b.
Proof.
  unfold trim_end, trim_start. intros Hb Ht. rewrite rev_app_distr. rewrite drop_leading_app.
  - by rewrite <-rev_app_distr, rev_involutive.
  - intros Hr. apply (f_equal (@rev _)) in Hr. by rewrite rev_involutive in Hr.
  - by rewrite <-(rev_involutive (drop_leading _ _)), Ht.
Qed.
(** The identity of a fire survives the trimming of the request builder. *)
Lemma trim_request_id did task key : trim key = key ->
  trim (tg_request_id (task_goal_fire_identity did task key)) = tg_request_id (task_goal_fire_identity did task key).
Proof.
  intros Hk. cbn [task_goal_fire_identity tg_request_id]. unfold counted. set (A := lit "task-goal-request:").
  assert (Hs : trim_start (A ++ (fmt_Z (Z.of_nat (length did)) ++ [58] ++ did) ++ [58] ++ (fmt_Z (Z.of_nat (length task)) ++ [58] ++ task)
     ++ [58] ++ fmt_Z (Z.of_nat (length key)) ++ [58] ++ key)
     = A ++ (fmt_Z (Z.of_nat (length did)) ++ [58] ++ did) ++ [58] ++ (fmt_Z (Z.of_nat (length task)) ++ [58] ++ task)
     ++ [58] ++ fmt_Z (Z.of_nat (length key)) ++ [58] ++ key) by (by apply (drop_leading_app is_whitespace A)).
  unfold trim. rewrite Hs. rewrite !app_assoc. destruct key as [|c key].
  - rewrite app_nil_r. apply trim_end_app; done.
  - apply trim_end_app; [done|]. by apply trim_end_of_trim.
Qed.

#[global] Instance covers_dec key agent a : Decision (covers key agent a).
Proof. destruct key as [[[did tid] kind] corr]. unfold covers. apply _. Defined.

Section growth.
Context {DB : Type} `{DocStore DB} `{!DocStoreLaws DB} `{Chrono} (local_dids : gset str) (me : MaterializerEnv).
#[local] Existing Instance production_view.
Context (did id : str) (a : MaterializeArgs).

(** A request the fire created: its identifier and its lineage. *)
Definition created_row (r : RequestRow) : Prop :=
  ri_request_id (r_ident r) = id ∧ ri_agent_did (r_ident r) = Some did ∧ ri_trigger_id (r_ident r) = ma_trigger_id a
  ∧ ri_trigger_kind (r_ident r) = Some (trigger_kind_as_str (ma_trigger_kind a)) ∧ ri_correlation (r_ident r) = ma_correlation a.
Definition grows (c c' : Collections) : Prop :=
  (NoDup (doc_ids c) -> NoDup (doc_ids c'))
  ∧ ∀ r', r' ∈ requests c' -> (∃ r, r ∈ requests c ∧ executor_move r r') ∨ foreign_row local_dids r' ∨ created_row r'.
Lemma created_ident r r' : r_ident r' = r_ident r -> created_row r -> created_row r'.
Proof. unfold created_row. by intros ->. Qed.
Lemma moves_grow c c' : db_moves local_dids c c' -> grows c c'.
Proof. intros [N M]. split; [done|]. intros r' Hr. destruct (M _ Hr); auto. Qed.
Lemma store_grows_refl c : grows c c.
Proof. apply moves_grow, db_moves_refl. Qed.
Lemma store_grows_trans c1 c2 c3 : grows c1 c2 -> grows c2 c3 -> grows c1 c3.
Proof.
  intros [N1 M1] [N2 M2]. split; [auto|]. intros r3 H3. destruct (M2 _ H3) as [(r2 & H2 & M)|]; [|auto].
  pose proof (proj1 M) as Hid. destruct (M1 _ H2) as [(r1 & H1 & M')|[Hf|Hc]].
  - left. exists r1. split; [done|by eapply executor_move_trans].
  - right. left. by eapply foreign_ident.
  - right. right. by eapply created_ident.
Qed.
Lemma grows_view db db' clock key : grows (view db) (view db') ->
  let w := mkWorld db clock in let w' := mkWorld db' clock in
  (live_ids local_dids w' key ⊆ live_ids local_dids w key ∧ bound_ids local_dids w' key ⊆ bound_ids local_dids w key)
  ∨ (covers key (Some did) a ∧ live_ids local_dids w' key ⊆ live_ids local_dids w key ∪ {[ id ]}
     ∧ bound_ids local_dids w' key ⊆ bound_ids local_dids w key ∪ {[ id ]}).
Proof.
  intros [_ M]. cbn zeta. unfold live_ids, bound_ids. destruct (key_is_local local_dids key) eqn:Hl; [|left; set_solver].
  assert (Hcov : ∀ r, created_row r -> row_of_key key r = true -> covers key (Some did) a).
  { intros r (_ & Ha & Ht & Hk & Hc). destruct key as [[[did' tid] kind] corr]. intros (Ha' & Ht' & Hk' & Hc')%row_of_key_true.
    cbn. split_and!; [congruence|congruence| |rewrite <-Hc; done]. apply kind_str_inj. congruence. }
  assert (Hold : ∀ r' clock', r' ∈ requests (view db') -> row_of_key key r' = true -> ~ created_row r' ->
    (active_row r' && row_gates_serial_fire r' clock' = true -> ri_request_id (r_ident r') ∈
       ids_of (λ r, row_of_key key r && active_row r && row_gates_serial_fire r clock') db)
    ∧ ri_request_id (r_ident r') ∈ ids_of (row_of_key key) db).
  { intros r' clock' Hr Hk Hn. destruct (M _ Hr) as [(r & Hin & Hmove)|[Hf|Hc]];
      [|by destruct (not_foreign_of_key local_dids key r')|done].
    pose proof (proj1 Hmove) as Hident. pose proof (row_of_key_ident key r r' Hident) as Hrk. rewrite Hk in Hrk. split.
    - intros [Ha Hg]%andb_true_iff. destruct (gates_move _ _ _ Hmove Ha Hg) as [Ha' Hg'].
      apply elem_of_ids_of. exists r. rewrite Ha', Hg', <-Hrk. split_and!; [done|done|by rewrite Hident].
    - apply elem_of_ids_of. exists r. split_and!; [done|done|by rewrite Hident]. }
  destruct (decide (covers key (Some did) a)) as [Hc|Hnc]; [right; split; [done|]|left].
  all: split; intros x (r' & Hr & Hp & <-)%elem_of_ids_of; cbn [tw_db tw_clock] in *.
  - rewrite <-andb_assoc in Hp. apply andb_true_iff in Hp as [Hk Hg].
    destruct (decide (ri_request_id (r_ident r') = id)) as [->|Hne]; [set_solver|].
    apply elem_of_union_l. apply (Hold r' clock Hr Hk); [|done]. by intros [? _].
  - destruct (decide (ri_request_id (r_ident r') = id)) as [->|Hne]; [set_solver|].
    apply elem_of_union_l. apply (Hold r' clock Hr Hp). by intros [? _].
  - rewrite <-andb_assoc in Hp. apply andb_true_iff in Hp as [Hk Hg]. apply (Hold r' clock Hr Hk); [|done]. eauto.
  - apply (Hold r' clock Hr Hp). eauto.
Qed.

(** *** Writes *)

Lemma mutate_with_retry_rel {A} (R : DB → DB → Prop) (step : DB → A * DB) outcome budget :
  (∀ x, R x x) -> (∀ x y z, R x y -> R y z -> R x z) -> (∀ x, R x (snd (step x))) ->
  ∀ n db, R db (snd (mutate_with_retry step outcome budget n db)).
Proof.
  intros Hrefl Htrans Hstep. induction budget as [|budget IH]; intros n db; cbn [mutate_with_retry]; destruct (outcome n);
    try (by destruct (step db) as [x db'] eqn:E; cbn; specialize (Hstep db); rewrite E in Hstep); cbn; try done.
  - case_match; [apply IH|done].
  - case_match; [|apply Hstep]. eapply Htrans; [apply Hstep|apply IH].
Qed.
Lemma mutate_with_retry_Ok {A} (step : DB → A * DB) outcome budget : ∀ n db x db',
  mutate_with_retry step outcome budget n db = (Ok x, db') -> ∃ db1, step db1 = (x, db').
Proof.
  induction budget as [|budget IH]; intros n db x db'; cbn [mutate_with_retry]; destruct (outcome n).
  all: try (destruct (step db) as [y db1] eqn:E; intros [= <- <-]; by exists db). all: try done.
  all: case_match; try done; apply IH.
Qed.
Lemma create_grows row (db : DB) : created_row row -> grows (view db) (view (fst (create_request row db))).
Proof.
  intros Hrow. destruct (view_create_request row db) as (db' & doc & -> & Hfresh & Hv). cbn [fst]. split.
  - unfold doc_ids. rewrite Hv. cbn [requests set_requests]. rewrite fmap_app. intros Hn.
    apply list.NoDup_app. split_and!; [done| |apply NoDup_singleton]. intros x Hx Hx'. cbn in Hx'. apply list_elem_of_singleton in Hx' as ->. done.
  - intros r'. rewrite Hv. cbn [requests set_requests]. intros [Hr|Hr]%elem_of_app.
    + left. exists r'. split; [done|apply executor_move_refl].
    + apply list_elem_of_singleton in Hr as ->. right. right. exact Hrow.
Qed.
End growth.

Section materialize_law.
Context {DB : Type} `{DocStore DB} `{!DocStoreLaws DB} `{Chrono} (local_dids : gset str) (me : MaterializerEnv).
#[local] Existing Instance production_view.
Local Abbreviation grown := (grows local_dids).

Lemma build_pending_request_Ok (c : Call (DB:=DB) local_dids) did beh content lineage title ws rid sid rk tdoc row :
  build_pending_request local_dids me c did beh content lineage title ws rid sid rk tdoc = Ok row ->
  ri_request_id (r_ident row) = trim rid ∧ ri_agent_did (r_ident row) = Some did ∧ ri_trigger_id (r_ident row) = tl_trigger_id lineage
  ∧ ri_trigger_kind (r_ident row) = tl_trigger_kind lineage ∧ ri_correlation (r_ident row) = tl_correlation lineage.
Proof.
  unfold build_pending_request. destruct (validate_trigger_lineage _ _); [|done].
  destruct (opt_eqb _ _ _ && _); [done|]. destruct (match ws with Some l => _ | None => _ end); [|done].
  destruct (is_nil (trim rid)); [done|]. destruct (is_nil (trim sid)); [done|]. destruct (is_some_and _ _); [done|].
  destruct (me_prompt_slash_skill_selection me content) as [content' skills].
  destruct (match tl_trigger_kind lineage with Some _ => _ | None => _ end); [|done]. destruct (cl_sign c); [done|].
  by intros [= <-].
Qed.
Lemma same_fingerprint_created did id a r row : same_fingerprint r row = true -> created_row did id a row -> created_row did id a r.
Proof.
  unfold same_fingerprint, created_row. rewrite !andb_true_iff, !opt_eqb_str, !str_eqb_true. intros Hf (? & ? & ? & ? & ?). destruct_and!. split_and!; congruence.
Qed.

(** The document a write reports is one the fire created. *)
Definition is_created (did id : str) (a : MaterializeArgs) (doc : str) (c : Collections) : Prop :=
  ∃ r, r ∈ requests c ∧ ri_doc_id (r_ident r) = doc ∧ created_row did id a r.

Lemma write_pending_request_spec (c : Call (DB:=DB) local_dids) did a row (db : DB) r db' :
  created_row did (ri_request_id (r_ident row)) a row -> write_pending_request local_dids c row db = (r, db') ->
  grown did (ri_request_id (r_ident row)) a (view db) (view db')
  ∧ ∀ doc, r = Ok doc -> is_created did (ri_request_id (r_ident row)) a doc (view db').
Proof.
  intros Hrow. unfold write_pending_request. set (step := λ db0 : DB, _).
  assert (Hstep : ∀ x, grown did (ri_request_id (r_ident row)) a (view x) (view (snd (step x)))).
  { intros x. subst step. cbn. pose proof (create_grows local_dids did _ a row x Hrow) as Hg. by destruct (create_request row x). }
  pose proof (mutate_with_retry_rel (λ x y, grown did (ri_request_id (r_ident row)) a (view x) (view y)) step (cl_create c)
    DEFRA_DB_CONFLICT_MAX_RETRIES ltac:(intros; apply store_grows_refl) ltac:(intros x y z; apply store_grows_trans) Hstep 0 db) as Hg.
  pose proof (mutate_with_retry_Ok step (cl_create c) DEFRA_DB_CONFLICT_MAX_RETRIES 0 db) as Hok.
  destruct (mutate_with_retry _ _ _ _ _) as [[doc|e] db1]; cbn [snd] in Hg; [|intros [= <- <-]; split; [done|done]].
  destruct (Hok doc db1 eq_refl) as [db0 Hs]. subst step. cbn in Hs.
  destruct (view_create_request row db0) as (db0' & doc' & Hc & _ & Hv). rewrite Hc in Hs. injection Hs as -> ->.
  assert (Hin : set_r_doc_id doc row ∈ requests (view db1)).
  { rewrite Hv. cbn. apply elem_of_app. right. by apply list_elem_of_singleton. }
  destruct (cl_echo c).
  { intros [= <- <-]. split; [done|]. intros d [= <-]. by exists (set_r_doc_id doc row). }
  destruct (cl_lookup c); [intros [= <- <-]; split; [done|done]|].
  set (F := List.filter _ _). assert (HF : set_r_doc_id doc row ∈ F).
  { apply list_elem_of_In, List.filter_In. rewrite <-list_elem_of_In. split; [done|]. cbn. apply str_eqb_refl. }
  destruct F as [|x [|y l]] eqn:HFe; cbn [take]; [by apply elem_of_nil in HF| |intros [= <- <-]; by split].
  apply list_elem_of_singleton in HF as <-. intros [= <- <-]. split; [done|]. intros d [= <-].
  by exists (set_r_doc_id doc row).
Qed.

Lemma load_created (c : Call (DB:=DB) local_dids) did id a row db doc : created_row did id a row ->
  load_goal_backed_request local_dids c row db = Ok (Some doc) -> is_created did id a doc (view db).
Proof.
  intros Hrow. unfold load_goal_backed_request. destruct (cl_load c); [done|]. unfold decode_agent_request_by_retry_key.
  destruct (take 2 _) as [|x [|y l]] eqn:Ht; [done| |done]. destruct (same_fingerprint x row) eqn:Hf; [|done].
  destruct (cl_goal_check c); [|done]. intros [= <-]. exists x. split_and!; [|done|by eapply same_fingerprint_created].
  assert (Hx : x ∈ take 2 (retry_key_rows row db)) by (rewrite Ht; by apply list_elem_of_singleton).
  apply elem_of_take in Hx as (i & Hx & _). apply list_elem_of_lookup_2, list_elem_of_In, List.filter_In in Hx as [Hx _].
  by apply list_elem_of_In.
Qed.
Lemma submit_spec (c : Call (DB:=DB) local_dids) did id a agent session objective budget row (db : DB) r db' :
  created_row did id a row -> submit_goal_backed_request local_dids c agent session objective budget row db = (r, db') ->
  grown did id a (view db) (view db') ∧ ∀ doc, r = Ok doc -> is_created did id a doc (view db').
Proof.
  intros Hrow. unfold submit_goal_backed_request. destruct (cl_begin c); [intros [= <- <-]; split; [apply store_grows_refl|done]|].
  assert (Hrec : ∀ x error doc, (match load_goal_backed_request local_dids c row x with
      | Ok (Some doc_id) => Ok doc_id | Ok None => Err error | Err e => Err e end = Ok doc) -> is_created did id a doc (view x)).
  { intros x error doc. destruct (load_goal_backed_request local_dids c row x) as [[d|]|] eqn:Hl; try done.
    intros [= <-]. by eapply load_created. }
  set (S := match stage_goal_backed_request local_dids c agent session objective budget row db with Ok _ => _ | Err _ => _ end).
  assert (HS : ∀ x, S = Ok x -> grown did id a (view db) (view x)).
  { subst S. unfold stage_goal_backed_request. intros x. destruct (is_nil (trim objective)); [done|].
    destruct (is_some_and _ budget); [done|].
    destruct (negb _); [done|]. destruct (negb _); [done|]. destruct (ri_retry_key (r_ident row)); [|done]. destruct (cl_goal c) as [active|]; [|done].
    destruct (cl_goal_query c); [done|]. destruct (retry_key_rows row db) as [|y [|z l]]; [| |done].
    - destruct (negb active); [done|]. destruct (cl_goal_create c); [done|]. destruct (authorize_goal_submission_commit _); [|done].
      intros [= <-]. by apply create_grows.
    - destruct (same_fingerprint y row); [|done]. destruct (authorize_goal_submission_commit _); [|done].
      intros [= <-]. apply store_grows_refl. }
  destruct S as [x|e]; [|intros [= <- <-]; split; [apply store_grows_refl|apply Hrec]].
  specialize (HS x eq_refl). destruct (cl_commit c); intros [= <- <-]; (split; [done || apply store_grows_refl|apply Hrec]).
Qed.

(** The identifier of the created request: the durable one of a goal-backed fire. *)
Definition fire_id (c : Call (DB:=DB) local_dids) (a : MaterializeArgs) (did : str) : str :=
  trim (match ma_rendered_goal_objective a with
        | Some _ => tg_request_id (task_goal_fire_identity did (rt_task_id (ma_task a)) (ma_durable_fire_key a))
        | None => cl_request_uuid c
        end).
Lemma enqueue_spec (c : Call (DB:=DB) local_dids) a behavior ws (db : DB) r db' :
  enqueue_request local_dids me c a behavior ws db = (r, db') ->
  let did := rb_agent_did behavior in let id := fire_id c a did in
  grown did id a (view db) (view db') ∧ ∀ doc rid, r = Ok (doc, rid) -> is_created did id a doc (view db').
Proof.
  unfold enqueue_request, fire_id. cbn zeta. destruct (ma_rendered_goal_objective a) as [objective|].
  - destruct (build_pending_request _ _ _ _ _ _ _ _ _ _ _ _ _) as [row|] eqn:Hb;
      [|intros [= <- <-]; split; [apply store_grows_refl|done]].
    apply build_pending_request_Ok in Hb as (Hid & Hrest).
    destruct (submit_goal_backed_request _ _ _ _ _ _ _ _) as [q db1] eqn:Hs.
    eapply submit_spec in Hs as [Hg Hc]; [|exact (conj Hid Hrest)].
    destruct q; intros [= <- <-]; (split; [done|]); [|done]. intros doc rid [= <- <-]. by apply Hc.
  - destruct (bool_decide _); [intros [= <- <-]; split; [apply store_grows_refl|done]|].
    destruct (build_pending_request _ _ _ _ _ _ _ _ _ _ _ _ _) as [row|] eqn:Hb;
      [|intros [= <- <-]; split; [apply store_grows_refl|done]].
    apply build_pending_request_Ok in Hb as (Hid & Hrest). rewrite <-Hid.
    destruct (write_pending_request _ _ _ _) as [q db1] eqn:Hs.
    eapply write_pending_request_spec in Hs as [Hg Hc]; [|exact (conj eq_refl Hrest)].
    destruct q; intros [= <- <-]; (split; [done|]); [|done]. intros doc rid [= <- <-]. by apply Hc.
Qed.

(** Only the created document is activated. *)
Definition doc_is_ours (did id : str) (a : MaterializeArgs) (doc : str) (c : Collections) : Prop :=
  ∀ r, r ∈ requests c -> ri_doc_id (r_ident r) = doc -> created_row did id a r ∨ foreign_row local_dids r.
Lemma created_is_ours did id a doc c : NoDup (doc_ids c) -> is_created did id a doc c -> doc_is_ours did id a doc c.
Proof.
  intros Hn (r0 & Hin & Hdoc & Hc) r Hr Hd. left. apply list_elem_of_lookup_1 in Hin as [i Hi]. apply list_elem_of_lookup_1 in Hr as [j Hj].
  assert (i = j) as ->; [|by simplify_eq].
  eapply (proj1 (NoDup_alt (doc_ids c)) Hn i j doc); unfold doc_ids; rewrite list_lookup_fmap; [rewrite Hi|rewrite Hj]; cbn; congruence.
Qed.
Lemma moves_keep_ours did id a doc c c' : db_moves local_dids c c' -> doc_is_ours did id a doc c -> doc_is_ours did id a doc c'.
Proof.
  intros [_ M] Ho r' Hr' Hd. destruct (M _ Hr') as [(r & Hr & Hid & _)|Hf]; [|by right]. rewrite Hid in Hd.
  destruct (Ho r Hr Hd); [left; by eapply created_ident|right; by eapply foreign_ident].
Qed.
Lemma activate_spec (c : Call (DB:=DB) local_dids) did id a doc (db : DB) r db' :
  doc_is_ours did id a doc (view db) -> activate_workspace_bound_request local_dids c doc db = (r, db') ->
  grown did id a (view db) (view db').
Proof.
  intros Hours. unfold activate_workspace_bound_request. set (step := λ db0 : DB, _).
  assert (Hstep : ∀ x, doc_is_ours did id a doc (view x) ->
    grown did id a (view x) (view (snd (step x))) ∧ doc_is_ours did id a doc (view (snd (step x)))).
  { intros x Ho. subst step. cbn [snd]. rewrite view_update_request.
    assert (Hid : ∀ r0, r_ident (if staged_doc doc r0 then set_r_state (Some Pending) r0 else r0) = r_ident r0)
      by (intros r0; by destruct (staged_doc doc r0)).
    split; [split|].
    - unfold doc_ids. cbn [requests set_requests]. unfold update_where. rewrite <-list_fmap_compose.
      erewrite (list_fmap_ext (_ ∘ _)); [done|]. intros i r0 _. cbn. by rewrite Hid.
    - intros r'. cbn [requests set_requests]. intros (r0 & -> & Hr0)%list_elem_of_fmap. destruct (staged_doc doc r0) eqn:Hs.
      + unfold staged_doc in Hs. apply andb_true_iff in Hs as [Hd%str_eqb_true _].
        destruct (Ho _ Hr0 Hd); right; [right; by eapply created_ident|left; by eapply foreign_ident].
      + left. exists r0. split; [done|apply executor_move_refl].
    - intros r'. cbn [requests set_requests]. intros (r0 & -> & Hr0)%list_elem_of_fmap. rewrite Hid. intros Hd.
      destruct (Ho _ Hr0 Hd); [left; eapply created_ident; [apply Hid|done]|right; eapply foreign_ident; [apply Hid|done]]. }
  pose proof (mutate_with_retry_rel (λ x y, doc_is_ours did id a doc (view x) ->
    grown did id a (view x) (view y) ∧ doc_is_ours did id a doc (view y)) step (cl_activate c) DEFRA_DB_CONFLICT_MAX_RETRIES) as Hrel.
  assert (Hg : grown did id a (view db) (view (snd (mutate_with_retry step (cl_activate c) DEFRA_DB_CONFLICT_MAX_RETRIES 0 db)))).
  { apply Hrel; [| |exact Hstep|done].
    - intros x Hx. split; [apply store_grows_refl|done].
    - intros x y z Hxy Hyz Hx. destruct (Hxy Hx) as [G1 O1]. destruct (Hyz O1) as [G2 O2]. split; [by eapply store_grows_trans|done]. }
  destruct (mutate_with_retry _ _ _ _ _) as [[rows|e] db1]; cbn [snd] in Hg; [|by intros [= <- <-]].
  destruct (single_mutation_document rows) as [[row|]|]; [by intros [= <- <-]| |by intros [= <- <-]].
  destruct (cl_reread c); [by intros [= <- <-]|]. destruct (match List.find _ _ with Some _ => _ | None => _ end); by intros [= <- <-].
Qed.

Lemma materialize_promise (c : Call (DB:=DB) local_dids) a w r w' : materialize_production local_dids me c a w = (r, w') ->
  NoDup (doc_ids (view (tw_db w))) -> NoDup (doc_ids (view (tw_db w'))) ∧
  (db_moves local_dids (view (tw_db w)) (view (tw_db w')) ∧ tw_clock w' = tw_clock w
   ∨ ∃ did, production_agent me (ma_task a) = Some did ∧ tw_clock w' = tw_clock w
       ∧ grown did (fire_id c a did) a (view (tw_db w)) (view (tw_db w'))).
Proof.
  intros Hm Hn. unfold materialize_production in Hm. set (db0 := itf_run (cl_before c) (tw_db w)) in *.
  pose proof (itf_moves (cl_before c) (tw_db w)) as M0. fold db0 in M0.
  destruct (materialize_checks local_dids me c a) as [[behavior workspace]|e] eqn:Hchk.
  2:{ injection Hm as <- <-. split; [by apply M0|]. by left. }
  assert (Hagent : production_agent me (ma_task a) = Some (rb_agent_did behavior)).
  { unfold materialize_checks in Hchk. destruct (_ && _); [done|]. destruct (resolve_behavior me (ma_task a)) as [b|] eqn:Hb; [|done].
    cbn in Hchk. unfold resolve_behavior in Hb. unfold production_agent. destruct (me_behaviors me !! _) as [b'|]; [|done].
    destruct (rb_backend_id b'); [|done]. injection Hb as ->. cbn. f_equal.
    destruct (parse_trigger_context _ _); [|done]. cbn in Hchk. destruct (match ma_trigger_id a with Some _ => _ | None => _ end) as [[d|]|]; try done.
    destruct (require_authority_if_workspace_id _); [|done]. cbn in Hchk. destruct (_ && _); [done|].
    destruct (cl_stamp c _); [|done]. cbn in Hchk. destruct (_ && _); [done|]. by simplify_eq. }
  set (ws := if workspace_is_bound workspace then Some workspace else None) in *.
  destruct (enqueue_request local_dids me c a behavior ws db0) as [q db1] eqn:Hq. apply enqueue_spec in Hq as [G1 Hc1]. cbn zeta in G1, Hc1.
  assert (G : grown (rb_agent_did behavior) (fire_id c a (rb_agent_did behavior)) a (view (tw_db w)) (view (tw_db w')) ∧ tw_clock w' = tw_clock w).
  { pose proof (store_grows_trans _ _ _ _ _ _ _ (moves_grow local_dids (rb_agent_did behavior) (fire_id c a (rb_agent_did behavior)) a _ _ M0) G1) as G01.
    destruct q as [[doc rid]|e]; [|injection Hm as <- <-; split; done].
    destruct ws; [|injection Hm as <- <-; split; done]. pose proof (itf_moves (cl_mid c) db1) as M2.
    pose proof (store_grows_trans _ _ _ _ _ _ _ G01 (moves_grow local_dids _ _ a _ _ M2)) as G02.
    assert (Hours : doc_is_ours (rb_agent_did behavior) (fire_id c a (rb_agent_did behavior)) a doc (view (itf_run (cl_mid c) db1))).
    { eapply moves_keep_ours; [exact M2|]. apply created_is_ours; [by apply G01|by eapply Hc1]. }
    destruct (cl_bind c); [|injection Hm as <- <-; split; done].
    destruct (activate_workspace_bound_request local_dids c doc _) as [x db2] eqn:Ha. eapply activate_spec in Ha; [|exact Hours].
    pose proof (store_grows_trans _ _ _ _ _ _ _ G02 Ha) as G03. destruct x; injection Hm as <- <-; by split. }
  destruct G as [G Hclock]. split; [by apply G|]. right. exists (rb_agent_did behavior). by split_and!.
Qed.

#[local] Existing Instance production_handle.
#[global] Instance production_laws :
  @MaterializerLaws (TriggerWorld DB) (Call (DB:=DB) local_dids) (production_handle local_dids me) (production_view local_dids me).
Proof.
  split.
  - intros w w' Hm. by apply moves_shrinks.
  - intros c key ex w r w' Heq. cbn in Heq. unfold text_error in Heq. destruct (has_active _ _ _ _ _) as [q w1] eqn:Hq.
    injection Heq as <- <-. apply (has_active_promise local_dids me) in Hq as [Hs Hf]. split; [done|]. destruct q; [|done]. intros [= ->]. by apply Hf.
  - intros c key ex w r w' Heq. cbn in Heq. unfold text_error in Heq. destruct (supersede_active _ _ _ _ _) as [q w1] eqn:Hq.
    injection Heq as <- <-. apply (supersede_promise local_dids me) in Hq as [Hs Hf]. split; [done|]. by destruct q.
  - intros c task key w r w' Heq. cbn in Heq. unfold text_error in Heq. destruct (recover_fire _ _ _ _ _ _) as [q w1] eqn:Hq.
    injection Heq as <- <-. by apply recover_promise in Hq.
  - intros c did tid kind corr w r w' Heq. cbn in Heq. unfold text_error in Heq. destruct (has_group _ _ _ _ _ _ _) as [q w1] eqn:Hq.
    injection Heq as <- <-. apply (group_promise local_dids me) in Hq as [Hs Hf]. split; [done|]. destruct q; [|done]. intros [= ->]. by apply Hf.
  - intros c a [db clock] r [db' clock'] Heq Hok. cbn in Heq. apply materialize_promise in Heq as [Hn Hcase]; [|done].
    split; [done|]. cbn [tw_db tw_clock] in *. destruct Hcase as [[Hm ->]|(did & Hd & -> & Hg)].
    + exists (match production_agent me (ma_task a) with
              | Some did => tg_request_id (task_goal_fire_identity did (rt_task_id (ma_task a)) (ma_durable_fire_key a))
              | None => []
              end).
      split; [intros did Hd _ _; cbn in Hd; by rewrite Hd|]. intros key. left. apply (moves_view local_dids). split; [cbn; lia|done].
    + exists (fire_id c a did). cbn [agent_of production_view]. rewrite Hd. split.
      * intros did' [= <-] [o Ho] Ht. unfold fire_id. rewrite Ho. by apply trim_request_id.
      * intros key. by apply grows_view.
Qed.
End materialize_law.

(** ** The engine over the store *)

Section engine_over_store.
Context {DB : Type} `{DocStore DB} `{!DocStoreLaws DB} `{Chrono} (local_dids : gset str) (me : MaterializerEnv) (env : Minijinja).
#[local] Existing Instance production_view.
#[local] Existing Instance production_handle.
#[local] Existing Instance production_laws.
Local Abbreviation store_reaches := (@engine_reaches (TriggerWorld DB) (Call (DB:=DB) local_dids)
  (production_handle local_dids me) (production_view local_dids me) env).

(** The trigger of a key has one request that gates a serial fire, at the clock of the
    world. *)
Definition one_live (key : TriggerLockKey) (w : TriggerWorld DB) : Prop :=
  ∀ r r', r ∈ requests (view (tw_db w)) -> r' ∈ requests (view (tw_db w)) ->
    row_of_key key r && active_row r && row_gates_serial_fire r (tw_clock w) = true ->
    row_of_key key r' && active_row r' && row_gates_serial_fire r' (tw_clock w) = true ->
    ri_request_id (r_ident r) = ri_request_id (r_ident r').
Definition one_bound (key : TriggerLockKey) (w : TriggerWorld DB) : Prop :=
  ∀ r r', r ∈ requests (view (tw_db w)) -> r' ∈ requests (view (tw_db w)) -> row_of_key key r = true -> row_of_key key r' = true ->
    ri_request_id (r_ident r) = ri_request_id (r_ident r').
Lemma ids_of_single p (db : DB) : (size (ids_of p db) <= 1)%nat <->
  ∀ r r', r ∈ requests (view db) -> r' ∈ requests (view db) -> p r = true -> p r' = true ->
    ri_request_id (r_ident r) = ri_request_id (r_ident r').
Proof.
  split.
  - intros Hs r r' Hr Hr' Hp Hp'. assert (H1 : ri_request_id (r_ident r) ∈ ids_of p db) by (apply elem_of_ids_of; eauto).
    assert (H2 : ri_request_id (r_ident r') ∈ ids_of p db) by (apply elem_of_ids_of; eauto).
    destruct (decide (ri_request_id (r_ident r) = ri_request_id (r_ident r'))) as [|Hne]; [done|exfalso].
    assert (Hsub : {[ ri_request_id (r_ident r); ri_request_id (r_ident r') ]} ⊆ ids_of p db) by set_solver.
    apply subseteq_size in Hsub. rewrite size_union, !size_singleton in Hsub by set_solver. lia.
  - intros Hone. destruct (decide (ids_of p db = ∅)) as [->|Hne]; [rewrite size_empty; lia|].
    apply set_choose_L in Hne as [x Hx]. assert (Hsub : ids_of p db ⊆ {[ x ]}).
    { intros y (r' & Hr' & Hp' & <-)%elem_of_ids_of. apply elem_of_ids_of in Hx as (r & Hr & Hp & <-).
      apply elem_of_singleton. by apply Hone. }
    apply subseteq_size in Hsub. by rewrite size_singleton in Hsub.
Qed.

Definition live_row (key : TriggerLockKey) (w : TriggerWorld DB) (r : RequestRow) : bool :=
  row_of_key key r && active_row r && row_gates_serial_fire r (tw_clock w).
Lemma live_local did tid kind corr (w : TriggerWorld DB) : did ∈ local_dids ->
  live_ids local_dids w (did, tid, kind, corr) = ids_of (live_row (did, tid, kind, corr) w) (tw_db w).
Proof. intros Hd. unfold live_ids. cbn [key_is_local]. by rewrite bool_decide_true. Qed.
Lemma bound_local did tid kind corr (w : TriggerWorld DB) : did ∈ local_dids ->
  bound_ids local_dids w (did, tid, kind, corr) = ids_of (row_of_key (did, tid, kind, corr)) (tw_db w).
Proof. intros Hd. unfold bound_ids. cbn [key_is_local]. by rewrite bool_decide_true. Qed.


(** C28. A group of documents gets one request at most, ever, however often it is
    reconciled and fired, in parallel mode too. *)
Theorem a_group_fires_once did trigger_id kind correlation intents w s :
  let key := (did, trigger_id, kind, Some correlation) in
  did ∈ local_dids -> (∀ i, intents i -> disciplined C_Bound key i) -> NoDup (doc_ids (view (tw_db w))) ->
  one_bound key w -> store_reaches intents w s -> one_bound key (es_world s).
Proof.
  cbn zeta. intros Hl Hd Hn Hw Hr.
  pose proof (group_one_bound (mh:=production_handle local_dids me) (mv:=production_view local_dids me)
    (laws:=production_laws local_dids me) env (did, trigger_id, kind, Some correlation) intents w s Hd Hn) as Hone.
  cbn [bound production_view] in Hone. rewrite !bound_local in Hone by done.
  exact (proj1 (ids_of_single _ _) (Hone (proj2 (ids_of_single (row_of_key _) _) Hw) Hr)).
Qed.

(** A dispatch that has returned has called back exactly once, with its result. *)
Theorem every_dispatch_reports_once intents w s t r : store_reaches intents w s ->
  es_threads s !! t = Some (P_Done r) -> reports_of t (es_reports s) = [r].
Proof. apply dispatch_reports_once. Qed.

(** *** Recovery of a durable fire *)

End engine_over_store.

(** ** Runs of the engine over the in-memory store *)

Definition demo_did : str := lit "did:key:a".
Definition demo_dids : gset str := {[ demo_did ]}.
Definition quiet_interference : Interference (DB:=Collections) demo_dids := mkInterference _ _ demo_dids id (λ db, db_moves_refl demo_dids db).
Definition quiet_env : SafeEnv (DB:=Collections) demo_dids :=
  mkSafeEnv _ _ demo_dids
    (λ _, {| ae_interference := id; ae_begin := None; ae_now := 0; ae_faults := []; ae_commit := Committed |})
    (λ _ db, db_moves_refl demo_dids db).
Definition quiet_call (uuid : string) (bind : result Error unit) : Call (DB:=Collections) demo_dids :=
  {| cl_before := quiet_interference; cl_fault := None; cl_delay := 0%N; cl_pending := quiet_env;
     cl_rounds := λ _, {| rr_before := quiet_interference; rr_fault := None; rr_fresh := λ _, lit "g"; rr_env := λ _, quiet_env |};
     cl_request_uuid := lit uuid; cl_session_uuid := lit "s"; cl_now := lit "t"; cl_title_time := lit "20260101t000000z";
     cl_runs := Ok []; cl_stamp := λ l, Ok l; cl_sign := None; cl_create := λ _, Committed; cl_echo := true; cl_lookup := None;
     cl_begin := None; cl_goal := Ok true; cl_goal_query := None; cl_goal_create := None; cl_commit := Committed;
     cl_load := None; cl_goal_check := Ok tt; cl_mid := quiet_interference; cl_bind := bind;
     cl_activate := λ _, Committed; cl_reread := None |}.
Definition demo_me (fields : gmap str str) : MaterializerEnv :=
  {| me_behaviors := {[ lit "b" := mkBehavior (lit "b") demo_did (Some (lit "backend")) ]}; me_unavailable := ∅;
     me_local_deployment_id := Some (lit "here"); me_context_from_str := λ _, Ok (1, fields);
     me_graph_artifact_revision_digest := λ _, None; me_prompt_slash_skill_selection := λ s, (s, []);
     me_to_string := λ _, lit "{}"; me_char_to_lowercase := λ c, [c]; me_sha256_hex := λ s, s |}.
Definition demo_jinja : Minijinja := {| template_from_str := λ _, Ok tt; jinja_render := λ t _, Ok t |}.
Definition fire_snapshot : FireSnapshot :=
  {| sn_local_did := demo_did; sn_behaviors := {[ lit "b" := demo_did ]}; sn_unavailable := ∅;
     sn_active_schedules := {[ lit "nightly" := lit "doc" ]}; sn_active_event_triggers := {[ lit "on_doc" := lit "doc2" ]} |}.
Definition demo_task (goal : option str) : ResolvedTask :=
  {| rt_task_id := lit "task"; rt_name := None; rt_behavior_id := lit "b"; rt_prompt_template := lit "run";
     rt_goal_objective_template := goal; rt_goal_token_budget := None; rt_output_schema_ref := None |}.
Definition demo_intent (goal context : option str) (slot : string) : FireIntent :=
  {| fi_trigger_id := Some (lit "nightly"); fi_trigger_kind := TK_Schedule; fi_task := demo_task goal;
     fi_concurrency := CM_Serial; fi_event_vars := JNull; fi_doc_vars := None; fi_correlation := None;
     fi_group_vars := None; fi_trigger_context := context; fi_args_vars := None;
     fi_durable_fire_key := durable_fire_key (lit "schedule") [lit "nightly"; lit slot]; fi_pre_materialized_request_id := None |}.
Definition group_intent (correlation : string) : FireIntent :=
  {| fi_trigger_id := Some (lit "on_doc"); fi_trigger_kind := TK_Event; fi_task := demo_task None;
     fi_concurrency := CM_Parallel; fi_event_vars := JObject [(lit "source_doc_id", JString (lit "d"))]; fi_doc_vars := None;
     fi_correlation := Some (lit correlation); fi_group_vars := Some JNull; fi_trigger_context := None; fi_args_vars := None;
     fi_durable_fire_key := durable_fire_key (lit "event") [lit correlation]; fi_pre_materialized_request_id := None |}.
Definition empty_world : TriggerWorld Collections :=
  mkWorld {| requests := []; responses := []; sessions := []; conversations := []; messages := [] |} 0.

(** Two fires that race: both find the lock, the first creates its request, the second
    takes the lock before the first has pruned it. *)
Definition race (i i' : FireIntent) (c c' : Call (DB:=Collections) demo_dids) : list (EngineAction (Call (DB:=Collections) demo_dids)) :=
  [A_Spawn 0 i; A_Spawn 1 i'; A_Prepare 0 fire_snapshot [] c; A_Prepare 1 fire_snapshot [] c'; A_Lookup 0; A_Lookup 1;
   A_Lock 0; A_Group 0 c; A_Gate 0 c; A_Make 0 c c; A_Release 0; A_Lock 1; A_Prune 0; A_Group 1 c'; A_Return 0].
Local Abbreviation demo_run me := (@engine_run (TriggerWorld Collections) (Call (DB:=Collections) demo_dids)
  (@production_handle Collections _ demo_chrono demo_dids me) demo_jinja).
Lemma fire_snapshot_ok fields : @snapshot_ok _ (@production_view Collections _ demo_chrono demo_dids (demo_me fields)) fire_snapshot.
Proof.
  intros task did. unfold concurrency_agent_did. cbn [sn_behaviors fire_snapshot agent_of production_view]. unfold production_agent.
  cbn [me_behaviors demo_me]. destruct (decide (rt_behavior_id task = lit "b")) as [->|Hne].
  - by rewrite !lookup_singleton_eq; intros [= <-].
  - by rewrite !lookup_singleton_ne by done.
Qed.
Definition race_end (me : MaterializerEnv) xs : EngineState (TriggerWorld Collections) :=
  default (engine_start empty_world) (demo_run me xs (engine_start empty_world)).
Definition serial_race :=
  race (demo_intent None None "1") (demo_intent None None "2") (quiet_call "u1" (Ok tt)) (quiet_call "u2" (Ok tt))
  ++ [A_Gate 1 (quiet_call "u2" (Ok tt)); A_Release 1; A_Prune 1; A_Return 1].
Definition group_race :=
  race (group_intent "run-1") (group_intent "run-1") (quiet_call "u1" (Ok tt)) (quiet_call "u2" (Ok tt))
  ++ [A_Release 1; A_Prune 1; A_Return 1].
Lemma race_reaches intents me xs : Forall (@action_ok _ _ (@production_view Collections _ demo_chrono demo_dids me) intents) xs ->
  is_Some (demo_run me xs (engine_start empty_world)) ->
  @engine_reaches _ _ (@production_handle Collections _ demo_chrono demo_dids me) (@production_view Collections _ demo_chrono demo_dids me)
    demo_jinja intents empty_world (race_end me xs).
Proof.
  intros Hall [s Hs]. apply (engine_run_reaches (mv:=@production_view Collections _ demo_chrono demo_dids me) demo_jinja intents _ xs);
    [done|]. unfold race_end. by rewrite Hs.
Qed.


Lemma a_group_fires_once_witness :
  es_reports (race_end (demo_me ∅) group_race) = [(0%nat, Fired (lit "u1")); (1%nat, Skipped (lit "per_group: request already materialized"))]
  ∧ @one_bound Collections _ (demo_did, lit "on_doc", TK_Event, Some (lit "run-1")) (es_world (race_end (demo_me ∅) group_race)).
Proof.
  split; [vm_compute; reflexivity|].
  apply (@a_group_fires_once Collections _ memory_store_laws demo_chrono demo_dids (demo_me ∅) demo_jinja demo_did (lit "on_doc") TK_Event (lit "run-1")
    (λ i, i = group_intent "run-1") empty_world).
  - set_solver.
  - intros i -> _ _. split; [split; intros _; by eexists|]. exists (lit "run-1"). split; [reflexivity|vm_compute; reflexivity].
  - apply NoDup_nil_2.
  - intros r r' Hr. by apply elem_of_nil in Hr.
  - apply race_reaches; [repeat (first [apply list.Forall_nil_2|apply list.Forall_cons_2]; cbn; try apply fire_snapshot_ok; auto)|].
    vm_compute. eexists. reflexivity.
Defined.

Lemma every_dispatch_reports_once_witness :
  reports_of 1 (es_reports (race_end (demo_me ∅) serial_race)) = [Skipped (lit "serial: prior fire still in-flight")].
Proof.
  apply (@every_dispatch_reports_once Collections _ demo_chrono demo_dids (demo_me ∅) demo_jinja
    (λ i, i = demo_intent None None "1" ∨ i = demo_intent None None "2") empty_world).
  - apply race_reaches; [repeat (first [apply list.Forall_nil_2|apply list.Forall_cons_2]; cbn; try apply fire_snapshot_ok; auto)|].
    vm_compute. eexists. reflexivity.
  - vm_compute. reflexivity.
Defined.

Local Abbreviation demo_dispatch me := (@dispatch (TriggerWorld Collections) (Call (DB:=Collections) demo_dids)
  (@production_handle Collections _ demo_chrono demo_dids me) demo_jinja fire_snapshot []).
Definition goal_intent : FireIntent := demo_intent (Some (lit "finish")) None "1".
Definition goal_world : TriggerWorld Collections := snd (demo_dispatch (demo_me ∅) (λ _, quiet_call "u1" (Ok tt)) goal_intent empty_world).

(** A workspace-bound request whose binding fails stays staged; the gate of the next
    fire does not count it, and when both are activated a serial trigger has two live
    requests. *)
Definition workspace_me : MaterializerEnv :=
  demo_me {[ lit "workspace_id" := lit "ws"; lit "workspace_authority" := lit "readWrite";
             lit "workspace_owner_deployment_id" := lit "here" ]}.
Definition staged_intent (slot : string) : FireIntent := demo_intent None (Some (lit "context")) slot.
Definition staged_world : TriggerWorld Collections :=
  snd (demo_dispatch workspace_me (λ _, quiet_call "u1" (Err (Msg (lit "no workspace")))) (staged_intent "1") empty_world).
Lemma staged_requests_escape_the_gate :
  fst (demo_dispatch workspace_me (λ _, quiet_call "u1" (Err (Msg (lit "no workspace")))) (staged_intent "1") empty_world)
    = Errored (lit "materialize: no workspace")
  ∧ (r_state <$> requests (tw_db staged_world)) = [Some WorkspaceBindingPending]
  ∧ let '(r, w) := demo_dispatch workspace_me (λ _, quiet_call "u2" (Ok tt)) (staged_intent "1") staged_world in
    r = Fired (lit "u2") ∧
    let doc := from_option (λ r, ri_doc_id (r_ident r)) [] (head (requests (tw_db w))) in
    let db := snd (activate_workspace_bound_request demo_dids (quiet_call "u3" (Ok tt)) doc (tw_db w)) in
    ((λ r, (ri_request_id (r_ident r), r_state r)) <$> requests db) = [(lit "u1", Some Pending); (lit "u2", Some Pending)].
Proof. vm_compute. auto. Qed.
