(* ===== verification/ScheduleSource.v ===== *)
(** * Schedules

    [trigger_engine/schedule_source.rs], the cadences of [runtime_snapshot.rs] and the
    runtime fields of [document_config/schedule.rs]: the source ticks every second,
    reads when a schedule runs next, fires the first one that is due, and records the
    outcome when the engine reports it.  Schedules are scanned in the order of the
    snapshot's map, a list here; the fields of a schedule live in a store keyed by its
    identifier, every access to which can fail.

    The theorems: what a tick fires is the first due schedule; the slots an interval
    schedule fires follow each other by its interval, none skipped or doubled, a failed
    one repeated with the same durable key; a cron schedule never fires twice for one
    slot.  A schedule that keeps failing starves those behind it. *)

From S2P Require Import Prelude RustStr Messages RequestState TriggerEngine ScheduleCron.
Open Scope Z_scope.

(** ** Cadences *)

Inductive ScheduleCadence : Type :=
  | SC_Interval (interval_secs : Z)
  | SC_Cron (expression timezone : str) (missed_run_policy : CronMissedRunPolicy).
Record ResolvedSchedule : Type := mkSchedule {
  rs_trigger_doc_id : str; rs_schedule_id : str; rs_task_id : str; rs_task : ResolvedTask; rs_cadence : ScheduleCadence;
  rs_enabled : bool; rs_concurrency : ConcurrencyMode }.

(** ** The runtime fields of a schedule *)

Record ScheduleDoc : Type := mkDoc {
  sd_next_run_at : option str; sd_last_attempt_at : option str; sd_last_status : option str; sd_last_error : option str;
  sd_fire_count : option Z }.
Record ScheduleRuntimeUpdate : Type := mkUpdate {
  su_next_run_at : option str; su_last_attempt_at : option str; su_last_status : option str; su_last_error : option str;
  su_fire_count_delta : option Z }.
Definition or_keep {A} (v old : option A) : option A := match v with Some _ => v | None => old end.
Definition apply_update (u : ScheduleRuntimeUpdate) (d : ScheduleDoc) : ScheduleDoc :=
  {| sd_next_run_at := or_keep (su_next_run_at u) (sd_next_run_at d);
     sd_last_attempt_at := or_keep (su_last_attempt_at u) (sd_last_attempt_at d);
     sd_last_status := or_keep (su_last_status u) (sd_last_status d);
     sd_last_error := or_keep (su_last_error u) (sd_last_error d);
     sd_fire_count := match su_fire_count_delta u with
                      | Some delta => Some (Z.max i64_min (Z.min i64_max (default 0 (sd_fire_count d) + delta)))
                      | None => sd_fire_count d
                      end |}.
Definition load_schedule_next_run_at (fault : option str) (schedule_id : str) (docs : gmap str ScheduleDoc)
    : result str (option str) :=
  match fault with Some e => Err e | None => Ok (docs !! schedule_id ≫= sd_next_run_at) end.
(** Without a document nothing is written, and that is no error. *)
Definition update_schedule_runtime_fields (fault : option str) (schedule_id : str) (u : ScheduleRuntimeUpdate)
    (docs : gmap str ScheduleDoc) : result str unit * gmap str ScheduleDoc :=
  match su_next_run_at u, su_last_attempt_at u, su_last_status u, su_last_error u, su_fire_count_delta u with
  | None, None, None, None, None => (Ok tt, docs)
  | _, _, _, _, _ => match fault with
                     | Some e => (Err e, docs)
                     | None => (Ok tt, alter (apply_update u) schedule_id docs)
                     end
  end.

(** ** The source *)

Record ScheduleFire : Type := mkFire {
  sf_schedule_id : str; sf_slot_text : str; sf_slot : Z; sf_advanced : str; sf_last_attempt_at : str; sf_intent : FireIntent }.
(** What a tick meets: the clock, and the faults of each schedule's reads and writes. *)
Record TickEnv : Type := mkTick { tk_now : Z; tk_load : str → option str; tk_seed : str → option str }.

Section source.
Context {Tz : Type} (parse_tz : str → option Tz) (with_timezone : Tz → Z → LocalTime) `{Chrono} (to_rfc3339_secs : Z → str).

Definition seed_next_run_at (cadence : ScheduleCadence) (now : Z) : result CronError Z :=
  match cadence with
  | SC_Interval _ => Ok now
  | SC_Cron expression timezone _ => next_cron_run_after parse_tz with_timezone expression timezone now
  end.
Definition advance_next_run_at (cadence : ScheduleCadence) (parsed_next_run_at now : Z) : result CronError Z :=
  match cadence with
  | SC_Interval interval_secs => Ok (parsed_next_run_at + RequestState.seconds interval_secs)
  | SC_Cron expression timezone LatestOnly => next_cron_run_after parse_tz with_timezone expression timezone now
  end.

Definition fire_intent (schedule_id slot : str) (resolved : ResolvedSchedule) (now : Z) : FireIntent :=
  {| fi_trigger_id := Some schedule_id; fi_trigger_kind := TK_Schedule; fi_task := rs_task resolved;
     fi_concurrency := rs_concurrency resolved;
     fi_event_vars := JObject [(lit "fired_at", JString (to_rfc3339_secs now)); (lit "trigger_id", JString schedule_id);
                               (lit "trigger_kind", JString (lit "schedule"))];
     fi_doc_vars := None; fi_correlation := None; fi_group_vars := None; fi_trigger_context := None; fi_args_vars := None;
     fi_durable_fire_key := durable_fire_key (lit "schedule") [schedule_id; slot]; fi_pre_materialized_request_id := None |}.
(** The slot a schedule runs next, seeded when it has none. *)
Definition read_slot (t : TickEnv) (schedule_id : str) (resolved : ResolvedSchedule) (docs : gmap str ScheduleDoc)
    : option str * gmap str ScheduleDoc :=
  match load_schedule_next_run_at (tk_load t schedule_id) schedule_id docs with
  | Err _ => (None, docs)
  | Ok (Some slot) => (Some slot, docs)
  | Ok None =>
      match seed_next_run_at (rs_cadence resolved) (tk_now t) with
      | Err _ => (None, docs)
      | Ok next =>
          let seeded := to_rfc3339_secs next in
          match update_schedule_runtime_fields (tk_seed t schedule_id) schedule_id (mkUpdate (Some seeded) None None None None) docs with
          | (Err _, docs) => (None, docs)
          | (Ok _, docs) => (Some seeded, docs)
          end
      end
  end.
Definition due_fire (t : TickEnv) (schedule_id slot : str) (resolved : ResolvedSchedule) : option ScheduleFire :=
  match parse_from_rfc3339 slot with
  | Err _ => None
  | Ok parsed =>
      if tk_now t <? parsed then None
      else match advance_next_run_at (rs_cadence resolved) parsed (tk_now t) with
           | Err _ => None
           | Ok next => Some {| sf_schedule_id := schedule_id; sf_slot_text := slot; sf_slot := parsed;
                                sf_advanced := to_rfc3339_secs next; sf_last_attempt_at := to_rfc3339_secs (tk_now t);
                                sf_intent := fire_intent schedule_id slot resolved (tk_now t) |}
           end
  end.
(** One tick: the first schedule that is due. *)
Fixpoint scan_schedules (t : TickEnv) (schedules : list (str * ResolvedSchedule)) (docs : gmap str ScheduleDoc)
    : option ScheduleFire * gmap str ScheduleDoc :=
  match schedules with
  | [] => (None, docs)
  | (schedule_id, resolved) :: schedules =>
      match read_slot t schedule_id resolved docs with
      | (None, docs) => scan_schedules t schedules docs
      | (Some slot, docs) => match due_fire t schedule_id slot resolved with
                             | Some fire => (Some fire, docs)
                             | None => scan_schedules t schedules docs
                             end
      end
  end.
Definition result_update (fire : ScheduleFire) (r : FireResult) : ScheduleRuntimeUpdate :=
  match r with
  | Fired _ => mkUpdate (Some (sf_advanced fire)) (Some (sf_last_attempt_at fire)) (Some (lit "fired")) None (Some 1)
  | Skipped _ => mkUpdate (Some (sf_advanced fire)) (Some (sf_last_attempt_at fire)) (Some (lit "skipped")) None None
  | Errored error => mkUpdate None (Some (sf_last_attempt_at fire)) (Some (lit "error")) (Some error) None
  end.

(** Ticks one after the other, each with the result of its fire; the record of a fire
    lands before the next tick. *)
Fixpoint run_ticks (schedules : list (str * ResolvedSchedule)) (ticks : list (TickEnv * FireResult)) (docs : gmap str ScheduleDoc)
    : list (ScheduleFire * FireResult) * gmap str ScheduleDoc :=
  match ticks with
  | [] => ([], docs)
  | (t, r) :: ticks =>
      match scan_schedules t schedules docs with
      | (None, docs) => run_ticks schedules ticks docs
      | (Some fire, docs) =>
          let docs := snd (update_schedule_runtime_fields None (sf_schedule_id fire) (result_update fire r) docs) in
          let '(fires, docs) := run_ticks schedules ticks docs in ((fire, r) :: fires, docs)
      end
  end.

(** ** One tick *)

Lemma update_other fault id id' u docs : id <> id' -> snd (update_schedule_runtime_fields fault id u docs) !! id' = docs !! id'.
Proof.
  intros Hne. unfold update_schedule_runtime_fields.
  assert (Ha : ∀ f, alter f id docs !! id' = docs !! id') by (intros f; by rewrite lookup_alter_ne).
  repeat case_match; done || apply Ha.
Qed.
Lemma read_slot_other t id id' resolved docs slot docs' : id <> id' -> read_slot t id resolved docs = (slot, docs') ->
  docs' !! id' = docs !! id'.
Proof.
  intros Hne. unfold read_slot. destruct (load_schedule_next_run_at _ _ _) as [[s|]|]; try (by intros [= <- <-]).
  destruct (seed_next_run_at _ _) as [next|]; [|by intros [= <- <-]].
  pose proof (update_other (tk_seed t id) id id' (mkUpdate (Some (to_rfc3339_secs next)) None None None None) docs Hne) as Ho.
  destruct (update_schedule_runtime_fields _ _ _ _) as [[|] d]; intros [= <- <-]; exact Ho.
Qed.
(** A slot that is stored is read and stays; otherwise the slot read is stored. *)
Lemma read_slot_keeps t id resolved docs slot docs' d : docs !! id = Some d -> read_slot t id resolved docs = (Some slot, docs') ->
  ∃ d', docs' !! id = Some d' ∧ sd_next_run_at d' = Some slot ∧ (∀ s, sd_next_run_at d = Some s -> slot = s ∧ docs' = docs).
Proof.
  intros Hd. unfold read_slot, load_schedule_next_run_at. destruct (tk_load t id); [done|]. rewrite Hd. cbn.
  destruct (sd_next_run_at d) as [s|] eqn:Hs.
  - intros [= <- <-]. exists d. split_and!; [done|done|]. by intros ? [= <-].
  - destruct (seed_next_run_at _ _); [|done]. destruct (tk_seed t id); cbn; [done|]. intros [= <- <-].
    eexists. split_and!; [by rewrite lookup_alter_eq, Hd|done|done].
Qed.
(** A tick fires a schedule of the list whose slot has come. *)
Lemma due_fire_spec t id slot resolved fire : due_fire t id slot resolved = Some fire ->
  sf_schedule_id fire = id ∧ sf_slot_text fire = slot ∧ parse_from_rfc3339 slot = Ok (sf_slot fire) ∧ sf_slot fire <= tk_now t
  ∧ ∃ next, advance_next_run_at (rs_cadence resolved) (sf_slot fire) (tk_now t) = Ok next ∧ sf_advanced fire = to_rfc3339_secs next.
Proof.
  unfold due_fire. destruct (parse_from_rfc3339 slot) as [p|]; [|done]. destruct (Z.ltb_spec (tk_now t) p); [done|].
  destruct (advance_next_run_at _ _ _) as [next|] eqn:Ha; [|done]. intros [= <-]. cbn. split_and!; [done|done|done|done|]. by exists next.
Qed.
Lemma scan_spec t schedules : ∀ docs fire docs', scan_schedules t schedules docs = (Some fire, docs') ->
  ∃ before resolved after docs0 docs1, schedules = before ++ (sf_schedule_id fire, resolved) :: after
    ∧ scan_schedules t before docs = (None, docs0)
    ∧ read_slot t (sf_schedule_id fire) resolved docs0 = (Some (sf_slot_text fire), docs1) ∧ docs' = docs1
    ∧ due_fire t (sf_schedule_id fire) (sf_slot_text fire) resolved = Some fire.
Proof.
  induction schedules as [|[id resolved] schedules IH]; intros docs fire docs'; cbn [scan_schedules]; [done|].
  destruct (read_slot t id resolved docs) as [[slot|] docs1] eqn:Hr.
  - destruct (due_fire t id slot resolved) as [f|] eqn:Hd.
    + intros [= <- <-]. pose proof (due_fire_spec _ _ _ _ _ Hd) as (<- & <- & _).
      exists [], resolved, schedules, docs, docs1. split_and!; done.
    + intros Hs. destruct (IH _ _ _ Hs) as (b & rv & a & d0 & d1 & -> & Hb & Hrest).
      exists ((id, resolved) :: b), rv, a, d0, d1. split_and!; [done| |apply Hrest|apply Hrest|apply Hrest].
      cbn [scan_schedules]. by rewrite Hr, Hd.
  - intros Hs. destruct (IH _ _ _ Hs) as (b & rv & a & d0 & d1 & -> & Hb & Hrest).
    exists ((id, resolved) :: b), rv, a, d0, d1. split_and!; [done| |apply Hrest|apply Hrest|apply Hrest].
    cbn [scan_schedules]. by rewrite Hr.
Qed.

(** ** Slots follow each other *)

Definition fires_of (id : str) (fires : list (ScheduleFire * FireResult)) : list (ScheduleFire * FireResult) :=
  List.filter (λ fr, str_eqb (sf_schedule_id fr.1) id) fires.
(** The slot a schedule runs next after a fire. *)
Definition next_slot (fire : ScheduleFire) (r : FireResult) : str :=
  match r with Errored _ => sf_slot_text fire | _ => sf_advanced fire end.
(** Each fire takes the slot the one before it left, the first the stored one. *)
Fixpoint follows (slot : option str) (fires : list (ScheduleFire * FireResult)) : Prop :=
  match fires with
  | [] => True
  | (f, r) :: fires => (∀ s, slot = Some s -> sf_slot_text f = s) ∧ follows (Some (next_slot f r)) fires
  end.

Lemma scan_other t schedules id : id ∉ schedules.*1 -> ∀ docs fire docs', scan_schedules t schedules docs = (fire, docs') ->
  docs' !! id = docs !! id.
Proof.
  induction schedules as [|[i resolved] schedules IH]; intros Hn docs fire docs'; cbn [scan_schedules]; [by intros [= <- <-]|].
  cbn in Hn. apply not_elem_of_cons in Hn as [Hne Hn]. destruct (read_slot t i resolved docs) as [[slot|] docs1] eqn:Hr;
    apply (read_slot_other t i id) in Hr; [|done| |done].
  - destruct (due_fire t i slot resolved); [by intros [= <- <-]|]. intros Hs. rewrite <-Hr. by eapply IH.
  - intros Hs. rewrite <-Hr. by eapply IH.
Qed.
(** A tick leaves a stored slot alone. *)
Lemma scan_keeps_slot t schedules : ∀ docs fire docs' id d s, scan_schedules t schedules docs = (fire, docs') -> docs !! id = Some d ->
  sd_next_run_at d = Some s -> docs' !! id = Some d.
Proof.
  induction schedules as [|[i resolved] schedules IH]; intros docs fire docs' id d s; cbn [scan_schedules]; [by intros [= <- <-]|].
  intros Hs Hd Hslot. destruct (read_slot t i resolved docs) as [slot docs1] eqn:Hr.
  assert (Hd1 : docs1 !! id = Some d).
  { destruct (decide (i = id)) as [->|Hne]; [|by rewrite (read_slot_other t i id resolved docs slot docs1 Hne Hr)].
    unfold read_slot, load_schedule_next_run_at in Hr. rewrite Hd in Hr. cbn in Hr. rewrite Hslot in Hr.
    destruct (tk_load t id); by simplify_eq. }
  destruct slot as [slot|]; [|by eapply IH]. destruct (due_fire t i slot resolved); [by simplify_eq|by eapply IH].
Qed.
Lemma update_docs fire r docs d : docs !! sf_schedule_id fire = Some d -> sd_next_run_at d = Some (sf_slot_text fire) ->
  ∃ d', snd (update_schedule_runtime_fields None (sf_schedule_id fire) (result_update fire r) docs) !! sf_schedule_id fire = Some d'
    ∧ sd_next_run_at d' = Some (next_slot fire r).
Proof. intros Hd Hs. destruct r; cbn; eexists; (split; [by rewrite lookup_alter_eq, Hd|done]). Qed.

Lemma scan_exists t schedules : ∀ docs fire docs' id d, scan_schedules t schedules docs = (fire, docs') -> docs !! id = Some d -> is_Some (docs' !! id).
Proof.
  induction schedules as [|[i resolved] schedules IH]; intros docs fire docs' id d; cbn [scan_schedules]; [by intros [= <- <-] ->|].
  intros Hs Hd. destruct (read_slot t i resolved docs) as [slot docs1] eqn:Hr.
  assert (Hd1 : is_Some (docs1 !! id)).
  { destruct (decide (i = id)) as [->|Hne]; [|rewrite (read_slot_other t i id resolved docs slot docs1 Hne Hr), Hd; by eexists].
    unfold read_slot, load_schedule_next_run_at in Hr. destruct (tk_load t id); [by simplify_eq; eexists|]. rewrite Hd in Hr. cbn in Hr.
    destruct (sd_next_run_at d); [by simplify_eq; eexists|]. destruct (seed_next_run_at _ _); [|by simplify_eq; eexists].
    destruct (tk_seed t id); cbn in Hr; simplify_eq; [by eexists|]. rewrite lookup_alter_eq, Hd. by eexists. }
  destruct Hd1 as [d1 Hd1]. destruct slot as [slot|]; [|by eapply IH]. destruct (due_fire t i slot resolved); [simplify_eq; by eexists|by eapply IH].
Qed.
(** The fire of a tick takes the stored slot, which is the one read. *)
Lemma scan_fire_slot t schedules docs fire docs' d : NoDup schedules.*1 -> scan_schedules t schedules docs = (Some fire, docs') ->
  docs !! sf_schedule_id fire = Some d ->
  (∀ s, sd_next_run_at d = Some s -> sf_slot_text fire = s)
  ∧ ∃ d', docs' !! sf_schedule_id fire = Some d' ∧ sd_next_run_at d' = Some (sf_slot_text fire).
Proof.
  intros Hn Hs Hd. apply scan_spec in Hs as (before & resolved & after & docs0 & docs1 & -> & Hb & Hr & -> & _).
  assert (Hnot : sf_schedule_id fire ∉ before.*1).
  { rewrite fmap_app in Hn. apply list.NoDup_app in Hn as (_ & Hn & _). intros Hin. apply (Hn _ Hin). left. }
  pose proof (scan_other t before _ Hnot _ _ _ Hb) as H0. rewrite Hd in H0.
  destruct (read_slot_keeps _ _ _ _ _ _ _ H0 Hr) as (d' & Hd' & Hs' & Hold). split; [|by exists d'].
  intros s Hs. by destruct (Hold s Hs).
Qed.
Lemma run_follows schedules ticks : NoDup schedules.*1 -> ∀ docs fires docs' id d, run_ticks schedules ticks docs = (fires, docs') ->
  docs !! id = Some d -> follows (sd_next_run_at d) (fires_of id fires).
Proof.
  intros Hn. induction ticks as [|[t r] ticks IH]; intros docs fires docs' id d; cbn [run_ticks]; [by intros [= <- <-]|].
  intros Hrun Hd. destruct (scan_schedules t schedules docs) as [[fire|] docs1] eqn:Hs.
  - destruct (run_ticks schedules ticks _) as [fires1 docs2] eqn:Hr in Hrun. injection Hrun as <- <-.
    unfold fires_of. cbn [List.filter fst]. destruct (str_eqb (sf_schedule_id fire) id) eqn:Hid.
    + apply str_eqb_true in Hid. subst id. destruct (scan_fire_slot _ _ _ _ _ _ Hn Hs Hd) as (Hslot & d1 & Hd1 & Hs1).
      destruct (update_docs fire r docs1 d1 Hd1 Hs1) as (d2 & Hd2 & Hs2). cbn [follows]. split; [done|].
      rewrite <-Hs2. by eapply IH.
    + assert (Hne : sf_schedule_id fire <> id) by (intros Heq; by rewrite Heq, str_eqb_refl in Hid).
      assert (Hd1 : ∃ d1, docs1 !! id = Some d1 ∧ ∀ s, sd_next_run_at d = Some s -> sd_next_run_at d1 = Some s).
      { destruct (scan_exists _ _ _ _ _ _ _ Hs Hd) as [d1 Hd1]. exists d1. split; [done|]. intros s Hsome.
        pose proof (scan_keeps_slot _ _ _ _ _ _ _ _ Hs Hd Hsome). congruence. }
      destruct Hd1 as (d1 & Hd1 & Hk). pose proof (update_other None _ id (result_update fire r) docs1 Hne) as Hu. rewrite Hd1 in Hu.
      specialize (IH _ _ _ id d1 Hr Hu). fold (fires_of id fires1). destruct (fires_of id fires1) as [|[f q] l]; [done|].
      destruct IH as [Hf Hl]. split; [|done]. intros s Hsome. apply Hf. by apply Hk.
  - assert (Hd1 : ∃ d1, docs1 !! id = Some d1 ∧ ∀ s, sd_next_run_at d = Some s -> sd_next_run_at d1 = Some s).
    { destruct (scan_exists _ _ _ _ _ _ _ Hs Hd) as [d1 Hd1]. exists d1. split; [done|]. intros s Hsome.
      pose proof (scan_keeps_slot _ _ _ _ _ _ _ _ Hs Hd Hsome). congruence. }
    destruct Hd1 as (d1 & Hd1 & Hk). specialize (IH _ _ _ id d1 Hrun Hd1). destruct (fires_of id fires) as [|[f q] l]; [done|].
    destruct IH as [Hf Hl]. split; [|done]. intros s Hsome. apply Hf. by apply Hk.
Qed.
Lemma follows_adjacent slot fs pre f1 r1 f2 r2 post : follows slot fs -> fs = pre ++ (f1, r1) :: (f2, r2) :: post ->
  sf_slot_text f2 = next_slot f1 r1.
Proof.
  intros Hf ->. revert slot Hf. induction pre as [|[f r] pre IH]; intros slot; cbn [follows app]; [|intros [_ Hf]; by eapply IH].
  intros (_ & Hf & _). by apply Hf.
Qed.
(** What was fired was due at a tick, and advances by the cadence. *)
Lemma run_fires schedules ticks : ∀ docs fires docs' f r, run_ticks schedules ticks docs = (fires, docs') -> (f, r) ∈ fires ->
  ∃ t q resolved, (t, q) ∈ ticks ∧ (sf_schedule_id f, resolved) ∈ schedules
    ∧ due_fire t (sf_schedule_id f) (sf_slot_text f) resolved = Some f.
Proof.
  induction ticks as [|[t r0] ticks IH]; intros docs fires docs' f r; cbn [run_ticks]; [intros [= <- <-] Hin; by apply elem_of_nil in Hin|].
  destruct (scan_schedules t schedules docs) as [[fire|] docs1] eqn:Hs.
  - destruct (run_ticks schedules ticks _) as [fires1 docs2] eqn:Hr. intros [= <- <-] [Heq|Hin]%elem_of_cons.
    + injection Heq as -> ->. apply scan_spec in Hs as (before & resolved & after & docs0 & docs1' & -> & _ & _ & _ & Hd).
      exists t, r0, resolved. split_and!; [left|apply elem_of_app; right; left|done].
    + destruct (IH _ _ _ _ _ Hr Hin) as (t' & q & rv & Ht & Hrest). exists t', q, rv. split; [by right|done].
  - intros Hr Hin. destruct (IH _ _ _ _ _ Hr Hin) as (t' & q & rv & Ht & Hrest). exists t', q, rv. split; [by right|done].
Qed.

Definition SECOND : Z := 1000000000.
Context (secs_law : ∀ t, parse_from_rfc3339 (to_rfc3339_secs t) = Ok (t / SECOND * SECOND)).

Lemma whole_minute_whole_second t : t mod MINUTE = 0 -> t / SECOND * SECOND = t.
Proof.
  unfold MINUTE, SECOND. intros Hm. pose proof (Z.div_mod t (60 * 1000000000) ltac:(lia)) as Hd. rewrite Hm, Z.add_0_r in Hd.
  rewrite Hd. replace (60 * 1000000000 * (t / (60 * 1000000000))) with (60 * (t / (60 * 1000000000)) * 1000000000) by lia.
  by rewrite Z_div_mult_full.
Qed.
Lemma NoDup_fst_unique {A B} (l : list (A * B)) a b b' : NoDup l.*1 -> (a, b) ∈ l -> (a, b') ∈ l -> b = b'.
Proof.
  intros Hn [i Hi]%list_elem_of_lookup_1 [j Hj]%list_elem_of_lookup_1. assert (i = j) as ->; [|by simplify_eq].
  eapply (proj1 (NoDup_alt l.*1) Hn i j a); rewrite list_lookup_fmap; [by rewrite Hi|by rewrite Hj].
Qed.


(** ** Who waits *)

(** A schedule at the head of the scan whose fires fail keeps its slot, so every later
    tick fires it again and no other schedule runs. *)
Theorem a_failing_schedule_starves_the_rest schedules ticks docs fires docs' id resolved interval d slot p :
  schedules = (id, resolved) :: tail schedules -> rs_cadence resolved = SC_Interval interval -> docs !! id = Some d ->
  sd_next_run_at d = Some slot -> parse_from_rfc3339 slot = Ok p ->
  (∀ t r, (t, r) ∈ ticks -> tk_load t id = None ∧ p <= tk_now t ∧ ∃ error, r = Errored error) ->
  run_ticks schedules ticks docs = (fires, docs') ->
  length fires = length ticks ∧ Forall (λ fr, sf_schedule_id fr.1 = id) fires.
Proof.
  intros Hsch Hcad. revert docs fires docs' d. induction ticks as [|[t r] ticks IH]; intros docs fires docs' d Hd Hslot Hp Hall; cbn [run_ticks].
  { intros [= <- <-]. split; [done|constructor]. }
  destruct (Hall t r ltac:(left)) as (Hload & Hdue & error & ->).
  assert (Hscan : ∃ fire, scan_schedules t schedules docs = (Some fire, docs) ∧ sf_schedule_id fire = id ∧ sf_slot_text fire = slot).
  { rewrite Hsch. cbn [scan_schedules]. unfold read_slot, load_schedule_next_run_at. rewrite Hload, Hd. cbn. rewrite Hslot.
    unfold due_fire. rewrite Hp. destruct (Z.ltb_spec (tk_now t) p); [lia|]. rewrite Hcad. by eexists. }
  destruct Hscan as (fire & -> & Hid & Htext). subst id.
  destruct (update_docs fire (Errored error) docs d Hd ltac:(by rewrite Htext)) as (d' & Hd' & Hs').
  destruct (run_ticks schedules ticks _) as [fires1 docs2] eqn:Hr. intros [= <- <-].
  destruct (IH _ _ _ d' Hd' ltac:(by rewrite Hs'; cbn; rewrite Htext) Hp ltac:(intros t0 r0 Hin0; apply (Hall t0 r0); by right) Hr) as [Hlen Hf].
  split; [cbn; lia|]. by constructor.
Qed.
(** An interval schedule whose document is gone fires at every tick. *)
Theorem a_deleted_schedule_fires_every_tick schedules ticks docs fires docs' id resolved interval :
  schedules = (id, resolved) :: tail schedules -> rs_cadence resolved = SC_Interval interval -> docs !! id = None ->
  (∀ t r, (t, r) ∈ ticks -> tk_load t id = None ∧ tk_seed t id = None) -> run_ticks schedules ticks docs = (fires, docs') ->
  length fires = length ticks ∧ Forall (λ fr, sf_schedule_id fr.1 = id) fires.
Proof.
  intros Hsch Hcad. revert docs fires docs'. induction ticks as [|[t r] ticks IH]; intros docs fires docs' Hd Hall; cbn [run_ticks].
  { intros [= <- <-]. split; [done|constructor]. }
  destruct (Hall t r ltac:(left)) as [Hload Hseed].
  assert (Hgone : ∀ f, alter f id docs = docs).
  { intros f. apply map_eq. intros k. destruct (decide (k = id)) as [->|Hne]; [by rewrite lookup_alter_eq, Hd|by rewrite lookup_alter_ne]. }
  assert (Hscan : ∃ fire, scan_schedules t schedules docs = (Some fire, docs) ∧ sf_schedule_id fire = id).
  { rewrite Hsch. cbn [scan_schedules]. unfold read_slot, load_schedule_next_run_at. rewrite Hload, Hd. cbn. rewrite Hcad, Hseed. cbn.
    rewrite Hgone. unfold due_fire. rewrite secs_law. destruct (Z.ltb_spec (tk_now t) (tk_now t / SECOND * SECOND)) as [Hlt|].
    - exfalso. unfold SECOND in Hlt. pose proof (Z.mul_div_le (tk_now t) 1000000000 ltac:(lia)). lia.
    - rewrite Hcad. by eexists. }
  destruct Hscan as (fire & -> & Hid). subst id.
  assert (Hu : snd (update_schedule_runtime_fields None (sf_schedule_id fire) (result_update fire r) docs) = docs) by (destruct r; apply Hgone).
  rewrite Hu. destruct (run_ticks schedules ticks docs) as [fires1 docs2] eqn:Hr. intros [= <- <-].
  destruct (IH _ _ _ Hd ltac:(intros t0 r0 Hin0; apply (Hall t0 r0); by right) Hr) as [Hlen Hf]. split; [cbn; lia|]. by constructor.
Qed.
End source.

(** ** Instances *)

(** Timestamps as their seconds. *)
Definition second_chrono : Chrono :=
  {| parse_from_rfc3339 s := match s with [x] => Ok (x * SECOND) | _ => Err [] end; to_rfc3339 t := [t / SECOND] |}.
Definition second_text (t : Z) : str := [t / SECOND].
Definition every (interval : Z) (id : string) : str * ResolvedSchedule :=
  (lit id, {| rs_trigger_doc_id := lit "doc"; rs_schedule_id := lit id; rs_task_id := lit "task";
              rs_task := mkTask (lit "task") None (lit "b") (lit "run") None None None; rs_cadence := SC_Interval interval;
              rs_enabled := true; rs_concurrency := CM_Serial |}).
Definition quiet_tick (t : Z) : TickEnv := mkTick (t * SECOND) (λ _, None) (λ _, None).
Definition fresh_doc : ScheduleDoc := mkDoc None None None None None.
Local Abbreviation demo_ticks := (run_ticks utc_tz (λ _, utc_clock) (H:=second_chrono) second_text).
Definition catch_up :=
  demo_ticks [every 60 "s"] [(quiet_tick 100, Fired []); (quiet_tick 400, Errored []); (quiet_tick 401, Fired []); (quiet_tick 402, Fired [])]
    {[ lit "s" := fresh_doc ]}.
Example starved_schedule :
  ((λ fr : ScheduleFire * FireResult, sf_schedule_id fr.1) <$>
     fst (demo_ticks [every 60 "bad"; every 60 "good"] ((λ t, (quiet_tick t, Errored [])) <$> [1; 2; 3])
            {[ lit "bad" := fresh_doc; lit "good" := fresh_doc ]})) = [lit "bad"; lit "bad"; lit "bad"].
Proof. vm_compute. reflexivity. Qed.
