(* ===== verification/BackendHealth.v ===== *)
(** * Backend health

    [backend_health.rs]: each runtime probes the enabled backends at an interval and
    keeps what it measured; after [k] failures in a row a backend is vetoed from routing,
    one success brings it back, and a reachable backend whose shared document still says
    unknown is promoted.  The requests of a probe and the list of backends are inputs.

    The theorems: the measured state is a function of the failures since the last
    success, so that routing is vetoed exactly after [max k 1] failed probes in a row;
    what a cycle reports as flipped is what changed for routing; admission turns a vetoed
    backend away. *)

From S2P Require Import Prelude RustStr Admission.
Open Scope Z_scope.

Inductive BackendHealthState : Type := HS_Unknown | HS_Healthy | HS_Degraded | HS_Unhealthy.
#[global] Instance BackendHealthState_eq_dec : EqDecision BackendHealthState.
Proof. solve_decision. Defined.
Definition blocks_routing (s : BackendHealthState) : bool := match s with HS_Unhealthy => true | _ => false end.
Definition health_as_str (s : BackendHealthState) : str :=
  match s with
  | HS_Unknown => lit "unknown" | HS_Healthy => lit "healthy" | HS_Degraded => lit "degraded" | HS_Unhealthy => lit "unhealthy"
  end.
Inductive ProbeEvent : Type := ProbeSuccess | ProbeFail.
Record BackendHealthEntry : Type := mkEntry {
  he_state : BackendHealthState; he_failure_count : Z; he_last_probe_at : Z; he_last_error : option str }.

Definition vetoed_backend_ids (m : gmap str BackendHealthEntry) : list str :=
  fst <$> map_to_list (filter (λ kv, blocks_routing (he_state kv.2) = true) m).
Definition measured_blocks_routing (m : gmap str BackendHealthEntry) (backend_id : str) : bool :=
  is_some_and (λ e, blocks_routing (he_state e)) (m !! backend_id).
Definition get_model (m : gmap str BackendHealthEntry) (backend_id : str) : BackendHealthState * Z :=
  match m !! backend_id with Some e => (he_state e, he_failure_count e) | None => (HS_Unknown, 0) end.
Definition retain_backends (ids : gset str) (m : gmap str BackendHealthEntry) : gmap str BackendHealthEntry :=
  filter (λ kv, kv.1 ∈ ids) m.

Definition step_backend (prev : BackendHealthState * Z) (event : ProbeEvent) (threshold_k : Z) : BackendHealthState * Z :=
  let threshold_k := Z.max threshold_k 1 in
  match event with
  | ProbeSuccess => (HS_Healthy, 0)
  | ProbeFail =>
      let n := saturating_add u32_max prev.2 1 in
      if threshold_k <=? n then (HS_Unhealthy, n) else (HS_Degraded, n)
  end.

(** ** A cycle *)

(** What probing a backend came to: its key, the request, the timeout. *)
Inductive ProbeResult : Type :=
  | PB_KeyError (error : str)
  | PB_Models
  | PB_Error (error : str)
  | PB_TimedOut.
Definition probe_event (r : ProbeResult) : ProbeEvent * option str :=
  match r with
  | PB_KeyError error => (ProbeFail, Some error)
  | PB_Models => (ProbeSuccess, None)
  | PB_Error error => (ProbeFail, Some error)
  | PB_TimedOut => (ProbeFail, Some (lit "probe timed out"))
  end.
Record Probed : Type := mkProbed { pb_backend : InferenceBackend; pb_agent_scoped_oauth : bool; pb_result : ProbeResult }.
Record ProbeCycleOutcome : Type := mkOutcome { po_flipped : list str; po_promotable : list str }.
Definition UNKNOWN_PROBE_STATUS : str := lit "unknown".

Fixpoint probe_backends (threshold_k now : Z) (backends : list Probed) (m : gmap str BackendHealthEntry)
    (ids : gset str) (out : ProbeCycleOutcome) : gmap str BackendHealthEntry * gset str * ProbeCycleOutcome :=
  match backends with
  | [] => (m, ids, out)
  | b :: backends =>
      if pb_agent_scoped_oauth b then probe_backends threshold_k now backends m ids out
      else
        let id := ib_backend_id (pb_backend b) in
        let '(event, error_text) := probe_event (pb_result b) in
        let previous := get_model m id in
        let next := step_backend previous event threshold_k in
        let veto_flipped := negb (Bool.eqb (blocks_routing previous.1) (blocks_routing next.1)) in
        let promotes := match event with ProbeSuccess => str_eqb (ib_probe_status (pb_backend b)) UNKNOWN_PROBE_STATUS | ProbeFail => false end in
        let out := {| po_flipped := po_flipped out ++ (if veto_flipped then [id] else []);
                      po_promotable := po_promotable out ++ (if promotes then [id] else []) |} in
        probe_backends threshold_k now backends (<[id := mkEntry next.1 next.2 now error_text]> m) ({[ id ]} ∪ ids) out
  end.
Definition probe_backends_cycle (threshold_k now : Z) (backends : list Probed) (m : gmap str BackendHealthEntry)
    : gmap str BackendHealthEntry * ProbeCycleOutcome :=
  let '(m, ids, out) := probe_backends threshold_k now backends m ∅ (mkOutcome [] []) in
  (retain_backends ids m, out).
(** A cycle of the prober: without a list nothing is measured; each promotion writes
    the shared document, a failed write is only logged.  The writes are returned. *)
Definition run_backend_probe_cycle (threshold_k now : Z) (backends : option (list Probed)) (m : gmap str BackendHealthEntry)
    : gmap str BackendHealthEntry * ProbeCycleOutcome * list (str * str) :=
  match backends with
  | None => (m, mkOutcome [] [], [])
  | Some backends => let '(m, out) := probe_backends_cycle threshold_k now backends m in
                     (m, out, (λ id, (id, lit "healthy")) <$> po_promotable out)
  end.

(** ** The measured state *)

(** The failures since the last success, and the state they mean. *)
Fixpoint failures (events : list ProbeEvent) (n : Z) : Z :=
  match events with [] => n | ProbeSuccess :: events => failures events 0 | ProbeFail :: events => failures events (n + 1) end.
Definition measured (events : list ProbeEvent) (threshold_k : Z) : BackendHealthState * Z :=
  foldl (λ s e, step_backend s e threshold_k) (HS_Unknown, 0) events.
Lemma failures_nonneg events : ∀ n, 0 <= n -> 0 <= failures events n.
Proof. induction events as [|[] events IH]; intros n Hn; cbn [failures]; [done|apply IH; lia|apply IH; lia]. Qed.
Lemma failures_snoc events e n : failures (events ++ [e]) n = match e with ProbeSuccess => 0 | ProbeFail => failures events n + 1 end.
Proof. revert n. induction events as [|[] events IH]; intros n; cbn [failures app]; [by destruct e|apply IH|apply IH]. Qed.
(** The state of a threshold of one or more and a count of failures. *)
Definition state_of (events : list ProbeEvent) (k : Z) : BackendHealthState :=
  match list.last events with
  | None => HS_Unknown
  | Some ProbeSuccess => HS_Healthy
  | Some ProbeFail => if Z.max k 1 <=? failures events 0 then HS_Unhealthy else HS_Degraded
  end.
Lemma measured_spec events k : k <= u32_max -> measured events k = (state_of events k, Z.min u32_max (failures events 0)).
Proof.
  intros Hk. induction events as [|e events IH] using rev_ind; [done|]. unfold measured in *. rewrite foldl_app. cbn [foldl]. rewrite IH.
  unfold state_of. rewrite last_snoc, failures_snoc. destruct e; cbn [step_backend]; [done|].
  pose proof (failures_nonneg events 0 ltac:(lia)) as Hn. unfold saturating_add. cbn [snd].
  assert (Hsat : Z.min u32_max (Z.min u32_max (failures events 0) + 1) = Z.min u32_max (failures events 0 + 1)) by lia.
  rewrite Hsat. assert (Hle : (Z.max k 1 <=? Z.min u32_max (failures events 0 + 1)) = (Z.max k 1 <=? failures events 0 + 1)).
  { apply eq_bool_prop_intro. rewrite !Is_true_true, !Z.leb_le. unfold u32_max in *. lia. }
  rewrite Hle. by case_match.
Qed.

(** ** Cycles *)

(** The probe of a backend in a cycle, and its probes since it was last absent. *)
Definition event_in (id : str) (backends : list Probed) : option ProbeEvent :=
  (λ b, fst (probe_event (pb_result b))) <$>
    List.find (λ b, negb (pb_agent_scoped_oauth b) && str_eqb (ib_backend_id (pb_backend b)) id) backends.
Definition extend_history (id : str) (h : list ProbeEvent) (cycle : option (list Probed)) : list ProbeEvent :=
  match cycle with
  | None => h
  | Some backends => match event_in id backends with Some e => h ++ [e] | None => [] end
  end.
Definition history (id : str) (cycles : list (option (list Probed))) : list ProbeEvent := foldl (extend_history id) [] cycles.
Definition run_cycles (threshold_k : Z) (cycles : list (option (list Probed))) (m : gmap str BackendHealthEntry) : gmap str BackendHealthEntry :=
  foldl (λ m c, (run_backend_probe_cycle threshold_k 0 c m).1.1) m cycles.
Definition backend_ids (backends : list Probed) : list str := (λ b, ib_backend_id (pb_backend b)) <$> backends.

Lemma event_in_None id backends : id ∉ backend_ids backends -> event_in id backends = None.
Proof.
  unfold event_in, backend_ids. induction backends as [|b backends IH]; intros Hn; [done|]. cbn [fmap list_fmap] in Hn.
  apply not_elem_of_cons in Hn as [Hne Hn]. cbn [List.find]. destruct (negb _ && str_eqb _ id) eqn:E; [|by apply IH].
  apply andb_true_iff in E as [_ E%str_eqb_true]. congruence.
Qed.
Lemma probe_backends_spec k now backends : ∀ m ids out, NoDup (backend_ids backends) ->
  let '(m', ids', out') := probe_backends k now backends m ids out in
  ∀ id, match event_in id backends with
        | Some e => get_model m' id = step_backend (get_model m id) e k ∧ is_Some (m' !! id) ∧ id ∈ ids'
                    ∧ (id ∈ po_flipped out' <-> id ∈ po_flipped out ∨ blocks_routing (get_model m id).1 <> blocks_routing (get_model m' id).1)
        | None => m' !! id = m !! id ∧ (id ∈ ids' <-> id ∈ ids) ∧ (id ∈ po_flipped out' <-> id ∈ po_flipped out)
        end.
Proof.
  induction backends as [|b backends IH]; intros m ids out Hn; cbn [probe_backends]; [done|].
  cbn [backend_ids fmap list_fmap] in Hn. apply list.NoDup_cons in Hn as [Hnot Hn].
  unfold event_in. cbn [List.find]. destruct (pb_agent_scoped_oauth b); cbn [negb andb].
  { specialize (IH m ids out Hn). destruct (probe_backends _ _ _ _ _ _) as [[m' ids'] out']. exact IH. }
  destruct (probe_event (pb_result b)) as [event error] eqn:He. cbn zeta. set (bid := ib_backend_id (pb_backend b)) in *.
  set (next := step_backend (get_model m bid) event k). set (m1 := <[bid := _]> m). set (o1 := {| po_flipped := _; po_promotable := _ |}).
  specialize (IH m1 ({[ bid ]} ∪ ids) o1 Hn). destruct (probe_backends _ _ _ _ _ _) as [[m' ids'] out'].
  intros id. specialize (IH id). destruct (str_eqb bid id) eqn:Hid.
  - apply str_eqb_true in Hid. subst id. rewrite (event_in_None bid backends Hnot) in IH. destruct IH as (Hm & Hids & Hf).
    cbn [fmap option_fmap option_map]. rewrite He. cbn [fst].
    assert (Hg : get_model m' bid = next).
    { unfold get_model at 1. rewrite Hm. unfold m1. rewrite lookup_insert_eq. by destruct next. }
    split_and!; [exact Hg|rewrite Hm; unfold m1; rewrite lookup_insert_eq; by eexists|set_solver|].
    rewrite Hf, Hg. unfold o1. cbn [po_flipped]. fold next. destruct (blocks_routing (get_model m bid).1), (blocks_routing next.1); cbn; set_solver.
  - assert (Hne : bid <> id) by (intros Heq; by rewrite Heq, str_eqb_refl in Hid).
    change (List.find _ backends) with (List.find (λ b, negb (pb_agent_scoped_oauth b) && str_eqb (ib_backend_id (pb_backend b)) id) backends).
    fold (event_in id backends). assert (Hgm : get_model m1 id = get_model m id) by (unfold get_model, m1; by rewrite lookup_insert_ne).
    assert (Hfl : id ∈ po_flipped o1 <-> id ∈ po_flipped out) by (unfold o1; cbn; destruct (negb _); set_solver).
    destruct (event_in id backends) as [e|].
    + rewrite Hgm, Hfl in IH. exact IH.
    + destruct IH as (Hm & Hids & Hf). split_and!; [rewrite Hm; unfold m1; by rewrite lookup_insert_ne|set_solver|by rewrite Hf].
Qed.
Lemma cycle_spec k now backends m : NoDup (backend_ids backends) -> let '(m', out) := probe_backends_cycle k now backends m in
  ∀ id, match event_in id backends with
        | Some e => get_model m' id = step_backend (get_model m id) e k
        | None => m' !! id = None
        end
        ∧ (id ∈ po_flipped out <-> is_Some (event_in id backends) ∧ measured_blocks_routing m id <> measured_blocks_routing m' id).
Proof.
  intros Hn. unfold probe_backends_cycle. pose proof (probe_backends_spec k now backends m ∅ (mkOutcome [] []) Hn) as Hs.
  destruct (probe_backends _ _ _ _ _ _) as [[m1 ids] out]. intros id. specialize (Hs id).
  assert (Hb : ∀ m0 : gmap str BackendHealthEntry, measured_blocks_routing m0 id = blocks_routing (get_model m0 id).1)
    by (intros m0; unfold measured_blocks_routing, get_model; by destruct (m0 !! id)).
  assert (Hret : retain_backends ids m1 !! id = if decide (id ∈ ids) then m1 !! id else None).
  { unfold retain_backends. rewrite map_lookup_filter. destruct (m1 !! id); [|by case_decide]. cbn.
    case_decide; [by rewrite option_guard_True|by rewrite option_guard_False]. }
  destruct (event_in id backends) as [e|].
  - destruct Hs as (Hg & _ & Hin & Hf). rewrite decide_True in Hret by done.
    assert (Hg' : get_model (retain_backends ids m1) id = get_model m1 id) by (unfold get_model; by rewrite Hret).
    rewrite !Hb, Hg'. split; [done|]. rewrite Hf. cbn. set_solver.
  - destruct Hs as (_ & Hin & Hf). rewrite decide_False in Hret by set_solver. split; [done|]. rewrite Hf. cbn. set_solver.
Qed.
Lemma cycles_model k cycles : k <= u32_max -> Forall (λ c, match c with Some backends => NoDup (backend_ids backends) | None => True end) cycles ->
  ∀ id, get_model (run_cycles k cycles ∅) id = measured (history id cycles) k.
Proof.
  intros Hk. induction cycles as [|c cycles IH] using rev_ind; intros Hall id; [done|].
  apply Forall_app in Hall as [Hall Hc%Forall_inv]. specialize (IH Hall). unfold run_cycles, history in *. rewrite !foldl_app. cbn [foldl].
  destruct c as [backends|]; cbn [run_backend_probe_cycle extend_history fst]; [|apply IH].
  pose proof (cycle_spec k 0 backends (foldl (λ m c, (run_backend_probe_cycle k 0 c m).1.1) ∅ cycles) Hc) as Hs.
  destruct (probe_backends_cycle _ _ _ _) as [m' out]. cbn [fst]. destruct (Hs id) as [Hm _]. destruct (event_in id backends) as [e|].
  - rewrite Hm, IH. unfold measured. by rewrite foldl_app.
  - unfold get_model. by rewrite Hm.
Qed.

(** C32. The prober vetoes a backend exactly when its last [max k 1] probes in a row
    failed, counted since it was last missing from the list; a cycle that cannot list
    the backends changes nothing; a success clears the veto.  The count of failures
    stops at the width of the counter without clearing the veto. *)
Theorem a_veto_is_k_failures_in_a_row k cycles id : 0 <= k <= u32_max ->
  Forall (λ c, match c with Some backends => NoDup (backend_ids backends) | None => True end) cycles ->
  let m := run_cycles k cycles ∅ in
  (measured_blocks_routing m id = true <-> Z.max k 1 <= failures (history id cycles) 0)
  ∧ (get_model m id).2 = Z.min u32_max (failures (history id cycles) 0).
Proof.
  intros Hk Hall. cbn zeta. pose proof (cycles_model k cycles ltac:(lia) Hall id) as Hm. rewrite measured_spec in Hm by lia.
  rewrite Hm. split; [|done].
  assert (Hb : measured_blocks_routing (run_cycles k cycles ∅) id = blocks_routing (get_model (run_cycles k cycles ∅) id).1)
    by (unfold measured_blocks_routing, get_model; by destruct (run_cycles k cycles ∅ !! id)).
  rewrite Hb, Hm. cbn [fst]. unfold state_of. destruct (history id cycles) as [|e h _] using rev_ind; [cbn; lia|].
  rewrite last_snoc, failures_snoc. destruct e; cbn; [lia|]. destruct (Z.leb_spec (Z.max k 1) (failures h 0 + 1)); cbn; split; (lia || done).
Qed.

(** ** Admission *)

Lemma vetoed_spec m id : id ∈ vetoed_backend_ids m <-> measured_blocks_routing m id = true.
Proof.
  unfold vetoed_backend_ids, measured_blocks_routing. rewrite list_elem_of_fmap. split.
  - intros ([i e] & -> & Hin). apply elem_of_map_to_list, map_lookup_filter_Some in Hin as [Hi Hb]. cbn [fst]. rewrite Hi. exact Hb.
  - destruct (m !! id) as [e|] eqn:Hm; [|done]. intros Hb. exists (id, e). split; [done|]. by apply elem_of_map_to_list, map_lookup_filter_Some.
Qed.
(** A vetoed backend is not available, whatever its document says. *)
Lemma vetoed_is_unavailable m backends configs c id : measured_blocks_routing m id = true ->
  backend_admission_configs_from_backends backends (vetoed_backend_ids m) = Ok configs -> configs !! id = Some c -> is_available c = false.
Proof.
  intros Hb. unfold backend_admission_configs_from_backends.
  assert (Hgen : ∀ bs cs, (∀ c, cs !! id = Some c -> is_available c = false) -> configs_from bs (vetoed_backend_ids m) cs = Ok configs ->
    ∀ c, configs !! id = Some c -> is_available c = false); [|intros Hc Hl; by eapply (Hgen backends ∅)].
  induction bs as [|b bs IH]; intros cs Hcs; cbn [configs_from]; [by intros [= <-]|].
  destruct (from_backend b) as [config|]; [|done]. apply IH. intros c0 [[Hid <-]|[_ Hc0]]%lookup_insert_Some; [|by apply Hcs].
  assert (Hv : existsb (str_eqb (ib_backend_id b)) (vetoed_backend_ids m) = true).
  { apply existsb_exists. exists id. split; [apply list_elem_of_In; by apply vetoed_spec|by apply str_eqb_true]. }
  rewrite Hv. unfold is_available, availability, with_measured_unhealthy. cbn. by repeat case_match.
Qed.

(** ** Instances *)

Definition probed (id : string) (r : ProbeResult) : Probed :=
  mkProbed {| ib_backend_id := lit id; ib_max_concurrent := 1; ib_max_queue_depth := 1; ib_enabled := true;
              ib_probe_status := HEALTHY_PROBE_STATUS; ib_debug := [] |} false r.
Definition outage : list (option (list Probed)) :=
  [Some [probed "a" PB_TimedOut]; None; Some [probed "a" (PB_Error [])]; Some [probed "a" (PB_KeyError [])]].
Lemma a_veto_is_k_failures_in_a_row_witness :
  measured_blocks_routing (run_cycles 3 outage ∅) (lit "a") = true ∧ measured_blocks_routing (run_cycles 4 outage ∅) (lit "a") = false.
Proof.
  assert (Hall : Forall (λ c, match c with Some backends => NoDup (backend_ids backends) | None => True end) outage)
    by (repeat constructor; set_solver).
  split.
  - apply (a_veto_is_k_failures_in_a_row 3 outage (lit "a") ltac:(unfold u32_max; lia) Hall). vm_compute. discriminate.
  - vm_compute. reflexivity.
Defined.
(** A vetoed backend that leaves the list and comes back starts afresh. *)
Example veto_is_forgotten_with_the_backend :
  measured_blocks_routing (run_cycles 1 [Some [probed "a" PB_TimedOut]; Some []] ∅) (lit "a") = false.
Proof. vm_compute. reflexivity. Qed.
