(* ===== verification/Points.v ===== *)
(** * Operations between the writes of others

    An operation on the document store is a sequence of points.  At each point others
    write first; a query then reads or fails, a mutation commits, is refused, or takes
    effect although its caller is told that it failed, and is repeated while the store
    reports a transaction conflict.  The clock and the identifier of a created document
    belong to the point.  [Goals] and [RequestQueue] run over their collections in this
    way. *)

From S2P Require Import Prelude RustStr Errors Retry Store ExecutionLease Lifecycle.
Open Scope Z_scope.

Record Point (W : Type) : Type := mkPoint {
  pt_others : W → W; pt_fault : option Error; pt_commit : CommitResult; pt_now : Z; pt_fresh : str; pt_uuid : str }.
Arguments mkPoint {W} _ _ _ _ _ _.
Arguments pt_others {W} _ _.
Arguments pt_fault {W} _.
Arguments pt_commit {W} _.
Arguments pt_now {W} _.
Arguments pt_fresh {W} _.
Arguments pt_uuid {W} _.
Definition PM (W A : Type) : Type := (nat → Point W) → nat → W → result Error A * nat * W.

Section points.
Context {W : Type}.
#[global] Instance PM_ret : MRet (PM W) := λ A a _ n w, (Ok a, n, w).
#[global] Instance PM_bind : MBind (PM W) := λ A B k m env n w,
  match m env n w with (Ok a, n, w) => k a env n w | (Err e, n, w) => (Err e, n, w) end.
Definition gm_fail {A} (e : Error) : PM W A := λ _ n w, (Err e, n, w).
Definition gm_lift {A} (r : result Error A) : PM W A := λ _ n w, (r, n, w).
Definition gm_now : PM W Z := λ env n w, (Ok (pt_now (env n)), n, w).
Definition gm_uuid : PM W str := λ env n w, (Ok (pt_uuid (env n)), n, w).
Definition gm_query {A} (q : W → A) : PM W A := λ env n w,
  let w := pt_others (env n) w in
  match pt_fault (env n) with Some e => (Err e, S n, w) | None => (Ok (q w), S n, w) end.
Fixpoint gm_retry {A} (retryable : Error → bool) (budget : nat) (step : str → W → result Error A * W) : PM W A := λ env n w,
  let w := pt_others (env n) w in
  let again e w := match budget with
                   | O => (Err e, S n, w)
                   | S budget => if retryable e then gm_retry retryable budget step env (S n) w else (Err e, S n, w)
                   end in
  match pt_commit (env n) with
  | Committed => let '(r, w') := step (pt_fresh (env n)) w in (r, S n, w')
  | Refused e => again e w
  | Ambiguous e => again e (snd (step (pt_fresh (env n)) w))
  end.
Definition conflict_retryable (e : Error) : bool := is_defradb_transaction_conflict_text (error_to_string e).
(** A mutation, repeated while the store reports a transaction conflict. *)
Definition gm_mutate {A} (budget : nat) (step : str → W → result Error A * W) : PM W A := gm_retry conflict_retryable budget step.
(** Look at the outcome of [m]. *)
Definition gm_try {A} (m : PM W A) : PM W (result Error A) := λ env n w, let '(r, n, w) := m env n w in (Ok r, n, w).

(** A transaction reads a snapshot and writes when it commits.  Others write in between:
    the commit conflicts when a document it has read was changed, a new document it
    would have read goes unnoticed, and the unique indexes are checked on what is
    there.  A fault of the first point is that of its begin, which is not retried, one
    of the second that of a statement. *)
Record Transaction (A : Type) : Type := mkTransaction { tx_result : A; tx_reads : W → bool; tx_writes : W → result Error W }.
Fixpoint gm_transaction {A} (retryable : Error → bool) (budget : nat) (body : Point W → W → result Error (Transaction A)) : PM W A := λ env n w,
  let w := pt_others (env n) w in
  let again e n w := match budget with
                     | O => (Err e, n, w)
                     | S budget => if retryable e then gm_transaction retryable budget body env n w else (Err e, n, w)
                     end in
  match pt_fault (env n) with
  | Some e => (Err e, S n, w)
  | None =>
      match body (env n) w with
      | Err e => again e (S n) w
      | Ok tx =>
          let w := pt_others (env (S n)) w in
          match pt_fault (env (S n)) with
          | Some e => again e (S (S n)) w
          | None =>
              match (if tx_reads _ tx w then tx_writes _ tx w else Err (Msg (lit "transaction conflict. Please retry"))) with
              | Err e => again e (S (S n)) w
              | Ok w' =>
                  match pt_commit (env (S n)) with
                  | Committed => (Ok (tx_result _ tx), S (S n), w')
                  | Refused e => again e (S (S n)) w
                  | Ambiguous e => again e (S (S n)) w'
                  end
              end
          end
      end
  end.

(** ** Undisturbed operations: nobody else writes, nothing fails *)

Definition quiet (env : nat → Point W) : Prop := ∀ n, (∀ w, pt_others (env n) w = w) ∧ pt_fault (env n) = None ∧ pt_commit (env n) = Committed.
Lemma quiet_query {A} env (q : W → A) n w : quiet env -> gm_query q env n w = (Ok (q w), S n, w).
Proof. intros Hq. destruct (Hq n) as (Ho & Hf & _). unfold gm_query. by rewrite Ho, Hf. Qed.
Lemma quiet_retry {A} env retryable budget (step : str → W → result Error A * W) n w : quiet env ->
  gm_retry retryable budget step env n w = ((step (pt_fresh (env n)) w).1, S n, (step (pt_fresh (env n)) w).2).
Proof. intros Hq. destruct (Hq n) as (Ho & _ & Hc). destruct budget; cbn; rewrite Ho, Hc; by destruct (step _ w). Qed.
Lemma quiet_mutate {A} env budget (step : str → W → result Error A * W) n w : quiet env ->
  gm_mutate budget step env n w = ((step (pt_fresh (env n)) w).1, S n, (step (pt_fresh (env n)) w).2).
Proof. apply quiet_retry. Qed.
Lemma bind_ok {A B} (m : PM W A) (k : A → PM W B) env n w a n' w' : m env n w = (Ok a, n', w') -> (m ≫= k) env n w = k a env n' w'.
Proof. unfold mbind, PM_bind. by intros ->. Qed.
Lemma bind_err {A B} (m : PM W A) (k : A → PM W B) env n w e n' w' : m env n w = (Err e, n', w') -> (m ≫= k) env n w = (Err e, n', w').
Proof. unfold mbind, PM_bind. by intros ->. Qed.
Lemma query_bind {A B} env (q : W → A) (k : A → PM W B) n w : quiet env -> (gm_query q ≫= k) env n w = k (q w) env (S n) w.
Proof. intros Hq. by rewrite (bind_ok _ _ _ _ _ _ _ _ (quiet_query env q n w Hq)). Qed.
Lemma quiet_transaction {A} env retryable budget (body : Point W → W → result Error (Transaction A)) n w tx w' : quiet env ->
  body (env n) w = Ok tx -> tx_reads _ tx w = true -> tx_writes _ tx w = Ok w' ->
  gm_transaction retryable budget body env n w = (Ok (tx_result _ tx), S (S n), w').
Proof.
  intros Hq Hb Hr Hw. destruct (Hq n) as (Ho & Hf & _). destruct (Hq (S n)) as (Ho' & Hf' & Hc').
  destruct budget; cbn [gm_transaction]; by rewrite Ho, Hf, Hb, Ho', Hf', Hr, Hw, Hc'.
Qed.
(** What a transaction that succeeds has done: a body that ran on a snapshot, whose reads
    held and whose writes were taken when it committed. *)
Lemma transaction_committed {A} retryable (body : Point W → W → result Error (Transaction A)) budget : ∀ env n w a n' w',
  gm_transaction retryable budget body env n w = (Ok a, n', w') ->
  ∃ point snapshot current tx, body point snapshot = Ok tx ∧ tx_reads _ tx current = true ∧ tx_writes _ tx current = Ok w' ∧ a = tx_result _ tx.
Proof.
  induction budget as [|budget IH]; intros env n w a n' w'; cbn [gm_transaction]; intros Hrun; repeat case_match; simplify_eq;
    solve [by eapply IH | by eexists _, _, _, _].
Qed.
End points.
Arguments Transaction : clear implicits.

(** ** Operations under a rely

    [R] says how the others move the store.  [moves]: the operation moves it the same
    way, whatever it meets and however it ends.  [runs]: when it succeeds from a store
    that has [K], its result and the store have [Q]. *)

Section rely.
Context {W : Type} (R : W → W → Prop) `{HR : !PreOrder R}.
Definition respects (env : nat → Point W) : Prop := ∀ n w, R w (pt_others (env n) w).
Definition stable (K : W → Prop) : Prop := ∀ w w', R w w' -> K w -> K w'.
Definition moves {A} (m : PM W A) : Prop := ∀ env n w r n' w', respects env -> m env n w = (r, n', w') -> R w w'.
Definition runs {A} (K : W → Prop) (m : PM W A) (Q : A → W → Prop) : Prop := ∀ env n w a n' w',
  respects env -> K w -> m env n w = (Ok a, n', w') -> Q a w'.

Lemma moves_ret {A} (a : A) : moves (mret a).
Proof. intros env n w r n' w' _ [= <- <- <-]. reflexivity. Qed.
Lemma moves_fail {A} e : moves (gm_fail (A := A) e).
Proof. intros env n w r n' w' _ [= <- <- <-]. reflexivity. Qed.
Lemma moves_lift {A} (x : result Error A) : moves (gm_lift x).
Proof. intros env n w r n' w' _ [= <- <- <-]. reflexivity. Qed.
Lemma moves_now : moves gm_now.
Proof. intros env n w r n' w' _ [= <- <- <-]. reflexivity. Qed.
Lemma moves_uuid : moves gm_uuid.
Proof. intros env n w r n' w' _ [= <- <- <-]. reflexivity. Qed.
Lemma moves_bind {A B} (m : PM W A) (k : A → PM W B) : moves m -> (∀ a, moves (k a)) -> moves (m ≫= k).
Proof.
  intros Hm Hk env n w r n' w' He. unfold mbind, PM_bind. destruct (m env n w) as [[[a|e] n1] w1] eqn:E.
  - intros Hr. transitivity w1; [by eapply Hm|by eapply Hk].
  - intros [= <- <- <-]. by eapply Hm.
Qed.
Lemma moves_try {A} (m : PM W A) : moves m -> moves (gm_try m).
Proof. intros Hm env n w r n' w' He. unfold gm_try. destruct (m env n w) as [[x n1] w1] eqn:E. intros [= <- <- <-]. by eapply Hm. Qed.
Lemma moves_query {A} (q : W → A) : moves (gm_query q).
Proof. intros env n w r n' w' He. unfold gm_query. case_match; intros [= <- <- <-]; apply He. Qed.
Lemma moves_retry {A} retryable budget (step : str → W → result Error A * W) : (∀ id w, R w (step id w).2) -> moves (gm_retry retryable budget step).
Proof.
  intros Hs. induction budget as [|budget IH]; intros env n w r n' w' He; cbn; pose proof (He n w) as Ho; pose proof (Hs (pt_fresh (env n)) (pt_others (env n) w)) as Hp;
    destruct (pt_commit (env n)); repeat case_match; intros Hr; simplify_eq/=; try done; try (etransitivity; [exact Ho|exact Hp]);
    (etransitivity; [|by eapply IH]); first [exact Ho|etransitivity; [exact Ho|exact Hp]].
Qed.
Ltac moves_again := repeat case_match; try (intros [= <- <- <-]; done);
  match goal with IH : moves _ |- _ => intros Hr; (etransitivity; [|by eapply IH]); done end.
Lemma moves_transaction {A} retryable budget (body : Point W → W → result Error (Transaction W A)) :
  (∀ p snapshot current tx w', body p snapshot = Ok tx -> tx_reads _ tx current = true -> tx_writes _ tx current = Ok w' -> R current w') ->
  moves (gm_transaction retryable budget body).
Proof.
  intros Hb. induction budget as [|budget IH]; intros env n w r n' w' He; cbn [gm_transaction];
    assert (H1 := He n w); assert (H2 : R w (pt_others (env (S n)) (pt_others (env n) w))) by (etransitivity; apply He);
    (destruct (pt_fault (env n)); [by intros [= <- <- <-]|]);
    (destruct (body _ _) as [tx|e] eqn:Eb; [|by moves_again]);
    (destruct (pt_fault (env (S n))); [by moves_again|]); (destruct (tx_reads _ tx _) eqn:Er; [|by moves_again]);
    (destruct (tx_writes _ tx _) as [w1|e] eqn:Ew; [|by moves_again]);
    (assert (H3 : R w w1) by (etransitivity; [exact H2|by eapply Hb])); destruct (pt_commit (env (S n))); by moves_again.
Qed.

Lemma runs_ret {A} (K : W → Prop) (a : A) Q : (∀ w, K w -> Q a w) -> runs K (mret a) Q.
Proof. intros Hq env n w a' n' w' _ HK [= <- <- <-]. by apply Hq. Qed.
Lemma runs_fail {A} K e (Q : A → W → Prop) : runs K (gm_fail e) Q.
Proof. by intros env n w a' n' w' _ HK [=]. Qed.
Lemma runs_lift {A} (K : W → Prop) (x : result Error A) Q : (∀ a w, x = Ok a -> K w -> Q a w) -> runs K (gm_lift x) Q.
Proof. intros Hq env n w a' n' w' _ HK [= Hx <- <-]. by apply Hq. Qed.
Lemma runs_bind {A B} K (m : PM W A) P (k : A → PM W B) Q : runs K m P -> (∀ a, runs (P a) (k a) Q) -> runs K (m ≫= k) Q.
Proof.
  intros Hm Hk env n w b n' w' He HK. unfold mbind, PM_bind. destruct (m env n w) as [[[a|e] n1] w1] eqn:E; [|done]. intros Hr.
  eapply Hk; [done| |exact Hr]. by eapply Hm.
Qed.
Lemma runs_weaken {A} (K K' : W → Prop) (m : PM W A) (Q Q' : A → W → Prop) : (∀ w, K' w -> K w) -> (∀ a w, Q a w -> Q' a w) -> runs K m Q -> runs K' m Q'.
Proof. intros HK HQ Hm env n w a n' w' He Hw Hr. by eapply HQ, Hm; [|apply HK|]. Qed.
Lemma runs_query {A} K (q : W → A) (Q : A → W → Prop) : stable K -> (∀ w, K w -> Q (q w) w) -> runs K (gm_query q) Q.
Proof.
  intros HS HQ env n w a n' w' He HK. unfold gm_query. case_match; [done|]. intros [= <- <- <-]. apply HQ. by apply (HS w), HK.
Qed.
(** What stays true along the way. *)
Lemma runs_frame {A} (K : W → Prop) (m : PM W A) : stable K -> moves m -> runs K m (λ _, K).
Proof. intros HS Hm env n w a n' w' He HK Hr. apply (HS w); [by eapply Hm|exact HK]. Qed.
Lemma runs_and {A} (K K' : W → Prop) (m : PM W A) Q Q' : runs K m Q -> runs K' m Q' -> runs (λ w, K w ∧ K' w) m (λ a w, Q a w ∧ Q' a w).
Proof. intros H1 H2 env n w a n' w' He [HK HK'] Hr. split; [by eapply H1|by eapply H2]. Qed.
(** A stable fact comes along. *)
Lemma runs_keep {A} (K : W → Prop) (m : PM W A) Q : stable K -> moves m -> runs K m Q -> runs K m (λ a w, K w ∧ Q a w).
Proof. intros HS Hm HQ env n w a n' w' He HK Hr. split; [apply (HS w); [by eapply Hm|exact HK]|by eapply HQ]. Qed.
Lemma runs_from {A} (K K' : W → Prop) (m : PM W A) Q : (∀ w, K' w -> K w) -> runs K m Q -> runs K' m Q.
Proof. intros HK Hm env n w a n' w' He Hw Hr. by eapply Hm; [|apply HK|]. Qed.
Lemma runs_retry {A} (K : W → Prop) retryable budget (step : str → W → result Error A * W) Q : stable K -> (∀ id w, R w (step id w).2) ->
  (∀ id w a, K w -> (step id w).1 = Ok a -> Q a (step id w).2) -> runs K (gm_retry retryable budget step) Q.
Proof.
  intros HS Hm HQ. induction budget as [|budget IH]; intros env n w a n' w' He HK; cbn;
    assert (HK1 : K (pt_others (env n) w)) by (eapply HS; [apply He|done]);
    assert (HK2 : K (step (pt_fresh (env n)) (pt_others (env n) w)).2) by (eapply HS; [apply Hm|done]);
    pose proof (HQ (pt_fresh (env n)) (pt_others (env n) w)) as Hd; destruct (pt_commit (env n)); try done.
  all: try (destruct (step _ _) as [r w1]; intros [= -> <- <-]; by apply Hd).
  all: case_match; try done; by apply IH.
Qed.
Ltac runs_again := repeat case_match; try done; match goal with IH : runs _ _ _ |- _ => by apply IH end.
Lemma runs_transaction {A} (K : W → Prop) retryable budget (body : Point W → W → result Error (Transaction W A)) Q : stable K ->
  (∀ p snapshot current tx w', body p snapshot = Ok tx -> tx_reads _ tx current = true -> tx_writes _ tx current = Ok w' -> R current w') ->
  (∀ p snapshot current tx w', K snapshot -> K current -> body p snapshot = Ok tx -> tx_reads _ tx current = true -> tx_writes _ tx current = Ok w' -> Q (tx_result _ tx) w') ->
  runs K (gm_transaction retryable budget body) Q.
Proof.
  intros HS Hm HQ. induction budget as [|budget IH]; intros env n w a n' w' He HK; cbn [gm_transaction];
    assert (HK1 : K (pt_others (env n) w)) by (eapply HS; [apply He|done]);
    assert (HK2 : K (pt_others (env (S n)) (pt_others (env n) w))) by (eapply HS; [apply He|done]);
    (destruct (pt_fault (env n)); [done|]); (destruct (body _ _) as [tx|e] eqn:Eb; [|by runs_again]);
    (destruct (pt_fault (env (S n))); [by runs_again|]); (destruct (tx_reads _ tx _) eqn:Er; [|by runs_again]);
    (destruct (tx_writes _ tx _) as [w1|e] eqn:Ew; [|by runs_again]);
    (assert (HK3 : K w1) by (eapply HS; [by eapply Hm|done])); (destruct (pt_commit (env (S n))); [intros [= <- <- <-]; exact (HQ _ _ _ _ _ HK1 HK2 Eb Er Ew)| |]); by runs_again.
Qed.
End rely.
Create HintDb points discriminated.
#[export] Hint Resolve moves_ret moves_fail moves_lift moves_now moves_uuid moves_query moves_try : points.
(** Split an operation at its binds and branches; what is left moves the store. *)
Ltac moving := intros; repeat first [solve [eauto with points typeclass_instances] | apply moves_bind; [apply _| |intros ?] | case_match].
