(* ===== verification/RequestQueue.v ===== *)
(** * The queue of a session

    [lifecycle/queue]: requests that wait behind the running one of their session, how
    requests with one key coalesce, and how a notification or a steering input is bound
    to the request that will consume it.  [interrupt.rs]: the latch of an interrupt and
    the draining of the queue behind it.

    The operations run point by point between the writes of others; a transaction reads
    a snapshot and conflicts only on documents it has read ([Points]). *)

From stdpp Require Import sorting.
From S2P Require Import Prelude RustStr Errors RequestState Retry Store ExecutionLease Lifecycle ToolCall TriggerMaterializer Points.
Open Scope Z_scope.

(** ** Rows *)

(** The columns of a request that only its validation reads. *)
Record Lineage : Type := mkLineage {
  li_subagent_depth : option Z; li_parent_request_doc_id : option str; li_parent_tool_call_id : option str;
  li_parent_tool_call_doc_id : option str; li_seed : option Z; li_max_total_tokens : option Z }.
#[global] Instance Lineage_eq_dec : EqDecision Lineage.
Proof. solve_decision. Defined.
Record QueueRow : Type := mkQueueRow {
  q_row : RequestRow; q_execution_origin : option str; q_superseded_by : option (str * str); q_lineage : Lineage }.
#[global] Instance QueueRow_eq_dec : EqDecision QueueRow.
Proof. solve_decision. Defined.
Record QueueMessage : Type := mkQueueMessage {
  qg_message_key : str; qg_session_id : str; qg_agent_did : str; qg_requester_did : option str; qg_sequence : Z; qg_role : str;
  qg_content : str; qg_request_id : str; qg_request_doc_id : option str; qg_timestamp : str }.
#[global] Instance QueueMessage_eq_dec : EqDecision QueueMessage.
Proof. solve_decision. Defined.
(** The columns of a tool call that completions use. *)
Record ToolRow : Type := mkToolRow {
  tr_doc_id : str; tr_tool_call_key : str; tr_session_id : str; tr_agent_did : str; tr_request_id : str; tr_tool_call_id : str; tr_background : bool;
  tr_message_sequence : option Z; tr_status : str; tr_lifecycle_state : str; tr_delivered_at : option str }.
Record QueueWorld : Type := mkQueueWorld {
  qw_requests : list QueueRow; qw_messages : list QueueMessage; qw_tool_rows : list ToolRow; qw_conversations : list ConversationRow }.
Definition set_qw_requests (v : list QueueRow) (w : QueueWorld) : QueueWorld :=
  mkQueueWorld v (qw_messages w) (qw_tool_rows w) (qw_conversations w).
Definition set_qw_messages (v : list QueueMessage) (w : QueueWorld) : QueueWorld :=
  mkQueueWorld (qw_requests w) v (qw_tool_rows w) (qw_conversations w).
Definition set_qw_tool_rows (v : list ToolRow) (w : QueueWorld) : QueueWorld :=
  mkQueueWorld (qw_requests w) (qw_messages w) v (qw_conversations w).
Abbreviation QM := (PM QueueWorld).

Definition q_ident (r : QueueRow) : RequestIdent := r_ident (q_row r).
Definition q_pending (r : QueueRow) : bool := bool_decide (r_state (q_row r) = Some Pending).
Definition in_scope (agent_did session_id : str) (r : QueueRow) : bool :=
  opt_eqb str_eqb (ri_session_id (q_ident r)) (Some session_id) && opt_eqb str_eqb (ri_agent_did (q_ident r)) (Some agent_did).
Definition row_le (a b : QueueRow) : Prop := queue_le (q_row a) (q_row b).
#[global] Instance row_le_dec : RelDecision row_le.
Proof. intros a b. unfold row_le. apply _. Defined.
(** The pending rows of a session, the oldest first. *)
Definition pending_rows (agent_did session_id : str) (w : QueueWorld) : list QueueRow :=
  merge_sort row_le (List.filter (λ r, in_scope agent_did session_id r && q_pending r) (qw_requests w)).
Record EnqueuedAgentRequest : Type := mkEnqueued { er_doc_id : str; er_request_id : str; er_session_id : str }.
Definition queue_row_to_enqueued_request (r : QueueRow) : option EnqueuedAgentRequest :=
  session_id ← ri_session_id (q_ident r); Some (mkEnqueued (ri_doc_id (q_ident r)) (ri_request_id (q_ident r)) session_id).
Definition set_terminal (state : RequestLifecycleState) (reason now : str) (superseded_by : option (str * str)) (r : QueueRow) : QueueRow :=
  mkQueueRow (set_r_redrive (Some 0) (set_r_terminalized_at (Some now) (set_r_failure (Some reason) (set_r_state (Some state) (q_row r)))))
    (q_execution_origin r) (match superseded_by with Some s => Some s | None => q_superseded_by r end) (q_lineage r).

(** ** The parameters: [serde_json] on the metadata (typed, and the text at
    [queue.source] of its value) and on a user message, the digest of the scope of a
    queue, the signature *)

Record QueueEnv : Type := mkQueueEnv {
  qe_from_str : str → option RequestQueueMetadata; qe_to_string : RequestQueueMetadata → str;
  qe_user_message : str → str; qe_scope : list str → str; qe_sign : option Error; qe_queue_source : str → option str }.

(** Shared with the continuations of goals. *)
Definition parent_behavior_id {W} (conversations : W → list ConversationRow) (parent : RequestRow) : PM W str :=
  match nonempty_trim (ri_behavior_id (r_ident parent)) with
  | Some behavior_id => mret behavior_id
  | None =>
      rows ← gm_query (λ w, take 2 (List.filter (λ c, opt_eqb str_eqb (ri_agent_did (r_ident parent)) (Some (cv_agent_did c))
                                      && opt_eqb str_eqb (ri_session_id (r_ident parent)) (Some (cv_session_id c))) (conversations w)));
      let missing := Msg (lit "cannot enqueue same-session request: parent request " ++ ri_request_id (r_ident parent)
                          ++ lit " has no behavior_id") in
      match rows with
      | [] => gm_fail missing
      | [c] => gm_lift (ok_or missing (nonempty_trim (Some (cv_behavior_id c))))
      | _ => gm_fail (Msg (lit "parent conversation scope resolved to multiple rows"))
      end
  end.

Section queue.
Context `{Chrono} `{ChronoSecs} (qe : QueueEnv).

(** ** Coalescing *)

Definition source_eqb (a b : QueueSource) : bool :=
  match a, b with QS_User, QS_User | QS_BackgroundCompletion, QS_BackgroundCompletion | QS_Steering, QS_Steering | QS_Goal, QS_Goal => true | _, _ => false end.
Definition is_coalesce (p : QueuePolicy) : bool := match p with QP_Coalesce => true | QP_Append => false end.
Definition queue_source_and_key_match (metadata : option str) (source : QueueSource) (key : str) : bool :=
  is_some_and (λ hints, source_eqb (qh_source hints) source && is_coalesce (qh_policy hints)
    && is_some_and (λ candidate, str_eqb (trim candidate) key) (qh_key hints)) (parse_queue_hints (qe_from_str qe) metadata).
Definition coalesce_key (hints : QueueHints) : option str :=
  if is_coalesce (qh_policy hints) then opt_filter (λ k, negb (is_nil k)) (trim <$> qh_key hints) else None.
Definition queued_under (source : QueueSource) (key : str) (r : QueueRow) : bool :=
  queue_source_and_key_match (ri_metadata (q_ident r)) source key.
Definition matching_coalesced_pending_requests (session_id agent_did : str) (source : QueueSource) (key : str) : QM (list QueueRow) :=
  gm_query (λ w, List.filter (queued_under source key) (pending_rows agent_did session_id w)).
(** The row is still pending and its owner's. *)
Definition pending_doc (doc_id agent_did : str) (r : QueueRow) : bool :=
  str_eqb (ri_doc_id (q_ident r)) doc_id && opt_eqb str_eqb (ri_agent_did (q_ident r)) (Some agent_did) && q_pending r.
(** A terminal write is repeated whatever the error; its result is whether a row was
    returned. *)
Definition terminal_update (p : QueueRow → bool) (f : QueueRow → QueueRow) : QM bool :=
  gm_retry (λ _, true) TERMINAL_PERSISTENCE_MAX_RETRIES (λ _ w,
    (Ok (existsb p (qw_requests w)), set_qw_requests (update_where p f (qw_requests w)) w)).
Fixpoint supersede_duplicates (survivor : EnqueuedAgentRequest) (agent_did : str) (duplicates : list QueueRow) : QM unit :=
  match duplicates with
  | [] => mret tt
  | duplicate :: duplicates =>
      now ← gm_now;
      _ ← terminal_update (pending_doc (ri_doc_id (q_ident duplicate)) agent_did)
            (set_terminal Superseded (lit "coalesced into earlier queued request") (to_rfc3339 now)
               (Some (er_request_id survivor, er_doc_id survivor)));
      supersede_duplicates survivor agent_did duplicates
  end.
Definition reconcile_coalesced_pending_request (session_id agent_did : str) (source : QueueSource) (key : str) : QM (option EnqueuedAgentRequest) :=
  matching ← matching_coalesced_pending_requests session_id agent_did source key;
  match head matching ≫= queue_row_to_enqueued_request with
  | None => mret None
  | Some survivor => _ ← supersede_duplicates survivor agent_did (tail matching); mret (Some survivor)
  end.

(** ** Draining *)

Fixpoint drain_rows (agent_did reason : str) (rows : list QueueRow) (drained : Z) : QM Z :=
  match rows with
  | [] => mret drained
  | row :: rows =>
      now ← gm_now;
      won ← terminal_update (pending_doc (ri_doc_id (q_ident row)) agent_did) (set_terminal Interrupted reason (to_rfc3339 now) None);
      drain_rows agent_did reason rows (if (won : bool) then drained + 1 else drained)
  end.
Definition drain_pending_session_requests_where (session_id agent_did reason : str) (should_drain : QueueRow → bool) : QM Z :=
  rows ← gm_query (λ w, List.filter (λ r, in_scope agent_did session_id r && q_pending r) (qw_requests w));
  drain_rows agent_did reason (List.filter should_drain rows) 0.
Definition drain_automated_wakeups (session_id agent_did reason : str) : QM Z :=
  drain_pending_session_requests_where session_id agent_did reason (λ r,
    opt_eqb str_eqb (q_execution_origin r) (Some (lit "scheduled")) && is_automated_wakeup (qe_from_str qe) (ri_metadata (q_ident r))).
Definition drain_subagent_owned_queue (session_id agent_did reason : str) : QM Z :=
  drain_pending_session_requests_where session_id agent_did reason (λ r, is_subagent_owned_queue (qe_from_str qe) (ri_metadata (q_ident r))).

(** ** Requests and messages *)

Definition parent_did (parent : QueueRow) : str := unwrap_or [] (ri_agent_did (q_ident parent)).
Definition parent_session (parent : QueueRow) : str := unwrap_or [] (ri_session_id (q_ident parent)).
Definition queue_metadata_json (hints : QueueHints) : str :=
  qe_to_string qe {| qm_queue := hints;
    qm_background_completion_wake_version := if queue_hints_are_automated_wakeup hints then Some 1 else None |}.
Definition session_request_row (parent : QueueRow) (behavior_id content : str) (origin : ExecutionOrigin)
    (metadata request_id created_at : str) (retry_key : option str) : result Error QueueRow :=
  let i := q_ident parent in
  if is_nil (trim (ri_request_id i)) || is_nil (trim (ri_doc_id i))
  then Err (Msg (lit "cannot enqueue runtime control continuation from an unbound parent request"))
  else match qe_sign qe with
  | Some e => Err e
  | None => Ok (mkQueueRow
      {| r_ident := {| ri_doc_id := []; ri_request_id := request_id; ri_agent_did := ri_agent_did i; ri_requester_did := ri_agent_did i;
                       ri_behavior_id := Some behavior_id; ri_session_id := ri_session_id i; ri_created_at := Some created_at;
                       ri_metadata := Some metadata; ri_content := content; ri_trigger_id := None; ri_trigger_kind := None;
                       ri_correlation := ri_correlation i; ri_retry_key := retry_key; ri_workspace_id := None;
                       ri_parent_request_id := Some (ri_request_id i); ri_trigger_context := ri_trigger_context i |};
         r_state := Some Pending; r_generation := None; r_expiry := None; r_progress := None; r_interrupt := None; r_valid_until := None;
         r_deadline := None; r_backend := None; r_claimed_at := None; r_failure := None; r_terminalized_at := None;
         r_redrive := None; r_bg_seq := None; r_bg_keys := None |} (Some (origin_as_str origin)) None
      (mkLineage (Some (unwrap_or 0 (li_subagent_depth (q_lineage parent)))) (Some (ri_doc_id i)) None None None None))
  end.
Definition with_doc_id (id : str) (r : QueueRow) : QueueRow := mkQueueRow (set_r_doc_id id (q_row r)) (q_execution_origin r) (q_superseded_by r) (q_lineage r).
Definition unique_violation {A} : result Error A := Err (Msg (lit "unique index violation")).
(** [retry_key] and [message_key] have unique indexes. *)
Definition create_request (row : QueueRow) (w : QueueWorld) : result Error QueueWorld :=
  match ri_retry_key (q_ident row) with
  | Some key => if existsb (λ r, opt_eqb str_eqb (ri_retry_key (q_ident r)) (Some key)) (qw_requests w) then unique_violation
                else Ok (set_qw_requests (qw_requests w ++ [row]) w)
  | None => Ok (set_qw_requests (qw_requests w ++ [row]) w)
  end.
Definition create_message (m : QueueMessage) (w : QueueWorld) : result Error QueueWorld :=
  if existsb (λ m', str_eqb (qg_message_key m') (qg_message_key m)) (qw_messages w) then unique_violation
  else Ok (set_qw_messages (qw_messages w ++ [m]) w).
Definition input_message (parent : QueueRow) (sequence : Z) (content request_id doc_id message_key : str) (now : Z) : QueueMessage :=
  {| qg_message_key := message_key; qg_session_id := parent_session parent; qg_agent_did := parent_did parent;
     qg_requester_did := ri_requester_did (q_ident parent); qg_sequence := sequence; qg_role := lit "user"; qg_content := content;
     qg_request_id := request_id; qg_request_doc_id := Some doc_id; qg_timestamp := to_rfc3339 now |}.
(** [u32] arithmetic. *)
Definition as_u32 (z : Z) : Z := z mod 4294967296.
Definition reserved_sequences (session_id : str) (w : QueueWorld) : list Z :=
  omap (λ t, if str_eqb (tr_session_id t) session_id && tr_background t then opt_filter (λ s, (0 <=? s) && (s <=? u32_max)) (tr_message_sequence t) else None)
    (qw_tool_rows w).
Definition reserved_max (sequences : list Z) : Z :=
  foldr Z.max 0 ((λ s, as_u32 (s + Z.of_nat (length (List.filter (Z.eqb s) sequences)))) <$> sequences).
Definition message_max (session_id : str) (w : QueueWorld) : Z :=
  as_u32 (foldr Z.max 0 (qg_sequence <$> List.filter (λ m, str_eqb (qg_session_id m) session_id) (qw_messages w))).
Definition next_append_sequence (session_id : str) (w : QueueWorld) : Z :=
  as_u32 (Z.max (message_max session_id w) (reserved_max (reserved_sequences session_id w)) + 1).

(** ** Plain enqueue *)

Definition enqueue_session_request (parent : QueueRow) (content : str) (origin : ExecutionOrigin) (hints : QueueHints) : QM EnqueuedAgentRequest :=
  behavior_id ← parent_behavior_id qw_conversations (q_row parent);
  let reconcile key := reconcile_coalesced_pending_request (parent_session parent) (parent_did parent) (qh_source hints) key in
  existing ← match coalesce_key hints with Some key => reconcile key | None => mret None end;
  match existing with
  | Some existing => mret existing
  | None =>
      request_id ← gm_uuid;
      now ← gm_now;
      row ← gm_lift (session_request_row parent behavior_id content origin (queue_metadata_json hints) request_id (to_rfc3339_secs now) None);
      doc_id ← gm_mutate DEFRA_DB_CONFLICT_MAX_RETRIES (λ id w,
        match create_request (with_doc_id id row) w with Ok w' => (Ok id, w') | Err e => (Err e, w) end);
      let enqueued := mkEnqueued doc_id request_id (parent_session parent) in
      match coalesce_key hints with
      | None => mret enqueued
      | Some key => active ← reconcile key; mret (unwrap_or enqueued active)
      end
  end.

(** ** Steering *)

Definition steering_transaction_error_is_retryable (e : Error) : bool :=
  let text := error_to_string e in
  is_defradb_transaction_conflict_text text || contains (lit "unique") (to_ascii_lowercase text)
  || contains (lit "duplicate") (to_ascii_lowercase text).
Definition steering_transaction_attempt (parent : QueueRow) (content request_id : str) (row : QueueRow) (p : Point QueueWorld) (w : QueueWorld)
    : result Error (Transaction QueueWorld EnqueuedAgentRequest) :=
  let row := with_doc_id (pt_fresh p) row in
  let message := input_message parent (next_append_sequence (parent_session parent) w) content request_id (pt_fresh p) (steering_input_message_key request_id) (pt_now p) in
  Ok (mkTransaction _ (mkEnqueued (pt_fresh p) request_id (parent_session parent)) (λ _, true)
        (λ w', let? w' := create_request row w' in create_message message w')).
Definition enqueue_steering_request_with_message (parent : QueueRow) (content : str) (hints : QueueHints) : QM EnqueuedAgentRequest :=
  if negb (source_eqb (qh_source hints) QS_Steering && negb (is_coalesce (qh_policy hints)) && bool_decide (qh_key hints = None))
  then gm_fail (Msg (lit "atomic steering enqueue requires an unkeyed append"))
  else
  behavior_id ← parent_behavior_id qw_conversations (q_row parent);
  request_id ← gm_uuid;
  now ← gm_now;
  row ← gm_lift (session_request_row parent behavior_id content Interactive (queue_metadata_json hints) request_id (to_rfc3339_secs now) None);
  gm_transaction steering_transaction_error_is_retryable DEFRA_DB_CONFLICT_MAX_RETRIES
    (steering_transaction_attempt parent (qe_user_message qe content) request_id row).

(** ** Background completions *)

Record EnqueuedBackgroundCompletionInput : Type := mkCompletionInput {
  ei_request : EnqueuedAgentRequest; ei_message_sequence : Z; ei_created_request : bool }.
Definition queue_scope (parent : QueueRow) (queue_key : str) : str := qe_scope qe [parent_did parent; parent_session parent; queue_key].
Definition retry_key_prefix (parent : QueueRow) (queue_key : str) : str := lit "background-completion:" ++ queue_scope parent queue_key ++ lit ":".
Definition pad_generation (generation : Z) : str := replicate (20 - length (fmt_Z generation)) 48 ++ fmt_Z generation.
Definition generation_rows (parent : QueueRow) (queue_key : str) (w : QueueWorld) : list QueueRow :=
  List.filter (λ r, in_scope (parent_did parent) (parent_session parent) r
    && is_some_and (starts_with (retry_key_prefix parent queue_key)) (ri_retry_key (q_ident r))) (qw_requests w).
Definition row_generation (prefix : str) (r : QueueRow) : result Error Z :=
  let? key := ok_or (Msg (lit "background completion generation row has no retry key")) (ri_retry_key (q_ident r)) in
  let? rest := ok_or (Msg (lit "background completion generation row has the wrong scope")) (strip_prefix prefix key) in
  ok_or (Msg (lit "background completion generation row is malformed")) (parse_unsigned u64_max rest).
Fixpoint max_generation (prefix : str) (rows : list QueueRow) (current : option Z) : result Error (option Z) :=
  match rows with
  | [] => Ok current
  | r :: rows => let? generation := row_generation prefix r in
                 max_generation prefix rows (Some (match current with Some c => Z.max c generation | None => generation end))
  end.
Definition next_generation (current : option Z) : result Error Z :=
  match current with
  | None => Ok 0
  | Some g => if g + 1 <=? u64_max then Ok (g + 1) else Err (Msg (lit "background completion queue generation overflow"))
  end.
(** The notification is there: it must be the caller's, bound to a wake of this queue. *)
Definition replay_notification (parent : QueueRow) (content queue_key : str) (m : QueueMessage) (w : QueueWorld)
    : result Error (EnqueuedBackgroundCompletionInput * list QueueRow) :=
  let doc_id := unwrap_or [] (qg_request_doc_id m) in
  if negb (str_eqb (qg_session_id m) (parent_session parent) && str_eqb (qg_agent_did m) (parent_did parent)
           && str_eqb (qg_role m) (lit "user") && str_eqb (qg_content m) content && negb (is_nil (qg_request_id m)) && negb (is_nil doc_id)
           && ((0 <=? qg_sequence m) && (qg_sequence m <=? u32_max)))
  then Err (Msg (lit "background completion notification key conflicts with its persisted binding"))
  else
  match take 2 (List.filter (λ r, str_eqb (ri_doc_id (q_ident r)) doc_id) (qw_requests w)) with
  | [r] =>
      if str_eqb (ri_request_id (q_ident r)) (qg_request_id m) && in_scope (parent_did parent) (parent_session parent) r
         && queued_under QS_BackgroundCompletion queue_key r
      then Ok (mkCompletionInput (mkEnqueued doc_id (qg_request_id m) (qg_session_id m)) (qg_sequence m) false, [r])
      else Err (Msg (lit "background completion notification key references an invalid wake binding"))
  | _ => Err (Msg (lit "background completion notification key references an invalid wake binding"))
  end.
(** The documents a transaction has read are as it read them. *)
Definition reads_kept (rows : list QueueRow) (messages : list QueueMessage) (w : QueueWorld) : bool :=
  forallb (λ r, bool_decide (r ∈ qw_requests w)) rows && forallb (λ m, bool_decide (m ∈ qw_messages w)) messages.
Definition background_completion_transaction_attempt (parent : QueueRow) (content message_key queue_key behavior_id wake_content metadata : str)
    (p : Point QueueWorld) (w : QueueWorld) : result Error (Transaction QueueWorld EnqueuedBackgroundCompletionInput) :=
  let notifications := take 2 (List.filter (λ m, str_eqb (qg_message_key m) message_key) (qw_messages w)) in
  let pending := pending_rows (parent_did parent) (parent_session parent) w in
  let generations := generation_rows parent queue_key w in
  let prefix := retry_key_prefix parent queue_key in
  match notifications with
  | _ :: _ :: _ => Err (Msg (lit "background completion notification key resolved to multiple rows"))
  | [m] =>
      let? bound := replay_notification parent content queue_key m w in
      Ok (mkTransaction _ bound.1 (reads_kept (pending ++ generations ++ bound.2) [m]) Ok)
  | [] =>
      let reused := List.find (queued_under QS_BackgroundCompletion queue_key) pending ≫= queue_row_to_enqueued_request in
      let sequence := next_append_sequence (parent_session parent) w in
      let? current := max_generation prefix generations None in
      let? generation := next_generation current in
      let reads := reads_kept (pending ++ generations) [] in
      let message (request : EnqueuedAgentRequest) := input_message parent sequence content (er_request_id request) (er_doc_id request) message_key (pt_now p) in
      match reused with
      | Some request => Ok (mkTransaction _ (mkCompletionInput request sequence false) reads (create_message (message request)))
      | None =>
          let request_id := lit "background-completion-" ++ queue_scope parent queue_key ++ [45] ++ pad_generation generation in
          let? row := session_request_row parent behavior_id wake_content Scheduled metadata request_id (to_rfc3339_secs (pt_now p))
                        (Some (prefix ++ pad_generation generation)) in
          let request := mkEnqueued (pt_fresh p) request_id (parent_session parent) in
          Ok (mkTransaction _ (mkCompletionInput request sequence true) reads
                (λ w', let? w' := create_request (with_doc_id (pt_fresh p) row) w' in create_message (message request) w'))
      end
  end.
(** The calls of one node queue behind its gate, one at a time. *)
Definition enqueue_background_completion_with_message (parent : QueueRow) (content message_key wake_content : str) (hints : QueueHints)
    : QM EnqueuedBackgroundCompletionInput :=
  if negb (source_eqb (qh_source hints) QS_BackgroundCompletion && is_coalesce (qh_policy hints))
  then gm_fail (Msg (lit "atomic background completion enqueue requires coalescing background metadata"))
  else match opt_filter (λ k, negb (is_nil k)) (trim <$> qh_key hints) with
  | None => gm_fail (Msg (lit "atomic background completion enqueue requires a queue key"))
  | Some queue_key =>
      behavior_id ← parent_behavior_id qw_conversations (q_row parent);
      enqueued ← gm_transaction steering_transaction_error_is_retryable DEFRA_DB_CONFLICT_MAX_RETRIES
        (background_completion_transaction_attempt parent content message_key queue_key behavior_id wake_content (queue_metadata_json hints));
      if ei_created_request enqueued then
        active ← reconcile_coalesced_pending_request (parent_session parent) (parent_did parent) QS_BackgroundCompletion queue_key;
        let active := unwrap_or (ei_request enqueued) active in
        mret (mkCompletionInput active (ei_message_sequence enqueued) (str_eqb (er_doc_id active) (er_doc_id (ei_request enqueued))))
      else mret enqueued
  end.

(** ** Interrupts *)

Definition AUTOMATED_DRAIN_REASON : str := lit "automated wake-up drained because active request was interrupted".
Definition drain_request_queue_after_interrupt (row : QueueRow) : QM unit :=
  match opt_filter not_blank (ri_session_id (q_ident row)), opt_filter not_blank (ri_agent_did (q_ident row)) with
  | Some session_id, Some agent_did => _ ← gm_try (drain_automated_wakeups session_id agent_did AUTOMATED_DRAIN_REASON); mret tt
  | _, _ => mret tt
  end.
Definition latch (request_id now : str) (r : QueueRow) : QueueRow :=
  if str_eqb (ri_request_id (q_ident r)) request_id
  then mkQueueRow (set_r_interrupt (Some now) (q_row r)) (q_execution_origin r) (q_superseded_by r) (q_lineage r) else r.
Definition interrupt_request (request_id : str) : QM unit :=
  found ← gm_query (λ w, List.find (λ r, str_eqb (ri_request_id (q_ident r)) request_id) (qw_requests w));
  match found with
  | None => gm_fail (Msg (lit "interrupt_request: request " ++ request_id ++ lit " not found"))
  | Some row =>
      if is_some_and (λ s, negb (is_nil s)) (r_interrupt (q_row row)) then drain_request_queue_after_interrupt row
      else
      now ← gm_now;
      _ ← gm_mutate DEFRA_DB_CONFLICT_MAX_RETRIES (λ _ w, (Ok tt, set_qw_requests (latch request_id (to_rfc3339 now) <$> qw_requests w) w));
      drain_request_queue_after_interrupt row
  end.
Definition cancel_subagent_session_queue (session_id agent_did reason : str) : QM Z := drain_subagent_owned_queue session_id agent_did reason.
Definition interrupt_active_session_request (session_id : str) : QM bool :=
  active ← gm_query (λ w, head (merge_sort row_le (List.filter (λ r, opt_eqb str_eqb (ri_session_id (q_ident r)) (Some session_id)
             && match r_state (q_row r) with Some Claimed | Some Processing => true | _ => false end) (qw_requests w))));
  match active with
  | None => mret false
  | Some r => _ ← interrupt_request (ri_request_id (q_ident r)); mret true
  end.

(** ** Lemmas on rows *)

Definition waiting (agent_did session_id : str) (source : QueueSource) (key : str) (w : QueueWorld) : list QueueRow :=
  List.filter (queued_under source key) (pending_rows agent_did session_id w).
Lemma filter_perm {A} (p : A → bool) l l' : l ≡ₚ l' -> List.filter p l ≡ₚ List.filter p l'.
Proof. induction 1; cbn; repeat case_match; try done; [by constructor|by constructor|by etrans]. Qed.
Lemma filter_and {A} (p q : A → bool) l : List.filter p (List.filter q l) = List.filter (λ a, q a && p a) l.
Proof. induction l as [|a l IH]; [done|]. cbn. destruct (q a); cbn; [destruct (p a); by rewrite IH|done]. Qed.
Definition waits (agent_did session_id : str) (source : QueueSource) (key : str) (r : QueueRow) : bool :=
  in_scope agent_did session_id r && q_pending r && queued_under source key r.
Lemma waiting_perm did sid source key w : waiting did sid source key w ≡ₚ List.filter (waits did sid source key) (qw_requests w).
Proof.
  unfold waiting, pending_rows. rewrite (filter_perm _ _ _ (merge_sort_Permutation row_le _)). by rewrite filter_and.
Qed.
Lemma elem_filter {A} (p : A → bool) l a : a ∈ List.filter p l <-> a ∈ l ∧ p a = true.
Proof. rewrite !list_elem_of_In. apply List.filter_In. Qed.
Lemma elem_pending did sid w r : r ∈ pending_rows did sid w -> r ∈ qw_requests w ∧ in_scope did sid r = true ∧ r_state (q_row r) = Some Pending.
Proof.
  unfold pending_rows. rewrite merge_sort_Permutation, elem_filter, andb_true_iff. intros (Hr & Hs & Hp).
  split_and!; [done|done|by apply bool_decide_eq_true in Hp].
Qed.
Lemma in_take {A} k (l : list A) a : a ∈ take k l -> a ∈ l.
Proof. intros Ha. rewrite <- (take_drop k l). apply elem_of_app. by left. Qed.
Lemma find_head {A} (p : A → bool) l : List.find p l = head (List.filter p l).
Proof. induction l as [|a l IH]; cbn; [done|]. by destruct (p a). Qed.
Lemma find_in {A} (p : A → bool) l a : List.find p l = Some a -> a ∈ l ∧ p a = true.
Proof. intros Hf%List.find_some. by rewrite list_elem_of_In. Qed.
Lemma create_message_ok m w w' : create_message m w = Ok w' ->
  qw_requests w' = qw_requests w ∧ qw_messages w' = qw_messages w ++ [m] ∧ Forall (λ m', qg_message_key m' <> qg_message_key m) (qw_messages w).
Proof.
  unfold create_message. destruct (existsb _ _) eqn:E; [done|]. intros [= <-]. split_and!; [done|done|]. apply list.Forall_forall. intros m' Hm Hk.
  enough (true = false) by done. rewrite <- E. symmetry. apply existsb_exists. exists m'. split; [by apply list_elem_of_In|by apply str_eqb_true].
Qed.
Lemma create_request_ok r w w' : create_request r w = Ok w' -> qw_requests w' = qw_requests w ++ [r] ∧ qw_messages w' = qw_messages w.
Proof. unfold create_request. repeat case_match; try done; by intros [= <-]. Qed.
Lemma session_row_ok parent behavior content origin metadata rid created key row :
  session_request_row parent behavior content origin metadata rid created key = Ok row ->
  r_state (q_row row) = Some Pending ∧ ri_request_id (q_ident row) = rid ∧ ri_metadata (q_ident row) = Some metadata
  ∧ ri_retry_key (q_ident row) = key ∧ ri_agent_did (q_ident row) = ri_agent_did (q_ident parent) ∧ ri_session_id (q_ident row) = ri_session_id (q_ident parent).
Proof. unfold session_request_row. repeat case_match; try done. by intros [= <-]. Qed.

(** The request a message is bound to. *)
Definition bound_to (m : QueueMessage) (r : QueueRow) : Prop :=
  qg_request_doc_id m = Some (ri_doc_id (q_ident r)) ∧ qg_request_id m = ri_request_id (q_ident r).
Definition answers (parent : QueueRow) (content message_key : str) (a : EnqueuedBackgroundCompletionInput) (m : QueueMessage) : Prop :=
  qg_message_key m = message_key ∧ qg_content m = content ∧ qg_session_id m = parent_session parent ∧ qg_agent_did m = parent_did parent
  ∧ qg_sequence m = ei_message_sequence a ∧ qg_request_id m = er_request_id (ei_request a)
  ∧ qg_request_doc_id m = Some (er_doc_id (ei_request a)).
Lemma replay_ok parent content key m w a rows : replay_notification parent content key m w = Ok (a, rows) ->
  answers parent content (qg_message_key m) a m ∧ ei_created_request a = false ∧ ∃ r, rows = [r] ∧ bound_to m r ∧ queued_under QS_BackgroundCompletion key r = true.
Proof.
  unfold replay_notification. destruct (negb _) eqn:E; [done|]. apply negb_false_iff in E. rewrite !andb_true_iff, !str_eqb_true in E.
  destruct E as [[[[[[Hs Hd] Hr] Hc] _] Hdoc] _]. destruct (take 2 _) as [|r [|? ?]] eqn:Et; [done| |done].
  case_match eqn:Em; [|done]. intros [= <- <-]. rewrite !andb_true_iff, str_eqb_true in Em. destruct Em as [[Hid _] Hq].
  assert (Hin : r ∈ List.filter (λ r, str_eqb (ri_doc_id (q_ident r)) (unwrap_or [] (qg_request_doc_id m))) (qw_requests w)).
  { apply (in_take 2). rewrite Et. left. }
  apply elem_filter in Hin as [_ Hdid%str_eqb_true].
  assert (Hsome : qg_request_doc_id m = Some (unwrap_or [] (qg_request_doc_id m))) by (by destruct (qg_request_doc_id m)).
  split; [by split_and!|]. split; [done|]. exists r. split_and!; [done| |done]. split; [by rewrite Hsome, Hdid|done].
Qed.

Lemma reads_row rows messages w r : reads_kept rows messages w = true -> r ∈ rows -> r ∈ qw_requests w.
Proof. unfold reads_kept. rewrite andb_true_iff, !forallb_forall. intros [Hr _] Hin. apply list_elem_of_In, Hr, bool_decide_eq_true in Hin. done. Qed.
Lemma reads_message rows messages w m : reads_kept rows messages w = true -> m ∈ messages -> m ∈ qw_messages w.
Proof. unfold reads_kept. rewrite andb_true_iff, !forallb_forall. intros [_ Hm] Hin. apply list_elem_of_In, Hm, bool_decide_eq_true in Hin. done. Qed.

(** The notification [m] is in the store with the request that will read it. *)
Definition stored_with_its_wake (parent : QueueRow) (content message_key key metadata : str) (a : EnqueuedBackgroundCompletionInput) (w' : QueueWorld) : Prop :=
  ∃ m before, m ∈ qw_messages w' ∧ answers parent content message_key a m
    ∧ ((w' = before ∧ ei_created_request a = false ∧ ∃ r, r ∈ qw_requests w' ∧ bound_to m r ∧ queued_under QS_BackgroundCompletion key r = true)
       ∨ (qw_messages w' = qw_messages before ++ [m] ∧ Forall (λ m', qg_message_key m' <> message_key) (qw_messages before)
          ∧ ∃ r, r ∈ qw_requests w' ∧ bound_to m r ∧ r_state (q_row r) = Some Pending
            ∧ (if ei_created_request a then qw_requests w' = qw_requests before ++ [r] ∧ ri_metadata (q_ident r) = Some metadata
               else qw_requests w' = qw_requests before ∧ queued_under QS_BackgroundCompletion key r = true))).
Lemma attempt_binds parent content message_key key behavior wake metadata p snap cur tx w' :
  background_completion_transaction_attempt parent content message_key key behavior wake metadata p snap = Ok tx ->
  tx_reads _ tx cur = true -> tx_writes _ tx cur = Ok w' -> stored_with_its_wake parent content message_key key metadata (tx_result _ tx) w'.
Proof.
  intros Hb Hr Hw. unfold stored_with_its_wake. unfold background_completion_transaction_attempt in Hb.
  destruct (take 2 _) as [|m [|? ?]] eqn:En in Hb; [| |done].
  - destruct (max_generation _ _ _) as [current|]; [|done]. cbn in Hb. destruct (next_generation current) as [generation|]; [|done]. cbn in Hb.
    destruct (List.find _ _ ≫= _) as [request|] eqn:Ef.
    + injection Hb as <-. cbn in Hr, Hw |- *. apply create_message_ok in Hw as (Hreq & Hmsg & Hnew).
      destruct (List.find _ _) as [r|] eqn:Er in Ef; [|done]. apply find_in in Er as [Hin Hq].
      assert (Hcur : r ∈ qw_requests cur) by (eapply reads_row; [exact Hr|]; apply elem_of_app; by left).
      apply elem_pending in Hin as (_ & _ & Hp). cbn in Ef. unfold queue_row_to_enqueued_request in Ef.
      destruct (ri_session_id (q_ident r)); [|done]. injection Ef as <-.
      eexists _, cur. split_and!; [rewrite Hmsg; apply elem_of_app; right; by apply list_elem_of_singleton|by split_and!|].
      right. split_and!; [exact Hmsg|exact Hnew|]. exists r. rewrite Hreq. by split_and!.
    + destruct (session_request_row _ _ _ _ _ _ _ _) as [row|] eqn:Es; [|done]. injection Hb as <-. cbn in Hr, Hw |- *.
      destruct (create_request _ cur) as [w1|] eqn:Ec; [|done]. cbn in Hw. apply create_request_ok in Ec as [Hreq1 Hmsg1].
      apply create_message_ok in Hw as (Hreq & Hmsg & Hnew). rewrite Hmsg1 in Hmsg, Hnew. rewrite Hreq1 in Hreq.
      apply session_row_ok in Es as (Hst & Hid & Hmeta & _).
      eexists _, cur. split_and!; [rewrite Hmsg; apply elem_of_app; right; by apply list_elem_of_singleton|by split_and!|].
      right. split_and!; [exact Hmsg|exact Hnew|]. eexists. split_and!; [rewrite Hreq; apply elem_of_app; right; by apply list_elem_of_singleton| |done|exact Hreq|exact Hmeta].
      split; [done|]. cbn. symmetry. exact Hid.
  - destruct (replay_notification _ _ _ _ _) as [[a rows]|] eqn:Er; [|done]. cbn in Hb. injection Hb as <-. cbn in Hr, Hw |- *. injection Hw as <-.
    apply replay_ok in Er as (Ha & Hcr & r & -> & Hbd & Hq).
    assert (Hm : qg_message_key m = message_key).
    { assert (Hin : m ∈ List.filter (λ m, str_eqb (qg_message_key m) message_key) (qw_messages snap)) by (apply (in_take 2); rewrite En; left).
      by apply elem_filter in Hin as [_ Hk%str_eqb_true]. }
    rewrite Hm in Ha. exists m, cur. split_and!; [eapply reads_message; [exact Hr|left]|done|]. left. split_and!; [done| |].
    + exact Hcr.
    + exists r. split_and!; [eapply reads_row; [exact Hr|]; rewrite !elem_of_app; right; right; by apply list_elem_of_singleton|done|done].
Qed.

(** ** Settling rows one by one *)

(** The rows of [docs] that are pending and the agent's were settled by [f], at some
    instant, and no others. *)
Definition hit (docs : list str) (agent_did : str) (r : QueueRow) : bool := existsb (λ d, pending_doc d agent_did r) docs.
Definition settled (docs : list str) (agent_did : str) (f : Z → QueueRow → QueueRow) (r r' : QueueRow) : Prop :=
  (hit docs agent_did r = false ∧ r' = r) ∨ (hit docs agent_did r = true ∧ ∃ now, r' = f now r).
Definition settles (f : Z → QueueRow → QueueRow) : Prop := ∀ now r, q_pending (f now r) = false.
Lemma hit_pending docs did r : q_pending r = false -> hit docs did r = false.
Proof. intros Hp. unfold hit. induction docs as [|d docs IH]; [done|]. cbn. unfold pending_doc at 1. by rewrite Hp, andb_false_r. Qed.
Lemma rows_settled_step doc docs did f now rows rows' : settles f ->
  Forall2 (settled docs did f) (update_where (pending_doc doc did) (f now) rows) rows' -> Forall2 (settled (doc :: docs) did f) rows rows'.
Proof.
  intros Hf. revert rows'. induction rows as [|r rows IH]; intros rows' Hall; [by inversion Hall; constructor|].
  cbn in Hall. apply Forall2_cons_inv_l in Hall as (r' & rows1 & Hr & Hrs & ->). constructor; [|by apply IH].
  unfold settled, hit in *. cbn [existsb]. destruct (pending_doc doc did r) eqn:Ed; [|exact Hr]. right. split; [done|]. destruct Hr as [[_ ->]|[Hh _]]; [by eexists|].
  exfalso. pose proof (hit_pending docs did (f now r) (Hf now r)) as Hx. unfold hit in Hx. congruence.
Qed.
Lemma settled_nil did f rows : Forall2 (settled [] did f) rows rows.
Proof. induction rows; constructor; [by left|done]. Qed.
Definition coalesced_into (survivor : EnqueuedAgentRequest) (now : Z) : QueueRow → QueueRow :=
  set_terminal Superseded (lit "coalesced into earlier queued request") (to_rfc3339 now) (Some (er_request_id survivor, er_doc_id survivor)).
Lemma quiet_update env p f n w : quiet env -> terminal_update p f env n w
  = (Ok (existsb p (qw_requests w)), S n, set_qw_requests (update_where p f (qw_requests w)) w).
Proof. intros Hq. unfold terminal_update. by rewrite quiet_retry. Qed.
Definition q_doc (r : QueueRow) : str := ri_doc_id (q_ident r).
Lemma supersede_runs env survivor did dups : quiet env -> ∀ n w, ∃ n' rows', supersede_duplicates survivor did dups env n w = (Ok tt, n', set_qw_requests rows' w)
  ∧ Forall2 (settled (q_doc <$> dups) did (coalesced_into survivor)) (qw_requests w) rows'.
Proof.
  intros Hq. induction dups as [|d dups IH]; intros n w; cbn [supersede_duplicates].
  - exists n, (qw_requests w). split; [by destruct w|apply settled_nil].
  - rewrite (bind_ok gm_now _ _ _ _ (pt_now (env n)) n w) by done. rewrite (bind_ok _ _ _ _ _ _ _ _ (quiet_update _ _ _ _ _ Hq)).
    destruct (IH (S n) (set_qw_requests (update_where (pending_doc (ri_doc_id (q_ident d)) did) (coalesced_into survivor (pt_now (env n))) (qw_requests w)) w)) as (n' & rows' & Hrun & Hall).
    exists n', rows'. split; [exact Hrun|]. cbn in Hall |- *. eapply rows_settled_step; [done|exact Hall].
Qed.
(** Of the rows that wait, those outside [docs] still do, unchanged. *)
Lemma waits_settled did sid source key docs f rows rows' : settles f -> Forall2 (settled docs did f) rows rows' ->
  List.filter (waits did sid source key) rows' = List.filter (λ r, negb (existsb (str_eqb (q_doc r)) docs)) (List.filter (waits did sid source key) rows).
Proof.
  intros Hf Hall. rewrite filter_and. induction Hall as [|r r' rows rows' Hr _ IH]; [done|]. cbn. rewrite IH. clear IH.
  assert (Hhit : waits did sid source key r = true -> hit docs did r = existsb (str_eqb (q_doc r)) docs).
  { unfold waits, in_scope. rewrite !andb_true_iff. intros [[[_ Hd] Hp] _]. unfold hit.
    assert (Hdoc : ∀ d, pending_doc d did r = str_eqb (q_doc r) d) by (intros d; unfold pending_doc; by rewrite Hd, Hp, !andb_true_r).
    clear -Hdoc. induction docs as [|d docs IHd]; [done|]. cbn. by rewrite Hdoc, IHd. }
  destruct Hr as [[Hh ->]|[Hh [now ->]]].
  - destruct (waits did sid source key r); [|done]. cbn. rewrite <- Hhit, Hh by done. done.
  - assert (Hw' : waits did sid source key (f now r) = false) by (unfold waits; by rewrite Hf, andb_false_r).
    rewrite Hw'. destruct (waits did sid source key r); [|done]. cbn. by rewrite <- Hhit, Hh.
Qed.

Lemma row_unique (rows : list QueueRow) r x : NoDup (q_doc <$> rows) -> r ∈ rows -> x ∈ rows -> q_doc r = q_doc x -> r = x.
Proof.
  intros Hn Hr Hx Hd. apply list_elem_of_lookup in Hr as [i Hi]. apply list_elem_of_lookup in Hx as [j Hj].
  assert (i = j) as -> by (eapply (NoDup_lookup _ _ _ (q_doc r) Hn); rewrite list_lookup_fmap, ?Hi, ?Hj; cbn; congruence). congruence.
Qed.
Section one_queue.
Context (w : QueueWorld) (did sid : str) (source : QueueSource) (key : str) (survivor : QueueRow) (dups : list QueueRow).
Context (Hnd : NoDup (q_doc <$> qw_requests w)) (Hw : waiting did sid source key w = survivor :: dups).
Lemma waiting_row r : r ∈ survivor :: dups -> r ∈ qw_requests w ∧ waits did sid source key r = true.
Proof. rewrite <- Hw, (waiting_perm did sid source key w), elem_filter. done. Qed.
Lemma hit_waiting r : r ∈ qw_requests w -> hit (q_doc <$> dups) did r = bool_decide (r ∈ dups).
Proof.
  intros Hr. case_bool_decide as Hd.
  - unfold hit. apply existsb_exists. exists (q_doc r). split; [by apply list_elem_of_In, list_elem_of_fmap_2|].
    destruct (waiting_row r) as [_ Hwt]; [by right|]. unfold waits, in_scope in Hwt. rewrite !andb_true_iff in Hwt. destruct Hwt as [[[_ Ha] Hp] _].
    unfold pending_doc. fold (q_doc r). by rewrite str_eqb_refl, Ha, Hp.
  - apply not_true_iff_false. intros (d & Hin & Hp)%existsb_exists. apply Hd. apply list_elem_of_In, list_elem_of_fmap in Hin as (x & -> & Hx).
    unfold pending_doc in Hp. rewrite !andb_true_iff, str_eqb_true in Hp. destruct Hp as [[Hdoc _] _].
    destruct (waiting_row x) as [Hxw _]; [by right|]. by rewrite (row_unique _ r x Hnd Hr Hxw Hdoc).
Qed.
Lemma waiting_nodup : NoDup (q_doc <$> (survivor :: dups)).
Proof.
  rewrite <- Hw, (waiting_perm did sid source key w). clear Hw. induction (qw_requests w) as [|r rows IH]; [constructor|]. cbn in Hnd. apply list.NoDup_cons in Hnd as [Hn Hns].
  cbn. destruct (waits _ _ _ _ r); [|by apply IH]. cbn. apply list.NoDup_cons. split; [|by apply IH]. intros (x & Hx & Hin)%list_elem_of_fmap.
  apply elem_filter in Hin as [Hin _]. apply Hn. rewrite Hx. by apply list_elem_of_fmap_2.
Qed.
Lemma survivor_apart : q_doc survivor ∉ (q_doc <$> dups).
Proof. pose proof waiting_nodup as Hn. cbn in Hn. by apply list.NoDup_cons in Hn as [Hn _]. Qed.
Lemma filter_apart : List.filter (λ r, negb (existsb (str_eqb (q_doc r)) (q_doc <$> dups))) (survivor :: dups) = [survivor].
Proof.
  assert (He : ∀ r, r ∈ dups -> existsb (str_eqb (q_doc r)) (q_doc <$> dups) = true).
  { intros r Hr. apply existsb_exists. exists (q_doc r). split; [by apply list_elem_of_In, list_elem_of_fmap_2|apply str_eqb_refl]. }
  cbn. assert (existsb (str_eqb (q_doc survivor)) (q_doc <$> dups) = false) as ->.
  { apply not_true_iff_false. intros (d & Hin & Hd%str_eqb_true)%existsb_exists. apply survivor_apart. rewrite Hd. by apply list_elem_of_In. }
  cbn. f_equal. revert He. generalize (q_doc <$> dups). clear. intros docs He. induction dups as [|r l IH]; [done|]. cbn. rewrite He by left. cbn. apply IH. intros x Hx. apply He. by right.
Qed.
End one_queue.

(** Undisturbed, reconciling a queue leaves the oldest of its waiting requests, in the
    order of creation and identifier, as the only one that waits, and returns it; the
    others end superseded by it, and every row of another session, agent, queue or
    state is as it was. *)
Theorem reconciliation_keeps_the_oldest env n w did sid source key survivor dups : quiet env -> NoDup (q_doc <$> qw_requests w) ->
  waiting did sid source key w = survivor :: dups ->
  ∃ n' w', reconcile_coalesced_pending_request sid did source key env n w
      = (Ok (Some (mkEnqueued (q_doc survivor) (ri_request_id (q_ident survivor)) sid)), n', w')
    ∧ waiting did sid source key w' = [survivor] ∧ qw_messages w' = qw_messages w
    ∧ Forall2 (λ r r', if bool_decide (r ∈ dups) then r_state (q_row r') = Some Superseded ∧ q_superseded_by r' = Some (ri_request_id (q_ident survivor), q_doc survivor)
                       else r' = r) (qw_requests w) (qw_requests w').
Proof.
  intros Hq Hnd Hw. assert (Hsid : ri_session_id (q_ident survivor) = Some sid).
  { assert (Hin : survivor ∈ waiting did sid source key w) by (rewrite Hw; left). apply elem_filter in Hin as [(_ & Hs & _)%elem_pending _].
    unfold in_scope in Hs. apply andb_true_iff in Hs as [Hs%opt_eqb_str _]. done. }
  unfold reconcile_coalesced_pending_request, matching_coalesced_pending_requests. rewrite query_bind by done. change (List.filter _ _) with (waiting did sid source key w).
  rewrite Hw. cbn [head tail mbind option_bind]. unfold queue_row_to_enqueued_request. rewrite Hsid. cbn [mbind option_bind].
  set (s := mkEnqueued _ _ _). destruct (supersede_runs env s did dups Hq (S n) w) as (n' & rows' & Hrun & Hall).
  exists n', (set_qw_requests rows' w). split; [by rewrite (bind_ok _ _ _ _ _ _ _ _ Hrun)|].
  assert (Hdups : ∀ r, r ∈ qw_requests w -> hit (q_doc <$> dups) did r = bool_decide (r ∈ dups)) by (by eapply hit_waiting).
  assert (Hsd : q_doc survivor ∉ (q_doc <$> dups)) by (by eapply survivor_apart).
  split_and!; [|done|].
  - assert (Hp : waiting did sid source key (set_qw_requests rows' w) ≡ₚ [survivor]); [|by apply Permutation_length_1_inv; symmetry].
    rewrite waiting_perm. cbn. rewrite (waits_settled _ _ _ _ _ (coalesced_into s) _ _ (λ _ _, eq_refl) Hall).
    rewrite (filter_perm _ _ _ (symmetry (waiting_perm did sid source key w))), Hw. by erewrite filter_apart.
  - cbn. revert Hall Hdups. generalize (qw_requests w). clear. intros rows Hall. induction Hall as [|r r' rows rows' Hr _ IH]; intros Hd; constructor.
    + rewrite <- Hd by left. destruct Hr as [[-> ->]|[-> [now ->]]]; done.
    + apply IH. intros x Hx. apply Hd. by right.
Qed.

(** ** Generations *)

Lemma parse_zeros mx k s : 0 <= mx -> parse_digits mx 0 (replicate k 48 ++ s) = parse_digits mx 0 s.
Proof. intros Hm. induction k as [|k IH]; [done|]. cbn. change (0 * 10 + (48 - 48)) with 0. destruct (Z.leb_spec 0 mx); [exact IH|lia]. Qed.
Lemma parse_unsigned_digits mx s : Forall (λ c, is_digit c = true) s -> s <> [] -> parse_unsigned mx s = parse_digits mx 0 s.
Proof.
  destruct s as [|c s]; [done|]. intros [Hc _]%list.Forall_cons _. unfold parse_unsigned. unfold is_digit in Hc. bool_prop.
  replace (c =? 43) with false by (symmetry; apply Z.eqb_neq; lia). done.
Qed.
Lemma fmt_nonempty g : 0 <= g -> fmt_Z g <> [].
Proof. intros Hg He. pose proof (parse_fmt_Z g g ltac:(lia)) as Hp. by rewrite He in Hp. Qed.
Lemma pad_reads_back g : 0 <= g <= u64_max -> parse_unsigned u64_max (pad_generation g) = Some g.
Proof.
  intros Hg. unfold pad_generation. pose proof (fmt_Z_digits g ltac:(lia)) as Hd. pose proof (fmt_nonempty g ltac:(lia)) as Hne. rewrite parse_unsigned_digits.
  - rewrite parse_zeros by (unfold u64_max; lia). rewrite <- parse_unsigned_digits by done. by apply parse_fmt_Z.
  - apply Forall_app. split; [|done]. apply list.Forall_forall. intros c Hc. apply elem_of_replicate in Hc as [-> _]. done.
  - destruct (replicate _ _); [|done]. done.
Qed.
Lemma max_generation_snoc prefix rows r current : max_generation prefix (rows ++ [r]) current
  = let? c := max_generation prefix rows current in
    let? g := row_generation prefix r in Ok (Some (match c with Some c => Z.max c g | None => g end)).
Proof.
  revert current. induction rows as [|x rows IH]; intros current; cbn [app max_generation]; [done|].
  destruct (row_generation prefix x) as [g|e]; [|done]. cbn. apply IH.
Qed.

(** ** Completions of one session *)

Section completions.
Context (parent : QueueRow) (hints : QueueHints) (key did sid behavior wake : str).
(** The parent is a stored request of a session with a behavior; the metadata of the
    queue reads back. *)
Record ready : Prop := mkReady {
  rd_source : qh_source hints = QS_BackgroundCompletion; rd_policy : qh_policy hints = QP_Coalesce;
  rd_key : trim <$> qh_key hints = Some key; rd_key_given : key <> [];
  rd_json : parse_queue_hints (qe_from_str qe) (Some (queue_metadata_json hints)) = Some hints;
  rd_did : ri_agent_did (q_ident parent) = Some did; rd_sid : ri_session_id (q_ident parent) = Some sid;
  rd_bound : is_nil (trim (ri_request_id (q_ident parent))) = false ∧ is_nil (trim (ri_doc_id (q_ident parent))) = false;
  rd_behavior : nonempty_trim (ri_behavior_id (q_ident parent)) = Some behavior; rd_sign : qe_sign qe = None }.
Context (Hready : ready).
Lemma parent_scope : parent_did parent = did ∧ parent_session parent = sid.
Proof. unfold parent_did, parent_session. by rewrite (rd_did Hready), (rd_sid Hready). Qed.
Definition latest_generation (w : QueueWorld) : result Error (option Z) := max_generation (retry_key_prefix parent key) (generation_rows parent key w) None.
Definition attempt (content message_key : str) := background_completion_transaction_attempt parent content message_key key behavior wake (queue_metadata_json hints).
Lemma enqueue_unfold content message_key env n w : enqueue_background_completion_with_message parent content message_key wake hints env n w
  = (enqueued ← gm_transaction steering_transaction_error_is_retryable DEFRA_DB_CONFLICT_MAX_RETRIES (attempt content message_key);
     if ei_created_request enqueued then
       active ← reconcile_coalesced_pending_request sid did QS_BackgroundCompletion key;
       let active := unwrap_or (ei_request enqueued) active in
       mret (mkCompletionInput active (ei_message_sequence enqueued) (str_eqb (er_doc_id active) (er_doc_id (ei_request enqueued))))
     else mret enqueued) env n w.
Proof.
  destruct parent_scope as [Hd Hs]. unfold enqueue_background_completion_with_message. rewrite (rd_source Hready), (rd_policy Hready), (rd_key Hready).
  cbn [source_eqb is_coalesce andb negb opt_filter]. assert (is_nil key = false) as -> by (pose proof (rd_key_given Hready); by destruct key). cbn [negb].
  unfold parent_behavior_id. change (r_ident (q_row parent)) with (q_ident parent). rewrite (rd_behavior Hready). rewrite (bind_ok _ _ _ _ _ behavior n w) by reflexivity. unfold attempt. rewrite Hd, Hs. reflexivity.
Qed.
Lemma no_notification message_key w : Forall (λ m, qg_message_key m <> message_key) (qw_messages w) ->
  List.filter (λ m, str_eqb (qg_message_key m) message_key) (qw_messages w) = [] ∧ existsb (λ m, str_eqb (qg_message_key m) message_key) (qw_messages w) = false.
Proof.
  induction 1 as [|m ms Hm _ [IH1 IH2]]; [done|]. cbn. destruct (str_eqb _ _) eqn:E; [by apply str_eqb_true in E|]. by rewrite IH1, IH2.
Qed.
Lemma reads_here rows w : (∀ r, r ∈ rows -> r ∈ qw_requests w) -> reads_kept rows [] w = true.
Proof.
  intros Hr. unfold reads_kept. apply andb_true_iff. split; [|done]. apply forallb_forall. intros r Hin. apply bool_decide_eq_true, Hr. by apply list_elem_of_In.
Qed.
Lemma all_read w r : r ∈ pending_rows did sid w ++ generation_rows parent key w -> r ∈ qw_requests w.
Proof. rewrite elem_of_app. intros [(Hr & _)%elem_pending|Hr]; [done|]. unfold generation_rows in Hr. by apply elem_filter in Hr as [Hr _]. Qed.
(** The row of a new wake. *)
Definition wake_row (generation : Z) (p : Point QueueWorld) : QueueRow :=
  with_doc_id (pt_fresh p)
    match session_request_row parent behavior wake Scheduled (queue_metadata_json hints)
            (lit "background-completion-" ++ queue_scope parent key ++ [45] ++ pad_generation generation) (to_rfc3339_secs (pt_now p))
            (Some (retry_key_prefix parent key ++ pad_generation generation)) with
    | Ok row => row | Err _ => parent
    end.
Lemma wake_row_made generation p : session_request_row parent behavior wake Scheduled (queue_metadata_json hints)
    (lit "background-completion-" ++ queue_scope parent key ++ [45] ++ pad_generation generation) (to_rfc3339_secs (pt_now p))
    (Some (retry_key_prefix parent key ++ pad_generation generation))
  = Ok (mkQueueRow (set_r_doc_id [] (q_row (wake_row generation p))) (Some (origin_as_str Scheduled)) None (q_lineage (wake_row generation p)))
  ∧ wake_row generation p = with_doc_id (pt_fresh p) (mkQueueRow (set_r_doc_id [] (q_row (wake_row generation p))) (Some (origin_as_str Scheduled)) None (q_lineage (wake_row generation p))).
Proof.
  unfold wake_row, session_request_row. destruct (rd_bound Hready) as [-> ->]. cbn [orb]. by rewrite (rd_sign Hready).
Qed.
Lemma wake_row_waits generation p : waits did sid QS_BackgroundCompletion key (wake_row generation p) = true.
Proof.
  unfold wake_row, session_request_row. destruct (rd_bound Hready) as [-> ->]. rewrite (rd_sign Hready). unfold waits, in_scope, queued_under. cbn.
  rewrite (rd_sid Hready), (rd_did Hready). cbn. rewrite !str_eqb_refl. unfold queue_source_and_key_match. rewrite (rd_json Hready). cbn.
  rewrite (rd_source Hready), (rd_policy Hready). cbn. pose proof (rd_key Hready) as Hk. destruct (qh_key hints) as [k|]; [|done]. injection Hk as Hk.
  cbn. rewrite Hk. apply str_eqb_refl.
Qed.
Lemma waiting_of_rows w w' : qw_requests w' = qw_requests w -> waiting did sid QS_BackgroundCompletion key w' = waiting did sid QS_BackgroundCompletion key w.
Proof. unfold waiting, pending_rows. by intros ->. Qed.
Lemma waiting_snoc w w' r : waiting did sid QS_BackgroundCompletion key w = [] -> qw_requests w' = qw_requests w ++ [r] ->
  waits did sid QS_BackgroundCompletion key r = true -> waiting did sid QS_BackgroundCompletion key w' = [r].
Proof.
  intros Hw Hr Hwt. apply Permutation_length_1_inv. symmetry. rewrite waiting_perm, Hr, List.filter_app. cbn. rewrite Hwt.
  pose proof (waiting_perm did sid QS_BackgroundCompletion key w) as Hp. rewrite Hw in Hp. apply Permutation_nil in Hp. by rewrite Hp.
Qed.
Lemma reconcile_one env n w r : quiet env -> waiting did sid QS_BackgroundCompletion key w = [r] ->
  reconcile_coalesced_pending_request sid did QS_BackgroundCompletion key env n w
  = (Ok (Some (mkEnqueued (q_doc r) (ri_request_id (q_ident r)) sid)), S n, w).
Proof.
  intros Hq Hw. assert (Hsid : ri_session_id (q_ident r) = Some sid).
  { assert (Hin : r ∈ waiting did sid QS_BackgroundCompletion key w) by (rewrite Hw; left). apply elem_filter in Hin as [(_ & Hs & _)%elem_pending _].
    unfold in_scope in Hs. apply andb_true_iff in Hs as [Hs%opt_eqb_str _]. done. }
  unfold reconcile_coalesced_pending_request, matching_coalesced_pending_requests. rewrite query_bind by done.
  change (List.filter _ _) with (waiting did sid QS_BackgroundCompletion key w). rewrite Hw. cbn [head tail mbind option_bind].
  unfold queue_row_to_enqueued_request. rewrite Hsid. done.
Qed.
Definition completion_message (w : QueueWorld) (r : QueueRow) (now : Z) (content message_key : str) : QueueMessage :=
  input_message parent (next_append_sequence sid w) content (ri_request_id (q_ident r)) (q_doc r) message_key now.
Lemma attempt_reuses env n w r dups c g content message_key : quiet env -> waiting did sid QS_BackgroundCompletion key w = r :: dups ->
  latest_generation w = Ok c -> next_generation c = Ok g -> Forall (λ m, qg_message_key m <> message_key) (qw_messages w) ->
  gm_transaction steering_transaction_error_is_retryable DEFRA_DB_CONFLICT_MAX_RETRIES (attempt content message_key) env n w
  = (Ok (mkCompletionInput (mkEnqueued (q_doc r) (ri_request_id (q_ident r)) sid) (next_append_sequence sid w) false), S (S n),
     set_qw_messages (qw_messages w ++ [completion_message w r (pt_now (env n)) content message_key]) w).
Proof.
  intros Hq Hw Hc Hg Hm. destruct parent_scope as [Hd Hs]. destruct (no_notification _ _ Hm) as [Hf He].
  assert (Hsid : ri_session_id (q_ident r) = Some sid).
  { assert (Hin : r ∈ waiting did sid QS_BackgroundCompletion key w) by (rewrite Hw; left). apply elem_filter in Hin as [(_ & Hx & _)%elem_pending _].
    unfold in_scope in Hx. apply andb_true_iff in Hx as [Hx%opt_eqb_str _]. done. }
  assert (Hbody : attempt content message_key (env n) w = Ok (mkTransaction _
      (mkCompletionInput (mkEnqueued (q_doc r) (ri_request_id (q_ident r)) sid) (next_append_sequence sid w) false)
      (reads_kept (pending_rows did sid w ++ generation_rows parent key w) []) (create_message (completion_message w r (pt_now (env n)) content message_key)))).
  { unfold attempt, background_completion_transaction_attempt. rewrite Hf. cbn [take]. unfold latest_generation in Hc. rewrite Hc. cbn. rewrite Hg. cbn.
    rewrite Hd, Hs, find_head. change (List.filter _ _) with (waiting did sid QS_BackgroundCompletion key w). rewrite Hw. cbn.
    unfold queue_row_to_enqueued_request. rewrite Hsid. done. }
  rewrite (quiet_transaction env _ _ _ n w _ (set_qw_messages (qw_messages w ++ [completion_message w r (pt_now (env n)) content message_key]) w) Hq Hbody); [done| |].
  - cbn. apply reads_here, all_read.
  - cbn. unfold create_message. change (qg_message_key (completion_message w r (pt_now (env n)) content message_key)) with message_key. by rewrite He.
Qed.
Lemma attempt_creates env n w c g content message_key : quiet env -> waiting did sid QS_BackgroundCompletion key w = [] ->
  latest_generation w = Ok c -> next_generation c = Ok g -> Forall (λ m, qg_message_key m <> message_key) (qw_messages w) ->
  Forall (λ r, ri_retry_key (q_ident r) <> Some (retry_key_prefix parent key ++ pad_generation g)) (qw_requests w) ->
  let r := wake_row g (env n) in
  gm_transaction steering_transaction_error_is_retryable DEFRA_DB_CONFLICT_MAX_RETRIES (attempt content message_key) env n w
  = (Ok (mkCompletionInput (mkEnqueued (q_doc r) (ri_request_id (q_ident r)) sid) (next_append_sequence sid w) true), S (S n),
     set_qw_messages (qw_messages w ++ [completion_message w r (pt_now (env n)) content message_key]) (set_qw_requests (qw_requests w ++ [r]) w)).
Proof.
  intros Hq Hw Hc Hg Hm Hk r. destruct parent_scope as [Hd Hs]. destruct (no_notification _ _ Hm) as [Hf He].
  destruct (wake_row_made g (env n)) as [Hrow Hwr]. fold r in Hrow, Hwr. set (row0 := mkQueueRow _ _ _ _) in Hrow, Hwr.
  destruct (session_row_ok _ _ _ _ _ _ _ _ _ Hrow) as (_ & Hid & _ & Hkey & _ & _).
  assert (Hrid : ri_request_id (q_ident r) = lit "background-completion-" ++ queue_scope parent key ++ [45] ++ pad_generation g) by (rewrite Hwr; exact Hid).
  assert (Hrk : ri_retry_key (q_ident r) = Some (retry_key_prefix parent key ++ pad_generation g)) by (rewrite Hwr; exact Hkey).
  assert (Hdoc : q_doc r = pt_fresh (env n)) by (rewrite Hwr; done).
  assert (Hcr : create_request r w = Ok (set_qw_requests (qw_requests w ++ [r]) w)).
  { unfold create_request. rewrite Hrk. case_match eqn:Ex; [|done]. apply existsb_exists in Ex as (x & Hx & Hxe%opt_eqb_str).
    rewrite list.Forall_forall in Hk. exfalso. apply (Hk x); [by apply list_elem_of_In|done]. }
  assert (Hbody : attempt content message_key (env n) w = Ok (mkTransaction _
      (mkCompletionInput (mkEnqueued (q_doc r) (ri_request_id (q_ident r)) sid) (next_append_sequence sid w) true)
      (reads_kept (pending_rows did sid w ++ generation_rows parent key w) [])
      (λ w', let? w' := create_request r w' in create_message (completion_message w r (pt_now (env n)) content message_key) w'))).
  { unfold attempt, background_completion_transaction_attempt. rewrite Hf. cbn [take]. unfold latest_generation in Hc. rewrite Hc. cbv beta iota zeta. rewrite Hg. cbv beta iota zeta.
    rewrite Hd, Hs, find_head. change (List.filter _ _) with (waiting did sid QS_BackgroundCompletion key w). rewrite Hw. cbn [head mbind option_bind].
    rewrite Hrow. cbv beta iota zeta. unfold completion_message. rewrite Hrid, Hdoc. do 2 f_equal. by rewrite Hwr. }
  rewrite (quiet_transaction env _ _ _ n w _ (set_qw_messages (qw_messages w ++ [completion_message w r (pt_now (env n)) content message_key]) (set_qw_requests (qw_requests w ++ [r]) w)) Hq Hbody); [done| |].
  - cbn. apply reads_here, all_read.
  - change (tx_writes _ _ w) with (let? w' := create_request r w in create_message (completion_message w r (pt_now (env n)) content message_key) w'). rewrite Hcr.
    unfold create_message. change (qg_message_key (completion_message w r (pt_now (env n)) content message_key)) with message_key. cbn. by rewrite He.
Qed.
Lemma max_generation_nonneg prefix rows current c : max_generation prefix rows current = Ok c -> (∀ x, current = Some x -> 0 <= x) -> ∀ x, c = Some x -> 0 <= x.
Proof.
  revert current. induction rows as [|r rows IH]; intros current; cbn [max_generation]; [by intros [= ->]|].
  destruct (row_generation prefix r) as [g|] eqn:Er; [|done]. intros Hm Hx. eapply IH; [exact Hm|]. intros x [= <-].
  assert (0 <= g).
  { unfold row_generation in Er. destruct (ri_retry_key (q_ident r)) as [k|]; [|done]. cbv beta iota delta [ok_or] in Er.
    destruct (strip_prefix prefix k) as [rest|]; [|done]. destruct (parse_unsigned u64_max rest) as [v|] eqn:Ep; [|done]. injection Er as ->.
    apply parse_unsigned_range in Ep; [lia|unfold u64_max; lia]. }
  destruct current; [|done]. specialize (Hx z eq_refl). lia.
Qed.
Lemma row_generation_made prefix r g : ri_retry_key (q_ident r) = Some (prefix ++ pad_generation g) -> 0 <= g <= u64_max -> row_generation prefix r = Ok g.
Proof.
  intros Hk Hg. unfold row_generation. rewrite Hk. cbv beta iota delta [ok_or].
  assert (strip_prefix prefix (prefix ++ pad_generation g) = Some (pad_generation g)) as -> by (by apply strip_prefix_Some).
  by rewrite pad_reads_back.
Qed.
(** The generation of the wake that was made is the latest. *)
Lemma generation_after w c g p rows : latest_generation w = Ok c -> next_generation c = Ok g -> g <= u64_max -> rows = qw_requests w ++ [wake_row g p] ->
  ∀ w', qw_requests w' = rows -> latest_generation w' = Ok (Some g).
Proof.
  intros Hc Hg Hmax -> w' Hw'. destruct parent_scope as [Hd Hs]. unfold latest_generation, generation_rows in *. rewrite Hw', List.filter_app. cbn [List.filter].
  destruct (wake_row_made g p) as [Hrow Hwr]. destruct (session_row_ok _ _ _ _ _ _ _ _ _ Hrow) as (_ & _ & _ & Hkey & Hrd & Hrs).
  assert (Hk : ri_retry_key (q_ident (wake_row g p)) = Some (retry_key_prefix parent key ++ pad_generation g)) by (rewrite Hwr; exact Hkey).
  assert (Hsc : in_scope (parent_did parent) (parent_session parent) (wake_row g p) = true).
  { rewrite Hd, Hs. pose proof (wake_row_waits g p) as Hwt. unfold waits in Hwt. rewrite !andb_true_iff in Hwt. by destruct Hwt as [[? _] _]. }
  assert (0 <= g).
  { destruct c as [x|]; cbn in Hg; [|injection Hg as <-; lia]. destruct (x + 1 <=? u64_max); [|done]. injection Hg as <-.
    pose proof (max_generation_nonneg _ _ _ _ Hc ltac:(done) x eq_refl). lia. }
  rewrite Hsc, Hk. cbn [andb is_some_and]. rewrite starts_with_app, max_generation_snoc, Hc, (row_generation_made _ _ g Hk) by lia.
  destruct c as [x|]; [|done]. cbn in Hg. destruct (x + 1 <=? u64_max); [|done]. injection Hg as <-. do 2 f_equal. lia.
Qed.
(** The completions of a session, one after the other. *)
Fixpoint enqueue_all (inputs : list (str * str)) : QM (list EnqueuedBackgroundCompletionInput) :=
  match inputs with
  | [] => mret []
  | (content, message_key) :: inputs =>
      a ← enqueue_background_completion_with_message parent content message_key wake hints;
      rest ← enqueue_all inputs;
      mret (a :: rest)
  end.
Definition new_keys (inputs : list (str * str)) (w : QueueWorld) : Prop :=
  NoDup inputs.*2 ∧ Forall (λ m, qg_message_key m ∉ inputs.*2) (qw_messages w).
Lemma new_keys_head content message_key inputs w : new_keys ((content, message_key) :: inputs) w -> Forall (λ m, qg_message_key m <> message_key) (qw_messages w).
Proof. intros [_ Hm]. eapply list.Forall_impl; [exact Hm|]. intros m Hx He. apply Hx. cbn. rewrite He. left. Qed.
Lemma new_keys_tail content message_key inputs w w' m : new_keys ((content, message_key) :: inputs) w ->
  qw_messages w' = qw_messages w ++ [m] -> qg_message_key m = message_key -> new_keys inputs w'.
Proof.
  intros [Hn Hm] Hw Hk. cbn in Hn. apply list.NoDup_cons in Hn as [Hn Hns]. split; [done|]. rewrite Hw. apply Forall_app. split.
  - eapply list.Forall_impl; [exact Hm|]. intros x Hx He. apply Hx. by right.
  - repeat constructor. by rewrite Hk.
Qed.
Definition input_of (r : QueueRow) (input : str * str) (m : QueueMessage) : Prop := qg_content m = input.1 ∧ qg_message_key m = input.2 ∧ bound_to m r.
Lemma reuse_all env r c g inputs : quiet env -> next_generation c = Ok g -> ∀ n w, waiting did sid QS_BackgroundCompletion key w = [r] ->
  latest_generation w = Ok c -> new_keys inputs w ->
  ∃ results n' w' ms, enqueue_all inputs env n w = (Ok results, n', w') ∧ qw_requests w' = qw_requests w
    ∧ qw_messages w' = qw_messages w ++ ms ∧ Forall2 (input_of r) inputs ms
    ∧ Forall (λ a, ei_request a = mkEnqueued (q_doc r) (ri_request_id (q_ident r)) sid ∧ ei_created_request a = false) results.
Proof.
  intros Hq Hg. induction inputs as [|[content mkey] inputs IH]; intros n w Hw Hc Hk.
  { exists [], n, w, []. split_and!; [done|done|by rewrite app_nil_r|constructor|constructor]. }
  cbn [enqueue_all].
  set (w1 := set_qw_messages (qw_messages w ++ [completion_message w r (pt_now (env n)) content mkey]) w).
  destruct (IH (S (S n)) w1) as (results & n' & w' & ms & Hrun & Hreq & Hmsg & Hms & Hres).
  { by rewrite (waiting_of_rows w w1). }
  { exact Hc. }
  { by eapply new_keys_tail. }
  eexists (_ :: results), n', w', (completion_message w r (pt_now (env n)) content mkey :: ms). split_and!.
  - erewrite bind_ok; [|rewrite enqueue_unfold; erewrite bind_ok by (eapply attempt_reuses; [done..|by eapply new_keys_head]); reflexivity].
    erewrite bind_ok by exact Hrun. reflexivity.
  - exact Hreq.
  - rewrite Hmsg. cbn. by rewrite <- app_assoc.
  - constructor; [|done]. by split_and!.
  - constructor; [done|done].
Qed.

(** The completions of a session share one wake: undisturbed, when no wake of the queue
    waits, the first completion makes one, with a generation above all before it, and
    every later completion finds it; all of them are told that request, each leaves its
    own message bound to it, in order, and it is the only wake of the queue that waits. *)
Theorem completions_share_one_wake env n w c g content message_key inputs : quiet env ->
  waiting did sid QS_BackgroundCompletion key w = [] -> latest_generation w = Ok c -> next_generation c = Ok g -> g < u64_max ->
  Forall (λ r, ri_retry_key (q_ident r) <> Some (retry_key_prefix parent key ++ pad_generation g)) (qw_requests w) ->
  new_keys ((content, message_key) :: inputs) w ->
  let r := wake_row g (env n) in
  ∃ a rest n' w' ms, enqueue_all ((content, message_key) :: inputs) env n w = (Ok (a :: rest), n', w')
    ∧ waiting did sid QS_BackgroundCompletion key w' = [r] ∧ qw_requests w' = qw_requests w ++ [r]
    ∧ qw_messages w' = qw_messages w ++ ms ∧ Forall2 (input_of r) ((content, message_key) :: inputs) ms
    ∧ ei_request a = mkEnqueued (q_doc r) (ri_request_id (q_ident r)) sid ∧ ei_created_request a = true
    ∧ Forall (λ b, ei_request b = ei_request a ∧ ei_created_request b = false) rest.
Proof.
  intros Hq Hw Hc Hg Hlt Hk Hn r. pose proof (attempt_creates env n w c g content message_key Hq Hw Hc Hg (new_keys_head _ _ _ _ Hn) Hk) as Hat. cbn zeta in Hat. fold r in Hat.
  set (w1 := set_qw_messages _ _) in Hat. assert (Hreq1 : qw_requests w1 = qw_requests w ++ [r]) by done.
  assert (Hw1 : waiting did sid QS_BackgroundCompletion key w1 = [r]) by (eapply waiting_snoc; [exact Hw|exact Hreq1|apply wake_row_waits]).
  assert (Hc1 : latest_generation w1 = Ok (Some g)) by (eapply (generation_after w c g (env n)); [done..|lia|done|done]).
  assert (Hg1 : next_generation (Some g) = Ok (g + 1)) by (cbn; destruct (Z.leb_spec (g + 1) u64_max); [done|lia]).
  destruct (reuse_all env r (Some g) (g + 1) inputs Hq Hg1 (S (S (S n))) w1 Hw1 Hc1) as (results & n' & w' & ms & Hrun & Hreq & Hmsg & Hms & Hres).
  { by eapply new_keys_tail. }
  eexists _, results, n', w', (completion_message w r (pt_now (env n)) content message_key :: ms). split_and!.
  - cbn [enqueue_all]. erewrite bind_ok; [erewrite bind_ok by exact Hrun; reflexivity|]. rewrite enqueue_unfold, (bind_ok _ _ _ _ _ _ _ _ Hat). cbn [ei_created_request].
    rewrite (bind_ok _ _ _ _ _ _ _ _ (reconcile_one env (S (S n)) w1 r Hq Hw1)). cbn. rewrite str_eqb_refl. reflexivity.
  - by rewrite (waiting_of_rows w1 w').
  - by rewrite Hreq.
  - rewrite Hmsg. cbn. by rewrite <- app_assoc.
  - constructor; [|done]. by split_and!.
  - done.
  - done.
  - eapply list.Forall_impl; [exact Hres|]. intros b [Hb1 Hb2]. done.
Qed.
End completions.

(** ** Draining *)

Definition drained_by (reason : str) (now : Z) : QueueRow → QueueRow := set_terminal Interrupted reason (to_rfc3339 now) None.
Lemma drain_runs env did reason rows : quiet env -> ∀ n w k, ∃ n' rows' k', drain_rows did reason rows k env n w = (Ok k', n', set_qw_requests rows' w)
  ∧ Forall2 (settled (q_doc <$> rows) did (drained_by reason)) (qw_requests w) rows'.
Proof.
  intros Hq. induction rows as [|d rows IH]; intros n w k; cbn [drain_rows].
  - exists n, (qw_requests w), k. split; [by destruct w|apply settled_nil].
  - rewrite (bind_ok gm_now _ _ _ _ (pt_now (env n)) n w) by done. rewrite (bind_ok _ _ _ _ _ _ _ _ (quiet_update _ _ _ _ _ Hq)). cbv zeta beta.
    set (k1 := if existsb _ _ then _ else _).
    destruct (IH (S n) (set_qw_requests (update_where (pending_doc (ri_doc_id (q_ident d)) did) (drained_by reason (pt_now (env n))) (qw_requests w)) w) k1) as (n' & rows' & k' & Hrun & Hall).
    exists n', rows', k'. split; [exact Hrun|]. cbn in Hall |- *. eapply rows_settled_step; [done|exact Hall].
Qed.
(** Undisturbed, a drain leaves no pending request it was to drain, and touches no other
    row. *)
Theorem draining_empties_the_queue env n w did sid reason p : quiet env -> NoDup (q_doc <$> qw_requests w) ->
  ∃ k n' w', drain_pending_session_requests_where sid did reason p env n w = (Ok k, n', w')
    ∧ List.filter (λ r, in_scope did sid r && q_pending r && p r) (qw_requests w') = []
    ∧ Forall2 (λ r r', if in_scope did sid r && q_pending r && p r then r_state (q_row r') = Some Interrupted ∧ r_failure (q_row r') = Some reason else r' = r)
        (qw_requests w) (qw_requests w').
Proof.
  intros Hq Hnd. unfold drain_pending_session_requests_where. rewrite query_bind by done. rewrite filter_and.
  set (rows := List.filter _ (qw_requests w)). destruct (drain_runs env did reason rows Hq (S n) w 0) as (n' & rows' & k & Hrun & Hall).
  exists k, n', (set_qw_requests rows' w). split; [exact Hrun|]. cbn [qw_requests set_qw_requests].
  assert (Hhit : ∀ r, r ∈ qw_requests w -> hit (q_doc <$> rows) did r = in_scope did sid r && q_pending r && p r).
  { intros r Hr. destruct (in_scope did sid r && q_pending r && p r) eqn:E.
    - unfold hit. apply existsb_exists. exists (q_doc r). split; [apply list_elem_of_In, list_elem_of_fmap_2, elem_filter; by split|].
      rewrite !andb_true_iff in E. destruct E as [[Hs Hpend] _]. unfold in_scope in Hs. apply andb_true_iff in Hs as [_ Hd].
      unfold pending_doc. fold (q_doc r). by rewrite str_eqb_refl, Hd, Hpend.
    - apply not_true_iff_false. intros (d & Hin & Hpd)%existsb_exists. apply list_elem_of_In, list_elem_of_fmap in Hin as (x & -> & Hx).
      unfold pending_doc in Hpd. rewrite !andb_true_iff, str_eqb_true in Hpd. destruct Hpd as [[Hdoc _] _]. apply elem_filter in Hx as [Hxw Hxp].
      rewrite (row_unique _ r x Hnd Hr Hxw Hdoc) in E. congruence. }
  clear Hrun Hnd. revert Hall Hhit. generalize (q_doc <$> rows) as docs. clear rows. generalize (qw_requests w) as rows. intros rows docs Hall. induction Hall as [|r r' rows rows' Hr _ IH]; intros Hhit; [by split; constructor|].
  destruct IH as [IH1 IH2]; [intros x Hx; apply Hhit; by right|]. specialize (Hhit r ltac:(left)). destruct Hr as [[Hh ->]|[Hh [now ->]]]; rewrite Hhit in Hh.
  - cbn. rewrite Hh. split; [done|]. constructor; [by rewrite Hh|done].
  - cbn. replace (in_scope did sid (drained_by reason now r) && q_pending (drained_by reason now r) && p (drained_by reason now r)) with false by (cbn; by rewrite andb_false_r).
    split; [done|]. constructor; [by rewrite Hh|done].
Qed.
End queue.

(** ** Witnesses

    A session whose request [r1] runs, with an empty queue; two background tools finish. *)

Definition demo_hints : QueueHints :=
  {| qh_source := QS_BackgroundCompletion; qh_policy := QP_Coalesce; qh_key := Some (lit "k"); qh_queued_after_request_id := Some (lit "r1"); qh_interrupted_request_id := None |}.
Definition demo_queue : QueueEnv :=
  {| qe_from_str _ := Some {| qm_queue := demo_hints; qm_background_completion_wake_version := Some 1 |}; qe_to_string _ := lit "{}";
     qe_user_message s := s; qe_scope parts := concat parts; qe_sign := None; qe_queue_source _ := None |}.
Definition demo_queue_row (doc rid created : str) (st : RequestLifecycleState) (metadata : option str) : QueueRow :=
  mkQueueRow {| r_ident := {| ri_doc_id := doc; ri_request_id := rid; ri_agent_did := Some (lit "did:a");
       ri_requester_did := None; ri_behavior_id := Some (lit "b"); ri_session_id := Some (lit "s1");
       ri_created_at := Some created; ri_metadata := metadata; ri_content := lit "hello";
       ri_trigger_id := None; ri_trigger_kind := None; ri_correlation := None; ri_retry_key := None; ri_workspace_id := None;
       ri_parent_request_id := None; ri_trigger_context := None |};
     r_state := Some st; r_generation := None; r_expiry := None; r_progress := None; r_interrupt := None; r_valid_until := None;
     r_deadline := None; r_backend := None; r_claimed_at := None; r_failure := None; r_terminalized_at := None;
     r_redrive := None; r_bg_seq := None; r_bg_keys := None |} None None (mkLineage None None None None None None).
Definition demo_running : QueueRow := demo_queue_row (lit "d1") (lit "r1") (lit "t0") Processing None.
Definition demo_session : QueueWorld := mkQueueWorld [demo_running] [] [] [].
Definition demo_still (n : nat) : Point QueueWorld :=
  {| pt_others w := w; pt_fault := None; pt_commit := Committed; pt_now := Z.of_nat n; pt_fresh := lit "q" ++ fmt_Z (Z.of_nat n); pt_uuid := [] |}.

Lemma reconciliation_keeps_the_oldest_witness :
  let old := demo_queue_row (lit "d2") (lit "r2") (lit "t1") Pending (Some (lit "m")) in
  let new := demo_queue_row (lit "d3") (lit "r3") (lit "t2") Pending (Some (lit "m")) in
  ∃ n' w', reconcile_coalesced_pending_request (H := demo_chrono) demo_queue (lit "s1") (lit "did:a") QS_BackgroundCompletion (lit "k") demo_still 0%nat
      (mkQueueWorld [new; demo_running; old] [] [] [])
      = (Ok (Some (mkEnqueued (lit "d2") (lit "r2") (lit "s1"))), n', w')
    ∧ waiting demo_queue (lit "did:a") (lit "s1") QS_BackgroundCompletion (lit "k") w' = [old].
Proof.
  intros old new.
  destruct (reconciliation_keeps_the_oldest (H := demo_chrono) demo_queue demo_still 0%nat (mkQueueWorld [new; demo_running; old] [] [] [])
    (lit "did:a") (lit "s1") QS_BackgroundCompletion (lit "k") old [new]) as (n' & w' & Hr & Hw & _).
  - done.
  - apply (bool_decide_unpack _). vm_compute. exact I.
  - vm_compute. reflexivity.
  - by exists n', w'.
Defined.
Definition demo_inputs : list (str * str) := [(lit "one", lit "n1"); (lit "two", lit "n2")].
Lemma completions_share_one_wake_witness :
  ∃ results n' w', enqueue_all (H := demo_chrono) (H0 := demo_secs) demo_queue demo_running demo_hints (lit "wake") demo_inputs demo_still 0%nat demo_session = (Ok results, n', w')
    ∧ length (waiting demo_queue (lit "did:a") (lit "s1") QS_BackgroundCompletion (lit "k") w') = 1%nat ∧ length (qw_messages w') = 2%nat.
Proof.
  destruct (completions_share_one_wake (H := demo_chrono) (H0 := demo_secs) demo_queue demo_running demo_hints (lit "k") (lit "did:a") (lit "s1") (lit "b") (lit "wake")
    ltac:(constructor; try (vm_compute; done); by split; vm_compute) demo_still 0%nat demo_session None 0 (lit "one") (lit "n1") [(lit "two", lit "n2")])
    as (a & rest & n' & w' & ms & Hr & Hw & _ & Hm & Hms & _).
  - done.
  - vm_compute. reflexivity.
  - vm_compute. reflexivity.
  - reflexivity.
  - unfold u64_max. lia.
  - repeat constructor. done.
  - split; [apply (bool_decide_unpack _); vm_compute; exact I|constructor].
  - exists (a :: rest), n', w'. split; [exact Hr|]. rewrite Hw, Hm. split; [reflexivity|]. apply Forall2_length in Hms. symmetry. exact Hms.
Defined.
