(* ===== verification/CompletionText.v ===== *)
(** * The text of a background completion

    [background_completion/rendering.rs] and the keys of [background_completion.rs]: how
    the end of a background tool or child is written into the transcript of its parent,
    and how a later pass finds that text again.  [BackgroundCompletion] delivers it. *)

From S2P Require Import Prelude RustStr GraphqlText Lifecycle ToolCall HistorySplit.
Open Scope Z_scope.

(** ** Escaping *)

(** [s.replace(c, by)] of one character. *)
Definition replace_char (c : char) (by_ s : str) : str := replace_all_in [c] by_ s.
Definition xml_escape_text (value : str) : str :=
  replace_char 62 (lit "&gt;") (replace_char 60 (lit "&lt;") (replace_char 38 (lit "&amp;") value)).
Definition xml_escape_attr (value : str) : str :=
  replace_char 39 (lit "&apos;") (replace_char DQ (lit "&quot;") (xml_escape_text value)).

(** ** Summaries *)

Fixpoint char_indices (offset : Z) (s : str) : list Z :=
  match s with [] => [] | c :: s => offset :: char_indices (offset + utf8_width c) s end.
Fixpoint take_while (p : Z → bool) (l : list Z) : list Z :=
  match l with [] => [] | x :: l => if p x then x :: take_while p l else [] end.
Definition SUMMARY_LIMIT : Z := 4000.
Definition summary_boundary (normalized : str) : Z :=
  List.last (take_while (λ idx, idx <=? SUMMARY_LIMIT) (char_indices 0 normalized)) 0.
Definition normalize_summary (value : str) : str := join [32] (split_whitespace value).
(** The slice is never inside a character ([summary_slice]). *)
Definition compact_summary (value : str) : str :=
  let normalized := normalize_summary value in
  if str_len normalized <=? SUMMARY_LIMIT then normalized
  else default [] (slice_to normalized (summary_boundary normalized)) ++ lit "...".
Definition non_empty_text (value : option str) : option str := opt_filter (λ v, negb (is_nil v)) (trim <$> value).

(** ** Notifications *)

Record ChildEdge : Type := mkChildEdge {
  ed_parent_request_id : str; ed_parent_session_id : str; ed_parent_tool_call_id : str; ed_child_request_id : str;
  ed_child_session_id : str; ed_child_agent_did : str; ed_behavior_id : str; ed_await_mode : AwaitMode; ed_lifecycle_state : str }.
(** [name="value"]. *)
Definition attribute (name value : str) : str := name ++ lit "=" ++ [DQ] ++ xml_escape_attr value ++ [DQ].
Definition render_notification (edge : ChildEdge) (status summary : str) : str :=
  lit "<subagent-notification " ++ attribute (lit "child_request_id") (ed_child_request_id edge)
  ++ lit " " ++ attribute (lit "child_session_id") (ed_child_session_id edge)
  ++ lit " " ++ attribute (lit "behavior_id") (ed_behavior_id edge)
  ++ lit " " ++ attribute (lit "parent_tool_call_id") (ed_parent_tool_call_id edge)
  ++ lit " " ++ attribute (lit "status") status ++ lit ">" ++ [NL]
  ++ lit "<summary>" ++ xml_escape_text summary ++ lit "</summary>" ++ [NL] ++ lit "</subagent-notification>".
Definition reason_element (reason : option str) : str :=
  match reason with Some reason => [NL] ++ lit "  <reason>" ++ xml_escape_text reason ++ lit "</reason>" | None => [] end.
Definition render_tool_completion (tool_call_id tool_name status result : str) (reason : option str) : str :=
  lit "<tool-completion " ++ attribute (lit "tool_call_id") tool_call_id
  ++ lit " " ++ attribute (lit "tool_name") tool_name
  ++ lit " " ++ attribute (lit "status") status ++ lit ">" ++ [NL]
  ++ lit "  <result>" ++ xml_escape_text (compact_summary result) ++ lit "</result>" ++ reason_element reason
  ++ [NL] ++ lit "</tool-completion>".

(** ** Finding them again *)

Definition notification_marker (child_request_id : str) : str := attribute (lit "child_request_id") child_request_id.
Definition is_notification_of (child_request_id content : str) : bool :=
  contains (lit "<subagent-notification") content && contains (notification_marker child_request_id) content.
Definition completion_needle (tool_call_id : str) : str := lit "<tool-completion " ++ attribute (lit "tool_call_id") tool_call_id.
Definition is_completion_of (tool_call_id content : str) : bool := contains (completion_needle tool_call_id) content.
Definition background_completion_notification_message_key (stable_id kind : str) : str :=
  BACKGROUND_COMPLETION_NOTIFICATION_MESSAGE_PREFIX ++ stable_id ++ lit ":" ++ kind.

(** ** Escaping, character by character *)

Definition swap (c : Z) (by_ : list Z) (x : Z) : list Z := if x =? c then by_ else [x].
Lemma find_char_None c s : find_split [c] s = None -> c ∉ s.
Proof.
  rewrite find_split_None. intros Hn Hin. apply list_elem_of_split in Hin as (a & b & ->). by apply (Hn a b).
Qed.
Lemma swap_clean c by_ (s : list Z) : c ∉ s -> s ≫= swap c by_ = s.
Proof.
  induction s as [|x s IH]; intros Hn; [done|]. apply not_elem_of_cons in Hn as [Hx Hn]. cbn. unfold swap at 1.
  destruct (Z.eqb_spec x c) as [->|_]; [done|]. cbn. f_equal. by apply IH.
Qed.
Lemma find_char_first c s a b : find_split [c] s = Some (a, b) -> c ∉ a.
Proof.
  revert a b. induction s as [|x s IH]; intros a b; cbn; [done|]. destruct (Z.eqb_spec c x) as [->|Hx].
  - intros [= <- <-]. apply not_elem_of_nil.
  - destruct (find_split [c] s) as [[a' b']|]; [|done]. intros [= <- <-]. apply not_elem_of_cons. split; [done|by eapply IH].
Qed.
Lemma pieces_bind c by_ fuel : ∀ s, (length s <= fuel)%nat -> join by_ (match_pieces fuel [c] s) = s ≫= swap c by_.
Proof.
  induction fuel as [|fuel IH]; intros s Hl; [by destruct s; cbn in *; [|lia]|]. cbn [match_pieces].
  destruct (find_split [c] s) as [[a b]|] eqn:E.
  - pose proof (find_char_first _ _ _ _ E) as Hc. apply find_split_Some in E as ->. rewrite join_cons by (destruct fuel; cbn; by repeat case_match).
    rewrite IH by (rewrite !length_app in Hl; cbn in Hl; lia). rewrite !bind_app. rewrite (swap_clean c by_ a Hc). cbn. unfold swap at 2. by rewrite Z.eqb_refl, app_nil_r.
  - cbn. symmetry. by apply swap_clean, find_char_None.
Qed.
Lemma replace_char_bind c by_ s : replace_char c by_ s = s ≫= swap c by_.
Proof. by apply pieces_bind. Qed.
Lemma bind_bind (f g : Z → list Z) (s : list Z) : (s ≫= f) ≫= g = s ≫= (λ x, f x ≫= g).
Proof. induction s as [|x s IH]; [done|]. cbn. by rewrite bind_app, <- IH. Qed.
Lemma bind_pointwise (f g : Z → list Z) (s : list Z) : (∀ x, f x = g x) -> s ≫= f = s ≫= g.
Proof. intros He. induction s as [|x s IH]; [done|]. cbn. by rewrite He, <- IH. Qed.
(** One code per character: none of them begins another. *)
Definition text_code (x : Z) : list Z :=
  if x =? 38 then lit "&amp;" else if x =? 60 then lit "&lt;" else if x =? 62 then lit "&gt;" else [x].
Definition attr_code (x : Z) : list Z := if x =? DQ then lit "&quot;" else if x =? 39 then lit "&apos;" else text_code x.
Lemma swap_other c by_ x : x <> c -> swap c by_ x = [x].
Proof. unfold swap. by intros ->%Z.eqb_neq. Qed.
Lemma bind_one (f : Z → list Z) x : [x] ≫= f = f x.
Proof. cbn. apply app_nil_r. Qed.
Ltac swaps := repeat first [rewrite bind_one | rewrite swap_other by done].
Lemma xml_text_codes s : xml_escape_text s = s ≫= text_code.
Proof.
  unfold xml_escape_text. rewrite !replace_char_bind, !bind_bind. apply bind_pointwise. intros x. unfold text_code.
  destruct (Z.eqb_spec x 38) as [->|H38]; [reflexivity|]. destruct (Z.eqb_spec x 60) as [->|H60]; [reflexivity|].
  destruct (Z.eqb_spec x 62) as [->|H62]; [reflexivity|]. by swaps.
Qed.
Lemma xml_attr_codes s : xml_escape_attr s = s ≫= attr_code.
Proof.
  unfold xml_escape_attr. rewrite xml_text_codes, !replace_char_bind, !bind_bind. apply bind_pointwise. intros x. unfold attr_code, text_code.
  destruct (Z.eqb_spec x DQ) as [->|Hq]; [reflexivity|]. destruct (Z.eqb_spec x 39) as [->|Ha]; [reflexivity|].
  destruct (Z.eqb_spec x 38) as [->|H38]; [reflexivity|]. destruct (Z.eqb_spec x 60) as [->|H60]; [reflexivity|].
  destruct (Z.eqb_spec x 62) as [->|H62]; [reflexivity|]. by swaps.
Qed.
(** What escaping leaves out. *)
Lemma codes_without c (f : Z → list Z) s : (∀ x, c ∉ f x) -> c ∉ s ≫= f.
Proof. intros Hf. rewrite list_elem_of_bind. intros (x & Hx & _). by apply (Hf x). Qed.
Lemma text_code_lt x : 60 ∉ text_code x.
Proof. unfold text_code. repeat case_match; try (apply (bool_decide_unpack _); vm_compute; exact I). apply Z.eqb_neq in H0. by rewrite list_elem_of_singleton. Qed.
Lemma attr_code_clean x : (60 ∉ attr_code x) ∧ (DQ ∉ attr_code x).
Proof.
  unfold attr_code. repeat case_match; try (split; apply (bool_decide_unpack _); vm_compute; exact I). split; [apply text_code_lt|].
  unfold text_code. repeat case_match; try (apply (bool_decide_unpack _); vm_compute; exact I). apply Z.eqb_neq in H. by rewrite list_elem_of_singleton.
Qed.
Lemma text_without_lt s : 60 ∉ xml_escape_text s.
Proof. rewrite xml_text_codes. apply codes_without. exact text_code_lt. Qed.
Lemma attr_without_lt s : 60 ∉ xml_escape_attr s.
Proof. rewrite xml_attr_codes. apply codes_without. intros x. apply attr_code_clean. Qed.
Lemma attr_without_quote s : DQ ∉ xml_escape_attr s.
Proof. rewrite xml_attr_codes. apply codes_without. intros x. apply attr_code_clean. Qed.

(** ** Escaped identifiers differ *)

Lemma code_prefix x y a b : attr_code x ++ a = attr_code y ++ b -> x = y ∧ a = b.
Proof.
  assert (Hc : ∀ z, (attr_code z = [z] ∧ z <> 38) ∨ (z = DQ ∨ z = 39 ∨ z = 38 ∨ z = 60 ∨ z = 62)).
  { intros z. unfold attr_code, text_code. repeat match goal with |- context [z =? ?c] => destruct (Z.eqb_spec z c); [tauto|] end. by left. }
  assert (Hl : ∀ z l, z = DQ ∨ z = 39 ∨ z = 38 ∨ z = 60 ∨ z = 62 -> ∃ r, attr_code z ++ l = 38 :: r).
  { intros z l Hz. destruct Hz as [-> | [-> | [-> | [-> | ->]]]]; by eexists. }
  destruct (Hc x) as [[-> Hx]|Hx], (Hc y) as [[-> Hy]|Hy].
  - intros [= -> ->]. done.
  - destruct (Hl y b Hy) as [r ->]. by intros [= ->].
  - destruct (Hl x a Hx) as [r ->]. by intros [= <-].
  - destruct Hx as [-> | [-> | [-> | [-> | ->]]]], Hy as [-> | [-> | [-> | [-> | ->]]]]; intros He; try discriminate He; split; try done;
      by apply app_inv_head in He.
Qed.
Lemma xml_attr_inj a b : xml_escape_attr a = xml_escape_attr b -> a = b.
Proof.
  rewrite !xml_attr_codes. revert b. induction a as [|x a IH]; intros [|y b]; [done| | |].
  - cbn. intros He. symmetry in He. apply app_nil in He as [He _]. exfalso. revert He. unfold attr_code, text_code. by repeat case_match.
  - cbn. intros He. apply app_nil in He as [He _]. exfalso. revert He. unfold attr_code, text_code. by repeat case_match.
  - cbn. intros He. apply code_prefix in He as [-> He]. f_equal. by apply IH.
Qed.
(** The text before the first quote. *)
Lemma before_quote (c : Z) (a b p q : list Z) : c ∉ a -> c ∉ b -> a ++ c :: p = b ++ c :: q -> a = b.
Proof.
  revert b. induction a as [|x a IH]; intros [|y b] Ha Hb He; [done| | |].
  - injection He as -> _. apply not_elem_of_cons in Hb as [Hb _]. done.
  - injection He as -> _. apply not_elem_of_cons in Ha as [Ha _]. done.
  - injection He as -> He. apply not_elem_of_cons in Ha as [_ Ha]. apply not_elem_of_cons in Hb as [_ Hb]. f_equal. by apply IH.
Qed.

(** ** Where a tag can begin *)

Fixpoint opens (s : list Z) : bool :=
  match s with [] => false | c :: s => ((c =? 60) && match s with d :: _ => d =? 116 | [] => false end) || opens s end.
(** No tag that begins with [t], and none that is cut off. *)
Definition closed (s : list Z) : bool := negb (opens s) && negb (List.last s 0 =? 60).
Lemma opens_occurrence a b : opens (a ++ 60 :: 116 :: b) = true.
Proof. induction a as [|x a IH]; [done|]. cbn. rewrite IH. apply orb_true_r. Qed.
Lemma opens_app a b : closed a = true -> opens (a ++ b) = opens b.
Proof.
  unfold closed. induction a as [|x a IH]; [done|]. rewrite andb_true_iff, !negb_true_iff. intros [Ho Hl]. cbn in Ho.
  apply orb_false_iff in Ho as [Hx Ho]. destruct a as [|y a].
  - cbn in *. by rewrite Hl.
  - cbn [app opens]. change (List.last (x :: y :: a) 0) with (List.last (y :: a) 0) in Hl. cbn [app] in Hx. rewrite Hx. cbn [orb].
    apply IH. by rewrite Ho, Hl.
Qed.
Lemma closed_clean s : 60 ∉ s -> closed s = true.
Proof.
  unfold closed. induction s as [|x s IH]; [done|]. intros [Hx Hs]%not_elem_of_cons. specialize (IH Hs). cbn [opens].
  destruct (Z.eqb_spec x 60) as [->|_]; [done|]. cbn [andb orb]. destruct s; [cbn; by destruct (Z.eqb_spec x 60); [congruence|]|exact IH].
Qed.
Lemma closed_attribute name value : 60 ∉ name -> closed (attribute name value) = true.
Proof.
  intros Hn. apply closed_clean. unfold attribute. rewrite !not_elem_of_app, !list_elem_of_singleton. split_and!; [done|by apply (bool_decide_unpack _); vm_compute|done| |done].
  apply attr_without_lt.
Qed.

Lemma contains_app needle a b : contains needle (a ++ needle ++ b) = true.
Proof.
  unfold contains. destruct (find_split needle (a ++ needle ++ b)) eqn:E; [done|]. rewrite find_split_None in E. by destruct (E a b).
Qed.
Lemma contains_split needle s : contains needle s = true -> ∃ a b, s = a ++ needle ++ b.
Proof. unfold contains. destruct (find_split needle s) as [[a b]|] eqn:E; [|done]. apply find_split_Some in E. by exists a, b. Qed.
Lemma attribute_closed (name : string) value : bool_decide (60 ∉ lit name) = true -> closed (attribute (lit name) value) = true.
Proof. intros Hn%bool_decide_eq_true. by apply closed_attribute. Qed.
(** What follows the first character of a notification opens no tag a completion could
    begin with. *)
Ltac no_tag := change char with Z; repeat match goal with
  | |- context [opens (?a ++ ?b)] =>
      lazymatch a with
      | attribute _ _ => rewrite (opens_app a b) by (apply attribute_closed; vm_compute; reflexivity)
      | xml_escape_text _ => rewrite (opens_app a b) by (apply closed_clean, text_without_lt)
      | lit _ => rewrite (opens_app a b) by (vm_compute; reflexivity)
      | [_] => rewrite (opens_app a b) by (vm_compute; reflexivity)
      end
  end.
Lemma reason_opens reason b : opens (reason_element reason ++ b) = opens b.
Proof.
  destruct reason as [reason|]; [|done]. unfold reason_element. rewrite <- (app_assoc [NL]), <- (app_assoc (lit _)), <- (app_assoc (xml_escape_text _)). no_tag. done.
Qed.
Definition completion_body (tool_call_id tool_name status result : str) (reason : option str) : str :=
  [DQ] ++ lit " " ++ attribute (lit "tool_name") tool_name ++ lit " " ++ attribute (lit "status") status ++ lit ">" ++ [NL]
  ++ lit "  <result>" ++ xml_escape_text (compact_summary result) ++ lit "</result>" ++ reason_element reason ++ [NL] ++ lit "</tool-completion>".
Definition COMPLETION_TAG : str := lit "tool-completion tool_call_id=" ++ [DQ].
Lemma completion_split id name status result reason :
  render_tool_completion id name status result reason = 60 :: COMPLETION_TAG ++ xml_escape_attr id ++ completion_body id name status result reason.
Proof. unfold render_tool_completion, completion_body, attribute. rewrite <- !app_assoc. reflexivity. Qed.
Lemma needle_split id : completion_needle id = 60 :: COMPLETION_TAG ++ xml_escape_attr id ++ [DQ].
Proof. reflexivity. Qed.
Lemma body_opens_nothing id name status result reason : opens (COMPLETION_TAG ++ xml_escape_attr id ++ completion_body id name status result reason) = false.
Proof.
  rewrite opens_app by (vm_compute; reflexivity). rewrite opens_app by (apply closed_clean, attr_without_lt). unfold completion_body. no_tag.
  rewrite reason_opens. no_tag. vm_compute. reflexivity.
Qed.
Lemma needle_opens rest id a b : rest = a ++ completion_needle id ++ b -> opens rest = true.
Proof. intros ->. rewrite needle_split. apply opens_occurrence. Qed.

(** A completion is found again by the identifier of its call, and by no other: the
    text that is looked for occurs in the completion of a call exactly when the call is
    the one that is asked for, whatever the names, the output and the reason are. *)
Lemma completions_are_found_by_their_call id id' name status result reason :
  is_completion_of id (render_tool_completion id' name status result reason) = true <-> id = id'.
Proof.
  unfold is_completion_of. rewrite completion_split. split.
  - intros (a & b & He)%contains_split. destruct a as [|x a].
    + rewrite needle_split in He. cbn [app] in He. injection He as He. rewrite <- !app_assoc in He.
      symmetry. apply xml_attr_inj. eapply (before_quote DQ); [apply attr_without_quote|apply attr_without_quote|exact He].
    + apply (f_equal tail) in He. cbn [app tail] in He. apply needle_opens in He. by rewrite body_opens_nothing in He.
  - intros <-. change (60 :: COMPLETION_TAG ++ xml_escape_attr id ++ completion_body id name status result reason)
      with ([] ++ (60 :: COMPLETION_TAG ++ xml_escape_attr id ++ [DQ] ++ tail (completion_body id name status result reason))).
    rewrite (app_assoc (xml_escape_attr id)), (app_assoc COMPLETION_TAG).
    rewrite needle_split. apply (contains_app (60 :: COMPLETION_TAG ++ xml_escape_attr id ++ [DQ]) []).
Qed.
Lemma notification_is_no_completion id edge status summary : is_completion_of id (render_notification edge status summary) = false.
Proof.
  unfold is_completion_of. destruct (contains _ _) eqn:E; [|done]. apply contains_split in E as (a & b & He). apply needle_opens in He.
  rewrite <- He. unfold render_notification. no_tag. vm_compute. reflexivity.
Qed.

(** ** Summaries *)

Lemma last_default (l : list Z) y d d' : List.last (y :: l) d = List.last (y :: l) d'.
Proof. revert y. induction l as [|z l IH]; intros y; [done|exact (IH z)]. Qed.
Lemma last_cons_default (l : list Z) x d : List.last (x :: l) d = List.last l x.
Proof. destruct l as [|y l]; [done|]. apply (last_default l y d x). Qed.
Lemma boundary_spec s : ∀ off d, off <= SUMMARY_LIMIT < off + str_len s ->
  let b := List.last (take_while (λ idx, idx <=? SUMMARY_LIMIT) (char_indices off s)) d in
  SUMMARY_LIMIT - 4 < b <= SUMMARY_LIMIT ∧ off <= b ∧ is_char_boundary s (b - off) = true.
Proof.
  induction s as [|c s IH]; intros off d [Hl Hg]; [cbn in Hg; lia|]. cbn [str_len] in Hg. pose proof (utf8_width_bounds c) as Hc.
  cbn [char_indices take_while]. rewrite (proj2 (Z.leb_le _ _) Hl). destruct (Z.leb_spec (off + utf8_width c) SUMMARY_LIMIT) as [Hn|Hn].
  - specialize (IH (off + utf8_width c) off). destruct IH as (Hb & Ho & Hi); [lia|].
    rewrite last_cons_default.
    split; [exact Hb|]. split; [lia|]. cbn [is_char_boundary]. apply orb_true_iff. right. rewrite andb_true_iff. split; [apply Z.leb_le; lia|].
    rewrite <- Hi. f_equal. lia.
  - assert (Hs : take_while (λ idx, idx <=? SUMMARY_LIMIT) (char_indices (off + utf8_width c) s) = []).
    { destruct s; [done|]. cbn. by rewrite (proj2 (Z.leb_gt _ _) Hn). }
    rewrite Hs. cbn [List.last]. split; [lia|]. split; [lia|]. rewrite Z.sub_diag. apply is_char_boundary_0.
Qed.
Lemma summary_slice s : SUMMARY_LIMIT < str_len s ->
  ∃ head rest, slice_to s (summary_boundary s) = Some head ∧ s = head ++ rest ∧ SUMMARY_LIMIT - 4 < str_len head <= SUMMARY_LIMIT.
Proof.
  intros Hs. destruct (boundary_spec s 0 0) as (Hb & Ho & Hi); [unfold SUMMARY_LIMIT in *; lia|]. rewrite Z.sub_0_r in Hi. fold (summary_boundary s) in *.
  apply is_char_boundary_slice in Hi as (head & rest & Hh & -> & Hl). exists head, rest. rewrite Hl. done.
Qed.
(** A summary is the text itself, its white space collapsed, when that has at most
    4000 bytes; otherwise it is a prefix of it, cut between two characters within the
    last three bytes before the limit, and three dots: slicing never panics and a
    summary has at most 4003 bytes. *)
Theorem summaries_are_bounded value :
  str_len (compact_summary value) <= SUMMARY_LIMIT + 3
  ∧ (str_len (normalize_summary value) <= SUMMARY_LIMIT -> compact_summary value = normalize_summary value)
  ∧ (SUMMARY_LIMIT < str_len (normalize_summary value) ->
     ∃ head rest, slice_to (normalize_summary value) (summary_boundary (normalize_summary value)) = Some head
       ∧ normalize_summary value = head ++ rest ∧ SUMMARY_LIMIT - 4 < str_len head ∧ compact_summary value = head ++ lit "...").
Proof.
  unfold compact_summary. destruct (Z.leb_spec (str_len (normalize_summary value)) SUMMARY_LIMIT) as [Hl|Hl].
  - split; [lia|]. split; [done|lia].
  - destruct (summary_slice _ Hl) as (head & rest & Hs & He & Hb). rewrite Hs. change (default [] (Some head)) with head. split; [rewrite str_len_app; change (str_len (lit "...")) with 3; lia|].
    split; [lia|]. intros _. exists head, rest. split_and!; [reflexivity|exact He|lia|reflexivity].
Qed.

(** ** A quoted marker

    The text of a summary keeps its quotes.  A child whose final response quotes the
    attribute of another one is taken for that one's notification. *)

Definition quoting_edge : ChildEdge :=
  mkChildEdge (lit "p") (lit "s") (lit "t1") (lit "child-1") (lit "cs") (lit "did:c") (lit "b") Background (lit "completed").
Theorem a_quoted_marker_is_taken_for_a_notification :
  is_notification_of (lit "child-2") (render_notification quoting_edge (lit "completed") (lit "see child_request_id=" ++ [DQ] ++ lit "child-2" ++ [DQ])) = true.
Proof. vm_compute. reflexivity. Qed.
