(* ===== verification/BackgroundCompletion.v ===== *)
(** * Delivering background completions

    [background_completion/notification_delivery.rs] and [side_effects.rs]: the end of a
    background tool or child becomes one message of its parent's session, bound to a
    request that will read it; the row of the tool call is settled last, so that a pass
    that was cut short is repeated and finds what it had done.  [request_binding.rs] and
    [watcher.rs]: how the parent is loaded and validated.

    The operations run point by point between the writes of others ([Points]) over the
    collections of [RequestQueue]. *)

From stdpp Require Import sorting.
From S2P Require Import Prelude RustStr Errors RequestState Retry Store ExecutionLease Lifecycle ToolCall TriggerMaterializer Points RequestQueue CompletionText.
Open Scope Z_scope.

(** A query that is repeated while the store reports a transaction conflict. *)
Definition gm_read {W A} (q : W → A) : PM W A := gm_mutate DEFRA_DB_CONFLICT_MAX_RETRIES (λ _ w, (Ok (q w), w)).

Section completion.
Context `{Chrono} `{ChronoSecs} (qe : QueueEnv).

(** ** Loading a request *)

Definition is_steering_queue (metadata : option str) : bool :=
  opt_eqb str_eqb (non_empty_text metadata ≫= qe_queue_source qe) (Some (lit "steering")).
Definition incoherent {A} : result Error A := Err (Msg (lit "AgentRequest parent linkage incoherent: must set both or neither parent fields")).
(** The parent links and the depth of a request agree. *)
Definition validate_agent_request (r : QueueRow) : result Error unit :=
  let l := q_lineage r in
  let metadata := ri_metadata (q_ident r) in
  if is_some_and (λ seed, seed <? 0) (li_seed l) then Err (Msg (lit "agent request seed must be non-negative"))
  else if is_some_and (λ limit, limit <=? 0) (li_max_total_tokens l) then Err (Msg (lit "agent request max_total_tokens must be positive"))
  else
  let has_parent_req := bool_decide (is_Some (ri_parent_request_id (q_ident r))) in
  let has_parent_tc := bool_decide (is_Some (li_parent_tool_call_id l)) in
  let has_parent_req_doc := bool_decide (is_Some (li_parent_request_doc_id l)) in
  let has_parent_tc_doc := bool_decide (is_Some (li_parent_tool_call_doc_id l)) in
  let depth := unwrap_or 0 (li_subagent_depth l) in
  let request_only_control_link := has_parent_req && negb has_parent_tc
    && (is_steering_queue metadata || is_goal_queue (qe_from_str qe) metadata || is_background_completion_request (qe_from_str qe) metadata) in
  if negb (Bool.eqb has_parent_req has_parent_req_doc) || negb (Bool.eqb has_parent_tc has_parent_tc_doc) then incoherent
  else if negb (Bool.eqb has_parent_req has_parent_tc) && negb request_only_control_link then incoherent
  else if (0 <? depth) && negb request_only_control_link && negb (has_parent_req && has_parent_tc && has_parent_req_doc && has_parent_tc_doc) then incoherent
  else if negb has_parent_req && negb (depth =? 0) then incoherent
  else if has_parent_req && (depth =? 0) && negb request_only_control_link then incoherent
  else Ok tt.
(** [AgentRequest::try_from]: the columns a request must have, blank optional ones
    dropped. *)
Definition agent_request_of (r : QueueRow) : result Error QueueRow :=
  let i := q_ident r in
  let? depth := match li_subagent_depth (q_lineage r) with
                | None => Ok 0
                | Some d => if (0 <=? d) && (d <=? u32_max) then Ok d else Err (Msg (lit "agent request subagent_depth must fit in u32"))
                end in
  let? agent_did := ok_or (Msg (lit "agent request is missing agent_did")) (ri_agent_did i) in
  let? session_id := ok_or (Msg (lit "agent request is missing session_id")) (ri_session_id i) in
  let? created_at := ok_or (Msg (lit "agent request is missing created_at")) (ri_created_at i) in
  let ident := {| ri_doc_id := ri_doc_id i; ri_request_id := ri_request_id i; ri_agent_did := Some agent_did; ri_requester_did := non_empty_text (ri_requester_did i);
                  ri_behavior_id := non_empty_text (ri_behavior_id i); ri_session_id := Some session_id; ri_created_at := Some created_at;
                  ri_metadata := ri_metadata i; ri_content := ri_content i; ri_trigger_id := non_empty_text (ri_trigger_id i);
                  ri_trigger_kind := non_empty_text (ri_trigger_kind i); ri_correlation := non_empty_text (ri_correlation i); ri_retry_key := None;
                  ri_workspace_id := non_empty_text (ri_workspace_id i); ri_parent_request_id := ri_parent_request_id i;
                  ri_trigger_context := non_empty_text (ri_trigger_context i) |} in
  let l := q_lineage r in
  let request := mkQueueRow
    {| r_ident := ident; r_state := None; r_generation := None; r_expiry := None; r_progress := None; r_interrupt := None; r_valid_until := None;
       r_deadline := non_empty_text (r_deadline (q_row r)); r_backend := None; r_claimed_at := None; r_failure := None; r_terminalized_at := None;
       r_redrive := None; r_bg_seq := None; r_bg_keys := None |} (non_empty_text (q_execution_origin r)) None
    (mkLineage (Some depth) (li_parent_request_doc_id l) (li_parent_tool_call_id l) (li_parent_tool_call_doc_id l) (li_seed l) (li_max_total_tokens l)) in
  let? _ := validate_agent_request request in
  Ok request.
Definition resolve_request_doc_id (request_id : str) : QM (option str) :=
  rows ← gm_read (λ w, take 2 (List.filter (λ r, str_eqb (ri_request_id (q_ident r)) request_id) (qw_requests w)));
  match rows with
  | [] => mret None
  | [r] => mret (Some (ri_doc_id (q_ident r)))
  | _ => gm_fail (Msg (lit "AgentRequest request_id=" ++ request_id ++ lit " is ambiguous"))
  end.
Definition load_agent_request (request_id : str) : QM (option QueueRow) :=
  found ← resolve_request_doc_id request_id;
  match found with
  | None => mret None
  | Some doc_id =>
      row ← gm_read (λ w, List.find (λ r, str_eqb (ri_doc_id (q_ident r)) doc_id) (qw_requests w));
      match row with
      | None => mret None
      | Some row =>
          if str_eqb (ri_request_id (q_ident row)) request_id then request ← gm_lift (agent_request_of row); mret (Some request)
          else gm_fail (Msg (lit "AgentRequest changed logical request binding while loading " ++ request_id))
      end
  end.

(** ** What an earlier pass has left *)

Record ExistingNotification : Type := mkExisting {
  en_sequence : Z; en_timestamp : Z; en_request_id : option str; en_request_doc_id : option str }.
Definition message_le (a b : QueueMessage) : Prop := qg_sequence a <= qg_sequence b.
#[global] Instance message_le_dec : RelDecision message_le.
Proof. intros a b. unfold message_le. apply _. Defined.
Definition session_messages (session_id : str) (w : QueueWorld) : list QueueMessage :=
  merge_sort message_le (List.filter (λ m, str_eqb (qg_session_id m) session_id) (qw_messages w)).
(** A sequence that is no [u32] spoils the whole answer. *)
Definition decoded (rows : list QueueMessage) : list QueueMessage :=
  if forallb (λ m, (0 <=? qg_sequence m) && (qg_sequence m <=? u32_max)) rows then rows else [].
Definition parse_utc_timestamp (value field : str) : result Error Z :=
  match parse_from_rfc3339 value with Ok t => Ok t | Err e => Err (Msg (field ++ lit " is not RFC3339: " ++ e)) end.
Definition find_notification (parent_session_id : str) (is_it : str → bool) : QM (option ExistingNotification) :=
  rows ← gm_query (λ w, decoded (session_messages parent_session_id w));
  match List.find (λ m, is_it (qg_content m)) rows with
  | None => mret None
  | Some m =>
      timestamp ← gm_lift (parse_utc_timestamp (qg_timestamp m) (lit "AgentMessage.timestamp"));
      mret (Some (mkExisting (qg_sequence m) timestamp (Some (qg_request_id m)) (qg_request_doc_id m)))
  end.
Definition existing_notification (parent_session_id child_request_id : str) : QM (option ExistingNotification) :=
  find_notification parent_session_id (is_notification_of child_request_id).
Definition existing_tool_completion_notification (parent_session_id tool_call_id : str) : QM (option ExistingNotification) :=
  find_notification parent_session_id (is_completion_of tool_call_id).
(** The row is a wake of the queue: here the key is compared as it is. *)
Definition wakes_queue (queue_key : str) (r : QueueRow) : bool :=
  is_some_and (λ hints, source_eqb (qh_source hints) QS_BackgroundCompletion && is_coalesce (qh_policy hints)
    && opt_eqb str_eqb (qh_key hints) (Some queue_key)) (parse_queue_hints (qe_from_str qe) (ri_metadata (q_ident r))).
Definition bound_background_wake_request (notification : ExistingNotification) (queue_key : str) : QM (option str) :=
  match non_empty_text (en_request_id notification), non_empty_text (en_request_doc_id notification) with
  | Some request_id, Some request_doc_id =>
      found ← gm_query (λ w, List.find (λ r, str_eqb (ri_doc_id (q_ident r)) request_doc_id) (qw_requests w));
      match found with
      | None => mret None
      | Some row => mret (if str_eqb (ri_request_id (q_ident row)) request_id && wakes_queue queue_key row then Some (ri_request_id (q_ident row)) else None)
      end
  | _, _ => mret None
  end.
Fixpoint wakeup_after (queue_key : str) (notification_timestamp : Z) (rows : list QueueRow) : result Error (option str) :=
  match rows with
  | [] => Ok None
  | row :: rows =>
      if negb (wakes_queue queue_key row) then wakeup_after queue_key notification_timestamp rows
      else
      let? text := ok_or (Msg (lit "AgentRequest.created_at is missing")) (ri_created_at (q_ident row)) in
      let? created_at := parse_utc_timestamp text (lit "AgentRequest.created_at") in
      if notification_timestamp <=? created_at then Ok (Some (ri_request_id (q_ident row))) else wakeup_after queue_key notification_timestamp rows
  end.
Definition scheduled_rows (session_id : str) (w : QueueWorld) : list QueueRow :=
  merge_sort row_le (List.filter (λ r, opt_eqb str_eqb (ri_session_id (q_ident r)) (Some session_id)
    && opt_eqb str_eqb (q_execution_origin r) (Some (lit "scheduled"))) (qw_requests w)).
Definition existing_wakeup_after (parent_session_id queue_key : str) (notification_timestamp : Z) : QM (option str) :=
  rows ← gm_query (scheduled_rows parent_session_id);
  gm_lift (wakeup_after queue_key notification_timestamp rows).

(** ** Settling the row of the call *)

Definition set_delivered (at_ : str) (t : ToolRow) : ToolRow :=
  mkToolRow (tr_doc_id t) (tr_tool_call_key t) (tr_session_id t) (tr_agent_did t) (tr_request_id t) (tr_tool_call_id t) (tr_background t)
    (tr_message_sequence t) (tr_status t) (tr_lifecycle_state t) (Some at_).
Definition set_tool_status (status : str) (t : ToolRow) : ToolRow :=
  mkToolRow (tr_doc_id t) (tr_tool_call_key t) (tr_session_id t) (tr_agent_did t) (tr_request_id t) (tr_tool_call_id t) (tr_background t)
    (tr_message_sequence t) status (tr_lifecycle_state t) (tr_delivered_at t).
Definition update_tools (p : ToolRow → bool) (f : ToolRow → ToolRow) : QM unit :=
  gm_mutate DEFRA_DB_CONFLICT_MAX_RETRIES (λ _ w, (Ok tt, set_qw_tool_rows (update_where p f (qw_tool_rows w)) w)).
Definition mark_background_tool_notification_delivered (agent_did parent_request_id tool_call_id : str) : QM unit :=
  now ← gm_now;
  update_tools (λ t, str_eqb (tr_agent_did t) agent_did && str_eqb (tr_request_id t) parent_request_id && str_eqb (tr_tool_call_id t) tool_call_id
                     && bool_decide (tr_delivered_at t = None)) (set_delivered (to_rfc3339 now)).
Definition COMPLETED : str := lit "completed".
Definition bridge_state_is_terminal (state : str) : bool :=
  existsb (str_eqb state) [COMPLETED; lit "failed"; lit "timedOut"; lit "cancelled"].
Definition awaits_side_effects (t : ToolRow) : bool :=
  (str_eqb (tr_status t) (lit "completionPending") || starts_with (lit "completionPending:") (tr_status t))
  && bridge_state_is_terminal (tr_lifecycle_state t).
Definition tool_key (session_id tool_call_id : str) : str := session_id ++ lit ":" ++ tool_call_id.
(** The update also rewrites the [DateTime] columns with the values it reads, which are
    not columns of the model. *)
Definition mark_background_tool_completion_side_effects_done (session_id tool_call_id : str) : QM unit :=
  found ← gm_query (λ w, List.find (λ t, str_eqb (tr_tool_call_key t) (tool_key session_id tool_call_id)) (qw_tool_rows w));
  match found with
  | None => gm_fail (Msg (lit "background completion tool row " ++ tool_key session_id tool_call_id ++ lit " not found"))
  | Some row =>
      if str_eqb (tr_status row) COMPLETED then mret tt
      else if negb (awaits_side_effects row)
      then gm_fail (Msg (lit "background completion tool row " ++ tool_key session_id tool_call_id ++ lit " is not awaiting terminal side effects"))
      else
      _ ← gm_query (λ _, tt);
      update_tools (λ t, str_eqb (tr_doc_id t) (tr_doc_id row) && str_eqb (tr_status t) (tr_status row)) (set_tool_status COMPLETED)
  end.

(** ** Delivery *)

Definition BACKGROUND_COMPLETION_WAKE_PROMPT : str := lit "Review the new background completion results and continue the task if needed.".
Definition completion_queue_key (session_id : str) : str := lit "background_completion:" ++ session_id.
Definition completion_hints (session_id parent_request_id : str) : QueueHints :=
  {| qh_source := QS_BackgroundCompletion; qh_policy := QP_Coalesce; qh_key := Some (completion_queue_key session_id);
     qh_queued_after_request_id := Some parent_request_id; qh_interrupted_request_id := None |}.
Definition load_parent (parent_request_id : str) : QM QueueRow :=
  found ← load_agent_request parent_request_id;
  gm_lift (ok_or (Msg (lit "parent AgentRequest " ++ parent_request_id ++ lit " not found")) found).
Definition settle_tool (parent : QueueRow) (session_id parent_request_id tool_call_id : str) : QM unit :=
  _ ← mark_background_tool_notification_delivered (parent_did parent) parent_request_id tool_call_id;
  mark_background_tool_completion_side_effects_done session_id tool_call_id.
Definition append_background_tool_completion (parent_session_id parent_request_id tool_call_id tool_name status result : str) (reason : option str) : QM unit :=
  parent ← load_parent parent_request_id;
  let queue_key := completion_queue_key parent_session_id in
  let settle := settle_tool parent parent_session_id parent_request_id tool_call_id in
  existing ← existing_tool_completion_notification parent_session_id tool_call_id;
  match existing with
  | Some existing =>
      bound ← bound_background_wake_request existing queue_key;
      match bound with
      | Some _ => settle
      | None =>
          wake ← existing_wakeup_after parent_session_id queue_key (en_timestamp existing);
          match wake with
          | Some _ => settle
          | None =>
              _ ← enqueue_session_request qe parent BACKGROUND_COMPLETION_WAKE_PROMPT Scheduled (completion_hints parent_session_id parent_request_id);
              settle
          end
      end
  | None =>
      _ ← enqueue_background_completion_with_message qe parent (render_tool_completion tool_call_id tool_name status result reason)
            (background_completion_notification_message_key tool_call_id (lit "tool")) BACKGROUND_COMPLETION_WAKE_PROMPT
            (completion_hints parent_session_id parent_request_id);
      settle
  end.
Record SideEffects : Type := mkSideEffects {
  se_notification_sequence : Z; se_wake_request_id : str; se_created_notification : bool; se_created_wake : bool }.
Definition ensure_projection_side_effects (parent_session_id parent_request_id : str) (edge : ChildEdge) (status summary : str) : QM SideEffects :=
  parent ← load_parent parent_request_id;
  let queue_key := completion_queue_key parent_session_id in
  let hints := completion_hints parent_session_id parent_request_id in
  existing ← existing_notification parent_session_id (ed_child_request_id edge);
  match existing with
  | Some existing =>
      bound ← bound_background_wake_request existing queue_key;
      match bound with
      | Some wake_request_id => mret (mkSideEffects (en_sequence existing) wake_request_id false false)
      | None =>
          wake ← existing_wakeup_after parent_session_id queue_key (en_timestamp existing);
          match wake with
          | Some wake_request_id => mret (mkSideEffects (en_sequence existing) wake_request_id false false)
          | None =>
              wake ← enqueue_session_request qe parent BACKGROUND_COMPLETION_WAKE_PROMPT Scheduled hints;
              mret (mkSideEffects (en_sequence existing) (er_request_id wake) false true)
          end
      end
  | None =>
      enqueued ← enqueue_background_completion_with_message qe parent (render_notification edge status summary)
        (background_completion_notification_message_key (ed_child_request_id edge) (lit "subagent")) BACKGROUND_COMPLETION_WAKE_PROMPT hints;
      mret (mkSideEffects (ei_message_sequence enqueued) (er_request_id (ei_request enqueued)) true (ei_created_request enqueued))
  end.

(** ** What everybody does to the session

    The rely of the theorems, and what the operations do themselves: messages are only
    added, under keys of their own, and a completion under the key of its call; requests
    keep what identifies them; a call that awaits its side effects does so until they
    are done. *)

Definition tool_message_key (tool_call_id : str) : str := background_completion_notification_message_key tool_call_id (lit "tool").
Definition keyed_text (content message_key : str) : Prop := ∀ id, is_completion_of id content = true -> message_key = tool_message_key id.
Definition well_keyed (m : QueueMessage) : Prop := keyed_text (qg_content m) (qg_message_key m).
Definition message_keys (w : QueueWorld) : list str := qg_message_key <$> qw_messages w.
Definition same_request (r r' : QueueRow) : Prop := q_ident r' = q_ident r ∧ q_execution_origin r' = q_execution_origin r.
Definition tool_progress (t t' : ToolRow) : Prop :=
  tr_doc_id t' = tr_doc_id t ∧ tr_tool_call_key t' = tr_tool_call_key t
  ∧ (tr_status t = COMPLETED ∨ awaits_side_effects t = true -> tr_status t' = COMPLETED ∨ (tr_status t' = tr_status t ∧ tr_lifecycle_state t' = tr_lifecycle_state t)).
Record evolves (w w' : QueueWorld) : Prop := mkEvolves {
  ev_messages : ∃ new, qw_messages w' = qw_messages w ++ new ∧ Forall well_keyed new;
  ev_keys : NoDup (message_keys w) -> NoDup (message_keys w');
  ev_requests : ∀ r, r ∈ qw_requests w -> ∃ r', r' ∈ qw_requests w' ∧ same_request r r';
  ev_tools : ∀ t, t ∈ qw_tool_rows w -> ∃ t', t' ∈ qw_tool_rows w' ∧ tool_progress t t' }.
#[global] Instance same_request_refl : Reflexive same_request.
Proof. done. Qed.
Lemma tool_progress_refl t : tool_progress t t.
Proof. unfold tool_progress. tauto. Qed.
Lemma tool_progress_trans t t' t'' : tool_progress t t' -> tool_progress t' t'' -> tool_progress t t''.
Proof.
  unfold tool_progress, awaits_side_effects. intros (Hd & Hk & Hs) (Hd' & Hk' & Hs'). split_and!; [congruence|congruence|].
  intros Ht. destruct (Hs Ht) as [Hc|[He Hl]]; [destruct Hs' as [?|[? ?]]; [by left|by left|left; congruence]|].
  rewrite <- He, <- Hl in Ht |- *. exact (Hs' Ht).
Qed.
#[global] Instance evolves_preorder : PreOrder evolves.
Proof.
  split.
  - intros w. split; [exists []; by rewrite app_nil_r|done|by intros r Hr; exists r|]. intros t Ht. exists t. split; [done|apply tool_progress_refl].
  - intros w1 w2 w3 [(n & Hm & Hn) Hk Hr Ht] [(n' & Hm' & Hn') Hk' Hr' Ht']. split.
    + exists (n ++ n'). rewrite Hm', Hm, <- app_assoc. split; [done|]. by apply list.Forall_app.
    + auto.
    + intros r (r' & H1 & H2)%Hr. apply Hr' in H1 as (r'' & H3 & H4). exists r''. split; [done|]. unfold same_request in *. intuition congruence.
    + intros t (t' & H1 & H2)%Ht. apply Ht' in H1 as (t'' & H3 & H4). exists t''. split; [done|by eapply tool_progress_trans].
Qed.
(** One collection at a time. *)
Lemma evolves_requests w rows : (∀ r, r ∈ qw_requests w -> ∃ r', r' ∈ rows ∧ same_request r r') -> evolves w (set_qw_requests rows w).
Proof.
  intros Hr. split; [exists []; by rewrite app_nil_r|done|exact Hr|]. intros t Ht. exists t. split; [done|apply tool_progress_refl].
Qed.
Lemma evolves_rows w p f : (∀ r, same_request r (f r)) -> evolves w (set_qw_requests (update_where p f (qw_requests w)) w).
Proof.
  intros Hf. apply evolves_requests. intros r Hr. exists (if p r then f r else r). split; [|destruct (p r); [apply Hf|done]].
  unfold update_where. apply list_elem_of_fmap. by exists r.
Qed.
Lemma evolves_tools w p f : (∀ t, p t = true -> tool_progress t (f t)) -> evolves w (set_qw_tool_rows (update_where p f (qw_tool_rows w)) w).
Proof.
  intros Hf. split; [exists []; by rewrite app_nil_r|done|by intros r Hr; exists r|]. intros t Ht. exists (if p t then f t else t). split.
  - unfold update_where. apply list_elem_of_fmap. by exists t.
  - destruct (p t) eqn:Ep; [by apply Hf|apply tool_progress_refl].
Qed.
Lemma evolves_create r w w' : create_request r w = Ok w' -> evolves w w'.
Proof.
  unfold create_request. repeat case_match; try done; intros [= <-]; apply evolves_requests; intros x Hx; exists x; split; try done; apply elem_of_app; by left.
Qed.
Lemma evolves_message m w w' : well_keyed m -> create_message m w = Ok w' -> evolves w w'.
Proof.
  intros Hm He. pose proof He as Hc. apply create_message_ok in Hc as (Hr & Hs & Hn). split.
  - exists [m]. split; [done|by repeat constructor].
  - intros Hd. unfold message_keys. rewrite Hs, fmap_app. apply list.NoDup_app. split_and!; [done| |apply NoDup_singleton].
    intros k (x & -> & Hx)%list_elem_of_fmap Hk. apply list_elem_of_singleton in Hk. rewrite list.Forall_forall in Hn. by apply (Hn x).
  - intros r ?. exists r. by rewrite Hr.
  - unfold create_message in He. case_match; [done|]. injection He as <-. intros t Ht. exists t. split; [done|apply tool_progress_refl].
Qed.

(** ** The operations do no more *)

Lemma moves_read {A} (q : QueueWorld → A) : moves evolves (gm_read q).
Proof. apply moves_retry; [apply _|]. done. Qed.
Lemma set_terminal_same state reason now by_ r : same_request r (set_terminal state reason now by_ r).
Proof. done. Qed.
Lemma moves_terminal p f : (∀ r, same_request r (f r)) -> moves evolves (terminal_update p f).
Proof. intros Hf. apply moves_retry; [apply _|]. intros id w. by apply evolves_rows. Qed.
Lemma moves_supersede survivor did dups : moves evolves (supersede_duplicates survivor did dups).
Proof.
  induction dups as [|d dups IH]; cbn [supersede_duplicates]; [moving|]. apply moves_bind; [apply _|moving|]. intros now.
  apply moves_bind; [apply _|by apply moves_terminal|by intros _].
Qed.
Lemma moves_reconcile sid did source key : moves evolves (reconcile_coalesced_pending_request qe sid did source key).
Proof.
  unfold reconcile_coalesced_pending_request, matching_coalesced_pending_requests. apply moves_bind; [apply _|moving|]. intros rows.
  case_match; [|moving]. apply moves_bind; [apply _|apply moves_supersede|moving].
Qed.
Lemma moves_behavior parent : moves evolves (parent_behavior_id qw_conversations parent).
Proof. unfold parent_behavior_id. moving. Qed.
Hint Resolve moves_read moves_supersede moves_reconcile moves_behavior : points.
Lemma moves_create_row budget (row : str → QueueRow) : moves evolves (gm_mutate budget (λ id w,
  match create_request (row id) w with Ok w' => (Ok id, w') | Err e => (Err e, w) end)).
Proof. apply moves_retry; [apply _|]. intros id w. destruct (create_request _ w) eqn:E; [by eapply evolves_create|reflexivity]. Qed.
Lemma moves_enqueue parent content origin hints : moves evolves (enqueue_session_request qe parent content origin hints).
Proof.
  unfold enqueue_session_request. apply moves_bind; [apply _|moving|]. intros behavior. apply moves_bind; [apply _|moving|]. intros [existing|]; [moving|].
  apply moves_bind; [apply _|moving|]. intros rid. apply moves_bind; [apply _|moving|]. intros now. apply moves_bind; [apply _|moving|]. intros row.
  apply moves_bind; [apply _|apply (moves_create_row _ (λ id, with_doc_id id row))|moving].
Qed.
Lemma attempt_evolves parent content message_key key behavior wake metadata p snapshot current tx w' : keyed_text content message_key ->
  background_completion_transaction_attempt qe parent content message_key key behavior wake metadata p snapshot = Ok tx ->
  tx_writes _ tx current = Ok w' -> evolves current w'.
Proof.
  intros Hk. unfold background_completion_transaction_attempt. destruct (take 2 _) as [|m [|? ?]]; [| |done].
  - destruct (max_generation _ _ _); [|done]. cbn. destruct (next_generation _); [|done]. cbn. destruct (List.find _ _ ≫= _).
    + intros [= <-]. cbn. by apply evolves_message.
    + destruct (session_request_row _ _ _ _ _ _ _ _ _) as [row|]; [|done]. cbn. intros [= <-]. cbn.
      destruct (create_request _ current) as [w1|] eqn:E; [|done]. cbn. intros Hm. transitivity w1; [by eapply evolves_create|eapply evolves_message; [|exact Hm]; exact Hk].
  - destruct (replay_notification _ _ _ _ _ _) as [[a rows]|]; [|done]. cbn. intros [= <-]. cbn. intros [= <-]. reflexivity.
Qed.
Lemma moves_completion parent content message_key wake hints : keyed_text content message_key ->
  moves evolves (enqueue_background_completion_with_message qe parent content message_key wake hints).
Proof.
  intros Hk. unfold enqueue_background_completion_with_message. case_match; [moving|]. case_match; [|moving].
  apply moves_bind; [apply _|moving|]. intros behavior. apply moves_bind; [apply _| |moving].
  apply moves_transaction; [apply _|]. intros p snapshot current tx w' Hb _ Hw. by eapply attempt_evolves.
Qed.
Lemma moves_find sid p : moves evolves (find_notification sid p).
Proof. unfold find_notification. moving. Qed.
Lemma moves_bound existing key : moves evolves (bound_background_wake_request existing key).
Proof. unfold bound_background_wake_request. moving. Qed.
Lemma moves_wakeup sid key at_ : moves evolves (existing_wakeup_after sid key at_).
Proof. unfold existing_wakeup_after. moving. Qed.
Lemma moves_parent id : moves evolves (load_parent id).
Proof. unfold load_parent, load_agent_request, resolve_request_doc_id. moving. Qed.
Lemma moves_tools p f : (∀ t, p t = true -> tool_progress t (f t)) -> moves evolves (update_tools p f).
Proof. intros Hf. apply moves_retry; [apply _|]. intros id w. by apply evolves_tools. Qed.
Lemma delivered_progress at_ t : tool_progress t (set_delivered at_ t).
Proof. unfold tool_progress. cbn. tauto. Qed.
Lemma done_progress t : tool_progress t (set_tool_status COMPLETED t).
Proof. unfold tool_progress. cbn. tauto. Qed.
Lemma moves_settle parent sid rid id : moves evolves (settle_tool parent sid rid id).
Proof.
  unfold settle_tool. apply moves_bind; [apply _| |intros _].
  - unfold mark_background_tool_notification_delivered. apply moves_bind; [apply _|moving|]. intros now. apply moves_tools. intros t _. apply delivered_progress.
  - unfold mark_background_tool_completion_side_effects_done. apply moves_bind; [apply _|moving|]. intros [row|]; [|moving].
    case_match; [moving|]. case_match; [moving|]. apply moves_bind; [apply _|moving|]. intros _. apply moves_tools. intros t _. apply done_progress.
Qed.
Hint Resolve moves_enqueue moves_completion moves_find moves_bound moves_wakeup moves_parent moves_settle : points.
Lemma completion_keyed id name status result reason : keyed_text (render_tool_completion id name status result reason) (tool_message_key id).
Proof. intros id' ->%completions_are_found_by_their_call. done. Qed.
Lemma notification_keyed edge status summary key : keyed_text (render_notification edge status summary) key.
Proof. intros id. by rewrite notification_is_no_completion. Qed.
Hint Resolve completion_keyed notification_keyed : points.
Lemma moves_append sid rid id name status result reason : moves evolves (append_background_tool_completion sid rid id name status result reason).
Proof. unfold append_background_tool_completion, existing_tool_completion_notification. fold (tool_message_key id). moving. Qed.
Lemma moves_projection sid rid edge status summary : moves evolves (ensure_projection_side_effects sid rid edge status summary).
Proof. unfold ensure_projection_side_effects, existing_notification. moving. Qed.

(** ** A completion that is acknowledged has its wake *)

Lemma stable_message m : stable evolves (λ w, m ∈ qw_messages w).
Proof. intros w w' [(new & -> & _) _ _ _] Hm. apply elem_of_app. by left. Qed.
Lemma stable_and (K K' : QueueWorld → Prop) : stable evolves K -> stable evolves K' -> stable evolves (λ w, K w ∧ K' w).
Proof. intros H1 H2 w w' He [HK HK']. split; [by eapply H1|by eapply H2]. Qed.
Lemma stable_true : stable evolves (λ _, True).
Proof. done. Qed.
(** The request reads the message: it is bound to it, it was made later, or it was
    waiting when the message was there. *)
Definition bound_trimmed (m : QueueMessage) (r : QueueRow) : Prop :=
  trim (qg_request_id m) = trim (ri_request_id (q_ident r)) ∧ trim <$> qg_request_doc_id m = Some (trim (ri_doc_id (q_ident r))).
Definition made_later (m : QueueMessage) (r : QueueRow) : Prop :=
  ∃ text created at_, ri_created_at (q_ident r) = Some text ∧ parse_from_rfc3339 text = Ok created ∧ parse_from_rfc3339 (qg_timestamp m) = Ok at_ ∧ at_ <= created.
Definition was_waiting (m : QueueMessage) (r : QueueRow) (w : QueueWorld) : Prop :=
  ∃ w0 r0, evolves w0 w ∧ m ∈ qw_messages w0 ∧ r0 ∈ qw_requests w0 ∧ same_request r0 r ∧ r_state (q_row r0) = Some Pending.
Definition has_wake (key : str) (m : QueueMessage) (w : QueueWorld) : Prop :=
  ∃ r, r ∈ qw_requests w ∧ queued_under qe QS_BackgroundCompletion (trim key) r = true ∧ (bound_trimmed m r ∨ made_later m r ∨ was_waiting m r w).
Lemma stable_wake key m : stable evolves (has_wake key m).
Proof.
  intros w w' He (r & Hr & Hq & Hw). destruct (ev_requests _ _ He r Hr) as (r' & Hr' & Hs). exists r'. pose proof Hs as [Hi _].
  split; [done|]. split; [unfold queued_under; rewrite Hi; exact Hq|]. unfold bound_trimmed, made_later in *. rewrite Hi.
  destruct Hw as [?|[?|(w0 & r0 & H1 & H2 & H3 & H4 & H5)]]; [by left|by right; left|]. right. right. exists w0, r0.
  split_and!; [by transitivity w|done|done| |done]. unfold same_request in *. intuition congruence.
Qed.
Lemma wakes_queued key r : wakes_queue key r = true -> queued_under qe QS_BackgroundCompletion (trim key) r = true.
Proof.
  unfold wakes_queue, queued_under, queue_source_and_key_match. destruct (parse_queue_hints _ _) as [h|]; [|done]. cbn.
  rewrite !andb_true_iff. intros [Hs Hk]. split; [done|]. destruct (qh_key h) as [k|]; [|done]. cbn in *. apply str_eqb_true in Hk as ->. apply str_eqb_refl.
Qed.

Lemma non_empty_trim o v : non_empty_text o = Some v -> ∃ u, o = Some u ∧ v = trim u.
Proof. unfold non_empty_text. destruct o as [u|]; [|done]. cbn. case_match; [|done]. intros [= <-]. by exists u. Qed.

(** The parent the operation was called for. *)
Definition in_session_of (sid rid : str) (m : QueueMessage) (w : QueueWorld) : Prop :=
  qg_session_id m = sid ∨ ∃ r, r ∈ qw_requests w ∧ ri_request_id (q_ident r) = rid ∧ ri_session_id (q_ident r) = Some (qg_session_id m).
Lemma stable_session sid rid m : stable evolves (in_session_of sid rid m).
Proof.
  intros w w' He [?|(r & Hr & H1 & H2)]; [by left|]. right. destruct (ev_requests _ _ He r Hr) as (r' & Hr' & [Hi _]). exists r'. by rewrite Hi.
Qed.
Definition told (sid rid id : str) (w : QueueWorld) : Prop :=
  ∃ m, m ∈ qw_messages w ∧ is_completion_of id (qg_content m) = true ∧ in_session_of sid rid m w ∧ has_wake (completion_queue_key sid) m w.
Lemma stable_told sid rid id : stable evolves (told sid rid id).
Proof.
  intros w w' He (m & Hm & Hc & Hs & Hw). exists m. split_and!; [by eapply stable_message|done|by eapply stable_session|by eapply stable_wake].
Qed.

Lemma runs_find K sid p : stable evolves K -> runs evolves K (find_notification sid p) (λ found w, K w ∧
  match found with
  | None => True
  | Some e => ∃ m, m ∈ qw_messages w ∧ qg_session_id m = sid ∧ p (qg_content m) = true ∧ en_request_id e = Some (qg_request_id m)
      ∧ en_request_doc_id e = qg_request_doc_id m ∧ parse_from_rfc3339 (qg_timestamp m) = Ok (en_timestamp e)
  end).
Proof.
  intros HS. unfold find_notification. eapply runs_bind.
  { apply (runs_query _ K _ (λ rows w, K w ∧ ∀ m, m ∈ rows -> m ∈ qw_messages w ∧ qg_session_id m = sid)); [done|]. intros w HK. split; [done|].
    intros m. unfold decoded. case_match; [|by intros ?%not_elem_of_nil]. unfold session_messages. rewrite merge_sort_Permutation, elem_filter, str_eqb_true. done. }
  intros rows. destruct (List.find _ rows) as [m|] eqn:E; [|apply runs_ret; naive_solver]. apply find_in in E as [Hm Hp]. cbn beta in Hp.
  unfold parse_utc_timestamp. destruct (parse_from_rfc3339 (qg_timestamp m)) as [t|e] eqn:Et; [|by intros env n w a n' w' _ _ [=]].
  eapply runs_bind.
  { apply (runs_lift _ _ _ (λ t' w, t' = t ∧ K w ∧ ∀ m, m ∈ rows -> m ∈ qw_messages w ∧ qg_session_id m = sid)). by intros t' w [= <-] HK. }
  intros t' env n w a n' w' _ (-> & HK & Hall) [= <- <- <-]. split; [done|]. destruct (Hall m Hm) as [Hin Hsid]. by exists m.
Qed.
Lemma runs_bound K e key : stable evolves K -> runs evolves K (bound_background_wake_request e key) (λ found w, K w ∧
  match found with
  | None => True
  | Some _ => ∃ rid doc r, en_request_id e = Some rid ∧ en_request_doc_id e = Some doc ∧ r ∈ qw_requests w
      ∧ ri_request_id (q_ident r) = trim rid ∧ ri_doc_id (q_ident r) = trim doc ∧ wakes_queue key r = true
  end).
Proof.
  intros HS. unfold bound_background_wake_request. destruct (non_empty_text (en_request_id e)) as [rid|] eqn:E1; [|by apply runs_ret].
  destruct (non_empty_text (en_request_doc_id e)) as [doc|] eqn:E2; [|by apply runs_ret].
  apply non_empty_trim in E1 as (rid0 & E1 & ->), E2 as (doc0 & E2 & ->). eapply runs_bind.
  { apply (runs_query _ K _ (λ found w, K w ∧ ∀ r, found = Some r -> r ∈ qw_requests w ∧ ri_doc_id (q_ident r) = trim doc0)); [done|].
    intros w HK. split; [done|]. intros r [Hr Hd]%find_in. split; [done|]. by apply str_eqb_true. }
  intros [r|]; [|apply runs_ret; naive_solver]. apply runs_ret. intros w [HK Hr]. split; [done|]. case_match eqn:Em; [|done]. destruct (_ && _) eqn:Ea; [|done].
  rewrite andb_true_iff, str_eqb_true in Ea. destruct Ea as [Hi Hw]. destruct (Hr r eq_refl) as [Hin Hd]. by exists rid0, doc0, r.
Qed.
Lemma runs_wakeup K sid key at_ : stable evolves K -> runs evolves K (existing_wakeup_after sid key at_) (λ found w, K w ∧
  match found with
  | None => True
  | Some _ => ∃ r text created, r ∈ qw_requests w ∧ wakes_queue key r = true ∧ ri_created_at (q_ident r) = Some text
      ∧ parse_from_rfc3339 text = Ok created ∧ at_ <= created
  end).
Proof.
  intros HS. unfold existing_wakeup_after. eapply runs_bind.
  { apply (runs_query _ K _ (λ rows w, K w ∧ ∀ r, r ∈ rows -> r ∈ qw_requests w)); [done|]. intros w HK. split; [done|]. intros r. unfold scheduled_rows.
    rewrite merge_sort_Permutation, elem_filter. by intros [? _]. }
  intros rows. apply runs_lift. intros found w Hf [HK Hall]. split; [done|]. destruct found as [id|]; [|done]. revert Hf.
  induction rows as [|r rows IH]; [done|]. cbn [wakeup_after]. destruct (wakes_queue key r) eqn:Ew; cbn [negb].
  - destruct (ri_created_at (q_ident r)) as [text|] eqn:Ec; [|done]. cbn. unfold parse_utc_timestamp. destruct (parse_from_rfc3339 text) as [t|] eqn:Et; [|done]. cbn.
    destruct (Z.leb_spec at_ t); [|intros Hf; apply IH; [|done]; intros x Hx; apply Hall; by right]. intros _. exists r, text, t. split_and!; try done. apply Hall. left.
  - intros Hf. apply IH; [|done]. intros x Hx. apply Hall. by right.
Qed.

Lemma drop_leading_last p s c : p c = false -> drop_leading p (s ++ [c]) <> [].
Proof. intros Hc. induction s as [|x s IH]; cbn; [by rewrite Hc|]. by destruct (p x). Qed.
Lemma trim_nonblank c s : is_whitespace c = false -> trim (c :: s) <> [].
Proof.
  intros Hc. unfold trim, trim_start at 1. cbn [drop_leading]. rewrite Hc. unfold trim_end. cbn [rev]. intros He. apply (f_equal (@rev Z)) in He.
  rewrite rev_involutive in He. by apply drop_leading_last in He.
Qed.
Lemma queue_key_given sid : is_nil (trim (completion_queue_key sid)) = false.
Proof.
  assert (Ht : trim (completion_queue_key sid) <> []) by (apply trim_nonblank; reflexivity). by destruct (trim (completion_queue_key sid)).
Qed.
Lemma wake_of_waiting key m r w : m ∈ qw_messages w -> r ∈ qw_requests w -> r_state (q_row r) = Some Pending ->
  queued_under qe QS_BackgroundCompletion (trim key) r = true -> has_wake key m w.
Proof.
  intros Hm Hr Hp Hq. exists r. split_and!; [done|done|]. right. right. exists w, r. by split_and!.
Qed.
Lemma runs_reconcile key m sid did : runs evolves (λ w, m ∈ qw_messages w)
  (reconcile_coalesced_pending_request qe sid did QS_BackgroundCompletion (trim key)) (λ found w, m ∈ qw_messages w ∧ (is_Some found -> has_wake key m w)).
Proof.
  unfold reconcile_coalesced_pending_request, matching_coalesced_pending_requests. eapply runs_bind.
  { apply (runs_query _ _ _ (λ rows w, m ∈ qw_messages w ∧ (is_Some (head rows) -> has_wake key m w))); [apply stable_message|].
    intros w Hm. split; [done|]. intros [r Hr]. destruct (List.filter _ _) as [|r' rows] eqn:E; [done|]. injection Hr as ->.
    assert (Hin : r ∈ List.filter (queued_under qe QS_BackgroundCompletion (trim key)) (pending_rows did sid w)) by (rewrite E; left).
    apply elem_filter in Hin as [(Hr & _ & Hp)%elem_pending Hq]. by eapply wake_of_waiting. }
  intros rows. cbv beta. destruct (head rows ≫= _) as [survivor|] eqn:E; [|apply runs_ret; intros w [Hm _]; split; [done|by intros [? ?]]].
  assert (Hs : is_Some (head rows)) by (destruct (head rows); by eauto).
  eapply runs_bind; [apply (runs_frame evolves (λ w, m ∈ qw_messages w ∧ (is_Some (head rows) -> has_wake key m w)))|].
  - intros w w' He [Hm Hw]. split; [by eapply stable_message|]. intros Hh. eapply stable_wake; [done|by apply Hw].
  - apply moves_supersede.
  - intros u. apply runs_ret. intros w [Hm Hw]. split; [done|]. intros _. by apply Hw.
Qed.

(** [serde_json] reads back the hints of a completion. *)
Definition hints_read_back : Prop := ∀ sid rid, parse_queue_hints (qe_from_str qe) (Some (queue_metadata_json qe (completion_hints sid rid))) = Some (completion_hints sid rid).
Lemma own_metadata_queued (Hj : hints_read_back) sid rid r : ri_metadata (q_ident r) = Some (queue_metadata_json qe (completion_hints sid rid)) ->
  queued_under qe QS_BackgroundCompletion (trim (completion_queue_key sid)) r = true.
Proof. intros Hm. unfold queued_under, queue_source_and_key_match. rewrite Hm, Hj. cbn -[trim completion_queue_key]. apply str_eqb_refl. Qed.
Lemma own_coalesce_key sid rid : coalesce_key (completion_hints sid rid) = Some (trim (completion_queue_key sid)).
Proof. unfold coalesce_key. cbn -[trim completion_queue_key]. by rewrite queue_key_given. Qed.
Lemma runs_enqueue (Hj : hints_read_back) sid rid m parent content origin : runs evolves (λ w, m ∈ qw_messages w)
  (enqueue_session_request qe parent content origin (completion_hints sid rid)) (λ _ w, has_wake (completion_queue_key sid) m w).
Proof.
  pose proof (λ K (HS : stable evolves K) A (x : QM A) (Hx : moves evolves x), runs_frame evolves K x HS Hx) as Hf.
  unfold enqueue_session_request. rewrite own_coalesce_key. eapply runs_bind; [apply (Hf _ (stable_message m)); moving|]. intros behavior. cbv beta zeta.
  eapply runs_bind; [apply runs_reconcile|]. intros [existing|]; [apply runs_ret; intros w [_ Hw]; apply Hw; by eexists|].
  eapply (runs_weaken evolves (λ w, m ∈ qw_messages w)); [by intros w [Hm _]|intros a w Hw; exact Hw|].
  eapply runs_bind; [apply (Hf _ (stable_message m)); moving|]. intros request_id. eapply runs_bind; [apply (Hf _ (stable_message m)); moving|]. intros now.
  destruct (session_request_row _ _ _ _ _ _ _ _ _) as [row|e] eqn:Es; [|by intros env n w a n' w' _ _ [=]].
  eapply runs_bind; [apply (runs_lift _ _ _ (λ x w, x = row ∧ m ∈ qw_messages w)); by intros x w [= <-]|]. intros x.
  eapply runs_bind; [apply (runs_retry _ _ _ _ _ (λ _ w, m ∈ qw_messages w ∧ has_wake (completion_queue_key sid) m w))|].
  - intros w w' He [Hx Hm]. split; [done|by eapply stable_message].
  - intros id w. destruct (create_request _ w) eqn:E; [by eapply evolves_create|reflexivity].
  - intros id w a [-> Hm]. apply session_row_ok in Es as (Hst & _ & Hmeta & _). destruct (create_request _ w) as [w'|] eqn:E; [|done]. cbn. intros _.
    apply create_request_ok in E as [Hr Hg]. rewrite <- Hg in Hm. split; [done|]. eapply wake_of_waiting; [done|rewrite Hr; apply elem_of_app; right; by apply list_elem_of_singleton| |].
    + exact Hst.
    + by eapply own_metadata_queued.
  - intros doc. eapply runs_bind; [apply (runs_frame evolves (λ w, m ∈ qw_messages w ∧ has_wake (completion_queue_key sid) m w))|].
    + intros w w' He [Hm Hw]. split; [by eapply stable_message|by eapply stable_wake].
    + apply moves_reconcile.
    + intros active. apply runs_ret. by intros w [_ Hw].
Qed.

Definition told_by (sid : str) (parent : QueueRow) (content : str) (w : QueueWorld) : Prop :=
  ∃ m, m ∈ qw_messages w ∧ qg_content m = content ∧ qg_session_id m = parent_session parent ∧ has_wake (completion_queue_key sid) m w.
Lemma stable_told_by sid parent content : stable evolves (told_by sid parent content).
Proof. intros w w' He (m & Hm & Hc & Hs & Hw). exists m. split_and!; [by eapply stable_message|done|done|by eapply stable_wake]. Qed.
Lemma stored_is_told (Hj : hints_read_back) sid rid parent content message_key a w :
  stored_with_its_wake qe parent content message_key (trim (completion_queue_key sid)) (queue_metadata_json qe (completion_hints sid rid)) a w ->
  told_by sid parent content w.
Proof.
  intros (m & before & Hm & (_ & Hc & Hs & _) & Hw). exists m. split_and!; [done|done|done|].
  assert (Hb : ∀ r, bound_to m r -> bound_trimmed m r) by (intros r [Hd Hi]; split; [by rewrite Hi|by rewrite Hd]).
  destruct Hw as [(_ & _ & r & Hr & Hbd & Hq)|(_ & _ & r & Hr & Hbd & _ & Hq)].
  - exists r. split_and!; [done|done|]. left. by apply Hb.
  - exists r. split_and!; [done| |left; by apply Hb]. destruct (ei_created_request a); [|by destruct Hq]. destruct Hq as [_ Hmeta]. by eapply own_metadata_queued.
Qed.
Lemma runs_completion (Hj : hints_read_back) K sid rid parent content message_key wake : stable evolves K -> keyed_text content message_key ->
  runs evolves K (enqueue_background_completion_with_message qe parent content message_key wake (completion_hints sid rid)) (λ _ w, K w ∧ told_by sid parent content w).
Proof.
  intros HS Hk. unfold enqueue_background_completion_with_message. cbn [qh_source qh_policy qh_key completion_hints source_eqb is_coalesce andb negb].
  change (trim <$> Some (completion_queue_key sid)) with (Some (trim (completion_queue_key sid))). cbn [opt_filter]. rewrite queue_key_given. cbn [negb].
  eapply runs_bind; [apply (runs_frame evolves K); [done|moving]|]. intros behavior.
  assert (HS2 : stable evolves (λ w, K w ∧ told_by sid parent content w)) by (apply stable_and; [done|apply stable_told_by]).
  eapply runs_bind; [apply (runs_transaction evolves K _ _ _ (λ _ w, K w ∧ told_by sid parent content w)); [done| |]|].
  - intros p snapshot current tx w' Hb _ Hw. by eapply attempt_evolves.
  - intros p snapshot current tx w' _ HK Hb Hr Hw. split; [eapply HS; [by eapply attempt_evolves|done]|]. eapply stored_is_told; [done|by eapply attempt_binds].
  - intros a. case_match; [|by apply runs_ret]. eapply runs_bind; [apply (runs_frame evolves _ _ HS2), moves_reconcile|]. intros active. by apply runs_ret.
Qed.
Definition parent_of (rid : str) (parent : QueueRow) (w : QueueWorld) : Prop :=
  ∃ r, r ∈ qw_requests w ∧ ri_request_id (q_ident r) = rid ∧ ri_session_id (q_ident r) = Some (parent_session parent).
Lemma stable_parent rid parent : stable evolves (parent_of rid parent).
Proof. intros w w' He (r & Hr & H1 & H2). destruct (ev_requests _ _ He r Hr) as (r' & Hr' & [Hi _]). exists r'. by rewrite Hi. Qed.
Lemma agent_request_session r request : agent_request_of r = Ok request -> ri_session_id (q_ident r) = Some (parent_session request).
Proof.
  unfold agent_request_of. destruct (match li_subagent_depth _ with None => _ | Some _ => _ end); [|done]. cbn -[validate_agent_request].
  destruct (ri_agent_did _); [|done]. cbn -[validate_agent_request]. destruct (ri_session_id _); [|done]. cbn -[validate_agent_request].
  destruct (ri_created_at _); [|done]. cbn -[validate_agent_request]. destruct (validate_agent_request _); [|done]. by intros [= <-].
Qed.
Lemma runs_parent rid : runs evolves (λ _, True) (load_parent rid) (parent_of rid).
Proof.
  unfold load_parent, load_agent_request. eapply (runs_bind _ _ _ (λ found w, ∀ parent, found = Some parent -> parent_of rid parent w)).
  - eapply runs_bind; [apply (runs_frame evolves (λ _, True)); [done|unfold resolve_request_doc_id; moving]|]. intros [doc|]; [|by apply runs_ret].
    eapply runs_bind.
    { apply (runs_retry _ _ _ _ _ (λ found w, ∀ r, found = Some r -> r ∈ qw_requests w)); [done|reflexivity|]. cbn. intros _ w a _ [= <-] r [? _]%find_in. done. }
    intros [row|]; [|by apply runs_ret]. destruct (str_eqb _ rid) eqn:Ei; [|by apply runs_fail]. apply str_eqb_true in Ei.
    destruct (agent_request_of row) as [request|] eqn:Er; [|by intros env n w a n' w' _ _ [=]].
    eapply (runs_bind _ _ _ (λ x w, x = request ∧ row ∈ qw_requests w)); [apply runs_lift; intros x w [= <-] Hin; split; [done|by apply Hin]|].
    intros x. apply runs_ret. intros w [-> Hin] parent [= <-]. exists row. split_and!; [done|done|by apply agent_request_session].
  - intros [parent|]; [|by intros env n w a n' w' _ _ [=]]. apply runs_lift. cbn. intros x w [= <-] Hp. by apply Hp.
Qed.

Definition settled_call (sid id : str) (w : QueueWorld) : Prop :=
  ∃ t, t ∈ qw_tool_rows w ∧ tr_tool_call_key t = tool_key sid id ∧ tr_status t = COMPLETED.
(** The row is settled or still as it was read. *)
Definition as_read (row : ToolRow) (w : QueueWorld) : Prop :=
  ∃ t, t ∈ qw_tool_rows w ∧ tr_doc_id t = tr_doc_id row ∧ tr_tool_call_key t = tr_tool_call_key row
    ∧ (tr_status t = COMPLETED ∨ (tr_status t = tr_status row ∧ tr_lifecycle_state t = tr_lifecycle_state row)).
Lemma stable_as_read row : tr_status row = COMPLETED ∨ awaits_side_effects row = true -> stable evolves (as_read row).
Proof.
  intros Hr w w' He (t & Ht & Hd & Hk & Hs). destruct (ev_tools _ _ He t Ht) as (t' & Ht' & Hd' & Hk' & Hp). exists t'. split_and!; [done|congruence|congruence|].
  destruct Hp as [?|[Hp1 Hp2]]; [|by left|].
  - destruct Hs as [?|[Hs1 Hs2]]; [by left|]. unfold awaits_side_effects in *. rewrite Hs1, Hs2. done.
  - rewrite Hp1, Hp2. exact Hs.
Qed.
Lemma runs_done K sid id : stable evolves K -> runs evolves K (mark_background_tool_completion_side_effects_done sid id) (λ _ w, K w ∧ settled_call sid id w).
Proof.
  intros HS. unfold mark_background_tool_completion_side_effects_done. eapply runs_bind.
  { apply (runs_query _ K _ (λ found w, K w ∧ ∀ row, found = Some row -> as_read row w ∧ tr_tool_call_key row = tool_key sid id)); [done|].
    intros w HK. split; [done|]. intros row [Hr Hk%str_eqb_true]%find_in. split; [|done]. exists row. split_and!; [done..|by right]. }
  intros [row|]; [|by apply runs_fail]. destruct (str_eqb (tr_status row) COMPLETED) eqn:Ec.
  - apply str_eqb_true in Ec. apply runs_ret. intros w [HK Hr]. split; [done|]. destruct (Hr row eq_refl) as [(t & Ht & _ & Hk & Hs) Hkey].
    exists t. split_and!; [done|congruence|]. by destruct Hs as [?|[-> _]].
  - destruct (awaits_side_effects row) eqn:Ea; cbn [negb]; [|by apply runs_fail].
    assert (HA : stable evolves (λ w, K w ∧ as_read row w)) by (apply stable_and; [done|by apply stable_as_read; right]).
    destruct (decide (tr_tool_call_key row = tool_key sid id)) as [Hkey|Hne]; [|intros env n w a n' w' _ [_ Hr] _; by destruct (Hr row eq_refl)].
    eapply (runs_weaken _ (λ w, K w ∧ as_read row w)); [intros w [HK Hr]; split; [done|by apply Hr]|intros a w Hw; exact Hw|].
    eapply runs_bind; [apply (runs_frame evolves _ _ HA); moving|]. intros u. apply runs_retry; [done| |].
    + intros _ w. apply evolves_tools. intros t _. apply done_progress.
    + intros _ w a [HK (t & Ht & Hd & Hk & Hs)] _. cbn. split; [eapply HS; [apply evolves_tools; intros x _; apply done_progress|done]|].
      eexists. split; [apply list_elem_of_fmap; exists t; split; [reflexivity|done]|]. cbv beta. rewrite Hd, str_eqb_refl. cbn [andb].
      destruct (str_eqb (tr_status t) (tr_status row)) eqn:Es; [cbn; split; [congruence|done]|]. split; [congruence|].
      destruct Hs as [?|[Hs _]]; [done|]. by rewrite Hs, str_eqb_refl in Es.
Qed.
Lemma runs_settle K parent sid rid id : stable evolves K -> runs evolves K (settle_tool parent sid rid id) (λ _ w, K w ∧ settled_call sid id w).
Proof.
  intros HS. unfold settle_tool. eapply runs_bind; [|intros u; by apply runs_done]. apply (runs_frame evolves K); [done|].
  unfold mark_background_tool_notification_delivered. apply moves_bind; [apply _|moving|]. intros now. apply moves_tools. intros t _. apply delivered_progress.
Qed.

(** The completion that is there, from what was found. *)
Lemma existing_bound sid rid m e id w : m ∈ qw_messages w -> qg_session_id m = sid -> is_completion_of id (qg_content m) = true ->
  en_request_id e = Some (qg_request_id m) -> en_request_doc_id e = qg_request_doc_id m ->
  (∃ rid' doc r, en_request_id e = Some rid' ∧ en_request_doc_id e = Some doc ∧ r ∈ qw_requests w
     ∧ ri_request_id (q_ident r) = trim rid' ∧ ri_doc_id (q_ident r) = trim doc ∧ wakes_queue (completion_queue_key sid) r = true) -> told sid rid id w.
Proof.
  intros Hm Hs Hc He Hd (rid' & doc & r & H1 & H2 & Hr & Hi & Hdoc & Hw). rewrite He in H1. injection H1 as <-. rewrite Hd in H2.
  exists m. split_and!; [done|done|by left|]. exists r. split_and!; [done|by apply wakes_queued|]. left. split; [by rewrite Hi, trim_twice|].
  rewrite H2, Hdoc. cbn. by rewrite trim_twice.
Qed.

(** The branch of a completion that is there already. *)
Definition deliver_existing (parent : QueueRow) (sid rid id : str) (e : ExistingNotification) : QM unit :=
  bound ← bound_background_wake_request e (completion_queue_key sid);
  match bound with
  | Some _ => settle_tool parent sid rid id
  | None =>
      wake ← existing_wakeup_after sid (completion_queue_key sid) (en_timestamp e);
      match wake with
      | Some _ => settle_tool parent sid rid id
      | None =>
          _ ← enqueue_session_request qe parent BACKGROUND_COMPLETION_WAKE_PROMPT Scheduled (completion_hints sid rid);
          settle_tool parent sid rid id
      end
  end.
Lemma runs_existing (Hj : hints_read_back) parent sid rid id e m : qg_session_id m = sid -> is_completion_of id (qg_content m) = true ->
  en_request_id e = Some (qg_request_id m) -> en_request_doc_id e = qg_request_doc_id m -> parse_from_rfc3339 (qg_timestamp m) = Ok (en_timestamp e) ->
  runs evolves (λ w, m ∈ qw_messages w) (deliver_existing parent sid rid id e) (λ _ w, told sid rid id w ∧ settled_call sid id w).
Proof.
  intros Hsid Hc H1 H2 Ht. pose proof (λ K HK, runs_from _ _ K _ _ HK (runs_settle _ parent sid rid id (stable_told sid rid id))) as Hsettle.
  assert (Htell : ∀ w, m ∈ qw_messages w -> has_wake (completion_queue_key sid) m w -> told sid rid id w) by (intros w Hm Hw; exists m; split_and!; [done|done|by left|done]).
  eapply runs_bind; [apply runs_bound, stable_message|]. intros [b|]; cbv beta iota; [apply Hsettle; intros w [Hm Hb]; by eapply existing_bound|].
  eapply (runs_from _ (λ w, m ∈ qw_messages w)); [by intros w [Hm _]|]. eapply runs_bind; [apply runs_wakeup, stable_message|]. intros [b|]; cbv beta iota.
  - apply Hsettle. intros w [Hm (r & text & created & Hr & Hw & Hx & Hy & Hz)].
    apply Htell; [done|]. exists r. split_and!; [done|by apply wakes_queued|]. right. left. by exists text, created, (en_timestamp e).
  - eapply (runs_from _ (λ w, m ∈ qw_messages w)); [by intros w [Hm _]|].
    eapply runs_bind; [apply runs_keep; [apply stable_message|apply moves_enqueue|by apply runs_enqueue]|]. intros u. apply Hsettle. intros w [Hm Hw]. by apply Htell.
Qed.


(** ** One message per completion *)

Definition orderly (w : QueueWorld) : Prop := NoDup (message_keys w) ∧ Forall well_keyed (qw_messages w).
Definition one_message_each (w : QueueWorld) : Prop := ∀ id m m', m ∈ qw_messages w -> m' ∈ qw_messages w ->
  is_completion_of id (qg_content m) = true -> is_completion_of id (qg_content m') = true -> m = m'.
Lemma key_unique (l : list QueueMessage) m m' : NoDup (qg_message_key <$> l) -> m ∈ l -> m' ∈ l -> qg_message_key m = qg_message_key m' -> m = m'.
Proof.
  induction l as [|x l IH]; [by intros _ ?%not_elem_of_nil|]. rewrite fmap_cons, list.NoDup_cons. intros [Hx Hn] Hm Hm' He.
  apply elem_of_cons in Hm as [-> |Hm], Hm' as [-> |Hm']; [done| | |by apply IH].
  - destruct Hx. rewrite He. apply list_elem_of_fmap. by exists m'.
  - destruct Hx. rewrite <- He. apply list_elem_of_fmap. by exists m.
Qed.
Lemma orderly_one_each w : orderly w -> one_message_each w.
Proof.
  intros [Hn Hk] id m m' Hm Hm' Hc Hc'. rewrite list.Forall_forall in Hk. eapply key_unique; [exact Hn|done|done|].
  by rewrite (Hk m Hm id Hc), (Hk m' Hm' id Hc').
Qed.
Lemma evolves_orderly w w' : evolves w w' -> orderly w -> orderly w'.
Proof. intros [(new & Hm & Hn) Hk _ _] [Hd Hf]. split; [by apply Hk|]. rewrite Hm. by apply list.Forall_app. Qed.
(** C39. A completion is told once.  Deliveries of any tools and children, however they
    interleave, fail or are repeated, only add messages to the session, and keep it so
    that no two of its messages are found by the identifier of one call; what one
    delivery does is what the others may rely on. *)
Theorem completions_are_told_once env n w r n' w' sid rid :
  respects evolves env -> orderly w ->
  (∃ id name status result reason, append_background_tool_completion sid rid id name status result reason env n w = (r, n', w'))
  ∨ (∃ edge status summary effects, ensure_projection_side_effects sid rid edge status summary env n w = (effects, n', w')) ->
  evolves w w' ∧ orderly w' ∧ one_message_each w'.
Proof.
  intros He Ho Hrun. assert (Hw : evolves w w').
  { destruct Hrun as [(id & name & status & result & reason & Hr)|(edge & status & summary & effects & Hr)]; [by eapply moves_append|by eapply moves_projection]. }
  split; [done|]. split; [by eapply evolves_orderly|]. by eapply orderly_one_each, evolves_orderly.
Qed.

(** ** A delivery that was cut short *)

Lemma find_update {A} (q p : A → bool) f l : (∀ t, q (f t) = q t) -> List.find q (update_where p f l) = (λ t, if p t then f t else t) <$> List.find q l.
Proof.
  intros Hf. induction l as [|t l IH]; [done|]. cbn. assert (Ht : q (if p t then f t else t) = q t) by (destruct (p t); [apply Hf|done]). rewrite Ht.
  by destruct (q t).
Qed.
Lemma update_none {A} (p : A → bool) f l : Forall (λ t, p t = false) l -> update_where p f l = l.
Proof. unfold update_where. induction 1 as [|t l Ht _ IH]; [done|]. cbn. by rewrite Ht, IH. Qed.
(** The message is stored with its wake; the row of the call may not be settled. *)
Record told_before (parent : QueueRow) (sid rid id : str) (w : QueueWorld) : Prop := mkToldBefore {
  tb_parent : ∃ r, List.filter (λ x, str_eqb (ri_request_id (q_ident x)) rid) (qw_requests w) = [r]
    ∧ List.find (λ x, str_eqb (ri_doc_id (q_ident x)) (ri_doc_id (q_ident r))) (qw_requests w) = Some r ∧ agent_request_of r = Ok parent;
  tb_message : ∃ m t wake rid' doc, List.find (λ m, is_completion_of id (qg_content m)) (decoded (session_messages sid w)) = Some m
    ∧ parse_from_rfc3339 (qg_timestamp m) = Ok t ∧ non_empty_text (Some (qg_request_id m)) = Some rid' ∧ non_empty_text (qg_request_doc_id m) = Some doc
    ∧ List.find (λ x, str_eqb (ri_doc_id (q_ident x)) doc) (qw_requests w) = Some wake ∧ ri_request_id (q_ident wake) = rid'
    ∧ wakes_queue (completion_queue_key sid) wake = true;
  tb_row : ∃ t, List.find (λ t, str_eqb (tr_tool_call_key t) (tool_key sid id)) (qw_tool_rows w) = Some t
    ∧ (tr_status t = COMPLETED ∨ awaits_side_effects t = true) }.
Lemma quiet_read {A} env (q : QueueWorld → A) n w : quiet env -> gm_read q env n w = (Ok (q w), S n, w).
Proof. intros Hq. unfold gm_read. by rewrite quiet_mutate. Qed.
Lemma told_before_settles parent sid rid id w name status result reason env n : quiet env -> told_before parent sid rid id w ->
  ∃ n1, append_background_tool_completion sid rid id name status result reason env n w = settle_tool parent sid rid id env n1 w.
Proof.
  intros Hq [(r & Hf & Hd & Hp) (m & t & wake & rid' & doc & Hm & Ht & Hr & Hdoc & Hw & Hi & Hk) _].
  assert (Hrid : str_eqb (ri_request_id (q_ident r)) rid = true).
  { assert (Hin : r ∈ List.filter (λ x, str_eqb (ri_request_id (q_ident x)) rid) (qw_requests w)) by (rewrite Hf; left). by apply elem_filter in Hin as [_ Hin]. }
  assert (Hload : load_parent rid env n w = (Ok parent, S (S n), w)).
  { unfold load_parent, load_agent_request, resolve_request_doc_id.
    rewrite (bind_ok _ _ env n w (Some parent) (S (S n)) w); [done|].
    rewrite (bind_ok _ _ env n w (Some (ri_doc_id (q_ident r))) (S n) w); [|by rewrite (bind_ok _ _ _ _ _ _ _ _ (quiet_read env _ n w Hq)), Hf].
    rewrite (bind_ok _ _ _ _ _ _ _ _ (quiet_read env _ (S n) w Hq)), Hd, Hrid. unfold mbind, PM_bind, gm_lift. by rewrite Hp. }
  unfold append_background_tool_completion. rewrite (bind_ok _ _ _ _ _ _ _ _ Hload).
  unfold existing_tool_completion_notification, find_notification.
  rewrite (bind_ok _ _ env _ w (Some (mkExisting (qg_sequence m) t (Some (qg_request_id m)) (qg_request_doc_id m))) (S (S (S n))) w).
  2:{ rewrite (query_bind env _ _ _ w Hq), Hm. unfold parse_utc_timestamp. rewrite Ht. reflexivity. }
  cbv beta iota. unfold bound_background_wake_request. cbn [en_request_id en_request_doc_id]. rewrite Hr, Hdoc.
  rewrite (bind_ok _ _ env _ w (Some rid') (S (S (S (S n)))) w). 2:{ rewrite (query_bind env _ _ _ w Hq), Hw, Hi, str_eqb_refl, Hk. reflexivity. }
  by exists (S (S (S (S n)))).
Qed.

Definition undelivered (parent : QueueRow) (rid id : str) (t : ToolRow) : bool :=
  str_eqb (tr_agent_did t) (parent_did parent) && str_eqb (tr_request_id t) rid && str_eqb (tr_tool_call_id t) id && bool_decide (tr_delivered_at t = None).
Definition of_call (sid id : str) (t : ToolRow) : bool := str_eqb (tr_tool_call_key t) (tool_key sid id).
Definition mark_delivered (parent : QueueRow) (rid id now : str) (rows : list ToolRow) : list ToolRow := update_where (undelivered parent rid id) (set_delivered now) rows.
Definition mark_done (t : ToolRow) (rows : list ToolRow) : list ToolRow :=
  if str_eqb (tr_status t) COMPLETED then rows
  else update_where (λ x, str_eqb (tr_doc_id x) (tr_doc_id t) && str_eqb (tr_status x) (tr_status t)) (set_tool_status COMPLETED) rows.
Lemma quiet_tools env p f n w : quiet env -> update_tools p f env n w = (Ok tt, S n, set_qw_tool_rows (update_where p f (qw_tool_rows w)) w).
Proof. intros Hq. unfold update_tools. by rewrite quiet_mutate. Qed.
Lemma quiet_done env sid id n w t : quiet env -> List.find (of_call sid id) (qw_tool_rows w) = Some t -> tr_status t = COMPLETED ∨ awaits_side_effects t = true ->
  ∃ n', mark_background_tool_completion_side_effects_done sid id env n w = (Ok tt, n', set_qw_tool_rows (mark_done t (qw_tool_rows w)) w).
Proof.
  intros Hq Hf Ht. unfold mark_background_tool_completion_side_effects_done, mark_done. rewrite (query_bind env _ _ _ w Hq). fold (of_call sid id). rewrite Hf.
  destruct (str_eqb (tr_status t) COMPLETED) eqn:Ec; [exists (S n); by destruct w|]. destruct Ht as [Ht|Ht]; [by rewrite Ht, str_eqb_refl in Ec|].
  rewrite Ht. cbn [negb]. rewrite (query_bind env _ _ _ w Hq). exists (S (S (S n))). by rewrite quiet_tools.
Qed.
Lemma quiet_settle env parent sid rid id n w t : quiet env -> List.find (of_call sid id) (qw_tool_rows w) = Some t -> tr_status t = COMPLETED ∨ awaits_side_effects t = true ->
  let rows := mark_delivered parent rid id (to_rfc3339 (pt_now (env n))) (qw_tool_rows w) in
  ∃ n' t1, List.find (of_call sid id) rows = Some t1 ∧ settle_tool parent sid rid id env n w = (Ok tt, n', set_qw_tool_rows (mark_done t1 rows) w).
Proof.
  intros Hq Hf Ht rows. unfold settle_tool, mark_background_tool_notification_delivered.
  rewrite (bind_ok _ _ env n w tt (S n) (set_qw_tool_rows rows w)).
  2:{ rewrite (bind_ok _ _ env n w (pt_now (env n)) n w) by done. by rewrite quiet_tools. }
  assert (Hfind : ∃ t1, List.find (of_call sid id) rows = Some t1 ∧ tr_status t1 = tr_status t ∧ tr_lifecycle_state t1 = tr_lifecycle_state t).
  { unfold rows, mark_delivered. rewrite find_update by done. rewrite Hf. cbn. eexists. split; [done|]. by destruct (undelivered parent rid id t). }
  destruct Hfind as (t1 & Hf1 & Hs & Hl). destruct (quiet_done env sid id (S n) (set_qw_tool_rows rows w) t1)
    as [n' Hn']; [done|done|unfold awaits_side_effects; by rewrite Hs, Hl|]. by exists n', t1.
Qed.
(** After a settled row nothing is left to do. *)
Lemma delivered_all parent rid id now rows : Forall (λ t, undelivered parent rid id t = false) (mark_delivered parent rid id now rows).
Proof.
  unfold mark_delivered, update_where. apply list.Forall_forall. intros x (t & -> & _)%list_elem_of_fmap. destruct (undelivered parent rid id t) eqn:E; [|done].
  unfold undelivered. cbn. apply andb_false_r.
Qed.
Lemma done_undelivered parent rid id t rows : Forall (λ t, undelivered parent rid id t = false) rows -> Forall (λ t, undelivered parent rid id t = false) (mark_done t rows).
Proof.
  unfold mark_done. case_match; [done|]. rewrite !list.Forall_forall. intros Hf x (y & -> & Hy)%list_elem_of_fmap. case_match; [|by apply Hf].
  change (undelivered parent rid id (set_tool_status COMPLETED y)) with (undelivered parent rid id y). by apply Hf.
Qed.
Lemma done_found sid id t rows : List.find (of_call sid id) rows = Some t -> ∃ t', List.find (of_call sid id) (mark_done t rows) = Some t' ∧ tr_status t' = COMPLETED.
Proof.
  intros Hf. unfold mark_done. destruct (str_eqb (tr_status t) COMPLETED) eqn:Ec; [apply str_eqb_true in Ec; by exists t|].
  rewrite find_update by done. rewrite Hf. cbn. rewrite !str_eqb_refl. by eexists.
Qed.
(** C40. A delivery that was cut short is finished and not repeated.  With the message and
    its wake in the store, an undisturbed pass over the call succeeds, adds no message and
    no request, and leaves its row settled; from then on every undisturbed pass succeeds
    and changes nothing at all. *)
Theorem interrupted_deliveries_are_finished parent sid rid id w name status result reason env n :
  quiet env -> told_before parent sid rid id w ->
  ∃ rows n', append_background_tool_completion sid rid id name status result reason env n w = (Ok tt, n', set_qw_tool_rows rows w)
    ∧ settled_call sid id (set_qw_tool_rows rows w)
    ∧ ∀ env' m, quiet env' -> ∃ m', append_background_tool_completion sid rid id name status result reason env' m (set_qw_tool_rows rows w)
        = (Ok tt, m', set_qw_tool_rows rows w).
Proof.
  intros Hq Hb. destruct (told_before_settles parent sid rid id w name status result reason env n Hq Hb) as [n1 ->].
  destruct (tb_row _ _ _ _ _ Hb) as (t & Hf & Ht). destruct (quiet_settle env parent sid rid id n1 w t Hq Hf Ht) as (n' & t1 & Hf1 & ->).
  set (rows := mark_done t1 _). destruct (done_found _ _ _ _ Hf1) as (t2 & Hf2 & Ht2). fold rows in Hf2.
  assert (Hall : Forall (λ t, undelivered parent rid id t = false) rows) by apply done_undelivered, delivered_all.
  exists rows, n'. split_and!; [done| |].
  - apply find_in in Hf2 as [Hin Hk%str_eqb_true]. by exists t2.
  - intros env' m Hq'. destruct Hb as [Hp Hm _]. assert (Hb' : told_before parent sid rid id (set_qw_tool_rows rows w)) by (split; [exact Hp|exact Hm|exists t2; split; [exact Hf2|by left]]).
    destruct (told_before_settles parent sid rid id _ name status result reason env' m Hq' Hb') as [m1 ->].
    destruct (quiet_settle env' parent sid rid id m1 (set_qw_tool_rows rows w) t2 Hq' Hf2 (or_introl Ht2)) as (m' & t3 & Hf3 & ->). exists m'. cbn [qw_tool_rows set_qw_tool_rows] in Hf3 |- *.
    unfold mark_delivered in Hf3 |- *. rewrite (update_none _ _ rows Hall) in Hf3 |- *. rewrite Hf2 in Hf3. injection Hf3 as <-. unfold mark_done. rewrite Ht2, str_eqb_refl. by destruct w.
Qed.

(** ** A wake of the same second

    A request made by [enqueue_session_request] has the second it was made in, a message
    the exact time: a wake that was made after the message, within its second, counts as
    an earlier one. *)

Theorem a_wake_of_the_same_second_is_missed `{!ChronoSecsLaws} key at_ now r :
  wakes_queue key r = true -> ri_created_at (q_ident r) = Some (to_rfc3339_secs now) -> at_ <= now -> now - now mod seconds 1 < at_ ->
  wakeup_after key at_ [r] = Ok None.
Proof.
  intros Hw Hc _ Ht. cbn [wakeup_after]. rewrite Hw, Hc. cbn [negb ok_or]. unfold parse_utc_timestamp. rewrite rfc3339_secs_roundtrip.
  by destruct (Z.leb_spec at_ (now - now mod seconds 1)); [lia|].
Qed.
End completion.

(** ** Witnesses

    Request [r1] runs in session [s1]; its background call [c1] has ended and awaits its
    side effects.  Metadata is one character that codes the key and the predecessor. *)

Definition demo_code (hints : QueueHints) : str := [70000 + Z.pos (encode (qh_key hints, qh_queued_after_request_id hints))].
Definition demo_decode (s : str) : option QueueHints :=
  match s with
  | [z] => '(key, after) ← decode (A := option str * option str) (Z.to_pos (z - 70000));
           Some {| qh_source := QS_BackgroundCompletion; qh_policy := QP_Coalesce; qh_key := key; qh_queued_after_request_id := after; qh_interrupted_request_id := None |}
  | _ => None
  end.
Definition demo_completion : QueueEnv :=
  {| qe_from_str s := (λ h, {| qm_queue := h; qm_background_completion_wake_version := Some 1 |}) <$> demo_decode s; qe_to_string m := demo_code (qm_queue m);
     qe_user_message s := s; qe_scope parts := concat parts; qe_sign := None; qe_queue_source _ := None |}.
Lemma demo_reads_back : hints_read_back demo_completion.
Proof.
  intros sid rid. set (p := encode (Some (completion_queue_key sid), Some rid)).
  assert (Hws : is_whitespace (70000 + Z.pos p) = false).
  { unfold is_whitespace. repeat match goal with |- context [?a =? ?b] => rewrite (proj2 (Z.eqb_neq a b)) by lia | |- context [?a <=? ?b] => destruct (Z.leb_spec a b); [|try lia] end; cbn; try done; lia. }
  unfold parse_queue_hints, parse_queue_metadata, queue_metadata_json. cbn [qe_to_string demo_completion qm_queue]. unfold demo_code. cbn [qh_key qh_queued_after_request_id completion_hints].
  fold p. assert (Ht : trim [70000 + Z.pos p] = [70000 + Z.pos p]).
  { unfold trim, trim_end, trim_start. cbn [drop_leading]. rewrite Hws. cbn [rev app drop_leading]. by rewrite Hws. }
  rewrite Ht. cbn [str_eqb]. unfold demo_decode. cbn [qe_from_str demo_completion]. unfold demo_decode.
  replace (Z.to_pos (70000 + Z.pos p - 70000)) with p by lia. unfold p. rewrite decode_encode. reflexivity.
Qed.
Definition demo_call (status : str) : ToolRow :=
  mkToolRow (lit "t1") (lit "s1:c1") (lit "s1") (lit "did:a") (lit "r1") (lit "c1") true None status (lit "completed") None.
Definition demo_ended : QueueWorld := mkQueueWorld [demo_running] [] [demo_call (lit "completionPending")] [].
Definition demo_append : QM unit :=
  append_background_tool_completion (H := demo_chrono) (H0 := demo_secs) demo_completion (lit "s1") (lit "r1") (lit "c1") (lit "bash") (lit "completed") (lit "ok") None.
Lemma demo_respects : respects evolves demo_still.
Proof. intros n w. reflexivity. Qed.
Lemma demo_quiet : quiet demo_still.
Proof. done. Qed.
Lemma completions_are_told_once_witness :
  let run := demo_append demo_still 0%nat demo_ended in
  length (qw_messages run.2) = 1%nat ∧ evolves demo_ended run.2 ∧ orderly run.2 ∧ one_message_each run.2.
Proof.
  intros run. split; [vm_compute; reflexivity|]. destruct run as [[r n'] w'] eqn:E.
  apply (completions_are_told_once (H := demo_chrono) (H0 := demo_secs) demo_completion demo_still 0%nat demo_ended r n' w' (lit "s1") (lit "r1")).
  - exact demo_respects.
  - split; constructor.
  - left. eexists _, _, _, _, _. exact E.
Defined.
Definition demo_cut_short : QueueWorld := set_qw_tool_rows [demo_call (lit "completionPending:result")] (demo_append demo_still 0%nat demo_ended).2.
Lemma interrupted_deliveries_are_finished_witness :
  ∃ rows n', demo_append demo_still 9%nat demo_cut_short = (Ok tt, n', set_qw_tool_rows rows demo_cut_short) ∧ settled_call (lit "s1") (lit "c1") (set_qw_tool_rows rows demo_cut_short).
Proof.
  destruct (agent_request_of demo_completion demo_running) as [parent|] eqn:Ep; [|by vm_compute in Ep].
  destruct (interrupted_deliveries_are_finished (H := demo_chrono) (H0 := demo_secs) demo_completion parent (lit "s1") (lit "r1") (lit "c1") demo_cut_short (lit "bash") (lit "completed") (lit "ok") None demo_still 9%nat)
    as (rows & n' & Hr & Hs & _).
  - exact demo_quiet.
  - split.
    + exists demo_running. split_and!; [vm_compute; reflexivity|vm_compute; reflexivity|exact Ep].
    + eexists _, _, _, _, _. split_and!; vm_compute; reflexivity.
    + eexists. split; [vm_compute; reflexivity|]. right. vm_compute. reflexivity.
  - by exists rows, n'.
Defined.
