(* ===== verification/Goals.v ===== *)
(** * Durable goals

    [goal.rs]: the states of a goal and their transitions, the audits of a blocked goal,
    the decision the controller takes when a session falls idle, and the documents of
    the [Goal] and [GoalCreationClaim] collections with every operation that writes
    them: creation by a model, the operator's upsert, the tools of
    [hook/persistence/goal_tools.rs], the fenced updates of the controller and its two
    claims.  The collections are lists; a mutation meets the writes of others and its
    commit outcome. *)

From S2P Require Import Prelude RustStr Errors TokenBudget RequestState Retry Store ExecutionLease Lifecycle InferenceCalls Points.
Open Scope Z_scope.

(** ** States *)

Definition BLOCKED_AUDIT_THRESHOLD : Z := 3.
Definition MAX_INFRASTRUCTURE_RETRIES : Z := 2.

Inductive GoalStatus : Type :=
  GS_Active | GS_Paused | GS_Blocked | GS_UsageLimited | GS_BudgetLimited | GS_Complete.
#[global] Instance GoalStatus_eq_dec : EqDecision GoalStatus.
Proof. solve_decision. Defined.
Definition goal_status_as_str (s : GoalStatus) : str :=
  match s with
  | GS_Active => lit "active" | GS_Paused => lit "paused" | GS_Blocked => lit "blocked"
  | GS_UsageLimited => lit "usage_limited" | GS_BudgetLimited => lit "budget_limited" | GS_Complete => lit "complete"
  end.
Definition goal_status_parse (value : str) : option GoalStatus :=
  let value := trim value in
  let named s := str_eqb value (lit s) in
  if named "active" then Some GS_Active
  else if named "paused" then Some GS_Paused
  else if named "blocked" then Some GS_Blocked
  else if named "usage_limited" || named "usageLimited" then Some GS_UsageLimited
  else if named "budget_limited" || named "budgetLimited" then Some GS_BudgetLimited
  else if named "complete" then Some GS_Complete
  else None.
Definition accrues_active_time (s : GoalStatus) : bool := bool_decide (s = GS_Active).

Inductive GoalRequestTerminal : Type := GT_Completed | GT_Failed | GT_Dead | GT_Interrupted | GT_Superseded.
#[global] Instance GoalRequestTerminal_eq_dec : EqDecision GoalRequestTerminal.
Proof. solve_decision. Defined.
Definition terminal_from_state (s : RequestLifecycleState) : option GoalRequestTerminal :=
  match s with
  | Completed => Some GT_Completed | Failed => Some GT_Failed | Dead => Some GT_Dead
  | Interrupted => Some GT_Interrupted | Superseded => Some GT_Superseded
  | _ => None
  end.

Inductive GoalAuditObservation : Type := SameRequest | SameCondition | NewCondition.
#[global] Instance GoalAuditObservation_eq_dec : EqDecision GoalAuditObservation.
Proof. solve_decision. Defined.
Inductive GoalAction : Type :=
  | GA_Pause | GA_Resume | GA_Complete | GA_BlockedAudit (o : GoalAuditObservation) | GA_OperatorBlock
  | GA_UsageLimit | GA_BudgetExhausted | GA_WrapupFinished | GA_WrapupAbandoned | GA_CleanTurn.
#[global] Instance GoalAction_eq_dec : EqDecision GoalAction.
Proof. solve_decision. Defined.
Record GoalState : Type := mkGoalState {
  go_status : GoalStatus; go_blocked_audits : Z; go_wrapup_requested : bool; go_wrapup_completed : bool }.

Definition goal_step (s : GoalState) (a : GoalAction) : option GoalState :=
  let st := go_status s in
  let here x := bool_decide (st = x) in
  match a with
  | GA_Pause => if here GS_Active then Some (mkGoalState GS_Paused (go_blocked_audits s) (go_wrapup_requested s) (go_wrapup_completed s)) else None
  | GA_Resume => if here GS_Paused || here GS_Blocked || here GS_UsageLimited
                 then Some (mkGoalState GS_Active 0 (go_wrapup_requested s) (go_wrapup_completed s)) else None
  | GA_Complete => if here GS_Complete then None
                   else Some (mkGoalState GS_Complete (go_blocked_audits s) (go_wrapup_requested s) true)
  | GA_BlockedAudit o =>
      if here GS_Active then
        let n := match o with
                 | SameRequest => Z.max (go_blocked_audits s) 0
                 | SameCondition => saturating_add i64_max (Z.max (go_blocked_audits s) 0) 1
                 | NewCondition => 1
                 end in
        Some (mkGoalState (if BLOCKED_AUDIT_THRESHOLD <=? n then GS_Blocked else GS_Active) n
                (go_wrapup_requested s) (go_wrapup_completed s))
      else None
  | GA_OperatorBlock => if here GS_Active then Some (mkGoalState GS_Blocked (go_blocked_audits s) (go_wrapup_requested s) (go_wrapup_completed s)) else None
  | GA_UsageLimit => if here GS_Active then Some (mkGoalState GS_UsageLimited (go_blocked_audits s) (go_wrapup_requested s) (go_wrapup_completed s)) else None
  | GA_BudgetExhausted => if here GS_Active && negb (go_wrapup_requested s)
                          then Some (mkGoalState GS_BudgetLimited (go_blocked_audits s) true (go_wrapup_completed s)) else None
  | GA_WrapupFinished | GA_WrapupAbandoned =>
      if here GS_BudgetLimited && go_wrapup_requested s && negb (go_wrapup_completed s)
      then Some (mkGoalState st (go_blocked_audits s) (go_wrapup_requested s) true) else None
  | GA_CleanTurn => if here GS_Active then Some (mkGoalState st 0 (go_wrapup_requested s) (go_wrapup_completed s)) else None
  end.

(** The step of an audit is legal from active, so the [expect] of the source is met. *)
Definition next_blocked_audit (previous_count : Z) (previous_reason previous_request_id : option str)
    (reason request_id : str) : Z * bool :=
  let o := if opt_eqb str_eqb previous_request_id (Some request_id) then SameRequest
           else if opt_eqb str_eqb previous_reason (Some reason) then SameCondition else NewCondition in
  match goal_step (mkGoalState GS_Active previous_count false false) (GA_BlockedAudit o) with
  | Some s => (go_blocked_audits s, bool_decide (go_status s = GS_Blocked))
  | None => (0, false)
  end.

Inductive GoalDecision : Type := GD_None | GD_Continue | GD_Retry | GD_Pause | GD_Wrapup | GD_AbandonWrapup.
#[global] Instance GoalDecision_eq_dec : EqDecision GoalDecision.
Proof. solve_decision. Defined.
Definition decide_goal_continuation (status : GoalStatus) (terminal : GoalRequestTerminal)
    (session_idle child_exists budget_reached has_activity request_is_wrapup : bool) (infrastructure_retries : Z)
    (wrapup_requested wrapup_completed : bool) : GoalDecision :=
  let retry_left := Z.max infrastructure_retries 0 <? MAX_INFRASTRUCTURE_RETRIES in
  if negb session_idle || child_exists then GD_None
  else match status with
  | GS_Active =>
      match terminal with
      | GT_Interrupted | GT_Superseded => GD_Pause
      | GT_Failed | GT_Dead => if retry_left then GD_Retry else GD_Pause
      | GT_Completed => if negb has_activity then GD_Pause else if budget_reached then GD_Wrapup else GD_Continue
      end
  | GS_BudgetLimited =>
      if negb wrapup_requested || wrapup_completed then GD_None
      else if negb request_is_wrapup then GD_Wrapup
      else match terminal with
           | GT_Completed => GD_None
           | _ => if retry_left then GD_Retry else GD_AbandonWrapup
           end
  | GS_Paused | GS_Blocked | GS_UsageLimited | GS_Complete => GD_None
  end.

Definition operator_action_for_status (current target : GoalStatus) : option GoalAction :=
  if bool_decide (current = target) then None
  else Some match target with
            | GS_Active => GA_Resume | GS_Paused => GA_Pause | GS_Blocked => GA_OperatorBlock
            | GS_UsageLimited => GA_UsageLimit | GS_BudgetLimited => GA_BudgetExhausted | GS_Complete => GA_Complete
            end.
Definition apply_operator_status_transition (s : GoalState) (target : GoalStatus) : result Error GoalState :=
  match operator_action_for_status (go_status s) target with
  | None => Ok s
  | Some a => ok_or (Msg (lit "illegal durable Goal transition " ++ goal_status_as_str (go_status s) ++ lit " -> "
                          ++ goal_status_as_str target)) (goal_step s a)
  end.

(** The phases of one continuation. *)
Inductive GoalContinuationPhase : Type := GP_Unclaimed | GP_Claimed | GP_ChildPresent.
#[global] Instance GoalContinuationPhase_eq_dec : EqDecision GoalContinuationPhase.
Proof. solve_decision. Defined.
Inductive GoalContinuationAction : Type := CA_Claim (won : bool) | CA_Materialize | CA_Reconcile | CA_Crash.
Definition goal_continuation_materialization_step (p : GoalContinuationPhase) (a : GoalContinuationAction) : GoalContinuationPhase :=
  match p, a with
  | GP_Unclaimed, CA_Claim true => GP_Claimed
  | GP_Claimed, (CA_Materialize | CA_Reconcile) => GP_ChildPresent
  | _, _ => p
  end.

(** ** Creation by a model *)

Record GoalCreationFingerprint : Type := mkFingerprint {
  fp_owner : str; fp_session : str; fp_objective : str; fp_token_budget : option Z }.
#[global] Instance GoalCreationFingerprint_eq_dec : EqDecision GoalCreationFingerprint.
Proof. solve_decision. Defined.
Record GoalCreateRequest : Type := mkCreate {
  gc_caller : str; gc_current_session : str; gc_requested_owner : str; gc_requested_session : str;
  gc_objective : str; gc_objective_nonempty : bool; gc_token_budget : option Z; gc_goal_tools : bool; gc_goal_create : bool }.
Inductive GoalCreateDisposition : Type := CD_Denied | CD_Invalid | CD_Fresh | CD_Idempotent | CD_Conflict.
#[global] Instance GoalCreateDisposition_eq_dec : EqDecision GoalCreateDisposition.
Proof. solve_decision. Defined.
Definition goal_creation_fingerprint (r : GoalCreateRequest) : GoalCreationFingerprint :=
  mkFingerprint (gc_caller r) (gc_current_session r) (trim (gc_objective r)) (gc_token_budget r).
Definition decide_model_goal_create (r : GoalCreateRequest) (existing : option GoalCreationFingerprint) : GoalCreateDisposition :=
  if negb (gc_goal_tools r) || negb (gc_goal_create r) || negb (str_eqb (gc_requested_owner r) (gc_caller r))
     || negb (str_eqb (gc_requested_session r) (gc_current_session r)) then CD_Denied
  else if negb (gc_objective_nonempty r) || is_nil (trim (gc_objective r))
          || is_some_and (λ b, (b <=? 0) || (i64_max <? b)) (gc_token_budget r) then CD_Invalid
  else match existing with
       | None => CD_Fresh
       | Some e => if bool_decide (e = goal_creation_fingerprint r) then CD_Idempotent else CD_Conflict
       end.
Definition deterministic_goal_id (agent_did session_id : str) : str :=
  fmt_Z (str_len agent_did) ++ [58] ++ agent_did ++ [58] ++ session_id.
Definition deterministic_goal_creation_key (agent_did session_id : str) : str :=
  lit "goal-create:" ++ deterministic_goal_id agent_did session_id.

(** ** Documents *)

Record GoalDocument : Type := mkGoal {
  gd_doc_id : str;
  gd_goal_id : str;
  gd_session_id : str;
  gd_agent_did : str;
  gd_objective : str;
  gd_status : str;
  gd_token_budget : option Z;
  gd_tokens_used : option Z;
  gd_active_time_seconds : option Z;
  gd_active_started_at : option str;
  gd_consecutive_blocked_audits : option Z;
  gd_last_blocked_request_id : option str;
  gd_last_blocked_reason : option str;
  gd_last_continued_from_request_id : option str;
  gd_continuation_sequence : option Z;
  gd_wrapup_requested : option bool;
  gd_wrapup_completed : option bool;
  gd_infrastructure_retry_count : option Z;
  gd_last_failure : option str;
  gd_completion_evidence : option str;
  gd_created_at : option str;
  gd_updated_at : option str }.
Definition set_gd_objective (v : str) (g : GoalDocument) : GoalDocument :=
  mkGoal (gd_doc_id g) (gd_goal_id g) (gd_session_id g) (gd_agent_did g) v (gd_status g) (gd_token_budget g)
    (gd_tokens_used g) (gd_active_time_seconds g) (gd_active_started_at g)
    (gd_consecutive_blocked_audits g) (gd_last_blocked_request_id g) (gd_last_blocked_reason g)
    (gd_last_continued_from_request_id g) (gd_continuation_sequence g) (gd_wrapup_requested g)
    (gd_wrapup_completed g) (gd_infrastructure_retry_count g) (gd_last_failure g)
    (gd_completion_evidence g) (gd_created_at g) (gd_updated_at g).
Definition set_gd_status (v : str) (g : GoalDocument) : GoalDocument :=
  mkGoal (gd_doc_id g) (gd_goal_id g) (gd_session_id g) (gd_agent_did g) (gd_objective g) v
    (gd_token_budget g) (gd_tokens_used g) (gd_active_time_seconds g) (gd_active_started_at g)
    (gd_consecutive_blocked_audits g) (gd_last_blocked_request_id g) (gd_last_blocked_reason g)
    (gd_last_continued_from_request_id g) (gd_continuation_sequence g) (gd_wrapup_requested g)
    (gd_wrapup_completed g) (gd_infrastructure_retry_count g) (gd_last_failure g)
    (gd_completion_evidence g) (gd_created_at g) (gd_updated_at g).
Definition set_gd_token_budget (v : option Z) (g : GoalDocument) : GoalDocument :=
  mkGoal (gd_doc_id g) (gd_goal_id g) (gd_session_id g) (gd_agent_did g) (gd_objective g) (gd_status g) v
    (gd_tokens_used g) (gd_active_time_seconds g) (gd_active_started_at g)
    (gd_consecutive_blocked_audits g) (gd_last_blocked_request_id g) (gd_last_blocked_reason g)
    (gd_last_continued_from_request_id g) (gd_continuation_sequence g) (gd_wrapup_requested g)
    (gd_wrapup_completed g) (gd_infrastructure_retry_count g) (gd_last_failure g)
    (gd_completion_evidence g) (gd_created_at g) (gd_updated_at g).
Definition set_gd_tokens_used (v : option Z) (g : GoalDocument) : GoalDocument :=
  mkGoal (gd_doc_id g) (gd_goal_id g) (gd_session_id g) (gd_agent_did g) (gd_objective g) (gd_status g)
    (gd_token_budget g) v (gd_active_time_seconds g) (gd_active_started_at g)
    (gd_consecutive_blocked_audits g) (gd_last_blocked_request_id g) (gd_last_blocked_reason g)
    (gd_last_continued_from_request_id g) (gd_continuation_sequence g) (gd_wrapup_requested g)
    (gd_wrapup_completed g) (gd_infrastructure_retry_count g) (gd_last_failure g)
    (gd_completion_evidence g) (gd_created_at g) (gd_updated_at g).
Definition set_gd_active_time_seconds (v : option Z) (g : GoalDocument) : GoalDocument :=
  mkGoal (gd_doc_id g) (gd_goal_id g) (gd_session_id g) (gd_agent_did g) (gd_objective g) (gd_status g)
    (gd_token_budget g) (gd_tokens_used g) v (gd_active_started_at g) (gd_consecutive_blocked_audits g)
    (gd_last_blocked_request_id g) (gd_last_blocked_reason g) (gd_last_continued_from_request_id g)
    (gd_continuation_sequence g) (gd_wrapup_requested g) (gd_wrapup_completed g)
    (gd_infrastructure_retry_count g) (gd_last_failure g) (gd_completion_evidence g) (gd_created_at g)
    (gd_updated_at g).
Definition set_gd_active_started_at (v : option str) (g : GoalDocument) : GoalDocument :=
  mkGoal (gd_doc_id g) (gd_goal_id g) (gd_session_id g) (gd_agent_did g) (gd_objective g) (gd_status g)
    (gd_token_budget g) (gd_tokens_used g) (gd_active_time_seconds g) v (gd_consecutive_blocked_audits g)
    (gd_last_blocked_request_id g) (gd_last_blocked_reason g) (gd_last_continued_from_request_id g)
    (gd_continuation_sequence g) (gd_wrapup_requested g) (gd_wrapup_completed g)
    (gd_infrastructure_retry_count g) (gd_last_failure g) (gd_completion_evidence g) (gd_created_at g)
    (gd_updated_at g).
Definition set_gd_consecutive_blocked_audits (v : option Z) (g : GoalDocument) : GoalDocument :=
  mkGoal (gd_doc_id g) (gd_goal_id g) (gd_session_id g) (gd_agent_did g) (gd_objective g) (gd_status g)
    (gd_token_budget g) (gd_tokens_used g) (gd_active_time_seconds g) (gd_active_started_at g) v
    (gd_last_blocked_request_id g) (gd_last_blocked_reason g) (gd_last_continued_from_request_id g)
    (gd_continuation_sequence g) (gd_wrapup_requested g) (gd_wrapup_completed g)
    (gd_infrastructure_retry_count g) (gd_last_failure g) (gd_completion_evidence g) (gd_created_at g)
    (gd_updated_at g).
Definition set_gd_last_blocked_request_id (v : option str) (g : GoalDocument) : GoalDocument :=
  mkGoal (gd_doc_id g) (gd_goal_id g) (gd_session_id g) (gd_agent_did g) (gd_objective g) (gd_status g)
    (gd_token_budget g) (gd_tokens_used g) (gd_active_time_seconds g) (gd_active_started_at g)
    (gd_consecutive_blocked_audits g) v (gd_last_blocked_reason g) (gd_last_continued_from_request_id g)
    (gd_continuation_sequence g) (gd_wrapup_requested g) (gd_wrapup_completed g)
    (gd_infrastructure_retry_count g) (gd_last_failure g) (gd_completion_evidence g) (gd_created_at g)
    (gd_updated_at g).
Definition set_gd_last_blocked_reason (v : option str) (g : GoalDocument) : GoalDocument :=
  mkGoal (gd_doc_id g) (gd_goal_id g) (gd_session_id g) (gd_agent_did g) (gd_objective g) (gd_status g)
    (gd_token_budget g) (gd_tokens_used g) (gd_active_time_seconds g) (gd_active_started_at g)
    (gd_consecutive_blocked_audits g) (gd_last_blocked_request_id g) v
    (gd_last_continued_from_request_id g) (gd_continuation_sequence g) (gd_wrapup_requested g)
    (gd_wrapup_completed g) (gd_infrastructure_retry_count g) (gd_last_failure g)
    (gd_completion_evidence g) (gd_created_at g) (gd_updated_at g).
Definition set_gd_last_continued_from_request_id (v : option str) (g : GoalDocument) : GoalDocument :=
  mkGoal (gd_doc_id g) (gd_goal_id g) (gd_session_id g) (gd_agent_did g) (gd_objective g) (gd_status g)
    (gd_token_budget g) (gd_tokens_used g) (gd_active_time_seconds g) (gd_active_started_at g)
    (gd_consecutive_blocked_audits g) (gd_last_blocked_request_id g) (gd_last_blocked_reason g) v
    (gd_continuation_sequence g) (gd_wrapup_requested g) (gd_wrapup_completed g)
    (gd_infrastructure_retry_count g) (gd_last_failure g) (gd_completion_evidence g) (gd_created_at g)
    (gd_updated_at g).
Definition set_gd_continuation_sequence (v : option Z) (g : GoalDocument) : GoalDocument :=
  mkGoal (gd_doc_id g) (gd_goal_id g) (gd_session_id g) (gd_agent_did g) (gd_objective g) (gd_status g)
    (gd_token_budget g) (gd_tokens_used g) (gd_active_time_seconds g) (gd_active_started_at g)
    (gd_consecutive_blocked_audits g) (gd_last_blocked_request_id g) (gd_last_blocked_reason g)
    (gd_last_continued_from_request_id g) v (gd_wrapup_requested g) (gd_wrapup_completed g)
    (gd_infrastructure_retry_count g) (gd_last_failure g) (gd_completion_evidence g) (gd_created_at g)
    (gd_updated_at g).
Definition set_gd_wrapup_requested (v : option bool) (g : GoalDocument) : GoalDocument :=
  mkGoal (gd_doc_id g) (gd_goal_id g) (gd_session_id g) (gd_agent_did g) (gd_objective g) (gd_status g)
    (gd_token_budget g) (gd_tokens_used g) (gd_active_time_seconds g) (gd_active_started_at g)
    (gd_consecutive_blocked_audits g) (gd_last_blocked_request_id g) (gd_last_blocked_reason g)
    (gd_last_continued_from_request_id g) (gd_continuation_sequence g) v (gd_wrapup_completed g)
    (gd_infrastructure_retry_count g) (gd_last_failure g) (gd_completion_evidence g) (gd_created_at g)
    (gd_updated_at g).
Definition set_gd_wrapup_completed (v : option bool) (g : GoalDocument) : GoalDocument :=
  mkGoal (gd_doc_id g) (gd_goal_id g) (gd_session_id g) (gd_agent_did g) (gd_objective g) (gd_status g)
    (gd_token_budget g) (gd_tokens_used g) (gd_active_time_seconds g) (gd_active_started_at g)
    (gd_consecutive_blocked_audits g) (gd_last_blocked_request_id g) (gd_last_blocked_reason g)
    (gd_last_continued_from_request_id g) (gd_continuation_sequence g) (gd_wrapup_requested g) v
    (gd_infrastructure_retry_count g) (gd_last_failure g) (gd_completion_evidence g) (gd_created_at g)
    (gd_updated_at g).
Definition set_gd_infrastructure_retry_count (v : option Z) (g : GoalDocument) : GoalDocument :=
  mkGoal (gd_doc_id g) (gd_goal_id g) (gd_session_id g) (gd_agent_did g) (gd_objective g) (gd_status g)
    (gd_token_budget g) (gd_tokens_used g) (gd_active_time_seconds g) (gd_active_started_at g)
    (gd_consecutive_blocked_audits g) (gd_last_blocked_request_id g) (gd_last_blocked_reason g)
    (gd_last_continued_from_request_id g) (gd_continuation_sequence g) (gd_wrapup_requested g)
    (gd_wrapup_completed g) v (gd_last_failure g) (gd_completion_evidence g) (gd_created_at g)
    (gd_updated_at g).
Definition set_gd_last_failure (v : option str) (g : GoalDocument) : GoalDocument :=
  mkGoal (gd_doc_id g) (gd_goal_id g) (gd_session_id g) (gd_agent_did g) (gd_objective g) (gd_status g)
    (gd_token_budget g) (gd_tokens_used g) (gd_active_time_seconds g) (gd_active_started_at g)
    (gd_consecutive_blocked_audits g) (gd_last_blocked_request_id g) (gd_last_blocked_reason g)
    (gd_last_continued_from_request_id g) (gd_continuation_sequence g) (gd_wrapup_requested g)
    (gd_wrapup_completed g) (gd_infrastructure_retry_count g) v (gd_completion_evidence g)
    (gd_created_at g) (gd_updated_at g).
Definition set_gd_completion_evidence (v : option str) (g : GoalDocument) : GoalDocument :=
  mkGoal (gd_doc_id g) (gd_goal_id g) (gd_session_id g) (gd_agent_did g) (gd_objective g) (gd_status g)
    (gd_token_budget g) (gd_tokens_used g) (gd_active_time_seconds g) (gd_active_started_at g)
    (gd_consecutive_blocked_audits g) (gd_last_blocked_request_id g) (gd_last_blocked_reason g)
    (gd_last_continued_from_request_id g) (gd_continuation_sequence g) (gd_wrapup_requested g)
    (gd_wrapup_completed g) (gd_infrastructure_retry_count g) (gd_last_failure g) v (gd_created_at g)
    (gd_updated_at g).
Definition set_gd_updated_at (v : option str) (g : GoalDocument) : GoalDocument :=
  mkGoal (gd_doc_id g) (gd_goal_id g) (gd_session_id g) (gd_agent_did g) (gd_objective g) (gd_status g)
    (gd_token_budget g) (gd_tokens_used g) (gd_active_time_seconds g) (gd_active_started_at g)
    (gd_consecutive_blocked_audits g) (gd_last_blocked_request_id g) (gd_last_blocked_reason g)
    (gd_last_continued_from_request_id g) (gd_continuation_sequence g) (gd_wrapup_requested g)
    (gd_wrapup_completed g) (gd_infrastructure_retry_count g) (gd_last_failure g)
    (gd_completion_evidence g) (gd_created_at g) v.

Definition parsed_status (g : GoalDocument) : option GoalStatus := goal_status_parse (gd_status g).
Definition goal_state (g : GoalDocument) : option GoalState :=
  match parsed_status g with
  | None => None
  | Some st => Some (mkGoalState st (Z.max (unwrap_or 0 (gd_consecutive_blocked_audits g)) 0)
                       (unwrap_or false (gd_wrapup_requested g)) (unwrap_or false (gd_wrapup_completed g)))
  end.
Definition continuation_sequence (g : GoalDocument) : Z := Z.max (unwrap_or 0 (gd_continuation_sequence g)) 0.
Definition infrastructure_retries (g : GoalDocument) : Z := unwrap_or 0 (gd_infrastructure_retry_count g).
Definition current_active_time_seconds `{Chrono} (g : GoalDocument) (now : Z) : Z :=
  let persisted := Z.max (unwrap_or 0 (gd_active_time_seconds g)) 0 in
  match parsed_status g with
  | Some GS_Active =>
      let elapsed := match gd_active_started_at g with
                     | None => 0
                     | Some started => match parse_from_rfc3339 started with
                                       | Ok t => Z.max (Z.quot (now - t) 1000000000) 0
                                       | Err _ => 0
                                       end
                     end in
      saturating_add i64_max persisted elapsed
  | _ => persisted
  end.

(** The order of twins: creation, goal, document.  [None] comes first, as in [Ord]. *)
Definition opt_str_leb (a b : option str) : bool :=
  match a, b with None, _ => true | Some _, None => false | Some x, Some y => str_leb x y end.
Definition canonical_leb (a b : GoalDocument) : bool :=
  if opt_eqb str_eqb (gd_created_at a) (gd_created_at b) then
    if str_eqb (gd_goal_id a) (gd_goal_id b) then str_leb (gd_doc_id a) (gd_doc_id b)
    else str_leb (gd_goal_id a) (gd_goal_id b)
  else opt_str_leb (gd_created_at a) (gd_created_at b).
Fixpoint insert_canonical (g : GoalDocument) (goals : list GoalDocument) : list GoalDocument :=
  match goals with
  | [] => [g]
  | h :: goals' => if canonical_leb g h then g :: goals else h :: insert_canonical g goals'
  end.
Definition sort_goals_canonical (goals : list GoalDocument) : list GoalDocument := foldr insert_canonical [] goals.

(** A claim of the right to create the goal of a session. *)
Record GoalCreationClaim : Type := mkGoalClaim {
  cc_creation_key : str; cc_goal_id : str; cc_agent_did : str; cc_session_id : str; cc_objective : str; cc_token_budget : option Z }.

(** The collections goals live in. *)
Record GoalWorld : Type := mkGoalWorld {
  gw_goals : list GoalDocument; gw_claims : list GoalCreationClaim; gw_requests : list RequestRow;
  gw_calls : list CallRow; gw_tool_calls : list str; gw_responses : list ResponseRow; gw_conversations : list ConversationRow }.
Definition set_gw_goals (v : list GoalDocument) (w : GoalWorld) : GoalWorld :=
  mkGoalWorld v (gw_claims w) (gw_requests w) (gw_calls w) (gw_tool_calls w) (gw_responses w) (gw_conversations w).
Definition set_gw_claims (v : list GoalCreationClaim) (w : GoalWorld) : GoalWorld :=
  mkGoalWorld (gw_goals w) v (gw_requests w) (gw_calls w) (gw_tool_calls w) (gw_responses w) (gw_conversations w).
Definition set_gw_requests (v : list RequestRow) (w : GoalWorld) : GoalWorld :=
  mkGoalWorld (gw_goals w) (gw_claims w) v (gw_calls w) (gw_tool_calls w) (gw_responses w) (gw_conversations w).
Definition set_gw_tool_calls (v : list str) (w : GoalWorld) : GoalWorld :=
  mkGoalWorld (gw_goals w) (gw_claims w) (gw_requests w) (gw_calls w) v (gw_responses w) (gw_conversations w).

(** ** Operations on the collections

    An operation is a sequence of points ([Points]). *)
Abbreviation GoalPoint := (Point GoalWorld).
Abbreviation GM := (PM GoalWorld).

Section goal_documents.
Context `{Chrono}.

Definition of_session (agent_did session_id : str) (g : GoalDocument) : bool :=
  str_eqb (gd_agent_did g) agent_did && str_eqb (gd_session_id g) session_id.
Definition load_goals_for_session (agent_did session_id : str) : GM (list GoalDocument) :=
  gm_query (λ w, sort_goals_canonical (List.filter (of_session agent_did session_id) (gw_goals w))).
Definition load_canonical_goal (agent_did session_id : str) : GM (option GoalDocument) :=
  goals ← load_goals_for_session agent_did session_id; mret (head goals).
Definition load_goal_by_id (agent_did goal_id : str) : GM (option GoalDocument) :=
  gm_query (λ w, head (sort_goals_canonical
    (List.filter (λ g, str_eqb (gd_agent_did g) agent_did && str_eqb (gd_goal_id g) goal_id) (gw_goals w)))).
Definition load_goal_by_doc_id (doc_id : str) : GM (option GoalDocument) :=
  gm_query (λ w, List.find (λ g, str_eqb (gd_doc_id g) doc_id) (gw_goals w)).

(** A filtered update; its result is whether it returned a row. *)
Definition update_goals (p : GoalDocument → bool) (f : GoalDocument → GoalDocument) : GM bool :=
  gm_mutate DEFRA_DB_CONFLICT_MAX_RETRIES (λ _ w,
    (Ok (existsb p (gw_goals w)), set_gw_goals (update_where p f (gw_goals w)) w)).
Definition same_goal (goal g : GoalDocument) : bool :=
  str_eqb (gd_doc_id g) (gd_doc_id goal) && str_eqb (gd_agent_did g) (gd_agent_did goal).
Definition update_goal_fields (goal : GoalDocument) (f : GoalDocument → GoalDocument) : GM unit :=
  _ ← update_goals (same_goal goal) f; mret tt.
Definition update_goal_fields_if_status (goal : GoalDocument) (expected : GoalStatus) (f : GoalDocument → GoalDocument) : GM bool :=
  update_goals (λ g, same_goal goal g && str_eqb (gd_status g) (goal_status_as_str expected)) f.

Definition claim_filter (goal g : GoalDocument) : bool :=
  same_goal goal g && str_eqb (gd_status g) (gd_status goal)
  && opt_eqb Z.eqb (gd_continuation_sequence g) (Some (continuation_sequence goal)).
Definition next_sequence (goal : GoalDocument) : Z := saturating_add i64_max (continuation_sequence goal) 1.
Definition goal_claim_input (goal : GoalDocument) (parent_request_id now : str) (g : GoalDocument) : GoalDocument :=
  set_gd_updated_at (Some now) (set_gd_continuation_sequence (Some (next_sequence goal))
    (set_gd_last_continued_from_request_id (Some parent_request_id) g)).
Definition claim_continuation (goal : GoalDocument) (parent_request_id : str) : GM bool :=
  now ← gm_now;
  update_goals (claim_filter goal) (goal_claim_input goal parent_request_id (to_rfc3339 now)).
Definition claim_retry_continuation (goal : GoalDocument) (parent_request_id : str) (retry_count : Z) (failure : str) : GM bool :=
  now ← gm_now;
  update_goals (claim_filter goal) (λ g, set_gd_last_failure (Some failure)
    (set_gd_infrastructure_retry_count (Some retry_count) (goal_claim_input goal parent_request_id (to_rfc3339 now) g))).

(** *** Usage *)

Definition of_session_request (agent_did session_id : str) (r : RequestRow) : bool :=
  opt_eqb str_eqb (ri_agent_did (r_ident r)) (Some agent_did) && opt_eqb str_eqb (ri_session_id (r_ident r)) (Some session_id).
Definition session_token_usage (agent_did session_id : str) : GM Z :=
  ids ← gm_query (λ w, (λ r, ri_request_id (r_ident r)) <$> List.filter (of_session_request agent_did session_id) (gw_requests w));
  if is_nil ids then mret 0
  else
  rows ← gm_query (λ w, (λ k, (k_usage k).1) <$>
    List.filter (λ k, str_eqb (ir_agent_did (k_call k)) agent_did && bool_decide (ir_request_id (k_call k) ∈ ids)) (gw_calls w));
  match sum_charged_from_persisted_parts rows with
  | Ok charged => mret (Z.min charged i64_max)
  | Err _ => gm_fail (Msg (lit "summing goal inference usage"))
  end.
Definition refresh_goal_usage (goal : GoalDocument) : GM Z :=
  tokens ← session_token_usage (gd_agent_did goal) (gd_session_id goal);
  now ← gm_now;
  let started := if is_some_and accrues_active_time (parsed_status goal) then Some (to_rfc3339 now) else None in
  _ ← update_goal_fields goal (λ g, set_gd_updated_at (Some (to_rfc3339 now)) (set_gd_active_started_at started
        (set_gd_active_time_seconds (Some (current_active_time_seconds goal now)) (set_gd_tokens_used (Some tokens) g))));
  mret tokens.

(** *** The operator's upsert *)

Definition created_goal (doc_id goal_id session_id agent_did objective : str) (token_budget : option Z) (s : GoalState) (now : str) : GoalDocument :=
  {| gd_doc_id := doc_id; gd_goal_id := goal_id; gd_session_id := session_id; gd_agent_did := agent_did;
     gd_objective := objective; gd_status := goal_status_as_str (go_status s); gd_token_budget := token_budget;
     gd_tokens_used := Some 0; gd_active_time_seconds := Some 0;
     gd_active_started_at := if accrues_active_time (go_status s) then Some now else None;
     gd_consecutive_blocked_audits := Some (go_blocked_audits s); gd_last_blocked_request_id := None;
     gd_last_blocked_reason := None; gd_last_continued_from_request_id := None; gd_continuation_sequence := Some 0;
     gd_wrapup_requested := Some (go_wrapup_requested s); gd_wrapup_completed := Some (go_wrapup_completed s);
     gd_infrastructure_retry_count := Some 0; gd_last_failure := None; gd_completion_evidence := None;
     gd_created_at := Some now; gd_updated_at := Some now |}.
Definition set_goal_input (existing : GoalDocument) (objective : str) (budget : option Z) (post : GoalState)
    (resumed : bool) (now : Z) (g : GoalDocument) : GoalDocument :=
  let g := set_gd_objective objective (set_gd_status (goal_status_as_str (go_status post)) (set_gd_token_budget budget g)) in
  let g := set_gd_tokens_used (Some (Z.max (unwrap_or 0 (gd_tokens_used existing)) 0)) g in
  let g := set_gd_active_time_seconds (Some (current_active_time_seconds existing now)) g in
  let g := set_gd_active_started_at (if accrues_active_time (go_status post) then Some (to_rfc3339 now) else None) g in
  let g := set_gd_consecutive_blocked_audits (Some (go_blocked_audits post)) g in
  let g := set_gd_wrapup_requested (Some (go_wrapup_requested post)) g in
  let g := set_gd_wrapup_completed (Some (go_wrapup_completed post)) g in
  let g := if resumed then
             set_gd_last_blocked_request_id None (set_gd_last_blocked_reason None (set_gd_last_failure None
               (set_gd_infrastructure_retry_count (Some 0) (set_gd_completion_evidence None g))))
           else g in
  set_gd_updated_at (Some (to_rfc3339 now)) g.
Definition initial_goal_state (status : GoalStatus) : GoalState :=
  mkGoalState status (if bool_decide (status = GS_Blocked) then BLOCKED_AUDIT_THRESHOLD else 0)
    (bool_decide (status = GS_BudgetLimited)) (bool_decide (status = GS_Complete)).
Definition set_goal (agent_did session_id : str) (objective : option str) (status : option GoalStatus)
    (token_budget : option (option Z)) : GM GoalDocument :=
  existing ← load_canonical_goal agent_did session_id;
  objective ← gm_lift (match opt_filter (λ v, negb (is_nil v)) (trim <$> objective), existing with
                       | Some o, _ => Ok o
                       | None, Some g => Ok (gd_objective g)
                       | None, None => Err (Msg (lit "a goal objective is required"))
                       end);
  let status := match status with Some s => s | None => unwrap_or GS_Active (existing ≫= parsed_status) end in
  let budget := match token_budget with Some b => b | None => existing ≫= gd_token_budget end in
  if is_some_and (λ v, v <=? 0) budget then gm_fail (Msg (lit "goal token budget must be positive"))
  else
  now ← gm_now;
  match existing with
  | Some existing =>
      pre ← gm_lift (ok_or (Msg (lit "existing Goal has an unknown status")) (goal_state existing));
      let resumed := bool_decide (operator_action_for_status (go_status pre) status = Some GA_Resume) in
      post ← gm_lift (apply_operator_status_transition pre status);
      _ ← update_goals (λ g, str_eqb (gd_doc_id g) (gd_doc_id existing) && str_eqb (gd_agent_did g) agent_did)
            (set_goal_input existing objective budget post resumed now);
      found ← load_goal_by_doc_id (gd_doc_id existing);
      gm_lift (ok_or (Msg (lit "updated Goal row disappeared")) found)
  | None =>
      _ ← gm_mutate DEFRA_DB_CONFLICT_MAX_RETRIES (λ id w,
            (Ok tt, set_gw_goals (gw_goals w ++ [created_goal id (deterministic_goal_id agent_did session_id) session_id agent_did
                                                   objective budget (initial_goal_state status) (to_rfc3339 now)]) w));
      found ← load_canonical_goal agent_did session_id;
      gm_lift (ok_or (Msg (lit "created Goal row not found")) found)
  end.
Definition delete_goal (goal : GoalDocument) : GM bool :=
  gm_mutate DEFRA_DB_CONFLICT_MAX_RETRIES (λ _ w,
    (Ok (existsb (same_goal goal) (gw_goals w)), set_gw_goals (List.filter (λ g, negb (same_goal goal g)) (gw_goals w)) w)).
(** One transaction: the goals of the session and its creation claims. *)
Definition delete_goals_for_session (agent_did session_id : str) : GM nat :=
  gm_mutate 0 (λ _ w,
    (Ok (length (List.filter (of_session agent_did session_id) (gw_goals w))),
     set_gw_claims (List.filter (λ c, negb (str_eqb (cc_agent_did c) agent_did && str_eqb (cc_session_id c) session_id)) (gw_claims w))
       (set_gw_goals (List.filter (λ g, negb (of_session agent_did session_id g)) (gw_goals w)) w))).
End goal_documents.

(** *** Creation by a model *)

Inductive CreateGoalForSessionError : Type :=
  | InvalidObjective | InvalidBudget | GoalConflict | GoalStorage (e : Error).
Record StagedGoal : Type := mkStaged { sg_created : bool; sg_goal : GoalDocument }.
Definition owned_create (agent_did session_id objective : str) (token_budget : option Z) : GoalCreateRequest :=
  {| gc_caller := agent_did; gc_current_session := session_id; gc_requested_owner := agent_did; gc_requested_session := session_id;
     gc_objective := objective; gc_objective_nonempty := negb (is_nil objective); gc_token_budget := token_budget;
     gc_goal_tools := true; gc_goal_create := true |}.
Definition claim_fingerprint (c : GoalCreationClaim) : GoalCreationFingerprint :=
  mkFingerprint (cc_agent_did c) (cc_session_id c) (cc_objective c) (cc_token_budget c).
(** The body of a transaction on the state [w]; [faults] are those of its statements. *)
Definition stage_goal_and_claim (agent_did session_id objective : str) (token_budget : option Z) (initial : GoalState)
    (now fresh : str) (faults : nat → option Error) (w : GoalWorld) : result CreateGoalForSessionError (StagedGoal * GoalWorld) :=
  let run n := match faults n with Some e => Err (GoalStorage e) | None => Ok tt end in
  let create := owned_create agent_did session_id objective token_budget in
  if negb (bool_decide (decide_model_goal_create create None = CD_Fresh))
  then Err (GoalStorage (Msg (lit "invalid goal objective or token budget")))
  else
  let objective := fp_objective (goal_creation_fingerprint create) in
  let goal_id := deterministic_goal_id agent_did session_id in
  let creation_key := deterministic_goal_creation_key agent_did session_id in
  let? _ := run 0%nat in
  let goals := sort_goals_canonical (List.filter (of_session agent_did session_id) (gw_goals w)) in
  let? w := match List.filter (λ c, str_eqb (cc_creation_key c) creation_key) (gw_claims w) with
            | [] => let? _ := run 1%nat in
                    Ok (set_gw_claims (gw_claims w ++ [mkGoalClaim creation_key goal_id agent_did session_id objective token_budget]) w)
            | [claim] =>
                if negb (str_eqb (cc_goal_id claim) goal_id)
                   || negb (bool_decide (decide_model_goal_create create (Some (claim_fingerprint claim)) = CD_Idempotent))
                then Err GoalConflict else Ok w
            | _ => Err (GoalStorage (Msg (lit "goal creation key resolved to multiple claims")))
            end in
  match goals with
  | goal :: _ =>
      if forallb (λ g, str_eqb (trim (gd_objective g)) objective && opt_eqb Z.eqb (gd_token_budget g) token_budget) goals
      then Ok (mkStaged false goal, w) else Err GoalConflict
  | [] =>
      let? _ := run 2%nat in
      let goal := created_goal fresh goal_id session_id agent_did objective token_budget initial now in
      Ok (mkStaged true goal, set_gw_goals (gw_goals w ++ [goal]) w)
  end.

Section creation.
Context `{Chrono} (faults : nat → option Error).
(** What a caller is told after a transaction that failed or may have. *)
Definition settle_creation (agent_did session_id objective : str) (token_budget : option Z) (error : CreateGoalForSessionError)
    : GM (result CreateGoalForSessionError (bool * GoalDocument)) :=
  existing ← load_canonical_goal agent_did session_id;
  match existing with
  | None => mret (Err error)
  | Some existing =>
      if str_eqb (trim (gd_objective existing)) objective && opt_eqb Z.eqb (gd_token_budget existing) token_budget then
        claims ← gm_query (λ w, take 2 (List.filter (λ c, str_eqb (cc_creation_key c)
                                   (deterministic_goal_creation_key agent_did session_id)) (gw_claims w)));
        claim ← gm_lift (match claims with [] => Ok None | [c] => Ok (Some (claim_fingerprint c))
                         | _ => Err (Msg (lit "goal creation key resolved to multiple claims")) end);
        if bool_decide (claim = Some (mkFingerprint agent_did session_id objective token_budget))
        then mret (Ok (false, existing)) else mret (Err GoalConflict)
      else mret (Err GoalConflict)
  end.
(** [true] with a goal that was created, [false] with one that was there; a fault of a
    later query is [Storage]. *)
Definition create_goal_for_session (agent_did session_id objective : str) (token_budget : option Z)
    : GM (result CreateGoalForSessionError (bool * GoalDocument)) := λ env n w,
  match decide_model_goal_create (owned_create agent_did session_id objective token_budget) None with
  | CD_Invalid => (Ok (Err (if is_nil (trim objective) then InvalidObjective else InvalidBudget)), n, w)
  | _ =>
      let objective := trim objective in
      let w := pt_others (env n) w in
      match pt_fault (env n) with
      | Some e => (Ok (Err (GoalStorage e)), S n, w)
      | None =>
          let settle error w :=
            match settle_creation agent_did session_id objective token_budget error env (S n) w with
            | (Ok r, n, w) => (Ok r, n, w)
            | (Err e, n, w) => (Ok (Err (GoalStorage e)), n, w)
            end in
          match stage_goal_and_claim agent_did session_id objective token_budget (mkGoalState GS_Active 0 false false)
                  (to_rfc3339 (pt_now (env n))) (pt_fresh (env n)) faults w with
          | Err error => settle error w
          | Ok (staged, w') =>
              match pt_commit (env n) with
              | Refused e => settle (GoalStorage e) w
              | Ambiguous e => settle (GoalStorage e) w'
              | Committed =>
                  match load_canonical_goal agent_did session_id env (S n) w' with
                  | (Ok (Some goal), n, w) => (Ok (Ok (sg_created staged, goal)), n, w)
                  | (Ok None, n, w) => (Ok (Err (GoalStorage (Msg (lit "committed Goal row not found")))), n, w)
                  | (Err e, n, w) => (Ok (Err (GoalStorage e)), n, w)
                  end
              end
          end
      end
  end.
End creation.

(** *** The tools of a model *)

(** Each is bracketed by the row of its tool call, which is started before the arguments
    are read and completed with the answer; the row itself is [ToolCall]'s, here it is
    the activity of its request. *)
Definition start_goal_tool (request_id : str) : GM unit :=
  gm_mutate DEFRA_DB_CONFLICT_MAX_RETRIES (λ _ w, (Ok tt, set_gw_tool_calls (gw_tool_calls w ++ [request_id]) w)).
Definition complete_goal_tool : GM unit := gm_mutate DEFRA_DB_CONFLICT_MAX_RETRIES (λ _ w, (Ok tt, w)).
Definition in_tool_call {A} (request_id : str) (answer : GM A) : GM A :=
  _ ← start_goal_tool request_id; outcome ← answer; _ ← complete_goal_tool; mret outcome.

Section goal_tools.
Context `{Chrono}.
Record UpdateGoalArgs : Type := mkUpdateArgs { ug_status : str; ug_reason : option str }.
(** What [update_goal] answers. *)
Inductive UpdateGoalOutcome : Type :=
  | UO_InvalidArguments (error : str) | UO_NoGoal | UO_UnknownStatus (status : str) | UO_CompleteIllegal
  | UO_Completed | UO_BlockedIllegal (status : GoalStatus) | UO_NoReason
  | UO_Audited (accepted : bool) (status : GoalStatus) (audits : Z) | UO_Unsupported (status : str).
Definition complete_input (goal : GoalDocument) (post : GoalState) (reason : option str) (now : Z) (g : GoalDocument) : GoalDocument :=
  set_gd_updated_at (Some (to_rfc3339 now)) (set_gd_completion_evidence reason (set_gd_last_failure None
    (set_gd_wrapup_completed (Some (go_wrapup_completed post)) (set_gd_active_started_at None
      (set_gd_active_time_seconds (Some (current_active_time_seconds goal now))
        (set_gd_status (goal_status_as_str (go_status post)) g)))))).
Definition audit_input (goal : GoalDocument) (accepted : bool) (audits : Z) (reason request_id : str) (now : Z) (g : GoalDocument) : GoalDocument :=
  let g := set_gd_status (goal_status_as_str (if accepted then GS_Blocked else GS_Active)) g in
  let g := set_gd_last_blocked_reason (Some reason) (set_gd_last_blocked_request_id (Some request_id)
             (set_gd_consecutive_blocked_audits (Some audits) g)) in
  let g := if accepted then set_gd_active_started_at None
                              (set_gd_active_time_seconds (Some (current_active_time_seconds goal now)) g) else g in
  set_gd_updated_at (Some (to_rfc3339 now)) g.
Definition update_goal_answer (agent_did session_id request_id : str) (args : result str UpdateGoalArgs) : GM UpdateGoalOutcome :=
  match args with
  | Err error => mret (UO_InvalidArguments error)
  | Ok args =>
      goal ← load_canonical_goal agent_did session_id;
      match goal with
      | None => mret UO_NoGoal
      | Some goal =>
          now ← gm_now;
          let reason := opt_filter (λ r, negb (is_nil r)) (trim <$> ug_reason args) in
          match goal_state goal with
          | None => mret (UO_UnknownStatus (gd_status goal))
          | Some pre =>
              if str_eqb (trim (ug_status args)) (lit "complete") then
                match goal_step pre GA_Complete with
                | None => mret UO_CompleteIllegal
                | Some post => _ ← update_goal_fields goal (complete_input goal post reason now); mret UO_Completed
                end
              else if str_eqb (trim (ug_status args)) (lit "blocked") then
                if negb (bool_decide (go_status pre = GS_Active)) then mret (UO_BlockedIllegal (go_status pre))
                else match reason with
                | None => mret UO_NoReason
                | Some reason =>
                    let '(audits, accepted) := next_blocked_audit (unwrap_or 0 (gd_consecutive_blocked_audits goal))
                      (gd_last_blocked_reason goal) (gd_last_blocked_request_id goal) reason request_id in
                    _ ← update_goal_fields goal (audit_input goal accepted audits reason request_id now);
                    mret (UO_Audited accepted (if accepted then GS_Blocked else GS_Active) audits)
                end
              else mret (UO_Unsupported (trim (ug_status args)))
          end
      end
  end.
Definition update_goal_tool (agent_did session_id request_id : str) (args : result str UpdateGoalArgs) : GM UpdateGoalOutcome :=
  in_tool_call request_id (update_goal_answer agent_did session_id request_id args).
Definition get_goal_answer (agent_did session_id : str) (args_ok : bool) : GM (option (option (GoalDocument * Z))) :=
  if negb args_ok then mret None
  else
  goal ← load_canonical_goal agent_did session_id;
  match goal with
  | None => mret (Some None)
  | Some goal =>
      _ ← refresh_goal_usage goal;
      again ← load_canonical_goal agent_did session_id;
      now ← gm_now;
      let goal := unwrap_or goal again in
      mret (Some (Some (goal, current_active_time_seconds goal now)))
  end.
Definition get_goal_tool (agent_did session_id request_id : str) (args_ok : bool) : GM (option (option (GoalDocument * Z))) :=
  in_tool_call request_id (get_goal_answer agent_did session_id args_ok).
Record CreateGoalArgs : Type := mkCreateArgs { cg_objective : str; cg_token_budget : option Z }.
(** What [create_goal] answers. *)
Inductive CreateGoalAnswer : Type :=
  | CG_Accepted (created : bool) (goal : GoalDocument) | CG_InvalidArguments (error : str) | CG_Refused (error : CreateGoalForSessionError).
Definition create_goal_tool (faults : nat → option Error) (agent_did session_id request_id : str) (args : result str CreateGoalArgs)
    : GM CreateGoalAnswer :=
  in_tool_call request_id
    match args with
    | Err error => mret (CG_InvalidArguments error)
    | Ok args =>
        outcome ← create_goal_for_session faults agent_did session_id (cg_objective args) (cg_token_budget args);
        mret match outcome with Ok (created, goal) => CG_Accepted created goal | Err error => CG_Refused error end
    end.
End goal_tools.

(** ** A model creates the goal of its session once *)

Section creation_theorems.
Context `{Chrono}.
Lemma filter_none {A} (p : A → bool) l : existsb p l = false -> List.filter p l = [].
Proof. induction l as [|a l IH]; cbn; [done|]. intros [-> Hl]%orb_false_iff. by apply IH. Qed.
Lemma filter_snoc {A} (p : A → bool) l a : existsb p l = false -> p a = true -> List.filter p (l ++ [a]) = [a].
Proof. intros Hl Ha. rewrite List.filter_app, (filter_none p l Hl). cbn. by rewrite Ha. Qed.
(** The session has neither a goal nor a claim. *)
Definition unclaimed (agent_did session_id : str) (w : GoalWorld) : Prop :=
  existsb (of_session agent_did session_id) (gw_goals w) = false
  ∧ existsb (λ c, str_eqb (cc_creation_key c) (deterministic_goal_creation_key agent_did session_id)) (gw_claims w) = false.
Definition valid_create (agent_did session_id objective : str) (token_budget : option Z) : Prop :=
  decide_model_goal_create (owned_create agent_did session_id objective token_budget) None = CD_Fresh.
Definition bad_budget (token_budget : option Z) : bool := is_some_and (λ b, (b <=? 0) || (i64_max <? b)) token_budget.
Lemma owned_decide did sid objective budget existing : decide_model_goal_create (owned_create did sid objective budget) existing
  = if is_nil objective || is_nil (trim objective) || bad_budget budget then CD_Invalid
    else match existing with
         | None => CD_Fresh
         | Some e => if bool_decide (e = mkFingerprint did sid (trim objective) budget) then CD_Idempotent else CD_Conflict
         end.
Proof.
  unfold decide_model_goal_create, owned_create, goal_creation_fingerprint.
  cbn [gc_caller gc_current_session gc_requested_owner gc_requested_session gc_objective gc_objective_nonempty gc_token_budget gc_goal_tools gc_goal_create].
  rewrite !str_eqb_refl, negb_involutive. done.
Qed.
Lemma valid_budget did sid objective budget : valid_create did sid objective budget -> is_nil (trim objective) = false ∧ bad_budget budget = false.
Proof. unfold valid_create. rewrite owned_decide. destruct (is_nil objective), (is_nil (trim objective)), (bad_budget budget); done. Qed.
Lemma trimmed_decide did sid objective budget existing : valid_create did sid objective budget ->
  decide_model_goal_create (owned_create did sid (trim objective) budget) existing
  = match existing with
    | None => CD_Fresh
    | Some e => if bool_decide (e = mkFingerprint did sid (trim objective) budget) then CD_Idempotent else CD_Conflict
    end.
Proof. intros [Ho Hb]%valid_budget. by rewrite owned_decide, trim_twice, Ho, Hb. Qed.
Definition no_faults (n : nat) : option Error := None.
Definition claim_of (did sid objective : str) (budget : option Z) : GoalCreationClaim :=
  mkGoalClaim (deterministic_goal_creation_key did sid) (deterministic_goal_id did sid) did sid (trim objective) budget.
(** The goal and the claim of a session that has both. *)
Definition claimed_by (did sid objective : str) (budget : option Z) (g : GoalDocument) (w : GoalWorld) : Prop :=
  List.filter (of_session did sid) (gw_goals w) = [g] ∧ trim (gd_objective g) = trim objective ∧ gd_token_budget g = budget
  ∧ List.filter (λ c, str_eqb (cc_creation_key c) (deterministic_goal_creation_key did sid)) (gw_claims w) = [claim_of did sid objective budget].
Lemma load_claimed env n w did sid objective budget g : quiet env -> claimed_by did sid objective budget g w ->
  load_canonical_goal did sid env n w = (Ok (Some g), S n, w).
Proof. intros Hq (Hg & _). unfold load_canonical_goal, load_goals_for_session. rewrite query_bind by done. by rewrite Hg. Qed.
Lemma stage_fresh did sid objective budget now fresh w : valid_create did sid objective budget -> unclaimed did sid w ->
  let g := created_goal fresh (deterministic_goal_id did sid) sid did (trim objective) budget (mkGoalState GS_Active 0 false false) now in
  ∃ w', stage_goal_and_claim did sid (trim objective) budget (mkGoalState GS_Active 0 false false) now fresh no_faults w = Ok (mkStaged true g, w')
    ∧ gw_goals w' = gw_goals w ++ [g] ∧ claimed_by did sid objective budget g w'.
Proof.
  intros Hv [Hg Hc] g. eexists. split; [|split; [|split_and!]].
  - unfold stage_goal_and_claim. rewrite trimmed_decide by done. rewrite bool_decide_true by done. cbn [negb no_faults].
    rewrite (filter_none _ _ Hg), (filter_none _ _ Hc). unfold goal_creation_fingerprint, owned_create. cbn [fp_objective gc_objective gc_caller gc_current_session gc_token_budget].
    rewrite trim_twice. reflexivity.
  - done.
  - cbn. apply filter_snoc; [done|]. unfold of_session. cbn. by rewrite !str_eqb_refl.
  - apply (trim_twice objective).
  - done.
  - cbn. apply filter_snoc; [done|]. cbn. apply str_eqb_refl.
Qed.
Lemma stage_again did sid objective budget objective' budget' now fresh g w : valid_create did sid objective' budget' -> claimed_by did sid objective budget g w ->
  stage_goal_and_claim did sid (trim objective') budget' (mkGoalState GS_Active 0 false false) now fresh no_faults w
  = if bool_decide (trim objective' = trim objective ∧ budget' = budget) then Ok (mkStaged false g, w) else Err GoalConflict.
Proof.
  intros Hv (Hg & Ho & Hb & Hc). unfold stage_goal_and_claim. rewrite (trimmed_decide did sid objective' budget' None) by done. rewrite bool_decide_true by done.
  cbn [negb no_faults]. rewrite Hg, Hc. cbn [sort_goals_canonical foldr insert_canonical claim_of cc_goal_id]. rewrite str_eqb_refl. cbn [negb orb].
  rewrite trimmed_decide by done. unfold claim_fingerprint. cbn [cc_agent_did cc_session_id cc_objective cc_token_budget claim_of goal_creation_fingerprint fp_objective owned_create gc_objective].
  rewrite trim_twice. destruct (decide (trim objective' = trim objective ∧ budget' = budget)) as [[E1 E2]|E].
  - rewrite E1, E2. rewrite (bool_decide_true (mkFingerprint _ _ _ _ = _)) by done. rewrite (bool_decide_true (CD_Idempotent = _)), (bool_decide_true (_ ∧ _)) by done. cbn [negb]. cbn [forallb]. rewrite Ho, Hb, str_eqb_refl. by destruct budget as [z|]; cbn; rewrite ?Z.eqb_refl.
  - rewrite (bool_decide_false (mkFingerprint _ _ _ _ = _)) by (intros [= ? ?]; by apply E). rewrite !bool_decide_false by done. done.
Qed.

(** A model creates the goal of its session once: undisturbed, its first valid request
    creates an active goal with the trimmed objective and the budget, and leaves the
    session's claim; from then on any valid request changes nothing, and is told the
    same goal when it asks for the same objective and budget, a conflict otherwise. *)
Theorem a_session_has_one_model_goal env n w did sid objective budget :
  quiet env -> valid_create did sid objective budget -> unclaimed did sid w ->
  ∃ g n1 w1, create_goal_for_session no_faults did sid objective budget env n w = (Ok (Ok (true, g)), n1, w1)
    ∧ gw_goals w1 = gw_goals w ++ [g] ∧ gd_objective g = trim objective ∧ gd_token_budget g = budget ∧ parsed_status g = Some GS_Active
    ∧ ∀ env' n' objective' budget', quiet env' -> valid_create did sid objective' budget' ->
      ∃ n2, create_goal_for_session no_faults did sid objective' budget' env' n' w1
        = (Ok (if bool_decide (trim objective' = trim objective ∧ budget' = budget) then Ok (false, g) else Err GoalConflict), n2, w1).
Proof.
  intros Hq Hv Hw. destruct (Hq n) as (Hot & Hf & Hco).
  destruct (stage_fresh did sid objective budget (to_rfc3339 (pt_now (env n))) (pt_fresh (env n)) w Hv Hw) as (w1 & Hst & Hgs & Hcl).
  eexists _, _, w1. split; [|split_and!; [exact Hgs|done..|]].
  - unfold create_goal_for_session. rewrite Hv, Hot, Hf, Hst, Hco. by rewrite (load_claimed _ _ _ _ _ _ _ _ Hq Hcl).
  - intros env' n' o' b' Hq' Hv'. destruct (Hq' n') as (Hot' & Hf' & Hco'). unfold create_goal_for_session. rewrite Hv', Hot', Hf'.
    rewrite (stage_again _ _ _ _ _ _ _ _ _ _ Hv' Hcl). case_bool_decide as E.
    + rewrite Hco', (load_claimed _ _ _ _ _ _ _ _ Hq' Hcl). by eexists.
    + unfold settle_creation. rewrite (bind_ok _ _ _ _ _ _ _ _ (load_claimed _ _ _ _ _ _ _ _ Hq' Hcl)).
      destruct Hcl as (_ & Ho & Hb & _). rewrite Ho, Hb. destruct (str_eqb (trim objective) (trim o') && opt_eqb Z.eqb budget b') eqn:Eq; [|by eexists].
      apply andb_true_iff in Eq as [Eo%str_eqb_true Eb]. destruct E. split; [done|].
      destruct budget as [z|], b' as [z'|]; try done. apply Z.eqb_eq in Eb. by subst.
Qed.
End creation_theorems.

(** ** Witness *)

Definition quiet_point (n : nat) : GoalPoint :=
  {| pt_others w := w; pt_fault := None; pt_commit := Committed; pt_now := Z.of_nat n; pt_fresh := lit "q" ++ fmt_Z (Z.of_nat n); pt_uuid := [] |}.
Definition empty_goals : GoalWorld := mkGoalWorld [] [] [] [] [] [] [].
Lemma a_session_has_one_model_goal_witness : ∃ g n1 w1,
  create_goal_for_session (H := demo_chrono) no_faults (lit "did:a") (lit "s1") (lit " port it ") (Some 5) quiet_point 0%nat empty_goals = (Ok (Ok (true, g)), n1, w1)
  ∧ gw_goals w1 = [g].
Proof.
  destruct (a_session_has_one_model_goal (H := demo_chrono) quiet_point 0%nat empty_goals (lit "did:a") (lit "s1") (lit " port it ") (Some 5))
    as (g & n1 & w1 & Hr & Hg & _); [done|vm_compute; reflexivity|done|]. by exists g, n1, w1.
Defined.
